(* ===== verification/_CoqProject ===== *)
-Q . S2P
Prelude.v
Types.v
Base32.v
Codecs.v
StorePath.v
S3.v
Float32.v
Psi.v
Pool.v
Db.v
Frames.v
Tables.v
Builds.v
Evaluations.v
Lifecycle.v
Cascade.v
PendingQueue.v
Builders.v
Dispatch.v
Selection.v
RunnerLoop.v
Scheduling.v
ActiveBuilds.v
Worker.v
Outcomes.v
Sinks.v
Oidc.v
UploadVerify.v
Rpc.v
RpcUploads.v
RpcAdmission.v
RpcRaces.v
CacheGc.v
Webhooks.v
EvalQueue.v
NixJobs.v
FlakeRefs.v
EvalBuilds.v
BuildGraph.v
Validate.v
JobsetConfig.v
Evaluator.v
EvalCycle.v
Secrets.v
Notify.v
NotifyQueue.v
NotifyRetry.v
Users.v
Auth.v
AuthApi.v
Access.v
Accounts.v
AgentBuild.v
AgentLog.v
AgentOutcome.v
AgentJobs.v
AgentTask.v
AgentReport.v
CacheRoutes.v
CacheServe.v
Projects.v
ProjectApi.v
ProjectAccess.v
Bootstrap.v
Schema.v
Reconcile.v
BootstrapExact.v
ChannelExprs.v
ChannelRead.v
S3Sign.v
S3Verify.v
