(* ===== verification/Prelude.v ===== *)
(** * circus: a verification library for the queue runner, its agents, the evaluator and the server

    circus is a continuous-integration system for Nix.  An evaluator turns the
    jobsets of projects into builds, rows of a PostgreSQL table; the queue runner
    picks pending builds and runs them on connected agents, on SSH builders or on
    itself; a web server shows the results and serves a binary cache.  This library
    models the evaluator (crates/evaluator), the webhooks that feed it
    (crates/server/src/routes/webhooks), the server's accounts and access control, the
    notifications (crates/notification), the queue runner (crates/queue-runner) and
    its agents (crates/agent) with the repository layer (crates/common/src/repo), the statements they send
    (src/queries) and the codecs and validators they share.

    ** Parts and files

    - [Prelude] (this file): results and options with the [?] operator, machine
      integers, texts as UTF-8 byte sequences with the [str] functions the program
      uses, JSON values, stable sorting and lexicographic orders, automation.
    - [Types]: the textual enums of crates/types and common/src/models.rs with
      their codecs, build statuses with integer and exit codes.
    - [Base32], [Codecs], [StorePath]: Nix base-32 (crates/nix/src/base32.rs), the
      interface of the third-party hex, base64 and SHA-256 code, store paths, hash
      texts, object keys and [nix path-info] (crates/nix/src/store.rs, worker.rs,
      rpc/server.rs, rpc/upload_verify.rs).
    - [S3], [S3Sign]: store URIs and prefixes, and the presigner (crates/s3).  [S3Verify]: the
      other end of a presigned address, the client and the object store.
    - [Float32], [Psi]: [f32] as the Standard Library's IEEE 754 specification;
      pressure files, the reading over SSH and its cache (psi.rs of common and
      queue-runner).
    - [Pool]: rpc/pool.rs.  An [Arc<AgentMeta>] is an address of a heap shared by the
      pool and the slot guards; [Slots] is the lock-free slot counter as a step
      relation of the atomic actions of any number of threads, with stale loads and
      spurious failures of the weak exchange.
    - [Db]: the rows, the world (tables, clock, advisory locks held by others, and a
      list that decides which query fails), and the state-and-error monad in which
      all database code is written; a failed statement changes nothing.  [Frames]: the
      relations on worlds a computation keeps.  [Tables]: keys, unique columns and references
      between tables.
    - [Builds], [Builders]: the SQL statements and the repository functions on
      builds, dependencies, outputs, the cache of failures, remote builders and
      agent sessions.
    - [Lifecycle], [Cascade], [PendingQueue]: the builds table as a transition
      system under any sequence of client operations; [cancel_cascade]; the
      scheduling query.
    - [Dispatch], [Selection]: dispatch.rs, caps.rs and the registration check:
      capacity, gates, ranking, reservation of a venue.
    - [RunnerLoop], [Scheduling]: runner_loop.rs and helpers.rs: the gates a pending
      build passes in a cycle, in the order of the code, and the cycle.
    - [ActiveBuilds]: the table of active builds that dispatched tasks, the cancel
      checker (cli.rs) and the orphan recovery share, as interleaved steps.
    - [Worker], [Outcomes]: worker.rs and features.rs: running a claimed build on its
      venue and recording the outcome.
    - [Sinks]: rpc/log_sink.rs, output_sink.rs and result_sink.rs, the capabilities a
      dispatched build hands to its agent, with the end of [dispatch_one].
    - [Oidc]: rpc/oidc.rs, the ID tokens of agents and the cache of the issuer's keys.
    - [UploadVerify]: rpc/upload_verify.rs, the streaming check of an uploaded NAR.
    - [Rpc]: rpc/server.rs and session.rs.  The server runs on one thread, so a handler
      is atomic between two [.await]s; a suspended handler is a [Task] of the shared
      state, and [step] interleaves the segments of all handlers with the scheduler, the
      other clients of the database and the object store.
    - [RpcUploads], [RpcAdmission], [RpcRaces]: what holds of every run of [Rpc], and
      runs that show what does not.
    - [CacheGc]: the narinfo table (repo/narinfo_cache.rs), the narinfos the worker
      signs and writes itself, and the cleanup of the cache (cache_gc.rs).
    - [Evaluations]: repo/evaluations.rs and the parts of repo/jobsets.rs the server,
      the evaluator and the runner share: creation of evaluations, the latest-only
      policy, claims, ends, restart, the sweep of orphans.
    - [Webhooks]: the routes GitHub, GitLab, Gitea and Forgejo call, ref patterns
      (common/src/glob.rs) and what a push or a change request enqueues.
    - [EvalQueue]: evaluations as a transition system under any sequence of the
      operations of webhooks, server and evaluators.
    - [NixJobs], [FlakeRefs]: evaluator/src/nix.rs and its modules: the events and
      errors of an evaluation, meta data, [nix derivation show] and required features
      (crates/nix/src/derivation.rs); the flake reference of a repository, lock files
      and the allowlist of a restricted evaluation.
    - [EvalBuilds], [BuildGraph]: evaluator/src/builds.rs and common/src/systems.rs:
      from the jobs of a result to builds and their dependencies, in one transaction.
    - [Validate], [JobsetConfig]: the validators of crates/types, crates/nix and
      crates/common; creation, update and declaration of jobsets and inputs.
    - [Evaluator], [EvalCycle]: eval_loop.rs, evaluation_state.rs, path_filter.rs and
      git.rs: the cycle, with the answers of Git, Nix and the checkout as the fields of
      an environment.
    - [Secrets], [Notify], [NotifyQueue]: crates/notification with common/src/crypto.rs,
      repo/notification_configs.rs, repo/notification_tasks.rs and the retry loop of
      queue-runner/src/cli.rs: events, channels and their stored form, what each channel
      sends, dispatch with and without the queue.  [NotifyRetry]: what holds of them.
    - [Users]: the accounts with their sessions, the API keys and the members of projects
      (common/src/validation.rs, repo/users.rs, repo/api_keys.rs, repo/project_members.rs).
    - [Auth], [AuthApi]: crates/server: auth_middleware.rs, permissions.rs,
      session_cookie.rs, error.rs, login and logout (routes/dashboard/auth.rs, oauth.rs,
      ldap.rs), the gates of the dashboard, and the API of accounts and keys (routes/users.rs,
      routes/auth.rs).  [Access], [Accounts]: what holds of them.
    - [AgentBuild]: crates/agent/src/build.rs and proto/src/nix_log.rs: the supervision of
      one build.  The loop of [run_command] consumes a record of its iterations ([Turn]:
      the branch of [select!], the lines that have arrived, the clock, what [try_wait] and
      the log sink answer); [can_select] excludes turns [select!] cannot take.
      [AgentLog]: its log up to the runner's file; [AgentOutcome]: its outcome.
    - [AgentJobs]: session.rs: the table of running builds, the job counter and the life of
      an ephemeral agent, as interleaved steps.
    - [AgentTask]: the rest of a build task: fetching the derivation (drv_sink.rs), uploads
      (upload.rs), the export of outputs, the report, and the agent's identity.
      [AgentReport]: the same exchanges seen from both ends.
    - [CacheRoutes]: the public binary cache: server/src/routes/cache.rs with
      common/src/repo/cache.rs and the signatures of crates/binary-cache.  [CacheServe]: what
      the cache gives out, and that an upload is served.
    - [Projects]: the rows of projects, jobsets, inputs, webhooks and channels with their
      statements and repositories (repo/projects.rs, jobsets.rs, jobset_inputs.rs,
      webhook_configs.rs, channels.rs), the deletion of a project with its jobsets and
      builds, promotion of channels and the comparison of evaluations.  [ProjectApi]: the
      routes that reach them (routes/projects.rs, jobsets.rs, channels.rs, builds.rs,
      evaluations.rs, declarative.rs) as one function from requests to answers.  [ProjectAccess]: what holds of every request.
    - [Bootstrap]: common/src/bootstrap.rs, the reconciliation of the database with the
      declarations of the configuration at a start.  [Schema]: the references between the
      tables and their cascades, kept by every request and by the bootstrap.  [Reconcile],
      [BootstrapExact]: what a start leaves behind.
    - [ChannelExprs]: the public files of a channel (the rest of routes/channels.rs and
      channel_manifests.rs): the Nix expression, the revision, the address of the cache, the
      list of store paths.  [ChannelRead]: what a Nix client reads in them, with a lexer for
      the part of the Nix language they use.

    They interact as the program does: [RunnerLoop] calls [Builds] and [Builders] and
    hands builds to [Worker] ([EDispatch]), which reserves a venue through
    [Dispatch], which takes a slot of [Pool]; [ActiveBuilds] is the state the tasks
    leave behind.  [Rpc] fills the pool, marks builds active on agents and writes the
    narinfos; it calls [Oidc], [UploadVerify], [Builds] and [Builders].  [Webhooks]
    enqueues evaluations, [Evaluator] claims them, and [EvalBuilds] turns their results
    into the pending builds from which [RunnerLoop] starts.  [NotifyQueue] tells the
    world what became of a build; it reads the rows of [Builds].  [AuthApi] puts the
    middleware of [Auth] before its handlers, and both call [Users].  [AgentTask] runs
    [AgentBuild], whose log goes to [Sinks.LogSink], whose outputs to [Sinks.OutputSink] and
    whose report to [Sinks.ResultSink]; its uploads are checked by [UploadVerify].
    [CacheRoutes] serves the objects that [Rpc] and [Worker] have put into the store, by the
    rows of [CacheGc].  [ProjectApi] puts the permissions of [Auth] before the operations of
    [Projects] and the builds and evaluations of [Builds] and [Evaluations]; [Bootstrap] calls
    [Projects], [Users], [JobsetConfig], [Notify] and [Builders].

    ** What the theorems show

    - Builds table: whatever the clients do, rows are consistent and at most one
      build of a derivation runs ([lifecycle_invariant]); claiming is exclusive;
      requeueing protects finished builds; cancelling cascades exactly; the
      scheduling query returns the most urgent schedulable builds.
    - Agents: the slot counter is exact and refines a counting semaphore; the
      reserved agent is capable, trusted, not backing off, has a slot and is the best
      of these, whatever the iteration order of the hash map; registration keeps the
      pool fit for this; the capacity estimate is exact.
    - Loop: a cycle dispatches exactly the builds that pass the gates; every venue a
      build gets can run it; a run always ends with the outcome of its venue on record, where
      what an agent, an SSH builder or the runner itself answers is specified apart from the
      code ([venue_answers], [run_reserved_records]); a build that fails every time, on any
      venues, is tried a bounded number of times ([retries_bounded]); the required features
      are never lost.
    - Builders and sessions: back-off, pruning and reconciliation, which leaves exactly the
      declared builders or, if a build refers to one of the others, fails and changes nothing
      ([sync_all_exact]).
    - RPC server: every persisted narinfo is authorised and describes what was
      downloaded; each agent of the pool has an open connection and a registration in the past
      of the run, in which it presented a configured token or an identity of the issuer for
      that very connection ([pool_only_admitted]); the streaming
      verification is exact; key fetches are rate limited; the first report counts; the
      log is exactly what was accepted and within its limit.
    - Cleanup: a cycle deletes exactly the aged uploads and, above the maximal size, the
      shortest run of least recently used ones.
    - Evaluations: the latest-only policy is exact, both in what it refuses and in what it
      replaces ([latest_only_exact]), and leaves one open evaluation per source; a push
      triggers exactly the enabled jobsets that follow sources and whose ref it is
      ([should_trigger], [push_triggers_exactly]); only authenticated webhooks
      have an effect; orphans are queued again and given up; a pending task always ends
      with its evaluation settled.
    - From evaluation to builds: the closure of the jobs is exact and ends; builds,
      edges and the end of the evaluation are recorded together or not at all; the new
      builds never wait for each other in a circle; what is evaluated is the resolved
      commit.
    - Notifications: a stored channel is read back with its secrets; the retry queue
      sends exactly what an immediate delivery would, and refuses a stored channel only where its
      validator does ([queue_same_as_immediate]); a round of the loop settles every
      task it claims; no task is tried more often than its limit allows.
    - Access: a request passes only as what its credentials prove; without an
      administrator's credential no account, role or key changes; names, addresses and key
      hashes stay unique; sessions let in exactly their enabled users and can be ended; the
      pages and the API agree on every permission.
    - On an agent: the log on the runner's disk is the longest prefix of the child's lines
      that fits; every outcome has its evidence in the run, and an exit that was seen
      decides it; the runner learns what happened; the job table is exact and bounded; every
      output is uploaded or accounted for, and what is uploaded passes the runner's check.
    - Public cache: what is given out has its grounds in the scope that was asked, and an
      upload the runner has accepted is available at once, or, while the cache in memory still
      holds an older answer for its hash, that answer ([serves_only_ours], [upload_is_served]).
    - Projects: every request that changes a project has its permission
      ([api_needs_permission]); nobody changes, through the API, a project the configuration manages and does
      not release ([declared_project_untouched]; a promotion moves the pointer of a channel,
      which no such project withholds); the comparison of two evaluations is exact
      ([comparison_exact]); the references between the tables hold after every
      request and after a start ([schema_invariant]).
    - Bootstrap: a start that succeeds leaves every declared project with its declared
      jobsets, inputs, notifications, webhooks and channels, column by column
      ([declares_project], [jobset_columns] and the like), and no project that is managed
      and no longer declared ([bootstrap_reconciles]).
    - Channels: the expression reads back as exactly the succeeded builds with their outputs,
      whatever characters the stored texts have ([channel_reads_back]), and its bytes do not
      depend on the order of the rows ([channel_order_irrelevant]).
    - Presigned addresses: an object store that follows the documented rules of Signature
      Version 4, with its own percent-encoding, accepts them for exactly the method and object
      they were made for ([presigned_url_accepted]), and what is signed determines the request
      ([presign_binds]).
    - Texts: base-32 and hash texts round trip and their two readers agree; what
      agents send cannot leave its object-key prefix; the two upload paths name the
      same objects; every enum decodes exactly what it encodes.
    - Theorems that show a flaw: a cancelled build is overwritten by a late worker;
      two builds of a one-at-a-time jobset run at once; a build dispatched twice is
      lost from the table of active builds and requeued while it runs; a builder
      with history cannot be removed; timeouts reported by agents are recorded as
      failures; no build duration is ever recorded; the session row of an agent and the
      pool disagree after a reconnection or an interrupted registration; an upload is
      authorised after its build has ended; expired OIDC keys are served while the issuer
      is unreachable; the cleanup deletes an object that another row still names, and
      the narinfo of a closure hides an upload from it; a branch stalls after a push to a
      commit that has been evaluated; changed inputs are not evaluated; a change request
      reconfigures the project; a finished one-shot jobset is revived; the revision of an
      input and the port of a repository are lost; an error of a poll leaves its
      evaluation running; the notifications a dead runner had claimed are never sent; a
      cached failure is announced as a success; the queue refuses a webhook that an
      immediate delivery reaches; a session opened with an API key outlives the key; a browser
      with both kinds of session is locked out; GitHub opens a local account of the right name;
      an agent loses blank lines, kills a build for a very long one and stops watching it at
      one that is not UTF-8; it forgets running builds on a shutdown or a new connection;
      a channel promoted to an evaluation of another project keeps the bootstrap from
      removing its project ([foreign_promotion_blocks_start]); the public addresses of a
      channel pass to another project ([channel_name_taken_over]).

    ** Conventions

    Identifiers are their 128-bit value in [Z]; an [Instant] counts nanoseconds and
    a [DateTime] microseconds; integers are in [Z] with the wrap, saturation or
    range check of the code written out.  Statements are atomic; where two
    statements of one function interleave with other clients and it matters, the
    function is also given as steps.  Theorems "without faults" assume that the
    database answers ([w_faults w = []]); invariants hold with faults.

    Runs of the agent's loop are lists of turns of any length; a theorem about a finished
    run assumes that the loop has ended ([Broke]), which the code does not bound without
    a timeout.

    Fuel: [expand_loop] has one unit for each edge of the derivations, each job and the
    end, and [expansion_exact] shows that this suffices; [open_session] halves the number
    of workers; [cancel_loop] has one more unit than there are active builds, and
    [cancel_cascade_exact] shows that this always suffices; [split_ws] and
    [strip_all] have the length of the text, of which every round consumes at least
    one character.

    ** Not modelled

    Child processes (nix, nix-store, ssh), HTTP, TLS, JWT and decompression libraries,
    URL parsing, percent-encoding and HMAC are parameters; their answers are universally
    quantified.  The crate binary-cache is vendored from Harmonia
    (its lib.rs says so) and, like the query bindings generated from src/queries, left aside;
    what the server does with signatures and narinfos of its own is in [CacheRoutes].
    Tracing, the archives of tar and xz, the rotation of log files, GC roots and metrics have no model; nor have the
    pages of the dashboard other than its gates, the routes for search, administration and
    metrics, the loading of the configuration files, migrations and the command line; nor the
    namespaces and mounts of the agent's sandbox, its heartbeat readings, TLS and
    reconnection; of SMTP and the forges, the requests and the answers.  The tasks that a
    cycle of the evaluator runs concurrently are run one after the other in [Evaluator]; how
    their statements interleave is the subject of [EvalQueue].  The collation of
    [ORDER BY name] is left open.  The isolation level of concurrent statements is taken
    as serial. *)

From stdpp Require Export prelude strings pretty gmap list sorting.
From Stdlib Require Export ZArith Lia.
From Stdlib Require Ascii String.
Export Stdlib.Strings.Ascii (ascii(..), N_of_ascii, ascii_of_N).
Export (notations) Stdlib.Strings.Ascii.

#[global] Open Scope Z_scope.

(** ** Results

    Rust's [Result<A, E>]. *)

Inductive result (E A : Type) : Type :=
  | Ok (a : A)
  | Err (e : E).
Arguments Ok {E A} a.
Arguments Err {E A} e.

Declare Scope circus_scope.
Delimit Scope circus_scope with circus.
#[global] Open Scope circus_scope.

Definition rbind {E A B} (m : result E A) (k : A → result E B) : result E B :=
  match m with Ok a => k a | Err e => Err e end.

Definition is_ok {E A} (m : result E A) : bool :=
  match m with Ok _ => true | Err _ => false end.

(** The [?] operator: propagate an error, bind a value. *)
Notation "'let?' x := m 'in' k" := (rbind m (λ x, k))
  (at level 10, x pattern, m at level 100, k at level 200) : circus_scope.

(** The same for [Option]. *)
Definition obind {A B} (m : option A) (k : A → option B) : option B :=
  match m with Some a => k a | None => None end.

Notation "'let*' x := m 'in' k" := (obind m (λ x, k))
  (at level 10, x pattern, m at level 100, k at level 200) : circus_scope.

#[global] Instance result_eq_dec {E A} `{EqDecision E, EqDecision A} :
  EqDecision (result E A).
Proof. solve_decision. Defined.

(** ** Identifiers and time

    A [Uuid] is its 128-bit value (the derived order is the order of the value);
    an [Instant] is in nanoseconds, a [DateTime<Utc>] in microseconds, the
    resolution of the database. *)

Abbreviation Uuid := Z (only parsing).
Abbreviation Instant := Z (only parsing).
Abbreviation DateTime := Z (only parsing).

(** ** Machine integers *)

Definition U32_MAX : Z := 4294967295.
Definition I32_MAX : Z := 2147483647.
Definition I32_MIN : Z := -2147483648.
Definition U64_MAX : Z := 18446744073709551615.
Definition I64_MAX : Z := 9223372036854775807.
Definition I64_MIN : Z := -9223372036854775808.

Definition is_u32 (z : Z) : Prop := 0 ≤ z ≤ U32_MAX.
Definition is_u64 (z : Z) : Prop := 0 ≤ z ≤ U64_MAX.

Definition u32_saturating_add (a b : Z) : Z := Z.min (a + b) U32_MAX.
Definition u32_saturating_sub (a b : Z) : Z := Z.max (a - b) 0.
Definition u64_saturating_add (a b : Z) : Z := Z.min (a + b) U64_MAX.
Definition i64_saturating_add (a b : Z) : Z :=
  Z.max I64_MIN (Z.min (a + b) I64_MAX).
(** [Ord::clamp]. *)
Definition clamp (lo hi z : Z) : Z := Z.max lo (Z.min z hi).
(** Two's-complement wrap of an unsigned 32-bit operation. *)
Definition wrap_u32 (z : Z) : Z := z mod 4294967296.

(** ** Orderings

    [std::cmp::Ordering] is [comparison]; [then_with] is lexicographic. *)

Definition then_with (a b : comparison) : comparison :=
  match a with Eq => b | _ => a end.

(** ** Strings

    A Rust [str] is its UTF-8 byte sequence, one [ascii] per byte. *)

Definition byte_of (c : ascii) : Z := Z.of_N (N_of_ascii c).

Fixpoint str_len (s : string) : Z :=
  match s with
  | "" => 0
  | String _ s => 1 + str_len s
  end.

Fixpoint str_chars (s : string) : list ascii :=
  match s with
  | "" => []
  | String c s => c :: str_chars s
  end.

Fixpoint str_of (l : list ascii) : string :=
  match l with
  | [] => ""
  | c :: l => String c (str_of l)
  end.

Fixpoint strip_prefix (p s : string) : option string :=
  match p, s with
  | "", _ => Some s
  | String a p, String b s =>
      if decide (a = b) then strip_prefix p s else None
  | _, "" => None
  end.

Definition is_some {A} (o : option A) : bool :=
  match o with Some _ => true | None => false end.
Definition is_none {A} (o : option A) : bool := negb (is_some o).

Definition starts_with (p s : string) : bool := is_some (strip_prefix p s).

Definition strip_suffix (p s : string) : option string :=
  String.rev <$> strip_prefix (String.rev p) (String.rev s).

(** [str::contains] for a string pattern. *)
Fixpoint contains (pat s : string) : bool :=
  starts_with pat s ||
  match s with
  | "" => false
  | String _ s => contains pat s
  end.

(** [str::split_once] for a character. *)
Fixpoint split_once (c : ascii) (s : string) : option (string * string) :=
  match s with
  | "" => None
  | String a s =>
      if decide (a = c) then Some ("", s)
      else match split_once c s with
           | Some (l, r) => Some (String a l, r)
           | None => None
           end
  end.

(** [str::split] for a character predicate: always at least one piece. *)
Fixpoint split_by (p : ascii → bool) (s : string) : list string :=
  match s with
  | "" => [""]
  | String a s =>
      if p a then "" :: split_by p s
      else match split_by p s with
           | h :: t => String a h :: t
           | [] => [String a ""]
           end
  end.

Definition char_is (c a : ascii) : bool := bool_decide (a = c).

Fixpoint str_join (sep : string) (l : list string) : string :=
  match l with
  | [] => ""
  | [s] => s
  | s :: l => s +:+ sep +:+ str_join sep l
  end.

Definition NL : ascii := "010"%char.
Definition CR : ascii := "013"%char.
Definition TAB : ascii := "009"%char.

(** A [match] on string literals whose arms carry the values [l]. *)
Fixpoint match_str {A} (s : string) (l : list (string * A)) : option A :=
  match l with
  | [] => None
  | (k, a) :: l => if decide (s = k) then Some a else match_str s l
  end.

(** [str::trim_end_matches] for a character. *)
Fixpoint trim_end_matches (c : ascii) (s : string) : string :=
  match s with
  | "" => ""
  | String a s =>
      let t := trim_end_matches c s in
      if decide (a = c ∧ t = "") then "" else String a t
  end.

(** [str::rsplit(c).next()]: what follows the last [c], all of [s] without one. *)
Fixpoint after_last (c : ascii) (s : string) : string :=
  match s with
  | "" => ""
  | String a t =>
      if existsb (char_is c) (str_chars t) then after_last c t
      else if decide (a = c) then t else s
  end.

(** [value.chars().any(char::is_control)], on the bytes of a UTF-8 text: the C0
    controls, DEL, and the C1 controls U+0080 to U+009F ([C2 80] to [C2 9F]). *)
Fixpoint has_control (s : string) : bool :=
  match s with
  | "" => false
  | String a t =>
      (byte_of a <? 32) || (byte_of a =? 127) ||
      match t with
      | String b _ => (byte_of a =? 194) && (byte_of b <=? 159)
      | "" => false
      end || has_control t
  end.

Definition in_range (lo hi c : ascii) : bool :=
  (byte_of lo <=? byte_of c) && (byte_of c <=? byte_of hi).

(** [u8::is_ascii_hexdigit]. *)
Definition is_ascii_hexdigit (c : ascii) : bool :=
  in_range "0" "9" c || in_range "a" "f" c || in_range "A" "F" c.

(** Every byte of the text satisfies [p]. *)
Definition str_all (p : ascii → bool) (s : string) : bool :=
  forallb p (str_chars s).

(** The first of the patterns that prefixes [s], removed. *)
Fixpoint strip_any (pats : list string) (s : string) : option string :=
  match pats with
  | [] => None
  | p :: pats => match strip_prefix p s with
                 | Some t => Some t
                 | None => strip_any pats s
                 end
  end.

(** Remove prefixes as long as one matches; [fuel] bounds the rounds. *)
Fixpoint strip_all (fuel : nat) (pats : list string) (s : string) : string :=
  match fuel with
  | O => s
  | S fuel => match strip_any pats s with
              | Some t => strip_all fuel pats t
              | None => s
              end
  end.

Definition trim_start_of (pats : list string) (s : string) : string :=
  strip_all (String.length s) pats s.
Definition trim_end_of (pats : list string) (s : string) : string :=
  String.rev (trim_start_of (String.rev <$> pats) (String.rev s)).

(** The UTF-8 encodings of the [White_Space] characters. *)
Definition of_bytes (l : list N) : string := str_of (ascii_of_N <$> l).
Definition white_space : list string :=
  of_bytes <$>
    [[9]; [10]; [11]; [12]; [13]; [32]; [194; 133]; [194; 160]; [225; 154; 128];
     [226; 128; 128]; [226; 128; 129]; [226; 128; 130]; [226; 128; 131];
     [226; 128; 132]; [226; 128; 133]; [226; 128; 134]; [226; 128; 135];
     [226; 128; 136]; [226; 128; 137]; [226; 128; 138]; [226; 128; 168];
     [226; 128; 169]; [226; 128; 175]; [226; 129; 159]; [227; 128; 128]]%N.

(** [str::trim], and [trim_end_matches] and [trim_start_matches] for a string. *)
Definition trim (s : string) : string :=
  trim_end_of white_space (trim_start_of white_space s).
Definition trim_end_matches_str (pat s : string) : string := trim_end_of [pat] s.
Definition trim_start_matches_str (pat s : string) : string := trim_start_of [pat] s.

(** [str::lines]: split at line feeds, without the carriage return before one and
    without an empty last line. *)
Definition strip_cr (s : string) : string :=
  default s (strip_suffix (String CR "") s).
Definition lines (s : string) : list string :=
  let pieces := split_by (char_is NL) s in
  let last := List.last pieces "" in
  (strip_cr <$> removelast pieces) ++ (if decide (last = "") then [] else [last]).

(** [str::split_whitespace]: [acc] is the piece so far, reversed; [fuel] bounds
    the characters left. *)
Fixpoint split_ws (fuel : nat) (acc s : string) : list string :=
  let piece := if decide (acc = "") then [] else [String.rev acc] in
  match fuel, s with
  | S fuel, String a t =>
      match strip_any white_space s with
      | Some t => piece ++ split_ws fuel "" t
      | None => split_ws fuel (String a acc) t
      end
  | _, _ => piece
  end.
Definition split_whitespace (s : string) : list string :=
  split_ws (String.length s) "" s.

(** *** Lemmas on strings *)

Lemma str_len_chars s : str_len s = Z.of_nat (length (str_chars s)).
Proof. induction s as [|c s IH]; [done|]. cbn [str_len str_chars length]. lia. Qed.

Lemma str_chars_of l : str_chars (str_of l) = l.
Proof. induction l; simpl; by f_equal. Qed.

Lemma str_of_chars s : str_of (str_chars s) = s.
Proof. induction s; simpl; by f_equal. Qed.

Lemma str_chars_app s t : str_chars (s +:+ t) = str_chars s ++ str_chars t.
Proof. induction s; simpl; [done|]. by rewrite <-IHs. Qed.

Lemma str_len_app s t : str_len (s +:+ t) = str_len s + str_len t.
Proof. rewrite !str_len_chars, str_chars_app, length_app. lia. Qed.

Lemma str_app_assoc s t u : s +:+ t +:+ u = (s +:+ t) +:+ u.
Proof.
  induction s as [|a s IH]; [done|].
  change (String a (s +:+ t +:+ u) = String a ((s +:+ t) +:+ u)). by rewrite IH.
Qed.

Lemma str_app_nil s : s +:+ "" = s.
Proof. induction s as [|a s IH]; [done|]. change (String a (s +:+ "") = String a s). by rewrite IH. Qed.

Lemma str_len_nonneg s : 0 ≤ str_len s.
Proof. rewrite str_len_chars. lia. Qed.

Lemma str_all_app p s t : str_all p (s +:+ t) = str_all p s && str_all p t.
Proof. unfold str_all. by rewrite str_chars_app, forallb_app. Qed.

Lemma str_all_impl p q s :
  (∀ c, p c = true → q c = true) → str_all p s = true → str_all q s = true.
Proof. unfold str_all. rewrite !forallb_forall. auto. Qed.

Lemma strip_prefix_some p s t : strip_prefix p s = Some t ↔ s = p +:+ t.
Proof.
  revert s. induction p as [|a p IH]; intros s; simpl.
  - split; [by intros [= ->]|by intros ->].
  - destruct s as [|b s]; [done|]. case_decide as Hab.
    + subst b. rewrite IH. split; [by intros ->|].
      intros H. change (String a p +:+ t) with (String a (p +:+ t)) in H. congruence.
    + split; [done|]. intros H.
      change (String a p +:+ t) with (String a (p +:+ t)) in H. congruence.
Qed.

Lemma strip_prefix_app p t : strip_prefix p (p +:+ t) = Some t.
Proof. by apply strip_prefix_some. Qed.

Lemma starts_with_true p s : starts_with p s = true ↔ ∃ t, s = p +:+ t.
Proof.
  unfold starts_with, is_some. destruct (strip_prefix p s) as [t|] eqn:E.
  - apply strip_prefix_some in E. split; [by exists t|done].
  - split; [done|]. intros [t Ht]. apply strip_prefix_some in Ht. congruence.
Qed.

(** *** Lemmas on [match_str] *)

Lemma split_once_app c l r :
  existsb (char_is c) (str_chars l) = false → split_once c (l +:+ String c r) = Some (l, r).
Proof.
  induction l as [|a l IH]; simpl.
  - by rewrite decide_True.
  - rewrite orb_false_iff. intros [Ha%bool_decide_eq_false Hl]. by rewrite decide_False, IH.
Qed.

Lemma match_str_in {A} s (l : list (string * A)) a :
  match_str s l = Some a → (s, a) ∈ l.
Proof.
  induction l as [|[k b] l IH]; simpl; [done|].
  case_decide; intros; simplify_eq; set_solver.
Qed.

Lemma match_str_none {A} s (l : list (string * A)) :
  match_str s l = None ↔ s ∉ l.*1.
Proof.
  induction l as [|[k b] l IH]; simpl.
  - split; [intros _; apply not_elem_of_nil|done].
  - case_decide; [|rewrite IH, not_elem_of_cons; tauto].
    subst k. split; [done|]. intros []. apply list_elem_of_here.
Qed.

(** ** JSON values

    [serde_json::Value].  A number is an integer or some other number; an object
    lists its entries in the key order of the map. *)

#[warnings="-register-all"]
Inductive Json :=
  | JNull
  | JBool (b : bool)
  | JInt (z : Z)
  | JFloat
  | JStr (s : string)
  | JArr (l : list Json)
  | JObj (l : list (string * Json)).

(** [Value::get] for a key. *)
Definition json_get (k : string) (j : Json) : option Json :=
  match j with JObj l => match_str k l | _ => None end.
Definition json_str (j : Json) : option string :=
  match j with JStr s => Some s | _ => None end.
Definition json_array (j : Json) : option (list Json) :=
  match j with JArr l => Some l | _ => None end.
Definition json_bool (j : Json) : option bool :=
  match j with JBool b => Some b | _ => None end.
Definition json_i64 (j : Json) : option Z :=
  match j with
  | JInt z => if (I64_MIN <=? z) && (z <=? I64_MAX) then Some z else None
  | _ => None
  end.

Definition json_get_str (k : string) (j : Json) : option string :=
  match json_get k j with Some v => json_str v | None => None end.
Definition json_get_array (k : string) (j : Json) : option (list Json) :=
  match json_get k j with Some v => json_array v | None => None end.
Definition json_get_i64 (k : string) (j : Json) : option Z :=
  match json_get k j with Some v => json_i64 v | None => None end.

(** ** Textual enums

    What the enums of the program promise to the columns, query strings and
    JSON bodies that carry them: [from_str] accepts exactly the texts
    [as_str] prints. *)

Class TextEnum (A : Type) := {
  as_str : A → string;
  from_str : string → result string A;
  from_as_str a : from_str (as_str a) = Ok a;
  as_from_str s a : from_str s = Ok a → as_str a = s;
}.
#[global] Hint Mode TextEnum ! : typeclass_instances.

Section text_enum.
Context `{TextEnum A}.

Lemma as_str_inj (a b : A) : as_str a = as_str b → a = b.
Proof.
  intros E. pose proof (from_as_str a) as Ha.
  rewrite E, from_as_str in Ha. by simplify_eq.
Qed.

Lemma from_str_ok_iff s (a : A) : from_str s = Ok a ↔ s = as_str a.
Proof. split; [by intros ?%as_from_str|intros ->; apply from_as_str]. Qed.
End text_enum.

(** ** Lexicographic orders *)

Fixpoint lex_cmp (a b : list Z) : comparison :=
  match a, b with
  | [], [] => Eq
  | [], _ => Lt
  | _, [] => Gt
  | x :: a, y :: b => then_with (x ?= y) (lex_cmp a b)
  end.

Lemma then_with_eq a b : then_with a b = Eq ↔ a = Eq ∧ b = Eq.
Proof. destruct a; simpl; intuition congruence. Qed.

Lemma then_with_assoc a b c : then_with (then_with a b) c = then_with a (then_with b c).
Proof. by destruct a. Qed.

Lemma lex_cmp_app a b c d :
  length a = length b →
  lex_cmp (a ++ c) (b ++ d) = then_with (lex_cmp a b) (lex_cmp c d).
Proof.
  revert b. induction a as [|x a IH]; intros [|y b] Hl; simplify_eq/=; [done|].
  by rewrite IH, then_with_assoc.
Qed.

Lemma lex_cmp_eq a b : lex_cmp a b = Eq → a = b.
Proof.
  revert b. induction a as [|x a IH]; intros [|y b]; simpl; try done.
  rewrite then_with_eq, Z.compare_eq_iff. intros [-> ?]. f_equal. auto.
Qed.

Lemma lex_cmp_refl a : lex_cmp a a = Eq.
Proof. induction a as [|x a IH]; simpl; [done|]. by rewrite Z.compare_refl. Qed.

Lemma lex_cmp_antisym a b : lex_cmp b a = CompOpp (lex_cmp a b).
Proof.
  revert b. induction a as [|x a IH]; intros [|y b]; simpl; try done.
  rewrite (Z.compare_antisym x y), IH. by destruct (x ?= y).
Qed.

Lemma lex_cmp_trans a b c :
  lex_cmp a b = Lt → lex_cmp b c = Lt → lex_cmp a c = Lt.
Proof.
  revert b c. induction a as [|x a IH]; intros [|y b] [|z c]; simpl; try done.
  destruct (Z.compare_spec x y), (Z.compare_spec y z), (Z.compare_spec x z);
    subst; simpl; try done; try lia. apply IH.
Qed.

Lemma lex_cmp_opp a b :
  length a = length b → lex_cmp (map Z.opp a) (map Z.opp b) = lex_cmp b a.
Proof.
  revert b. induction a as [|x a IH]; intros [|y b] Hl; simplify_eq/=; [done|].
  by rewrite IH, Z.compare_opp.
Qed.

(** ** Lengths and maps *)

(** The length of a byte sequence, as the machine integer it is. *)
Definition zlen {A} (l : list A) : Z := Z.of_nat (length l).

Lemma zlen_nonneg {A} (l : list A) : 0 ≤ zlen l.
Proof. unfold zlen. lia. Qed.

Lemma zlen_app {A} (l l' : list A) : zlen (l ++ l') = zlen l + zlen l'.
Proof. unfold zlen. rewrite length_app. lia. Qed.

Lemma alter_as_insert `{Countable K} {A} (f : A → A) (i : K) x (m : gmap K A) :
  m !! i = Some x → alter f i m = <[i := f x]> m.
Proof.
  intros Hi. apply map_eq. intros j. rewrite lookup_alter, lookup_insert.
  case_decide; [subst j; by rewrite Hi|done].
Qed.

Lemma filter_perm {A} (f : A → bool) l l' :
  l ≡ₚ l' → List.filter f l ≡ₚ List.filter f l'.
Proof.
  induction 1; simpl; repeat case_match; auto using perm_swap. by etrans.
Qed.

(** ** Stable sorting

    [slice::sort_by], as an insertion sort: an element moves behind the ones it
    is greater than, so equal elements keep their order. *)

Section sort_by.
Context {A : Type} (cmp : A → A → comparison).

Fixpoint insert_by (x : A) (l : list A) : list A :=
  match l with
  | [] => [x]
  | y :: l => match cmp x y with
              | Gt => y :: insert_by x l
              | _ => x :: y :: l
              end
  end.

Fixpoint sort_by (l : list A) : list A :=
  match l with [] => [] | x :: l => insert_by x (sort_by l) end.

Lemma insert_by_perm x l : insert_by x l ≡ₚ x :: l.
Proof.
  induction l as [|y l IH]; simpl; [done|].
  destruct (cmp x y); try done. rewrite IH. apply perm_swap.
Qed.

Lemma sort_by_perm l : sort_by l ≡ₚ l.
Proof. induction l as [|x l IH]; simpl; [done|]. by rewrite insert_by_perm, IH. Qed.

(** [cmp] is a total order on the elements that satisfy [P]. *)
Record total_on (P : A → Prop) : Prop := {
  total_antisym x y : P x → P y → cmp y x = CompOpp (cmp x y);
  total_eq x y : P x → P y → cmp x y = Eq → x = y;
  total_trans x y z : P x → P y → P z → cmp x y = Lt → cmp y z = Lt → cmp x z = Lt;
}.

Definition cmp_le (x y : A) : Prop := cmp x y ≠ Gt.

Context (P : A → Prop) (HP : total_on P).

Lemma cmp_le_trans x y z : P x → P y → P z → cmp_le x y → cmp_le y z → cmp_le x z.
Proof.
  unfold cmp_le. intros Hx Hy Hz H1 H2.
  destruct (cmp x y) eqn:E1; [apply HP in E1; [by subst|done..]| |done].
  destruct (cmp y z) eqn:E2; [apply HP in E2; [subst; congruence|done..]| |done].
  by rewrite (total_trans P HP x y z).
Qed.

Lemma insert_by_sorted x l :
  P x → Forall P l → StronglySorted cmp_le l → StronglySorted cmp_le (insert_by x l).
Proof.
  intros Hx Hl Hs. induction Hs as [|y l Hs IH Hy]; simpl; [by repeat constructor|].
  apply Forall_cons in Hl as [HPy Hl].
  destruct (cmp x y) eqn:E.
  3:{ constructor; [by apply IH|]. rewrite insert_by_perm. constructor; [|done].
      unfold cmp_le. by rewrite (total_antisym P HP x y), E. }
  all: constructor; [by constructor|].
  all: assert (cmp_le x y) by (unfold cmp_le; congruence).
  all: constructor; [done|].
  all: apply Forall_forall; intros z Hz; rewrite Forall_forall in Hy, Hl;
    apply (cmp_le_trans x y z); auto.
Qed.

Lemma sort_by_sorted l : Forall P l → StronglySorted cmp_le (sort_by l).
Proof.
  induction 1 as [|x l Hx Hl IH]; simpl; [constructor|].
  apply insert_by_sorted; [done| |done]. by rewrite sort_by_perm.
Qed.

(** The sorted list does not depend on the order of the input. *)
Lemma sort_by_unique l l' : Forall P l → l ≡ₚ l' → sort_by l = sort_by l'.
Proof.
  intros Hl Hp. assert (Forall P l') by (by rewrite <-Hp).
  apply (StronglySorted_unique_strong cmp_le).
  - intros x y Hx Hy H1 H2. rewrite sort_by_perm in Hx, Hy.
    rewrite Forall_forall in *. unfold cmp_le in *.
    apply HP; [auto..|]. assert (P x) by auto. assert (P y) by auto.
    rewrite (total_antisym P HP x y) in H2 by done. by destruct (cmp x y).
  - by apply sort_by_sorted.
  - by apply sort_by_sorted.
  - by rewrite !sort_by_perm.
Qed.
End sort_by.

(** Texts compared byte by byte: [Ord] of [str], and the collation [C]. *)
Lemma ascii_compare_trans a b c :
  Ascii.compare a b = Lt → Ascii.compare b c = Lt → Ascii.compare a c = Lt.
Proof. unfold Ascii.compare. rewrite !N.compare_lt_iff. lia. Qed.

Lemma string_compare_trans s t u :
  String.compare s t = Lt → String.compare t u = Lt → String.compare s u = Lt.
Proof.
  revert t u. induction s as [|a s IH]; intros [|b t] [|c u]; simpl; try done.
  destruct (Ascii.compare a b) eqn:E1; try done; destruct (Ascii.compare b c) eqn:E2; try done.
  - apply Ascii.compare_eq_iff in E1 as ->. rewrite E2. apply IH.
  - apply Ascii.compare_eq_iff in E1 as ->. by rewrite E2.
  - apply Ascii.compare_eq_iff in E2 as ->. by rewrite E1.
  - by rewrite (ascii_compare_trans a b c).
Qed.

Lemma string_compare_total : total_on String.compare (λ _, True).
Proof.
  constructor.
  - intros x y _ _. apply String.compare_antisym.
  - intros x y _ _. apply String.compare_eq_iff.
  - intros x y z _ _ _. apply string_compare_trans.
Qed.

Lemma z_compare_total : total_on Z.compare (λ _, True).
Proof.
  constructor.
  - intros x y _ _. apply Z.compare_antisym.
  - intros x y _ _. apply Z.compare_eq.
  - intros x y z _ _ _. rewrite !Z.compare_lt_iff. lia.
Qed.

(** Two keys, one after the other, that identify an element together. *)
Lemma total_on_then {A B C} (cmp : B → B → comparison) (cmp' : C → C → comparison)
    (f : A → B) (g : A → C) (P : A → Prop) :
  total_on cmp (λ _, True) → total_on cmp' (λ _, True) →
  (∀ x y, P x → P y → f x = f y → g x = g y → x = y) →
  total_on (λ x y, then_with (cmp (f x) (f y)) (cmp' (g x) (g y))) P.
Proof.
  intros [Ha He Ht] [Ha' He' Ht'] Hi. constructor.
  - intros x y _ _. rewrite (Ha (f x)), (Ha' (g x)) by done. by destruct (cmp (f x) (f y)).
  - intros x y Hx Hy [H1 H2]%then_with_eq. apply Hi; [done..|by apply He|by apply He'].
  - intros x y z _ _ _ H1 H2.
    destruct (cmp (f x) (f y)) eqn:E1; [|clear H1|done];
      destruct (cmp (f y) (f z)) eqn:E2; try done; simpl in *.
    + apply He in E1 as ->; [|done..]. rewrite E2. simpl. by apply (Ht' _ (g y)).
    + apply He in E1 as ->; [|done..]. by rewrite E2.
    + apply He in E2 as <-; [|done..]. by rewrite E1.
    + by rewrite (Ht _ (f y) (f z)).
Qed.

(** [sort] and [dedup] of texts, in byte order. *)
Definition sort_strings (l : list string) : list string := sort_by String.compare l.

Fixpoint dedup (l : list string) : list string :=
  match l with
  | a :: (b :: _) as rest =>
      if decide (a = b) then dedup rest else a :: dedup rest
  | _ => l
  end.

Lemma dedup_elem l f : f ∈ dedup l ↔ f ∈ l.
Proof.
  induction l as [|a [|b l] IH]; [done|done|]. cbn [dedup].
  case_decide as Hab; [|by rewrite !elem_of_cons, IH, elem_of_cons].
  subst b. rewrite IH, !elem_of_cons. tauto.
Qed.

Lemma strongly_sorted_impl {A} (R S : A → A → Prop) l :
  (∀ x y, R x y → S x y) → StronglySorted R l → StronglySorted S l.
Proof.
  intros HRS. induction 1 as [|x l _ IH Hx]; constructor; [done|].
  eapply Forall_impl; eauto.
Qed.

(** A comparison by a key that determines the element is a total order. *)
Lemma total_on_key {A} (cmp : A → A → comparison) (P : A → Prop) (key : A → list Z) :
  (∀ x y, P x → P y → cmp x y = lex_cmp (key x) (key y)) →
  (∀ x y, P x → P y → key x = key y → x = y) →
  total_on cmp P.
Proof.
  intros Hcmp Hinj. constructor.
  - intros x y Hx Hy. rewrite !Hcmp by done. apply lex_cmp_antisym.
  - intros x y Hx Hy. rewrite Hcmp by done. intros ?%lex_cmp_eq. auto.
  - intros x y z Hx Hy Hz. rewrite !Hcmp by done. apply lex_cmp_trans.
Qed.

(** ** Automation *)

Create HintDb circus.
Create Rewrite HintDb circus.

(** Reduce a hypothesis [match_str s l = Some a] on a concrete [l] to its
    cases. *)
Ltac invert_match_str H :=
  apply match_str_in in H;
  repeat first [ apply elem_of_cons in H as [H|H]
               | by apply elem_of_nil in H ];
  simplify_eq.

(** Split the first [match] or [if] of the goal or of a hypothesis. *)
Ltac case_one :=
  match goal with
  | H : context [match ?x with _ => _ end] |- _ =>
      lazymatch x with context [match _ with _ => _ end] => fail | _ =>
        let E := fresh "E" in destruct x eqn:E end
  | |- context [match ?x with _ => _ end] =>
      lazymatch x with context [match _ with _ => _ end] => fail | _ =>
        let E := fresh "E" in destruct x eqn:E end
  end.

Ltac cases := repeat (case_one; simplify_eq/=; try done).
