(* ===== verification/Types.v ===== *)
(** * Domain types

    The enums of [crates/types/src/lib.rs] and the build, evaluation and jobset
    enums of [crates/common/src/models.rs], each with the text it is stored,
    queried and printed as.  Every enum with a [FromStr] is an instance of
    [TextEnum]: it is decoded from exactly the texts it is encoded to, which is
    what lets the later files keep a database column as the enum itself. *)

From S2P Require Import Prelude.

(** [fmt] is the error text of a [FromStr] implementation. *)
Definition parse_enum {A} (fmt : string → string) (arms : list (string * A))
    (s : string) : result string A :=
  match match_str s arms with
  | Some a => Ok a
  | None => Err (fmt s)
  end.

Definition invalid (what s : string) : string :=
  "invalid " +:+ what +:+ " '" +:+ s +:+ "'".

Ltac solve_text_enum from_str :=
  first
    [ by intros []
    | let s := fresh "s" in let a := fresh "a" in let H := fresh "H" in
      intros s a H; unfold from_str, parse_enum in H;
      match type of H with context [match_str s ?l] =>
        let E := fresh "E" in
        destruct (match_str s l) eqn:E; [|done];
        simplify_eq; invert_match_str E; done end ].

(** ** Roles and kinds ([types/src/lib.rs]) *)

Module GlobalRole.
Inductive t := Admin | ReadOnly | CreateProjects | EvalJobset | CancelBuild
  | RestartJobs | BumpToFront.

Definition as_str (r : t) : string :=
  match r with
  | Admin => "admin"
  | ReadOnly => "read-only"
  | CreateProjects => "create-projects"
  | EvalJobset => "eval-jobset"
  | CancelBuild => "cancel-build"
  | RestartJobs => "restart-jobs"
  | BumpToFront => "bump-to-front"
  end.

Definition from_str : string → result string t :=
  parse_enum (invalid "global role")
    [("admin", Admin); ("read-only", ReadOnly);
     ("create-projects", CreateProjects); ("eval-jobset", EvalJobset);
     ("cancel-build", CancelBuild); ("restart-jobs", RestartJobs);
     ("bump-to-front", BumpToFront)].

#[global] Instance text : TextEnum t.
Proof. exists as_str from_str; solve_text_enum from_str. Defined.
#[global] Instance eq_dec : EqDecision t.
Proof. solve_decision. Defined.
End GlobalRole.

Module ProjectRole.
Inductive t := Member | Maintainer | Admin.

(** The discriminants [Member = 1], [Maintainer = 2], [Admin = 3]; the derived
    [Ord] compares them. *)
Definition discr (r : t) : Z :=
  match r with Member => 1 | Maintainer => 2 | Admin => 3 end.

Definition as_str (r : t) : string :=
  match r with
  | Member => "member"
  | Maintainer => "maintainer"
  | Admin => "admin"
  end.

Definition has_permission (self required : t) : bool :=
  bool_decide (discr self >= discr required).

Definition from_str : string → result string t :=
  parse_enum (invalid "project role")
    [("member", Member); ("maintainer", Maintainer); ("admin", Admin)].

#[global] Instance text : TextEnum t.
Proof. exists as_str from_str; solve_text_enum from_str. Defined.
#[global] Instance eq_dec : EqDecision t.
Proof. solve_decision. Defined.
End ProjectRole.

Module AuthKind.
Inductive t := Token | Oidc.

Definition as_str (r : t) : string :=
  match r with Token => "token" | Oidc => "oidc" end.

Definition from_str : string → result string t :=
  parse_enum (invalid "auth kind") [("token", Token); ("oidc", Oidc)].

#[global] Instance text : TextEnum t.
Proof. exists as_str from_str; solve_text_enum from_str. Defined.
End AuthKind.

Module ForgeType.
Inductive t := Github | Gitea | Forgejo | Gitlab.

Definition as_str (r : t) : string :=
  match r with
  | Github => "github"
  | Gitea => "gitea"
  | Forgejo => "forgejo"
  | Gitlab => "gitlab"
  end.

Definition from_str : string → result string t :=
  parse_enum (invalid "forge type")
    [("github", Github); ("gitea", Gitea); ("forgejo", Forgejo);
     ("gitlab", Gitlab)].

#[global] Instance text : TextEnum t.
Proof. exists as_str from_str; solve_text_enum from_str. Defined.
#[global] Instance eq_dec : EqDecision t.
Proof. solve_decision. Defined.
End ForgeType.

Module NotificationType.
Inductive t := GithubStatus | GiteaStatus | ForgejoStatus | GitlabStatus
  | Webhook | Slack | Email.

Definition as_str (r : t) : string :=
  match r with
  | GithubStatus => "github_status"
  | GiteaStatus => "gitea_status"
  | ForgejoStatus => "forgejo_status"
  | GitlabStatus => "gitlab_status"
  | Webhook => "webhook"
  | Slack => "slack"
  | Email => "email"
  end.

Definition all : list t :=
  [GithubStatus; GiteaStatus; ForgejoStatus; GitlabStatus; Webhook; Slack;
   Email].

Definition from_str : string → result string t :=
  parse_enum (invalid "notification type")
    [("github_status", GithubStatus); ("gitea_status", GiteaStatus);
     ("forgejo_status", ForgejoStatus); ("gitlab_status", GitlabStatus);
     ("webhook", Webhook); ("slack", Slack); ("email", Email)].

#[global] Instance text : TextEnum t.
Proof. exists as_str from_str; solve_text_enum from_str. Defined.
#[global] Instance eq_dec : EqDecision t.
Proof. solve_decision. Defined.
End NotificationType.

Module InputType.
Inductive t := Git | String_ | Boolean | Build.

Definition as_str (r : t) : string :=
  match r with
  | Git => "git"
  | String_ => "string"
  | Boolean => "boolean"
  | Build => "build"
  end.

Definition from_str : string → result string t :=
  parse_enum (λ s, "unsupported jobset input type '" +:+ s +:+ "'")
    [("git", Git); ("string", String_); ("boolean", Boolean);
     ("build", Build)].

#[global] Instance text : TextEnum t.
Proof. exists as_str from_str; solve_text_enum from_str. Defined.
End InputType.

(** ** Evaluations and jobsets ([common/src/models.rs]) *)

Module EvaluationStatus.
Inductive t := Pending | Running | Completed | Failed | Cancelled | TimedOut.

Definition ALL : list t :=
  [Pending; Running; Completed; Failed; Cancelled; TimedOut].

Definition as_db_str (s : t) : string :=
  match s with
  | Pending => "pending"
  | Running => "running"
  | Completed => "completed"
  | Failed => "failed"
  | Cancelled => "cancelled"
  | TimedOut => "timed_out"
  end.

Definition from_str : string → result string t :=
  parse_enum (invalid "evaluation status")
    [("pending", Pending); ("running", Running); ("completed", Completed);
     ("failed", Failed); ("cancelled", Cancelled); ("timed_out", TimedOut)].

#[global] Instance text : TextEnum t.
Proof. exists as_db_str from_str; solve_text_enum from_str. Defined.
#[global] Instance eq_dec : EqDecision t.
Proof. solve_decision. Defined.
End EvaluationStatus.

Module EvaluationTriggerKind.
Inductive t := SourceChange | Manual | Interval.

Definition as_db_str (s : t) : string :=
  match s with
  | SourceChange => "source_change"
  | Manual => "manual"
  | Interval => "interval"
  end.

Definition from_str : string → result string t :=
  parse_enum (invalid "evaluation trigger kind")
    [("source_change", SourceChange); ("manual", Manual);
     ("interval", Interval)].

#[global] Instance text : TextEnum t.
Proof. exists as_db_str from_str; solve_text_enum from_str. Defined.
#[global] Instance eq_dec : EqDecision t.
Proof. solve_decision. Defined.
End EvaluationTriggerKind.

Module JobsetState.
Inductive t := Disabled | Enabled | OneShot | OneAtATime.

Definition is_evaluable (s : t) : bool :=
  match s with
  | Enabled | OneShot | OneAtATime => true
  | Disabled => false
  end.

Definition as_str (s : t) : string :=
  match s with
  | Disabled => "disabled"
  | Enabled => "enabled"
  | OneShot => "one_shot"
  | OneAtATime => "one_at_a_time"
  end.

Definition from_config_str (s : string) : t :=
  default Enabled (match_str s
    [("disabled", Disabled); ("one_shot", OneShot);
     ("one_at_a_time", OneAtATime)]).

Definition from_str : string → result string t :=
  parse_enum (invalid "jobset state")
    [("disabled", Disabled); ("enabled", Enabled); ("one_shot", OneShot);
     ("one_at_a_time", OneAtATime)].

#[global] Instance text : TextEnum t.
Proof. exists as_str from_str; solve_text_enum from_str. Defined.
#[global] Instance eq_dec : EqDecision t.
Proof. solve_decision. Defined.
End JobsetState.

Module JobsetTriggerMode.
Inductive t := SourceChange | Interval.

#[global] Instance eq_dec : EqDecision t.
Proof. solve_decision. Defined.

Definition accepts_source_triggers (m : t) : bool :=
  match m with SourceChange => true | Interval => false end.

Definition as_str (m : t) : string :=
  match m with SourceChange => "source_change" | Interval => "interval" end.

Definition from_config_str (s : string) : t :=
  default SourceChange (match_str s [("interval", Interval)]).

Definition from_str : string → result string t :=
  parse_enum (invalid "jobset trigger mode")
    [("source_change", SourceChange); ("interval", Interval)].

#[global] Instance text : TextEnum t.
Proof. exists as_str from_str; solve_text_enum from_str. Defined.
End JobsetTriggerMode.

(** ** Build statuses ([common/src/models.rs]) *)

Inductive BuildStatus :=
  | Pending
  | Running
  | Succeeded
  | Failed
  | DependencyFailed
  | Aborted
  | Cancelled
  | FailedWithOutput
  | Timeout
  | CachedFailure
  | UnsupportedSystem
  | LogLimitExceeded
  | NarSizeLimitExceeded
  | NonDeterministic
  | OomKilled.

#[global] Instance build_status_eq_dec : EqDecision BuildStatus.
Proof. solve_decision. Defined.

Definition is_finished (s : BuildStatus) : bool :=
  match s with Pending | Running => false | _ => true end.

Definition is_success (s : BuildStatus) : bool :=
  match s with Succeeded => true | _ => false end.

Definition is_terminal (s : BuildStatus) : bool :=
  match s with
  | Succeeded | Failed | CachedFailure | DependencyFailed | Aborted | Cancelled
  | FailedWithOutput | Timeout | UnsupportedSystem | LogLimitExceeded
  | NarSizeLimitExceeded | NonDeterministic | OomKilled => true
  | _ => false
  end.

(** The [#[repr(i32)]] discriminants. *)
Definition as_i32 (s : BuildStatus) : Z :=
  match s with
  | Pending => 0
  | Running => 1
  | Succeeded => 2
  | Failed => 3
  | DependencyFailed => 4
  | Aborted => 5
  | Cancelled => 6
  | FailedWithOutput => 7
  | Timeout => 8
  | CachedFailure => 9
  | UnsupportedSystem => 10
  | LogLimitExceeded => 11
  | NarSizeLimitExceeded => 12
  | NonDeterministic => 13
  | OomKilled => 14
  end.

Definition all_statuses : list BuildStatus :=
  [Pending; Running; Succeeded; Failed; DependencyFailed; Aborted; Cancelled;
   FailedWithOutput; Timeout; CachedFailure; UnsupportedSystem;
   LogLimitExceeded; NarSizeLimitExceeded; NonDeterministic; OomKilled].

(** [TryFromPrimitive]: the variant with this discriminant, if any. *)
Definition from_i32 (code : Z) : option BuildStatus :=
  List.find (λ s, as_i32 s =? code) all_statuses.

Definition as_db_str (s : BuildStatus) : string :=
  match s with
  | Pending => "pending"
  | Running => "running"
  | Succeeded => "succeeded"
  | Failed => "failed"
  | DependencyFailed => "dependency_failed"
  | Aborted => "aborted"
  | Cancelled => "cancelled"
  | FailedWithOutput => "failed_with_output"
  | Timeout => "timeout"
  | CachedFailure => "cached_failure"
  | UnsupportedSystem => "unsupported_system"
  | LogLimitExceeded => "log_limit_exceeded"
  | NarSizeLimitExceeded => "nar_size_limit_exceeded"
  | NonDeterministic => "non_deterministic"
  | OomKilled => "oom_killed"
  end.

Definition from_exit_code (exit_code : Z) : BuildStatus :=
  match exit_code with
  | 0 => Succeeded
  | 2 => DependencyFailed
  | 3 | 5 => Aborted
  | 4 => Cancelled
  | 6 => FailedWithOutput
  | 7 => Timeout
  | 8 => CachedFailure
  | 9 => UnsupportedSystem
  | 10 => LogLimitExceeded
  | 11 => NarSizeLimitExceeded
  | 12 => NonDeterministic
  | -9 => OomKilled
  | _ => Failed
  end.

Definition build_status_from_str : string → result string BuildStatus :=
  parse_enum (invalid "build status")
    [("pending", Pending); ("running", Running); ("succeeded", Succeeded);
     ("failed", Failed); ("dependency_failed", DependencyFailed);
     ("aborted", Aborted); ("cancelled", Cancelled);
     ("failed_with_output", FailedWithOutput); ("timeout", Timeout);
     ("cached_failure", CachedFailure);
     ("unsupported_system", UnsupportedSystem);
     ("log_limit_exceeded", LogLimitExceeded);
     ("nar_size_limit_exceeded", NarSizeLimitExceeded);
     ("non_deterministic", NonDeterministic); ("oom_killed", OomKilled)].

#[global] Instance build_status_text : TextEnum BuildStatus.
Proof.
  exists as_db_str build_status_from_str; solve_text_enum build_status_from_str.
Defined.

(** [Display for BuildStatus]: the human-readable spelling. *)
Definition build_status_fmt (s : BuildStatus) : string :=
  match s with
  | Pending => "pending"
  | Running => "running"
  | Succeeded => "succeeded"
  | Failed => "failed"
  | DependencyFailed => "dependency failed"
  | Aborted => "aborted"
  | Cancelled => "cancelled"
  | FailedWithOutput => "failed with output"
  | Timeout => "timeout"
  | CachedFailure => "cached failure"
  | UnsupportedSystem => "unsupported system"
  | LogLimitExceeded => "log limit exceeded"
  | NarSizeLimitExceeded => "nar size limit exceeded"
  | NonDeterministic => "non-deterministic"
  | OomKilled => "oom killed"
  end.

Module UserType.
Inductive t := Local_ | Github | Google | Ldap.

Definition as_db_str (u : t) : string :=
  match u with
  | Local_ => "local"
  | Github => "github"
  | Google => "google"
  | Ldap => "ldap"
  end.

Definition from_str : string → result string t :=
  parse_enum (invalid "user type")
    [("local", Local_); ("github", Github); ("google", Google);
     ("ldap", Ldap)].

#[global] Instance text : TextEnum t.
Proof. exists as_db_str from_str; solve_text_enum from_str. Defined.
End UserType.

Module NotificationTaskStatus.
Inductive t := Pending | Running | Completed | Failed.

Definition as_db_str (s : t) : string :=
  match s with
  | Pending => "pending"
  | Running => "running"
  | Completed => "completed"
  | Failed => "failed"
  end.

Definition from_str : string → result string t :=
  parse_enum (invalid "notification task status")
    [("pending", Pending); ("running", Running); ("completed", Completed);
     ("failed", Failed)].

#[global] Instance text : TextEnum t.
Proof. exists as_db_str from_str; solve_text_enum from_str. Defined.
#[global] Instance eq_dec : EqDecision t.
Proof. solve_decision. Defined.
End NotificationTaskStatus.

(** ** Pagination *)

Record PaginationParams := { limit_param : option Z; offset_param : option Z }.

Definition limit (p : PaginationParams) : Z :=
  clamp 1 200 (default 50 (limit_param p)).

Definition offset (p : PaginationParams) : Z :=
  Z.max (default 0 (offset_param p)) 0.

(** ** Properties *)

(** A text decodes to a value exactly when it is the text of that value. *)
Definition exact_codec (A : Type) `{TextEnum A} : Prop :=
  ∀ (s : string) (a : A), from_str s = Ok a ↔ s = as_str a.

(** Every enum that is stored as text or parsed from a request decodes from
    exactly one text, the one it is encoded to: the printer is injective, the
    parser inverts it, and every other text is refused. *)
Theorem enum_texts_exact :
  exact_codec GlobalRole.t ∧ exact_codec ProjectRole.t ∧
  exact_codec AuthKind.t ∧ exact_codec ForgeType.t ∧
  exact_codec NotificationType.t ∧ exact_codec InputType.t ∧
  exact_codec EvaluationStatus.t ∧ exact_codec EvaluationTriggerKind.t ∧
  exact_codec JobsetState.t ∧ exact_codec JobsetTriggerMode.t ∧
  exact_codec BuildStatus ∧ exact_codec UserType.t ∧
  exact_codec NotificationTaskStatus.t.
Proof. repeat split; intros; by apply from_str_ok_iff. Qed.

Lemma from_i32_as_i32 s : from_i32 (as_i32 s) = Some s.
Proof. by destruct s. Qed.

(** The integer codes of the build statuses: [from_i32] inverts [as_i32] and
    accepts nothing else; terminal is the same as finished; and a status read
    off a process exit code is always terminal, and successful only for 0. *)
Theorem build_status_codes :
  (∀ code s, from_i32 code = Some s ↔ code = as_i32 s) ∧
  (∀ code, is_Some (from_i32 code) ↔ 0 ≤ code ≤ 14) ∧
  (∀ s, is_terminal s = is_finished s) ∧
  (∀ code, is_finished (from_exit_code code) = true) ∧
  (∀ code, is_success (from_exit_code code) = true ↔ code = 0).
Proof.
  assert (Hinv : ∀ code s, from_i32 code = Some s → code = as_i32 s).
  { intros code s H. apply List.find_some in H as [_ H].
    symmetry. by apply Z.eqb_eq. }
  split_and!.
  - intros code s. split; [apply Hinv|intros ->; apply from_i32_as_i32].
  - intros code. split.
    + intros [s ->%Hinv]. destruct s; simpl; lia.
    + intros ?. destruct code as [|p|]; [by eexists| |lia].
      do 4 (destruct p as [p|p|]; try by eexists); lia.
  - by intros [].
  - intros code. unfold from_exit_code. by cases.
  - intros code. unfold from_exit_code. by cases.
Qed.
