(* ===== verification/Base32.v ===== *)
(** * Nix base32 ([crates/nix/src/base32.rs])

    The codec for sha256 digests.  The abstract reading of a digest is the
    little-endian integer of its 32 bytes ([le]) and of a text the big-endian
    integer of its base-32 digits ([from_digits]); the loops of the source, which
    shift and mask single bytes, are proved to compute the conversion between the
    two. *)

From S2P Require Import Prelude.

(** ** The code *)

Definition ALPHABET : string := "0123456789abcdfghijklmnpqrsvwxyz".

Definition is_base32_byte (c : ascii) : bool :=
  in_range "0" "9" c ||
  existsb (char_is c)
    ["a"; "b"; "c"; "d"; "f"; "g"; "h"; "i"; "j"; "k"; "l"; "m"; "n"; "p"; "q";
     "r"; "s"; "v"; "w"; "x"; "y"; "z"]%char.

(** One digit of the encoder: the 5 bits of the digest from bit [n * 5] on.
    [None] is the panic of an index out of range. *)
Definition encode_digit (bytes : list Z) (n : nat) : option Z :=
  let bit := (n * 5)%nat in
  let byte := (bit / 8)%nat in
  let offset := Z.of_nat (bit mod 8) in
  b ← bytes !! byte;
  let value := Z.shiftr b offset in
  let value :=
    match bytes !! S byte with
    | Some b' => Z.lor value (Z.shiftl b' (8 - offset))
    | None => value
    end in
  Some (Z.land value 31).

(** [encode_sha256]: the digits [51, 50, .., 0] in this order.  [None] when the
    slice is too short, where the source panics. *)
Definition encode_sha256 (bytes : list Z) : option string :=
  ds ← mapM (λ pos, encode_digit bytes (52 - 1 - pos)) (seq 0 52);
  cs ← mapM (λ d, str_chars ALPHABET !! Z.to_nat d) ds;
  Some (str_of cs).

(** [iter().position(|b| *b == c)]. *)
Fixpoint position (c : ascii) (l : list ascii) : option Z :=
  match l with
  | [] => None
  | a :: l => if decide (a = c) then Some 0 else Z.succ <$> position c l
  end.

(** A byte cast [as char] and printed: Latin-1, so two UTF-8 bytes from 0x80. *)
Definition byte_as_char (c : ascii) : string :=
  if byte_of c <? 128 then String c ""
  else String (ascii_of_N (Z.to_N (192 + byte_of c / 64)))
        (String (ascii_of_N (Z.to_N (128 + byte_of c mod 64))) "").

(** Or the low and the high part of [value << offset] into [out]. *)
Definition decode_step (out : list Z) (n : nat) (value : Z) : list Z :=
  let bit := (n * 5)%nat in
  let byte := (bit / 8)%nat in
  let offset := Z.of_nat (bit mod 8) in
  let out := alter (λ b, Z.lor b (Z.shiftl value offset mod 256)) byte out in
  if ((S byte <? length out)%nat && (3 <? offset))
  then alter (λ b, Z.lor b (Z.shiftr value (8 - offset))) (S byte) out
  else out.

(** The loop over the bytes of the text; [n] is the digit of the next one plus
    one. *)
Fixpoint decode_loop (text : list ascii) (out : list Z) :
    result string (list Z) :=
  match text with
  | [] => Ok out
  | c :: rest =>
      match position c (str_chars ALPHABET) with
      | None => Err ("invalid Nix base32 character " +:+ byte_as_char c)
      | Some value => decode_loop rest (decode_step out (length rest) value)
      end
  end.

Definition decode_sha256 (text : string) : result string (list Z) :=
  if str_len text =? 52
  then decode_loop (str_chars text) (replicate 32 0)
  else Err ("Nix base32 sha256 hash has " +:+ pretty (str_len text) +:+
            " chars, expected 52").

(** ** The specification *)

Definition is_byte (b : Z) : Prop := 0 ≤ b < 256.

(** The little-endian value of a byte string. *)
Fixpoint le (l : list Z) : Z :=
  match l with [] => 0 | b :: l => Z.lor b (Z.shiftl (le l) 8) end.

(** The value of a list of base-32 digits, most significant first. *)
Definition from_digits (ds : list Z) : Z :=
  foldl (λ acc d, acc * 32 + d) 0 ds.

(** The [k] lowest base-32 digits of [N], most significant first. *)
Fixpoint to_digits (k : nat) (N : Z) : list Z :=
  match k with
  | O => []
  | S k => Z.land (Z.shiftr N (5 * Z.of_nat k)) 31 :: to_digits k N
  end.

(** ** Bit-level lemmas *)

Lemma lor_shiftl_add b x k :
  0 ≤ k → 0 ≤ b < 2 ^ k → Z.lor b (Z.shiftl x k) = b + x * 2 ^ k.
Proof.
  intros Hk Hb. rewrite <-Z.shiftl_mul_pow2 by done.
  assert (Z.land b (Z.shiftl x k) = 0) as Hdis.
  { apply Z.bits_inj'. intros i Hi. rewrite Z.land_spec, Z.bits_0.
    destruct (decide (i < k)).
    - rewrite Z.shiftl_spec_low by done. apply andb_false_r.
    - rewrite <-(Z.mod_small b (2 ^ k)), Z.mod_pow2_bits_high by lia. done. }
  by rewrite Z.add_nocarry_lxor, Z.lxor_lor.
Qed.

Lemma lor_byte a b : is_byte a → is_byte b → is_byte (Z.lor a b).
Proof.
  unfold is_byte. intros Ha Hb.
  assert (0 ≤ Z.lor a b) by (apply Z.lor_nonneg; lia).
  split; [done|]. change 256 with (2 ^ 8).
  apply Z.bounded_iff_bits_nonneg; [lia|done|]. intros l Hl.
  rewrite Z.lor_spec, <-(Z.mod_small a (2 ^ 8)), <-(Z.mod_small b (2 ^ 8)) by lia.
  by rewrite !Z.mod_pow2_bits_high by lia.
Qed.

Lemma mod_lor a b k :
  0 ≤ k → Z.lor a b mod 2 ^ k = Z.lor (a mod 2 ^ k) (b mod 2 ^ k).
Proof. intros. by rewrite <-!Z.land_ones, Z.land_lor_distr_l. Qed.

Lemma le_cons b l : is_byte b → le (b :: l) = b + le l * 256.
Proof. intros. unfold le; fold le. by rewrite lor_shiftl_add. Qed.

Lemma le_bound l : Forall is_byte l → 0 ≤ le l < 256 ^ Z.of_nat (length l).
Proof.
  induction 1 as [|b l Hb _ IH]; [simpl; lia|].
  rewrite le_cons by done. unfold is_byte in Hb. simpl length.
  rewrite Nat2Z.inj_succ, Z.pow_succ_r by lia. lia.
Qed.

Lemma le_inj l l' :
  Forall is_byte l → Forall is_byte l' → length l = length l' →
  le l = le l' → l = l'.
Proof.
  intros Hl. revert l'. induction Hl as [|b l Hb _ IH]; intros [|b' l'] Hl' Hlen;
    simplify_eq/=; [done|].
  apply Forall_cons in Hl' as [Hb' Hl'].
  change (le (b :: l) = le (b' :: l') → b :: l = b' :: l').
  rewrite !le_cons by done. unfold is_byte in *. intros.
  assert (b = b') as -> by (apply (f_equal (λ z, z mod 256)) in H;
    rewrite !Z.mod_add, !Z.mod_small in H by lia; done).
  f_equal. apply IH; [done|done|lia].
Qed.

Lemma le_drop n l :
  Forall is_byte l → Z.shiftr (le l) (8 * Z.of_nat n) = le (drop n l).
Proof.
  intros Hl. revert n. induction Hl as [|b l Hb _ IH]; intros [|n]; try done.
  - apply Z.shiftr_0_l.
  - rewrite le_cons by done. simpl drop. rewrite <-IH.
    replace (8 * Z.of_nat (S n)) with (8 + 8 * Z.of_nat n) by lia.
    rewrite <-Z.shiftr_shiftr by lia. f_equal.
    rewrite Z.shiftr_div_pow2 by lia. change (2 ^ 8) with 256.
    unfold is_byte in Hb. rewrite Z.div_add, Z.div_small; lia.
Qed.

Lemma le_alter i x l :
  (i < length l)%nat →
  le (alter (λ b, Z.lor b x) i l) = Z.lor (le l) (Z.shiftl x (8 * Z.of_nat i)).
Proof.
  revert i. induction l as [|b l IH]; intros [|i] Hi; simpl in Hi; [lia|lia| |].
  - change (Z.lor (Z.lor b x) (Z.shiftl (le l) 8) =
      Z.lor (Z.lor b (Z.shiftl (le l) 8)) (Z.shiftl x 0)).
    rewrite Z.shiftl_0_r, <-!Z.lor_assoc. f_equal. apply Z.lor_comm.
  - change (Z.lor b (Z.shiftl (le (alter (λ b, Z.lor b x) i l)) 8) =
      Z.lor (Z.lor b (Z.shiftl (le l) 8)) (Z.shiftl x (8 * Z.of_nat (S i)))).
    rewrite IH, Z.shiftl_lor, Z.shiftl_shiftl, <-Z.lor_assoc by lia.
    do 3 f_equal. lia.
Qed.

Lemma alter_bytes i x l :
  is_byte x → Forall is_byte l → Forall is_byte (alter (λ b, Z.lor b x) i l).
Proof.
  intros Hx Hl. apply Forall_alter; [done|]. intros b ? ?. by apply lor_byte.
Qed.

(** ** Digits *)

Definition is_digit (d : Z) : Prop := 0 ≤ d < 32.

Lemma land31 z : Z.land z 31 = z mod 32.
Proof. change 31 with (Z.ones 5). by rewrite Z.land_ones. Qed.

Lemma from_digits_acc P ds :
  foldl (λ acc d, acc * 32 + d) P ds =
  P * 32 ^ Z.of_nat (length ds) + from_digits ds.
Proof.
  unfold from_digits. revert P.
  induction ds as [|d ds IH]; intros P; cbn [foldl length]; [lia|].
  rewrite IH, (IH (0 * 32 + d)), Nat2Z.inj_succ, Z.pow_succ_r by lia. lia.
Qed.

Lemma from_digits_cons d ds :
  from_digits (d :: ds) = d * 32 ^ Z.of_nat (length ds) + from_digits ds.
Proof.
  change (from_digits (d :: ds)) with
    (foldl (λ acc d, acc * 32 + d) (0 * 32 + d) ds).
  by rewrite from_digits_acc.
Qed.

Lemma from_digits_bound ds :
  Forall is_digit ds → 0 ≤ from_digits ds < 32 ^ Z.of_nat (length ds).
Proof.
  induction 1 as [|d ds Hd _ IH]; [done|].
  rewrite from_digits_cons. unfold is_digit in Hd. simpl length.
  rewrite Nat2Z.inj_succ, Z.pow_succ_r by lia. nia.
Qed.

Lemma to_digits_length k N : length (to_digits k N) = k.
Proof. induction k; simpl; by f_equal. Qed.

Lemma to_digits_digit k N : Forall is_digit (to_digits k N).
Proof.
  induction k; simpl; constructor; [|done].
  rewrite land31. apply Z.mod_pos_bound. lia.
Qed.

Lemma shiftr_digits N k :
  Z.shiftr N (5 * Z.of_nat k) = N / 32 ^ Z.of_nat k.
Proof.
  rewrite Z.shiftr_div_pow2, Z.pow_mul_r by lia. done.
Qed.

Lemma from_to_digits k N :
  0 ≤ N → from_digits (to_digits k N) = N mod 32 ^ Z.of_nat k.
Proof.
  intros HN. induction k as [|k IH]; [by rewrite Z.mod_1_r|].
  simpl to_digits.
  rewrite from_digits_cons, to_digits_length, IH, land31, shiftr_digits.
  rewrite Nat2Z.inj_succ, Z.pow_succ_r, (Z.mul_comm 32), Z.rem_mul_r by lia. lia.
Qed.

Lemma to_digits_add k P N :
  to_digits k (P * 32 ^ Z.of_nat k + N) = to_digits k N.
Proof.
  revert P. induction k as [|k IH]; intros P; [done|]. simpl to_digits. f_equal.
  - rewrite !land31, !shiftr_digits, Nat2Z.inj_succ, Z.pow_succ_r by lia.
    replace (P * (32 * 32 ^ Z.of_nat k) + N)
      with (N + P * 32 * 32 ^ Z.of_nat k) by lia.
    rewrite Z.div_add by lia. by rewrite Z.mod_add.
  - rewrite Nat2Z.inj_succ, Z.pow_succ_r, Z.mul_assoc by lia. apply IH.
Qed.

Lemma to_from_digits ds :
  Forall is_digit ds → to_digits (length ds) (from_digits ds) = ds.
Proof.
  induction 1 as [|d ds Hd Hds IH]; [done|].
  rewrite from_digits_cons. simpl. rewrite to_digits_add, IH. f_equal.
  rewrite land31, shiftr_digits.
  pose proof (from_digits_bound ds Hds).
  rewrite Z.add_comm, Z.div_add, Z.div_small, Z.mod_small by
    (unfold is_digit in *; lia). done.
Qed.

(** ** The loops compute the conversion *)

Lemma encode_digit_spec bytes n :
  Forall is_byte bytes → (n * 5 / 8 < length bytes)%nat →
  encode_digit bytes n =
  Some (Z.land (Z.shiftr (le bytes) (5 * Z.of_nat n)) 31).
Proof.
  intros Hb Hn. unfold encode_digit.
  set (byte := (n * 5 / 8)%nat) in *. set (off := (n * 5 mod 8)%nat).
  assert (5 * Z.of_nat n = 8 * Z.of_nat byte + Z.of_nat off) as ->.
  { subst byte off. pose proof (Nat.div_mod (n * 5) 8). lia. }
  assert (off < 8)%nat by (apply Nat.mod_upper_bound; lia).
  rewrite <-Z.shiftr_shiftr, le_drop by (done || lia).
  destruct (lookup_lt_is_Some_2 bytes byte Hn) as [b Hbyte]. rewrite Hbyte. simpl.
  f_equal. rewrite (drop_S _ _ _ Hbyte). change 31 with (Z.ones 5).
  apply Z.bits_inj'. intros j Hj. rewrite !Z.land_spec.
  destruct (decide (j < 5)); [|rewrite Z.ones_spec_high by lia; by rewrite !andb_false_r].
  f_equal. cbn [le].
  rewrite Z.shiftr_spec, Z.lor_spec, Z.shiftl_spec by lia.
  destruct (bytes !! S byte) as [b'|] eqn:Hbyte'.
  - rewrite (drop_S _ _ _ Hbyte'). cbn [le].
    rewrite !Z.lor_spec, Z.shiftr_spec, Z.shiftl_spec by lia.
    rewrite (Z.shiftl_spec_low (le _)) by lia.
    rewrite orb_false_r. do 2 f_equal. lia.
  - rewrite drop_ge by (by apply lookup_ge_None). cbn [le].
    rewrite Z.bits_0, orb_false_r, Z.shiftr_spec; done.
Qed.

Lemma mod_shiftl x k m :
  0 ≤ k → 0 ≤ m → Z.shiftl x k mod 2 ^ (m + k) = Z.shiftl (x mod 2 ^ m) k.
Proof.
  intros. rewrite !Z.shiftl_mul_pow2, Z.pow_add_r by done.
  by rewrite Z.mul_mod_distr_r by lia.
Qed.

(** [v << off] split in a byte and its carry. *)
Lemma split_carry v off :
  0 ≤ off ≤ 8 →
  Z.shiftl v off =
  Z.lor (Z.shiftl v off mod 256) (Z.shiftl (Z.shiftr v (8 - off)) 8).
Proof.
  intros. rewrite (lor_shiftl_add _ _ 8) by
    (try apply Z.mod_pos_bound; lia).
  assert (Z.shiftr v (8 - off) = Z.shiftl v off / 256) as ->.
  { change 256 with (2 ^ 8). rewrite <-Z.shiftr_div_pow2 by lia.
    by rewrite Z.shiftr_shiftl_r by lia. }
  pose proof (Z.div_mod (Z.shiftl v off) 256). lia.
Qed.

Lemma decode_step_length out n v : length (decode_step out n v) = length out.
Proof. unfold decode_step. by case_match; rewrite !length_alter. Qed.

Lemma decode_step_bytes out n v :
  is_digit v → Forall is_byte out → Forall is_byte (decode_step out n v).
Proof.
  unfold decode_step, is_digit. intros Hv Ho.
  assert (n * 5 mod 8 < 8)%nat by (apply Nat.mod_upper_bound; lia).
  case_match; repeat apply alter_bytes; try done.
  2-3: by apply Z.mod_pos_bound.
  split; [apply Z.shiftr_nonneg; lia|].
  rewrite Z.shiftr_div_pow2 by lia.
  apply (Z.le_lt_trans _ v); [|lia]. apply Z.div_le_upper_bound; nia.
Qed.

Lemma decode_step_spec out n v :
  length out = 32%nat → (n < 52)%nat → is_digit v →
  le (decode_step out n v) =
  Z.lor (le out) (Z.shiftl v (5 * Z.of_nat n) mod 2 ^ 256).
Proof.
  intros Hlen Hn Hv. unfold decode_step, is_digit in *.
  set (byte := (n * 5 / 8)%nat). set (off := (n * 5 mod 8)%nat).
  assert (5 * Z.of_nat n = Z.of_nat off + 8 * Z.of_nat byte) as ->.
  { subst byte off. pose proof (Nat.div_mod (n * 5) 8). lia. }
  assert (off < 8)%nat by (apply Nat.mod_upper_bound; lia).
  assert (byte < 32)%nat by (apply Nat.Div0.div_lt_upper_bound; lia).
  rewrite length_alter, Hlen, <-Z.shiftl_shiftl by lia.
  destruct (S byte <? 32)%nat eqn:Hbyte; simpl; cycle 1.
  { apply Nat.ltb_ge in Hbyte. rewrite le_alter by lia.
    replace 256 with (8 + 8 * Z.of_nat byte) at 2 by lia.
    by rewrite mod_shiftl by lia. }
  apply Nat.ltb_lt in Hbyte.
  assert (0 ≤ Z.shiftl v (Z.of_nat off) < 2 ^ 12).
  { rewrite Z.shiftl_mul_pow2 by lia.
    pose proof (Z.pow_le_mono_r 2 (Z.of_nat off) 7). nia. }
  rewrite (Z.mod_small (Z.shiftl (Z.shiftl _ _) _)).
  2: { rewrite (Z.shiftl_mul_pow2 _ (8 * _)) by lia.
       pose proof (Z.pow_le_mono_r 2 (8 * Z.of_nat byte) 240).
       pose proof (Z.pow_pos_nonneg 2 (8 * Z.of_nat byte)). nia. }
  destruct (3 <? Z.of_nat off) eqn:Hoff.
  - rewrite !le_alter by (rewrite ?length_alter; lia).
    rewrite (split_carry v (Z.of_nat off)) at 2 by lia.
    rewrite Z.shiftl_lor, Z.shiftl_shiftl, Z.lor_assoc by lia.
    do 2 f_equal. lia.
  - apply Z.ltb_ge in Hoff. rewrite le_alter by lia. do 2 f_equal.
    rewrite Z.mod_small; [done|]. rewrite Z.shiftl_mul_pow2 in * by lia.
    pose proof (Z.pow_le_mono_r 2 (Z.of_nat off) 3). nia.
Qed.

(** ** The alphabet *)

Definition char_digit (c : ascii) : option Z := position c (str_chars ALPHABET).
Definition digit_char (d : Z) : option ascii :=
  str_chars ALPHABET !! Z.to_nat d.

Lemma position_lookup c l d :
  position c l = Some d →
  0 ≤ d < Z.of_nat (length l) ∧ l !! Z.to_nat d = Some c.
Proof.
  revert d. induction l as [|a l IH]; intros d; cbn [position length]; [done|].
  case_decide; [intros [= <-]; subst; split; [lia|done]|].
  destruct (position c l) as [d'|]; [|done]. intros [= <-].
  destruct (IH d' eq_refl). split; [lia|].
  by rewrite Z2Nat.inj_succ by lia.
Qed.

Lemma lookup_position c l i :
  NoDup l → l !! i = Some c → position c l = Some (Z.of_nat i).
Proof.
  intros Hl. revert i. induction Hl as [|a l Ha _ IH]; intros [|i] Hi; simplify_eq/=.
  - by rewrite decide_True.
  - rewrite decide_False by (intros ->; eauto using list_elem_of_lookup_2).
    rewrite (IH _ Hi). simpl. f_equal. lia.
Qed.

Lemma char_digit_bound c d : char_digit c = Some d → is_digit d.
Proof. by intros [? _]%position_lookup. Qed.

Lemma digit_char_digit c d : char_digit c = Some d → digit_char d = Some c.
Proof. by intros [_ ?]%position_lookup. Qed.

Lemma char_digit_char d :
  is_digit d → ∃ c, digit_char d = Some c ∧ char_digit c = Some d.
Proof.
  intros [??]. destruct (lookup_lt_is_Some_2 (str_chars ALPHABET) (Z.to_nat d))
    as [c Hc]; [simpl; lia|].
  exists c. split; [done|]. unfold char_digit.
  assert (NoDup (str_chars ALPHABET)) as Hnd by (by apply (bool_decide_eq_true _)).
  rewrite (lookup_position _ _ _ Hnd Hc). f_equal. lia.
Qed.

Lemma is_base32_byte_iff c : is_base32_byte c = is_some (char_digit c).
Proof. by destruct c as [[] [] [] [] [] [] [] []]. Qed.

(** The digits a text spells. *)
Definition digits_of (text : string) : option (list Z) :=
  mapM char_digit (str_chars text).

Lemma text_of_digits ds :
  Forall is_digit ds →
  ∃ cs, mapM digit_char ds = Some cs ∧ mapM char_digit cs = Some ds.
Proof.
  induction 1 as [|d ds Hd _ (cs & H1 & H2)]; [by exists []|].
  destruct (char_digit_char d Hd) as (c & Hc1 & Hc2).
  exists (c :: cs). simpl. by rewrite Hc1, Hc2, H1, H2.
Qed.

Lemma digits_of_spec cs ds :
  mapM char_digit cs = Some ds →
  Forall is_digit ds ∧ mapM digit_char ds = Some cs ∧ length ds = length cs.
Proof.
  revert ds. induction cs as [|c cs IH]; intros ds; simpl; [by intros [= <-]|].
  destruct (char_digit c) as [d|] eqn:Hc; simpl; [|done].
  destruct (mapM char_digit cs) as [ds'|]; simpl; [|done]. intros [= <-].
  destruct (IH ds' eq_refl) as (? & Hm & ?). split_and!.
  - constructor; [by eapply char_digit_bound|done].
  - simpl. by rewrite (digit_char_digit _ _ Hc), Hm.
  - simpl. by f_equal.
Qed.

Lemma decode_loop_spec cs out P :
  (length cs ≤ 52)%nat → length out = 32%nat → Forall is_byte out →
  le out = Z.shiftl P (5 * Z.of_nat (length cs)) mod 2 ^ 256 →
  match decode_loop cs out, mapM char_digit cs with
  | Ok out', Some ds =>
      length out' = 32%nat ∧ Forall is_byte out' ∧
      le out' = foldl (λ acc d, acc * 32 + d) P ds mod 2 ^ 256
  | Err _, None => True
  | _, _ => False
  end.
Proof.
  revert out P. induction cs as [|c cs IH]; intros out P Hcs Hlen Hb Hle.
  { simpl in Hle. rewrite Z.shiftl_0_r in Hle. by simpl. }
  simpl in Hcs. cbn [decode_loop mapM]. fold (char_digit c).
  destruct (char_digit c) as [d|] eqn:Hd; [|done]. simpl.
  pose proof (char_digit_bound _ _ Hd) as Hdb.
  assert (le (decode_step out (length cs) d) =
    Z.shiftl (P * 32 + d) (5 * Z.of_nat (length cs)) mod 2 ^ 256) as Hstep.
  { rewrite decode_step_spec, Hle, <-mod_lor by (done || lia). f_equal.
    simpl length.
    replace (5 * Z.of_nat (S (length cs))) with (5 + 5 * Z.of_nat (length cs)) by lia.
    rewrite <-Z.shiftl_shiftl, <-Z.shiftl_lor, Z.lor_comm by lia.
    f_equal. rewrite lor_shiftl_add by (done || lia). lia. }
  specialize (IH (decode_step out (length cs) d) (P * 32 + d)).
  rewrite decode_step_length in IH.
  specialize (IH ltac:(lia) Hlen (decode_step_bytes _ _ _ Hdb Hb) Hstep).
  destruct (decode_loop cs _), (mapM char_digit cs); done.
Qed.

(** [decode_sha256] as a function of the digits of its text. *)
Lemma decode_sha256_spec text :
  match decode_sha256 text with
  | Ok out =>
      ∃ ds, digits_of text = Some ds ∧ length ds = 52%nat ∧
        length out = 32%nat ∧ Forall is_byte out ∧
        le out = from_digits ds mod 2 ^ 256
  | Err _ => str_len text ≠ 52 ∨ digits_of text = None
  end.
Proof.
  unfold decode_sha256, digits_of. rewrite str_len_chars.
  destruct (_ =? 52) eqn:Hl; [|left; lia]. apply Z.eqb_eq in Hl.
  pose proof (decode_loop_spec (str_chars text) (replicate 32 0) 0) as H.
  rewrite Z.shiftl_0_l in H.
  specialize (H ltac:(lia) (length_replicate _ _)).
  specialize (H ltac:(by repeat constructor) eq_refl).
  destruct (decode_loop _ _), (mapM char_digit _) as [ds|] eqn:Hds; try done.
  - destruct (digits_of_spec _ _ Hds) as (_ & _ & ?).
    exists ds. destruct H as (? & ? & ?). split_and!; try done. lia.
  - by right.
Qed.

(** [encode_sha256] spells the digits of the little-endian value. *)
Lemma encode_sha256_spec bytes :
  length bytes = 32%nat → Forall is_byte bytes →
  encode_sha256 bytes = str_of <$> mapM digit_char (to_digits 52 (le bytes)).
Proof.
  intros Hlen Hb. unfold encode_sha256.
  assert (mapM (λ pos, encode_digit bytes (52 - 1 - pos)) (seq 0 52) =
    Some (to_digits 52 (le bytes))) as ->.
  { apply mapM_Some. simpl.
    repeat (constructor; [apply (encode_digit_spec bytes); [done|simpl; lia]|]).
    constructor. }
  generalize (to_digits 52 (le bytes)). intros ds. simpl.
  unfold digit_char. by destruct (mapM _ _).
Qed.

Lemma encode_decode_bytes bytes :
  length bytes = 32%nat → Forall is_byte bytes →
  ∃ text, encode_sha256 bytes = Some text ∧ str_len text = 52 ∧
    str_all is_base32_byte text = true ∧
    decode_sha256 text = Ok bytes.
Proof.
  intros Hlen Hb. rewrite encode_sha256_spec by done.
  destruct (text_of_digits _ (to_digits_digit 52 (le bytes))) as (cs & -> & Hcs).
  pose proof (digits_of_spec _ _ Hcs) as (_ & _ & Hl).
  rewrite to_digits_length in Hl.
  exists (str_of cs). unfold str_all. rewrite str_len_chars, !str_chars_of.
  split_and!; [done|lia| |].
  - apply forallb_forall. intros c Hc%list_elem_of_In.
    rewrite is_base32_byte_iff. apply list_elem_of_lookup in Hc as [i Hi].
    apply mapM_Some in Hcs. destruct (Forall2_lookup_l _ _ _ _ _ Hcs Hi) as (d & _ & ->).
    done.
  - pose proof (decode_sha256_spec (str_of cs)) as H. unfold digits_of in H.
    rewrite str_len_chars, !str_chars_of, Hcs in H.
    destruct (decode_sha256 _) as [out|]; [|destruct H as [H|H]; [lia|done]].
    destruct H as (ds & Hds & _ & Hol & Hob & Hle). f_equal.
    assert (ds = to_digits 52 (le bytes)) as -> by congruence.
    apply le_inj; [done|done|lia|]. rewrite Hle, from_to_digits by
      (by apply le_bound). pose proof (le_bound bytes Hb) as Hbd. rewrite Hlen in Hbd.
    rewrite Z.mod_mod_divide, Z.mod_small by (done || by exists 16). done.
Qed.

(** The two outcomes of [decode_sha256]. *)
Lemma decode_sha256_exact text :
  match decode_sha256 text with
  | Ok out =>
      str_len text = 52 ∧ str_all is_base32_byte text = true ∧
      length out = 32%nat
  | Err _ => str_len text ≠ 52 ∨ str_all is_base32_byte text = false
  end.
Proof.
  assert (Hall : str_all is_base32_byte text = is_some (digits_of text)).
  { unfold str_all, digits_of. induction (str_chars text) as [|c cs IH]; [done|].
    simpl. rewrite IH, is_base32_byte_iff.
    by destruct (char_digit c); [destruct (mapM char_digit cs)|]. }
  rewrite Hall. pose proof (decode_sha256_spec text) as H.
  destruct (decode_sha256 text).
  - destruct H as (ds & Hds & Hl & Hlo & _).
    destruct (digits_of_spec _ _ Hds) as (_ & _ & Hlen).
    rewrite str_len_chars, Hds. split_and!; [lia|done|done].
  - destruct H as [H| ->]; [by left|by right].
Qed.

(** ** Properties *)

(** Round trip of the encoder: the 32 bytes of a digest encode to 52 base-32
    characters, which decode to the same 32 bytes. *)
Theorem decode_encode_sha256 bytes :
  length bytes = 32%nat → Forall is_byte bytes →
  ∃ text, encode_sha256 bytes = Some text ∧ str_len text = 52 ∧
    str_all is_base32_byte text = true ∧
    decode_sha256 text = Ok bytes.
Proof. apply encode_decode_bytes. Qed.

Lemma decode_encode_sha256_witness :
  ∃ text, encode_sha256 (seqZ 0 32) = Some text ∧ str_len text = 52 ∧
    str_all is_base32_byte text = true ∧
    decode_sha256 text = Ok (seqZ 0 32).
Proof.
  apply (decode_encode_sha256 (seqZ 0 32)); [done|].
  apply (bool_decide_unpack _). by vm_compute.
Defined.

(** Totality and errors of the decoder: it accepts exactly the texts of 52
    base-32 characters, always yields 32 bytes, and these spell the value of the
    text reduced modulo 2^256. *)
Theorem decode_sha256_total text :
  (is_ok (decode_sha256 text) = true ↔
     str_len text = 52 ∧ str_all is_base32_byte text = true) ∧
  ∀ out, decode_sha256 text = Ok out →
    length out = 32%nat ∧ Forall is_byte out ∧
    le out = from_digits (default [] (digits_of text)) mod 2 ^ 256.
Proof.
  pose proof (decode_sha256_exact text) as Hex.
  pose proof (decode_sha256_spec text) as Hs. split.
  - destruct (decode_sha256 text); simpl; split; try done; [tauto|].
    intros [? ?]. destruct Hex; congruence.
  - intros out Hout. rewrite Hout in Hs.
    destruct Hs as (ds & Hds & _ & H1 & H2 & H3). by rewrite Hds.
Qed.

(** Canonicity: re-encoding what the decoder read gives the text back exactly
    when its first character is [0] or [1].  The first character carries bits
    255 to 259 of the value, and the decoder drops those above 255. *)
Theorem encode_decode_sha256 text out :
  decode_sha256 text = Ok out →
  encode_sha256 out = Some text ↔
  head (str_chars text) = Some "0"%char ∨ head (str_chars text) = Some "1"%char.
Proof.
  intros Hd. pose proof (decode_sha256_spec text) as H. rewrite Hd in H.
  destruct H as (ds & Hds & Hl & Hol & Hob & Hle).
  destruct (digits_of_spec _ _ Hds) as (Hdig & Htext & Hlen).
  rewrite encode_sha256_spec, Hle by done.
  trans (from_digits ds < 2 ^ 256).
  - split.
    + intros He. destruct (text_of_digits _ (to_digits_digit 52 (from_digits ds mod 2 ^ 256)))
        as (cs & Hcs & Hcs'). rewrite Hcs in He. simpl in He.
      injection He as <-. unfold digits_of in Hds. rewrite str_chars_of, Hcs' in Hds.
      assert (ds = to_digits 52 (from_digits ds mod 2 ^ 256)) as -> by congruence.
      rewrite from_to_digits by (apply Z.mod_pos_bound; lia).
      pose proof (Z.mod_pos_bound (from_digits ds) (2 ^ 256) ltac:(lia)).
      rewrite Z.mod_small; [lia|]. cbn. lia.
    + intros Hlt. rewrite Z.mod_small by (pose proof (from_digits_bound _ Hdig); lia).
      rewrite <-Hl, to_from_digits, Htext by done. simpl. by rewrite str_of_chars.
  - destruct ds as [|d ds]; [done|]. unfold digits_of in Hds.
    destruct (str_chars text) as [|c cs]; [done|]. simpl in *.
    apply Forall_cons in Hdig as [Hd0 Hdig].
    destruct (char_digit c) as [d'|] eqn:Hc; [|done]. simpl in Hds.
    destruct (mapM char_digit cs) as [l|]; [|done]. injection Hds as -> ->.
    rewrite from_digits_cons. pose proof (from_digits_bound _ Hdig) as Hb.
    injection Hl as Hl. rewrite Hl in *.
    trans (d = 0 ∨ d = 1); [unfold is_digit in *; lia|].
    split.
    + intros [-> | ->]; [left|right]; apply digit_char_digit in Hc; by rewrite <-Hc.
    + intros [[= ->] | [= ->]]; vm_compute in Hc; simplify_eq; auto.
Qed.

Lemma encode_decode_sha256_witness :
  let text := str_of (replicate 52 "1"%char) in
  ∃ out, decode_sha256 text = Ok out ∧
    (encode_sha256 out = Some text ↔
     head (str_chars text) = Some "0"%char ∨
     head (str_chars text) = Some "1"%char).
Proof.
  intros text. destruct (decode_sha256 text) as [out|] eqn:H; [|by vm_compute in H].
  exists out. split; [done|]. apply (encode_decode_sha256 text out H).
Defined.
