(* ===== verification/Codecs.v ===== *)
(** * Third-party codecs

    The [hex], [base64] and [sha2] crates, which the program calls and does not
    contain, as one interface: the functions and the documented facts the code
    relies on.  [codecs_ref] is an instance, with a reference hex and base64
    codec, so that the theorems stated against the interface can be evaluated. *)

From S2P Require Import Prelude Base32.

Class Codecs := {
  hex_encode : list Z → string;
  hex_decode : string → result string (list Z);
  b64_decode : string → result string (list Z);
  sha256 : list Z → list Z;
  (** [hex::decode] accepts an even number of hex digits and nothing else. *)
  hex_decode_ok s :
    is_ok (hex_decode s) = true ↔
    str_len s mod 2 = 0 ∧ str_all is_ascii_hexdigit s = true;
  hex_decode_bytes s l :
    hex_decode s = Ok l → str_len s = 2 * Z.of_nat (length l) ∧ Forall is_byte l;
  hex_encode_digits l :
    Forall is_byte l →
    str_len (hex_encode l) = 2 * Z.of_nat (length l) ∧
    str_all is_ascii_hexdigit (hex_encode l) = true;
  hex_decode_encode l : Forall is_byte l → hex_decode (hex_encode l) = Ok l;
  b64_decode_bytes s l : b64_decode s = Ok l → Forall is_byte l;
  (** A SHA-256 digest is 32 bytes. *)
  sha256_length m : length (sha256 m) = 32%nat;
  sha256_bytes m : Forall is_byte (sha256 m);
}.

(** The bytes of a text. *)
Definition as_bytes (s : string) : list Z := byte_of <$> str_chars s.

(** ** A reference instance *)

Definition hex_value (c : ascii) : option Z :=
  if in_range "0" "9" c then Some (byte_of c - 48)
  else if in_range "a" "f" c then Some (byte_of c - 87)
  else if in_range "A" "F" c then Some (byte_of c - 55)
  else None.

Definition hex_char (d : Z) : ascii :=
  default "0"%char (str_chars "0123456789abcdef" !! Z.to_nat d).

Fixpoint hex_decode_ref (s : string) : result string (list Z) :=
  match s with
  | "" => Ok []
  | String a "" => Err "odd number of digits"
  | String a (String b s) =>
      match hex_value a, hex_value b with
      | Some h, Some l =>
          match hex_decode_ref s with
          | Ok r => Ok (h * 16 + l :: r)
          | Err e => Err e
          end
      | _, _ => Err "invalid character"
      end
  end.

Fixpoint hex_encode_ref (l : list Z) : string :=
  match l with
  | [] => ""
  | b :: l => String (hex_char (b / 16)) (String (hex_char (b mod 16))
                (hex_encode_ref l))
  end.

Lemma hex_value_spec c :
  match hex_value c with
  | Some v => is_ascii_hexdigit c = true ∧ 0 ≤ v < 16
  | None => is_ascii_hexdigit c = false
  end.
Proof.
  destruct c as [[] [] [] [] [] [] [] []]; vm_compute; by repeat split.
Qed.

Lemma hex_char_spec d :
  0 ≤ d < 16 → hex_value (hex_char d) = Some d ∧ is_ascii_hexdigit (hex_char d) = true.
Proof.
  intros Hd. destruct d as [|p|]; [done| |lia].
  do 4 (destruct p as [p|p|]; try done); lia.
Qed.

Lemma hex_decode_ref_spec s :
  match hex_decode_ref s with
  | Ok l => str_len s = 2 * Z.of_nat (length l) ∧ Forall is_byte l ∧
            str_all is_ascii_hexdigit s = true
  | Err _ => str_len s mod 2 = 1 ∨ str_all is_ascii_hexdigit s = false
  end.
Proof.
  remember (length (str_chars s)) as n eqn:Hn.
  revert s Hn. induction (lt_wf n) as [n _ IH]. intros [|a [|b s]] ->.
  - split_and!; [done|constructor|done].
  - by left.
  - cbn [hex_decode_ref]. pose proof (hex_value_spec a) as Ha.
    pose proof (hex_value_spec b) as Hb. unfold str_all. cbn [str_chars forallb].
    destruct (hex_value a) as [h|]; [|right; by rewrite Ha].
    destruct (hex_value b) as [l|]; [|right; rewrite Hb; by rewrite andb_false_r].
    specialize (IH (length (str_chars s)) ltac:(simpl; lia) s eq_refl).
    destruct Ha as [-> ?], Hb as [-> ?]. cbn [str_len].
    destruct (hex_decode_ref s) as [r|]; cbn [andb].
    + destruct IH as (? & ? & ?). split_and!; [cbn [length]; lia| |done].
      constructor; [|done]. unfold is_byte. lia.
    + destruct IH as [IH|IH]; [left|by right].
      replace (1 + (1 + str_len s)) with (str_len s + 1 * 2) by lia.
      by rewrite Z.mod_add.
Qed.

Lemma hex_encode_ref_spec l :
  Forall is_byte l →
  hex_decode_ref (hex_encode_ref l) = Ok l ∧
  str_len (hex_encode_ref l) = 2 * Z.of_nat (length l) ∧
  str_all is_ascii_hexdigit (hex_encode_ref l) = true.
Proof.
  induction 1 as [|b l Hb _ (IH1 & IH2 & IH3)]; [done|].
  unfold is_byte in Hb. cbn [hex_encode_ref hex_decode_ref].
  destruct (hex_char_spec (b / 16)) as [-> H1].
  { split; [apply Z.div_pos; lia|apply Z.div_lt_upper_bound; lia]. }
  destruct (hex_char_spec (b mod 16)) as [-> H2]; [apply Z.mod_pos_bound; lia|].
  rewrite IH1. split_and!.
  - do 2 f_equal. pose proof (Z.div_mod b 16). lia.
  - cbn [str_len length]. lia.
  - unfold str_all in *. cbn [str_chars forallb]. by rewrite H1, H2, IH3.
Qed.

Definition b64_value (c : ascii) : option Z :=
  if in_range "A" "Z" c then Some (byte_of c - 65)
  else if in_range "a" "z" c then Some (byte_of c - 71)
  else if in_range "0" "9" c then Some (byte_of c + 4)
  else if char_is "+" c then Some 62
  else if char_is "/" c then Some 63
  else None.

(** Standard alphabet, canonical padding, no stray trailing bits. *)
Fixpoint b64_decode_ref (s : string) : result string (list Z) :=
  match s with
  | "" => Ok []
  | String a (String b (String c (String d s))) =>
      match b64_value a, b64_value b, b64_value c, b64_value d, s with
      | Some a, Some b, Some c, Some d, _ =>
          match b64_decode_ref s with
          | Ok r => Ok (a * 4 + b / 16 :: b mod 16 * 16 + c / 4 ::
                        c mod 4 * 64 + d :: r)
          | Err e => Err e
          end
      | Some a, Some b, Some c, None, "" =>
          if char_is "=" d && (c mod 4 =? 0)
          then Ok [a * 4 + b / 16; b mod 16 * 16 + c / 4]
          else Err "invalid padding"
      | Some a, Some b, None, None, "" =>
          if char_is "=" c && char_is "=" d && (b mod 16 =? 0)
          then Ok [a * 4 + b / 16] else Err "invalid padding"
      | _, _, _, _, _ => Err "invalid symbol"
      end
  | _ => Err "invalid length"
  end.

Lemma b64_value_bound c v : b64_value c = Some v → 0 ≤ v < 64.
Proof.
  destruct c as [[] [] [] [] [] [] [] []]; vm_compute; intros; by simplify_eq.
Qed.

Lemma b64_bytes a b c d :
  0 ≤ a < 64 → 0 ≤ b < 64 → 0 ≤ c < 64 → 0 ≤ d < 64 →
  is_byte (a * 4 + b / 16) ∧ is_byte (b mod 16 * 16 + c / 4) ∧
  is_byte (c mod 4 * 64 + d).
Proof.
  unfold is_byte. intros.
  pose proof (Z.div_mod b 16). pose proof (Z.mod_pos_bound b 16).
  pose proof (Z.div_mod c 4). pose proof (Z.mod_pos_bound c 4). lia.
Qed.

Lemma b64_decode_ref_bytes s l : b64_decode_ref s = Ok l → Forall is_byte l.
Proof.
  remember (length (str_chars s)) as n eqn:Hn.
  revert s l Hn. induction (lt_wf n) as [n _ IH].
  intros [|a [|b [|c [|d s]]]] l ->; cbn [b64_decode_ref]; try done.
  { intros [= <-]. constructor. }
  destruct (b64_value a) eqn:Ha; [|done]. destruct (b64_value b) eqn:Hb; [|done].
  apply b64_value_bound in Ha, Hb.
  destruct (b64_value c) eqn:Hc; destruct (b64_value d) eqn:Hd; try done.
  - apply b64_value_bound in Hc, Hd.
    destruct (b64_decode_ref s) as [r|] eqn:Hr; [|done]. intros [= <-].
    destruct (b64_bytes _ _ _ _ Ha Hb Hc Hd) as (? & ? & ?).
    repeat (apply Forall_cons; split; [done|]). eapply IH; [|done..]. simpl; lia.
  - apply b64_value_bound in Hc. destruct s; [|done]. case_match; [|done].
    intros [= <-]. destruct (b64_bytes _ _ _ _ Ha Hb Hc Hc) as (? & ? & ?).
    by repeat (apply Forall_cons; split; [done|]).
  - destruct s; [|done]. case_match; [|done]. intros [= <-].
    destruct (b64_bytes _ _ _ _ Ha Hb Hb Hb) as (? & ? & ?).
    by repeat (apply Forall_cons; split; [done|]).
Qed.

(** A digest of the right shape (not SHA-256): the sum of the bytes and the
    length, spread over 32 bytes. *)
Definition toy_digest (m : list Z) : list Z :=
  (λ i, (foldr Z.add 0 m * 31 + Z.of_nat (length m) * 7 + i) mod 256)
    <$> seqZ 0 32.

#[export, program] Instance codecs_ref : Codecs := {|
  hex_encode := hex_encode_ref;
  hex_decode := hex_decode_ref;
  b64_decode := b64_decode_ref;
  sha256 := toy_digest;
|}.
Next Obligation.
  intros s. pose proof (hex_decode_ref_spec s) as H.
  destruct (hex_decode_ref s) as [l|]; simpl; split; try done.
  - intros _. destruct H as (-> & _ & ->). split; [|done].
    by rewrite Z.mul_comm, Z.mod_mul.
  - intros [H1 H2]. destruct H; [lia|congruence].
Qed.
Next Obligation.
  intros s l Hl. pose proof (hex_decode_ref_spec s) as H. rewrite Hl in H.
  by destruct H as (? & ? & _).
Qed.
Next Obligation. intros l Hl. apply (hex_encode_ref_spec l Hl). Qed.
Next Obligation. intros l Hl. apply (hex_encode_ref_spec l Hl). Qed.
Next Obligation. apply b64_decode_ref_bytes. Qed.
Next Obligation. done. Qed.
Next Obligation.
  intros m. apply Forall_fmap, Forall_true. intros i.
  by apply Z.mod_pos_bound.
Qed.
