(* ===== verification/StorePath.v ===== *)
(** * Store paths, hashes and object keys

    [crates/nix/src/store.rs] (validated store paths and store hashes), the
    field validators and the object-key construction of
    [crates/queue-runner/src/rpc/server.rs], and the NAR hash canonicalisation of
    [crates/queue-runner/src/worker.rs] and [rpc/upload_verify.rs].  Everything
    here is what stands between text sent by an agent or by [nix path-info] and
    a store path, an S3 key or a signed narinfo. *)

From S2P Require Import Prelude Base32 Codecs.

(** ** [circus_proto::limits] *)

Module limits.
Definition MAX_AGENT_NAME_LEN : Z := 128.
Definition MAX_HOSTNAME_LEN : Z := 255.
Definition MAX_AUTH_TOKEN_LEN : Z := 4096.
Definition MAX_SYSTEMS : Z := 32.
Definition MAX_FEATURES : Z := 128.
Definition MAX_FEATURE_LEN : Z := 128.
Definition MAX_STORE_PATH_LEN : Z := 4096.
Definition MAX_HASH_LEN : Z := 512.
Definition MAX_PRESIGNED_URL_REQUESTS : Z := 128.
Definition MAX_LOG_CHUNK_BYTES : Z := 1024 * 1024.
Definition MAX_NAR_CHUNK_BYTES : Z := 4 * 1024 * 1024.
Definition MAX_IMPORT_TOTAL_BYTES : Z := 64 * 1024 * 1024 * 1024.
End limits.

(** ** [StorePath] and [NixHash] *)

Module StorePath.
Definition is_valid (path store_dir : string) : bool :=
  let store_dir := trim_end_matches "/" store_dir in
  let prefix := store_dir +:+ "/" in
  starts_with prefix path && negb (contains ".." path) && (str_len path <? 512).

(** The newtype is its text. *)
Definition parse (path store_dir : string) : result string string :=
  if negb (is_valid path store_dir)
  then Err ("invalid store path: must be under " +:+ store_dir +:+
            "/, at most 512 chars, with no path traversal")
  else Ok path.
End StorePath.

Module NixHash.
Definition is_valid (hash : string) : bool :=
  (str_len hash =? 32) && str_all is_base32_byte hash.

Definition parse (hash : string) : result string string :=
  if negb (is_valid hash)
  then Err "nix hash must be exactly 32 Nix base32 characters"
  else Ok hash.
End NixHash.

(** ** Validators of the RPC server *)

Definition validate_text_len (field value : string) (min max : Z) :
    result string () :=
  let len := str_len value in
  if (len <? min) || (max <? len) || has_control value
  then Err (field +:+ " length/control validation failed: len=" +:+ pretty len +:+
            ", expected " +:+ pretty min +:+ "..=" +:+ pretty max)
  else Ok ().

Definition validate_store_path (path : string) : result string () :=
  let? _ := validate_text_len "store_path" path 1 limits.MAX_STORE_PATH_LEN in
  if bool_decide (path = "/nix/store/") ||
     negb (StorePath.is_valid path "/nix/store")
  then Err ("invalid store path: " +:+ path)
  else Ok ().

Definition validate_hash_text (field hash : string) : result string () :=
  validate_text_len field hash 1 limits.MAX_HASH_LEN.

Definition validate_upload_compression (compression : string) :
    result string () :=
  match match_str compression
    [("zstd", ()); ("xz", ()); ("gzip", ()); ("none", ())] with
  | Some _ => Ok ()
  | None => Err ("unsupported upload compression: " +:+ compression)
  end.

(** [enumerate().map(..).collect()], from index [idx] on. *)
Fixpoint read_text_items (field : string) (max_item_len idx : Z)
    (l : list string) : result string (list string) :=
  match l with
  | [] => Ok []
  | value :: l =>
      let item_field := field +:+ "[" +:+ pretty idx +:+ "]" in
      let? _ := validate_text_len item_field value 1 max_item_len in
      let? rest := read_text_items field max_item_len (idx + 1) l in
      Ok (value :: rest)
  end.

(** The reader's own decoding errors are outside the model: [l] holds the
    decoded texts. *)
Definition read_bounded_text_list (l : list string) (field : string)
    (max_items max_item_len : Z) : result string (list string) :=
  if max_items <? Z.of_nat (length l)
  then Err (field +:+ " has too many entries: " +:+ pretty (length l) +:+ " > " +:+
            pretty max_items)
  else read_text_items field max_item_len 0 l.

(** ** Object keys *)

Definition compression_ext (compression : string) : string :=
  default "nar" (match_str compression
    [("zstd", "nar.zst"); ("xz", "nar.xz"); ("gzip", "nar.gz");
     ("gz", "nar.gz"); ("bzip2", "nar.bz2"); ("bz2", "nar.bz2")]).

(** One character of [sanitise_key_segment]; a character outside ASCII is
    dropped, and so is each byte of it. *)
Definition sanitise_char (c : ascii) : option ascii :=
  if in_range "A" "Z" c || in_range "a" "z" c || in_range "0" "9" c ||
     char_is "-" c || char_is "_" c || char_is "." c then Some c
  else if char_is "/" c || char_is "+" c then Some "_"%char
  else None.

Definition sanitise_key_segment (value : string) : string :=
  str_of (omap sanitise_char (str_chars value)).

Definition is_empty (s : string) : bool := bool_decide (s = "").

Fixpoint first_prefix_segment (h : string) (prefixes : list string) :
    option string :=
  match prefixes with
  | [] => None
  | prefix :: prefixes =>
      match strip_prefix prefix h with
      | Some rest =>
          let cleaned := sanitise_key_segment (trim_end_matches "=" rest) in
          if negb (is_empty cleaned) then Some cleaned
          else first_prefix_segment h prefixes
      | None => first_prefix_segment h prefixes
      end
  end.

Section codecs.
Context `{Codecs}.

Definition hash_key_segment (h : string) : string :=
  match first_prefix_segment h ["sha256:"; "sha256-"] with
  | Some seg => seg
  | None =>
      let cleaned := sanitise_key_segment h in
      if is_empty cleaned then hex_encode (sha256 (as_bytes h)) else cleaned
  end.

(** ** NAR hashes *)

(** [while padded.len() % 4 != 0 { padded.push('=') }]; three rounds are enough
    ([pad4_aligned]). *)
Fixpoint pad4_loop (fuel : nat) (padded : string) : string :=
  match fuel with
  | O => padded
  | S fuel =>
      if str_len padded mod 4 =? 0 then padded
      else pad4_loop fuel (padded +:+ "=")
  end.

Definition pad4 (sri : string) : string := pad4_loop 3 sri.

Definition canonical_sha256_bytes (bytes : list Z) : option string :=
  if negb (Nat.eqb (length bytes) 32) then None
  else let* enc := encode_sha256 bytes in Some ("sha256:" +:+ enc).

Definition ok {E A} (r : result E A) : option A :=
  match r with Ok a => Some a | Err _ => None end.

Definition canonical_nix_sha256_hash (text : string) : option string :=
  match strip_prefix "sha256-" text with
  | Some sri =>
      let* bytes := ok (b64_decode (pad4 sri)) in
      canonical_sha256_bytes bytes
  | None =>
      let* rest := strip_prefix "sha256:" text in
      if (str_len rest =? 52) && str_all is_base32_byte rest then Some text
      else if (str_len rest =? 64) && str_all is_ascii_hexdigit rest then
        let* bytes := ok (hex_decode rest) in
        canonical_sha256_bytes bytes
      else None
  end.

(** [parse_sha256_hash]; an error is its outermost context. *)
Definition parse_sha256_hash (text : string) : result string (list Z) :=
  match strip_prefix "sha256-" text with
  | Some sri =>
      match b64_decode (pad4 sri) with
      | Err _ => Err ("decode SRI sha256 hash " +:+ text)
      | Ok bytes =>
          if negb (Nat.eqb (length bytes) 32)
          then Err ("sha256 hash " +:+ text +:+ " decoded to " +:+
                    pretty (length bytes) +:+ " bytes, expected 32")
          else Ok bytes
      end
  | None =>
      match strip_prefix "sha256:" text with
      | Some rest =>
          if (str_len rest =? 64) && str_all is_ascii_hexdigit rest then
            match hex_decode rest with
            | Ok bytes => Ok bytes
            | Err _ => Err "decode sha256 hex hash"
            end
          else
            match decode_sha256 rest with
            | Ok bytes => Ok bytes
            | Err _ => Err ("decode Nix base32 sha256 hash " +:+ text)
            end
      | None => Err ("unsupported sha256 hash format: " +:+ text)
      end
  end.

Definition hash_matches (text : string) (computed : list Z) :
    result string bool :=
  let? expected := parse_sha256_hash text in
  Ok (bool_decide (expected = computed)).
End codecs.

Definition redact_url_query (url : string) : string :=
  match split_once "?" url with
  | Some (base, _) => base +:+ "?<redacted>"
  | None => url
  end.

(** ** NAR URLs ([worker.rs]) *)

Definition store_hash_part (store_path : string) : option string :=
  let name := after_last "/" store_path in
  let* (hash, _) := split_once "-" name in
  if NixHash.is_valid hash then Some hash else None.

Definition nar_hash_key_segment (nar_hash : string) : option string :=
  let* hash := strip_prefix "sha256:" nar_hash in
  if negb (is_empty hash) then Some hash else None.

Record ClosurePathInfo := {
  cpi_store_path : string;
  cpi_nar_hash : string;
  cpi_nar_size : Z;
  cpi_references : list string;
  cpi_deriver : option string;
  cpi_ca : option string;
}.

Definition nar_url_for_path (info : ClosurePathInfo) : option string :=
  let* output_hash := store_hash_part (cpi_store_path info) in
  let* nar_hash := nar_hash_key_segment (cpi_nar_hash info) in
  Some ("nar/" +:+ nar_hash +:+ ".nar?hash=" +:+ output_hash).

Definition non_empty (s : string) : option string :=
  if is_empty s then None else Some s.

Section path_info.
Context `{Codecs}.

Definition parse_closure_path_info (path_key : option string) (entry : Json) :
    option ClosurePathInfo :=
  let* store_path :=
    match json_get_str "path" entry with
    | Some p => Some p
    | None => path_key
    end in
  let* raw_nar_hash := json_get_str "narHash" entry in
  let* nar_hash := canonical_nix_sha256_hash raw_nar_hash in
  let* nar_size := json_get_i64 "narSize" entry in
  let references :=
    match json_get_array "references" entry with
    | Some refs => omap json_str refs
    | None => []
    end in
  let deriver := obind (json_get_str "deriver" entry) non_empty in
  let ca := obind (json_get_str "ca" entry) non_empty in
  Some {| cpi_store_path := store_path; cpi_nar_hash := nar_hash;
          cpi_nar_size := nar_size; cpi_references := references;
          cpi_deriver := deriver; cpi_ca := ca |}.

Definition parse_recursive_path_infos (parsed : Json) : list ClosurePathInfo :=
  match parsed with
  | JArr entries => omap (parse_closure_path_info None) entries
  | JObj entries =>
      omap (λ '(path, entry), parse_closure_path_info (Some path) entry) entries
  | _ => []
  end.

Definition first_path_info_entry (parsed : Json) : option Json :=
  match parsed with
  | JArr arr => head arr
  | JObj entries => snd <$> head entries
  | _ => None
  end.

(** [get_path_info], from the parsed output of [nix path-info --json]. *)
Definition path_info_of (parsed : Json) : option (string * Z) :=
  let* entry := first_path_info_entry parsed in
  let* raw := json_get_str "narHash" entry in
  let* nar_hash := canonical_nix_sha256_hash raw in
  let* nar_size := json_get_i64 "narSize" entry in
  Some (nar_hash, nar_size).
End path_info.

(** ** Properties *)

Lemma pad4_aligned s : str_len (pad4 s) mod 4 = 0.
Proof.
  unfold pad4. cbn [pad4_loop].
  repeat case_match; rewrite ?Z.eqb_eq, ?Z.eqb_neq, ?str_len_app in *; try done.
  change (str_len "=") with 1 in *.
  pose proof (Z.div_mod (str_len s) 4). pose proof (Z.mod_pos_bound (str_len s) 4).
  rewrite <-!Z.add_assoc in *. rewrite <-Z.add_mod_idemp_l in * by lia.
  assert (str_len s mod 4 = 1 ∨ str_len s mod 4 = 2 ∨ str_len s mod 4 = 3)
    as [E|[E|E]] by lia; rewrite E in *; done.
Qed.

(** The characters an object key may hold. *)
Definition key_char (c : ascii) : bool :=
  in_range "A" "Z" c || in_range "a" "z" c || in_range "0" "9" c ||
  char_is "-" c || char_is "_" c || char_is "." c.

Lemma sanitise_char_key c c' : sanitise_char c = Some c' → key_char c' = true.
Proof.
  unfold sanitise_char, key_char. intros H. repeat case_match; by simplify_eq.
Qed.

Lemma sanitise_safe v : str_all key_char (sanitise_key_segment v) = true.
Proof.
  unfold str_all, sanitise_key_segment. rewrite str_chars_of.
  induction (str_chars v) as [|c cs IH]; simpl; [done|].
  destruct (sanitise_char c) eqn:E; simpl; [|done].
  by rewrite (sanitise_char_key _ _ E).
Qed.

Lemma hexdigit_key c : is_ascii_hexdigit c = true → key_char c = true.
Proof. by destruct c as [[] [] [] [] [] [] [] []]. Qed.

Lemma first_prefix_segment_safe h ps seg :
  first_prefix_segment h ps = Some seg →
  seg ≠ "" ∧ str_all key_char seg = true.
Proof.
  induction ps as [|p ps IH]; simpl; [done|].
  destruct (strip_prefix p h); [|done]. unfold is_empty.
  case_bool_decide; simpl; [done|]. intros [= <-]. by split; [|apply sanitise_safe].
Qed.

(** Whatever text an agent sends as a NAR hash, the object-key segment made of
    it is not empty and holds only letters, digits, [-], [_] and [.]: no slash,
    so it cannot leave its key prefix. *)
Theorem hash_key_segment_safe `{Codecs} (h : string) :
  hash_key_segment h ≠ "" ∧ str_all key_char (hash_key_segment h) = true ∧
  contains "/" (hash_key_segment h) = false.
Proof.
  assert (hash_key_segment h ≠ "" ∧ str_all key_char (hash_key_segment h) = true)
    as [H1 H2].
  { unfold hash_key_segment.
    destruct (first_prefix_segment h _) eqn:E; [by eapply first_prefix_segment_safe|].
    unfold is_empty. case_bool_decide; [|by split; [|apply sanitise_safe]].
    destruct (hex_encode_digits _ (sha256_bytes (as_bytes h))) as [Hl Hd].
    rewrite sha256_length in Hl. split; [by intros E'; rewrite E' in Hl|].
    by eapply str_all_impl; [apply hexdigit_key|]. }
  split_and!; [done|done|]. clear H1.
  induction (hash_key_segment h) as [|c s IH]; [done|].
  unfold str_all in *. simpl in *. apply andb_true_iff in H2 as [Hc H2].
  rewrite IH by done. rewrite orb_false_r.
  unfold starts_with. simpl. case_decide; [subst c; done|done].
Qed.

Lemma str_app_nil_r s : s +:+ "" = s.
Proof.
  rewrite <-(str_of_chars (s +:+ "")), str_chars_app, app_nil_r. apply str_of_chars.
Qed.

Lemma str_app_inj_l p s t : p +:+ s = p +:+ t → s = t.
Proof.
  intros E. pose proof (strip_prefix_app p s) as Hs.
  rewrite E, strip_prefix_app in Hs. congruence.
Qed.

Lemma validate_text_len_ok field value min max :
  validate_text_len field value min max = Ok () ↔
  min ≤ str_len value ≤ max ∧ has_control value = false.
Proof.
  unfold validate_text_len.
  destruct (str_len value <? min) eqn:E1; destruct (max <? str_len value) eqn:E2;
    destruct (has_control value); rewrite ?Z.ltb_lt, ?Z.ltb_ge in *; simpl;
    split; try done; intros []; lia || done.
Qed.

(** The store-path validator of the RPC server accepts exactly the texts
    that extend [/nix/store/] by a non-empty name, are shorter than 512 bytes,
    and hold neither [..] nor a control character. *)
Theorem validate_store_path_exact path :
  validate_store_path path = Ok () ↔
  ∃ name, path = "/nix/store/" +:+ name ∧ name ≠ "" ∧ str_len path < 512 ∧
    contains ".." path = false ∧ has_control path = false.
Proof.
  unfold validate_store_path, rbind.
  destruct (validate_text_len _ path _ _) as [[]|] eqn:Hv.
  - apply validate_text_len_ok in Hv as [Hlen Hc].
    assert (StorePath.is_valid path "/nix/store" =
      starts_with "/nix/store/" path && negb (contains ".." path) &&
      (str_len path <? 512)) as -> by done.
    rewrite Hc. case_bool_decide as Heq; simpl.
    { split; [done|]. intros (name & Hn & Hne & _). destruct Hne.
      rewrite Heq, <-(str_app_nil_r "/nix/store/") in Hn.
      symmetry. by eapply str_app_inj_l. }
    destruct (starts_with _ path) eqn:Hp; simpl; cycle 1.
    { split; [done|]. intros (name & -> & _).
      assert (starts_with "/nix/store/" ("/nix/store/" +:+ name) = true)
        by (apply starts_with_true; by exists name). congruence. }
    apply starts_with_true in Hp as [name ->].
    destruct (contains _ _); simpl; [split; [done|]; by intros (? & ? & ? & ? & ? & ?)|].
    destruct (_ <? 512) eqn:Hl; simpl; rewrite ?Z.ltb_lt, ?Z.ltb_ge in Hl.
    + split; [|done]. intros _. exists name. split_and!; try done.
      intros ->. by rewrite str_app_nil_r in Heq.
    + split; [done|]. intros (? & _ & _ & ? & _). lia.
  - split; [done|]. intros (name & -> & Hne & Hlen & _ & Hc).
    assert (validate_text_len "store_path" ("/nix/store/" +:+ name) 1
      limits.MAX_STORE_PATH_LEN = Ok ()) as Hok; [|by rewrite Hok in Hv].
    apply validate_text_len_ok. rewrite str_len_app in *.
    pose proof (str_len_nonneg name).
    change (str_len "/nix/store/") with 11 in *.
    unfold limits.MAX_STORE_PATH_LEN. split; [lia|done].
Qed.

Section canonical.
Context `{Codecs}.

Lemma canonical_bytes_parse bytes :
  length bytes = 32%nat → Forall is_byte bytes →
  ∃ s, canonical_sha256_bytes bytes = Some s ∧
    parse_sha256_hash s = Ok bytes ∧ canonical_nix_sha256_hash s = Some s.
Proof.
  intros Hl Hb.
  destruct (encode_decode_bytes bytes Hl Hb) as (enc & He & Hlen & H32 & Hd).
  exists ("sha256:" +:+ enc). unfold canonical_sha256_bytes. rewrite Hl, He. simpl.
  split; [done|]. unfold parse_sha256_hash, canonical_nix_sha256_hash.
  change (strip_prefix "sha256-" ("sha256:" +:+ enc)) with (@None string).
  rewrite strip_prefix_app, Hlen, Hd. simpl. by rewrite Hlen, H32.
Qed.

(** What a canonical form and a parsed digest of the same text must satisfy. *)
Definition readings_agree (c : option string) (r : result string (list Z)) : Prop :=
  match c, r with
  | Some s, Ok bytes =>
      length bytes = 32%nat ∧ parse_sha256_hash s = Ok bytes ∧
      canonical_nix_sha256_hash s = Some s
  | None, Err _ => True
  | _, _ => False
  end.

(** The two readers of a NAR hash agree: the canonicaliser accepts a text
    exactly when the verifier can parse it, the canonical form denotes the same
    32-byte digest, and it is a fixed point of the canonicaliser. *)
Theorem canonical_hash_agrees (text : string) :
  readings_agree (canonical_nix_sha256_hash text) (parse_sha256_hash text).
Proof.
  unfold canonical_nix_sha256_hash, parse_sha256_hash.
  destruct (strip_prefix "sha256-" text) as [sri|] eqn:Hsri.
  { destruct (b64_decode _) as [bytes|] eqn:Hd; simpl; [|done].
    apply b64_decode_bytes in Hd.
    destruct (length bytes =? 32)%nat eqn:Hl; simpl; cycle 1.
    { unfold canonical_sha256_bytes. by rewrite Hl; simpl. }
    apply Nat.eqb_eq in Hl.
    destruct (canonical_bytes_parse bytes Hl Hd) as (s & -> & ? & ?). done. }
  destruct (strip_prefix "sha256:" text) as [rest|] eqn:Hrest; simpl; [|done].
  pose proof (decode_sha256_exact rest) as Hex.
  destruct ((str_len rest =? 52) && str_all is_base32_byte rest) eqn:H52.
  - apply andb_true_iff in H52 as [Hl H32]. apply Z.eqb_eq in Hl.
    rewrite Hl. simpl. destruct (decode_sha256 rest) as [bytes|] eqn:Hd; cycle 1.
    { by destruct Hex as [?|?]; [lia|congruence]. }
    destruct Hex as (_ & _ & Hlen). split; [done|].
    unfold parse_sha256_hash, canonical_nix_sha256_hash.
    rewrite Hsri, Hrest. simpl. by rewrite Hl, Hd, H32.
  - destruct ((str_len rest =? 64) && str_all is_ascii_hexdigit rest) eqn:H64.
    + apply andb_true_iff in H64 as [Hl H64]. apply Z.eqb_eq in Hl.
      destruct (hex_decode rest) as [bytes|] eqn:Hd; simpl; cycle 1.
      { assert (is_ok (hex_decode rest) = true) as Hok.
        { apply hex_decode_ok. by rewrite Hl. }
        by rewrite Hd in Hok. }
      destruct (hex_decode_bytes _ _ Hd) as [? Hb].
      assert (length bytes = 32%nat) as Hlb by lia.
      destruct (canonical_bytes_parse bytes Hlb Hb) as (s & -> & ? & ?). done.
    + destruct (decode_sha256 rest); simpl; [|done].
      destruct Hex as (Hl & H32 & _). rewrite Hl, H32 in H52. done.
Qed.
Definition base32_hash (s : string) : Prop :=
  ∃ h, s = "sha256:" +:+ h ∧ str_len h = 52 ∧ str_all is_base32_byte h = true.

Lemma canonical_bytes_shape bytes s :
  Forall is_byte bytes → canonical_sha256_bytes bytes = Some s → base32_hash s.
Proof.
  unfold canonical_sha256_bytes. intros Hb.
  destruct (Nat.eqb_spec (length bytes) 32) as [Hl|]; simpl; [|done].
  destruct (encode_decode_bytes bytes Hl Hb) as (enc & -> & ? & ? & _).
  intros [= <-]. by exists enc.
Qed.

Lemma canonical_shape text s :
  canonical_nix_sha256_hash text = Some s → base32_hash s.
Proof.
  unfold canonical_nix_sha256_hash.
  destruct (strip_prefix "sha256-" text) as [sri|].
  { destruct (b64_decode _) eqn:Hd; simpl; [|done].
    apply canonical_bytes_shape. by eapply b64_decode_bytes. }
  destruct (strip_prefix "sha256:" text) as [rest|] eqn:Hr; simpl; [|done].
  case_match eqn:H52.
  - apply andb_true_iff in H52 as [Hl%Z.eqb_eq H32]. intros [= <-].
    apply strip_prefix_some in Hr as ->. by exists rest.
  - case_match; [|done]. destruct (hex_decode rest) eqn:Hd; simpl; [|done].
    apply canonical_bytes_shape. by eapply hex_decode_bytes.
Qed.

(** A closure entry read from [nix path-info] always carries a canonical
    base-32 NAR hash, and its NAR URL, when the store path has a valid hash part,
    is made of that hash and of the 32-character store hash and nothing else. *)
Theorem closure_nar_url_shape key entry info :
  parse_closure_path_info key entry = Some info →
  ∃ h, cpi_nar_hash info = "sha256:" +:+ h ∧ str_len h = 52 ∧
    str_all is_base32_byte h = true ∧
    match store_hash_part (cpi_store_path info) with
    | Some out => NixHash.is_valid out = true ∧
        nar_url_for_path info = Some ("nar/" +:+ h +:+ ".nar?hash=" +:+ out)
    | None => nar_url_for_path info = None
    end.
Proof.
  unfold parse_closure_path_info, nar_url_for_path, obind. intros Hp.
  destruct (match json_get_str "path" entry with Some p => Some p | None => key end); [|done].
  destruct (json_get_str "narHash" entry); [|done].
  destruct (canonical_nix_sha256_hash _) as [c|] eqn:Hc; [|done].
  destruct (json_get_i64 _ _); [|done]. simplify_eq. simpl.
  destruct (canonical_shape _ _ Hc) as (h & -> & Hl & H32).
  exists h. split_and!; try done.
  destruct (store_hash_part _) as [out|] eqn:Hs; [|done]. split.
  - unfold store_hash_part in Hs. destruct (split_once _ _) as [[]|]; [|done].
    simpl in Hs. destruct (NixHash.is_valid _) eqn:?; by simplify_eq.
  - unfold nar_hash_key_segment. rewrite strip_prefix_app. simpl.
    unfold is_empty. by case_bool_decide; [subst h|].
Qed.
End canonical.

Lemma closure_nar_url_shape_witness :
  let h := str_of (replicate 52 "1"%char) in
  let p := str_of (replicate 32 "a"%char) in
  let entry := JObj [("narHash", JStr ("sha256:" +:+ h)); ("narSize", JInt 120)] in
  let key := "/nix/store/" +:+ p +:+ "-hello" in
  ∃ info, parse_closure_path_info (Some key) entry = Some info ∧
    ∃ h', cpi_nar_hash info = "sha256:" +:+ h' ∧ str_len h' = 52.
Proof.
  intros h p entry key.
  destruct (parse_closure_path_info (Some key) entry) as [info|] eqn:E;
    [|by vm_compute in E].
  exists info. split; [done|].
  destruct (closure_nar_url_shape (Some key) entry info E) as (h' & Hn & Hl & _).
  by exists h'.
Defined.
