(* ===== verification/S3.v ===== *)
(** * S3 store URIs ([crates/s3/src/lib.rs])

    How a cache store URI and the configured prefix name a bucket and a key prefix,
    for the presigned requests of the agents and for [nix copy]
    ([build_s3_store_uri] of [crates/queue-runner/src/worker.rs]).  The signatures
    are in [S3Sign]. *)

From S2P Require Import Prelude.

Record S3CacheConfig := {
  s3_region : option string;
  s3_prefix : option string;
  s3_access_key_id : option string;
  s3_secret_access_key : option string;
  s3_session_token : option string;
  s3_endpoint_url : option string;
  s3_use_path_style : bool;
}.

Record Credentials := {
  access_key : string;
  secret_key : string;
  session_token : option string;
}.

Record Presigner := {
  ps_credentials : Credentials;
  ps_region : string;
  ps_bucket : string;
  ps_prefix : option string;
  ps_endpoint_url : option string;
  ps_use_path_style : bool;
}.

(** [str::trim_start_matches] and [trim_matches] for a character. *)
Fixpoint trim_start_char (c : ascii) (s : string) : string :=
  match s with
  | "" => ""
  | String a t => if decide (a = c) then trim_start_char c t else s
  end.
Definition trim_matches_char (c : ascii) (s : string) : string :=
  trim_end_matches c (trim_start_char c s).

Definition normalize_prefix (prefix : option string) : option string :=
  let* p := prefix in
  let p := trim_matches_char "/" p in
  if decide (p = "") then None else Some p.

Definition combine_prefixes (a b : option string) : option string :=
  match normalize_prefix a, normalize_prefix b with
  | Some a, Some b => Some (a +:+ "/" +:+ b)
  | Some a, None => Some a
  | None, Some b => Some b
  | None, None => None
  end.

Record S3StoreTarget := { tg_bucket : string; tg_prefix : option string }.

Definition parse_s3_store_uri (store_uri : string) : option S3StoreTarget :=
  let* rest := strip_prefix "s3://" store_uri in
  let rest := trim_end_matches "/" rest in
  if decide (rest = "") then None
  else
    let '(bucket, prefix) :=
      match split_once "/" rest with
      | Some (bucket, p) => (bucket, normalize_prefix (Some p))
      | None => (rest, None)
      end in
    if decide (bucket = "") then None
    else Some {| tg_bucket := bucket; tg_prefix := prefix |}.

Definition s3_store_uri_with_prefix (store_uri : string) (cfg : option S3CacheConfig) :
    string :=
  match cfg with
  | None => store_uri
  | Some cfg =>
      match parse_s3_store_uri store_uri with
      | None => store_uri
      | Some target =>
          match combine_prefixes (tg_prefix target) (s3_prefix cfg) with
          | None => "s3://" +:+ tg_bucket target
          | Some prefix => "s3://" +:+ tg_bucket target +:+ "/" +:+ prefix
          end
      end
  end.

(** [Presigner::from_config]. *)
Definition from_config (store_uri : string) (cfg : S3CacheConfig) : option Presigner :=
  let* target := parse_s3_store_uri store_uri in
  let* access := s3_access_key_id cfg in
  let* secret := s3_secret_access_key cfg in
  Some {| ps_credentials := {| access_key := access; secret_key := secret;
                               session_token := s3_session_token cfg |};
          ps_region := default "us-east-1" (s3_region cfg);
          ps_bucket := tg_bucket target;
          ps_prefix := combine_prefixes (tg_prefix target) (s3_prefix cfg);
          ps_endpoint_url := s3_endpoint_url cfg;
          ps_use_path_style := s3_use_path_style cfg |}.

Definition object_key (p : Presigner) (key : string) : string :=
  let key := trim_start_char "/" key in
  match ps_prefix p with None => key | Some prefix => prefix +:+ "/" +:+ key end.

Section store_uri.
(** [urlencoding::encode]. *)
Context (url_encode : string → string).

Definition build_s3_store_uri (base_uri : string) (config : option S3CacheConfig) : string :=
  match config with
  | None => base_uri
  | Some cfg =>
      let base_uri := s3_store_uri_with_prefix base_uri (Some cfg) in
      let params :=
        match s3_region cfg with Some r => [("region", r)] | None => [] end ++
        match s3_endpoint_url cfg with Some e => [("endpoint", e)] | None => [] end ++
        (if s3_use_path_style cfg then [("use-path-style", "true")] else []) in
      match params with
      | [] => base_uri
      | _ => base_uri +:+ "?" +:+ str_join "&"
               ((λ kv, url_encode kv.1 +:+ "=" +:+ url_encode kv.2) <$> params)
      end
  end.
End store_uri.

(** ** Normal prefixes *)

(** Not empty, and neither starts nor ends with a slash. *)
Definition normal (s : string) : Prop :=
  s ≠ "" ∧ trim_start_char "/" s = s ∧ trim_end_matches "/" s = s.

Lemma trim_end_idem c s : trim_end_matches c (trim_end_matches c s) = trim_end_matches c s.
Proof.
  induction s as [|a s IH]; [done|]. simpl. case_decide as H; [done|].
  simpl. rewrite IH. by rewrite decide_False.
Qed.

Lemma trim_start_idem c s : trim_start_char c (trim_start_char c s) = trim_start_char c s.
Proof.
  induction s as [|a s IH]; [done|]. simpl. case_decide; [done|]. simpl.
  by rewrite decide_False.
Qed.

(** Trimming the end keeps a start that is not trimmed. *)
Lemma trim_start_shorter c s : (String.length (trim_start_char c s) <= String.length s)%nat.
Proof. induction s as [|x s IH]; simpl; [lia|]. case_decide; simpl; lia. Qed.

(** A first character that survives trimming is not the one trimmed. *)
Lemma trim_start_head c a s : trim_start_char c (String a s) = String a s → a ≠ c.
Proof.
  simpl. case_decide as Ha; [|done]. intros Hl.
  apply (f_equal String.length) in Hl. simpl in Hl.
  pose proof (trim_start_shorter c s). lia.
Qed.

Lemma trim_end_start c s :
  trim_start_char c s = s → trim_start_char c (trim_end_matches c s) = trim_end_matches c s.
Proof.
  destruct s as [|a s]; [done|]. intros Ha%trim_start_head. simpl.
  case_decide; [tauto|]. simpl. by rewrite decide_False.
Qed.

Lemma normalize_normal p q : normalize_prefix p = Some q → normal q.
Proof.
  destruct p as [p|]; [|done]. simpl. case_decide as He; [done|]. intros [= <-].
  split_and!; [done| |apply trim_end_idem].
  apply trim_end_start, trim_start_idem.
Qed.

Lemma trim_end_app c s t :
  trim_end_matches c t ≠ "" → trim_end_matches c (s +:+ t) = s +:+ trim_end_matches c t.
Proof.
  intros Ht. induction s as [|a s IH]; [done|].
  change (String a s +:+ t) with (String a (s +:+ t)). cbn [trim_end_matches].
  rewrite IH, decide_False; [done|]. intros [_ H]. by destruct s.
Qed.

Lemma trim_start_app c s t :
  s ≠ "" → trim_start_char c s = s → trim_start_char c (s +:+ t) = s +:+ t.
Proof.
  destruct s as [|a s]; [done|]. intros _ Ha%trim_start_head.
  change (String a s +:+ t) with (String a (s +:+ t)). simpl. by rewrite decide_False.
Qed.

Lemma combine_normal a b q : combine_prefixes a b = Some q → normal q.
Proof.
  unfold combine_prefixes.
  destruct (normalize_prefix a) as [x|] eqn:Ea, (normalize_prefix b) as [y|] eqn:Eb;
    intros; simplify_eq;
    repeat match goal with H : normalize_prefix _ = Some _ |- _ =>
      apply normalize_normal in H end; try done.
  destruct Ea as (Hx & Hxs & _), Eb as (Hy & _ & Hye). split_and!.
  - by destruct x.
  - by apply trim_start_app.
  - rewrite trim_end_app; rewrite trim_end_app; by rewrite Hye.
Qed.

Lemma split_once_none c s : existsb (char_is c) (str_chars s) = false → split_once c s = None.
Proof.
  induction s as [|a s IH]; simpl; [done|]. intros [Ha Hs]%orb_false_iff.
  apply bool_decide_eq_false in Ha. by rewrite decide_False, IH.
Qed.

Lemma split_once_left c s b p :
  split_once c s = Some (b, p) → existsb (char_is c) (str_chars b) = false.
Proof.
  revert b. induction s as [|a s IH]; intros b; simpl; [done|].
  case_decide as Ha; [by intros [= <- _]|].
  destruct (split_once c s) as [[l r]|]; [|done]. intros [= <- <-]. simpl.
  unfold char_is at 1. rewrite bool_decide_false by done. by apply IH.
Qed.

Lemma split_once_none_inv c s :
  split_once c s = None → existsb (char_is c) (str_chars s) = false.
Proof.
  induction s as [|a s IH]; simpl; [done|]. case_decide as Ha; [done|].
  destruct (split_once c s) as [[l r]|]; [done|]. intros _.
  unfold char_is at 1. rewrite bool_decide_false by done. by apply IH.
Qed.

(** The bucket of a parsed URI is a non-empty text without a slash. *)
Lemma parse_bucket uri t :
  parse_s3_store_uri uri = Some t →
  tg_bucket t ≠ "" ∧ existsb (char_is "/") (str_chars (tg_bucket t)) = false.
Proof.
  unfold parse_s3_store_uri. destruct (strip_prefix "s3://" uri) as [rest|]; [|done].
  simpl. case_decide; [done|].
  destruct (split_once "/" (trim_end_matches "/" rest)) as [[bucket p]|] eqn:E;
    (case_decide; [done|]); intros [= <-]; simpl; (split; [done|]).
  - by eapply split_once_left.
  - by apply split_once_none_inv.
Qed.

Lemma no_slash_trim s :
  existsb (char_is "/") (str_chars s) = false → trim_end_matches "/" s = s.
Proof.
  induction s as [|a s IH]; simpl; [done|]. intros [Ha Hs]%orb_false_iff.
  apply bool_decide_eq_false in Ha. rewrite IH by done.
  rewrite decide_False; [done|]. tauto.
Qed.

(** The two upload paths agree on where objects go: for every store URI and S3
    configuration from which a presigner can be made, the URI handed to [nix copy]
    parses back to exactly the presigner's bucket and key prefix, however many
    slashes the URI and the prefix carry; and an object key is the prefix, which
    neither starts nor ends with a slash, one slash, and the key. *)
Theorem copy_and_presign_agree uri cfg p :
  from_config uri cfg = Some p →
  parse_s3_store_uri (s3_store_uri_with_prefix uri (Some cfg)) =
    Some {| tg_bucket := ps_bucket p; tg_prefix := ps_prefix p |} ∧
  ∀ key, ∃ sep, object_key p key = sep +:+ trim_start_char "/" key ∧
    (sep = "" ∨ ∃ q, ps_prefix p = Some q ∧ normal q ∧ sep = q +:+ "/").
Proof.
  unfold from_config, s3_store_uri_with_prefix.
  destruct (parse_s3_store_uri uri) as [t|] eqn:Ht; [|done].
  destruct (parse_bucket uri t Ht) as [Hb Hns].
  destruct (s3_access_key_id cfg) as [a|]; [|done].
  destruct (s3_secret_access_key cfg) as [s|]; [|done].
  intros [= <-]. unfold object_key. simpl.
  destruct (combine_prefixes (tg_prefix t) (s3_prefix cfg)) as [q|] eqn:Hq.
  - pose proof (combine_normal _ _ _ Hq) as Hn. split.
    + unfold parse_s3_store_uri. rewrite strip_prefix_app. simpl.
      destruct Hn as (Hne & Hs & He).
      assert (trim_end_matches "/" (tg_bucket t +:+ "/" +:+ q) = tg_bucket t +:+ "/" +:+ q) as ->.
      { rewrite trim_end_app; rewrite trim_end_app; by rewrite He. }
      rewrite decide_False by (by destruct (tg_bucket t)).
      change ("/" +:+ q) with (String "/" q).
      rewrite (split_once_app _ _ _ Hns), decide_False by done.
      unfold trim_matches_char. rewrite Hs, He. by rewrite decide_False.
    + intros key. exists (q +:+ "/"). split; [apply str_app_assoc|].
      right. by exists q.
  - split; [|intros key; exists ""; auto].
    unfold parse_s3_store_uri. rewrite strip_prefix_app. simpl.
    rewrite no_slash_trim by done. rewrite decide_False by done.
    rewrite split_once_none by done. by rewrite decide_False.
Qed.

Definition example_s3 : S3CacheConfig :=
  {| s3_region := None; s3_prefix := Some "/nix-cache//"; s3_access_key_id := Some "id";
     s3_secret_access_key := Some "key"; s3_session_token := None;
     s3_endpoint_url := None; s3_use_path_style := false |}.

Lemma copy_and_presign_agree_witness :
  s3_store_uri_with_prefix "s3://bucket//a/" (Some example_s3) = "s3://bucket/a/nix-cache" ∧
  parse_s3_store_uri (s3_store_uri_with_prefix "s3://bucket//a/" (Some example_s3)) =
    Some {| tg_bucket := "bucket"; tg_prefix := Some "a/nix-cache" |}.
Proof.
  split; [reflexivity|].
  destruct (from_config "s3://bucket//a/" example_s3) as [p|] eqn:E;
    [|by vm_compute in E].
  destruct (copy_and_presign_agree "s3://bucket//a/" example_s3 p E) as [H _].
  rewrite H. vm_compute in E. by injection E as <-.
Defined.
