(* ===== verification/Float32.v ===== *)
(** * Single-precision floats

    The [f32] operations the scheduler uses, as the Standard Library's
    specification of IEEE 754 arithmetic with 24 bits of precision and maximal
    exponent 128.  What the scheduler needs of them: on values that are not NaN,
    [partial_cmp] is a total preorder, and a product with a finite positive
    factor is not NaN. *)

From Corelib Require Import SpecFloat.
From S2P Require Import Prelude.

Definition f32 : Type := spec_float.

Definition f32_prec : Z := 24.
Definition f32_emax : Z := 128.

(** [u32 as f32] and [f64 as f32]: round to nearest, ties to even. *)
Definition f32_of_u32 (z : Z) : f32 := binary_normalize f32_prec f32_emax z 0 false.

Definition f32_of_f64 (x : spec_float) : f32 :=
  match x with
  | S754_finite s m e =>
      binary_normalize f32_prec f32_emax (if s then Z.neg m else Z.pos m) e s
  | _ => x
  end.

Definition f32_mul : f32 → f32 → f32 := SFmul f32_prec f32_emax.

(** [PartialOrd::partial_cmp] and [<=]. *)
Definition f32_partial_cmp : f32 → f32 → option comparison := SFcompare.
Definition f32_le : f32 → f32 → bool := SFleb.

Definition f32_zero : f32 := S754_zero false.

Definition f32_is_finite (x : f32) : bool :=
  match x with S754_zero _ | S754_finite _ _ _ => true | _ => false end.

Definition is_nan (x : f32) : bool :=
  match x with S754_nan => true | _ => false end.

(** Finite and greater than zero. *)
Definition f32_positive (x : f32) : bool :=
  f32_is_finite x && negb (f32_le x f32_zero).

(** ** The order *)

(** A lexicographic key: sign and kind, then exponent, then mantissa.  Values
    that compare equal have the same key; NaN is above everything, as in the
    total order of the database. *)
Definition sf_key (x : f32) : list Z :=
  match x with
  | S754_infinity true => [-2; 0; 0]
  | S754_finite true m e => [-1; - e; - Z.pos m]
  | S754_zero _ => [0; 0; 0]
  | S754_finite false m e => [1; e; Z.pos m]
  | S754_infinity false => [2; 0; 0]
  | S754_nan => [3; 0; 0]
  end.

Lemma sf_key_length x : length (sf_key x) = 3%nat.
Proof. by destruct x as [[]|[]| |[]]. Qed.

Lemma partial_cmp_key x y :
  is_nan x = false → is_nan y = false →
  f32_partial_cmp x y = Some (lex_cmp (sf_key x) (sf_key y)).
Proof.
  intros Hx Hy. destruct x as [sx|sx| |sx mx ex], y as [sy|sy| |sy my ey];
    try done; destruct sx; try destruct sy; try done; cbn; f_equal.
  - rewrite !Z.compare_opp, (Z.compare_antisym ex ey), (Z.compare_antisym (Z.pos mx)).
    destruct (Z.compare ex ey); try done. simpl.
    change (PosDef.Pos.compare_cont Eq mx my) with (mx ?= my)%positive.
    by destruct (mx ?= my)%positive.
  - destruct (Z.compare ex ey); try done. simpl.
    change (PosDef.Pos.compare_cont Eq mx my) with (mx ?= my)%positive.
    by destruct (mx ?= my)%positive.
Qed.

(** ** Products are not NaN *)

Lemma shr_1_nonneg r : 0 ≤ shr_m r → 0 ≤ shr_m (shr_1 r).
Proof. destruct r as [[|[]|] r s]; simpl; lia. Qed.

Lemma iter_pos_nonneg p r :
  0 ≤ shr_m r → 0 ≤ shr_m (SpecFloat.iter_pos shr_1 p r).
Proof.
  revert r. induction p; intros r Hr; simpl; auto using shr_1_nonneg.
Qed.

Lemma shr_fexp_nonneg m e l : 0 ≤ m → 0 ≤ shr_m (shr_fexp f32_prec f32_emax m e l).1.
Proof.
  intros Hm. unfold shr_fexp, shr.
  assert (0 ≤ shr_m (shr_record_of_loc m l)) by (by destruct l as [|[]]).
  case_match; simpl; auto using iter_pos_nonneg.
Qed.

Lemma round_not_nan s m e l :
  is_nan (binary_round_aux f32_prec f32_emax s (Z.pos m) e l) = false.
Proof.
  unfold binary_round_aux.
  destruct (shr_fexp _ _ (Z.pos m) e l) as [r e'] eqn:Hr.
  pose proof (shr_fexp_nonneg (Z.pos m) e l ltac:(lia)) as H1. rewrite Hr in H1.
  assert (0 ≤ round_nearest_even (shr_m r) (loc_of_shr_record r)) as H2.
  { unfold round_nearest_even. simpl in H1. repeat case_match; lia. }
  pose proof (shr_fexp_nonneg _ e' loc_Exact H2) as H3.
  destruct (shr_fexp _ _ (round_nearest_even _ _) e' loc_Exact) as [r' e''].
  simpl in H3. destruct (shr_m r') as [|p|p]; [done| |lia]. by case_match.
Qed.

Lemma of_u32_not_nan z : 0 ≤ z → is_nan (f32_of_u32 z) = false.
Proof.
  intros Hz. unfold f32_of_u32. destruct z as [|p|p]; [done| |lia].
  cbn [binary_normalize]. unfold binary_round.
  destruct (shl_align _ _ _). apply round_not_nan.
Qed.

Lemma positive_form x : f32_positive x = true → ∃ m e, x = S754_finite false m e.
Proof.
  unfold f32_positive. destruct x as [?|?| |[] m e]; simpl; try done. eauto.
Qed.

Lemma mul_not_nan x y :
  is_nan x = false → f32_positive y = true → is_nan (f32_mul x y) = false.
Proof.
  intros Hx (m & e & ->)%positive_form. destruct x; try done. apply round_not_nan.
Qed.
