(* ===== verification/Psi.v ===== *)
(** * Pressure readings

    [crates/common/src/psi.rs], the parser of [/proc/pressure/*], and
    [crates/queue-runner/src/psi.rs], the reading of a remote builder's pressure
    over SSH with its cache.  Running [ssh] is a parameter. *)

From Corelib Require Import SpecFloat.
From S2P Require Import Prelude.

(** ** [str::parse::<f64>]

    The decimal is rounded once, to nearest with ties to even. *)

Definition f64_prec : Z := 53.
Definition f64_emax : Z := 1024.

(** [m * 10^e]. *)
Definition f64_of_decimal (neg : bool) (m e : Z) : spec_float :=
  match m, e with
  | Z.pos p, Z.neg k =>
      let '(q, e', l) := SFdiv_core_binary f64_prec f64_emax (Z.pos p) 0 (10 ^ Z.pos k) 0 in
      binary_round_aux f64_prec f64_emax neg q e' l
  | Z.pos p, _ =>
      binary_normalize f64_prec f64_emax ((if neg then -1 else 1) * (Z.pos p * 10 ^ e)) 0 neg
  | _, _ => S754_zero neg
  end.

(** The digits at the front: their value, how many, and the rest. *)
Fixpoint take_digits (acc : Z) (n : Z) (s : string) : Z * Z * string :=
  match s with
  | String c t =>
      if in_range "0" "9" c then take_digits (acc * 10 + (byte_of c - 48)) (n + 1) t
      else (acc, n, s)
  | "" => (acc, n, "")
  end.

Definition take_sign (s : string) : bool * string :=
  match s with
  | String "-" t => (true, t)
  | String "+" t => (false, t)
  | _ => (false, s)
  end.

(** The exponent, when the rest is one. *)
Definition parse_exponent (s : string) : option Z :=
  match s with
  | "" => Some 0
  | String c t =>
      if bool_decide (c = "e"%char) || bool_decide (c = "E"%char) then
        let '(neg, t) := take_sign t in
        let '(e, n, rest) := take_digits 0 0 t in
        if (n =? 0) || negb (bool_decide (rest = "")) then None
        else Some (if neg then - e else e)
      else None
  end.

Definition to_lower (s : string) : string :=
  str_of ((λ c, if in_range "A" "Z" c then ascii_of_N (Z.to_N (byte_of c + 32)) else c)
            <$> str_chars s).

Definition f64_parse (s : string) : option spec_float :=
  let '(neg, t) := take_sign s in
  let '(i, n, rest) := take_digits 0 0 t in
  let '(m, k, rest) :=
    match rest with
    | String "." rest => take_digits i 0 rest
    | _ => (i, 0, rest)
    end in
  if n + k =? 0 then
    let w := to_lower t in
    if bool_decide (w = "inf") || bool_decide (w = "infinity") then Some (S754_infinity neg)
    else if bool_decide (w = "nan") then Some S754_nan
    else None
  else let* e := parse_exponent rest in Some (f64_of_decimal neg m (e - k)).

(** ** The pressure files *)

Record PressureAverages := { avg10 : spec_float; avg60 : spec_float }.

(** One round of the loop over the fields. *)
Definition pressure_field (st : option spec_float * option spec_float) (kv : string) :
    option spec_float * option spec_float :=
  match strip_prefix "avg10=" kv with
  | Some v => (f64_parse v, st.2)
  | None =>
      match strip_prefix "avg60=" kv with
      | Some v => (st.1, f64_parse v)
      | None => st
      end
  end.

Definition parse_pressure_fields (fields : string) : option PressureAverages :=
  let st := foldl pressure_field (None, None) (split_whitespace fields) in
  let* a := st.1 in
  let* b := st.2 in
  Some {| avg10 := a; avg60 := b |}.

Definition some_line (line : string) : option PressureAverages :=
  let* rest := strip_prefix "some " line in parse_pressure_fields rest.

Definition parse_pressure_some (text : string) : option PressureAverages :=
  head (omap some_line (lines text)).

Definition parse_pressure_triplet_avg10 (text : string) :
    option (spec_float * spec_float * spec_float) :=
  match omap some_line (lines text) with
  | a :: b :: c :: _ => Some (avg10 a, avg10 b, avg10 c)
  | _ => None
  end.

(** ** Readings over SSH *)

Record PsiSnapshot := {
  cpu_avg10 : spec_float;
  memory_avg10 : spec_float;
  io_avg10 : spec_float;
}.

(** [a > b] on floats. *)
Definition f64_gt (a b : spec_float) : bool := SFltb b a.

Definition exceeds (s : PsiSnapshot) (threshold : spec_float) : bool :=
  f64_gt (cpu_avg10 s) threshold || f64_gt (memory_avg10 s) threshold ||
  f64_gt (io_avg10 s) threshold.

Definition psi_parse (text : string) : option PsiSnapshot :=
  let* (cpu, memory, io) := parse_pressure_triplet_avg10 text in
  Some {| cpu_avg10 := cpu; memory_avg10 := memory; io_avg10 := io |}.

(** [PsiCache]: the reading and when it was taken. *)
Abbreviation PsiCache := (gmap string (Z * option PsiSnapshot)).

Definition psi_get (now ttl : Z) (uri : string) (c : PsiCache) :
    option (option PsiSnapshot) :=
  let* entry := c !! uri in
  if now - entry.1 <=? ttl then Some entry.2 else None.

Definition psi_put (now : Z) (uri : string) (v : option PsiSnapshot) (c : PsiCache) :
    PsiCache := <[uri := (now, v)]> c.

Section psi.
(** The standard output of [ssh] with these arguments when it ends in time with
    success and writes UTF-8. *)
Context (ssh : list string → option string).

Definition psi_read (ssh_uri : string) : option PsiSnapshot :=
  let ssh_uri := default ssh_uri (strip_prefix "ssh-ng://" ssh_uri) in
  let* text := ssh ["-o"; "BatchMode=yes"; "-o"; "ConnectTimeout=3"; "-o";
                    "StrictHostKeyChecking=accept-new"; ssh_uri;
                    "cat /proc/pressure/cpu /proc/pressure/memory /proc/pressure/io"] in
  psi_parse text.

(** [psi::read_cached]: the snapshot and the cache afterwards. *)
Definition read_cached (now : Z) (uri : string) (timeout : Z) (c : PsiCache) :
    option PsiSnapshot * PsiCache :=
  match psi_get now timeout uri c with
  | Some cached => (cached, c)
  | None => let snapshot := psi_read uri in (snapshot, psi_put now uri snapshot c)
  end.
End psi.

Definition kernel_text : string :=
  "some avg10=5.00 avg60=3.00 avg300=2.00 total=12345" +:+ String NL
  ("some avg10=10.50 avg60=8.00 avg300=5.00 total=67890" +:+ String NL
  ("full avg10=2.00 avg60=1.00 avg300=0.50 total=11111" +:+ String NL
  ("some avg10=1.25 avg60=0.80 avg300=0.40 total=22222" +:+ String NL ""))).

(** The reading the parser's own test expects: 5.0, 10.5 and 1.25. *)
Example psi_parse_kernel_text :
  psi_parse kernel_text =
  Some {| cpu_avg10 := S754_finite false 5629499534213120 (-50);
          memory_avg10 := S754_finite false 5910974510923776 (-49);
          io_avg10 := S754_finite false 5629499534213120 (-52) |}.
Proof. vm_compute. reflexivity. Qed.

Example f64_parse_tenth : f64_parse "0.1" = Some (S754_finite false 7205759403792794 (-56)).
Proof. vm_compute. reflexivity. Qed.
