(* ===== verification/Pool.v ===== *)
(** * The agent pool ([crates/queue-runner/src/rpc/pool.rs])

    Connected agents and their build slots.  An [Arc<AgentMeta>] is a location of
    a heap of metadata: the pool, the slot guards and the connection tasks share
    it, so the counter of an agent that has left the pool is still the one its
    guards release.

    [Slots] models the lock-free slot counter as an interleaving of the atomic
    actions of any number of threads, with stale loads and spurious failures of
    the weak compare-and-exchange, and proves that it implements a bounded
    counting semaphore. *)

From S2P Require Import Prelude Types Float32.

(** The address of a shared [AgentMeta]. *)
Abbreviation loc := positive (only parsing).

Definition MAX_AGENT_MAX_JOBS : Z := 670.

Inductive DispatchResult :=
  | DSucceeded (error_message : option string)
  | DFailed (msg : string)
  | DTimedOut
  | DAborted
  | DOomKilled (msg : string)
  | DDisconnected.

Record PresignedUpload := {
  pu_compression : string;
  pu_fail_build_on_upload_error : bool;
}.

Record HeartbeatSnapshot := {
  last_seen : option Instant;
  load1 : f32;
  load5 : f32;
  load15 : f32;
  cpu_psi_avg10 : f32;
  mem_psi_avg10 : f32;
  io_psi_avg10 : f32;
}.

Definition heartbeat_default : HeartbeatSnapshot :=
  {| last_seen := None; load1 := f32_zero; load5 := f32_zero; load15 := f32_zero;
     cpu_psi_avg10 := f32_zero; mem_psi_avg10 := f32_zero;
     io_psi_avg10 := f32_zero |}.

(** The registration data: the fields of [AgentMeta] that never change. *)
Record AgentSpec := {
  machine_id : Uuid;
  connection_id : Uuid;
  name : string;
  hostname : string;
  systems : list string;
  supported_features : list string;
  mandatory_features : list string;
  speed_factor : f32;
  cpu_count : Z;
  max_jobs : Z;
  ephemeral : bool;
  auth_kind : AuthKind.t;
  oidc_repository : option string;
  oidc_subject : option string;
}.

Record AgentMeta := {
  spec : AgentSpec;
  current_jobs : Z;
  active_builds : gset Uuid;
  heartbeat : HeartbeatSnapshot;
  registered_at : Instant;
  (** Whether the receiving end of [tx] is still there. *)
  tx_open : bool;
}.

Definition AgentMeta_new (sp : AgentSpec) (now : Instant) : AgentMeta :=
  {| spec := sp; current_jobs := 0; active_builds := ∅;
     heartbeat := heartbeat_default; registered_at := now; tx_open := true |}.

Definition set_jobs (j : Z) (m : AgentMeta) : AgentMeta :=
  {| spec := spec m; current_jobs := j; active_builds := active_builds m;
     heartbeat := heartbeat m; registered_at := registered_at m;
     tx_open := tx_open m |}.

Abbreviation Heap := (gmap positive AgentMeta).

(** [try_acquire_slot] without interference; [Slots] relates it to the loop. *)
Definition try_acquire_slot (l : loc) (h : Heap) : option Heap :=
  let* m := h !! l in
  if max_jobs (spec m) <=? current_jobs m then None
  else Some (<[l := set_jobs (current_jobs m + 1) m]> h).

(** [Drop for SlotGuard]: [fetch_sub] wraps. *)
Definition drop_slot (l : loc) (h : Heap) : Heap :=
  alter (λ m, set_jobs (wrap_u32 (current_jobs m - 1)) m) l h.

Record AgentSnapshot := {
  snap_spec : AgentSpec;
  snap_current_jobs : Z;
  snap_heartbeat : HeartbeatSnapshot;
}.

Definition snapshot (m : AgentMeta) (current_jobs : Z) : AgentSnapshot :=
  {| snap_spec := spec m; snap_current_jobs := current_jobs;
     snap_heartbeat := heartbeat m |}.

Definition str_in (s : string) (l : list string) : bool :=
  existsb (λ t, bool_decide (s = t)) l.

Definition supports_features (a : AgentSnapshot) (required : list string) : bool :=
  forallb (λ f, str_in f (supported_features (snap_spec a))) required &&
  forallb (λ f, str_in f required) (mandatory_features (snap_spec a)).

(** [demand] is a set. *)
Definition contended_surplus (a : AgentSnapshot) (required : list string)
    (demand : gset string) : Z :=
  Z.of_nat (length (List.filter
    (λ f, bool_decide (f ∈ demand) && negb (str_in f required))
    (supported_features (snap_spec a)))).

Definition requires_trusted_ref (a : AgentSnapshot) : bool :=
  match auth_kind (snap_spec a) with
  | AuthKind.Oidc => true
  | AuthKind.Token => false
  end.

(** ** The pool *)

Abbreviation AgentPool := (gmap Z positive).

(** The agents of the pool in some iteration order of its hash map. *)
Definition iterates (p : AgentPool) (vals : list loc) : Prop :=
  vals ≡ₚ (map_to_list p).*2.

Definition pool_insert (h : Heap) (l : loc) (p : AgentPool) :
    option loc * AgentPool :=
  match h !! l with
  | Some m =>
      (p !! machine_id (spec m), <[machine_id (spec m) := l]> p)
  | None => (None, p)
  end.

Definition pool_remove (id : Uuid) (p : AgentPool) : option loc * AgentPool :=
  (p !! id, delete id p).

Definition pool_remove_if_connection (h : Heap) (id conn : Uuid)
    (p : AgentPool) : option loc * AgentPool :=
  match p !! id with
  | Some l =>
      match h !! l with
      | Some m =>
          if connection_id (spec m) =? conn then (Some l, delete id p)
          else (None, p)
      | None => (None, p)
      end
  | None => (None, p)
  end.

Definition pool_get (id : Uuid) (p : AgentPool) : option loc := p !! id.

(** The metadata behind a list of locations. *)
Definition metas (h : Heap) (vals : list loc) : list AgentMeta :=
  omap (λ l, h !! l) vals.

Definition advertises (system : string) (m : AgentMeta) : bool :=
  existsb (λ s, bool_decide (s = system)) (systems (spec m)).

(** The counters are loaded twice, once to filter under the pool lock and once
    for the snapshot: [h] and [h'] are the heaps at the two loads. *)
Definition candidates_for (h h' : Heap) (vals : list loc) (system : string) :
    list (loc * AgentSnapshot) :=
  let candidates :=
    List.filter (λ l,
      match h !! l with
      | Some m => advertises system m && (current_jobs m <? max_jobs (spec m))
      | None => false
      end) vals in
  omap (λ l, let* m := h' !! l in Some (l, snapshot m (current_jobs m)))
    candidates.

Definition snapshot_all (h : Heap) (vals : list loc) : list AgentSnapshot :=
  (λ m, snapshot m (current_jobs m)) <$> metas h vals.

Definition total_free_slots (h : Heap) (vals : list loc) : Z :=
  foldl u32_saturating_add 0
    ((λ m, u32_saturating_sub (max_jobs (spec m)) (current_jobs m))
       <$> metas h vals).

Definition serves_system (h : Heap) (vals : list loc) (system : string) : bool :=
  existsb (advertises system) (metas h vals).

Definition total_slots (h : Heap) (vals : list loc) : Z :=
  foldl u32_saturating_add 0 ((λ m, max_jobs (spec m)) <$> metas h vals).

Definition pool_len (p : AgentPool) : nat := size p.
Definition pool_is_empty (p : AgentPool) : bool := (size p =? 0)%nat.

(** ** The slot counter under concurrency *)

Module Slots.

(** The number of live guards of an agent. *)
Definition held (l : loc) (guards : list loc) : Z :=
  Z.of_nat (length (filter (.= l) guards)).

(** [threads] are the calls of [try_acquire_slot] in progress, each with its
    agent and its local [cur]. *)
Record sys := {
  heap : Heap;
  guards : list loc;
  threads : list (loc * Z);
}.

Inductive step : sys → sys → Prop :=
  (** An agent registers: [AgentMeta::new] at a fresh location. *)
  | step_register h g t l sp now :
      h !! l = None → is_u32 (max_jobs sp) →
      step {| heap := h; guards := g; threads := t |}
           {| heap := <[l := AgentMeta_new sp now]> h; guards := g; threads := t |}
  (** [let mut cur = load(Relaxed)]: a relaxed load may be stale. *)
  | step_load h g t l cur :
      is_Some (h !! l) → is_u32 cur →
      step {| heap := h; guards := g; threads := t |}
           {| heap := h; guards := g; threads := (l, cur) :: t |}
  (** [if cur >= self.max_jobs { return None }]. *)
  | step_full h g t1 t2 l cur m :
      h !! l = Some m → max_jobs (spec m) ≤ cur →
      step {| heap := h; guards := g; threads := t1 ++ (l, cur) :: t2 |}
           {| heap := h; guards := g; threads := t1 ++ t2 |}
  (** The exchange succeeds: [cur + 1] is stored and the guard returned. *)
  | step_cas_ok h g t1 t2 l cur m :
      h !! l = Some m → cur < max_jobs (spec m) → current_jobs m = cur →
      step {| heap := h; guards := g; threads := t1 ++ (l, cur) :: t2 |}
           {| heap := <[l := set_jobs (wrap_u32 (cur + 1)) m]> h;
              guards := l :: g; threads := t1 ++ t2 |}
  (** It fails, spuriously or not, and [cur] becomes the value it saw. *)
  | step_cas_fail h g t1 t2 l cur actual m :
      h !! l = Some m → cur < max_jobs (spec m) → is_u32 actual →
      step {| heap := h; guards := g; threads := t1 ++ (l, cur) :: t2 |}
           {| heap := h; guards := g; threads := t1 ++ (l, actual) :: t2 |}
  (** A guard is dropped. *)
  | step_drop h g1 g2 l t :
      step {| heap := h; guards := g1 ++ l :: g2; threads := t |}
           {| heap := drop_slot l h; guards := g1 ++ g2; threads := t |}.

Definition init : sys := {| heap := ∅; guards := []; threads := [] |}.

Definition reachable : sys → Prop := rtc step init.

Definition invariant (s : sys) : Prop :=
  (∀ l m, heap s !! l = Some m →
     current_jobs m = held l (guards s) ∧
     current_jobs m ≤ max_jobs (spec m) ≤ U32_MAX) ∧
  (∀ l, l ∈ guards s → is_Some (heap s !! l)).

(** The specification: one bounded counter per agent. *)
Inductive abs_step : gmap loc (Z * Z) → gmap loc (Z * Z) → Prop :=
  | abs_register a l max :
      a !! l = None → is_u32 max → abs_step a (<[l := (0, max)]> a)
  | abs_acquire a l n max :
      a !! l = Some (n, max) → n < max → abs_step a (<[l := (n + 1, max)]> a)
  | abs_release a l n max :
      a !! l = Some (n, max) → 0 < n → abs_step a (<[l := (n - 1, max)]> a).

Definition abstraction (s : sys) : gmap loc (Z * Z) :=
  (λ m, (current_jobs m, max_jobs (spec m))) <$> heap s.

Lemma held_cons l l' g : held l (l' :: g) = (if decide (l' = l) then 1 else 0) + held l g.
Proof. unfold held. rewrite filter_cons. case_decide; simpl; lia. Qed.

Lemma held_app l g1 g2 : held l (g1 ++ g2) = held l g1 + held l g2.
Proof. unfold held. rewrite filter_app, length_app. lia. Qed.

Lemma held_nonneg l g : 0 ≤ held l g.
Proof. unfold held. lia. Qed.

Lemma held_none l g : l ∉ g → held l g = 0.
Proof.
  induction g as [|l' g IH]; [done|]. rewrite not_elem_of_cons, held_cons.
  intros [??]. rewrite decide_False by done. by rewrite IH.
Qed.

Lemma wrap_small z : 0 ≤ z ≤ U32_MAX → wrap_u32 z = z.
Proof. intros. apply Z.mod_small. unfold U32_MAX in *. lia. Qed.

(** Dropping a guard never wraps. *)
Lemma drop_slot_exact h g1 g2 l t :
  invariant {| heap := h; guards := g1 ++ l :: g2; threads := t |} →
  ∃ m, h !! l = Some m ∧ 0 < current_jobs m ∧
    drop_slot l h = <[l := set_jobs (current_jobs m - 1) m]> h.
Proof.
  intros [Hm Hg]. simpl in *.
  destruct (Hg l) as [m Hl]; [apply elem_of_app; right; left|].
  destruct (Hm l m Hl) as [Hc Hmax]. exists m. split; [done|].
  rewrite held_app, held_cons, decide_True in Hc by done.
  pose proof (held_nonneg l g1). pose proof (held_nonneg l g2).
  split; [lia|]. unfold drop_slot. rewrite (alter_as_insert _ _ m) by done.
  by rewrite wrap_small by lia.
Qed.

Lemma invariant_init : invariant init.
Proof. split; simpl; [by intros|]. by intros l ?%elem_of_nil. Qed.

Lemma invariant_step s s' : invariant s → step s s' → invariant s'.
Proof.
  intros Hinv Hstep. destruct Hstep as [h g t l sp now Hl Hmax|h g t l cur|
    h g t1 t2 l cur m|h g t1 t2 l cur m Hl Hcur Heq|h g t1 t2 l cur actual m|h g1 g2 l t];
    try exact Hinv.
  - destruct Hinv as [Hm Hg]. simpl in *. split; simpl.
    + intros l' m'. rewrite lookup_insert. case_decide; [|apply Hm].
      subst l'. intros [= <-]. simpl. rewrite held_none; [unfold is_u32 in *; lia|].
      intros [? Hl']%Hg. congruence.
    + intros l' Hl'%Hg. rewrite lookup_insert. case_decide; [by eexists|done].
  - destruct Hinv as [Hm Hg]. simpl in *. split; simpl.
    + intros l' m'. rewrite lookup_insert, held_cons. case_decide.
      * subst l'. intros [= <-]. simpl. destruct (Hm l m Hl) as [Hc Hmax].
        pose proof (held_nonneg l g). rewrite wrap_small by lia. lia.
      * intros Hl'. destruct (Hm l' m' Hl'). lia.
    + intros l' Hl'. rewrite lookup_insert. case_decide; [by eexists|].
      apply elem_of_cons in Hl' as [->|Hl']; [done|]. by apply Hg.
  - destruct (drop_slot_exact _ _ _ _ _ Hinv) as (m & Hl & Hpos & Hd).
    destruct Hinv as [Hm Hg]. simpl in *. split; simpl; rewrite Hd.
    + intros l' m'. rewrite lookup_insert, held_app. case_decide.
      * subst l'. intros [= <-]. simpl. destruct (Hm l m Hl) as [Hc Hmax].
        rewrite held_app, held_cons, decide_True in Hc by done. lia.
      * intros Hl'. destruct (Hm l' m' Hl') as [Hc ?].
        rewrite held_app, held_cons, decide_False in Hc by done. lia.
    + intros l' Hl'. rewrite lookup_insert. case_decide; [by eexists|].
      apply Hg. rewrite elem_of_app, elem_of_cons in *. tauto.
Qed.

Lemma invariant_reachable s : reachable s → invariant s.
Proof.
  intros Hr. unfold reachable in Hr.
  apply (rtc_ind_r invariant init) in Hr; [done|apply invariant_init|].
  intros; by eapply invariant_step.
Qed.
Lemma abstraction_insert h g t l m :
  abstraction {| heap := <[l := m]> h; guards := g; threads := t |} =
  <[l := (current_jobs m, max_jobs (spec m))]>
    (abstraction {| heap := h; guards := g; threads := t |}).
Proof. unfold abstraction. simpl. by rewrite fmap_insert. Qed.

Lemma abstraction_lookup h g t l m :
  h !! l = Some m →
  abstraction {| heap := h; guards := g; threads := t |} !! l =
  Some (current_jobs m, max_jobs (spec m)).
Proof. intros Hl. unfold abstraction. simpl. by rewrite lookup_fmap, Hl. Qed.

(** A small registered agent, for the examples. *)
Definition example_spec : AgentSpec :=
  {| machine_id := 7; connection_id := 70; name := "a"; hostname := "a.example";
     systems := ["x86_64-linux"]; supported_features := ["kvm"];
     mandatory_features := []; speed_factor := f32_of_u32 2; cpu_count := 8;
     max_jobs := 2; ephemeral := false; auth_kind := AuthKind.Token;
     oidc_repository := None; oidc_subject := None |}.

Definition example_sys : sys :=
  {| heap := {[ 1%positive := AgentMeta_new example_spec 0 ]};
     guards := []; threads := [] |}.

Lemma example_reachable : reachable example_sys.
Proof. apply rtc_once, step_register; [done|]. by vm_compute. Qed.

(** C27. The slot counter is exact and bounded under any interleaving: whatever
    the loads return and however often the weak exchange fails, the counter of
    an agent equals the number of live guards and never exceeds its [max_jobs]. *)
Theorem slots_exact_and_bounded s l m :
  reachable s → heap s !! l = Some m →
  current_jobs m = held l (guards s) ∧ 0 ≤ current_jobs m ≤ max_jobs (spec m).
Proof.
  intros [Hm _]%invariant_reachable Hl. destruct (Hm l m Hl) as [Hc ?].
  pose proof (held_nonneg l (guards s)). lia.
Qed.

Lemma slots_exact_and_bounded_witness :
  heap example_sys !! 1%positive = Some (AgentMeta_new example_spec 0) ∧
  0 ≤ 0 ≤ max_jobs example_spec.
Proof.
  split; [done|].
  apply (slots_exact_and_bounded example_sys 1 (AgentMeta_new example_spec 0)
    example_reachable eq_refl).
Defined.

(** C28. Refinement: every atomic action of the lock-free counter either leaves
    the abstract state alone or is one step of a bounded counting semaphore per
    agent, which is only entered below its bound and only left above zero. *)
Theorem slots_refine_semaphore s s' :
  reachable s → step s s' →
  abstraction s' = abstraction s ∨ abs_step (abstraction s) (abstraction s').
Proof.
  intros Hinv%invariant_reachable Hstep.
  destruct Hstep as [h g t l sp now Hl Hmax|h g t l cur|
    h g t1 t2 l cur m|h g t1 t2 l cur m Hl Hcur Heq|h g t1 t2 l cur actual m|h g1 g2 l t];
    try by left.
  - right. rewrite abstraction_insert. apply (abs_register _ l); [|done].
    unfold abstraction. simpl. by rewrite lookup_fmap, Hl.
  - right. destruct Hinv as [Hm _]. destruct (Hm l m Hl) as [Hc Hmax]. simpl in *.
    pose proof (held_nonneg l g).
    rewrite abstraction_insert. simpl. rewrite wrap_small, <-Heq by lia.
    apply abs_acquire; [by apply abstraction_lookup|lia].
  - right. destruct (drop_slot_exact _ _ _ _ _ Hinv) as (m & Hl & Hpos & ->).
    rewrite abstraction_insert. simpl.
    apply abs_release; [by apply abstraction_lookup|done].
Qed.

Lemma slots_refine_semaphore_witness :
  ∃ s', step example_sys s' ∧
    (abstraction s' = abstraction example_sys ∨
     abs_step (abstraction example_sys) (abstraction s')).
Proof.
  exists {| heap := heap example_sys; guards := []; threads := [(1%positive, 0)] |}.
  assert (step example_sys
    {| heap := heap example_sys; guards := []; threads := [(1%positive, 0)] |}) as H.
  { apply step_load; [by eexists|by vm_compute]. }
  split; [exact H|]. apply (slots_refine_semaphore _ _ example_reachable H).
Defined.

(** The sequential [try_acquire_slot] the scheduler is modelled with is a run
    of the loop: when it grants a slot there is an execution of the atomic
    actions to its heap with one more guard, and when it refuses there is one
    that returns with nothing changed. *)
Theorem try_acquire_slot_is_a_run s l m :
  reachable s → heap s !! l = Some m →
  rtc step s
    match try_acquire_slot l (heap s) with
    | Some h' => {| heap := h'; guards := l :: guards s; threads := threads s |}
    | None => s
    end.
Proof.
  intros [Hm _]%invariant_reachable Hl. destruct (Hm l m Hl) as [Hc Hmax].
  pose proof (held_nonneg l (guards s)). destruct s as [h g t]. simpl in *.
  assert (is_u32 (current_jobs m)) by (unfold is_u32; lia).
  eapply rtc_l; [apply (step_load h g t l (current_jobs m)); [by eexists|done]|].
  unfold try_acquire_slot. rewrite Hl. simpl.
  destruct (Z.leb_spec (max_jobs (spec m)) (current_jobs m)) as [Hle|Hlt].
  - apply rtc_once. by apply (step_full h g [] t l _ m).
  - apply rtc_once. rewrite <-(wrap_small (current_jobs m + 1)) by lia.
    by apply (step_cas_ok h g [] t l _ m).
Qed.

Lemma try_acquire_slot_is_a_run_witness :
  rtc step example_sys
    match try_acquire_slot 1 (heap example_sys) with
    | Some h' => {| heap := h'; guards := [1%positive]; threads := [] |}
    | None => example_sys
    end ∧ is_some (try_acquire_slot 1 (heap example_sys)) = true.
Proof.
  split; [|by vm_compute].
  apply (try_acquire_slot_is_a_run example_sys 1 (AgentMeta_new example_spec 0)
    example_reachable eq_refl).
Defined.
End Slots.
