(* ===== verification/Db.v ===== *)
(** * The database

    The rows the queue runner reads and writes, and the effect of a query.

    A query is a state transformer on [World]: the tables, the clock the
    statement reads with [NOW()], [w_locks], the advisory locks other sessions
    hold at the moment, and [w_faults], which decides for each query in
    turn whether the connection pool or the server fails it ([true]); an
    exhausted list never fails.  A failed statement changes nothing.  Each SQL
    statement is atomic, as it is in the database; what happens between two
    statements of one function is up to the other clients, so multi-statement
    functions are also given as steps where their interleaving matters.

    Text columns that hold an enum are kept as the enum ([Types.TextEnum]: the
    column constraint and the codec admit the same texts). *)

From S2P Require Import Prelude Types Float32.

(** ** Errors ([common/src/error.rs]) *)

Inductive CiError :=
  | Database (msg : string)
  | Pool (msg : string)
  | Internal (msg : string)
  | NotFound (msg : string)
  | Validation (msg : string)
  | Conflict (msg : string)
  | Timeout_ (msg : string)
  | Build_ (msg : string)
  | Config (msg : string)
  | GitError (msg : string)
  | Serialization (msg : string)
  | IoError (msg : string)
  | NixEval (msg : string)
  | DiskSpace (msg : string)
  | Unauthorized (msg : string)
  | Forbidden (msg : string).

(** [Display for CiError]. *)
Definition error_text (e : CiError) : string :=
  match e with
  | Database m => "Database error: " +:+ m
  | Pool m => "Connection pool error: " +:+ m
  | GitError m => "Git error: " +:+ m
  | Serialization m => "Serialization error: " +:+ m
  | IoError m => "IO error: " +:+ m
  | Config m => "Configuration error: " +:+ m
  | Build_ m => "Build error: " +:+ m
  | NotFound m => "Not found: " +:+ m
  | Validation m => "Validation error: " +:+ m
  | Conflict m => "Conflict: " +:+ m
  | Timeout_ m => "Timeout: " +:+ m
  | NixEval m => "Nix evaluation error: " +:+ m
  | DiskSpace m => "Disk space error: " +:+ m
  | Unauthorized m => "Unauthorized: " +:+ m
  | Forbidden m => "Forbidden: " +:+ m
  | Internal m => "Internal error: " +:+ m
  end.

(** ** Rows ([common/src/models.rs])

    [Build] is grouped by who writes the columns: [b_info] is fixed at creation,
    [b_run] is the lifecycle. *)

Record BuildInfo := {
  bi_id : Uuid;
  bi_evaluation_id : Uuid;
  bi_job_name : string;
  bi_drv_path : string;
  bi_system : option string;
  bi_max_retries : Z;
  bi_notification_pending_since : option DateTime;
  bi_created_at : DateTime;
  bi_outputs : option Json;
  bi_is_aggregate : bool;
  bi_constituents : option Json;
  bi_is_fod : bool;
  bi_fod_hash : option string;
  bi_meta_description : option string;
  bi_meta_license : option string;
  bi_meta_homepage : option string;
  bi_meta_maintainers : option string;
  bi_required_features : list string;
}.

Record BuildRun := {
  br_status : BuildStatus;
  br_started_at : option DateTime;
  br_completed_at : option DateTime;
  br_log_path : option string;
  br_build_output_path : option string;
  br_error_message : option string;
  br_retry_count : Z;
  br_effective_features : option (list string);
  br_started_notified_at : option DateTime;
}.

Definition set_br_effective_features (v : option (list string)) (r : BuildRun) : BuildRun :=
  {| br_status := br_status r; br_started_at := br_started_at r;
     br_completed_at := br_completed_at r; br_log_path := br_log_path r;
     br_build_output_path := br_build_output_path r;
     br_error_message := br_error_message r; br_retry_count := br_retry_count r;
     br_effective_features := v;
     br_started_notified_at := br_started_notified_at r |}.

Definition set_br_started_notified_at (v : option DateTime) (r : BuildRun) : BuildRun :=
  {| br_status := br_status r; br_started_at := br_started_at r;
     br_completed_at := br_completed_at r; br_log_path := br_log_path r;
     br_build_output_path := br_build_output_path r;
     br_error_message := br_error_message r; br_retry_count := br_retry_count r;
     br_effective_features := br_effective_features r;
     br_started_notified_at := v |}.

Record Build := {
  b_info : BuildInfo;
  b_run : BuildRun;
  b_priority : Z;
  b_builder_id : option Uuid;
  b_agent_machine_id : option Uuid;
  b_signed : bool;
  b_keep : bool;
}.

Definition set_b_run (v : BuildRun) (r : Build) : Build :=
  {| b_info := b_info r; b_run := v; b_priority := b_priority r;
     b_builder_id := b_builder_id r; b_agent_machine_id := b_agent_machine_id r;
     b_signed := b_signed r; b_keep := b_keep r |}.

Definition set_b_priority (v : Z) (r : Build) : Build :=
  {| b_info := b_info r; b_run := b_run r; b_priority := v;
     b_builder_id := b_builder_id r; b_agent_machine_id := b_agent_machine_id r;
     b_signed := b_signed r; b_keep := b_keep r |}.

Definition set_b_builder_id (v : option Uuid) (r : Build) : Build :=
  {| b_info := b_info r; b_run := b_run r; b_priority := b_priority r;
     b_builder_id := v; b_agent_machine_id := b_agent_machine_id r;
     b_signed := b_signed r; b_keep := b_keep r |}.

Definition set_b_agent_machine_id (v : option Uuid) (r : Build) : Build :=
  {| b_info := b_info r; b_run := b_run r; b_priority := b_priority r;
     b_builder_id := b_builder_id r; b_agent_machine_id := v;
     b_signed := b_signed r; b_keep := b_keep r |}.

Definition set_b_signed (v : bool) (r : Build) : Build :=
  {| b_info := b_info r; b_run := b_run r; b_priority := b_priority r;
     b_builder_id := b_builder_id r; b_agent_machine_id := b_agent_machine_id r;
     b_signed := v; b_keep := b_keep r |}.

Definition set_b_keep (v : bool) (r : Build) : Build :=
  {| b_info := b_info r; b_run := b_run r; b_priority := b_priority r;
     b_builder_id := b_builder_id r; b_agent_machine_id := b_agent_machine_id r;
     b_signed := b_signed r; b_keep := v |}.

Definition b_id (b : Build) := bi_id (b_info b).
Definition b_evaluation_id (b : Build) := bi_evaluation_id (b_info b).
Definition b_job_name (b : Build) := bi_job_name (b_info b).
Definition b_drv_path (b : Build) := bi_drv_path (b_info b).
Definition b_system (b : Build) := bi_system (b_info b).
Definition b_max_retries (b : Build) := bi_max_retries (b_info b).
Definition b_notification_pending_since (b : Build) := bi_notification_pending_since (b_info b).
Definition b_created_at (b : Build) := bi_created_at (b_info b).
Definition b_outputs (b : Build) := bi_outputs (b_info b).
Definition b_is_aggregate (b : Build) := bi_is_aggregate (b_info b).
Definition b_constituents (b : Build) := bi_constituents (b_info b).
Definition b_is_fod (b : Build) := bi_is_fod (b_info b).
Definition b_fod_hash (b : Build) := bi_fod_hash (b_info b).
Definition b_meta_description (b : Build) := bi_meta_description (b_info b).
Definition b_meta_license (b : Build) := bi_meta_license (b_info b).
Definition b_meta_homepage (b : Build) := bi_meta_homepage (b_info b).
Definition b_meta_maintainers (b : Build) := bi_meta_maintainers (b_info b).
Definition b_required_features (b : Build) := bi_required_features (b_info b).
Definition b_status (b : Build) := br_status (b_run b).
Definition b_started_at (b : Build) := br_started_at (b_run b).
Definition b_completed_at (b : Build) := br_completed_at (b_run b).
Definition b_log_path (b : Build) := br_log_path (b_run b).
Definition b_build_output_path (b : Build) := br_build_output_path (b_run b).
Definition b_error_message (b : Build) := br_error_message (b_run b).
Definition b_retry_count (b : Build) := br_retry_count (b_run b).
Definition b_effective_features (b : Build) := br_effective_features (b_run b).
Definition b_started_notified_at (b : Build) := br_started_notified_at (b_run b).

(** [Build::scheduling_features]. *)
Definition scheduling_features (b : Build) : list string :=
  default (b_required_features b) (b_effective_features b).

Definition DEPENDENCY_JOB_PREFIX : string := "drv:".

(** [Build::is_dependency]. *)
Definition is_dependency (b : Build) : bool :=
  starts_with DEPENDENCY_JOB_PREFIX (b_job_name b).

(** A row of [evaluations]; the last two columns are read by statements only. *)

Record Evaluation := {
  e_id : Uuid;
  e_jobset_id : Uuid;
  e_commit_hash : string;
  e_evaluation_time : DateTime;
  e_status : EvaluationStatus.t;
  e_error_message : option string;
  e_inputs_hash : option string;
  e_trigger_kind : EvaluationTriggerKind.t;
  e_hidden : bool;
  e_pr_number : option Z;
  e_pr_head_branch : option string;
  e_pr_base_branch : option string;
  e_pr_action : option string;
  e_source_scope : option string;
  e_superseded_by : option Uuid;
  e_source_base_commit : option string;
  e_started_at : option DateTime;
  e_orphaned_count : Z;
}.

Definition set_e_evaluation_time (v : DateTime) (r : Evaluation) : Evaluation :=
  {| e_id := e_id r; e_jobset_id := e_jobset_id r;
     e_commit_hash := e_commit_hash r; e_evaluation_time := v;
     e_status := e_status r; e_error_message := e_error_message r;
     e_inputs_hash := e_inputs_hash r; e_trigger_kind := e_trigger_kind r;
     e_hidden := e_hidden r; e_pr_number := e_pr_number r;
     e_pr_head_branch := e_pr_head_branch r;
     e_pr_base_branch := e_pr_base_branch r; e_pr_action := e_pr_action r;
     e_source_scope := e_source_scope r; e_superseded_by := e_superseded_by r;
     e_source_base_commit := e_source_base_commit r;
     e_started_at := e_started_at r; e_orphaned_count := e_orphaned_count r |}.

Definition set_e_status (v : EvaluationStatus.t) (r : Evaluation) : Evaluation :=
  {| e_id := e_id r; e_jobset_id := e_jobset_id r;
     e_commit_hash := e_commit_hash r; e_evaluation_time := e_evaluation_time r;
     e_status := v; e_error_message := e_error_message r;
     e_inputs_hash := e_inputs_hash r; e_trigger_kind := e_trigger_kind r;
     e_hidden := e_hidden r; e_pr_number := e_pr_number r;
     e_pr_head_branch := e_pr_head_branch r;
     e_pr_base_branch := e_pr_base_branch r; e_pr_action := e_pr_action r;
     e_source_scope := e_source_scope r; e_superseded_by := e_superseded_by r;
     e_source_base_commit := e_source_base_commit r;
     e_started_at := e_started_at r; e_orphaned_count := e_orphaned_count r |}.

Definition set_e_error_message (v : option string) (r : Evaluation) : Evaluation :=
  {| e_id := e_id r; e_jobset_id := e_jobset_id r;
     e_commit_hash := e_commit_hash r; e_evaluation_time := e_evaluation_time r;
     e_status := e_status r; e_error_message := v;
     e_inputs_hash := e_inputs_hash r; e_trigger_kind := e_trigger_kind r;
     e_hidden := e_hidden r; e_pr_number := e_pr_number r;
     e_pr_head_branch := e_pr_head_branch r;
     e_pr_base_branch := e_pr_base_branch r; e_pr_action := e_pr_action r;
     e_source_scope := e_source_scope r; e_superseded_by := e_superseded_by r;
     e_source_base_commit := e_source_base_commit r;
     e_started_at := e_started_at r; e_orphaned_count := e_orphaned_count r |}.

Definition set_e_inputs_hash (v : option string) (r : Evaluation) : Evaluation :=
  {| e_id := e_id r; e_jobset_id := e_jobset_id r;
     e_commit_hash := e_commit_hash r; e_evaluation_time := e_evaluation_time r;
     e_status := e_status r; e_error_message := e_error_message r;
     e_inputs_hash := v; e_trigger_kind := e_trigger_kind r;
     e_hidden := e_hidden r; e_pr_number := e_pr_number r;
     e_pr_head_branch := e_pr_head_branch r;
     e_pr_base_branch := e_pr_base_branch r; e_pr_action := e_pr_action r;
     e_source_scope := e_source_scope r; e_superseded_by := e_superseded_by r;
     e_source_base_commit := e_source_base_commit r;
     e_started_at := e_started_at r; e_orphaned_count := e_orphaned_count r |}.

Definition set_e_trigger_kind (v : EvaluationTriggerKind.t) (r : Evaluation) : Evaluation :=
  {| e_id := e_id r; e_jobset_id := e_jobset_id r;
     e_commit_hash := e_commit_hash r; e_evaluation_time := e_evaluation_time r;
     e_status := e_status r; e_error_message := e_error_message r;
     e_inputs_hash := e_inputs_hash r; e_trigger_kind := v;
     e_hidden := e_hidden r; e_pr_number := e_pr_number r;
     e_pr_head_branch := e_pr_head_branch r;
     e_pr_base_branch := e_pr_base_branch r; e_pr_action := e_pr_action r;
     e_source_scope := e_source_scope r; e_superseded_by := e_superseded_by r;
     e_source_base_commit := e_source_base_commit r;
     e_started_at := e_started_at r; e_orphaned_count := e_orphaned_count r |}.

Definition set_e_hidden (v : bool) (r : Evaluation) : Evaluation :=
  {| e_id := e_id r; e_jobset_id := e_jobset_id r;
     e_commit_hash := e_commit_hash r; e_evaluation_time := e_evaluation_time r;
     e_status := e_status r; e_error_message := e_error_message r;
     e_inputs_hash := e_inputs_hash r; e_trigger_kind := e_trigger_kind r;
     e_hidden := v; e_pr_number := e_pr_number r;
     e_pr_head_branch := e_pr_head_branch r;
     e_pr_base_branch := e_pr_base_branch r; e_pr_action := e_pr_action r;
     e_source_scope := e_source_scope r; e_superseded_by := e_superseded_by r;
     e_source_base_commit := e_source_base_commit r;
     e_started_at := e_started_at r; e_orphaned_count := e_orphaned_count r |}.

Definition set_e_source_scope (v : option string) (r : Evaluation) : Evaluation :=
  {| e_id := e_id r; e_jobset_id := e_jobset_id r;
     e_commit_hash := e_commit_hash r; e_evaluation_time := e_evaluation_time r;
     e_status := e_status r; e_error_message := e_error_message r;
     e_inputs_hash := e_inputs_hash r; e_trigger_kind := e_trigger_kind r;
     e_hidden := e_hidden r; e_pr_number := e_pr_number r;
     e_pr_head_branch := e_pr_head_branch r;
     e_pr_base_branch := e_pr_base_branch r; e_pr_action := e_pr_action r;
     e_source_scope := v; e_superseded_by := e_superseded_by r;
     e_source_base_commit := e_source_base_commit r;
     e_started_at := e_started_at r; e_orphaned_count := e_orphaned_count r |}.

Definition set_e_superseded_by (v : option Uuid) (r : Evaluation) : Evaluation :=
  {| e_id := e_id r; e_jobset_id := e_jobset_id r;
     e_commit_hash := e_commit_hash r; e_evaluation_time := e_evaluation_time r;
     e_status := e_status r; e_error_message := e_error_message r;
     e_inputs_hash := e_inputs_hash r; e_trigger_kind := e_trigger_kind r;
     e_hidden := e_hidden r; e_pr_number := e_pr_number r;
     e_pr_head_branch := e_pr_head_branch r;
     e_pr_base_branch := e_pr_base_branch r; e_pr_action := e_pr_action r;
     e_source_scope := e_source_scope r; e_superseded_by := v;
     e_source_base_commit := e_source_base_commit r;
     e_started_at := e_started_at r; e_orphaned_count := e_orphaned_count r |}.

Definition set_e_source_base_commit (v : option string) (r : Evaluation) : Evaluation :=
  {| e_id := e_id r; e_jobset_id := e_jobset_id r;
     e_commit_hash := e_commit_hash r; e_evaluation_time := e_evaluation_time r;
     e_status := e_status r; e_error_message := e_error_message r;
     e_inputs_hash := e_inputs_hash r; e_trigger_kind := e_trigger_kind r;
     e_hidden := e_hidden r; e_pr_number := e_pr_number r;
     e_pr_head_branch := e_pr_head_branch r;
     e_pr_base_branch := e_pr_base_branch r; e_pr_action := e_pr_action r;
     e_source_scope := e_source_scope r; e_superseded_by := e_superseded_by r;
     e_source_base_commit := v; e_started_at := e_started_at r;
     e_orphaned_count := e_orphaned_count r |}.

Definition set_e_started_at (v : option DateTime) (r : Evaluation) : Evaluation :=
  {| e_id := e_id r; e_jobset_id := e_jobset_id r;
     e_commit_hash := e_commit_hash r; e_evaluation_time := e_evaluation_time r;
     e_status := e_status r; e_error_message := e_error_message r;
     e_inputs_hash := e_inputs_hash r; e_trigger_kind := e_trigger_kind r;
     e_hidden := e_hidden r; e_pr_number := e_pr_number r;
     e_pr_head_branch := e_pr_head_branch r;
     e_pr_base_branch := e_pr_base_branch r; e_pr_action := e_pr_action r;
     e_source_scope := e_source_scope r; e_superseded_by := e_superseded_by r;
     e_source_base_commit := e_source_base_commit r; e_started_at := v;
     e_orphaned_count := e_orphaned_count r |}.

Definition set_e_orphaned_count (v : Z) (r : Evaluation) : Evaluation :=
  {| e_id := e_id r; e_jobset_id := e_jobset_id r;
     e_commit_hash := e_commit_hash r; e_evaluation_time := e_evaluation_time r;
     e_status := e_status r; e_error_message := e_error_message r;
     e_inputs_hash := e_inputs_hash r; e_trigger_kind := e_trigger_kind r;
     e_hidden := e_hidden r; e_pr_number := e_pr_number r;
     e_pr_head_branch := e_pr_head_branch r;
     e_pr_base_branch := e_pr_base_branch r; e_pr_action := e_pr_action r;
     e_source_scope := e_source_scope r; e_superseded_by := e_superseded_by r;
     e_source_base_commit := e_source_base_commit r;
     e_started_at := e_started_at r; e_orphaned_count := v |}.

Record Jobset := {
  j_id : Uuid;
  j_project_id : Uuid;
  j_name : string;
  j_nix_expression : string;
  j_enabled : bool;
  j_flake_mode : bool;
  j_check_interval : Z;
  j_trigger_mode : JobsetTriggerMode.t;
  j_branch : option string;
  j_branch_pattern : option string;
  j_tag_pattern : option string;
  j_scheduling_shares : Z;
  j_created_at : DateTime;
  j_updated_at : DateTime;
  j_state : JobsetState.t;
  j_last_checked_at : option DateTime;
  j_keep_nr : Z;
  j_systems : option (list string);
  j_only_build_latest : bool;
  j_path_filters : list string;
}.

Definition set_j_enabled (v : bool) (r : Jobset) : Jobset :=
  {| j_id := j_id r; j_project_id := j_project_id r; j_name := j_name r;
     j_nix_expression := j_nix_expression r; j_enabled := v;
     j_flake_mode := j_flake_mode r; j_check_interval := j_check_interval r;
     j_trigger_mode := j_trigger_mode r; j_branch := j_branch r;
     j_branch_pattern := j_branch_pattern r; j_tag_pattern := j_tag_pattern r;
     j_scheduling_shares := j_scheduling_shares r;
     j_created_at := j_created_at r; j_updated_at := j_updated_at r;
     j_state := j_state r; j_last_checked_at := j_last_checked_at r;
     j_keep_nr := j_keep_nr r; j_systems := j_systems r;
     j_only_build_latest := j_only_build_latest r;
     j_path_filters := j_path_filters r |}.

Definition set_j_updated_at (v : DateTime) (r : Jobset) : Jobset :=
  {| j_id := j_id r; j_project_id := j_project_id r; j_name := j_name r;
     j_nix_expression := j_nix_expression r; j_enabled := j_enabled r;
     j_flake_mode := j_flake_mode r; j_check_interval := j_check_interval r;
     j_trigger_mode := j_trigger_mode r; j_branch := j_branch r;
     j_branch_pattern := j_branch_pattern r; j_tag_pattern := j_tag_pattern r;
     j_scheduling_shares := j_scheduling_shares r;
     j_created_at := j_created_at r; j_updated_at := v; j_state := j_state r;
     j_last_checked_at := j_last_checked_at r; j_keep_nr := j_keep_nr r;
     j_systems := j_systems r; j_only_build_latest := j_only_build_latest r;
     j_path_filters := j_path_filters r |}.

Definition set_j_last_checked_at (v : option DateTime) (r : Jobset) : Jobset :=
  {| j_id := j_id r; j_project_id := j_project_id r; j_name := j_name r;
     j_nix_expression := j_nix_expression r; j_enabled := j_enabled r;
     j_flake_mode := j_flake_mode r; j_check_interval := j_check_interval r;
     j_trigger_mode := j_trigger_mode r; j_branch := j_branch r;
     j_branch_pattern := j_branch_pattern r; j_tag_pattern := j_tag_pattern r;
     j_scheduling_shares := j_scheduling_shares r;
     j_created_at := j_created_at r; j_updated_at := j_updated_at r;
     j_state := j_state r; j_last_checked_at := v; j_keep_nr := j_keep_nr r;
     j_systems := j_systems r; j_only_build_latest := j_only_build_latest r;
     j_path_filters := j_path_filters r |}.

Record JobsetInput := {
  ji_id : Uuid;
  ji_jobset_id : Uuid;
  ji_name : string;
  ji_input_type : InputType.t;
  ji_value : string;
  ji_revision : option string;
  ji_created_at : DateTime;
}.

Record Project := {
  p_id : Uuid;
  p_name : string;
  p_description : option string;
  p_repository_url : string;
  p_cache_enabled : bool;
  p_cache_url : option string;
  p_cache_upstreams : list (string * option string);
  p_managed_declaratively : bool;
  p_allow_runtime_mutation : option bool;
  p_created_at : DateTime;
  p_updated_at : DateTime;
}.

Record RemoteBuilderParams := {
  rs_name : string;
  rs_ssh_uri : string;
  rs_systems : list string;
  rs_max_jobs : Z;
  rs_speed_factor : Z;
  rs_supported_features : list string;
  rs_mandatory_features : list string;
  rs_enabled : bool;
  rs_public_host_key : option string;
  rs_ssh_key_file : option string;
}.

Record RemoteBuilder := {
  rb_id : Uuid;
  rb_params : RemoteBuilderParams;
  rb_created_at : DateTime;
  rb_consecutive_failures : Z;
  rb_disabled_until : option DateTime;
  rb_last_failure : option DateTime;
  rb_cpu_cores : option Z;
}.

(** A row of [builder_sessions], grouped as it is written: at registration, by
    heartbeats, and by the outcome counters. *)

Record RegisterSession := {
  sr_machine_id : Uuid;
  sr_name : string;
  sr_hostname : string;
  sr_systems : list string;
  sr_supported_features : list string;
  sr_mandatory_features : list string;
  sr_speed_factor : f32;
  sr_cpu_count : Z;
  sr_max_jobs : Z;
  sr_proto_version : string;
  sr_ephemeral : bool;
  sr_auth_kind : string;
}.

Record SessionMetrics := {
  sm_load1 : option f32;
  sm_load5 : option f32;
  sm_load15 : option f32;
  sm_cpu_psi_avg10 : option f32;
  sm_mem_psi_avg10 : option f32;
  sm_io_psi_avg10 : option f32;
  sm_mem_total : option Z;
  sm_mem_used : option Z;
  sm_store_free : option Z;
  sm_build_dir_free : option Z;
}.

Record BuilderSession := {
  bs_reg : RegisterSession;
  bs_metrics : SessionMetrics;
  bs_last_seen : option DateTime;
  bs_current_jobs : Z;
  bs_connected : bool;
  bs_builds_succeeded : Z;
  bs_builds_failed : Z;
  bs_consecutive_failures : Z;
  bs_disabled_until : option DateTime;
  bs_created_at : DateTime;
  bs_updated_at : DateTime;
}.

Record FailedPath := {
  fp_source_build_id : option Uuid;
  fp_failure_status : option BuildStatus;
  fp_failed_at : DateTime;
}.

(** A row of [narinfo_cache], by store path: [nr_info] is what an upsert replaces. *)

Record NarInfoData := {
  ni_nar_hash : string;
  ni_nar_size : Z;
  ni_file_hash : option string;
  ni_file_size : option Z;
  ni_compression : string;
  ni_url : string;
  ni_deriver : option string;
  ni_references : list string;
  ni_sig : option string;
  ni_ca : option string;
}.

Record NarInfo := {
  nr_info : NarInfoData;
  nr_build_id : option Uuid;
  nr_project_id : option Uuid;
  nr_created_at : DateTime;
  nr_updated_at : DateTime;
  nr_last_fetched_at : option DateTime;
}.

Record NotificationConfig := {
  nc_id : Uuid;
  nc_project_id : Uuid;
  nc_notification_type : NotificationType.t;
  nc_config : Json;
  nc_enabled : bool;
  nc_created_at : DateTime;
}.

Record NotificationTask := {
  nt_id : Uuid;
  nt_notification_type : NotificationType.t;
  nt_payload : Json;
  nt_status : NotificationTaskStatus.t;
  nt_attempts : Z;
  nt_max_attempts : Z;
  nt_next_retry_at : DateTime;
  nt_last_error : option string;
  nt_created_at : DateTime;
  nt_completed_at : option DateTime;
}.

Definition set_nt_status (v : NotificationTaskStatus.t) (r : NotificationTask) : NotificationTask :=
  {| nt_id := nt_id r; nt_notification_type := nt_notification_type r;
     nt_payload := nt_payload r; nt_status := v; nt_attempts := nt_attempts r;
     nt_max_attempts := nt_max_attempts r;
     nt_next_retry_at := nt_next_retry_at r; nt_last_error := nt_last_error r;
     nt_created_at := nt_created_at r; nt_completed_at := nt_completed_at r |}.

Definition set_nt_attempts (v : Z) (r : NotificationTask) : NotificationTask :=
  {| nt_id := nt_id r; nt_notification_type := nt_notification_type r;
     nt_payload := nt_payload r; nt_status := nt_status r; nt_attempts := v;
     nt_max_attempts := nt_max_attempts r;
     nt_next_retry_at := nt_next_retry_at r; nt_last_error := nt_last_error r;
     nt_created_at := nt_created_at r; nt_completed_at := nt_completed_at r |}.

Definition set_nt_next_retry_at (v : DateTime) (r : NotificationTask) : NotificationTask :=
  {| nt_id := nt_id r; nt_notification_type := nt_notification_type r;
     nt_payload := nt_payload r; nt_status := nt_status r;
     nt_attempts := nt_attempts r; nt_max_attempts := nt_max_attempts r;
     nt_next_retry_at := v; nt_last_error := nt_last_error r;
     nt_created_at := nt_created_at r; nt_completed_at := nt_completed_at r |}.

Definition set_nt_last_error (v : option string) (r : NotificationTask) : NotificationTask :=
  {| nt_id := nt_id r; nt_notification_type := nt_notification_type r;
     nt_payload := nt_payload r; nt_status := nt_status r;
     nt_attempts := nt_attempts r; nt_max_attempts := nt_max_attempts r;
     nt_next_retry_at := nt_next_retry_at r; nt_last_error := v;
     nt_created_at := nt_created_at r; nt_completed_at := nt_completed_at r |}.

Definition set_nt_completed_at (v : option DateTime) (r : NotificationTask) : NotificationTask :=
  {| nt_id := nt_id r; nt_notification_type := nt_notification_type r;
     nt_payload := nt_payload r; nt_status := nt_status r;
     nt_attempts := nt_attempts r; nt_max_attempts := nt_max_attempts r;
     nt_next_retry_at := nt_next_retry_at r; nt_last_error := nt_last_error r;
     nt_created_at := nt_created_at r; nt_completed_at := v |}.

Record User := {
  u_id : Uuid;
  u_username : string;
  u_email : string;
  u_full_name : option string;
  u_password_hash : option string;
  u_user_type : UserType.t;
  u_role : GlobalRole.t;
  u_enabled : bool;
  u_email_verified : bool;
  u_public_dashboard : bool;
  u_created_at : DateTime;
  u_updated_at : DateTime;
  u_last_login_at : option DateTime;
}.

Definition set_u_email (v : string) (r : User) : User :=
  {| u_id := u_id r; u_username := u_username r; u_email := v;
     u_full_name := u_full_name r; u_password_hash := u_password_hash r;
     u_user_type := u_user_type r; u_role := u_role r; u_enabled := u_enabled r;
     u_email_verified := u_email_verified r;
     u_public_dashboard := u_public_dashboard r; u_created_at := u_created_at r;
     u_updated_at := u_updated_at r; u_last_login_at := u_last_login_at r |}.

Definition set_u_full_name (v : option string) (r : User) : User :=
  {| u_id := u_id r; u_username := u_username r; u_email := u_email r;
     u_full_name := v; u_password_hash := u_password_hash r;
     u_user_type := u_user_type r; u_role := u_role r; u_enabled := u_enabled r;
     u_email_verified := u_email_verified r;
     u_public_dashboard := u_public_dashboard r; u_created_at := u_created_at r;
     u_updated_at := u_updated_at r; u_last_login_at := u_last_login_at r |}.

Definition set_u_password_hash (v : option string) (r : User) : User :=
  {| u_id := u_id r; u_username := u_username r; u_email := u_email r;
     u_full_name := u_full_name r; u_password_hash := v;
     u_user_type := u_user_type r; u_role := u_role r; u_enabled := u_enabled r;
     u_email_verified := u_email_verified r;
     u_public_dashboard := u_public_dashboard r; u_created_at := u_created_at r;
     u_updated_at := u_updated_at r; u_last_login_at := u_last_login_at r |}.

Definition set_u_role (v : GlobalRole.t) (r : User) : User :=
  {| u_id := u_id r; u_username := u_username r; u_email := u_email r;
     u_full_name := u_full_name r; u_password_hash := u_password_hash r;
     u_user_type := u_user_type r; u_role := v; u_enabled := u_enabled r;
     u_email_verified := u_email_verified r;
     u_public_dashboard := u_public_dashboard r; u_created_at := u_created_at r;
     u_updated_at := u_updated_at r; u_last_login_at := u_last_login_at r |}.

Definition set_u_enabled (v : bool) (r : User) : User :=
  {| u_id := u_id r; u_username := u_username r; u_email := u_email r;
     u_full_name := u_full_name r; u_password_hash := u_password_hash r;
     u_user_type := u_user_type r; u_role := u_role r; u_enabled := v;
     u_email_verified := u_email_verified r;
     u_public_dashboard := u_public_dashboard r; u_created_at := u_created_at r;
     u_updated_at := u_updated_at r; u_last_login_at := u_last_login_at r |}.

Definition set_u_public_dashboard (v : bool) (r : User) : User :=
  {| u_id := u_id r; u_username := u_username r; u_email := u_email r;
     u_full_name := u_full_name r; u_password_hash := u_password_hash r;
     u_user_type := u_user_type r; u_role := u_role r; u_enabled := u_enabled r;
     u_email_verified := u_email_verified r; u_public_dashboard := v;
     u_created_at := u_created_at r; u_updated_at := u_updated_at r;
     u_last_login_at := u_last_login_at r |}.

Definition set_u_updated_at (v : DateTime) (r : User) : User :=
  {| u_id := u_id r; u_username := u_username r; u_email := u_email r;
     u_full_name := u_full_name r; u_password_hash := u_password_hash r;
     u_user_type := u_user_type r; u_role := u_role r; u_enabled := u_enabled r;
     u_email_verified := u_email_verified r;
     u_public_dashboard := u_public_dashboard r; u_created_at := u_created_at r;
     u_updated_at := v; u_last_login_at := u_last_login_at r |}.

Definition set_u_last_login_at (v : option DateTime) (r : User) : User :=
  {| u_id := u_id r; u_username := u_username r; u_email := u_email r;
     u_full_name := u_full_name r; u_password_hash := u_password_hash r;
     u_user_type := u_user_type r; u_role := u_role r; u_enabled := u_enabled r;
     u_email_verified := u_email_verified r;
     u_public_dashboard := u_public_dashboard r; u_created_at := u_created_at r;
     u_updated_at := u_updated_at r; u_last_login_at := v |}.

Record UserSession := {
  us_id : Uuid;
  us_user_id : Uuid;
  us_session_token_hash : string;
  us_expires_at : DateTime;
  us_created_at : DateTime;
  us_last_used_at : option DateTime;
}.

Definition set_us_last_used_at (v : option DateTime) (r : UserSession) : UserSession :=
  {| us_id := us_id r; us_user_id := us_user_id r;
     us_session_token_hash := us_session_token_hash r;
     us_expires_at := us_expires_at r; us_created_at := us_created_at r;
     us_last_used_at := v |}.

Record ApiKey := {
  ak_id : Uuid;
  ak_name : string;
  ak_key_hash : string;
  ak_role : GlobalRole.t;
  ak_user_id : option Uuid;
  ak_created_at : DateTime;
  ak_last_used_at : option DateTime;
}.

Definition set_ak_name (v : string) (r : ApiKey) : ApiKey :=
  {| ak_id := ak_id r; ak_name := v; ak_key_hash := ak_key_hash r;
     ak_role := ak_role r; ak_user_id := ak_user_id r;
     ak_created_at := ak_created_at r; ak_last_used_at := ak_last_used_at r |}.

Definition set_ak_role (v : GlobalRole.t) (r : ApiKey) : ApiKey :=
  {| ak_id := ak_id r; ak_name := ak_name r; ak_key_hash := ak_key_hash r;
     ak_role := v; ak_user_id := ak_user_id r; ak_created_at := ak_created_at r;
     ak_last_used_at := ak_last_used_at r |}.

Definition set_ak_user_id (v : option Uuid) (r : ApiKey) : ApiKey :=
  {| ak_id := ak_id r; ak_name := ak_name r; ak_key_hash := ak_key_hash r;
     ak_role := ak_role r; ak_user_id := v; ak_created_at := ak_created_at r;
     ak_last_used_at := ak_last_used_at r |}.

Definition set_ak_last_used_at (v : option DateTime) (r : ApiKey) : ApiKey :=
  {| ak_id := ak_id r; ak_name := ak_name r; ak_key_hash := ak_key_hash r;
     ak_role := ak_role r; ak_user_id := ak_user_id r;
     ak_created_at := ak_created_at r; ak_last_used_at := v |}.

Record ProjectMember := {
  pm_id : Uuid;
  pm_project_id : Uuid;
  pm_user_id : Uuid;
  pm_role : ProjectRole.t;
  pm_created_at : DateTime;
}.

Definition set_pm_role (v : ProjectRole.t) (r : ProjectMember) : ProjectMember :=
  {| pm_id := pm_id r; pm_project_id := pm_project_id r;
     pm_user_id := pm_user_id r; pm_role := v; pm_created_at := pm_created_at r |}.

Record WebhookConfig := {
  wc_id : Uuid;
  wc_project_id : Uuid;
  wc_forge_type : ForgeType.t;
  wc_secret_hash : option string;
  wc_enabled : bool;
  wc_created_at : DateTime;
}.

Record Channel := {
  ch_id : Uuid;
  ch_project_id : Uuid;
  ch_name : string;
  ch_jobset_id : Uuid;
  ch_current_evaluation_id : option Uuid;
  ch_created_at : DateTime;
  ch_updated_at : DateTime;
}.

(** ** The world *)

Record World := {
  w_builds : gmap Z Build;
  w_deps : list (Z * Z);
  w_failed_paths : gmap string FailedPath;
  w_outputs : gmap (Z * string) (option string);
  w_evaluations : gmap Z Evaluation;
  w_jobsets : gmap Z Jobset;
  w_projects : gmap Z Project;
  w_remote_builders : gmap Z RemoteBuilder;
  w_sessions : gmap Z BuilderSession;
  w_narinfos : gmap string NarInfo;
  w_narinfo_projects : gmap (string * Z) (option Uuid);
  w_source_heads : gmap (Z * string) string;
  w_inputs : gmap (Z * string) JobsetInput;
  w_notification_configs : gmap (Z * string) NotificationConfig;
  w_notification_tasks : gmap Z NotificationTask;
  w_users : gmap Z User;
  w_user_sessions : gmap Z UserSession;
  w_api_keys : gmap Z ApiKey;
  w_project_members : gmap Z ProjectMember;
  w_webhook_configs : gmap Z WebhookConfig;
  w_channels : gmap Z Channel;
  w_locks : gset string;
  w_now : DateTime;
  w_faults : list bool;
}.

Definition set_w_builds (v : gmap Z Build) (r : World) : World :=
  {| w_builds := v; w_deps := w_deps r; w_failed_paths := w_failed_paths r;
     w_outputs := w_outputs r; w_evaluations := w_evaluations r;
     w_jobsets := w_jobsets r; w_projects := w_projects r;
     w_remote_builders := w_remote_builders r; w_sessions := w_sessions r;
     w_narinfos := w_narinfos r; w_narinfo_projects := w_narinfo_projects r;
     w_source_heads := w_source_heads r; w_inputs := w_inputs r;
     w_notification_configs := w_notification_configs r;
     w_notification_tasks := w_notification_tasks r; w_users := w_users r;
     w_user_sessions := w_user_sessions r; w_api_keys := w_api_keys r;
     w_project_members := w_project_members r;
     w_webhook_configs := w_webhook_configs r; w_channels := w_channels r; w_locks := w_locks r;
     w_now := w_now r; w_faults := w_faults r |}.

Definition set_w_deps (v : list (Z * Z)) (r : World) : World :=
  {| w_builds := w_builds r; w_deps := v; w_failed_paths := w_failed_paths r;
     w_outputs := w_outputs r; w_evaluations := w_evaluations r;
     w_jobsets := w_jobsets r; w_projects := w_projects r;
     w_remote_builders := w_remote_builders r; w_sessions := w_sessions r;
     w_narinfos := w_narinfos r; w_narinfo_projects := w_narinfo_projects r;
     w_source_heads := w_source_heads r; w_inputs := w_inputs r;
     w_notification_configs := w_notification_configs r;
     w_notification_tasks := w_notification_tasks r; w_users := w_users r;
     w_user_sessions := w_user_sessions r; w_api_keys := w_api_keys r;
     w_project_members := w_project_members r;
     w_webhook_configs := w_webhook_configs r; w_channels := w_channels r; w_locks := w_locks r;
     w_now := w_now r; w_faults := w_faults r |}.

Definition set_w_failed_paths (v : gmap string FailedPath) (r : World) : World :=
  {| w_builds := w_builds r; w_deps := w_deps r; w_failed_paths := v;
     w_outputs := w_outputs r; w_evaluations := w_evaluations r;
     w_jobsets := w_jobsets r; w_projects := w_projects r;
     w_remote_builders := w_remote_builders r; w_sessions := w_sessions r;
     w_narinfos := w_narinfos r; w_narinfo_projects := w_narinfo_projects r;
     w_source_heads := w_source_heads r; w_inputs := w_inputs r;
     w_notification_configs := w_notification_configs r;
     w_notification_tasks := w_notification_tasks r; w_users := w_users r;
     w_user_sessions := w_user_sessions r; w_api_keys := w_api_keys r;
     w_project_members := w_project_members r;
     w_webhook_configs := w_webhook_configs r; w_channels := w_channels r; w_locks := w_locks r;
     w_now := w_now r; w_faults := w_faults r |}.

Definition set_w_outputs (v : gmap (Z * string) (option string)) (r : World) : World :=
  {| w_builds := w_builds r; w_deps := w_deps r;
     w_failed_paths := w_failed_paths r; w_outputs := v;
     w_evaluations := w_evaluations r; w_jobsets := w_jobsets r;
     w_projects := w_projects r; w_remote_builders := w_remote_builders r;
     w_sessions := w_sessions r; w_narinfos := w_narinfos r;
     w_narinfo_projects := w_narinfo_projects r;
     w_source_heads := w_source_heads r; w_inputs := w_inputs r;
     w_notification_configs := w_notification_configs r;
     w_notification_tasks := w_notification_tasks r; w_users := w_users r;
     w_user_sessions := w_user_sessions r; w_api_keys := w_api_keys r;
     w_project_members := w_project_members r;
     w_webhook_configs := w_webhook_configs r; w_channels := w_channels r; w_locks := w_locks r;
     w_now := w_now r; w_faults := w_faults r |}.

Definition set_w_evaluations (v : gmap Z Evaluation) (r : World) : World :=
  {| w_builds := w_builds r; w_deps := w_deps r;
     w_failed_paths := w_failed_paths r; w_outputs := w_outputs r;
     w_evaluations := v; w_jobsets := w_jobsets r; w_projects := w_projects r;
     w_remote_builders := w_remote_builders r; w_sessions := w_sessions r;
     w_narinfos := w_narinfos r; w_narinfo_projects := w_narinfo_projects r;
     w_source_heads := w_source_heads r; w_inputs := w_inputs r;
     w_notification_configs := w_notification_configs r;
     w_notification_tasks := w_notification_tasks r; w_users := w_users r;
     w_user_sessions := w_user_sessions r; w_api_keys := w_api_keys r;
     w_project_members := w_project_members r;
     w_webhook_configs := w_webhook_configs r; w_channels := w_channels r; w_locks := w_locks r;
     w_now := w_now r; w_faults := w_faults r |}.

Definition set_w_jobsets (v : gmap Z Jobset) (r : World) : World :=
  {| w_builds := w_builds r; w_deps := w_deps r;
     w_failed_paths := w_failed_paths r; w_outputs := w_outputs r;
     w_evaluations := w_evaluations r; w_jobsets := v;
     w_projects := w_projects r; w_remote_builders := w_remote_builders r;
     w_sessions := w_sessions r; w_narinfos := w_narinfos r;
     w_narinfo_projects := w_narinfo_projects r;
     w_source_heads := w_source_heads r; w_inputs := w_inputs r;
     w_notification_configs := w_notification_configs r;
     w_notification_tasks := w_notification_tasks r; w_users := w_users r;
     w_user_sessions := w_user_sessions r; w_api_keys := w_api_keys r;
     w_project_members := w_project_members r;
     w_webhook_configs := w_webhook_configs r; w_channels := w_channels r; w_locks := w_locks r;
     w_now := w_now r; w_faults := w_faults r |}.

Definition set_w_projects (v : gmap Z Project) (r : World) : World :=
  {| w_builds := w_builds r; w_deps := w_deps r;
     w_failed_paths := w_failed_paths r; w_outputs := w_outputs r;
     w_evaluations := w_evaluations r; w_jobsets := w_jobsets r; w_projects := v;
     w_remote_builders := w_remote_builders r; w_sessions := w_sessions r;
     w_narinfos := w_narinfos r; w_narinfo_projects := w_narinfo_projects r;
     w_source_heads := w_source_heads r; w_inputs := w_inputs r;
     w_notification_configs := w_notification_configs r;
     w_notification_tasks := w_notification_tasks r; w_users := w_users r;
     w_user_sessions := w_user_sessions r; w_api_keys := w_api_keys r;
     w_project_members := w_project_members r;
     w_webhook_configs := w_webhook_configs r; w_channels := w_channels r; w_locks := w_locks r;
     w_now := w_now r; w_faults := w_faults r |}.

Definition set_w_source_heads (v : gmap (Z * string) string) (r : World) : World :=
  {| w_builds := w_builds r; w_deps := w_deps r;
     w_failed_paths := w_failed_paths r; w_outputs := w_outputs r;
     w_evaluations := w_evaluations r; w_jobsets := w_jobsets r;
     w_projects := w_projects r; w_remote_builders := w_remote_builders r;
     w_sessions := w_sessions r; w_narinfos := w_narinfos r;
     w_narinfo_projects := w_narinfo_projects r; w_source_heads := v;
     w_inputs := w_inputs r; w_notification_configs := w_notification_configs r;
     w_notification_tasks := w_notification_tasks r; w_users := w_users r;
     w_user_sessions := w_user_sessions r; w_api_keys := w_api_keys r;
     w_project_members := w_project_members r;
     w_webhook_configs := w_webhook_configs r; w_channels := w_channels r; w_locks := w_locks r;
     w_now := w_now r; w_faults := w_faults r |}.

Definition set_w_inputs (v : gmap (Z * string) JobsetInput) (r : World) : World :=
  {| w_builds := w_builds r; w_deps := w_deps r;
     w_failed_paths := w_failed_paths r; w_outputs := w_outputs r;
     w_evaluations := w_evaluations r; w_jobsets := w_jobsets r;
     w_projects := w_projects r; w_remote_builders := w_remote_builders r;
     w_sessions := w_sessions r; w_narinfos := w_narinfos r;
     w_narinfo_projects := w_narinfo_projects r;
     w_source_heads := w_source_heads r; w_inputs := v;
     w_notification_configs := w_notification_configs r;
     w_notification_tasks := w_notification_tasks r; w_users := w_users r;
     w_user_sessions := w_user_sessions r; w_api_keys := w_api_keys r;
     w_project_members := w_project_members r;
     w_webhook_configs := w_webhook_configs r; w_channels := w_channels r; w_locks := w_locks r;
     w_now := w_now r; w_faults := w_faults r |}.

Definition set_w_notification_configs (v : gmap (Z * string) NotificationConfig) (r : World) : World :=
  {| w_builds := w_builds r; w_deps := w_deps r;
     w_failed_paths := w_failed_paths r; w_outputs := w_outputs r;
     w_evaluations := w_evaluations r; w_jobsets := w_jobsets r;
     w_projects := w_projects r; w_remote_builders := w_remote_builders r;
     w_sessions := w_sessions r; w_narinfos := w_narinfos r;
     w_narinfo_projects := w_narinfo_projects r;
     w_source_heads := w_source_heads r; w_inputs := w_inputs r;
     w_notification_configs := v; w_notification_tasks := w_notification_tasks r;
     w_users := w_users r; w_user_sessions := w_user_sessions r;
     w_api_keys := w_api_keys r; w_project_members := w_project_members r;
     w_webhook_configs := w_webhook_configs r; w_channels := w_channels r;
     w_locks := w_locks r; w_now := w_now r; w_faults := w_faults r |}.

Definition set_w_notification_tasks (v : gmap Z NotificationTask) (r : World) : World :=
  {| w_builds := w_builds r; w_deps := w_deps r;
     w_failed_paths := w_failed_paths r; w_outputs := w_outputs r;
     w_evaluations := w_evaluations r; w_jobsets := w_jobsets r;
     w_projects := w_projects r; w_remote_builders := w_remote_builders r;
     w_sessions := w_sessions r; w_narinfos := w_narinfos r;
     w_narinfo_projects := w_narinfo_projects r;
     w_source_heads := w_source_heads r; w_inputs := w_inputs r;
     w_notification_configs := w_notification_configs r;
     w_notification_tasks := v; w_users := w_users r;
     w_user_sessions := w_user_sessions r; w_api_keys := w_api_keys r;
     w_project_members := w_project_members r;
     w_webhook_configs := w_webhook_configs r; w_channels := w_channels r; w_locks := w_locks r;
     w_now := w_now r; w_faults := w_faults r |}.

Definition set_w_users (v : gmap Z User) (r : World) : World :=
  {| w_builds := w_builds r; w_deps := w_deps r;
     w_failed_paths := w_failed_paths r; w_outputs := w_outputs r;
     w_evaluations := w_evaluations r; w_jobsets := w_jobsets r;
     w_projects := w_projects r; w_remote_builders := w_remote_builders r;
     w_sessions := w_sessions r; w_narinfos := w_narinfos r;
     w_narinfo_projects := w_narinfo_projects r;
     w_source_heads := w_source_heads r; w_inputs := w_inputs r;
     w_notification_configs := w_notification_configs r;
     w_notification_tasks := w_notification_tasks r; w_users := v;
     w_user_sessions := w_user_sessions r; w_api_keys := w_api_keys r;
     w_project_members := w_project_members r;
     w_webhook_configs := w_webhook_configs r; w_channels := w_channels r; w_locks := w_locks r;
     w_now := w_now r; w_faults := w_faults r |}.

Definition set_w_user_sessions (v : gmap Z UserSession) (r : World) : World :=
  {| w_builds := w_builds r; w_deps := w_deps r;
     w_failed_paths := w_failed_paths r; w_outputs := w_outputs r;
     w_evaluations := w_evaluations r; w_jobsets := w_jobsets r;
     w_projects := w_projects r; w_remote_builders := w_remote_builders r;
     w_sessions := w_sessions r; w_narinfos := w_narinfos r;
     w_narinfo_projects := w_narinfo_projects r;
     w_source_heads := w_source_heads r; w_inputs := w_inputs r;
     w_notification_configs := w_notification_configs r;
     w_notification_tasks := w_notification_tasks r; w_users := w_users r;
     w_user_sessions := v; w_api_keys := w_api_keys r;
     w_project_members := w_project_members r;
     w_webhook_configs := w_webhook_configs r; w_channels := w_channels r; w_locks := w_locks r;
     w_now := w_now r; w_faults := w_faults r |}.

Definition set_w_api_keys (v : gmap Z ApiKey) (r : World) : World :=
  {| w_builds := w_builds r; w_deps := w_deps r;
     w_failed_paths := w_failed_paths r; w_outputs := w_outputs r;
     w_evaluations := w_evaluations r; w_jobsets := w_jobsets r;
     w_projects := w_projects r; w_remote_builders := w_remote_builders r;
     w_sessions := w_sessions r; w_narinfos := w_narinfos r;
     w_narinfo_projects := w_narinfo_projects r;
     w_source_heads := w_source_heads r; w_inputs := w_inputs r;
     w_notification_configs := w_notification_configs r;
     w_notification_tasks := w_notification_tasks r; w_users := w_users r;
     w_user_sessions := w_user_sessions r; w_api_keys := v;
     w_project_members := w_project_members r;
     w_webhook_configs := w_webhook_configs r; w_channels := w_channels r; w_locks := w_locks r;
     w_now := w_now r; w_faults := w_faults r |}.

Definition set_w_project_members (v : gmap Z ProjectMember) (r : World) : World :=
  {| w_builds := w_builds r; w_deps := w_deps r;
     w_failed_paths := w_failed_paths r; w_outputs := w_outputs r;
     w_evaluations := w_evaluations r; w_jobsets := w_jobsets r;
     w_projects := w_projects r; w_remote_builders := w_remote_builders r;
     w_sessions := w_sessions r; w_narinfos := w_narinfos r;
     w_narinfo_projects := w_narinfo_projects r;
     w_source_heads := w_source_heads r; w_inputs := w_inputs r;
     w_notification_configs := w_notification_configs r;
     w_notification_tasks := w_notification_tasks r; w_users := w_users r;
     w_user_sessions := w_user_sessions r; w_api_keys := w_api_keys r;
     w_project_members := v;
     w_webhook_configs := w_webhook_configs r; w_channels := w_channels r; w_locks := w_locks r; w_now := w_now r;
     w_faults := w_faults r |}.

Definition set_w_remote_builders (v : gmap Z RemoteBuilder) (r : World) : World :=
  {| w_builds := w_builds r; w_deps := w_deps r;
     w_failed_paths := w_failed_paths r; w_outputs := w_outputs r;
     w_evaluations := w_evaluations r; w_jobsets := w_jobsets r;
     w_projects := w_projects r; w_remote_builders := v;
     w_sessions := w_sessions r; w_narinfos := w_narinfos r;
     w_narinfo_projects := w_narinfo_projects r;
     w_source_heads := w_source_heads r; w_inputs := w_inputs r;
     w_notification_configs := w_notification_configs r;
     w_notification_tasks := w_notification_tasks r; w_users := w_users r;
     w_user_sessions := w_user_sessions r; w_api_keys := w_api_keys r;
     w_project_members := w_project_members r;
     w_webhook_configs := w_webhook_configs r; w_channels := w_channels r; w_locks := w_locks r;
     w_now := w_now r; w_faults := w_faults r |}.

Definition set_w_sessions (v : gmap Z BuilderSession) (r : World) : World :=
  {| w_builds := w_builds r; w_deps := w_deps r;
     w_failed_paths := w_failed_paths r; w_outputs := w_outputs r;
     w_evaluations := w_evaluations r; w_jobsets := w_jobsets r;
     w_projects := w_projects r; w_remote_builders := w_remote_builders r;
     w_sessions := v; w_narinfos := w_narinfos r;
     w_narinfo_projects := w_narinfo_projects r;
     w_source_heads := w_source_heads r; w_inputs := w_inputs r;
     w_notification_configs := w_notification_configs r;
     w_notification_tasks := w_notification_tasks r; w_users := w_users r;
     w_user_sessions := w_user_sessions r; w_api_keys := w_api_keys r;
     w_project_members := w_project_members r;
     w_webhook_configs := w_webhook_configs r; w_channels := w_channels r; w_locks := w_locks r;
     w_now := w_now r; w_faults := w_faults r |}.

Definition set_w_narinfos (v : gmap string NarInfo) (r : World) : World :=
  {| w_builds := w_builds r; w_deps := w_deps r;
     w_failed_paths := w_failed_paths r; w_outputs := w_outputs r;
     w_evaluations := w_evaluations r; w_jobsets := w_jobsets r;
     w_projects := w_projects r; w_remote_builders := w_remote_builders r;
     w_sessions := w_sessions r; w_narinfos := v;
     w_narinfo_projects := w_narinfo_projects r;
     w_source_heads := w_source_heads r; w_inputs := w_inputs r;
     w_notification_configs := w_notification_configs r;
     w_notification_tasks := w_notification_tasks r; w_users := w_users r;
     w_user_sessions := w_user_sessions r; w_api_keys := w_api_keys r;
     w_project_members := w_project_members r;
     w_webhook_configs := w_webhook_configs r; w_channels := w_channels r; w_locks := w_locks r;
     w_now := w_now r; w_faults := w_faults r |}.

Definition set_w_narinfo_projects (v : gmap (string * Z) (option Uuid)) (r : World) : World :=
  {| w_builds := w_builds r; w_deps := w_deps r;
     w_failed_paths := w_failed_paths r; w_outputs := w_outputs r;
     w_evaluations := w_evaluations r; w_jobsets := w_jobsets r;
     w_projects := w_projects r; w_remote_builders := w_remote_builders r;
     w_sessions := w_sessions r; w_narinfos := w_narinfos r;
     w_narinfo_projects := v; w_source_heads := w_source_heads r;
     w_inputs := w_inputs r; w_notification_configs := w_notification_configs r;
     w_notification_tasks := w_notification_tasks r; w_users := w_users r;
     w_user_sessions := w_user_sessions r; w_api_keys := w_api_keys r;
     w_project_members := w_project_members r;
     w_webhook_configs := w_webhook_configs r; w_channels := w_channels r; w_locks := w_locks r;
     w_now := w_now r; w_faults := w_faults r |}.

Definition set_w_now (v : DateTime) (r : World) : World :=
  {| w_builds := w_builds r; w_deps := w_deps r;
     w_failed_paths := w_failed_paths r; w_outputs := w_outputs r;
     w_evaluations := w_evaluations r; w_jobsets := w_jobsets r;
     w_projects := w_projects r; w_remote_builders := w_remote_builders r;
     w_sessions := w_sessions r; w_narinfos := w_narinfos r;
     w_narinfo_projects := w_narinfo_projects r;
     w_source_heads := w_source_heads r; w_inputs := w_inputs r;
     w_notification_configs := w_notification_configs r;
     w_notification_tasks := w_notification_tasks r; w_users := w_users r;
     w_user_sessions := w_user_sessions r; w_api_keys := w_api_keys r;
     w_project_members := w_project_members r;
     w_webhook_configs := w_webhook_configs r; w_channels := w_channels r; w_locks := w_locks r; w_now := v;
     w_faults := w_faults r |}.

Definition set_w_faults (v : list bool) (r : World) : World :=
  {| w_builds := w_builds r; w_deps := w_deps r;
     w_failed_paths := w_failed_paths r; w_outputs := w_outputs r;
     w_evaluations := w_evaluations r; w_jobsets := w_jobsets r;
     w_projects := w_projects r; w_remote_builders := w_remote_builders r;
     w_sessions := w_sessions r; w_narinfos := w_narinfos r;
     w_narinfo_projects := w_narinfo_projects r;
     w_source_heads := w_source_heads r; w_inputs := w_inputs r;
     w_notification_configs := w_notification_configs r;
     w_notification_tasks := w_notification_tasks r; w_users := w_users r;
     w_user_sessions := w_user_sessions r; w_api_keys := w_api_keys r;
     w_project_members := w_project_members r;
     w_webhook_configs := w_webhook_configs r; w_channels := w_channels r; w_locks := w_locks r;
     w_now := w_now r; w_faults := v |}.

Definition set_w_webhook_configs (v : gmap Z WebhookConfig) (r : World) : World :=
  {| w_builds := w_builds r; w_deps := w_deps r; w_failed_paths := w_failed_paths r;
     w_outputs := w_outputs r; w_evaluations := w_evaluations r; w_jobsets := w_jobsets r;
     w_projects := w_projects r; w_remote_builders := w_remote_builders r; w_sessions :=
     w_sessions r; w_narinfos := w_narinfos r; w_narinfo_projects := w_narinfo_projects r;
     w_source_heads := w_source_heads r; w_inputs := w_inputs r; w_notification_configs :=
     w_notification_configs r; w_notification_tasks := w_notification_tasks r; w_users :=
     w_users r; w_user_sessions := w_user_sessions r; w_api_keys := w_api_keys r;
     w_project_members := w_project_members r; w_webhook_configs := v; w_channels :=
     w_channels r; w_locks := w_locks r; w_now := w_now r; w_faults := w_faults r |}.

Definition set_w_channels (v : gmap Z Channel) (r : World) : World :=
  {| w_builds := w_builds r; w_deps := w_deps r; w_failed_paths := w_failed_paths r;
     w_outputs := w_outputs r; w_evaluations := w_evaluations r; w_jobsets := w_jobsets r;
     w_projects := w_projects r; w_remote_builders := w_remote_builders r; w_sessions :=
     w_sessions r; w_narinfos := w_narinfos r; w_narinfo_projects := w_narinfo_projects r;
     w_source_heads := w_source_heads r; w_inputs := w_inputs r; w_notification_configs :=
     w_notification_configs r; w_notification_tasks := w_notification_tasks r; w_users :=
     w_users r; w_user_sessions := w_user_sessions r; w_api_keys := w_api_keys r;
     w_project_members := w_project_members r; w_webhook_configs := w_webhook_configs r;
     w_channels := v; w_locks := w_locks r; w_now := w_now r; w_faults := w_faults r |}.

Definition empty_world : World :=
  {| w_builds := ∅; w_deps := []; w_failed_paths := ∅; w_outputs := ∅; w_evaluations := ∅;
     w_jobsets := ∅; w_projects := ∅; w_remote_builders := ∅; w_sessions := ∅;
     w_narinfos := ∅; w_narinfo_projects := ∅; w_source_heads := ∅; w_inputs := ∅;
     w_notification_configs := ∅; w_notification_tasks := ∅;
     w_users := ∅; w_user_sessions := ∅; w_api_keys := ∅; w_project_members := ∅;
     w_webhook_configs := ∅; w_channels := ∅;
     w_locks := ∅; w_now := 0; w_faults := [] |}.

(** ** Queries as a state and error monad *)

Definition M (A : Type) : Type := World → result CiError A * World.

Definition mret {A} (a : A) : M A := λ w, (Ok a, w).
Definition mfail {A} (e : CiError) : M A := λ w, (Err e, w).
Definition mbind {A B} (m : M A) (k : A → M B) : M B := λ w,
  match m w with
  | (Ok a, w) => k a w
  | (Err e, w) => (Err e, w)
  end.
(** [match f().await { Ok(..) => .., Err(..) => .. }]: the error as a value. *)
Definition mtry {A} (m : M A) : M (result CiError A) := λ w,
  let '(r, w) := m w in (Ok r, w).

Notation "'let!' x := m 'in' k" := (mbind m (λ x, k))
  (at level 10, x pattern, m at level 100, k at level 200) : circus_scope.
Notation "m ';;!' k" := (mbind m (λ _, k))
  (at level 100, k at level 200, right associativity) : circus_scope.

(** The outcome is of no interest. *)
Definition discard {A} (m : M A) : M () := let! _ := mtry m in mret ().

(** One statement: it may fail, in which case nothing else happens. *)
Definition query {A} (f : World → result CiError A * World) : M A := λ w,
  match w_faults w with
  | true :: faults => (Err (Database "connection"), set_w_faults faults w)
  | false :: faults => f (set_w_faults faults w)
  | [] => f w
  end.

(** A statement that reads the tables. *)
Definition read {A} (f : World → A) : M A := query (λ w, (Ok (f w), w)).

(** [.map(..).transpose()?.ok_or_else(|| CiError::NotFound(..))]. *)
Definition or_not_found {A} (msg : string) (m : M (option A)) : M A :=
  let! o := m in
  match o with Some a => mret a | None => mfail (NotFound msg) end.

(** The rows of a table, in the order the database happens to scan them. *)
Definition rows {A} (t : gmap Z A) : list A := (map_to_list t).*2.

Lemma elem_of_rows {A} (t : gmap Z A) x : x ∈ rows t ↔ ∃ i, t !! i = Some x.
Proof.
  unfold rows. rewrite list_elem_of_fmap. split.
  - intros ([i y] & -> & H%elem_of_map_to_list). by exists i.
  - intros [i Hi]. exists (i, x). split; [done|]. by apply elem_of_map_to_list.
Qed.

(** Rows filed under their key are distinct. *)
Lemma NoDup_fmap_filter_rows {A} (key : A → Z) p (t : gmap Z A) :
  (∀ k x, t !! k = Some x → key x = k) → NoDup (key <$> List.filter p (rows t)).
Proof.
  intros Hk. unfold rows. assert (Hl : ∀ k x, (k, x) ∈ map_to_list t → key x = k)
    by (intros k x ?%elem_of_map_to_list; by apply Hk).
  pose proof (NoDup_fst_map_to_list t) as Hnd. revert Hl Hnd.
  generalize (map_to_list t). intros l Hl Hnd. induction l as [|[k x] l IH]; [constructor|].
  rewrite fmap_cons, NoDup_cons in Hnd. destruct Hnd as [Hn Hnd].
  assert (IH' : NoDup (key <$> List.filter p l.*2)) by (apply IH; [intros; apply Hl; by right|done]).
  simpl. destruct (p x); [|done]. rewrite fmap_cons, NoDup_cons. split; [|done].
  intros (y & E & Hy)%list_elem_of_fmap. rewrite list_elem_of_In, filter_In in Hy.
  destruct Hy as [Hy _]. apply list_elem_of_In, list_elem_of_fmap in Hy as ([k' y'] & -> & Hy).
  simpl in E. rewrite (Hl k' y') in E by (by right). rewrite (Hl k x) in E by left. subst k'.
  apply Hn. apply list_elem_of_fmap. by exists (k, y').
Qed.

(** ** Queries that do not fail *)

Lemma read_no_fault {A} (f : World → A) w : w_faults w = [] → read f w = (Ok (f w), w).
Proof. intros Hf. unfold read, query. by rewrite Hf. Qed.

Lemma get_no_fault {A} msg (f : World → option A) w :
  w_faults w = [] →
  mtry (or_not_found msg (read f)) w =
  (Ok (match f w with Some a => Ok a | None => Err (NotFound msg) end), w).
Proof.
  intros Hf. unfold mtry, or_not_found, mbind. rewrite read_no_fault by done.
  by destruct (f w).
Qed.

Lemma mbind_ok {A B} (m : M A) (k : A → M B) a w w' :
  m w = (Ok a, w') → mbind m k w = k a w'.
Proof. intros H. unfold mbind. by rewrite H. Qed.

Lemma mtry_ok {A} (m : M A) r w w' : m w = (r, w') → mtry m w = (Ok r, w').
Proof. intros H. unfold mtry. by rewrite H. Qed.
