(* ===== verification/Frames.v ===== *)
(** * Computations that keep a relation

    Frame rules for the monad of [Db]: a relation on states that is a preorder is kept by a
    sequence if it is kept by its parts; and computations that only read, with what their
    answers say of the tables. *)

From S2P Require Import Prelude Types Float32 Db.

(** An error of a pure computation, in the monad. *)
Definition lift {A} (r : result CiError A) : M A := λ w, (r, w).

(** Whatever it answers, [m] leads from a state to one that is related to it. *)
Definition leads (R : World → World → Prop) {A} (m : M A) : Prop := ∀ w, R w (m w).2.

Section leads.
Context (R : World → World → Prop) `{!PreOrder R}.
Hypothesis R_faults : ∀ w fs, R w (set_w_faults fs w).

Lemma leads_mret {A} (a : A) : leads R (mret a).
Proof. intros w. reflexivity. Qed.

Lemma leads_mfail {A} e : leads R (mfail e : M A).
Proof. intros w. reflexivity. Qed.

Lemma leads_lift {A} (r : result CiError A) : leads R (lift r).
Proof. intros w. reflexivity. Qed.

Lemma leads_mbind {A B} (m : M A) (k : A → M B) :
  leads R m → (∀ a, leads R (k a)) → leads R (mbind m k).
Proof.
  intros Hm Hk w. unfold mbind. specialize (Hm w). destruct (m w) as [[a|e] w1]; [|done].
  etransitivity; [exact Hm|]. apply Hk.
Qed.

Lemma leads_mtry {A} (m : M A) : leads R m → leads R (mtry m).
Proof. intros Hm w. unfold mtry. specialize (Hm w). by destruct (m w). Qed.

Lemma leads_query {A} (f : World → result CiError A * World) :
  (∀ w, R w (f w).2) → leads R (query f).
Proof.
  intros Hf w. unfold query. destruct (w_faults w) as [|[] fs]; [apply Hf|apply R_faults|].
  etransitivity; [apply R_faults|apply Hf].
Qed.

Lemma leads_read {A} (f : World → A) : leads R (read f).
Proof. apply leads_query. intros w. reflexivity. Qed.

Lemma leads_or_not_found {A} msg (m : M (option A)) : leads R m → leads R (or_not_found msg m).
Proof.
  intros Hm. apply leads_mbind; [done|]. intros []; [apply leads_mret|apply leads_mfail].
Qed.

End leads.

(** ** Computations that only read *)

(** [m] changes nothing but the faults to come, and an answer of it is as [P] says. *)
Definition observes {A} (m : M A) (P : World → A → Prop) : Prop :=
  ∀ w, ∃ fs, (m w).2 = set_w_faults fs w ∧ ∀ a, (m w).1 = Ok a → P w a.

(** A property of the tables. *)
Definition blind (P : World → Prop) : Prop := ∀ fs w, P (set_w_faults fs w) → P w.

Lemma blind_back P fs w : blind P → P w → P (set_w_faults fs w).
Proof. intros HP Hw. apply (HP (w_faults w)). by destruct w. Qed.

Lemma reads_ok {A} (m : M A) P w a w' : observes m P → m w = (Ok a, w') → P w a.
Proof. intros Hm Hw. destruct (Hm w) as (fs & _ & HP). rewrite Hw in HP. by apply HP. Qed.

Lemma reads_answer {A} (r : result CiError A) (P : World → A → Prop) :
  (∀ w a, r = Ok a → P w a) → observes (lift r) P.
Proof. intros HP w. exists (w_faults w). split; [by destruct w|]. simpl. by apply HP. Qed.

Lemma reads_mret {A} (a : A) (P : World → A → Prop) : (∀ w, P w a) → observes (mret a) P.
Proof. intros HP. apply (reads_answer (Ok a)). intros w ? [= <-]. done. Qed.

Lemma reads_read {A} (f : World → A) (P : World → A → Prop) :
  (∀ fs w, P (set_w_faults fs w) (f (set_w_faults fs w)) → P w (f (set_w_faults fs w))) →
  (∀ w, P w (f w)) → observes (read f) P.
Proof.
  intros Hb HP w. unfold read, query. destruct (w_faults w) as [|[] fs] eqn:Hf; simpl.
  - exists []. rewrite <-Hf. split; [by destruct w|]. intros ? [= <-]. apply HP.
  - exists fs. done.
  - exists fs. split; [done|]. intros ? [= <-]. apply (Hb fs), HP.
Qed.

Lemma reads_mbind {A B} (m : M A) (k : A → M B) (P : World → A → Prop) (Q : World → B → Prop) :
  observes m P → (∀ b, blind (λ w, Q w b)) →
  (∀ a, observes (k a) (λ w b, P w a → Q w b)) → (∀ a, blind (λ w, P w a)) →
  observes (mbind m k) Q.
Proof.
  intros Hm HQ Hk HP w. unfold mbind. destruct (Hm w) as (fs & H2 & H1).
  destruct (m w) as [[a|e] w1]; simpl in *; subst; [|by exists fs].
  destruct (Hk a (set_w_faults fs w)) as (fs' & H2' & H1'). exists fs'.
  split; [by rewrite H2'|]. intros b Hb. apply (HQ b fs), H1'; [done|].
  apply (blind_back (λ w, P w a) fs w (HP a)), H1. done.
Qed.

Lemma reads_weaken {A} (m : M A) (P Q : World → A → Prop) :
  observes m P → (∀ w a, P w a → Q w a) → observes m Q.
Proof. intros Hm HPQ w. destruct (Hm w) as (fs & ? & HP). exists fs. eauto. Qed.

Lemma reads_mtry {A} (m : M A) (P : World → A → Prop) :
  observes m P → observes (mtry m) (λ w r, ∀ a, r = Ok a → P w a).
Proof.
  intros Hm w. destruct (Hm w) as (fs & H2 & H1). exists fs. unfold mtry.
  destruct (m w) as [r w1]; simpl in *. split; [done|]. intros ? [= <-]. done.
Qed.

(** What was read still holds for what follows. *)
Section guarded.
Context (R : World → World → Prop) `{!PreOrder R}.
Hypothesis R_faults : ∀ w fs, R w (set_w_faults fs w).

Lemma guarded_by {A B} (m : M A) (k : A → M B) (P : World → A → Prop) (F : World → Prop) w :
  observes m P → (∀ a, blind (λ w, P w a)) → blind F → F w →
  (∀ a w, P w a → F w → R w (k a w).2) → R w (mbind m k w).2.
Proof.
  intros Hm HP HF Hw Hk. unfold mbind. destruct (Hm w) as (fs & H2 & H1).
  destruct (m w) as [[a|e] w1]; simpl in *; subst; [|done].
  etransitivity; [apply (R_faults w fs)|]. apply Hk.
  - apply (blind_back (λ w, P w a)); [done|]. by apply H1.
  - by apply blind_back.
Qed.

Lemma queried_by {A} (f : World → result CiError A * World) (F : World → Prop) w :
  blind F → F w → (∀ w, F w → R w (f w).2) → R w (query f w).2.
Proof.
  intros HF Hw Hf. unfold query. destruct (w_faults w) as [|[] fs]; [by apply Hf|apply R_faults|].
  etransitivity; [apply R_faults|]. by apply Hf, blind_back.
Qed.
End guarded.

(** Looking a row up by its key. *)
Lemma get_reads {A} msg (f : World → option A) :
  (∀ fs w, f (set_w_faults fs w) = f w) →
  observes (or_not_found msg (read f)) (λ w a, f w = Some a).
Proof.
  intros Hf. eapply (reads_mbind _ _ (λ w o, o = f w)).
  - apply reads_read; [|done]. intros fs w HH. by rewrite Hf.
  - intros b fs w HH. by rewrite Hf in HH.
  - intros [a|]; [by apply reads_mret|by apply (reads_answer (Err _))].
  - intros a fs w ->. by rewrite Hf.
Qed.

(** A property that reads tables is blind. *)
Ltac tables :=
  let H := fresh in first [intros ? ? ? H; exact H | intros ? ? H; exact H].
