(* ===== verification/Tables.v ===== *)
(** * Tables and their constraints

    What a schema promises of a table: rows stand under their identifier ([keyed_by]), a
    value belongs to one row ([unique_on]), a column refers to rows of another table
    ([refers]); and which changes of a table keep it. *)

From S2P Require Import Prelude Types Float32 Db.

(** Two rows with the same [f] are the same row. *)
Definition unique_on {A B} (f : A → B) (t : gmap Z A) : Prop :=
  ∀ i j x y, t !! i = Some x → t !! j = Some y → f x = f y → i = j.

Definition keyed_by {A} (f : A → Z) (t : gmap Z A) : Prop := ∀ i x, t !! i = Some x → f x = i.

(** Where [f] gives an identifier, the other table has a row. *)
Definition refers {K A B} `{Countable K} (f : K → A → option Z) (t : gmap K A) (u : gmap Z B) :
    Prop :=
  ∀ k x i, t !! k = Some x → f k x = Some i → is_Some (u !! i).

Lemma keyed_insert {A} (f : A → Z) (t : gmap Z A) i x :
  keyed_by f t → f x = i → keyed_by f (<[i := x]> t).
Proof.
  intros Hk Hx j y. rewrite lookup_insert_Some. intros [[<- <-]|[_ Hy]]; [done|]. by apply Hk.
Qed.

Lemma keyed_alter {A} (f : A → Z) (g : A → A) (t : gmap Z A) i :
  keyed_by f t → (∀ x, f (g x) = f x) → keyed_by f (alter g i t).
Proof.
  intros Hk Hg j y. rewrite lookup_alter_Some. intros [(<- & x & Hx & ->)|[_ Hy]]; [|by apply Hk].
  rewrite Hg. by apply Hk.
Qed.

Lemma keyed_filter {A} (f : A → Z) P `{∀ kv, Decision (P kv)} (t : gmap Z A) :
  keyed_by f t → keyed_by f (filter P t).
Proof. intros Hk i x [Hx _]%map_lookup_filter_Some. by apply Hk. Qed.

Lemma keyed_delete {A} (f : A → Z) (t : gmap Z A) i : keyed_by f t → keyed_by f (delete i t).
Proof. intros Hk j x [_ Hx]%lookup_delete_Some. by apply Hk. Qed.

Lemma unique_filter {A B} (f : A → B) P `{∀ kv, Decision (P kv)} (t : gmap Z A) :
  unique_on f t → unique_on f (filter P t).
Proof.
  intros Hu i j x y [Hx _]%map_lookup_filter_Some [Hy _]%map_lookup_filter_Some. by eapply Hu.
Qed.

Lemma unique_delete {A B} (f : A → B) (t : gmap Z A) i : unique_on f t → unique_on f (delete i t).
Proof. intros Hu j k x y [_ Hx]%lookup_delete_Some [_ Hy]%lookup_delete_Some. by eapply Hu. Qed.

(** A row whose value no other row has. *)
Lemma unique_insert {A B} (f : A → B) (t : gmap Z A) i x :
  unique_on f t → (∀ j y, t !! j = Some y → f y = f x → j = i) → unique_on f (<[i := x]> t).
Proof.
  intros Hu Hx j k a b. rewrite !lookup_insert_Some.
  intros [[<- <-]|[Hj Ha]] [[<- <-]|[Hk Hb]] E; [done|..].
  - symmetry. by eapply Hx.
  - by eapply Hx.
  - by eapply Hu.
Qed.

Lemma unique_alter {A B} (f : A → B) (g : A → A) (t : gmap Z A) i :
  unique_on f t → (∀ x, f (g x) = f x) → unique_on f (alter g i t).
Proof.
  intros Hu Hg j k a b. rewrite !lookup_alter_Some.
  intros [(<- & x & Hx & ->)|[Hj Ha]] [(<- & y & Hy & ->)|[Hk Hb]]; rewrite ?Hg; [done|..];
    by eauto.
Qed.

Lemma unique_fmap {A B} (f : A → B) (g : A → A) (t : gmap Z A) :
  unique_on f t → (∀ x, f (g x) = f x) → unique_on f (g <$> t).
Proof.
  intros Hu Hg j k a b. rewrite !lookup_fmap_Some. intros (x & <- & Hx) (y & <- & Hy).
  rewrite !Hg. by eauto.
Qed.

Lemma keyed_fmap {A} (f : A → Z) (g : A → A) (t : gmap Z A) :
  keyed_by f t → (∀ x, f (g x) = f x) → keyed_by f (g <$> t).
Proof. intros Hk Hg i y (x & <- & Hx)%lookup_fmap_Some. rewrite Hg. by apply Hk. Qed.

(** ** Finding a row *)

Lemma find_rows_some {A} (p : A → bool) (f : A → Z) (t : gmap Z A) x :
  keyed_by f t → List.find p (rows t) = Some x → t !! f x = Some x ∧ p x = true.
Proof.
  intros Hk [[i Hi]%list_elem_of_In%elem_of_rows Hp]%List.find_some. by rewrite (Hk i x Hi).
Qed.

Lemma find_rows_none {A} (p : A → bool) (t : gmap Z A) i x :
  List.find p (rows t) = None → t !! i = Some x → p x = false.
Proof.
  intros Hn Hx. apply (List.find_none _ _ Hn), list_elem_of_In, elem_of_rows. by exists i.
Qed.

(** The only row that qualifies is found. *)
Lemma find_rows_only {A} (p : A → bool) (t : gmap Z A) k x :
  t !! k = Some x → p x = true → (∀ i y, t !! i = Some y → p y = true → i = k) →
  List.find p (rows t) = Some x.
Proof.
  intros Hx Hp Hu. destruct (List.find p (rows t)) as [y|] eqn:Hf.
  - apply List.find_some in Hf as [[i Hi]%list_elem_of_In%elem_of_rows Hy].
    rewrite (Hu i y Hi Hy) in Hi. congruence.
  - by rewrite (find_rows_none p t k x Hf Hx) in Hp.
Qed.

Lemma keyed_rows_nodup {A} (f : A → Z) (p : A → bool) (t : gmap Z A) :
  keyed_by f t → NoDup (f <$> List.filter p (rows t)).
Proof.
  intros Hk. assert (Hall : NoDup (f <$> rows t)).
  { assert (f <$> rows t = (map_to_list t).*1) as ->; [|apply NoDup_fst_map_to_list].
    unfold rows. rewrite <-list_fmap_compose. apply list_fmap_ext.
    intros i [k x] Hi. apply list_elem_of_lookup_2, elem_of_map_to_list in Hi. by apply Hk. }
  induction (rows t) as [|x l IH]; [done|]. rewrite fmap_cons in Hall.
  apply NoDup_cons in Hall as [Hx Hall]. simpl. destruct (p x); [|by apply IH].
  rewrite fmap_cons. apply NoDup_cons. split; [|by apply IH].
  rewrite list_elem_of_fmap. intros (y & Hy & Hin). apply list_elem_of_In, filter_In in Hin as [Hin _].
  apply Hx, list_elem_of_fmap. exists y. by rewrite list_elem_of_In.
Qed.

(** ** References *)

Section refers.
Context {K A B : Type} `{Countable K} (f : K → A → option Z).
Implicit Types (t : gmap K A) (u : gmap Z B).

Lemma refers_insert t u k x :
  refers f t u → (∀ i, f k x = Some i → is_Some (u !! i)) → refers f (<[k := x]> t) u.
Proof.
  intros Ht Hx k' y i. rewrite lookup_insert_Some. intros [[<- <-]|[_ Hy]]; [by apply Hx|].
  by eapply Ht.
Qed.

Lemma refers_filter P `{∀ kv, Decision (P kv)} t u : refers f t u → refers f (filter P t) u.
Proof. intros Ht k x i [Hx _]%map_lookup_filter_Some. by eapply Ht. Qed.

Lemma refers_delete t u k : refers f t u → refers f (delete k t) u.
Proof. intros Ht k' x i [_ Hx]%lookup_delete_Some. by eapply Ht. Qed.

(** The other table grows, or its rows change. *)
Lemma refers_more {C} t u (v : gmap Z C) :
  refers f t u → (∀ i, is_Some (u !! i) → is_Some (v !! i)) → refers f t v.
Proof. intros Ht Hv k x i Hx Hi. eapply Hv, Ht; done. Qed.

Lemma refers_inserted t u i y : refers f t u → refers f t (<[i := y]> u).
Proof.
  intros Ht. apply (refers_more _ _ _ Ht). intros j Hj. rewrite lookup_insert_is_Some'. by right.
Qed.

(** [ON DELETE CASCADE]: what refers to a row that goes, goes. *)
Lemma refers_cascade P `{∀ kv, Decision (P kv)} t u (gone : gset Z) :
  refers f t u → (∀ k x i, P (k, x) → f k x = Some i → i ∉ gone) →
  refers f (filter P t) (filter (λ kv, kv.1 ∉ gone) u).
Proof.
  intros Ht HP k x i [Hx Hp]%map_lookup_filter_Some Hi.
  destruct (Ht k x i Hx Hi) as [y Hy]. exists y. apply map_lookup_filter_Some. simpl. eauto.
Qed.

(** [ON DELETE SET NULL]. *)
Lemma refers_forget (g : A → A) t u (gone : gset Z) :
  refers f t u → (∀ k x i, f k (g x) = Some i → f k x = Some i ∧ i ∉ gone) →
  refers f (g <$> t) (filter (λ kv, kv.1 ∉ gone) u).
Proof.
  intros Ht Hg k y i (x & <- & Hx)%lookup_fmap_Some Hi. apply Hg in Hi as [Hi Hn].
  destruct (Ht k x i Hx Hi) as [y Hy]. exists y. by apply map_lookup_filter_Some.
Qed.

Lemma refers_fmap (g : A → A) t u :
  refers f t u → (∀ k x, f k (g x) = f k x) → refers f (g <$> t) u.
Proof.
  intros Ht Hg k y i (x & <- & Hx)%lookup_fmap_Some Hi. rewrite Hg in Hi. by eapply Ht.
Qed.
End refers.

Create HintDb tables.
#[export] Hint Resolve keyed_insert keyed_alter keyed_filter keyed_delete keyed_fmap
  unique_filter unique_delete unique_alter unique_fmap
  refers_filter refers_delete refers_inserted : tables.
