(* ===== verification/Builds.v ===== *)
(** * Builds ([crates/common/src/repo/builds.rs], [queries/builds.sql])

    The builds table and its lifecycle.  [Sql] holds one definition per statement
    of [queries/builds.sql] (and of the two tables that go with it); the modules
    [builds], [build_dependencies] and [failed_paths_cache] are the repository
    functions that call them. *)

From Corelib Require Import SpecFloat.
From S2P Require Import Prelude Types Float32 Db.

(** ** Statements *)

Module Sql.

(** [UPDATE builds SET .. WHERE id = :id AND guard RETURNING *].  [f] is [None]
    when an integer column would overflow, which fails the statement. *)
Definition update (id : Uuid) (guard : Build → bool) (f : Build → option Build) :
    M (option Build) :=
  query (λ w,
    match w_builds w !! id with
    | Some b =>
        if guard b then
          match f b with
          | Some b' => (Ok (Some b'), set_w_builds (<[id := b']> (w_builds w)) w)
          | None => (Err (Database "integer out of range"), w)
          end
        else (Ok None, w)
    | None => (Ok None, w)
    end).

Definition i32_ok (z : Z) : bool := (I32_MIN <=? z) && (z <=? I32_MAX).

Definition has_status (s : BuildStatus) (b : Build) : bool :=
  bool_decide (b_status b = s).

(** Some running build has this derivation. *)
Definition running_twin (drv : string) (t : gmap Z Build) : bool :=
  existsb (λ a, bool_decide (b_drv_path a = drv) && has_status Running a) (rows t).

Record CreateBuild := {
  cb_evaluation_id : Uuid;
  cb_job_name : string;
  cb_drv_path : string;
  cb_system : option string;
  cb_outputs : option Json;
  cb_is_aggregate : option bool;
  cb_constituents : option Json;
  cb_is_fod : option bool;
  cb_fod_hash : option string;
  cb_meta_description : option string;
  cb_meta_license : option string;
  cb_meta_homepage : option string;
  cb_meta_maintainers : option string;
  cb_required_features : list string;
}.

(** The inserted row; [id] is the generated key. *)
Definition new_build (id : Uuid) (now : DateTime) (i : CreateBuild) : Build :=
  {| b_info := {| bi_id := id; bi_evaluation_id := cb_evaluation_id i;
       bi_job_name := cb_job_name i; bi_drv_path := cb_drv_path i;
       bi_system := cb_system i; bi_max_retries := 3;
       bi_notification_pending_since := None; bi_created_at := now;
       bi_outputs := cb_outputs i;
       bi_is_aggregate := default false (cb_is_aggregate i);
       bi_constituents := cb_constituents i;
       bi_is_fod := default false (cb_is_fod i); bi_fod_hash := cb_fod_hash i;
       bi_meta_description := cb_meta_description i;
       bi_meta_license := cb_meta_license i; bi_meta_homepage := cb_meta_homepage i;
       bi_meta_maintainers := cb_meta_maintainers i;
       bi_required_features := cb_required_features i |};
     b_run := {| br_status := Pending; br_started_at := None; br_completed_at := None;
       br_log_path := None; br_build_output_path := None; br_error_message := None;
       br_retry_count := 0; br_effective_features := None;
       br_started_notified_at := None |};
     b_priority := 0; b_builder_id := None; b_agent_machine_id := None;
     b_signed := false; b_keep := false |}.

(** [None] is a unique violation of [(evaluation_id, job_name)]. *)
Definition create (id : Uuid) (i : CreateBuild) : M (option Build) :=
  query (λ w,
    if existsb (λ b, bool_decide (b_evaluation_id b = cb_evaluation_id i) &&
                     bool_decide (b_job_name b = cb_job_name i)) (rows (w_builds w))
    then (Ok None, w)
    else let b := new_build id (w_now w) i in
         (Ok (Some b), set_w_builds (<[id := b]> (w_builds w)) w)).

Definition set_running (now : DateTime) (b : Build) : Build :=
  let r := b_run b in
  set_b_run {| br_status := Running; br_started_at := Some now;
    br_completed_at := br_completed_at r; br_log_path := br_log_path r;
    br_build_output_path := br_build_output_path r;
    br_error_message := br_error_message r; br_retry_count := br_retry_count r;
    br_effective_features := br_effective_features r;
    br_started_notified_at := br_started_notified_at r |} b.

Definition start (id : Uuid) : M (option Build) := λ w,
  update id
    (λ b, has_status Pending b && negb (bool_decide (b_drv_path b ∈ w_locks w)) &&
          negb (running_twin (b_drv_path b) (w_builds w)))
    (λ b, Some (set_running (w_now w) b)) w.

(** Back to pending: [retry_count] is the new counter. *)
Definition set_pending (retry_count : Z) (b : Build) : Build :=
  let r := b_run b in
  set_b_run {| br_status := Pending; br_started_at := None; br_completed_at := None;
    br_log_path := br_log_path r; br_build_output_path := br_build_output_path r;
    br_error_message := br_error_message r; br_retry_count := retry_count;
    br_effective_features := None;
    br_started_notified_at := br_started_notified_at r |} b.

Definition requeue (id : Uuid) : M (option Build) :=
  update id (has_status Running) (λ b, Some (set_pending (b_retry_count b) b)).

Definition retry (id : Uuid) : M (option Build) :=
  update id (λ _, true)
    (λ b, if i32_ok (b_retry_count b + 1)
          then Some (set_pending (b_retry_count b + 1) b) else None).

Definition set_complete (status : BuildStatus) (now : DateTime)
    (log output error : option string) (b : Build) : Build :=
  let r := b_run b in
  set_b_run {| br_status := status; br_started_at := br_started_at r;
    br_completed_at := Some now; br_log_path := log; br_build_output_path := output;
    br_error_message := error; br_retry_count := br_retry_count r;
    br_effective_features := br_effective_features r;
    br_started_notified_at := br_started_notified_at r |} b.

Definition complete (id : Uuid) (status : BuildStatus)
    (log output error : option string) : M (option Build) := λ w,
  update id (λ _, true) (λ b, Some (set_complete status (w_now w) log output error b)) w.

Definition set_cancelled (now : DateTime) (b : Build) : Build :=
  let r := b_run b in
  set_b_run {| br_status := Cancelled; br_started_at := br_started_at r;
    br_completed_at := Some now; br_log_path := br_log_path r;
    br_build_output_path := br_build_output_path r;
    br_error_message := br_error_message r; br_retry_count := br_retry_count r;
    br_effective_features := br_effective_features r;
    br_started_notified_at := br_started_notified_at r |} b.

Definition active (b : Build) : bool := has_status Pending b || has_status Running b.

Definition cancel (id : Uuid) : M (option Build) := λ w,
  update id active (λ b, Some (set_cancelled (w_now w) b)) w.

Definition restartable (b : Build) : bool :=
  has_status Failed b || has_status Succeeded b || has_status Cancelled b ||
  has_status CachedFailure b.

Definition restart (id : Uuid) : M (option Build) :=
  update id restartable
    (λ b, if i32_ok (b_retry_count b + 1) then
       Some (set_b_run {| br_status := Pending; br_started_at := None;
         br_completed_at := None; br_log_path := None; br_build_output_path := None;
         br_error_message := None; br_retry_count := b_retry_count b + 1;
         br_effective_features := None; br_started_notified_at := None |} b)
     else None).

Definition bump_priority (id : Uuid) (delta : Z) : M (option Build) :=
  update id (has_status Pending)
    (λ b, if i32_ok (b_priority b + delta)
          then Some (set_b_priority (b_priority b + delta) b) else None).

Definition mark_started_notified (id : Uuid) : M (option Build) := λ w,
  update id (λ b, is_none (b_started_notified_at b))
    (λ b, Some (set_b_run (set_br_started_notified_at (Some (w_now w)) (b_run b)) b)) w.

Definition set_effective_features (id : Uuid) (features : list string) :
    M (option Build) :=
  update id (λ _, true)
    (λ b, Some (set_b_run (set_br_effective_features (Some features) (b_run b)) b)).

Definition mark_signed (id : Uuid) : M (option Build) :=
  update id (λ _, true) (λ b, Some (set_b_signed true b)).
Definition set_keep (id : Uuid) (keep : bool) : M (option Build) :=
  update id (λ _, true) (λ b, Some (set_b_keep keep b)).

(** An [UPDATE] that sets a foreign key: it fails if there is no row to refer to. *)
Definition update_reference (id : Uuid) (refers : World → bool) (f : Build → Build) :
    M (option Build) :=
  query (λ w,
    match w_builds w !! id with
    | Some b =>
        if refers w then (Ok (Some (f b)), set_w_builds (<[id := f b]> (w_builds w)) w)
        else (Err (Database "foreign key violation"), w)
    | None => (Ok None, w)
    end).

(** [builds.builder_id REFERENCES remote_builders], [agent_machine_id REFERENCES
    builder_sessions]. *)
Definition set_builder (id builder : Uuid) : M (option Build) :=
  update_reference id (λ w, is_some (w_remote_builders w !! builder))
    (set_b_builder_id (Some builder)).
Definition set_agent (id machine : Uuid) : M (option Build) :=
  update_reference id (λ w, is_some (w_sessions w !! machine))
    (set_b_agent_machine_id (Some machine)).

(** The [ON DELETE SET NULL] of the narinfo tables. *)
Definition forget_build (id : Uuid) (o : option Uuid) : option Uuid :=
  if bool_decide (o = Some id) then None else o.

Definition forget_build_row (id : Uuid) (r : NarInfo) : NarInfo :=
  {| nr_info := nr_info r; nr_build_id := forget_build id (nr_build_id r);
     nr_project_id := nr_project_id r; nr_created_at := nr_created_at r;
     nr_updated_at := nr_updated_at r; nr_last_fetched_at := nr_last_fetched_at r |}.

Definition forget_build_rows (id : Uuid) (w : World) : World :=
  set_w_narinfos (forget_build_row id <$> w_narinfos w)
    (set_w_narinfo_projects (forget_build id <$> w_narinfo_projects w) w).

(** [DELETE]; the dependency and output rows that mention the build go with it. *)
Definition delete (id : Uuid) : M Z :=
  query (λ w,
    match w_builds w !! id with
    | Some _ =>
        (Ok 1, forget_build_rows id (set_w_deps
           (List.filter (λ d, negb ((d.1 =? id) || (d.2 =? id))) (w_deps w))
           (set_w_outputs (filter (λ kv, kv.1.1 ≠ id) (w_outputs w))
              (set_w_builds (base.delete id (w_builds w)) w))))
    | None => (Ok 0, w)
    end).

(** Seconds as the time unit of the tables. *)
Definition secs (z : Z) : Z := z * 1000000.

Definition orphaned (older_than_secs : Z) (excluded : list Uuid) (w : World)
    (b : Build) : bool :=
  has_status Running b &&
  match b_started_at b with
  | Some t => t <? w_now w - secs older_than_secs
  | None => false
  end && negb (bool_decide (b_id b ∈ excluded)).

(** [completed_at] is left alone; a running row has none. *)
Definition set_orphan_pending (b : Build) : Build :=
  let r := b_run b in
  set_b_run {| br_status := Pending; br_started_at := None;
    br_completed_at := br_completed_at r; br_log_path := br_log_path r;
    br_build_output_path := br_build_output_path r;
    br_error_message := br_error_message r; br_retry_count := br_retry_count r;
    br_effective_features := None;
    br_started_notified_at := br_started_notified_at r |} b.

Definition reset_orphaned (older_than_secs : Z) (excluded : list Uuid) : M Z :=
  query (λ w,
    let hit := orphaned older_than_secs excluded w in
    (Ok (Z.of_nat (length (List.filter hit (rows (w_builds w))))),
     set_w_builds ((λ b, if hit b then set_orphan_pending b else b) <$> w_builds w) w)).

(** ** The scheduling query *)

Definition deps_of (id : Uuid) (w : World) : list Uuid :=
  snd <$> List.filter (λ d, d.1 =? id) (w_deps w).

(** [JOIN builds dep]: a dependency row whose build is gone does not count. *)
Definition has_open_dep (id : Uuid) (w : World) : bool :=
  existsb (λ d, match w_builds w !! d with
                | Some dep => negb (has_status Succeeded dep)
                | None => false
                end) (deps_of id w).

(** The rows of [eligible_pending]. *)
Definition eligible (w : World) (b : Build) : bool :=
  has_status Pending b && negb (has_open_dep (b_id b) w) &&
  negb (running_twin (b_drv_path b) (w_builds w)).

(** [JOIN evaluations e]: the jobset of a build. *)
Definition jobset_of (w : World) (b : Build) : option Jobset :=
  let* e := w_evaluations w !! b_evaluation_id b in
  w_jobsets w !! e_jobset_id e.

(** [running_counts], with [COALESCE(.., 0)]. *)
Definition running_count (w : World) (jobset : Uuid) : Z :=
  Z.of_nat (length (List.filter
    (λ b, has_status Running b &&
       match w_evaluations w !! b_evaluation_id b with
       | Some e => e_jobset_id e =? jobset
       | None => false
       end) (rows (w_builds w)))).

(** The jobsets of [active_shares]. *)
Definition active_jobset (w : World) (j : Jobset) : bool :=
  (0 <? j_scheduling_shares j) &&
  existsb (λ b, eligible w b &&
    match w_evaluations w !! b_evaluation_id b with
    | Some e => e_jobset_id e =? j_id j
    | None => false
    end) (rows (w_builds w)).

Definition total_shares (w : World) : Z :=
  foldr Z.add 0 (j_scheduling_shares <$>
    List.filter (active_jobset w) (rows (w_jobsets w))).

(** [x::float], [/] and [-] on double precision. *)
Definition f64_of (z : Z) : spec_float := binary_normalize 53 1024 z 0 false.
Definition f64_div : spec_float → spec_float → spec_float := SFdiv 53 1024.
Definition f64_sub : spec_float → spec_float → spec_float := SFsub 53 1024.

(** A jobset's share of the queue minus its share of the capacity. *)
Definition share_deficit (w : World) (capacity : Z) (j : Jobset) : spec_float :=
  f64_sub
    (f64_div (f64_of (j_scheduling_shares j)) (f64_of (Z.max (total_shares w) 1)))
    (f64_div (f64_of (running_count w (j_id j))) (f64_of (Z.max capacity 1))).

(** The [ORDER BY] key, each [DESC] column negated. *)
Definition pending_key (w : World) (capacity : Z) (b : Build) : list Z :=
  [- b_priority b; - Z.of_nat (length (scheduling_features b))] ++
  match jobset_of w b with
  | Some j => map Z.opp (sf_key (share_deficit w capacity j))
  | None => []
  end ++
  [b_created_at b; b_id b].

(** The rows before [ORDER BY]: eligible, and of an active jobset. *)
Definition pending_candidate (w : World) (b : Build) : bool :=
  eligible w b &&
  match jobset_of w b with
  | Some j => active_jobset w j
  | None => false
  end.

Definition list_pending (limit capacity : Z) : M (list Build) :=
  read (λ w,
    take (Z.to_nat limit)
      (sort_by (λ a b, lex_cmp (pending_key w capacity a) (pending_key w capacity b))
         (List.filter (pending_candidate w) (rows (w_builds w))))).

(** [LIMIT 1] without an order: some matching row. *)
Definition get_completed_by_drv_path (drv : string) : M (option Build) :=
  read (λ w, List.find
    (λ b, bool_decide (b_drv_path b = drv) && has_status Succeeded b)
    (rows (w_builds w))).

Definition pending_feature_demand (system : string) : M (gset string) :=
  read (λ w, list_to_set (concat (scheduling_features <$>
    List.filter (λ b, has_status Pending b && bool_decide (b_system b = Some system))
      (rows (w_builds w))))).

Definition get_cancelled_among (ids : list Uuid) : M (list Uuid) :=
  read (λ w, b_id <$> List.filter
    (λ b, bool_decide (b_id b ∈ ids) && has_status Cancelled b) (rows (w_builds w))).

Definition cancel_cascade_dependents (id : Uuid) : M (list Uuid) :=
  read (λ w, fst <$> List.filter (λ d, d.2 =? id) (w_deps w)).

(** ** [build_dependencies.sql] and [failed_paths_cache.sql] *)

(** The ids with a dependency that has not succeeded. *)
Definition check_deps_for_builds (ids : list Uuid) : M (list Uuid) :=
  read (λ w, List.filter (λ id, has_open_dep id w) (remove_dups ids)).

(** Rows that join: the dependencies that are still there. *)
Definition all_deps_completed (id : Uuid) : M Z :=
  read (λ w, Z.of_nat (length (List.filter
    (λ d, match w_builds w !! d with
          | Some dep => negb (has_status Succeeded dep)
          | None => false
          end) (deps_of id w)))).

Definition is_cached_failure (drv : string) : M (option ()) :=
  read (λ w, (λ _, ()) <$> w_failed_paths w !! drv).

Definition insert_failed_path (drv : string) (source : option Uuid)
    (status : option BuildStatus) : M () :=
  query (λ w, (Ok (), set_w_failed_paths
    (<[drv := {| fp_source_build_id := source; fp_failure_status := status;
                 fp_failed_at := w_now w |}]> (w_failed_paths w)) w)).

Definition invalidate (drv : string) : M () :=
  query (λ w, (Ok (), set_w_failed_paths (base.delete drv (w_failed_paths w)) w)).

Definition cleanup_expired (ttl_seconds : Z) : M Z :=
  query (λ w,
    let old (f : FailedPath) := fp_failed_at f <? w_now w - secs ttl_seconds in
    (Ok (Z.of_nat (length (List.filter old (map_to_list (w_failed_paths w)).*2))),
     set_w_failed_paths (filter (λ kf, old kf.2 = false) (w_failed_paths w)) w)).
End Sql.

(** ** Repository functions *)

Module builds.

Definition build_not_found (id : Uuid) : string := "Build " +:+ pretty id +:+ " not found".

(** [create] and [create_in_transaction], both [create_with]; [id] is the key
    the database generates. *)
Definition create (id : Uuid) (input : Sql.CreateBuild) : M Build :=
  let! row := Sql.create id input in
  match row with
  | Some b => mret b
  | None => mfail (Conflict ("Build for job '" +:+ Sql.cb_job_name input +:+
                             "' already exists in this evaluation"))
  end.

Definition get_completed_by_drv_path (drv : string) : M (option Build) :=
  Sql.get_completed_by_drv_path drv.

Definition project_id_for_build (id : Uuid) : M (option Uuid) :=
  read (λ w,
    let* b := w_builds w !! id in
    let* j := Sql.jobset_of w b in
    Some (j_project_id j)).

Definition get (id : Uuid) : M Build :=
  or_not_found (build_not_found id) (read (λ w, w_builds w !! id)).

Definition list_pending (limit capacity : Z) : M (list Build) :=
  Sql.list_pending limit capacity.

Definition start (id : Uuid) : M (option Build) := Sql.start id.

Definition mark_started_notified (id : Uuid) : M bool :=
  let! claimed := Sql.mark_started_notified id in mret (is_some claimed).

Definition requeue (id : Uuid) : M (option Build) := Sql.requeue id.

Definition retry (id : Uuid) : M () := let! _ := Sql.retry id in mret ().

Definition complete (id : Uuid) (status : BuildStatus)
    (log_path build_output_path error_message : option string) : M Build :=
  or_not_found (build_not_found id)
    (Sql.complete id status log_path build_output_path error_message).

Definition pending_feature_demand (system : string) : M (gset string) :=
  Sql.pending_feature_demand system.

Definition bump_priority (id : Uuid) (delta : Z) : M (option Build) :=
  Sql.bump_priority id delta.

Definition reset_orphaned_excluding (older_than_secs : Z) (excluded : list Uuid) :
    M Z := Sql.reset_orphaned older_than_secs excluded.

Definition reset_orphaned (older_than_secs : Z) : M Z :=
  reset_orphaned_excluding older_than_secs [].

Definition get_cancelled_among (ids : list Uuid) : M (list Uuid) :=
  match ids with [] => mret [] | _ => Sql.get_cancelled_among ids end.

Definition cancel (id : Uuid) : M Build :=
  or_not_found ("Build " +:+ pretty id +:+ " not found or not in a cancellable state")
    (Sql.cancel id).

(** The dependents of one build: each that could be cancelled is pushed and
    recorded. *)
Fixpoint cancel_dependents (deps : list Uuid) (to_cancel : list Uuid)
    (cancelled : list Build) : M (list Uuid * list Build) :=
  match deps with
  | [] => mret (to_cancel, cancelled)
  | dep_id :: deps =>
      let! r := mtry (cancel dep_id) in
      match r with
      | Ok build => cancel_dependents deps (dep_id :: to_cancel) (cancelled ++ [build])
      | Err _ => cancel_dependents deps to_cancel cancelled
      end
  end.

(** [while let Some(build_id) = to_cancel.pop()]; the head of [to_cancel] is the
    top of the stack.  [None] means out of fuel, which [cancel_cascade] never is
    (shown in [Cascade]). *)
Fixpoint cancel_loop (fuel : nat) (to_cancel : list Uuid) (cancelled : list Build) :
    M (option (list Build)) :=
  match to_cancel with
  | [] => mret (Some cancelled)
  | build_id :: to_cancel =>
      match fuel with
      | O => mret None
      | S fuel =>
          let! dependents := Sql.cancel_cascade_dependents build_id in
          let! (to_cancel, cancelled) :=
            cancel_dependents dependents to_cancel cancelled in
          cancel_loop fuel to_cancel cancelled
      end
  end.

Definition active_count (w : World) : nat :=
  length (List.filter Sql.active (rows (w_builds w))).

Definition cancel_cascade (id : Uuid) : M (option (list Build)) := λ w,
  (let! r := mtry (cancel id) in
   let cancelled := match r with Ok build => [build] | Err _ => [] end in
   cancel_loop (S (active_count w)) [id] cancelled) w.

Definition restart (id : Uuid) : M Build :=
  let! build := or_not_found
    ("Build " +:+ pretty id +:+ " not found or not in a restartable state")
    (Sql.restart id) in
  let! _ := mtry (Sql.invalidate (b_drv_path build)) in
  mret build.

Definition set_effective_features (id : Uuid) (features : list string) : M () :=
  let! _ := Sql.set_effective_features id features in mret ().

Definition mark_signed (id : Uuid) : M () :=
  let! _ := Sql.mark_signed id in mret ().

Definition set_keep (id : Uuid) (keep : bool) : M Build :=
  or_not_found (build_not_found id) (Sql.set_keep id keep).

Definition set_builder (id builder_id : Uuid) : M () :=
  let! _ := Sql.set_builder id builder_id in mret ().

Definition set_agent (id machine_id : Uuid) : M () :=
  let! _ := Sql.set_agent id machine_id in mret ().

Definition delete (id : Uuid) : M () :=
  let! affected := Sql.delete id in
  if affected =? 0 then mfail (NotFound (build_not_found id)) else mret ().
End builds.

Module build_dependencies.

Definition check_deps_for_builds (ids : list Uuid) : M (gmap Z bool) :=
  match ids with
  | [] => mret ∅
  | _ =>
      let! incomplete := Sql.check_deps_for_builds ids in
      mret (list_to_map ((λ id, (id, negb (bool_decide (id ∈ incomplete)))) <$> ids))
  end.

Definition all_deps_completed (id : Uuid) : M bool :=
  let! count := Sql.all_deps_completed id in mret (count =? 0).
End build_dependencies.

(** The rows are keyed by [(build, name)], the primary key; a build that does not
    exist violates the foreign key. *)
Module build_outputs.

Definition create (build : Uuid) (name : string) (path : option string) : M () :=
  query (λ w,
    match w_outputs w !! (build, name), w_builds w !! build with
    | Some _, _ =>
        (Err (Conflict ("Build output with name '" +:+ name +:+
                        "' already exists for build " +:+ pretty build)), w)
    | None, None => (Err (Database "foreign key violation"), w)
    | None, Some _ =>
        (Ok (), set_w_outputs (<[(build, name) := path]> (w_outputs w)) w)
    end).

(** The names and paths; the order by name is the database's collation and is not
    modelled. *)
Definition list_for_build (build : Uuid) : M (list (string * option string)) :=
  read (λ w, (λ kv, (kv.1.2, kv.2)) <$>
    List.filter (λ kv, kv.1.1 =? build) (map_to_list (w_outputs w))).

Definition find_by_path (path : string) : M (list (Uuid * string)) :=
  read (λ w, fst <$>
    List.filter (λ kv, bool_decide (kv.2 = Some path)) (map_to_list (w_outputs w))).

Definition delete_for_build (build : Uuid) : M Z :=
  query (λ w,
    (Ok (Z.of_nat (length (List.filter (λ kv, kv.1.1 =? build) (map_to_list (w_outputs w))))),
     set_w_outputs (filter (λ kv, kv.1.1 ≠ build) (w_outputs w)) w)).
End build_outputs.

(** ** The cached narinfos ([repo/narinfo_cache.rs]) *)

Module narinfo_cache.

(** [COALESCE]. *)
Definition coalesce (a b : option Uuid) : option Uuid :=
  match a with Some _ => a | None => b end.

(** A nullable foreign key. *)
Definition references_row {A} (t : gmap Z A) (o : option Uuid) : bool :=
  match o with Some id => bool_decide (is_Some (t !! id)) | None => true end.

(** The row the first statement leaves: what the upload says replaces the old
    content; the first build and project stay. *)
Definition upsert_row (now : DateTime) (old : option NarInfo) (d : NarInfoData)
    (build_id project_id : option Uuid) : NarInfo :=
  match old with
  | Some r =>
      {| nr_info := d; nr_build_id := coalesce (nr_build_id r) build_id;
         nr_project_id := coalesce (nr_project_id r) project_id;
         nr_created_at := nr_created_at r; nr_updated_at := now;
         nr_last_fetched_at := nr_last_fetched_at r |}
  | None =>
      {| nr_info := d; nr_build_id := build_id; nr_project_id := project_id;
         nr_created_at := now; nr_updated_at := now; nr_last_fetched_at := None |}
  end.

Definition upsert_project_owner (path : string) (project : Uuid) (build : option Uuid)
    (t : gmap (string * Z) (option Uuid)) : gmap (string * Z) (option Uuid) :=
  <[(path, project) := coalesce build (mjoin (t !! (path, project)))]> t.

(** One transaction: both rows or none.  The foreign keys are checked against what
    is stored, which is the kept value where there was one. *)
Definition upsert_tx (path : string) (d : NarInfoData) (build_id project_id : option Uuid)
    (w : World) : result CiError () * World :=
  let row := upsert_row (w_now w) (w_narinfos w !! path) d build_id project_id in
  if negb (references_row (w_builds w) (nr_build_id row)
           && references_row (w_projects w) (nr_project_id row)
           && references_row (w_projects w) project_id
           && (is_none project_id || references_row (w_builds w) build_id))
  then (Err (Database "foreign key violation"), w)
  else
    let w := set_w_narinfos (<[path := row]> (w_narinfos w)) w in
    (Ok (), match project_id with
            | Some p =>
                set_w_narinfo_projects
                  (upsert_project_owner path p build_id (w_narinfo_projects w)) w
            | None => w
            end).

Definition upsert (path : string) (d : NarInfoData) (build_id project_id : option Uuid) :
    M () :=
  query (upsert_tx path d build_id project_id).

Definition get (path : string) : M NarInfo :=
  or_not_found ("narinfo for " +:+ path) (read (λ w, w_narinfos w !! path)).
End narinfo_cache.

Module failed_paths_cache.

Definition is_cached_failure (drv : string) : M bool :=
  let! row := Sql.is_cached_failure drv in mret (is_some row).

Definition insert (drv : string) (failure_status : BuildStatus)
    (source_build_id : Uuid) : M () :=
  Sql.insert_failed_path drv (Some source_build_id) (Some failure_status).

Definition invalidate (drv : string) : M () := Sql.invalidate drv.

Definition cleanup_expired (ttl_seconds : Z) : M Z := Sql.cleanup_expired ttl_seconds.
End failed_paths_cache.

(** ** The other tables, as far as the queue runner reads them *)

Module evaluations.
Definition get (id : Uuid) : M Evaluation :=
  or_not_found ("Evaluation " +:+ pretty id +:+ " not found")
    (read (λ w, w_evaluations w !! id)).
End evaluations.

Module jobsets.
Definition get (id : Uuid) : M Jobset :=
  or_not_found ("Jobset " +:+ pretty id +:+ " not found")
    (read (λ w, w_jobsets w !! id)).

Definition has_running_builds (jobset_id : Uuid) : M bool :=
  read (λ w, 0 <? Sql.running_count w jobset_id).
End jobsets.

Module projects.
Definition get (id : Uuid) : M Project :=
  or_not_found ("Project " +:+ pretty id +:+ " not found")
    (read (λ w, w_projects w !! id)).
End projects.
