(* ===== verification/Evaluations.v ===== *)
(** * Evaluations ([crates/common/src/repo/evaluations.rs], [queries/evaluations.sql])

    The table of evaluations with the heads of the sources: creation by the different
    triggers, the latest-only policy, claiming, finishing, cancelling, restarting and the
    recovery of orphans; and the jobset statements the evaluator uses
    ([repo/jobsets.rs], [queries/jobsets.sql]).  A transaction is one step of the world:
    all its statements or none.  The limits of text columns are not modelled. *)

From S2P Require Import Prelude Types Float32 Db Builds.

(** ** Statements on several builds *)

Module BuildSql.

Definition set_superseded (msg : string) (now : DateTime) (b : Build) : Build :=
  let r := b_run b in
  set_b_run {| br_status := Cancelled; br_started_at := br_started_at r;
    br_completed_at := Some now; br_log_path := br_log_path r;
    br_build_output_path := br_build_output_path r;
    br_error_message := Some msg; br_retry_count := br_retry_count r;
    br_effective_features := br_effective_features r;
    br_started_notified_at := br_started_notified_at r |} b.

(** The [ON DELETE SET NULL] of the narinfo tables, for several builds. *)
Definition forget_builds (gone : gset Z) (o : option Uuid) : option Uuid :=
  match o with Some id => if bool_decide (id ∈ gone) then None else o | None => None end.

Definition forget_builds_row (gone : gset Z) (r : NarInfo) : NarInfo :=
  {| nr_info := nr_info r; nr_build_id := forget_builds gone (nr_build_id r);
     nr_project_id := nr_project_id r; nr_created_at := nr_created_at r;
     nr_updated_at := nr_updated_at r; nr_last_fetched_at := nr_last_fetched_at r |}.

Definition of_evaluation (eval : Uuid) (b : Build) : bool := b_evaluation_id b =? eval.

(** [DELETE FROM builds WHERE evaluation_id = :id] with what hangs on the rows. *)
Definition delete_for_evaluation (eval : Uuid) (w : World) : World :=
  let gone : gset Z := dom (filter (λ kb, of_evaluation eval kb.2 = true) (w_builds w)) in
  set_w_builds (filter (λ kb, of_evaluation eval kb.2 = false) (w_builds w))
    (set_w_deps (List.filter (λ d, negb (bool_decide (d.1 ∈ gone) || bool_decide (d.2 ∈ gone)))
                   (w_deps w))
      (set_w_outputs (filter (λ kv, kv.1.1 ∉ gone) (w_outputs w))
        (set_w_narinfos (forget_builds_row gone <$> w_narinfos w)
          (set_w_narinfo_projects (forget_builds gone <$> w_narinfo_projects w) w)))).
End BuildSql.

(** ** Evaluations *)

Module Evals.

Record CreateEvaluation := {
  ce_jobset_id : Uuid;
  ce_commit_hash : string;
  ce_pr_number : option Z;
  ce_pr_head_branch : option string;
  ce_pr_base_branch : option string;
  ce_pr_action : option string;
}.

Inductive SourceOrder :=
  | Unchecked
  | First
  | After (previous : string).

Definition accepts (self : SourceOrder) (latest_commit : option string) : bool :=
  match self with
  | Unchecked => true
  | First => is_none latest_commit
  | After previous =>
      match latest_commit with
      | Some commit => bool_decide (commit = previous)
      | None => true
      end
  end.

Definition base_commit (self : SourceOrder) (latest_commit : option string) : option string :=
  match self with
  | Unchecked => latest_commit
  | First => None
  | After previous => Some previous
  end.

(** *** Statements *)

Definition new_evaluation (id : Uuid) (now : DateTime) (i : CreateEvaluation)
    (status : EvaluationStatus.t) (kind : EvaluationTriggerKind.t)
    (source_scope source_base_commit : option string) : Evaluation :=
  {| e_id := id; e_jobset_id := ce_jobset_id i; e_commit_hash := ce_commit_hash i;
     e_evaluation_time := now; e_status := status; e_error_message := None;
     e_inputs_hash := None; e_trigger_kind := kind; e_hidden := false;
     e_pr_number := ce_pr_number i; e_pr_head_branch := ce_pr_head_branch i;
     e_pr_base_branch := ce_pr_base_branch i; e_pr_action := ce_pr_action i;
     e_source_scope := source_scope; e_superseded_by := None;
     e_source_base_commit := source_base_commit;
     e_started_at := if bool_decide (status = EvaluationStatus.Running) then Some now else None;
     e_orphaned_count := 0 |}.

(** The unique index on the evaluations that are not interval ones. *)
Definition is_interval (e : Evaluation) : bool :=
  bool_decide (e_trigger_kind e = EvaluationTriggerKind.Interval).

Definition same_source (jobset : Uuid) (commit : string) (e : Evaluation) : bool :=
  (e_jobset_id e =? jobset) && bool_decide (e_commit_hash e = commit).

Definition duplicate (w : World) (jobset : Uuid) (commit : string) : bool :=
  existsb (λ e, same_source jobset commit e && negb (is_interval e)) (rows (w_evaluations w)).

(** [INSERT INTO evaluations]. *)
Definition insert_evaluation (id : Uuid) (i : CreateEvaluation) (status : EvaluationStatus.t)
    (kind : EvaluationTriggerKind.t) (source_scope source_base_commit : option string)
    (w : World) : result CiError Evaluation * World :=
  if negb (bool_decide (kind = EvaluationTriggerKind.Interval)) &&
     duplicate w (ce_jobset_id i) (ce_commit_hash i)
  then (Err (Conflict ("Evaluation for commit '" +:+ ce_commit_hash i +:+
                       "' already exists in this jobset")), w)
  else match w_jobsets w !! ce_jobset_id i with
       | None => (Err (Database "foreign key violation"), w)
       | Some _ =>
           let e := new_evaluation id (w_now w) i status kind source_scope source_base_commit in
           (Ok e, set_w_evaluations (<[id := e]> (w_evaluations w)) w)
       end.

Definition open_status (s : EvaluationStatus.t) : bool :=
  match s with
  | EvaluationStatus.Pending | EvaluationStatus.Running => true
  | _ => false
  end.

Definition is_open (e : Evaluation) : bool := open_status (e_status e).

(** The evaluations a newer one of the same source replaces. *)
Definition superseded_source (by_id jobset : Uuid) (scope : string) (e : Evaluation) : bool :=
  (e_jobset_id e =? jobset) && negb (e_id e =? by_id) &&
  bool_decide (e_trigger_kind e = EvaluationTriggerKind.SourceChange) &&
  bool_decide (e_source_scope e = Some scope).

Definition has_active_build (w : World) (eval : Uuid) : bool :=
  existsb (λ b, (b_evaluation_id b =? eval) && Sql.active b) (rows (w_builds w)).

Definition superseded_message (by_id : Uuid) : string :=
  "superseded by evaluation " +:+ pretty by_id.

Definition set_superseded (by_id : Uuid) (e : Evaluation) : Evaluation :=
  set_e_superseded_by (Some by_id)
    (if is_open e
     then set_e_error_message (Some (superseded_message by_id))
            (set_e_status EvaluationStatus.Cancelled e)
     else e).

Definition supersede_source_evaluations (by_id jobset : Uuid) (scope : string) (w : World) :
    World :=
  set_w_evaluations
    ((λ e, if superseded_source by_id jobset scope e && (is_open e || has_active_build w (e_id e))
           then set_superseded by_id e else e) <$> w_evaluations w) w.

Definition cancel_superseded_builds (by_id jobset : Uuid) (scope : string) (w : World) :
    World :=
  set_w_builds
    ((λ b, match w_evaluations w !! b_evaluation_id b with
           | Some e => if superseded_source by_id jobset scope e && Sql.active b
                       then BuildSql.set_superseded (superseded_message by_id) (w_now w) b
                       else b
           | None => b
           end) <$> w_builds w) w.

(** [UPDATE evaluations SET .. WHERE id = :id AND guard RETURNING *]. *)
Definition update (id : Uuid) (guard : World → Evaluation → bool)
    (f : World → Evaluation → Evaluation) : M (option Evaluation) :=
  query (λ w,
    match w_evaluations w !! id with
    | Some e =>
        if guard w e
        then let e' := f w e in
             (Ok (Some e'), set_w_evaluations (<[id := e']> (w_evaluations w)) w)
        else (Ok None, w)
    | None => (Ok None, w)
    end).

Definition has_status (s : EvaluationStatus.t) (e : Evaluation) : bool :=
  bool_decide (e_status e = s).

Definition with_status (status : EvaluationStatus.t) (error_message : option string)
    (e : Evaluation) : Evaluation :=
  set_e_error_message error_message (set_e_status status e).

Definition claimed (now : DateTime) (e : Evaluation) : Evaluation :=
  set_e_started_at (Some now) (set_e_status EvaluationStatus.Running e).

Definition swept (now : DateTime) (e : Evaluation) : Evaluation :=
  let last_try := 2 <=? e_orphaned_count e in
  set_e_evaluation_time now (set_e_inputs_hash None (set_e_started_at None
    (set_e_orphaned_count (e_orphaned_count e + 1)
      (with_status (if last_try then EvaluationStatus.Failed else EvaluationStatus.Pending)
         (if last_try then Some "evaluation orphaned repeatedly, giving up" else None) e)))).

Definition is_orphaned (deadline_secs : Z) (now : DateTime) (e : Evaluation) : bool :=
  has_status EvaluationStatus.Running e &&
  (default (e_evaluation_time e) (e_started_at e) <? now - Sql.secs deadline_secs).

Definition restartable (w : World) (e : Evaluation) : bool :=
  match e_status e with
  | EvaluationStatus.Cancelled | EvaluationStatus.Failed | EvaluationStatus.TimedOut =>
      match w_jobsets w !! e_jobset_id e with
      | Some j =>
          match j_state j with
          | JobsetState.OneShot => true
          | JobsetState.Enabled | JobsetState.OneAtATime => j_enabled j
          | JobsetState.Disabled => false
          end
      | None => false
      end
  | _ => false
  end.

Definition requeued (now : DateTime) (e : Evaluation) : Evaluation :=
  set_e_source_base_commit None (set_e_source_scope None
    (set_e_trigger_kind
       (match e_trigger_kind e with
        | EvaluationTriggerKind.SourceChange => EvaluationTriggerKind.Manual
        | k => k
        end)
      (set_e_superseded_by None (set_e_orphaned_count 0 (set_e_started_at None
        (set_e_inputs_hash None (set_e_evaluation_time now
          (with_status EvaluationStatus.Pending None e)))))))).

Definition reenable_one_shot (eval : Uuid) (w : World) : World :=
  match w_evaluations w !! eval with
  | Some e =>
      set_w_jobsets
        (alter (λ j, if bool_decide (j_state j = JobsetState.OneShot)
                     then set_j_updated_at (w_now w) (set_j_enabled true j) else j)
           (e_jobset_id e) (w_jobsets w)) w
  | None => w
  end.

(** *** Repository functions *)

Definition create_with_kind (id : Uuid) (input : CreateEvaluation)
    (kind : EvaluationTriggerKind.t) (status : EvaluationStatus.t)
    (source_scope : option string) : M Evaluation :=
  query (insert_evaluation id input status kind source_scope None).

Definition create (id : Uuid) (input : CreateEvaluation) : M Evaluation :=
  create_with_kind id input EvaluationTriggerKind.SourceChange EvaluationStatus.Pending None.

Definition create_manual (id : Uuid) (input : CreateEvaluation) : M Evaluation :=
  create_with_kind id input EvaluationTriggerKind.Manual EvaluationStatus.Pending None.

Definition create_interval (id : Uuid) (input : CreateEvaluation) : M Evaluation :=
  create_with_kind id input EvaluationTriggerKind.Interval EvaluationStatus.Running None.

Definition create_automated (id : Uuid) (input : CreateEvaluation)
    (status : EvaluationStatus.t) (source_scope : string) (source_order : SourceOrder) :
    M Evaluation :=
  query (λ w,
    match w_jobsets w !! ce_jobset_id input with
    | None => (Err (NotFound ("Jobset " +:+ pretty (ce_jobset_id input) +:+ " not found")), w)
    | Some j =>
        let latest_commit := w_source_heads w !! (ce_jobset_id input, source_scope) in
        if j_only_build_latest j && negb (accepts source_order latest_commit)
        then (Err (Conflict ("Source update for '" +:+ source_scope +:+
                             "' is older than the current revision")), w)
        else
          match insert_evaluation id input status EvaluationTriggerKind.SourceChange
                  (Some source_scope) (base_commit source_order latest_commit) w with
          | (Err e, _) => (Err e, w)
          | (Ok e, w) =>
              let w := set_w_source_heads
                         (<[(e_jobset_id e, source_scope) := e_commit_hash e]>
                            (w_source_heads w)) w in
              (Ok e,
               if j_only_build_latest j
               then cancel_superseded_builds (e_id e) (e_jobset_id e) source_scope
                      (supersede_source_evaluations (e_id e) (e_jobset_id e) source_scope w)
               else w)
          end
    end).

Definition create_running_source_change (id : Uuid) (input : CreateEvaluation)
    (source_scope : string) : M Evaluation :=
  create_automated id input EvaluationStatus.Running source_scope Unchecked.

Definition enqueue_source (id : Uuid) (input : CreateEvaluation) (source_scope : string)
    (source_order : SourceOrder) : M Evaluation :=
  create_automated id input EvaluationStatus.Pending source_scope source_order.

Definition evaluation_not_found (id : Uuid) : string :=
  "Evaluation " +:+ pretty id +:+ " not found".

Definition set_hidden (id : Uuid) (hidden : bool) : M Evaluation :=
  or_not_found (evaluation_not_found id) (update id (λ _ _, true) (λ _, set_e_hidden hidden)).

Definition try_claim_pending (id : Uuid) : M (option Evaluation) :=
  update id (λ _, has_status EvaluationStatus.Pending) (λ w, claimed (w_now w)).

Definition update_status (id : Uuid) (status : EvaluationStatus.t)
    (error_message : option string) : M Evaluation :=
  or_not_found (evaluation_not_found id)
    (update id (λ _ _, true) (λ _, with_status status error_message)).

Definition finish_running (id : Uuid) (status : EvaluationStatus.t)
    (error_message : option string) : M (option Evaluation) :=
  update id (λ _, has_status EvaluationStatus.Running) (λ _, with_status status error_message).

Definition cancel (id : Uuid) : M (option Evaluation) :=
  update id (λ _, is_open) (λ _, with_status EvaluationStatus.Cancelled None).

Definition restart (id : Uuid) : M (option Evaluation) :=
  query (λ w,
    match w_evaluations w !! id with
    | Some e =>
        if restartable w e
        then let e' := requeued (w_now w) e in
             (Ok (Some e'),
              reenable_one_shot id (BuildSql.delete_for_evaluation id
                (set_w_evaluations (<[id := e']> (w_evaluations w)) w)))
        else (Ok None, w)
    | None => (Ok None, w)
    end).

Definition is_cancelled (id : Uuid) : M bool :=
  read (λ w, match w_evaluations w !! id with
             | Some e => has_status EvaluationStatus.Cancelled e
             | None => false
             end).

Definition set_inputs_hash (id : Uuid) (hash : string) : M () :=
  let! _ := update id (λ _ _, true) (λ _, set_e_inputs_hash (Some hash)) in mret ().

(** [ORDER BY evaluation_time DESC LIMIT 1]. *)
Definition newest_first (a b : Evaluation) : comparison :=
  Z.compare (e_evaluation_time b) (e_evaluation_time a).

Definition get_by_inputs_hash (jobset : Uuid) (hash : string) : M (option Evaluation) :=
  read (λ w, head (sort_by newest_first (List.filter
    (λ e, (e_jobset_id e =? jobset) && bool_decide (e_inputs_hash e = Some hash) &&
          has_status EvaluationStatus.Completed e) (rows (w_evaluations w))))).

Definition get_latest (jobset : Uuid) : M (option Evaluation) :=
  read (λ w, head (sort_by newest_first (List.filter
    (λ e, (e_jobset_id e =? jobset) && has_status EvaluationStatus.Completed e)
    (rows (w_evaluations w))))).

(** [ORDER BY (trigger_kind = 'interval') ASC, evaluation_time DESC]. *)
Definition source_first (a b : Evaluation) : comparison :=
  then_with (Z.compare (Z.b2z (is_interval a)) (Z.b2z (is_interval b))) (newest_first a b).

Definition get_by_jobset_and_commit (jobset : Uuid) (commit : string) :
    M (option Evaluation) :=
  read (λ w, head (sort_by source_first
    (List.filter (same_source jobset commit) (rows (w_evaluations w))))).

Definition oldest_first (a b : Evaluation) : comparison :=
  Z.compare (e_evaluation_time a) (e_evaluation_time b).

Definition list_pending : M (list Evaluation) :=
  read (λ w, sort_by oldest_first
    (List.filter (has_status EvaluationStatus.Pending) (rows (w_evaluations w)))).

Definition sweep_orphaned (deadline_secs : Z) : M (list Evaluation) :=
  query (λ w,
    let hit := is_orphaned deadline_secs (w_now w) in
    (Ok (swept (w_now w) <$> List.filter hit (rows (w_evaluations w))),
     set_w_evaluations ((λ e, if hit e then swept (w_now w) e else e) <$> w_evaluations w) w)).

End Evals.

(** ** Jobsets *)

Module Jobsets.

(** The view [active_jobsets]. *)
Record ActiveJobset := {
  aj_jobset : Jobset;
  aj_project_name : string;
  aj_repository_url : string;
}.

Definition aj_id (j : ActiveJobset) : Uuid := j_id (aj_jobset j).

Definition active_row (w : World) (j : Jobset) : option ActiveJobset :=
  if j_enabled j && JobsetState.is_evaluable (j_state j) then
    (λ p, {| aj_jobset := j; aj_project_name := p_name p;
             aj_repository_url := p_repository_url p |}) <$> w_projects w !! j_project_id j
  else None.

Definition list_active : M (list ActiveJobset) :=
  read (λ w, omap (active_row w) (rows (w_jobsets w))).

Definition list_all_for_project (project : Uuid) : M (list Jobset) :=
  read (λ w, sort_by (λ a b, Z.compare (j_created_at b) (j_created_at a))
    (List.filter (λ j, j_project_id j =? project) (rows (w_jobsets w)))).

Definition mark_one_shot_complete (id : Uuid) : M () :=
  query (λ w, (Ok (), set_w_jobsets
    (alter (λ j, if bool_decide (j_state j = JobsetState.OneShot)
                 then set_j_updated_at (w_now w) (set_j_enabled false j) else j)
       id (w_jobsets w)) w)).

Definition update_last_checked (id : Uuid) : M () :=
  query (λ w, (Ok (), set_w_jobsets
    (alter (λ j, set_j_updated_at (w_now w) (set_j_last_checked_at (Some (w_now w)) j))
       id (w_jobsets w)) w)).

Definition has_unfinished_work (jobset : Uuid) : M bool :=
  read (λ w, existsb (λ e, (e_jobset_id e =? jobset) &&
    (Evals.is_open e || Evals.has_active_build w (e_id e))) (rows (w_evaluations w))).

End Jobsets.

(** The order, by name under the collation of the database, is of no consequence: the
    callers sort or look inputs up by name. *)
Module Inputs.
Definition list_for_jobset (jobset : Uuid) : M (list JobsetInput) :=
  read (λ w, List.filter (λ i, ji_jobset_id i =? jobset) (map_to_list (w_inputs w)).*2).
End Inputs.
