(* ===== verification/Lifecycle.v ===== *)
(** * The build lifecycle

    The repository functions of [Builds] that write the builds table, as the
    operations of a transition system, with the two operations on evaluations that write
    builds ([Evaluations]), in which any number of clients (scheduler,
    workers, evaluator, web server) run them in any order, with statement
    failures, time and foreign locks in between; its invariant; and what each
    operation does to the status of a build. *)

From S2P Require Import Prelude Types Float32 Db Builds Evaluations.

(** ** Operations *)

Inductive op :=
  | OCreate (id : Uuid) (input : Sql.CreateBuild)
  | OStart (id : Uuid)
  | ONotified (id : Uuid)
  | ORequeue (id : Uuid)
  | ORetry (id : Uuid)
  | OComplete (id : Uuid) (status : BuildStatus) (log output error : option string)
  | OBump (id : Uuid) (delta : Z)
  | OResetOrphaned (older_than_secs : Z) (excluded : list Uuid)
  | OCancel (id : Uuid)
  | ORestart (id : Uuid)
  | OEffective (id : Uuid) (features : list string)
  | OSigned (id : Uuid)
  | OKeep (id : Uuid) (keep : bool)
  | OBuilder (id builder : Uuid)
  | OAgent (id machine : Uuid)
  | ODelete (id : Uuid)
  | OSource (id : Uuid) (input : Evals.CreateEvaluation) (status : EvaluationStatus.t)
      (scope : string) (order : Evals.SourceOrder)
  | OEvalRestart (id : Uuid).

Definition exec (o : op) (w : World) : World :=
  match o with
  | OCreate id i => (builds.create id i w).2
  | OStart id => (builds.start id w).2
  | ONotified id => (builds.mark_started_notified id w).2
  | ORequeue id => (builds.requeue id w).2
  | ORetry id => (builds.retry id w).2
  | OComplete id s l o e => (builds.complete id s l o e w).2
  | OBump id d => (builds.bump_priority id d w).2
  | OResetOrphaned t x => (builds.reset_orphaned_excluding t x w).2
  | OCancel id => (builds.cancel id w).2
  | ORestart id => (builds.restart id w).2
  | OEffective id f => (builds.set_effective_features id f w).2
  | OSigned id => (builds.mark_signed id w).2
  | OKeep id k => (builds.set_keep id k w).2
  | OBuilder id b => (builds.set_builder id b w).2
  | OAgent id m => (builds.set_agent id m w).2
  | ODelete id => (builds.delete id w).2
  | OSource id i s scope order => (Evals.create_automated id i s scope order w).2
  | OEvalRestart id => (Evals.restart id w).2
  end.

(** What the callers and the database guarantee: a generated key is new, and a
    build is completed with a terminal status. *)
Definition op_ok (w : World) (o : op) : Prop :=
  match o with
  | OCreate id _ => w_builds w !! id = None
  | OComplete _ s _ _ _ => is_finished s = true
  | _ => True
  end.

(** The tables a build statement reads are the same. *)
Definition same_tables (w w' : World) : Prop :=
  w_builds w' = w_builds w ∧ w_deps w' = w_deps w ∧
  w_failed_paths w' = w_failed_paths w ∧ w_evaluations w' = w_evaluations w ∧
  w_jobsets w' = w_jobsets w.

Inductive step : World → World → Prop :=
  | step_op w o : op_ok w o → step w (exec o w)
  (** Everything else: time, locks, faults, and the other tables. *)
  | step_env w w' : w_builds w' = w_builds w → step w w'.

Definition reachable : World → Prop := rtc step empty_world.

(** ** The invariant *)

Definition wf_build (b : Build) : Prop :=
  match b_status b with
  | Pending => b_started_at b = None ∧ b_completed_at b = None
  | Running => is_Some (b_started_at b) ∧ b_completed_at b = None
  | _ => is_Some (b_completed_at b)
  end ∧ I32_MIN ≤ b_retry_count b ≤ I32_MAX ∧ I32_MIN ≤ b_priority b ≤ I32_MAX.

Definition wf_table (t : gmap Z Build) : Prop :=
  (∀ id b, t !! id = Some b → b_id b = id ∧ wf_build b) ∧
  (∀ i j b c, t !! i = Some b → t !! j = Some c →
     b_status b = Running → b_status c = Running →
     b_drv_path b = b_drv_path c → i = j).

Definition inv (w : World) : Prop := wf_table (w_builds w).

(** ** Statements *)

(** A statement applied without a fault, or a world that kept its tables. *)
Lemma query_cases {A} (f : World → result CiError A * World) w :
  (∃ w', same_tables w w' ∧ w_now w' = w_now w ∧ w_locks w' = w_locks w ∧
     w_remote_builders w' = w_remote_builders w ∧ w_sessions w' = w_sessions w ∧
     query f w = f w') ∨
  (∃ e w', same_tables w w' ∧ query f w = (Err e, w')).
Proof.
  unfold query, same_tables. destruct (w_faults w) as [|[] faults].
  - left. by exists w.
  - right. eexists _, _. by split; [|done].
  - left. exists (set_w_faults faults w). by split_and!.
Qed.

Ltac split_query w :=
  match goal with
  | |- context [query ?f w] =>
      let w' := fresh "w'" in let e := fresh "e" in let Hb := fresh "Hb" in
      destruct (query_cases f w)
        as [(w' & (Hb & _) & _ & _ & _ & _ & ->)|(e & w' & (Hb & _) & ->)]
  end.

(** The builds table after an [UPDATE .. WHERE id]. *)
Lemma update_builds id guard f w :
  w_builds (Sql.update id guard f w).2 = w_builds w ∨
  ∃ b b', w_builds w !! id = Some b ∧ guard b = true ∧ f b = Some b' ∧
    w_builds (Sql.update id guard f w).2 = <[id := b']> (w_builds w).
Proof.
  unfold Sql.update.
  split_query w; [|by left].
  rewrite <-Hb.
  destruct (w_builds w' !! id) as [b|] eqn:Hl; [|by left].
  destruct (guard b) eqn:Hg; [|by left].
  destruct (f b) as [b'|] eqn:Hf; [|by left].
  right. by exists b, b'.
Qed.

Lemma running_twin_false drv t i c :
  Sql.running_twin drv t = false → t !! i = Some c → b_drv_path c = drv →
  b_status c ≠ Running.
Proof.
  unfold Sql.running_twin. intros Ht Hc Hd Hs.
  assert (existsb (λ a, bool_decide (b_drv_path a = drv) && Sql.has_status Running a)
    (rows t) = true) as Hex; [|congruence].
  apply existsb_exists. exists c. split.
  - apply list_elem_of_In. unfold rows. apply list_elem_of_fmap.
    exists (i, c). split; [done|]. by apply elem_of_map_to_list.
  - unfold Sql.has_status. by rewrite !bool_decide_true.
Qed.

(** An update keeps the table well formed when the new row is, keeps its
    identity, and is running only if it was or if no twin runs. *)
Lemma wf_insert t id b b' :
  wf_table t → t !! id = Some b → b_info b' = b_info b → wf_build b' →
  (b_status b' = Running →
     b_status b = Running ∨ Sql.running_twin (b_drv_path b) t = false) →
  wf_table (<[id := b']> t).
Proof.
  intros [Hwf Hrun] Hid Hinfo Hb' Htwin.
  assert (Hdrv : b_drv_path b' = b_drv_path b) by (unfold b_drv_path; congruence).
  split.
  - intros i c. rewrite lookup_insert. case_decide; [|apply Hwf].
    intros [= <-]. subst i. split; [|done].
    transitivity (b_id b); [unfold b_id; congruence|]. by apply Hwf.
  - assert (Hone : ∀ j c, id ≠ j → t !! j = Some c → b_status b' = Running →
      b_status c = Running → b_drv_path b' = b_drv_path c → False).
    { intros j c Hne Hj Hr Hc Hd. destruct (Htwin Hr) as [Hb|Ht].
      - apply Hne. eapply Hrun; eauto. congruence.
      - eapply running_twin_false; [exact Ht|exact Hj|congruence|done]. }
    intros i j c d. rewrite !lookup_insert. repeat case_decide; subst; intros Hc Hd;
      simplify_eq; try done; eauto; intros; exfalso; eauto.
Qed.

(** The row-level obligation of an [UPDATE]. *)
Definition row_ok (t : gmap Z Build) (b b' : Build) : Prop :=
  b_info b' = b_info b ∧ wf_build b' ∧
  (b_status b' = Running →
     b_status b = Running ∨ Sql.running_twin (b_drv_path b) t = false).

Lemma update_inv id guard f w :
  inv w →
  (∀ b b', wf_build b → guard b = true → f b = Some b' →
     row_ok (w_builds w) b b') →
  inv (Sql.update id guard f w).2.
Proof.
  intros Hinv Hf. unfold inv.
  destruct (update_builds id guard f w) as [->|(b & b' & Hb & Hg & Hfb & ->)]; [done|].
  assert (wf_build b) as Hwf by (by eapply Hinv).
  destruct (Hf b b' Hwf Hg Hfb) as (? & ? & ?). by eapply wf_insert.
Qed.

Lemma snd_or_not_found {A} msg (m : M (option A)) w :
  (or_not_found msg m w).2 = (m w).2.
Proof. unfold or_not_found, mbind. by destruct (m w) as [[[]|] w']. Qed.

Lemma snd_bind_ret {A B} (m : M A) (f : A → B) w :
  (mbind m (λ a, mret (f a)) w).2 = (m w).2.
Proof. unfold mbind. by destruct (m w) as [[] w']. Qed.

Lemma snd_bind_unit {A} (m : M A) w : (mbind m (λ _, mret ()) w).2 = (m w).2.
Proof. unfold mbind. by destruct (m w) as [[] w']. Qed.

Lemma invalidate_builds drv w : w_builds (Sql.invalidate drv w).2 = w_builds w.
Proof.
  unfold Sql.invalidate.
  by split_query w.
Qed.

Lemma i32_ok_spec z : Sql.i32_ok z = true → I32_MIN ≤ z ≤ I32_MAX.
Proof. unfold Sql.i32_ok. rewrite andb_true_iff, !Z.leb_le. done. Qed.

Lemma has_status_true s b : Sql.has_status s b = true → b_status b = s.
Proof. by intros ?%bool_decide_eq_true. Qed.

(** Close a [row_ok] goal about a concrete new row. *)
Ltac solve_row :=
  intros b b' Hwf Hg Hf;
  repeat match type of Hf with
    | (if ?c then _ else _) = _ => let E := fresh "E" in
        destruct c eqn:E; [apply i32_ok_spec in E|done]
    end;
  injection Hf as <-;
  repeat match goal with
    | H : (_ && _) = true |- _ => apply andb_true_iff in H as [? ?]
    | H : Sql.has_status _ _ = true |- _ => apply has_status_true in H
    | H : negb _ = true |- _ => apply negb_true_iff in H
    end;
  split; [done|split];
  [ destruct Hwf as (Hwf & Hretry & Hprio);
    repeat match goal with H : b_status _ = _ |- _ => rewrite H in Hwf end;
    unfold wf_build, b_status, b_started_at, b_completed_at, b_retry_count in *;
    cbn in *;
    repeat match goal with
      | |- context [match br_status ?r with _ => _ end] => destruct (br_status r)
      end;
    split_and!; (done || lia || tauto || eauto)
  | cbn; intros; try done; auto ].

Lemma start_inv id w : inv w → inv (Sql.start id w).2.
Proof. intros Hinv. apply update_inv; [done|]. solve_row. Qed.

Lemma requeue_inv id w : inv w → inv (Sql.requeue id w).2.
Proof. intros Hinv. apply update_inv; [done|]. solve_row. Qed.

Lemma retry_inv id w : inv w → inv (Sql.retry id w).2.
Proof. intros Hinv. apply update_inv; [done|]. solve_row. Qed.

Lemma complete_inv id s l o e w :
  is_finished s = true → inv w → inv (Sql.complete id s l o e w).2.
Proof.
  intros Hs Hinv. apply update_inv; [done|].
  destruct s; try done; solve_row.
Qed.

Lemma bump_inv id d w : inv w → inv (Sql.bump_priority id d w).2.
Proof. intros Hinv. apply update_inv; [done|]. solve_row. Qed.

Lemma restart_inv id w : inv w → inv (Sql.restart id w).2.
Proof. intros Hinv. apply update_inv; [done|]. solve_row. Qed.

Lemma cancel_inv id w : inv w → inv (Sql.cancel id w).2.
Proof. intros Hinv. apply update_inv; [done|]. solve_row. Qed.

(** The updates that leave the lifecycle alone. *)
Lemma field_inv id guard f w :
  (∀ b, b_info (f b) = b_info b ∧ b_status (f b) = b_status b ∧
     b_started_at (f b) = b_started_at b ∧ b_completed_at (f b) = b_completed_at b ∧
     b_retry_count (f b) = b_retry_count b ∧ b_priority (f b) = b_priority b) →
  inv w → inv (Sql.update id guard (λ b, Some (f b)) w).2.
Proof.
  intros Hf Hinv. apply update_inv; [done|]. intros b b' Hwf _ [= <-].
  destruct (Hf b) as (H1 & H2 & H3 & H4 & H5 & H6).
  unfold row_ok, wf_build. rewrite H1, H2, H3, H4, H5, H6. auto.
Qed.

Lemma reference_inv id refers f w :
  (∀ b, b_info (f b) = b_info b ∧ b_status (f b) = b_status b ∧
     b_started_at (f b) = b_started_at b ∧ b_completed_at (f b) = b_completed_at b ∧
     b_retry_count (f b) = b_retry_count b ∧ b_priority (f b) = b_priority b) →
  inv w → inv (Sql.update_reference id refers f w).2.
Proof.
  intros Hf Hinv. unfold Sql.update_reference.
  split_query w; unfold inv in *; rewrite <-Hb in Hinv; [|done].
  destruct (w_builds w' !! id) as [b|] eqn:Hl; [|done]. destruct (refers w'); [|done]. simpl.
  assert (Hwf : wf_build b) by (by eapply Hinv). eapply wf_insert; [done..| | |];
    destruct (Hf b) as (H1 & H2 & H3 & H4 & H5 & H6); unfold row_ok, wf_build, b_id, b_drv_path in *;
    rewrite ?H1, ?H2, ?H3, ?H4, ?H5, ?H6; auto.
Qed.

Lemma create_inv id i w :
  w_builds w !! id = None → inv w → inv (Sql.create id i w).2.
Proof.
  intros Hid Hinv. unfold Sql.create.
  split_query w; [|unfold inv; simpl; by rewrite Hb].
  unfold inv in *. rewrite <-Hb in Hinv. case_match; simpl; [done|].
  destruct Hinv as [Hwf Hrun]. split.
  - intros j c. rewrite lookup_insert. case_decide; [|apply Hwf].
    intros [= <-]. split; [done|]. by split_and!.
  - intros j k c d. rewrite !lookup_insert.
    repeat case_decide; subst; intros Hc Hd; simplify_eq; try done; eauto.
Qed.

Lemma delete_inv id w : inv w → inv (Sql.delete id w).2.
Proof.
  intros Hinv. unfold Sql.delete.
  split_query w; unfold inv in *; rewrite <-Hb in Hinv; [|done].
  case_match; simpl; [|done]. destruct Hinv as [Hwf Hrun]. split.
  - intros j c. rewrite lookup_delete. case_decide; [done|apply Hwf].
  - intros j k c d. rewrite !lookup_delete. repeat case_decide; try done. eauto.
Qed.

(** A statement that rewrites several rows at once. *)
Lemma wf_fmap (g : Build → Build) t :
  (∀ b, wf_build b → b_info (g b) = b_info b ∧ wf_build (g b) ∧
     (b_status (g b) = Running → b_status b = Running)) →
  wf_table t → wf_table (g <$> t).
Proof.
  intros Hg [Hwf Hrun]. split.
  - intros j c. rewrite lookup_fmap. intros (b & Hj & ->)%fmap_Some.
    destruct (Hwf j b Hj) as [Hid Hwb]. destruct (Hg b Hwb) as (Hi & ? & _).
    split; [|done]. rewrite <-Hid. unfold b_id. by rewrite Hi.
  - intros j k c d. rewrite !lookup_fmap.
    intros (b & Hj & ->)%fmap_Some (b' & Hk & ->)%fmap_Some Hc Hd Hdrv.
    destruct (Hg b (proj2 (Hwf _ _ Hj))) as (Hi & _ & Hs).
    destruct (Hg b' (proj2 (Hwf _ _ Hk))) as (Hi' & _ & Hs').
    apply (Hrun j k b b'); auto. unfold b_drv_path in *. congruence.
Qed.

Lemma wf_subset t t' : t' ⊆ t → wf_table t → wf_table t'.
Proof.
  intros Hs [Hwf Hrun]. split.
  - intros j c Hj. apply Hwf. by eapply lookup_weaken.
  - intros j k c d Hj Hk. apply (Hrun j k c d); by eapply lookup_weaken.
Qed.

Lemma reset_orphaned_inv t x w : inv w → inv (Sql.reset_orphaned t x w).2.
Proof.
  intros Hinv. unfold Sql.reset_orphaned.
  split_query w; unfold inv in *; rewrite <-Hb in Hinv; [|done].
  simpl. apply wf_fmap; [|done]. intros b Hwf.
  destruct (Sql.orphaned t x w' b) eqn:Hh; [|done].
  apply andb_true_iff in Hh as [Hh _]. apply andb_true_iff in Hh as [Hr%has_status_true _].
  unfold wf_build in Hwf. rewrite Hr in Hwf. split; [done|]. split; [|done].
  unfold wf_build. cbn. unfold b_completed_at in *. tauto.
Qed.

Lemma source_inv id i s scope order w :
  inv w → inv (Evals.create_automated id i s scope order w).2.
Proof.
  intros Hinv. unfold Evals.create_automated.
  split_query w; unfold inv in *; rewrite <-Hb in Hinv; [|done].
  destruct (w_jobsets w' !! _) as [j|] eqn:Ej; [|done].
  destruct (j_only_build_latest j && _); [done|].
  unfold Evals.insert_evaluation. destruct (negb _ && _); [done|].
  rewrite Ej. simpl. destruct (j_only_build_latest j); [|done].
  simpl. apply wf_fmap; [|done]. intros b Hwf. case_match; [|done].
  destruct (_ && Sql.active b); [|done]. split; [done|]. split; [|done].
  destruct Hwf as (_ & ? & ?). split; [by eexists|done].
Qed.

Lemma eval_restart_inv id w : inv w → inv (Evals.restart id w).2.
Proof.
  intros Hinv. unfold Evals.restart.
  split_query w; unfold inv in *; rewrite <-Hb in Hinv; [|done].
  destruct (w_evaluations w' !! id) as [e|]; [|done]. case_match; [|done].
  unfold Evals.reenable_one_shot. case_match; simpl;
    by (eapply wf_subset; [apply map_filter_subseteq|]).
Qed.

Lemma exec_inv o w : op_ok w o → inv w → inv (exec o w).
Proof.
  intros Hok Hinv. destruct o; cbn [exec].
  all: unfold builds.start, builds.requeue, builds.bump_priority,
    builds.reset_orphaned_excluding, builds.mark_started_notified, builds.retry,
    builds.complete, builds.cancel, builds.set_effective_features,
    builds.mark_signed, builds.set_keep, builds.set_builder, builds.set_agent.
  all: rewrite ?snd_or_not_found, ?snd_bind_ret, ?snd_bind_unit.
  all: try ((apply field_inv || apply reference_inv); [by intros|done]).
  - unfold builds.create, mbind.
    pose proof (create_inv id input w Hok Hinv) as H.
    destruct (Sql.create id input w) as [[[]|] w']; done.
  - by apply start_inv.
  - by apply requeue_inv.
  - by apply retry_inv.
  - by apply complete_inv.
  - by apply bump_inv.
  - by apply reset_orphaned_inv.
  - by apply cancel_inv.
  - unfold builds.restart, mbind. pose proof (restart_inv id w Hinv) as H.
    rewrite <-(snd_or_not_found ("Build " +:+ pretty id +:+
      " not found or not in a restartable state")) in H.
    destruct (or_not_found _ (Sql.restart id) w) as [[b|] w']; [|done]. unfold mtry.
    pose proof (invalidate_builds (b_drv_path b) w') as Hi.
    destruct (Sql.invalidate _ w') as [r w'']. simpl in *. unfold inv in *. congruence.
  - unfold builds.delete, mbind. pose proof (delete_inv id w Hinv) as H.
    destruct (Sql.delete id w) as [[]]; [|done]. by case_match.
  - by apply source_inv.
  - by apply eval_restart_inv.
Qed.

Lemma inv_reachable w : reachable w → inv w.
Proof.
  intros Hr. unfold reachable in Hr.
  apply (rtc_ind_r inv empty_world) in Hr; [done| |].
  - split; by intros.
  - intros w1 w2 _ [w0 o Hok|w0 w' Hb] Hinv; [by apply exec_inv|].
    unfold inv. by rewrite Hb.
Qed.

(** ** Properties *)

Definition example_input : Sql.CreateBuild :=
  {| Sql.cb_evaluation_id := 1; Sql.cb_job_name := "hello";
     Sql.cb_drv_path := "/nix/store/hello.drv"; Sql.cb_system := Some "x86_64-linux";
     Sql.cb_outputs := None; Sql.cb_is_aggregate := None; Sql.cb_constituents := None;
     Sql.cb_is_fod := None; Sql.cb_fod_hash := None; Sql.cb_meta_description := None;
     Sql.cb_meta_license := None; Sql.cb_meta_homepage := None;
     Sql.cb_meta_maintainers := None; Sql.cb_required_features := ["kvm"] |}.

(** A world with one pending build. *)
Definition example_world : World := exec (OCreate 10 example_input) empty_world.

Lemma example_world_reachable : reachable example_world.
Proof. apply rtc_once. by apply step_op. Qed.

(** C1. The invariant of the builds table, whatever the clients do: a pending
    build has neither a start nor an end, a running one has a start and no end, a
    finished one has an end; counters stay in range; and at most one build of a
    derivation is running. *)
Theorem lifecycle_invariant w :
  reachable w →
  (∀ id b, w_builds w !! id = Some b → b_id b = id ∧ wf_build b) ∧
  (∀ i j b c, w_builds w !! i = Some b → w_builds w !! j = Some c →
     b_status b = Running → b_status c = Running →
     b_drv_path b = b_drv_path c → i = j).
Proof. by intros ?%inv_reachable. Qed.

Lemma lifecycle_invariant_witness :
  ∃ b, w_builds (exec (OStart 10) example_world) !! 10 = Some b ∧ b_status b = Running ∧
    wf_build b.
Proof.
  assert (reachable (exec (OStart 10) example_world)) as Hr.
  { apply (rtc_r _ example_world); [apply example_world_reachable|by apply step_op]. }
  destruct (w_builds (exec (OStart 10) example_world) !! 10) as [b|] eqn:Hb;
    [|by vm_compute in Hb].
  exists b. split; [reflexivity|]. split; [vm_compute in Hb; by injection Hb as <-|].
  apply (proj1 (lifecycle_invariant _ Hr) 10 b Hb).
Defined.

(** [UPDATE] without faults, as a function. *)
Lemma update_no_fault id guard f w :
  w_faults w = [] →
  Sql.update id guard f w =
  match w_builds w !! id with
  | Some b =>
      if guard b then
        match f b with
        | Some b' => (Ok (Some b'), set_w_builds (<[id := b']> (w_builds w)) w)
        | None => (Err (Database "integer out of range"), w)
        end
      else (Ok None, w)
  | None => (Ok None, w)
  end.
Proof. intros Hf. unfold Sql.update, query. by rewrite Hf. Qed.

Lemma running_twin_true drv t i c :
  t !! i = Some c → b_drv_path c = drv → b_status c = Running →
  Sql.running_twin drv t = true.
Proof.
  intros Hc Hd Hs. destruct (Sql.running_twin drv t) eqn:E; [done|].
  by destruct (running_twin_false drv t i c E Hc Hd).
Qed.

(** Claiming is exclusive: without a database failure [start] answers; it claims
    exactly a pending build whose derivation is neither locked nor running, marking
    that row alone as running; from then on no build of the derivation, this one
    included, can be claimed, whoever asks; and a refusal changes nothing. *)
Theorem start_is_exclusive id w :
  w_faults w = [] →
  ∃ r w1, builds.start id w = (Ok r, w1) ∧
  match r with
  | Some b' => ∃ b, w_builds w !! id = Some b ∧ b_status b = Pending ∧
      (b_drv_path b ∉ w_locks w) ∧
      (∀ j c, w_builds w !! j = Some c → b_drv_path c = b_drv_path b →
         b_status c ≠ Running) ∧
      w_builds w1 = <[id := b']> (w_builds w) ∧
      b_status b' = Running ∧ b_started_at b' = Some (w_now w) ∧
      ∀ j c, w_builds w1 !! j = Some c → b_drv_path c = b_drv_path b →
        builds.start j w1 = (Ok None, w1)
  | None => w1 = w ∧ ∀ b, w_builds w !! id = Some b →
      b_status b ≠ Pending ∨ b_drv_path b ∈ w_locks w ∨
      ∃ j c, w_builds w !! j = Some c ∧ b_drv_path c = b_drv_path b ∧ b_status c = Running
  end.
Proof.
  intros Hf. unfold builds.start, Sql.start. rewrite update_no_fault by done.
  destruct (w_builds w !! id) as [b|] eqn:Hb; [|by exists None, w].
  destruct (Sql.has_status Pending b) eqn:Hp; simpl; cycle 1.
  { exists None, w. split_and!; [done..|]. intros ? [= <-]. left.
    by apply bool_decide_eq_false in Hp. }
  apply has_status_true in Hp.
  case_bool_decide as Hl; simpl.
  { exists None, w. split_and!; [done..|]. intros ? [= <-]. auto. }
  destruct (Sql.running_twin _ _) eqn:Ht; simpl.
  { exists None, w. split_and!; [done..|]. intros ? [= <-]. right. right.
    apply existsb_exists in Ht as (c & Hc & Hst).
    apply andb_true_iff in Hst as [Hd%bool_decide_eq_true Hs%has_status_true].
    apply list_elem_of_In, list_elem_of_fmap in Hc as ([j c'] & -> & Hc).
    exists j, c'. by apply elem_of_map_to_list in Hc. }
  eexists (Some _), _. split; [reflexivity|]. exists b.
  split_and!; try done; [by intros; eapply running_twin_false|].
  intros j c Hc Hd. rewrite update_no_fault by done. rewrite Hc.
  assert (Sql.running_twin (b_drv_path c)
    (<[id := Sql.set_running (w_now w) b]> (w_builds w)) = true) as Hr.
  { eapply (running_twin_true _ _ id); [apply lookup_insert_eq|by rewrite Hd|done]. }
  simpl. by rewrite Hr, andb_false_r.
Qed.

Lemma start_is_exclusive_witness :
  ∃ b' w1, builds.start 10 example_world = (Ok (Some b'), w1) ∧
    builds.start 10 w1 = (Ok None, w1).
Proof.
  destruct (start_is_exclusive 10 example_world eq_refl) as (r & w1 & Hs & Hr).
  destruct r as [b'|].
  - exists b', w1. split; [exact Hs|]. destruct Hr as (b & Hb & _ & _ & _ & Hw & _ & _ & Hx).
    apply (Hx 10 b'); [by rewrite Hw, lookup_insert_eq|].
    vm_compute in Hs. injection Hs as <- _. vm_compute in Hb. by injection Hb as <-.
  - exfalso. apply (f_equal (λ x, match x.1 with Ok None => true | _ => false end)) in Hs.
    vm_compute in Hs. done.
Defined.

(** Requeueing after an infrastructure loss never touches a build that is not
    running (finished or cancelled meanwhile) and never counts a retry, also when
    the statement fails. *)
Theorem requeue_protects id w j b :
  w_builds w !! j = Some b →
  ∃ b', w_builds (exec (ORequeue id) w) !! j = Some b' ∧
    b_retry_count b' = b_retry_count b ∧
    (b_status b ≠ Running → b' = b) ∧
    (b_status b = Running → b_status b' = Running ∨ b_status b' = Pending).
Proof.
  intros Hj. cbn [exec]. unfold builds.requeue, Sql.requeue.
  destruct (update_builds id (Sql.has_status Running)
    (λ b, Some (Sql.set_pending (b_retry_count b) b)) w)
    as [->|(c & c' & Hc & Hg%has_status_true & [= <-] & ->)]; [by exists b; auto|].
  rewrite lookup_insert. case_decide; [|by exists b; auto]. subst j.
  rewrite Hc in Hj. injection Hj as ->.
  eexists. split; [done|]. split_and!; [done|congruence|by auto].
Qed.

Lemma requeue_protects_witness :
  ∃ b b', w_builds example_world !! 10 = Some b ∧
    w_builds (exec (ORequeue 10) example_world) !! 10 = Some b' ∧ b' = b.
Proof.
  destruct (w_builds example_world !! 10) as [b|] eqn:E; [|by vm_compute in E].
  destruct (requeue_protects 10 example_world 10 b E) as (b' & H1 & _ & H2 & _).
  exists b, b'. split_and!; [done|done|]. apply H2.
  vm_compute in E. by injection E as <-.
Defined.

(** A cancellation does not survive a late worker: after [cancel], [complete]
    and [retry] still find the row, whatever its status, and put it into the
    state the worker reports (or back into the queue). *)
Theorem cancellation_is_overwritten w id b s l o e :
  w_faults w = [] → w_builds w !! id = Some b → Sql.active b = true →
  I32_MIN ≤ b_retry_count b < I32_MAX →
  let w1 := exec (OCancel id) w in
  (b_status <$> w_builds w1 !! id) = Some Cancelled ∧
  (b_status <$> w_builds (exec (OComplete id s l o e) w1) !! id) = Some s ∧
  (b_status <$> w_builds (exec (ORetry id) w1) !! id) = Some Pending.
Proof.
  intros Hf Hb Ha Hr w1. subst w1. cbn [exec].
  unfold builds.cancel, builds.complete, builds.retry.
  rewrite !snd_or_not_found, !snd_bind_unit.
  unfold Sql.cancel, Sql.complete, Sql.retry.
  rewrite !(update_no_fault id Sql.active), Hb, Ha by done. simpl.
  rewrite !(update_no_fault id (λ _, true)) by done. simpl.
  rewrite !lookup_insert_eq. simpl. split; [done|]. rewrite lookup_insert_eq.
  split; [done|]. unfold Sql.i32_ok, b_retry_count in *. simpl.
  replace (_ && _) with true; [simpl; by rewrite lookup_insert_eq|].
  symmetry. rewrite andb_true_iff, !Z.leb_le. lia.
Qed.

Lemma cancellation_is_overwritten_witness :
  let w1 := exec (OCancel 10) example_world in
  (b_status <$> w_builds w1 !! 10) = Some Cancelled ∧
  (b_status <$> w_builds (exec (OComplete 10 Succeeded None None None) w1) !! 10)
    = Some Succeeded ∧
  (b_status <$> w_builds (exec (ORetry 10) w1) !! 10) = Some Pending.
Proof.
  destruct (w_builds example_world !! 10) as [b|] eqn:E; [|by vm_compute in E].
  assert (b = Sql.new_build 10 0 example_input) as ->.
  { vm_compute in E. vm_compute. by injection E as <-. }
  apply (cancellation_is_overwritten example_world 10
    (Sql.new_build 10 0 example_input) Succeeded None None None eq_refl E eq_refl).
  by vm_compute.
Defined.
