(* ===== verification/Cascade.v ===== *)
(** * Cancelling a build and its dependents

    [builds::cancel_cascade] walks the dependency table with an explicit stack
    while the statements it issues change the builds table under it.  Without
    database failures it terminates and cancels exactly the active builds that
    depend on the target through active builds. *)

From S2P Require Import Prelude Types Float32 Db Builds Lifecycle.

Section cascade.
Context (w : World) (target : Uuid) (Hfaults : w_faults w = []).

(** The world with another builds table. *)
Definition at_table (t : gmap Z Build) : World := set_w_builds t w.

Definition cancel_now (b : Build) : Build := Sql.set_cancelled (w_now w) b.

(** Active builds that depend on the target through active builds. *)
Inductive depends_on_target : Uuid → Prop :=
  | depends_direct d b :
      (d, target) ∈ w_deps w → w_builds w !! d = Some b → Sql.active b = true →
      depends_on_target d
  | depends_via x d b :
      depends_on_target x →
      (d, x) ∈ w_deps w → w_builds w !! d = Some b → Sql.active b = true →
      depends_on_target d.

(** Row [j] of [t] was cancelled by the walk, and is [b]. *)
Definition cancelled_at (t : gmap Z Build) (j : Uuid) (b : Build) : Prop :=
  ∃ b0, w_builds w !! j = Some b0 ∧ Sql.active b0 = true ∧
    b = cancel_now b0 ∧ t !! j = Some b ∧ (j = target ∨ depends_on_target j).

(** Every row is as it was or cancelled by the walk. *)
Definition sound (t : gmap Z Build) : Prop :=
  ∀ j, t !! j = w_builds w !! j ∨ ∃ b, cancelled_at t j b.

(** The dependents of what has been popped are no longer active. *)
Definition closed (t : gmap Z Build) (stack : list Uuid) : Prop :=
  ∀ x d b, (x = target ∨ ∃ c, cancelled_at t x c) → x ∉ stack →
    (d, x) ∈ w_deps w → t !! d = Some b → Sql.active b = false.

(** The result list holds the rows the walk cancelled. *)
Definition recorded (t : gmap Z Build) (l : list Build) : Prop :=
  ∀ b, b ∈ l ↔ ∃ j, cancelled_at t j b.

(** Everything on the stack may be expanded. *)
Definition expandable (t : gmap Z Build) (stack : list Uuid) : Prop :=
  ∀ x, x ∈ stack → x = target ∨ ∃ c, cancelled_at t x c.

Lemma active_cancel_now b : Sql.active (cancel_now b) = false.
Proof. done. Qed.

Lemma try_cancel d t :
  mtry (builds.cancel d) (at_table t) =
  match t !! d with
  | Some b =>
      if Sql.active b
      then (Ok (Ok (cancel_now b)), at_table (<[d := cancel_now b]> t))
      else (Ok (Err (NotFound ("Build " +:+ pretty d +:+
              " not found or not in a cancellable state"))), at_table t)
  | None => (Ok (Err (NotFound ("Build " +:+ pretty d +:+
              " not found or not in a cancellable state"))), at_table t)
  end.
Proof.
  unfold mtry, builds.cancel, or_not_found, mbind, Sql.cancel.
  rewrite update_no_fault by done. simpl. by destruct (t !! d) as [b|]; [destruct (Sql.active b)|].
Qed.

Lemma dependents_query x t :
  Sql.cancel_cascade_dependents x (at_table t) =
  (Ok (fst <$> List.filter (λ d, d.2 =? x) (w_deps w)), at_table t).
Proof.
  unfold Sql.cancel_cascade_dependents, read, query. simpl. by rewrite Hfaults.
Qed.

Lemma elem_of_dependents x d :
  d ∈ (fst <$> List.filter (λ p, p.2 =? x) (w_deps w)) ↔ (d, x) ∈ w_deps w.
Proof.
  rewrite list_elem_of_fmap. split.
  - intros ([d' x'] & -> & Hin%list_elem_of_In%List.filter_In).
    destruct Hin as [Hin Hx]. simpl in Hx. apply Z.eqb_eq in Hx as ->.
    by apply list_elem_of_In.
  - intros Hin. exists (d, x). split; [done|].
    apply list_elem_of_In, List.filter_In. split; [by apply list_elem_of_In|].
    apply Z.eqb_refl.
Qed.

(** The number of active rows. *)
Definition actives (t : gmap Z Build) : nat := length (List.filter Sql.active (rows t)).

Lemma actives_insert d b b' t :
  t !! d = Some b → Sql.active b = true → Sql.active b' = false →
  actives t = S (actives (<[d := b']> t)).
Proof.
  intros Hd Hb Hb'. unfold actives.
  assert (Hlen : ∀ l l' : list Build, l ≡ₚ l' →
    length (List.filter Sql.active l) = length (List.filter Sql.active l')).
  { induction 1; simpl; repeat case_match; simpl; lia. }
  assert (Hins : ∀ c, length (List.filter Sql.active (rows (<[d := c]> (delete d t)))) =
    length (List.filter Sql.active (c :: rows (delete d t)))).
  { intros c. apply Hlen. unfold rows.
    by rewrite map_to_list_insert by apply lookup_delete_eq. }
  rewrite <-(insert_delete_id t d b Hd) at 1.
  rewrite <-(insert_delete_eq t d b'), !Hins. simpl. by rewrite Hb, Hb'.
Qed.

(** Cancelling one more dependent keeps what was cancelled. *)
Lemma cancelled_at_insert t d b j c :
  t !! d = Some b → Sql.active b = true →
  cancelled_at t j c → cancelled_at (<[d := cancel_now b]> t) j c.
Proof.
  intros Hd Hb (b0 & H1 & H2 & -> & H4 & H5). exists b0. split_and!; try done.
  rewrite lookup_insert. case_decide; [|done]. subst j.
  rewrite Hd in H4. injection H4 as ->. by rewrite active_cancel_now in Hb.
Qed.
Lemma sound_active t j b :
  sound t → t !! j = Some b → Sql.active b = true → w_builds w !! j = Some b.
Proof.
  intros Hs Hj Hb. destruct (Hs j) as [<-|(c & b0 & _ & _ & -> & Hc & _)]; [done|].
  rewrite Hj in Hc. injection Hc as ->. by rewrite active_cancel_now in Hb.
Qed.

(** One dependent [d] of [x] is cancelled. *)
Lemma cancel_one t x d b l stack :
  sound t → recorded t l → expandable t stack →
  (x = target ∨ ∃ c, cancelled_at t x c) → (d, x) ∈ w_deps w →
  t !! d = Some b → Sql.active b = true →
  let t' := <[d := cancel_now b]> t in
  sound t' ∧ recorded t' (l ++ [cancel_now b]) ∧ expandable t' (d :: stack).
Proof.
  intros Hs Hl He Hx Hdep Hd Hb t'.
  pose proof (sound_active t d b Hs Hd Hb) as Hw.
  assert (Hnew : cancelled_at t' d (cancel_now b)).
  { exists b. split_and!; try done; [unfold t'; by rewrite lookup_insert_eq|]. right.
    destruct Hx as [->|(c & b0 & Hx0 & Hx1 & _ & _ & [->|Hx2])].
    - by eapply depends_direct.
    - by eapply depends_direct.
    - by eapply depends_via. }
  assert (Hkeep : ∀ j c, cancelled_at t j c → cancelled_at t' j c)
    by (intros; by apply cancelled_at_insert).
  split_and!.
  - intros j. destruct (decide (d = j)) as [<-|Hne]; [by right; eexists|].
    destruct (Hs j) as [Hj|[c Hc]]; [left|right; eauto].
    unfold t'. by rewrite lookup_insert_ne.
  - intros c. rewrite elem_of_app, list_elem_of_singleton, (Hl c). split.
    + intros [[j Hj]| ->]; [by exists j; apply Hkeep|by exists d].
    + intros (j & b0 & H1 & H2 & H3 & H4 & H5). unfold t' in H4.
      destruct (decide (d = j)) as [<-|Hne].
      * rewrite lookup_insert_eq in H4. injection H4 as <-. by right.
      * rewrite lookup_insert_ne in H4 by done. left. exists j, b0. by split_and!.
  - intros y [->|Hy]%elem_of_cons; [by right; eexists|].
    destruct (He y Hy) as [->|[c Hc]]; [by left|right; eauto].
Qed.

(** The inner loop over the dependents of [x]. *)
Lemma cancel_dependents_spec x deps t stack l :
  sound t → recorded t l → expandable t stack →
  (x = target ∨ ∃ c, cancelled_at t x c) →
  (∀ d, d ∈ deps → (d, x) ∈ w_deps w) →
  ∃ t' pushed l', builds.cancel_dependents deps stack l (at_table t) =
      (Ok (pushed ++ stack, l'), at_table t') ∧
    sound t' ∧ recorded t' l' ∧ expandable t' (pushed ++ stack) ∧
    (length pushed + actives t' = actives t)%nat ∧
    (∀ d b, d ∈ deps → t' !! d = Some b → Sql.active b = false) ∧
    (∀ d b, t' !! d = Some b → Sql.active b = true → t !! d = Some b) ∧
    (∀ j c, cancelled_at t' j c → cancelled_at t j c ∨ j ∈ pushed).
Proof.
  revert t stack l. induction deps as [|d deps IH]; intros t stack l Hs Hl He Hx Hdeps.
  { exists t, [], l. split_and!; auto. by intros d b ?%elem_of_nil. }
  cbn [builds.cancel_dependents]. unfold mbind at 1. rewrite try_cancel.
  assert (Hdep : (d, x) ∈ w_deps w) by (apply Hdeps; left).
  assert (Hdeps' : ∀ d, d ∈ deps → (d, x) ∈ w_deps w) by (intros; apply Hdeps; by right).
  destruct (t !! d) as [b|] eqn:Hd; [destruct (Sql.active b) eqn:Hb|].
  - destruct (cancel_one t x d b l stack Hs Hl He Hx Hdep Hd Hb) as (Hs' & Hl' & He').
    destruct (IH _ _ _ Hs' Hl' He') as (t' & pushed & l' & -> & H1 & H2 & H3 & H4 & H5 & H6 & H7);
      [|done|].
    { destruct Hx as [->|[c Hc]]; [by left|right]. exists c. by apply cancelled_at_insert. }
    exists t', (pushed ++ [d]), l'. rewrite <-app_assoc. split_and!; try done.
    + rewrite length_app. simpl.
      rewrite (actives_insert d b (cancel_now b) t Hd Hb (active_cancel_now b)). lia.
    + intros e c He2 Hc. destruct (Sql.active c) eqn:Hac; [|done].
      apply elem_of_cons in He2 as [->|He2]; [|by rewrite (H5 e c He2 Hc) in Hac].
      pose proof (H6 d c Hc Hac) as Hdc. rewrite lookup_insert_eq in Hdc.
      injection Hdc as <-. by rewrite active_cancel_now in Hac.
    + intros e c Hc Hac. specialize (H6 e c Hc Hac). rewrite lookup_insert in H6.
      case_decide; [|done]. subst e. injection H6 as <-.
      by rewrite active_cancel_now in Hac.
    + intros j c Hc. rewrite elem_of_app, list_elem_of_singleton.
      destruct (decide (d = j)) as [->|Hne]; [by auto|].
      destruct (H7 j c Hc) as [(b0 & K1 & K2 & K3 & K4 & K5)|?]; [|by auto].
      left. exists b0. rewrite lookup_insert_ne in K4 by done. by split_and!.
  - destruct (IH t stack l Hs Hl He Hx Hdeps')
      as (t' & pushed & l' & -> & H1 & H2 & H3 & H4 & H5 & H6 & H7).
    exists t', pushed, l'. split_and!; try done.
    intros e c [->|He2]%elem_of_cons Hc; [|by eapply H5].
    destruct (Sql.active c) eqn:Hac; [|done]. pose proof (H6 d c Hc Hac). congruence.
  - destruct (IH t stack l Hs Hl He Hx Hdeps')
      as (t' & pushed & l' & -> & H1 & H2 & H3 & H4 & H5 & H6 & H7).
    exists t', pushed, l'. split_and!; try done.
    intros e c [->|He2]%elem_of_cons Hc; [|by eapply H5].
    destruct (Sql.active c) eqn:Hac; [|done]. pose proof (H6 d c Hc Hac). congruence.
Qed.
(** The outer loop empties the stack and leaves a sound, closed table. *)
Lemma cancel_loop_spec fuel t stack l :
  sound t → recorded t l → expandable t stack → closed t stack →
  (length stack + actives t ≤ fuel)%nat →
  ∃ t' l', builds.cancel_loop fuel stack l (at_table t) = (Ok (Some l'), at_table t') ∧
    sound t' ∧ recorded t' l' ∧ closed t' [] ∧
    (∀ j c, cancelled_at t j c → cancelled_at t' j c).
Proof.
  revert t stack l. induction fuel as [|fuel IH]; intros t stack l Hs Hl He Hc Hfuel.
  { destruct stack; simpl in Hfuel; [|lia]. exists t, l. by split_and!. }
  destruct stack as [|x stack]; [exists t, l; by split_and!|].
  cbn [builds.cancel_loop]. unfold mbind at 1. rewrite dependents_query.
  assert (Hx : x = target ∨ ∃ c, cancelled_at t x c) by (apply He; left).
  assert (He' : expandable t stack) by (intros y Hy; apply He; by right).
  destruct (cancel_dependents_spec x (fst <$> List.filter (λ d, d.2 =? x) (w_deps w))
    t stack l Hs Hl He' Hx) as (t' & pushed & l' & Heq & H1 & H2 & H3 & H4 & H5 & H6 & H7).
  { intros d. by rewrite elem_of_dependents. }
  unfold mbind. rewrite Heq. simpl in Hfuel.
  assert (Hkeep : ∀ j c, cancelled_at t j c → cancelled_at t' j c).
  { intros j c (b0 & K1 & K2 & -> & K4 & K5). exists b0. split_and!; try done.
    destruct (H1 j) as [Hj|(c & b1 & L1 & L2 & -> & L4 & L5)]; [|congruence].
    rewrite K1 in Hj. pose proof (H6 j b0 Hj K2) as K. rewrite K4 in K.
    injection K as K. by rewrite <-K in K2. }
  destruct (IH t' (pushed ++ stack) l' H1 H2 H3) as (t'' & l'' & -> & ? & ? & ? & Hk).
  - intros y d b Hy Hni Hdep Hd. destruct (decide (y = x)) as [->|Hne].
    { apply (H5 d b); [by apply elem_of_dependents|done]. }
    destruct (Sql.active b) eqn:Hb; [|done]. pose proof (H6 d b Hd Hb) as Hd0.
    rewrite not_elem_of_app in Hni. destruct Hni as [Hni1 Hni2].
    assert (Hy0 : y = target ∨ ∃ c, cancelled_at t y c).
    { destruct Hy as [->|[c Hy]]; [by left|]. destruct (H7 y c Hy); [by right; exists c|done]. }
    rewrite <-(Hc y d b Hy0); [done| |done|done]. by rewrite not_elem_of_cons.
  - rewrite length_app. lia.
  - exists t'', l''. split_and!; auto.
Qed.

(** Once the stack is empty every dependent is cancelled. *)
Lemma complete_when_closed t :
  sound t → closed t [] → ∀ d, depends_on_target d → ∃ b, cancelled_at t d b.
Proof.
  intros Hs Hc.
  assert (Hone : ∀ x d b, (x = target ∨ ∃ c, cancelled_at t x c) → (d, x) ∈ w_deps w →
    w_builds w !! d = Some b → Sql.active b = true → ∃ c, cancelled_at t d c).
  { intros x d b Hx Hdep Hd Hb. destruct (Hs d) as [Hd'|?]; [|done].
    rewrite Hd in Hd'. by rewrite (Hc x d b Hx (not_elem_of_nil x) Hdep Hd') in Hb. }
  induction 1 as [d b ? ? ?|x d b _ IH ? ? ?];
    [eapply (Hone target)|eapply (Hone x)]; eauto.
Qed.
End cascade.

(** ** Properties *)

(** The builds a cascade from [id] cancels. *)
Definition cascades_to (w : World) (id j : Uuid) : Prop :=
  (∃ b, w_builds w !! j = Some b ∧ Sql.active b = true) ∧
  (j = id ∨ depends_on_target w id j).

(** The walk started after the target itself was cancelled, if it was active. *)
Lemma cascade_start w id :
  w_faults w = [] →
  ∃ t l, builds.cancel_cascade id w =
      builds.cancel_loop (S (builds.active_count w)) [id] l (at_table w t) ∧
    sound w id t ∧ recorded w id t l ∧ expandable w id t [id] ∧ closed w id t [id] ∧
    (S (actives t) ≤ S (builds.active_count w))%nat ∧
    (∀ b, w_builds w !! id = Some b → Sql.active b = true →
       cancelled_at w id t id (cancel_now w b)).
Proof.
  intros Hf. unfold builds.cancel_cascade, mbind at 1.
  assert (at_table w (w_builds w) = w) as Hw by (by destruct w).
  assert (mtry (builds.cancel id) w =
    mtry (builds.cancel id) (at_table w (w_builds w))) as -> by (by rewrite Hw).
  rewrite try_cancel by done.
  assert (Hnone : ∀ j c, cancelled_at w id (w_builds w) j c → False).
  { intros j c (b0 & H1 & H2 & -> & H4 & _). rewrite H1 in H4. injection H4 as H4.
    by rewrite H4 in H2. }
  assert (Hnop : ∀ l, l = [] → sound w id (w_builds w) ∧ recorded w id (w_builds w) l ∧
    expandable w id (w_builds w) [id] ∧ closed w id (w_builds w) [id]).
  { intros l ->. split_and!.
    - by left.
    - intros b. split; [by intros ?%elem_of_nil|]. by intros [j Hj%Hnone].
    - intros x ->%list_elem_of_singleton. by left.
    - intros x d b [->|[c Hc%Hnone]] Hni; [|done]. destruct Hni. left. }
  destruct (w_builds w !! id) as [b|] eqn:Hb; [destruct (Sql.active b) eqn:Ha|].
  2,3: (exists (w_builds w), []; destruct (Hnop [] eq_refl) as (? & ? & ? & ?);
    split_and!; try done; intros; congruence).
  set (t := <[id := cancel_now w b]> (w_builds w)).
  assert (Hid : cancelled_at w id t id (cancel_now w b)).
  { exists b. split_and!; try done; [unfold t; by rewrite lookup_insert_eq|by left]. }
  assert (Hother : ∀ j c, cancelled_at w id t j c → j = id).
  { intros j c (b0 & H1 & H2 & -> & H4 & H5). destruct (decide (id = j)); [done|].
    unfold t in H4. rewrite lookup_insert_ne in H4 by done.
    destruct (Hnone j (cancel_now w b0)). exists b0. by split_and!. }
  exists t, [cancel_now w b]. split_and!; try done.
  - intros j. destruct (decide (id = j)) as [<-|Hne]; [by right; eexists|left].
    unfold t. by rewrite lookup_insert_ne.
  - intros c. rewrite list_elem_of_singleton. split; [intros ->; by exists id|].
    intros [j Hj]. pose proof (Hother _ _ Hj) as ->.
    destruct Hj as (b0 & H1 & _ & -> & _). congruence.
  - intros x ->%list_elem_of_singleton. by left.
  - intros x d c [->|[e He%Hother]] Hni; destruct Hni; [left|subst; left].
  - pose proof (actives_insert id b (cancel_now w b) (w_builds w) Hb Ha eq_refl).
    unfold t, builds.active_count, actives in *. lia.
  - intros b' Hb' _. congruence.
Qed.

(** C35. [cancel_cascade] terminates and, when no statement fails, changes the
    builds table exactly so: the target, if it is active, and every active build
    that depends on it through active builds become cancelled as of now, and
    every other row is untouched; the result lists exactly the rows cancelled. *)
Theorem cancel_cascade_exact w id :
  w_faults w = [] →
  ∃ l w', builds.cancel_cascade id w = (Ok (Some l), w') ∧ w_deps w' = w_deps w ∧
    (∀ j b, cascades_to w id j → w_builds w !! j = Some b →
       w_builds w' !! j = Some (Sql.set_cancelled (w_now w) b)) ∧
    (∀ j, ¬ cascades_to w id j → w_builds w' !! j = w_builds w !! j) ∧
    (∀ c, c ∈ l ↔ ∃ j b, cascades_to w id j ∧ w_builds w !! j = Some b ∧
       c = Sql.set_cancelled (w_now w) b).
Proof.
  intros Hf. destruct (cascade_start w id Hf)
    as (t & l & -> & Hs & Hl & He & Hc & Hfuel & Hid).
  destruct (cancel_loop_spec w id Hf (S (builds.active_count w)) t [id] l Hs Hl He Hc)
    as (t' & l' & -> & Hs' & Hl' & Hc' & Hk); [simpl; lia|].
  assert (Hall : ∀ j b, cascades_to w id j → w_builds w !! j = Some b →
    cancelled_at w id t' j (cancel_now w b)).
  { intros j b [(b' & Hj & Ha) Hr] Hb. assert (b' = b) as -> by congruence.
    destruct Hr as [->|Hr]; [by apply Hk, Hid|].
    destruct (complete_when_closed w id t' Hs' Hc' j Hr) as (c & b0 & K1 & K2 & -> & K).
    assert (b0 = b) as -> by congruence. by exists b. }
  exists l', (at_table w t'). split_and!; try done.
  - intros j b Hj Hb. by destruct (Hall j b Hj Hb) as (? & ? & ? & ? & ? & ?).
  - intros j Hj. destruct (Hs' j) as [?|(c & b0 & K1 & K2 & -> & K4 & K5)]; [done|].
    destruct Hj. split; [by exists b0|done].
  - intros c. rewrite (Hl' c). split.
    + intros (j & b0 & K1 & K2 & -> & K4 & K5). exists j, b0. split_and!; try done.
      split; [by exists b0|done].
    + intros (j & b & Hj & Hb & ->). exists j. by apply Hall.
Qed.

Lemma cancel_cascade_exact_witness :
  ∃ l w', builds.cancel_cascade 10 example_world = (Ok (Some l), w') ∧
    (∀ j b, cascades_to example_world 10 j → w_builds example_world !! j = Some b →
       w_builds w' !! j = Some (Sql.set_cancelled 0 b)).
Proof.
  destruct (cancel_cascade_exact example_world 10 eq_refl)
    as (l & w' & H1 & _ & H2 & _). by exists l, w'.
Defined.
