(* ===== verification/PendingQueue.v ===== *)
(** * The scheduling query

    What [builds::list_pending] promises the scheduler loop: only builds that can
    run now, the most urgent ones first, and none left out before the limit is
    reached. *)

From S2P Require Import Prelude Types Float32 Db Builds Lifecycle.

(** A build that may be scheduled now, in terms of the tables. *)
Definition schedulable (w : World) (b : Build) : Prop :=
  w_builds w !! b_id b = Some b ∧ b_status b = Pending ∧
  (∀ d dep, (b_id b, d) ∈ w_deps w → w_builds w !! d = Some dep →
     b_status dep = Succeeded) ∧
  (∀ i c, w_builds w !! i = Some c → b_drv_path c = b_drv_path b →
     b_status c ≠ Running) ∧
  ∃ e j, w_evaluations w !! b_evaluation_id b = Some e ∧
    w_jobsets w !! e_jobset_id e = Some j ∧ 0 < j_scheduling_shares j.

(** Jobset rows carry their key. *)
Definition jobset_keys (w : World) : Prop :=
  ∀ i j, w_jobsets w !! i = Some j → j_id j = i.

Lemma has_status_iff s b : Sql.has_status s b = true ↔ b_status b = s.
Proof. apply bool_decide_eq_true. Qed.

Lemma has_status_false s b : Sql.has_status s b = false ↔ b_status b ≠ s.
Proof. apply bool_decide_eq_false. Qed.

Lemma existsb_false {A} (p : A → bool) l :
  existsb p l = false ↔ ∀ x, x ∈ l → p x = false.
Proof.
  split.
  - intros H x Hx. destruct (p x) eqn:E; [|done].
    assert (existsb p l = true); [|congruence].
    apply existsb_exists. exists x. split; [by apply list_elem_of_In|done].
  - intros H. destruct (existsb p l) eqn:E; [|done].
    apply existsb_exists in E as (x & Hx%list_elem_of_In & Hp). by rewrite H in Hp.
Qed.

Lemma open_dep_false w id :
  Sql.has_open_dep id w = false ↔
  ∀ d dep, (id, d) ∈ w_deps w → w_builds w !! d = Some dep → b_status dep = Succeeded.
Proof.
  unfold Sql.has_open_dep. rewrite existsb_false.
  assert (Hd : ∀ d, d ∈ Sql.deps_of id w ↔ (id, d) ∈ w_deps w).
  { intros d. unfold Sql.deps_of. rewrite list_elem_of_fmap. split.
    - intros ([i d'] & -> & [Hin Hi]%list_elem_of_In%List.filter_In). simpl in *.
      apply Z.eqb_eq in Hi as ->. by apply list_elem_of_In.
    - intros Hin. exists (id, d). split; [done|].
      apply list_elem_of_In, List.filter_In. split; [by apply list_elem_of_In|].
      apply Z.eqb_refl. }
  split.
  - intros H d dep Hin Hdep. specialize (H d (proj2 (Hd d) Hin)). rewrite Hdep in H.
    by apply negb_false_iff, has_status_iff in H.
  - intros H d Hin%Hd. destruct (w_builds w !! d) as [dep|] eqn:Hdep; [|done].
    apply negb_false_iff, has_status_iff. by eapply H.
Qed.

Lemma twin_false w drv :
  Sql.running_twin drv (w_builds w) = false ↔
  ∀ i c, w_builds w !! i = Some c → b_drv_path c = drv → b_status c ≠ Running.
Proof.
  split; [intros H i c; by apply running_twin_false|].
  intros H. unfold Sql.running_twin. apply existsb_false.
  intros c [i Hi]%elem_of_rows. case_bool_decide as Hd; [|done]. simpl.
  apply has_status_false. by eapply H.
Qed.

Lemma eligible_iff w b :
  Sql.eligible w b = true ↔
  b_status b = Pending ∧
  (∀ d dep, (b_id b, d) ∈ w_deps w → w_builds w !! d = Some dep →
     b_status dep = Succeeded) ∧
  (∀ i c, w_builds w !! i = Some c → b_drv_path c = b_drv_path b →
     b_status c ≠ Running).
Proof.
  unfold Sql.eligible.
  rewrite !andb_true_iff, !negb_true_iff, has_status_iff, open_dep_false, twin_false.
  tauto.
Qed.

(** The candidate rows of the query are the schedulable builds. *)
Lemma candidate_iff w b :
  inv w → jobset_keys w →
  b ∈ List.filter (Sql.pending_candidate w) (rows (w_builds w)) ↔ schedulable w b.
Proof.
  intros [Hwf _] Hj. rewrite list_elem_of_In, List.filter_In, <-list_elem_of_In.
  rewrite elem_of_rows. unfold Sql.pending_candidate.
  rewrite andb_true_iff, eligible_iff. unfold schedulable. split.
  - intros [[i Hi] [(Hp & Hd & Ht) Hjob]].
    assert (Hrow : w_builds w !! b_id b = Some b)
      by (destruct (Hwf i b Hi) as [-> _]; done).
    split_and!; try done. unfold Sql.jobset_of, obind in Hjob.
    destruct (w_evaluations w !! _) as [e|] eqn:He; [|done].
    destruct (w_jobsets w !! _) as [j|] eqn:Hjj; [|done].
    exists e, j. split_and!; try done.
    apply andb_true_iff in Hjob as [?%Z.ltb_lt _]. done.
  - intros (Hrow & Hp & Hd & Ht & e & j & He & Hjj & Hs).
    split; [by exists (b_id b)|]. split; [done|].
    unfold Sql.jobset_of, obind. rewrite He, Hjj. unfold Sql.active_jobset.
    rewrite andb_true_iff, Z.ltb_lt. split; [done|].
    apply existsb_exists. exists b. split; [by apply list_elem_of_In, elem_of_rows; exists (b_id b)|].
    rewrite He, andb_true_iff, eligible_iff. split; [done|].
    apply Z.eqb_eq. symmetry. by apply Hj.
Qed.

(** ** The order *)

Definition queue_cmp (w : World) (capacity : Z) (a b : Build) : comparison :=
  lex_cmp (Sql.pending_key w capacity a) (Sql.pending_key w capacity b).

Lemma key_last w capacity b : last (Sql.pending_key w capacity b) = Some (b_id b).
Proof.
  unfold Sql.pending_key. destruct (Sql.jobset_of w b) as [j|]; [|done].
  pose proof (sf_key_length (Sql.share_deficit w capacity j)).
  by destruct (sf_key _) as [|? [|? [|? []]]].
Qed.

Lemma queue_cmp_total w capacity :
  inv w → total_on (queue_cmp w capacity) (λ b, b ∈ rows (w_builds w)).
Proof.
  intros [Hwf _]. apply (total_on_key _ _ (Sql.pending_key w capacity)); [done|].
  intros x y [i Hi]%elem_of_rows [j Hj]%elem_of_rows Hk.
  apply (f_equal last) in Hk. rewrite !key_last in Hk. injection Hk as Hk.
  destruct (Hwf i x Hi) as [Hx _], (Hwf j y Hj) as [Hy _].
  congruence.
Qed.

Lemma queue_le_priority w capacity a b :
  cmp_le (queue_cmp w capacity) a b → b_priority b ≤ b_priority a.
Proof.
  unfold cmp_le, queue_cmp, Sql.pending_key. simpl. intros H.
  destruct (Z.compare_spec (- b_priority a) (- b_priority b)); [lia|lia|].
  by simpl in H.
Qed.

Lemma rows_nodup w : inv w → NoDup (rows (w_builds w)).
Proof.
  intros [Hwf _]. unfold rows. apply NoDup_fmap_2_strong; [|apply NoDup_map_to_list].
  intros [i b] [j c] Hi%elem_of_map_to_list Hj%elem_of_map_to_list Heq. simpl in Heq.
  subst c. destruct (Hwf i b Hi) as [<- _], (Hwf j b Hj) as [<- _]. done.
Qed.

(** ** Properties *)

(** C34. The pending queue, on a consistent database and when the query does not
    fail: it yields at most [limit] builds, each schedulable now and listed once,
    in non-increasing priority; and a schedulable build is left out only when the
    limit is reached by builds of at least its priority. *)
Theorem list_pending_top_k w limit capacity :
  reachable w → jobset_keys w → w_faults w = [] → 0 ≤ limit →
  ∃ l, builds.list_pending limit capacity w = (Ok l, w) ∧
    NoDup l ∧ Z.of_nat (length l) ≤ limit ∧
    (∀ b, b ∈ l → schedulable w b) ∧
    StronglySorted (λ a b, b_priority b ≤ b_priority a) l ∧
    (∀ b, schedulable w b → b ∉ l →
       Z.of_nat (length l) = limit ∧ ∀ c, c ∈ l → b_priority b ≤ b_priority c).
Proof.
  intros Hinv%inv_reachable Hjk Hf Hlim.
  unfold builds.list_pending, Sql.list_pending, read, query. rewrite Hf.
  fold (queue_cmp w capacity).
  set (cand := List.filter (Sql.pending_candidate w) (rows (w_builds w))).
  set (s := sort_by (queue_cmp w capacity) cand).
  assert (Hperm : s ≡ₚ cand) by apply sort_by_perm.
  assert (Hcand : Forall (λ b, b ∈ rows (w_builds w)) cand).
  { apply Forall_forall. intros b [Hb _]%list_elem_of_In%List.filter_In.
    by apply list_elem_of_In. }
  assert (Hsorted : StronglySorted (cmp_le (queue_cmp w capacity)) s)
    by exact (sort_by_sorted _ _ (queue_cmp_total w capacity Hinv) cand Hcand).
  assert (Hs : StronglySorted (λ a b, b_priority b ≤ b_priority a) s).
  { eapply strongly_sorted_impl; [|exact Hsorted]. apply queue_le_priority. }
  assert (Hnd : NoDup s).
  { rewrite Hperm. apply NoDup_ListNoDup, List.NoDup_filter, NoDup_ListNoDup.
    by apply rows_nodup. }
  set (n := Z.to_nat limit).
  assert (Hsplit : take n s ++ drop n s = s) by apply take_drop.
  rewrite <-Hsplit in Hs, Hnd.
  exists (take n s). split_and!.
  - done.
  - by apply NoDup_app in Hnd as (? & _ & _).
  - pose proof (length_take_le s n). rewrite length_take. lia.
  - intros b Hb. apply (candidate_iff w b Hinv Hjk). fold cand. rewrite <-Hperm, <-Hsplit.
    apply elem_of_app. by left.
  - by apply StronglySorted_app_1_l in Hs.
  - intros b Hb Hni. apply (candidate_iff w b Hinv Hjk) in Hb. fold cand in Hb.
    rewrite <-Hperm, <-Hsplit, elem_of_app in Hb. destruct Hb as [Hb|Hb]; [done|].
    split.
    + assert (drop n s ≠ []) as Hne by (by intros E; rewrite E in Hb; apply elem_of_nil in Hb).
      assert (n < length s)%nat.
      { destruct (decide (n < length s)%nat); [done|]. destruct Hne. apply drop_ge. lia. }
      rewrite length_take. lia.
    + intros c Hc. by apply (StronglySorted_app_1_elem_of _ _ _ c b Hs).
Qed.

Definition example_evaluation : Evaluation :=
  {| e_id := 1; e_jobset_id := 2; e_commit_hash := "abc"; e_evaluation_time := 0;
     e_status := EvaluationStatus.Completed; e_error_message := None;
     e_inputs_hash := None; e_trigger_kind := EvaluationTriggerKind.SourceChange;
     e_hidden := false; e_pr_number := None; e_pr_head_branch := None;
     e_pr_base_branch := None; e_pr_action := None; e_source_scope := None;
     e_superseded_by := None; e_source_base_commit := None; e_started_at := None;
     e_orphaned_count := 0 |}.

Definition example_jobset : Jobset :=
  {| j_id := 2; j_project_id := 3; j_name := "main"; j_nix_expression := "hydraJobs";
     j_enabled := true; j_flake_mode := true; j_check_interval := 60;
     j_trigger_mode := JobsetTriggerMode.SourceChange; j_branch := Some "main";
     j_branch_pattern := None; j_tag_pattern := None; j_scheduling_shares := 100;
     j_created_at := 0; j_updated_at := 0; j_state := JobsetState.OneAtATime;
     j_last_checked_at := None; j_keep_nr := 3; j_systems := None;
     j_only_build_latest := false; j_path_filters := [] |}.

(** [example_world] with the evaluation and the jobset of its build. *)
Definition queue_world : World :=
  set_w_builds (w_builds example_world) (set_w_evaluations {[ 1 := example_evaluation ]}
    (set_w_jobsets {[ 2 := example_jobset ]} (set_w_now 5 empty_world))).

Lemma queue_world_reachable : reachable queue_world.
Proof. eapply rtc_r; [apply example_world_reachable|]. by apply step_env. Qed.

Lemma queue_world_keys : jobset_keys queue_world.
Proof. intros i j H. change (({[ 2 := example_jobset ]} : gmap Z Jobset) !! i = Some j) in H.
  by apply lookup_singleton_Some in H as [<- <-]. Qed.

Lemma list_pending_top_k_witness :
  ∃ l, builds.list_pending 10 4 queue_world = (Ok l, queue_world) ∧ length l = 1%nat ∧
    ∀ b, b ∈ l → schedulable queue_world b.
Proof.
  destruct (list_pending_top_k queue_world 10 4 queue_world_reachable queue_world_keys
    eq_refl ltac:(lia)) as (l & H1 & _ & _ & H2 & _).
  exists l. split_and!; [exact H1| |exact H2].
  apply (f_equal (λ r, match r.1 with Ok l => length l | Err _ => 0%nat end)) in H1.
  simpl in H1. rewrite <-H1. by vm_compute.
Defined.
