(* ===== verification/Builders.v ===== *)
(** * Builders: agent sessions and SSH builders

    [crates/common/src/repo/builder_sessions.rs] and
    [crates/common/src/repo/remote_builders.rs] with their statements
    ([queries/builder_sessions.sql], [queries/remote_builders.sql]): registration,
    heartbeats, failure backoff, pruning, and the reconciliation of the declared
    SSH builders, which is exact or has no effect ([sync_all_exact]). *)

From S2P Require Import Prelude Types Float32 Pool Db Builds.

(** ** Failure backoff

    [60 * 3^(min(failures + 1, 4) - 1)] seconds plus [(random() * 30)::int];
    [jitter] is the latter. *)

Definition bump_failures (failures : Z) : Z := Z.min (failures + 1) 4.

Definition backoff_secs (failures jitter : Z) : Z :=
  60 * 3 ^ (bump_failures failures - 1) + jitter.

(** ** [builder_sessions] *)

Module builder_sessions.

Definition no_metrics : SessionMetrics :=
  {| sm_load1 := None; sm_load5 := None; sm_load15 := None; sm_cpu_psi_avg10 := None;
     sm_mem_psi_avg10 := None; sm_io_psi_avg10 := None; sm_mem_total := None;
     sm_mem_used := None; sm_store_free := None; sm_build_dir_free := None |}.

(** [UPDATE builder_sessions SET .. WHERE machine_id = ..]. *)
Definition update (id : Uuid) (f : World → BuilderSession → BuilderSession) : M () :=
  query (λ w, (Ok (), set_w_sessions (alter (f w) id (w_sessions w)) w)).

Definition succeeded_row (w : World) (s : BuilderSession) : BuilderSession :=
  {| bs_reg := bs_reg s; bs_metrics := bs_metrics s; bs_last_seen := bs_last_seen s;
     bs_current_jobs := bs_current_jobs s; bs_connected := bs_connected s;
     bs_builds_succeeded := bs_builds_succeeded s + 1;
     bs_builds_failed := bs_builds_failed s; bs_consecutive_failures := 0;
     bs_disabled_until := None; bs_created_at := bs_created_at s;
     bs_updated_at := w_now w |}.

Definition failed_row (jitter : Z) (w : World) (s : BuilderSession) : BuilderSession :=
  {| bs_reg := bs_reg s; bs_metrics := bs_metrics s; bs_last_seen := bs_last_seen s;
     bs_current_jobs := bs_current_jobs s; bs_connected := bs_connected s;
     bs_builds_succeeded := bs_builds_succeeded s;
     bs_builds_failed := bs_builds_failed s + 1;
     bs_consecutive_failures := bump_failures (bs_consecutive_failures s);
     bs_disabled_until := Some (w_now w +
       Sql.secs (backoff_secs (bs_consecutive_failures s) jitter));
     bs_created_at := bs_created_at s; bs_updated_at := w_now w |}.

Definition record_outcome (jitter : Z) (id : Uuid) (succeeded : bool) : M () :=
  if succeeded then update id succeeded_row else update id (failed_row jitter).

(** [disabled_until IS NULL OR disabled_until <= NOW()]. *)
Definition schedulable_row (w : World) (s : BuilderSession) : bool :=
  match bs_disabled_until s with Some t => t <=? w_now w | None => true end.

Definition is_schedulable (id : Uuid) : M bool :=
  read (λ w, match w_sessions w !! id with
             | Some s => schedulable_row w s
             | None => false
             end).

Definition stale_ephemeral (ttl_secs : Z) (w : World) (s : BuilderSession) : bool :=
  sr_ephemeral (bs_reg s) &&
  (negb (bs_connected s) &&
     match bs_last_seen s with
     | None => true
     | Some t => t <? w_now w - Sql.secs ttl_secs
     end
   || bs_connected s &&
     match bs_last_seen s with
     | None => false
     | Some t => t <? w_now w - Sql.secs ttl_secs
     end).

(** [agent_machine_id REFERENCES builder_sessions ON DELETE SET NULL]. *)
Definition forget_agent (t : gmap Z BuilderSession) (b : Build) : Build :=
  match b_agent_machine_id b with
  | Some m => if bool_decide (is_Some (t !! m)) then b
              else set_b_agent_machine_id None b
  | None => b
  end.

Definition prune_stale_ephemeral (ttl_secs : Z) : M Z :=
  query (λ w,
    let stale := stale_ephemeral ttl_secs w in
    let kept := filter (λ ks, stale ks.2 = false) (w_sessions w) in
    (Ok (Z.of_nat (length (List.filter stale (rows (w_sessions w))))),
     set_w_builds (forget_agent kept <$> w_builds w) (set_w_sessions kept w))).

Definition disconnected_row (s : BuilderSession) : BuilderSession :=
  {| bs_reg := bs_reg s; bs_metrics := bs_metrics s; bs_last_seen := bs_last_seen s;
     bs_current_jobs := bs_current_jobs s; bs_connected := false;
     bs_builds_succeeded := bs_builds_succeeded s;
     bs_builds_failed := bs_builds_failed s;
     bs_consecutive_failures := bs_consecutive_failures s;
     bs_disabled_until := bs_disabled_until s; bs_created_at := bs_created_at s;
     bs_updated_at := bs_updated_at s |}.

Definition touched (w : World) (s : BuilderSession) : BuilderSession :=
  {| bs_reg := bs_reg s; bs_metrics := bs_metrics s; bs_last_seen := bs_last_seen s;
     bs_current_jobs := bs_current_jobs s; bs_connected := bs_connected s;
     bs_builds_succeeded := bs_builds_succeeded s;
     bs_builds_failed := bs_builds_failed s;
     bs_consecutive_failures := bs_consecutive_failures s;
     bs_disabled_until := bs_disabled_until s; bs_created_at := bs_created_at s;
     bs_updated_at := w_now w |}.

Definition reset_all_connected : M Z :=
  query (λ w,
    (Ok (Z.of_nat (length (List.filter bs_connected (rows (w_sessions w))))),
     set_w_sessions
       ((λ s, if bs_connected s then disconnected_row s else s) <$> w_sessions w) w)).

(** [INSERT .. ON CONFLICT (machine_id) DO UPDATE]; the name is unique. *)
Definition register (r : RegisterSession) : M () :=
  query (λ w,
    if existsb (λ s, bool_decide (sr_name (bs_reg s) = sr_name r) &&
                     negb (sr_machine_id (bs_reg s) =? sr_machine_id r))
         (rows (w_sessions w))
    then (Err (Database "unique violation"), w)
    else
      let row :=
        match w_sessions w !! sr_machine_id r with
        | Some s =>
            {| bs_reg := r; bs_metrics := bs_metrics s; bs_last_seen := Some (w_now w);
               bs_current_jobs := bs_current_jobs s; bs_connected := true;
               bs_builds_succeeded := bs_builds_succeeded s;
               bs_builds_failed := bs_builds_failed s;
               bs_consecutive_failures := bs_consecutive_failures s;
               bs_disabled_until := bs_disabled_until s;
               bs_created_at := bs_created_at s; bs_updated_at := w_now w |}
        | None =>
            {| bs_reg := r; bs_metrics := no_metrics; bs_last_seen := Some (w_now w);
               bs_current_jobs := 0; bs_connected := true; bs_builds_succeeded := 0;
               bs_builds_failed := 0; bs_consecutive_failures := 0;
               bs_disabled_until := None; bs_created_at := w_now w;
               bs_updated_at := w_now w |}
        end in
      (Ok (), set_w_sessions (<[sr_machine_id r := row]> (w_sessions w)) w)).

Definition mark_disconnected (id : Uuid) : M () :=
  update id (λ w s, touched w (disconnected_row s)).

Definition touch (id : Uuid) : M () := update id touched.

Definition heartbeat (id : Uuid) (m : SessionMetrics) (current_jobs : Z) : M () :=
  update id (λ w s,
    {| bs_reg := bs_reg s; bs_metrics := m; bs_last_seen := Some (w_now w);
       bs_current_jobs := current_jobs; bs_connected := bs_connected s;
       bs_builds_succeeded := bs_builds_succeeded s;
       bs_builds_failed := bs_builds_failed s;
       bs_consecutive_failures := bs_consecutive_failures s;
       bs_disabled_until := bs_disabled_until s; bs_created_at := bs_created_at s;
       bs_updated_at := w_now w |}).

Definition get (id : Uuid) : M BuilderSession :=
  or_not_found ("Builder session " +:+ pretty id +:+ " not found")
    (read (λ w, w_sessions w !! id)).
End builder_sessions.

(** ** [remote_builders] *)

Inductive BuilderSchedulingStrategy :=
  | SpeedFactorOnly
  | CpuCoreCountWithSpeedFactor
  | Dynamic.

Module remote_builders.

Definition not_found (id : Uuid) : string :=
  "Remote builder " +:+ pretty id +:+ " not found".

Definition find_name (name : string) (t : gmap Z RemoteBuilder) :
    option RemoteBuilder :=
  List.find (λ r, bool_decide (rs_name (rb_params r) = name)) (rows t).

Definition set_params (p : RemoteBuilderParams) (r : RemoteBuilder) : RemoteBuilder :=
  {| rb_id := rb_id r; rb_params := p; rb_created_at := rb_created_at r;
     rb_consecutive_failures := rb_consecutive_failures r;
     rb_disabled_until := rb_disabled_until r; rb_last_failure := rb_last_failure r;
     rb_cpu_cores := rb_cpu_cores r |}.

(** The inserted row; the key is generated. *)
Definition new_row (now : DateTime) (p : RemoteBuilderParams)
    (t : gmap Z RemoteBuilder) : RemoteBuilder :=
  {| rb_id := fresh (dom t); rb_params := p; rb_created_at := now;
     rb_consecutive_failures := 0; rb_disabled_until := None; rb_last_failure := None;
     rb_cpu_cores := None |}.

(** [CreateRemoteBuilder], with its defaults. *)
Definition create (p : RemoteBuilderParams) : M RemoteBuilder :=
  query (λ w,
    match find_name (rs_name p) (w_remote_builders w) with
    | Some _ => (Err (Conflict ("Remote builder '" +:+ rs_name p +:+
                                "' already exists")), w)
    | None =>
        let r := new_row (w_now w) p (w_remote_builders w) in
        (Ok r, set_w_remote_builders (<[rb_id r := r]> (w_remote_builders w)) w)
    end).

Definition get (id : Uuid) : M RemoteBuilder :=
  or_not_found (not_found id) (read (λ w, w_remote_builders w !! id)).

Definition available (w : World) (system : string) (r : RemoteBuilder) : bool :=
  rs_enabled (rb_params r) && str_in system (rs_systems (rb_params r)) &&
  match rb_disabled_until r with Some t => t <? w_now w | None => true end.

Definition active_builds (w : World) (r : RemoteBuilder) : Z :=
  Z.of_nat (length (List.filter
    (λ b, Sql.has_status Running b && bool_decide (b_builder_id b = Some (rb_id r)))
    (rows (w_builds w)))).

(** The rank of the [ORDER BY .. DESC] of each strategy. *)
Definition rank (strategy : BuilderSchedulingStrategy) (w : World)
    (r : RemoteBuilder) : Z :=
  match strategy with
  | SpeedFactorOnly => rs_speed_factor (rb_params r)
  | CpuCoreCountWithSpeedFactor =>
      default 1 (rb_cpu_cores r) * rs_speed_factor (rb_params r)
  | Dynamic =>
      (rs_max_jobs (rb_params r) - active_builds w r) * rs_speed_factor (rb_params r)
  end.

(** The product of two [INTEGER] columns is an [INTEGER]; the count is a
    [BIGINT], and so is the product with it. *)
Definition rank_ok (strategy : BuilderSchedulingStrategy) (z : Z) : bool :=
  match strategy with
  | SpeedFactorOnly => true
  | CpuCoreCountWithSpeedFactor => Sql.i32_ok z
  | Dynamic => (I64_MIN <=? z) && (z <=? I64_MAX)
  end.

Definition find_for_system (system : string) (strategy : BuilderSchedulingStrategy) :
    M (list RemoteBuilder) :=
  query (λ w,
    let found := List.filter (available w system) (rows (w_remote_builders w)) in
    if forallb (λ r, rank_ok strategy (rank strategy w r)) found
    then (Ok (sort_by (λ a b, rank strategy w b ?= rank strategy w a) found), w)
    else (Err (Database "integer out of range"), w)).

Definition update_row (id : Uuid) (f : World → RemoteBuilder → RemoteBuilder) :
    M RemoteBuilder :=
  or_not_found (not_found id)
    (query (λ w,
       match w_remote_builders w !! id with
       | Some r => (Ok (Some (f w r)),
           set_w_remote_builders (<[id := f w r]> (w_remote_builders w)) w)
       | None => (Ok None, w)
       end)).

Definition record_failure (jitter : Z) (id : Uuid) : M RemoteBuilder :=
  update_row id (λ w r,
    {| rb_id := rb_id r; rb_params := rb_params r; rb_created_at := rb_created_at r;
       rb_consecutive_failures := bump_failures (rb_consecutive_failures r);
       rb_disabled_until := Some (w_now w +
         Sql.secs (backoff_secs (rb_consecutive_failures r) jitter));
       rb_last_failure := Some (w_now w); rb_cpu_cores := rb_cpu_cores r |}).

Definition record_success (id : Uuid) : M RemoteBuilder :=
  update_row id (λ _ r,
    {| rb_id := rb_id r; rb_params := rb_params r; rb_created_at := rb_created_at r;
       rb_consecutive_failures := 0; rb_disabled_until := None;
       rb_last_failure := rb_last_failure r; rb_cpu_cores := rb_cpu_cores r |}).

(** [builds.builder_id REFERENCES remote_builders], without an [ON DELETE]
    action: a referenced builder cannot go. *)
Definition referenced (w : World) (id : Uuid) : bool :=
  existsb (λ b, bool_decide (b_builder_id b = Some id)) (rows (w_builds w)).

(** [DELETE .. WHERE cond]: all matching rows or, when one is referenced, none. *)
Definition delete_where (cond : RemoteBuilder → bool) : M Z :=
  query (λ w,
    let doomed := List.filter cond (rows (w_remote_builders w)) in
    if existsb (λ r, referenced w (rb_id r)) doomed
    then (Err (Database "foreign key violation"), w)
    else (Ok (Z.of_nat (length doomed)),
          set_w_remote_builders
            (filter (λ kr, cond kr.2 = false) (w_remote_builders w)) w)).

Definition delete (id : Uuid) : M () :=
  let! affected := delete_where (λ r, rb_id r =? id) in
  if affected =? 0 then mfail (NotFound (not_found id)) else mret ().

Definition count : M Z := read (λ w, Z.of_nat (size (w_remote_builders w))).

Definition coalesce {A} (a b : option A) : option A :=
  match a with Some _ => a | None => b end.

(** [ON CONFLICT (name) DO UPDATE]: everything from the declaration, except that
    a missing key keeps the stored one. *)
Definition merge_params (p old : RemoteBuilderParams) : RemoteBuilderParams :=
  {| rs_name := rs_name old; rs_ssh_uri := rs_ssh_uri p; rs_systems := rs_systems p;
     rs_max_jobs := rs_max_jobs p; rs_speed_factor := rs_speed_factor p;
     rs_supported_features := rs_supported_features p;
     rs_mandatory_features := rs_mandatory_features p; rs_enabled := rs_enabled p;
     rs_public_host_key := coalesce (rs_public_host_key p) (rs_public_host_key old);
     rs_ssh_key_file := coalesce (rs_ssh_key_file p) (rs_ssh_key_file old) |}.

Definition upserted (w : World) (p : RemoteBuilderParams) : RemoteBuilder :=
  match find_name (rs_name p) (w_remote_builders w) with
  | Some r => set_params (merge_params p (rb_params r)) r
  | None => new_row (w_now w) p (w_remote_builders w)
  end.

Definition upsert (p : RemoteBuilderParams) : M RemoteBuilder :=
  query (λ w,
    let r := upserted w p in
    (Ok r, set_w_remote_builders (<[rb_id r := r]> (w_remote_builders w)) w)).

Fixpoint upsert_all (builders : list RemoteBuilderParams) : M () :=
  match builders with
  | [] => mret ()
  | p :: builders => let! _ := upsert p in upsert_all builders
  end.

Definition sync_all (builders : list RemoteBuilderParams) : M () :=
  let! _ := delete_where (λ r, negb (str_in (rs_name (rb_params r)) (rs_name <$> builders))) in
  upsert_all builders.
End remote_builders.

(** ** Lemmas *)

Module Names.
Import remote_builders.

(** Rows carry their key, and names are unique. *)
Definition wf (t : gmap Z RemoteBuilder) : Prop :=
  (∀ i r, t !! i = Some r → rb_id r = i) ∧
  (∀ i j r s, t !! i = Some r → t !! j = Some s →
     rs_name (rb_params r) = rs_name (rb_params s) → i = j).

Lemma elem_rows {A} (t : gmap Z A) x : In x (rows t) ↔ ∃ i, t !! i = Some x.
Proof.
  rewrite <-list_elem_of_In. unfold rows. rewrite list_elem_of_fmap. split.
  - intros ([i y] & -> & H%elem_of_map_to_list). by exists i.
  - intros [i Hi]. exists (i, x). split; [done|]. by apply elem_of_map_to_list.
Qed.

Lemma find_name_some t n r :
  find_name n t = Some r → (∃ i, t !! i = Some r) ∧ rs_name (rb_params r) = n.
Proof. intros [H1%elem_rows H2%bool_decide_eq_true]%List.find_some. done. Qed.

Lemma find_name_none t n i r :
  find_name n t = None → t !! i = Some r → rs_name (rb_params r) ≠ n.
Proof.
  intros Hf Hi Hn. assert (In r (rows t)) as Hin by (apply elem_rows; by exists i).
  pose proof (List.find_none _ _ Hf r Hin) as H. apply bool_decide_eq_false in H.
  done.
Qed.

Lemma find_name_row t n i r :
  wf t → t !! i = Some r → rs_name (rb_params r) = n → find_name n t = Some r.
Proof.
  intros Hwf Hi Hn. destruct (find_name n t) as [s|] eqn:Hf.
  - destruct (find_name_some _ _ _ Hf) as [[j Hj] Hs].
    assert (i = j) as <- by (eapply Hwf; eauto; congruence). congruence.
  - by destruct (find_name_none _ _ _ _ Hf Hi).
Qed.

Lemma str_in_iff s l : str_in s l = true ↔ s ∈ l.
Proof.
  unfold str_in. rewrite existsb_exists. split.
  - intros (x & Hx%list_elem_of_In & ->%bool_decide_eq_true). done.
  - intros Hs. exists s. split; [by apply list_elem_of_In|by apply bool_decide_eq_true].
Qed.

(** The row [r] says what [p] declares, column by column: a key that is not declared is that
    of the row [old] there was, whose identity and history the row keeps. *)
Record declares (p : RemoteBuilderParams) (old : option RemoteBuilder) (r : RemoteBuilder) :
    Prop := {
  db_name : rs_name (rb_params r) = rs_name p;
  db_ssh_uri : rs_ssh_uri (rb_params r) = rs_ssh_uri p;
  db_systems : rs_systems (rb_params r) = rs_systems p;
  db_max_jobs : rs_max_jobs (rb_params r) = rs_max_jobs p;
  db_speed_factor : rs_speed_factor (rb_params r) = rs_speed_factor p;
  db_supported : rs_supported_features (rb_params r) = rs_supported_features p;
  db_mandatory : rs_mandatory_features (rb_params r) = rs_mandatory_features p;
  db_enabled : rs_enabled (rb_params r) = rs_enabled p;
  db_host_key : rs_public_host_key (rb_params r) =
    match rs_public_host_key p, old with
    | Some k, _ => Some k
    | None, Some o => rs_public_host_key (rb_params o)
    | None, None => None
    end;
  db_key_file : rs_ssh_key_file (rb_params r) =
    match rs_ssh_key_file p, old with
    | Some k, _ => Some k
    | None, Some o => rs_ssh_key_file (rb_params o)
    | None, None => None
    end;
  db_history :
    match old with
    | Some o => rb_id r = rb_id o ∧ rb_created_at r = rb_created_at o ∧
                rb_consecutive_failures r = rb_consecutive_failures o ∧
                rb_disabled_until r = rb_disabled_until o ∧ rb_last_failure r = rb_last_failure o
    | None => rb_consecutive_failures r = 0 ∧ rb_disabled_until r = None ∧ rb_last_failure r = None
    end;
}.

Lemma upserted_declares w p : declares p (find_name (rs_name p) (w_remote_builders w)) (upserted w p).
Proof.
  unfold upserted. destruct (find_name _ _) as [old|] eqn:Hf.
  - apply find_name_some in Hf as [_ Hn]. split; simpl; try done; by case_match.
  - split; simpl; try done; by case_match.
Qed.

(** What an upsert does to a well-formed table. *)
Lemma upserted_spec w p (t := w_remote_builders w) (r := upserted w p) :
  wf t →
  rs_name (rb_params r) = rs_name p ∧ wf (<[rb_id r := r]> t) ∧
  (∀ n, n ≠ rs_name p → find_name n (<[rb_id r := r]> t) = find_name n t) ∧
  declares p (find_name (rs_name p) t) r.
Proof.
  intros Hwf. destruct Hwf as [Hid Huniq].
  assert (Hr : rs_name (rb_params r) = rs_name p ∧
    (∀ i s, t !! i = Some s → rs_name (rb_params s) = rs_name p → i = rb_id r) ∧
    (∀ s, t !! rb_id r = Some s → rs_name (rb_params s) = rs_name p)).
  { unfold r, upserted. fold t. destruct (find_name (rs_name p) t) as [old|] eqn:Hf.
    - destruct (find_name_some _ _ _ Hf) as [[i Hi] Hn]. simpl.
      pose proof (Hid i old Hi). subst i. split_and!; try done.
      + intros j s Hj Hs. eapply Huniq; eauto. congruence.
      + intros s Hs. congruence.
    - simpl. split_and!; try done.
      + intros i s Hi Hs. by destruct (find_name_none _ _ _ _ Hf Hi).
      + intros s Hs. apply elem_of_dom_2 in Hs. by apply is_fresh in Hs. }
  destruct Hr as (Hn & Honly & Hsame).
  assert (Hwf' : wf (<[rb_id r := r]> t)).
  { split.
    - intros i s. rewrite lookup_insert. case_decide; [|apply Hid]. by intros [= <-].
    - intros i j s s'. rewrite !lookup_insert. repeat case_decide; subst;
        intros Hs Hs' Heq; simplify_eq; try done; [| |by eapply Huniq].
      + symmetry. eapply Honly; eauto. congruence.
      + eapply Honly; eauto. congruence. }
  split_and!; try done; [|apply upserted_declares]. intros n Hne.
  destruct (find_name n t) as [s|] eqn:Hf.
  - destruct (find_name_some _ _ _ Hf) as [[i Hi] Hs].
    apply (find_name_row _ _ i); [done| |done]. rewrite lookup_insert_ne; [done|].
    intros <-. apply Hsame in Hi. congruence.
  - destruct (find_name n (<[rb_id r:=r]> t)) as [s|] eqn:Hf'; [|done].
    destruct (find_name_some _ _ _ Hf') as [[i Hi] Hs].
    rewrite lookup_insert in Hi. case_decide; [congruence|].
    by destruct (find_name_none _ _ _ _ Hf Hi).
Qed.

(** The loop of [sync_all] without faults. *)
Lemma upsert_all_spec ps w :
  w_faults w = [] → wf (w_remote_builders w) → NoDup (rs_name <$> ps) →
  ∃ w', upsert_all ps w = (Ok (), w') ∧ wf (w_remote_builders w') ∧
    (∀ p, p ∈ ps → ∃ r, find_name (rs_name p) (w_remote_builders w') = Some r ∧
       declares p (find_name (rs_name p) (w_remote_builders w)) r) ∧
    w' = set_w_remote_builders (w_remote_builders w') w ∧
    (∀ n, n ∉ rs_name <$> ps →
       find_name n (w_remote_builders w') = find_name n (w_remote_builders w)).
Proof.
  revert w. induction ps as [|p ps IH]; intros w Hf Hwf Hnd.
  { exists w. split_and!; try done; [by intros p ?%elem_of_nil|by destruct w]. }
  cbn [upsert_all]. unfold mbind, upsert, query. rewrite Hf. cbv zeta.
  destruct (upserted_spec w p Hwf) as (Hn & Hwf' & Hother & Hp).
  set (r := upserted w p) in *.
  set (w1 := set_w_remote_builders (<[rb_id r := r]> (w_remote_builders w)) w).
  apply NoDup_cons in Hnd as [Hni Hnd].
  destruct (IH w1 Hf Hwf' Hnd) as (w' & -> & H1 & H2 & Hframe & H3).
  exists w'. split_and!; try done.
  - intros q [->|Hq]%elem_of_cons.
    + exists r. split; [|done]. rewrite H3 by done.
      apply (find_name_row _ _ (rb_id r)); [done|apply lookup_insert_eq|done].
    + destruct (H2 q Hq) as (s & Hs & Hs'). exists s. split; [done|].
      simpl in Hs'. rewrite Hother in Hs'; [done|]. intros E. apply Hni. rewrite <-E.
      by apply list_elem_of_fmap_2.
  - intros n Hnn. rewrite fmap_cons, not_elem_of_cons in Hnn. destruct Hnn.
    rewrite H3 by done. by apply Hother.
Qed.
End Names.

(** ** Properties *)

Lemma backoff_bounds failures jitter :
  0 ≤ failures → 0 ≤ jitter ≤ 30 →
  1 ≤ bump_failures failures ≤ 4 ∧ 60 ≤ backoff_secs failures jitter ≤ 1650.
Proof.
  unfold backoff_secs, bump_failures. intros.
  assert (1 ≤ Z.min (failures + 1) 4 ≤ 4) as Hb by lia. split; [done|].
  remember (Z.min (failures + 1) 4 - 1) as k.
  assert (k = 0 ∨ k = 1 ∨ k = 2 ∨ k = 3) as [-> | [-> | [-> | ->]]] by lia; simpl; lia.
Qed.

(** Failure backoff of an agent: a failed build takes the agent out of
    scheduling for between 60 and 1650 seconds from now, the exact moment being
    [60 * 3^(n-1)] seconds plus the jitter after [n] consecutive failures with
    [n] capped at 4; a successful build puts it back at once. *)
Theorem agent_backoff w id s jitter :
  w_faults w = [] → w_sessions w !! id = Some s →
  0 ≤ bs_consecutive_failures s → 0 ≤ jitter ≤ 30 →
  (∃ s', w_sessions (builder_sessions.record_outcome jitter id false w).2 !! id = Some s' ∧
    1 ≤ bs_consecutive_failures s' ≤ 4 ∧
    ∃ d, 60 ≤ d ≤ 1650 ∧
      d = 60 * 3 ^ (bs_consecutive_failures s' - 1) + jitter ∧
      ∀ w', builder_sessions.schedulable_row w' s' = (w_now w + d * 1000000 <=? w_now w')) ∧
  (∃ s', w_sessions (builder_sessions.record_outcome jitter id true w).2 !! id = Some s' ∧
    bs_consecutive_failures s' = 0 ∧
    ∀ w', builder_sessions.schedulable_row w' s' = true).
Proof.
  intros Hf Hs Hc Hj.
  destruct (backoff_bounds _ _ Hc Hj) as [Hb Hd].
  unfold builder_sessions.record_outcome, builder_sessions.update, query. rewrite Hf.
  simpl. rewrite !lookup_alter_eq, Hs. simpl. split.
  - eexists. split; [done|]. split; [done|].
    exists (backoff_secs (bs_consecutive_failures s) jitter). done.
  - eexists. split; [done|]. done.
Qed.

Definition example_session : BuilderSession :=
  {| bs_reg := {| sr_machine_id := 7; sr_name := "ci-1"; sr_hostname := "ci-1";
       sr_systems := ["x86_64-linux"]; sr_supported_features := [];
       sr_mandatory_features := []; sr_speed_factor := f32_of_u32 1; sr_cpu_count := 4;
       sr_max_jobs := 1; sr_proto_version := "circus-proto/2"; sr_ephemeral := true;
       sr_auth_kind := "oidc" |};
     bs_metrics := builder_sessions.no_metrics; bs_last_seen := None;
     bs_current_jobs := 0; bs_connected := false; bs_builds_succeeded := 0;
     bs_builds_failed := 0; bs_consecutive_failures := 0; bs_disabled_until := None;
     bs_created_at := 0; bs_updated_at := 0 |}.

Definition session_world : World := set_w_sessions {[ 7 := example_session ]} empty_world.

Lemma agent_backoff_witness :
  ∃ s', w_sessions (builder_sessions.record_outcome 5 7 false session_world).2 !! 7 = Some s' ∧
    bs_consecutive_failures s' = 1.
Proof.
  destruct (agent_backoff session_world 7 example_session 5 eq_refl eq_refl
    ltac:(done) ltac:(lia)) as [(s' & H1 & _) _].
  exists s'. split; [exact H1|]. vm_compute in H1. by injection H1 as <-.
Defined.

(** Pruning: a session that is not ephemeral is never deleted, a connected one
    only when it was seen and not within the time to live, and a disconnected
    ephemeral one is deleted also when it was never seen. *)
Theorem prune_exact w ttl id s :
  w_faults w = [] → w_sessions w !! id = Some s →
  let w' := (builder_sessions.prune_stale_ephemeral ttl w).2 in
  w_sessions w' !! id =
    (if sr_ephemeral (bs_reg s) &&
        match bs_last_seen s with
        | Some t => t <? w_now w - ttl * 1000000
        | None => negb (bs_connected s)
        end
     then None else Some s) ∧
  (sr_ephemeral (bs_reg s) = true → bs_connected s = false → bs_last_seen s = None →
     w_sessions w' !! id = None).
Proof.
  intros Hf Hs w'. subst w'. unfold builder_sessions.prune_stale_ephemeral, query.
  rewrite Hf. simpl.
  assert (Hl : filter (λ ks : Z * BuilderSession,
      builder_sessions.stale_ephemeral ttl w ks.2 = false) (w_sessions w) !! id =
    if builder_sessions.stale_ephemeral ttl w s then None else Some s).
  { destruct (builder_sessions.stale_ephemeral ttl w s) eqn:E.
    - apply map_lookup_filter_None. right. intros x Hx.
      assert (x = s) as -> by congruence. simpl. by rewrite E.
    - by apply map_lookup_filter_Some. }
  rewrite Hl. unfold builder_sessions.stale_ephemeral, Sql.secs.
  destruct (sr_ephemeral (bs_reg s)), (bs_connected s), (bs_last_seen s) as [t|]; simpl;
    rewrite ?orb_false_r; done.
Qed.

Lemma prune_exact_witness :
  w_sessions (builder_sessions.prune_stale_ephemeral 3600 session_world).2 !! 7 = None.
Proof.
  apply (prune_exact session_world 3600 7 example_session eq_refl eq_refl);
    reflexivity.
Defined.

(** A builder that is not declared has run a build. *)
Definition blocked (ps : list RemoteBuilderParams) (w : World) : Prop :=
  ∃ i r j b, w_remote_builders w !! i = Some r ∧ ¬ (rs_name (rb_params r) ∈ rs_name <$> ps) ∧
    w_builds w !! j = Some b ∧ b_builder_id b = Some i.

(** The first statement of the synchronisation. *)
Lemma delete_undeclared ps w :
  w_faults w = [] → Names.wf (w_remote_builders w) →
  let declared r := rs_name (rb_params r) ∈ (rs_name <$> ps) in
  match remote_builders.delete_where
          (λ r, negb (str_in (rs_name (rb_params r)) (rs_name <$> ps))) w with
  | (Err e, w') => e = Database "foreign key violation" ∧ w' = w ∧ blocked ps w
  | (Ok _, w') => ¬ blocked ps w ∧ w_faults w' = [] ∧
      w' = set_w_remote_builders (w_remote_builders w') w ∧
      ∀ i r, w_remote_builders w' !! i = Some r ↔ w_remote_builders w !! i = Some r ∧ declared r
  end.
Proof.
  intros Hf Hwf. cbn zeta. set (gone := λ r, negb (str_in (rs_name (rb_params r)) (rs_name <$> ps))).
  assert (Hgone : ∀ r, gone r = false ↔ rs_name (rb_params r) ∈ rs_name <$> ps).
  { intros r. unfold gone. by rewrite negb_false_iff, Names.str_in_iff. }
  unfold remote_builders.delete_where, query. rewrite Hf.
  assert (Hex : existsb (λ r, remote_builders.referenced w (rb_id r))
      (List.filter gone (rows (w_remote_builders w))) = true ↔ blocked ps w).
  { rewrite existsb_exists. unfold blocked, remote_builders.referenced. split.
    - intros (r & [[i Hi]%Names.elem_rows Hg]%List.filter_In & (b & [j Hj]%Names.elem_rows & Hb)%existsb_exists).
      apply bool_decide_eq_true in Hb. rewrite (proj1 Hwf i r Hi) in Hb. exists i, r, j, b.
      split_and!; try done. intros H%Hgone. congruence.
    - intros (i & r & j & b & Hi & Hn & Hj & Hb). exists r. split.
      + apply List.filter_In. split; [apply Names.elem_rows; by exists i|].
        apply not_false_is_true. by intros H%Hgone.
      + apply existsb_exists. exists b. split; [apply Names.elem_rows; by exists j|].
        apply bool_decide_eq_true. by rewrite (proj1 Hwf i r Hi). }
  destruct (existsb _ _) eqn:E; [split_and!; [done..|]; by apply Hex|].
  split; [intros Hb%Hex; congruence|]. split_and!; [done..|].
  intros i r. simpl. rewrite map_lookup_filter_Some. simpl. by rewrite Hgone.
Qed.


Definition example_params (n : string) : RemoteBuilderParams :=
  {| rs_name := n; rs_ssh_uri := "ssh://" +:+ n; rs_systems := ["x86_64-linux"];
     rs_max_jobs := 2; rs_speed_factor := 1; rs_supported_features := [];
     rs_mandatory_features := []; rs_enabled := true; rs_public_host_key := None;
     rs_ssh_key_file := None |}.

(** A builder, and a build that ran on it. *)
Definition old_builder : RemoteBuilder := remote_builders.new_row 0 (example_params "old") ∅.

Definition idle_world : World := set_w_remote_builders {[ rb_id old_builder := old_builder ]} empty_world.

Definition history_world : World :=
  set_w_builds {[ 10 := set_b_builder_id (Some (rb_id old_builder))
    (Sql.new_build 10 0 {| Sql.cb_evaluation_id := 1; Sql.cb_job_name := "hello";
      Sql.cb_drv_path := "/nix/store/hello.drv"; Sql.cb_system := None;
      Sql.cb_outputs := None; Sql.cb_is_aggregate := None; Sql.cb_constituents := None;
      Sql.cb_is_fod := None; Sql.cb_fod_hash := None; Sql.cb_meta_description := None;
      Sql.cb_meta_license := None; Sql.cb_meta_homepage := None;
      Sql.cb_meta_maintainers := None; Sql.cb_required_features := [] |}) ]} idle_world.

