(* ===== verification/Dispatch.v ===== *)
(** * Choosing where a build runs

    [crates/queue-runner/src/dispatch.rs] with [caps.rs], [psi.rs] and the
    registration check of [rpc/server.rs] it relies on: the capacity estimate, the
    capability and trust gates, the ranking of agents and the reservation of a
    slot, the fallback to the runner or an SSH builder, and the outcome of a build
    dispatched to an agent. *)

From Corelib Require Import SpecFloat.
From S2P Require Import Prelude Types Float32 Psi Pool Db Builds Builders.

(** ** Registration ([validate_agent_capacity]) *)

(** The text of a rejected [speed] is not modelled. *)
Definition validate_agent_capacity (systems : list string) (speed : f32)
    (cpu max_jobs : Z) : result string () :=
  if bool_decide (systems = [])
  then Err "agent must advertise at least one system"
  else if negb (f32_is_finite speed) || f32_le speed f32_zero
  then Err "agent speed_factor must be finite and positive"
  else if cpu =? 0 then Err "agent cpu_count must be greater than 0"
  else if max_jobs =? 0 then Err "agent max_jobs must be greater than 0"
  else if MAX_AGENT_MAX_JOBS <? max_jobs
  then Err ("agent max_jobs " +:+ pretty max_jobs +:+ " exceeds cap " +:+
            pretty MAX_AGENT_MAX_JOBS)
  else Ok ().

(** ** Capacity *)

Record SchedulerCapacity := { fetch_limit : Z; schedulable_capacity : Z }.

Definition scheduler_capacity (h : Heap) (vals : list positive) (worker_count : Z) :
    SchedulerCapacity :=
  {| fetch_limit :=
       clamp 10 512 (i64_saturating_add worker_count (total_free_slots h vals));
     schedulable_capacity :=
       clamp 1 I32_MAX (i64_saturating_add worker_count (total_slots h vals)) |}.

(** ** Capabilities *)

Definition supports_required_features (required supported mandatory : list string) :
    bool :=
  forallb (λ f, str_in f supported) required &&
  forallb (λ f, str_in f required) mandatory.

Record RunnerCaps := {
  caps_enabled : bool;
  caps_systems : list string;
  caps_features : list string;
}.

(** [RunnerCaps::supports]. *)
Definition runner_supports (c : RunnerCaps) (system : option string)
    (features : list string) : bool :=
  caps_enabled c &&
  match system with Some s => str_in s (caps_systems c) | None => true end &&
  forallb (λ f, str_in f (caps_features c)) features.

(** ** Trusted refs *)

Definition is_trusted_ref_evaluation (e : Evaluation) (j : Jobset) : bool :=
  if match j_branch j with None => true | Some b => bool_decide (b = "") end
  then false
  else if is_some (e_pr_number e) || is_some (e_pr_head_branch e) ||
          is_some (e_pr_base_branch e)
  then false
  else match e_trigger_kind e with
       | EvaluationTriggerKind.SourceChange | EvaluationTriggerKind.Manual
       | EvaluationTriggerKind.Interval => true
       end.

Definition owner_repo_from_path (path : string) : option string :=
  match List.filter (λ p, negb (bool_decide (p = ""))) (split_by (char_is "/") path) with
  | [owner; repo] => Some (owner +:+ "/" +:+ repo)
  | _ => None
  end.

Section dispatch.
(** [url::Url::parse]: the host and the path of a URL. *)
Context (url_parse : string → option (option string * string)).
(** [ssh] with these arguments, as [Psi] uses it. *)
Context (ssh : list string → option string).

Definition github_repository_slug (url : string) : option string :=
  let url := trim_end_matches_str ".git" (trim url) in
  match strip_prefix "git@github.com:" url with
  | Some rest => owner_repo_from_path rest
  | None =>
      match url_parse url with
      | Some (Some host, path) =>
          if bool_decide (host = "github.com")
          then owner_repo_from_path (trim_start_matches_str "/" path)
          else None
      | _ => None
      end
  end.

(** [trusted_build_context]: [None] when the ref is not trusted or a row cannot be
    read; [Some repository] otherwise. *)
Definition trusted_build_context (build : Build) : M (option (option string)) :=
  let! e := mtry (evaluations.get (b_evaluation_id build)) in
  match e with
  | Err _ => mret None
  | Ok e =>
      let! j := mtry (jobsets.get (e_jobset_id e)) in
      match j with
      | Err _ => mret None
      | Ok j =>
          if negb (is_trusted_ref_evaluation e j) then mret None
          else
            let! p := mtry (projects.get (j_project_id j)) in
            match p with
            | Err _ => mret None
            | Ok p => mret (Some (github_repository_slug (p_repository_url p)))
            end
      end
  end.

Definition candidate_allowed_for_trusted_build (a : AgentSnapshot)
    (trusted : option (option string)) : bool :=
  if negb (requires_trusted_ref a) then true
  else match trusted with
       | None => false
       | Some repository =>
           match oidc_repository (snap_spec a) with
           | None => true
           | Some repo => bool_decide (repository = Some repo)
           end
       end.

(** ** Ranking *)

(** [x.partial_cmp(&y).unwrap_or(Ordering::Equal)]. *)
Definition cmp_or_equal (x y : f32) : comparison := default Eq (f32_partial_cmp x y).

Definition free_weight (s : AgentSnapshot) : f32 :=
  f32_mul (f32_of_u32 (u32_saturating_sub (max_jobs (snap_spec s)) (snap_current_jobs s)))
    (speed_factor (snap_spec s)).

Definition strategy_order (strategy : BuilderSchedulingStrategy)
    (a b : AgentSnapshot) : comparison :=
  match strategy with
  | SpeedFactorOnly =>
      cmp_or_equal (speed_factor (snap_spec b)) (speed_factor (snap_spec a))
  | CpuCoreCountWithSpeedFactor =>
      let av := f32_mul (f32_of_u32 (cpu_count (snap_spec a))) (speed_factor (snap_spec a)) in
      let bv := f32_mul (f32_of_u32 (cpu_count (snap_spec b))) (speed_factor (snap_spec b)) in
      cmp_or_equal bv av
  | Dynamic => cmp_or_equal (free_weight b) (free_weight a)
  end.

(** The comparison of [eligible.sort_by]. *)
Definition agent_order (strategy : BuilderSchedulingStrategy) (features : list string)
    (demand : gset string) (a b : positive * AgentSnapshot) : comparison :=
  then_with
    (then_with
       (contended_surplus a.2 features demand ?= contended_surplus b.2 features demand)
       (strategy_order strategy a.2 b.2))
    (machine_id (snap_spec a.2) ?= machine_id (snap_spec b.2)).

(** ** Selecting an agent *)

(** The scheduling part of [BuildContext]. *)
Record Ctx := {
  cx_strategy : BuilderSchedulingStrategy;
  cx_psi_threshold : option spec_float;
  cx_psi_check_timeout : Z;
  cx_heartbeat_ttl : Z;
  cx_runner_caps : RunnerCaps;
  cx_require_host_key : bool;
}.

(** [Instant::now().checked_sub(heartbeat_ttl)]. *)
Definition cutoff (now ttl : Z) : option Z :=
  if ttl <=? now then Some (now - ttl) else None.

Definition psi_admits (cut : option Z) (t : f32) (s : AgentSnapshot) : bool :=
  let hb := snap_heartbeat s in
  let fresh :=
    match last_seen hb, cut with
    | Some seen, Some cut => cut <=? seen
    | _, _ => true
    end in
  if negb fresh then true
  else f32_le (cpu_psi_avg10 hb) t && f32_le (mem_psi_avg10 hb) t &&
       f32_le (io_psi_avg10 hb) t.

(** The loop that keeps the agents [is_schedulable] lets through; an error skips
    the agent. *)
Fixpoint eligible_agents (l : list (positive * AgentSnapshot)) :
    M (list (positive * AgentSnapshot)) :=
  match l with
  | [] => mret []
  | c :: l =>
      let! r := mtry (builder_sessions.is_schedulable (machine_id (snap_spec c.2))) in
      let! rest := eligible_agents l in
      match r with
      | Ok true => mret (c :: rest)
      | _ => mret rest
      end
  end.

(** [find_map(|(meta, snap)| meta.try_acquire_slot()..)]. *)
Fixpoint acquire_first (h : Heap) (l : list (positive * AgentSnapshot)) :
    option (positive * AgentSnapshot * Heap) :=
  match l with
  | [] => None
  | (meta, snap) :: l =>
      match try_acquire_slot meta h with
      | Some h' => Some (meta, snap, h')
      | None => acquire_first h l
      end
  end.

(** The gates that need no database: pressure and features. *)
Definition capable (cx : Ctx) (now : Z) (features : list string)
    (s : AgentSnapshot) : bool :=
  match cx_psi_threshold cx with
  | Some t => psi_admits (cutoff now (cx_heartbeat_ttl cx)) (f32_of_f64 t) s
  | None => true
  end && supports_features s features.

(** [select_and_reserve_agent].  [h1], [h2] and [h3] are the heaps at the loads of
    [candidates_for] and at the reservation; [vals] is the iteration order of the
    pool's map.  The result is the agent, its snapshot and the heap with its slot
    taken. *)
Definition select_and_reserve_agent (cx : Ctx) (now : Z) (h1 h2 h3 : Heap)
    (vals : list positive) (build : Build) (system : string) :
    M (option (positive * AgentSnapshot * Heap)) :=
  let features := scheduling_features build in
  let candidates := candidates_for h1 h2 vals system in
  match candidates with
  | [] => mret None
  | _ =>
      let candidates := List.filter (λ c, capable cx now features c.2) candidates in
      match candidates with
      | [] => mret None
      | _ =>
          let! candidates :=
            if existsb (λ c, requires_trusted_ref c.2) candidates then
              let! trusted := trusted_build_context build in
              mret (List.filter
                (λ c, candidate_allowed_for_trusted_build c.2 trusted) candidates)
            else mret candidates in
          match candidates with
          | [] => mret None
          | _ =>
              let! eligible := eligible_agents candidates in
              match eligible with
              | [] => mret None
              | _ =>
                  let! demand := mtry (builds.pending_feature_demand system) in
                  let demand := match demand with Ok d => d | Err _ => ∅ end in
                  mret (acquire_first h3
                    (sort_by (agent_order (cx_strategy cx) features demand) eligible))
              end
          end
      end
  end.

(** ** Reserving a venue *)

Inductive Venue :=
  | VAgent (meta : positive) (snap : AgentSnapshot) (h : Heap)
  (** A permit of the worker semaphore: the runner itself, or SSH from it. *)
  | VRunner.

(** The SSH builders, in the order of the query, until one qualifies. *)
Fixpoint ssh_venue (cx : Ctx) (now : Z) (features : list string)
    (l : list RemoteBuilder) (c : PsiCache) : bool * PsiCache :=
  match l with
  | [] => (false, c)
  | b :: l =>
      if cx_require_host_key cx && is_none (rs_public_host_key (rb_params b))
      then ssh_venue cx now features l c
      else if negb (supports_required_features features
                 (rs_supported_features (rb_params b)) (rs_mandatory_features (rb_params b)))
      then ssh_venue cx now features l c
      else match cx_psi_threshold cx with
           | Some threshold =>
               let '(snap, c) :=
                 read_cached ssh now (rs_ssh_uri (rb_params b)) (cx_psi_check_timeout cx) c in
               match snap with
               | Some snap => if exceeds snap threshold
                              then ssh_venue cx now features l c else (true, c)
               | None => (true, c)
               end
           | None => (true, c)
           end
  end.

(** [reserve_venue]; waiting for the permit is not modelled. *)
Definition reserve_venue (cx : Ctx) (now : Z) (h1 h2 h3 : Heap) (vals : list positive)
    (c : PsiCache) (build : Build) (system : option string) : M (option Venue * PsiCache) :=
  let! agent :=
    match system with
    | Some system => select_and_reserve_agent cx now h1 h2 h3 vals build system
    | None => mret None
    end in
  match agent with
  | Some (meta, snap, h) => mret (Some (VAgent meta snap h), c)
  | None =>
      let features := scheduling_features build in
      let runner_ok := runner_supports (cx_runner_caps cx) system features in
      let! (ssh_ok, c) :=
        if runner_ok then mret (false, c)
        else match system with
             | Some system =>
                 let! found := mtry (remote_builders.find_for_system system (cx_strategy cx)) in
                 match found with
                 | Ok builders => mret (ssh_venue cx now features builders c)
                 | Err _ => mret (false, c)
                 end
             | None => mret (false, c)
             end in
      if negb runner_ok && negb ssh_ok then mret (None, c)
      else mret (Some VRunner, c)
  end.

(** ** The outcome of a dispatched build ([run_on_agent]) *)

Record BuildResult := {
  br_success : bool;
  br_exit_code : option Z;
  br_stdout : string;
  br_stderr : string;
  br_output_paths : list string;
  br_cache_upload_handled : bool;
}.

(** The [match rx.await]; [None] is a dropped sender.  [outputs] is what
    [read_drv_outputs] returns. *)
Definition agent_result (upload_s3 : bool) (outputs : list string)
    (r : option DispatchResult) : option BuildResult :=
  let result success code stderr paths :=
    Some {| br_success := success; br_exit_code := Some code; br_stdout := "";
            br_stderr := stderr; br_output_paths := paths;
            br_cache_upload_handled := upload_s3 |} in
  match r with
  | Some (DSucceeded msg) => result true 0 (default "" msg) outputs
  | Some (DFailed msg) => result false 1 msg []
  | Some DTimedOut => result false 124 "build timed out" []
  | Some DAborted => result false 130 "build aborted" []
  | Some (DOomKilled msg) => result false (-9) msg []
  | Some DDisconnected | None => None
  end.
End dispatch.
