(* ===== verification/Selection.v ===== *)
(** * Properties of dispatch

    The agent the scheduler reserves is capable, trusted, not backing off and has
    a free slot; it is the best such agent in the configured order; and it does
    not depend on the iteration order of the pool's hash map. *)

From S2P Require Import Prelude Types Float32 Psi Pool Db Builds Builders Dispatch Lifecycle.

Section selection.
Context (url_parse : string → option (option string * string)).

(** The trust of a build as a function of the tables. *)
Definition trusted_of (w : World) (build : Build) : option (option string) :=
  let* e := w_evaluations w !! b_evaluation_id build in
  let* j := w_jobsets w !! e_jobset_id e in
  if negb (is_trusted_ref_evaluation e j) then None
  else let* p := w_projects w !! j_project_id j in
       Some (github_repository_slug url_parse (p_repository_url p)).

Lemma trusted_no_fault w build :
  w_faults w = [] →
  trusted_build_context url_parse build w = (Ok (trusted_of w build), w).
Proof.
  intros Hf. unfold trusted_build_context, trusted_of, mbind, evaluations.get.
  rewrite get_no_fault by done. simpl.
  destruct (w_evaluations w !! _) as [e|]; simpl; [|done].
  unfold jobsets.get. rewrite get_no_fault by done. simpl.
  destruct (w_jobsets w !! _) as [j|]; simpl; [|done].
  destruct (is_trusted_ref_evaluation e j); simpl; [|done].
  unfold projects.get. rewrite get_no_fault by done. simpl.
  by destruct (w_projects w !! _).
Qed.

(** The agent is not backing off. *)
Definition agent_schedulable (w : World) (s : AgentSnapshot) : bool :=
  match w_sessions w !! machine_id (snap_spec s) with
  | Some row => builder_sessions.schedulable_row w row
  | None => false
  end.

Lemma eligible_no_fault w l :
  w_faults w = [] →
  eligible_agents l w = (Ok (List.filter (λ c, agent_schedulable w c.2) l), w).
Proof.
  intros Hf. induction l as [|c l IH]; [done|].
  cbn [eligible_agents]. unfold mbind, mtry, builder_sessions.is_schedulable.
  rewrite read_no_fault by done. rewrite IH. simpl. unfold agent_schedulable.
  destruct (w_sessions w !! _) as [row|]; [|done].
  by destruct (builder_sessions.schedulable_row w row).
Qed.

(** Everything an agent must pass besides having a slot. *)
Definition passes (cx : Ctx) (now : Z) (w : World) (build : Build)
    (s : AgentSnapshot) : bool :=
  capable cx now (scheduling_features build) s &&
  candidate_allowed_for_trusted_build s (trusted_of w build) &&
  agent_schedulable w s.

Definition demand_of (w : World) (system : string) : gset string :=
  list_to_set (concat (scheduling_features <$>
    List.filter (λ b, Sql.has_status Pending b && bool_decide (b_system b = Some system))
      (rows (w_builds w)))).

Definition ranked (cx : Ctx) (now : Z) (h1 h2 : Heap) (vals : list positive) (w : World)
    (build : Build) (system : string) : list (positive * AgentSnapshot) :=
  sort_by (agent_order (cx_strategy cx) (scheduling_features build) (demand_of w system))
    (List.filter (λ c, passes cx now w build c.2) (candidates_for h1 h2 vals system)).

Lemma filter_filter {A} (p q : A → bool) l :
  List.filter q (List.filter p l) = List.filter (λ x, p x && q x) l.
Proof.
  induction l as [|x l IH]; simpl; [done|].
  destruct (p x); simpl; [|done]. by rewrite IH.
Qed.

Lemma filter_all {A} (p : A → bool) l : (∀ x, In x l → p x = true) → List.filter p l = l.
Proof.
  induction l as [|x l IH]; simpl; [done|]. intros H. rewrite H by auto. f_equal. auto.
Qed.

Lemma filter_ext_in' {A} (p q : A → bool) l :
  (∀ x, In x l → p x = q x) → List.filter p l = List.filter q l.
Proof. intros. by apply List.filter_ext_in. Qed.

(** An early return on an empty list changes nothing when the rest returns the same. *)
Lemma skip_empty {A B} (l : list A) (k : M (option B)) w :
  (l = [] → k w = (Ok None, w)) →
  match l with [] => mret None | _ :: _ => k end w = k w.
Proof. destruct l; [|done]. intros H. by rewrite H. Qed.

Lemma demand_no_fault system w :
  w_faults w = [] →
  mtry (builds.pending_feature_demand system) w = (Ok (Ok (demand_of w system)), w).
Proof.
  intros Hf. unfold mtry, builds.pending_feature_demand, Sql.pending_feature_demand.
  by rewrite read_no_fault.
Qed.

(** Asking for the trust context only when some agent needs it changes nothing. *)
Lemma trust_gate_no_fault l build w :
  w_faults w = [] →
  (if existsb (λ c : positive * AgentSnapshot, requires_trusted_ref c.2) l then
     let! trusted := trusted_build_context url_parse build in
     mret (List.filter (λ c, candidate_allowed_for_trusted_build c.2 trusted) l)
   else mret l) w =
  (Ok (List.filter (λ c, candidate_allowed_for_trusted_build c.2 (trusted_of w build)) l), w).
Proof.
  intros Hf. destruct (existsb _ l) eqn:Ex.
  - by rewrite (mbind_ok _ _ _ _ _ (trusted_no_fault w build Hf)).
  - unfold mret. rewrite filter_all; [done|]. intros c Hc.
    unfold candidate_allowed_for_trusted_build.
    destruct (requires_trusted_ref c.2) eqn:Hr; [|done].
    assert (existsb (λ c : positive * AgentSnapshot, requires_trusted_ref c.2) l = true);
      [|congruence].
    apply existsb_exists. by exists c.
Qed.

(** The selection without faults: the first agent of the ranking with a slot. *)
Lemma select_no_fault cx now h1 h2 h3 vals build system w :
  w_faults w = [] →
  select_and_reserve_agent url_parse cx now h1 h2 h3 vals build system w =
  (Ok (acquire_first h3 (ranked cx now h1 h2 vals w build system)), w).
Proof.
  intros Hf. unfold select_and_reserve_agent, ranked.
  assert (Hd : ∀ el, (let! demand := mtry (builds.pending_feature_demand system) in
      mret (acquire_first h3 (sort_by (agent_order (cx_strategy cx)
        (scheduling_features build) match demand with Ok d => d | Err _ => ∅ end) el))) w =
    (Ok (acquire_first h3 (sort_by (agent_order (cx_strategy cx)
      (scheduling_features build) (demand_of w system)) el)), w)).
  { intros el. by rewrite (mbind_ok _ _ _ _ _ (demand_no_fault system w Hf)). }
  rewrite skip_empty; cycle 1.
  { intros ->. done. }
  rewrite skip_empty; cycle 1.
  { intros ->. done. }
  rewrite (mbind_ok _ _ _ _ _ (trust_gate_no_fault _ build w Hf)).
  rewrite skip_empty; cycle 1.
  { intros ->. done. }
  rewrite (mbind_ok _ _ _ _ _ (eligible_no_fault w _ Hf)).
  rewrite skip_empty; cycle 1.
  { intros ->. apply Hd. }
  rewrite Hd, !filter_filter. do 4 f_equal. apply filter_ext_in'. intros c _.
  unfold passes. by rewrite andb_assoc.
Qed.

(** ** The ranking is a total order *)

(** What the pool guarantees of a registered agent: it is filed under its own
    machine id and passed [validate_agent_capacity]. *)
Definition registered (h : Heap) (p : AgentPool) : Prop :=
  ∀ id l, p !! id = Some l → ∃ m, h !! l = Some m ∧ machine_id (spec m) = id ∧
    f32_positive (speed_factor (spec m)) = true ∧ is_u32 (cpu_count (spec m)).

(** A candidate as [candidates_for] returns it. *)
Definition pooled (h : Heap) (p : AgentPool) (c : positive * AgentSnapshot) : Prop :=
  ∃ m, h !! c.1 = Some m ∧ c.2 = snapshot m (current_jobs m) ∧
    p !! machine_id (spec m) = Some c.1 ∧
    f32_positive (speed_factor (spec m)) = true ∧ is_u32 (cpu_count (spec m)).

(** What the strategy ranks by, largest first. *)
Definition weight (strategy : BuilderSchedulingStrategy) (s : AgentSnapshot) : f32 :=
  match strategy with
  | SpeedFactorOnly => speed_factor (snap_spec s)
  | CpuCoreCountWithSpeedFactor =>
      f32_mul (f32_of_u32 (cpu_count (snap_spec s))) (speed_factor (snap_spec s))
  | Dynamic => free_weight s
  end.

Lemma weight_not_nan h p strategy c : pooled h p c → is_nan (weight strategy c.2) = false.
Proof.
  intros (m & _ & -> & _ & Hsp & Hcpu). destruct strategy; simpl.
  - apply positive_form in Hsp as (? & ? & ->). done.
  - apply mul_not_nan; [apply of_u32_not_nan; apply Hcpu|done].
  - apply mul_not_nan; [apply of_u32_not_nan; unfold u32_saturating_sub; lia|done].
Qed.

Definition agent_key (strategy : BuilderSchedulingStrategy) (features : list string)
    (demand : gset string) (c : positive * AgentSnapshot) : list Z :=
  [contended_surplus c.2 features demand] ++
  map Z.opp (sf_key (weight strategy c.2)) ++ [machine_id (snap_spec c.2)].

Lemma agent_order_key h p strategy features demand a b :
  pooled h p a → pooled h p b →
  agent_order strategy features demand a b =
  lex_cmp (agent_key strategy features demand a) (agent_key strategy features demand b).
Proof.
  intros Ha Hb. unfold agent_order, agent_key.
  rewrite !lex_cmp_app by (by rewrite ?length_map, ?sf_key_length).
  rewrite lex_cmp_opp by (by rewrite !sf_key_length).
  assert (strategy_order strategy a.2 b.2 =
    cmp_or_equal (weight strategy b.2) (weight strategy a.2)) as -> by (by destruct strategy).
  unfold cmp_or_equal. rewrite partial_cmp_key by (by eapply weight_not_nan).
  cbn [lex_cmp default]. unfold then_with.
  destruct (_ ?= _); try done. destruct (lex_cmp _ _); try done. by destruct (_ ?= _).
Qed.

Lemma agent_order_total h p strategy features demand :
  total_on (agent_order strategy features demand) (pooled h p).
Proof.
  apply (total_on_key _ _ (agent_key strategy features demand)).
  - intros. by eapply agent_order_key.
  - intros [l s] [l' s'] (m & Hm & Hs & Hp & _) (m' & Hm' & Hs' & Hp' & _) Hk.
    unfold agent_key in Hk. apply app_inj_1 in Hk as [_ Hk]; [|done].
    apply app_inj_1 in Hk as [_ Hk]; [|by rewrite !length_map, !sf_key_length].
    simplify_eq/=. congruence.
Qed.

Lemma candidates_pooled h1 h2 p vals system :
  registered h2 p → iterates p vals →
  Forall (pooled h2 p) (candidates_for h1 h2 vals system).
Proof.
  intros Hr Hi. apply Forall_forall. intros [l s] Hc.
  apply list_elem_of_omap in Hc as (l' & Hl' & Hs).
  apply list_elem_of_In, filter_In in Hl' as [Hl' _]. apply list_elem_of_In in Hl'.
  unfold iterates in Hi. rewrite Hi in Hl'.
  apply list_elem_of_fmap in Hl' as ([id l''] & Heq & Hl').
  apply elem_of_map_to_list in Hl'. simpl in Heq. subst l''.
  destruct (Hr id l' Hl') as (m & Hm & Hid & ? & ?). rewrite Hm in Hs. simplify_eq/=.
  by exists m.
Qed.

Lemma filter_forall {A} (P : A → Prop) (f : A → bool) l :
  Forall P l → Forall P (List.filter f l).
Proof.
  rewrite !Forall_forall. intros H x Hx.
  apply list_elem_of_In, filter_In in Hx as [Hx _]. by apply H, list_elem_of_In.
Qed.

Lemma ranked_sorted cx now h1 h2 p vals w build system :
  registered h2 p → iterates p vals →
  StronglySorted (cmp_le (agent_order (cx_strategy cx) (scheduling_features build)
    (demand_of w system))) (ranked cx now h1 h2 vals w build system).
Proof.
  intros Hr Hi. eapply sort_by_sorted; [by apply (agent_order_total h2 p)|].
  by apply filter_forall, candidates_pooled.
Qed.

Lemma acquire_first_spec h l :
  match acquire_first h l with
  | Some (meta, snap, h') => ∃ l1 l2, l = l1 ++ (meta, snap) :: l2 ∧
      try_acquire_slot meta h = Some h' ∧
      Forall (λ c, try_acquire_slot c.1 h = None) l1
  | None => Forall (λ c, try_acquire_slot c.1 h = None) l
  end.
Proof.
  induction l as [|[meta snap] l IH]; simpl; [done|].
  destruct (try_acquire_slot meta h) as [h'|] eqn:E; [by exists [], l|].
  destruct (acquire_first h l) as [[[meta' snap'] h']|]; [|by constructor].
  destruct IH as (l1 & l2 & -> & ? & ?). exists ((meta, snap) :: l1), l2.
  split_and!; [done..|]. by constructor.
Qed.

(** A pool with two agents, the second faster, and a session row for each. *)
Definition fast_spec : AgentSpec :=
  {| machine_id := 8; connection_id := 80; name := "b"; hostname := "b.example";
     systems := ["x86_64-linux"]; supported_features := [];
     mandatory_features := []; speed_factor := f32_of_u32 4; cpu_count := 4;
     max_jobs := 2; ephemeral := false; auth_kind := AuthKind.Token;
     oidc_repository := None; oidc_subject := None |}.

Definition example_heap : Heap :=
  {[ 1%positive := AgentMeta_new Slots.example_spec 0;
     2%positive := AgentMeta_new fast_spec 0 ]}.
Definition example_pool : AgentPool := {[ 7 := 1%positive; 8 := 2%positive ]}.

Lemma example_registered : registered example_heap example_pool.
Proof.
  intros id l Hl. unfold example_pool in Hl.
  apply lookup_insert_Some in Hl as [[<- <-]|[_ Hl]];
    [|apply lookup_singleton_Some in Hl as [<- <-]].
  - by exists (AgentMeta_new Slots.example_spec 0).
  - by exists (AgentMeta_new fast_spec 0).
Qed.

(** C3. The agent the scheduler reserves.  When the pool's agents are registered
    and the database answers, the selection ends, leaves the database unchanged,
    and: an agent is returned exactly with one slot taken from it; it advertised
    the build's system with a free slot, passed the pressure, feature, trusted-ref
    and back-off gates, and no other agent that passes them and still has a slot
    ranks before it (fewest contended features, then the strategy's weight, then
    the machine id); nothing is returned only when every agent that passes the
    gates is full. *)
Theorem select_agent_spec cx now h1 h2 h3 p vals build system w :
  w_faults w = [] → registered h2 p → iterates p vals →
  let cands := candidates_for h1 h2 vals system in
  let order := agent_order (cx_strategy cx) (scheduling_features build)
                 (demand_of w system) in
  ∃ r, select_and_reserve_agent url_parse cx now h1 h2 h3 vals build system w = (Ok r, w) ∧
  match r with
  | Some (l, s, h') =>
      (l, s) ∈ cands ∧ passes cx now w build s = true ∧
      try_acquire_slot l h3 = Some h' ∧
      ∀ c, c ∈ cands → passes cx now w build c.2 = true →
        is_Some (try_acquire_slot c.1 h3) → order (l, s) c ≠ Gt
  | None =>
      ∀ c, c ∈ cands → passes cx now w build c.2 = true → try_acquire_slot c.1 h3 = None
  end.
Proof.
  intros Hf Hr Hi cands order. eexists. split; [by apply select_no_fault|].
  pose proof (ranked_sorted cx now h1 h2 p vals w build system Hr Hi) as Hs.
  assert (Hin : ∀ c, c ∈ ranked cx now h1 h2 vals w build system ↔
    c ∈ cands ∧ passes cx now w build c.2 = true).
  { intros c. unfold ranked. rewrite sort_by_perm, list_elem_of_In, filter_In.
    by rewrite list_elem_of_In. }
  pose proof (acquire_first_spec h3 (ranked cx now h1 h2 vals w build system)) as Ha.
  destruct (acquire_first h3 _) as [[[l s] h']|].
  - destruct Ha as (l1 & l2 & Heq & Hacq & Hfull). rewrite Heq in *.
    destruct (proj1 (Hin (l, s))) as [? ?]; [apply elem_of_app; right; left|].
    split_and!; [done..|]. intros c Hc Hp [h'' Hslot].
    assert (Hc' : c ∈ l1 ++ (l, s) :: l2) by (by apply Hin).
    apply elem_of_app in Hc' as [Hc'|Hc'].
    + rewrite Forall_forall in Hfull. rewrite Hfull in Hslot by done. done.
    + apply StronglySorted_app_1_r, StronglySorted_inv in Hs as [_ Hs].
      apply elem_of_cons in Hc' as [-> |Hc'].
      * pose proof (candidates_pooled h1 h2 p vals system Hr Hi) as Hpool.
        rewrite Forall_forall in Hpool. specialize (Hpool _ Hc).
        unfold order. by rewrite (agent_order_key h2 p), lex_cmp_refl.
      * rewrite Forall_forall in Hs. by apply Hs.
  - intros c Hc Hp. rewrite Forall_forall in Ha. by apply Ha, Hin.
Qed.

(** The reservation does not depend on the iteration order of the pool's hash
    map: two iterations of the same pool reserve the same agent. *)
Theorem select_order_independent cx now h1 h2 h3 p vals vals' build system w :
  w_faults w = [] → registered h2 p → iterates p vals → iterates p vals' →
  select_and_reserve_agent url_parse cx now h1 h2 h3 vals build system w =
  select_and_reserve_agent url_parse cx now h1 h2 h3 vals' build system w.
Proof.
  intros Hf Hr Hi Hi'. rewrite !select_no_fault by done. do 3 f_equal.
  apply (sort_by_unique _ (pooled h2 p)).
  - apply agent_order_total.
  - by apply filter_forall, candidates_pooled.
  - apply filter_perm. unfold candidates_for.
    assert (vals ≡ₚ vals') as Hv by (unfold iterates in *; by rewrite Hi, Hi').
    by rewrite (filter_perm _ _ _ Hv).
Qed.
End selection.

(** ** Witnesses *)

Definition sel_world : World :=
  set_w_builds (w_builds example_world)
    (set_w_sessions {[ 7 := example_session; 8 := example_session ]} (set_w_now 5 empty_world)).

Definition sel_ctx : Ctx :=
  {| cx_strategy := SpeedFactorOnly; cx_psi_threshold := None; cx_psi_check_timeout := 0;
     cx_heartbeat_ttl := 0; cx_require_host_key := false;
     cx_runner_caps := {| caps_enabled := false; caps_systems := []; caps_features := [] |} |}.

Definition selected (vals : list positive) (b : Build) : option Z :=
  match (select_and_reserve_agent (λ _, None) sel_ctx 0 example_heap example_heap
           example_heap vals b "x86_64-linux" sel_world).1 with
  | Ok (Some (_, s, _)) => Some (machine_id (snap_spec s))
  | _ => None
  end.

(** The build needs [kvm], which only the slower agent has. *)
Lemma select_agent_spec_witness :
  ∃ b, w_builds sel_world !! 10 = Some b ∧ selected [1; 2]%positive b = Some 7 ∧
  ∃ r, select_and_reserve_agent (λ _, None) sel_ctx 0 example_heap example_heap
         example_heap [1; 2]%positive b "x86_64-linux" sel_world = (Ok r, sel_world) ∧
       match r with Some (_, s, _) => passes (λ _, None) sel_ctx 0 sel_world b s = true
       | None => False end.
Proof.
  eexists. split; [reflexivity|]. split; [by vm_compute|].
  match goal with |- context [select_and_reserve_agent _ _ _ _ _ _ _ ?b] =>
    destruct (select_agent_spec (λ _, None) sel_ctx 0 example_heap example_heap
      example_heap example_pool [1; 2]%positive b "x86_64-linux" sel_world eq_refl
      example_registered (reflexivity _)) as (r & Hr & H)
  end.
  exists r. split; [exact Hr|].
  destruct r as [[[l s] h']|]; [apply H|].
  apply (f_equal (λ x, match x.1 with Ok (Some _) => true | _ => false end)) in Hr.
  vm_compute in Hr. done.
Defined.

Lemma select_order_independent_witness :
  ∃ b, w_builds sel_world !! 10 = Some b ∧
  select_and_reserve_agent (λ _, None) sel_ctx 0 example_heap example_heap example_heap
    [1; 2]%positive b "x86_64-linux" sel_world =
  select_and_reserve_agent (λ _, None) sel_ctx 0 example_heap example_heap example_heap
    [2; 1]%positive b "x86_64-linux" sel_world.
Proof.
  eexists. split; [reflexivity|].
  apply (select_order_independent _ _ _ _ _ _ example_pool);
    [reflexivity|apply example_registered|unfold iterates; reflexivity|].
  unfold iterates. apply perm_swap.
Defined.

(** ** Registration *)

(** Registration keeps the pool fit for scheduling: an agent that passes
    [validate_agent_capacity] and is inserted with [AgentMeta::new] leaves every
    agent of the pool filed under its machine id with a finite positive speed (so
    that all comparisons of the ranking are of numbers), starts with no job, and
    has between 1 and [MAX_AGENT_MAX_JOBS] slots and at least one system; an agent
    with none of these is refused. *)
Theorem registration_keeps_pool h p l sp now :
  registered h p → h !! l = None → is_u32 (cpu_count sp) → is_u32 (max_jobs sp) →
  match validate_agent_capacity (systems sp) (speed_factor sp) (cpu_count sp) (max_jobs sp) with
  | Ok _ =>
      let h' := <[l := AgentMeta_new sp now]> h in
      registered h' (pool_insert h' l p).2 ∧
      (pool_insert h' l p).1 = p !! machine_id sp ∧
      1 ≤ max_jobs sp ≤ MAX_AGENT_MAX_JOBS ∧ systems sp ≠ [] ∧
      is_Some (try_acquire_slot l h')
  | Err _ => systems sp = [] ∨ f32_positive (speed_factor sp) = false ∨
      cpu_count sp = 0 ∨ max_jobs sp = 0 ∨ MAX_AGENT_MAX_JOBS < max_jobs sp
  end.
Proof.
  intros Hr Hl Hc Hm. unfold validate_agent_capacity.
  case_bool_decide as Hs; [by left|].
  destruct (negb (f32_is_finite _) || _) eqn:Hf.
  { right. left. unfold f32_positive. apply orb_true_iff in Hf as [Hf|Hf].
    - apply negb_true_iff in Hf. by rewrite Hf.
    - by rewrite Hf, andb_false_r. }
  destruct (Z.eqb_spec (cpu_count sp) 0); [auto 6|].
  destruct (Z.eqb_spec (max_jobs sp) 0); [auto 6|].
  destruct (Z.ltb_spec MAX_AGENT_MAX_JOBS (max_jobs sp)); [auto 6|].
  apply orb_false_iff in Hf as [Hf1%negb_false_iff Hf2].
  unfold pool_insert. rewrite lookup_insert_eq. simpl. unfold is_u32 in *.
  split_and!; [|done|lia|lia|done|].
  - intros id l' Hp. apply lookup_insert_Some in Hp as [[<- <-]|[_ Hp]].
    + exists (AgentMeta_new sp now). rewrite lookup_insert_eq.
      split_and!; [done..| |done]. unfold f32_positive. simpl. by rewrite Hf1, Hf2.
    + destruct (Hr id l' Hp) as (m & Hm' & ?). exists m.
      split; [|done]. rewrite lookup_insert_ne; [done|]. intros ->. congruence.
  - unfold try_acquire_slot. rewrite lookup_insert_eq. simpl.
    destruct (Z.leb_spec (max_jobs sp) 0); [lia|by eexists].
Qed.

Lemma registered_empty : registered ∅ ∅.
Proof. by intros id l H. Qed.

Lemma registration_keeps_pool_witness :
  registered {[ 1%positive := AgentMeta_new Slots.example_spec 0 ]} {[ 7 := 1%positive ]}.
Proof.
  pose proof (registration_keeps_pool ∅ ∅ 1%positive Slots.example_spec 0
    registered_empty eq_refl ltac:(by vm_compute) ltac:(by vm_compute)) as H.
  exact (proj1 H).
Defined.

(** ** Capacity *)

Fixpoint sum (l : list Z) : Z :=
  match l with [] => 0 | z :: l => z + sum l end.

#[global] Instance sum_perm : Proper (Permutation ==> (=)) sum.
Proof. induction 1; simpl; lia. Qed.

Lemma sum_nonneg l : Forall (λ z, 0 ≤ z) l → 0 ≤ sum l.
Proof. induction 1; simpl; lia. Qed.

Lemma saturating_sum l :
  Forall (λ z, 0 ≤ z) l → foldl u32_saturating_add 0 l = Z.min (sum l) U32_MAX.
Proof.
  intros Hl. assert (∀ a, 0 ≤ a ≤ U32_MAX →
    foldl u32_saturating_add a l = Z.min (a + sum l) U32_MAX) as H.
  { induction Hl as [|z l Hz Hl IH]; intros a Ha; simpl; [lia|].
    pose proof (sum_nonneg l Hl). unfold u32_saturating_add at 2.
    rewrite IH; unfold U32_MAX; lia. }
  rewrite H; unfold U32_MAX; lia.
Qed.

Lemma saturation_invisible lo hi a s :
  0 ≤ a ≤ I64_MAX → 0 ≤ s → lo ≤ hi ≤ U32_MAX →
  clamp lo hi (i64_saturating_add a (Z.min s U32_MAX)) = clamp lo hi (a + s).
Proof. unfold clamp, i64_saturating_add, I64_MAX, I64_MIN, U32_MAX. lia. Qed.

(** The free and the total slots of the agents of a pool. *)
Definition pool_metas (h : Heap) (p : AgentPool) : list AgentMeta :=
  omap (λ l, h !! l) (map_to_list p).*2.
Definition free_slots (m : AgentMeta) : Z := Z.max (max_jobs (spec m) - current_jobs m) 0.

(** The capacity estimate is exact: saturating additions in 32 and 64 bits are
    invisible, the estimate is the worker count plus the pool's slots brought into
    [10..512] (how many builds to fetch) and [1..i32::MAX] (the fair-share total),
    and it does not depend on the iteration order of the pool. *)
Theorem scheduler_capacity_exact h p vals worker_count :
  iterates p vals → 0 ≤ worker_count ≤ I64_MAX →
  (∀ l m, h !! l = Some m → is_u32 (max_jobs (spec m))) →
  fetch_limit (scheduler_capacity h vals worker_count) =
    clamp 10 512 (worker_count + sum (free_slots <$> pool_metas h p)) ∧
  schedulable_capacity (scheduler_capacity h vals worker_count) =
    clamp 1 I32_MAX (worker_count + sum ((λ m, max_jobs (spec m)) <$> pool_metas h p)).
Proof.
  intros Hi Hw Hm. simpl. unfold total_free_slots, total_slots, metas.
  assert (Hp : omap (λ l, h !! l) vals ≡ₚ pool_metas h p)
    by (unfold pool_metas; by rewrite Hi).
  assert (H1 : Forall (λ z, 0 ≤ z) (free_slots <$> pool_metas h p)).
  { apply Forall_fmap, Forall_forall. intros m _. unfold free_slots. simpl. lia. }
  assert (H2 : Forall (λ z, 0 ≤ z) ((λ m, max_jobs (spec m)) <$> pool_metas h p)).
  { apply Forall_fmap, Forall_forall. intros m Hl.
    apply list_elem_of_omap in Hl as (l & _ & Hl). apply Hm in Hl. apply Hl. }
  unfold u32_saturating_sub. fold free_slots.
  rewrite !saturating_sum by (by rewrite Hp). rewrite Hp.
  apply sum_nonneg in H1, H2. unfold free_slots in H1.
  split; eapply saturation_invisible; eauto; unfold I32_MAX, U32_MAX; lia.
Qed.

Lemma example_slots l m : example_heap !! l = Some m → is_u32 (max_jobs (spec m)).
Proof.
  intros Hl. unfold is_u32, U32_MAX. unfold example_heap in Hl.
  apply lookup_insert_Some in Hl as [[_ <-]|[_ Hl]]; [simpl; lia|].
  apply lookup_singleton_Some in Hl as [_ <-]. simpl. lia.
Qed.

Lemma scheduler_capacity_exact_witness :
  fetch_limit (scheduler_capacity example_heap [2; 1]%positive 8) = 12 ∧
  schedulable_capacity (scheduler_capacity example_heap [2; 1]%positive 8) = 12.
Proof.
  destruct (scheduler_capacity_exact example_heap example_pool [2; 1]%positive 8)
    as [H1 H2].
  - unfold iterates. apply perm_swap.
  - unfold I64_MAX. lia.
  - exact example_slots.
  - rewrite H1, H2. by vm_compute.
Defined.

(** ** The outcome of an agent's build *)

(** What [run_build] records for a failed result without outputs. *)
Definition recorded_status (r : BuildResult) : BuildStatus :=
  if br_success r then Succeeded
  else match br_exit_code r with Some c => from_exit_code c | None => Failed end.

(** The status recorded for a build an agent ran: success, failure and an
    out-of-memory kill are kept and a lost agent gives no result, but a build the
    agent reports as timed out or aborted is recorded as failed, since the codes
    124 and 130 are not the codes 7 and 3 [from_exit_code] knows. *)
Theorem agent_outcome_status upload outputs r :
  recorded_status <$> agent_result upload outputs r =
  match r with
  | Some (DSucceeded _) => Some Succeeded
  | Some (DFailed _) | Some DTimedOut | Some DAborted => Some Failed
  | Some (DOomKilled _) => Some OomKilled
  | Some DDisconnected | None => None
  end.
Proof. by destruct r as [[]|]. Qed.

(** ** Venues *)

(** The SSH builder passes the checks of [ssh_venue]. *)
Definition ssh_capable (cx : Ctx) (features : list string) (b : RemoteBuilder) : bool :=
  negb (cx_require_host_key cx && is_none (rs_public_host_key (rb_params b))) &&
  supports_required_features features (rs_supported_features (rb_params b))
    (rs_mandatory_features (rb_params b)).

Lemma ssh_venue_capable ssh cx now features l c :
  (ssh_venue ssh cx now features l c).1 = true →
  ∃ b, b ∈ l ∧ ssh_capable cx features b = true.
Proof.
  revert c. induction l as [|b l IH]; intros c; [done|].
  cbn [ssh_venue]. unfold ssh_capable.
  destruct (cx_require_host_key cx && _) eqn:Hk.
  { intros (b' & ? & ?)%IH. exists b'. split; [by right|done]. }
  destruct (supports_required_features _ _ _) eqn:Hs.
  - intros _. exists b. split; [by left|]. by rewrite Hk, Hs.
  - intros (b' & ? & ?)%IH. exists b'. split; [by right|done].
Qed.

Lemma find_no_fault sys strategy w :
  w_faults w = [] →
  ∃ r, mtry (remote_builders.find_for_system sys strategy) w = (Ok r, w) ∧
    match r with Ok l => ∀ b, b ∈ l → remote_builders.available w sys b = true
    | Err _ => True end.
Proof.
  intros Hf. unfold mtry, remote_builders.find_for_system, query. rewrite Hf.
  destruct (forallb _ _); eexists; (split; [reflexivity|]); [|done].
  intros b Hb. rewrite sort_by_perm in Hb.
  by apply list_elem_of_In, filter_In in Hb as [_ ?].
Qed.

(** The choice between the SSH builders found. *)
Definition ssh_choice ssh cx now features (r : result CiError (list RemoteBuilder)) c :=
  match r with Ok l => ssh_venue ssh cx now features l c | Err _ => (false, c) end.

(** A build is only given a venue that can run it: an agent with a slot that
    passes every gate of the selection, or a permit of the runner, which is handed
    out only when the runner itself has the build's system and features or an SSH
    builder for the system has the features and, where required, a host key.
    Without a capable venue the build stays queued and no slot is taken. *)
Theorem reserve_venue_capable url_parse ssh cx now h1 h2 h3 p vals c build system w :
  w_faults w = [] → registered h2 p → iterates p vals →
  ∃ v c', reserve_venue url_parse ssh cx now h1 h2 h3 vals c build system w =
    (Ok (v, c'), w) ∧
  match v with
  | Some (VAgent l s h') => ∃ sys, system = Some sys ∧
      (l, s) ∈ candidates_for h1 h2 vals sys ∧
      passes url_parse cx now w build s = true ∧ try_acquire_slot l h3 = Some h'
  | Some VRunner =>
      runner_supports (cx_runner_caps cx) system (scheduling_features build) = true ∨
      ∃ sys b, system = Some sys ∧ remote_builders.available w sys b = true ∧
        ssh_capable cx (scheduling_features build) b = true
  | None =>
      runner_supports (cx_runner_caps cx) system (scheduling_features build) = false
  end.
Proof.
  intros Hf Hr Hi. unfold reserve_venue.
  destruct system as [sys|]; cycle 1.
  { rewrite (mbind_ok _ _ None w w) by done. cbv beta iota.
    destruct (runner_supports _ _ _) eqn:Hrun;
      rewrite (mbind_ok _ _ (false, c) w w) by done; (eexists _, _; split;
        [reflexivity|]); [by left|done]. }
  rewrite (mbind_ok _ _ _ _ _ (select_no_fault url_parse cx now h1 h2 h3 vals build sys w Hf)).
  pose proof (acquire_first_spec h3 (ranked url_parse cx now h1 h2 vals w build sys)) as Ha.
  destruct (acquire_first h3 _) as [[[l s] h']|].
  { destruct Ha as (l1 & l2 & Heq & Hslot & _). eexists _, _. split; [reflexivity|].
    exists sys. split; [done|].
    assert (Hin : (l, s) ∈ ranked url_parse cx now h1 h2 vals w build sys)
      by (rewrite Heq; apply elem_of_app; right; left).
    unfold ranked in Hin. rewrite sort_by_perm in Hin.
    apply list_elem_of_In, filter_In in Hin as [Hin ?]. by rewrite list_elem_of_In. }
  destruct (runner_supports _ _ _) eqn:Hrun.
  { rewrite (mbind_ok _ _ (false, c) w w) by done. eexists _, _.
    split; [reflexivity|]. by left. }
  destruct (find_no_fault sys (cx_strategy cx) w Hf) as (r & Hr' & Hav).
  destruct (ssh_choice ssh cx now (scheduling_features build) r c) as [ok c'] eqn:Hch.
  rewrite (mbind_ok _ _ (ok, c') w w); cycle 1.
  { rewrite (mbind_ok _ _ _ _ _ Hr'). rewrite <-Hch. by destruct r. }
  destruct ok; (eexists _, _; split; [reflexivity|]); [|done].
  right. destruct r as [l|]; simplify_eq/=.
  destruct (ssh_venue_capable ssh cx now (scheduling_features build) l c)
    as (b & Hb & ?); [by rewrite Hch|]. exists sys, b. auto.
Qed.

Lemma reserve_venue_capable_witness :
  ∃ b, w_builds sel_world !! 10 = Some b ∧ ∃ v c',
  reserve_venue (λ _, None) (λ _, None) sel_ctx 0 example_heap example_heap example_heap
    [1; 2]%positive ∅ b (Some "x86_64-linux") sel_world = (Ok (v, c'), sel_world) ∧
  match v with Some (VAgent _ s _) => machine_id (snap_spec s) = 7 | _ => False end.
Proof.
  eexists. split; [reflexivity|].
  match goal with |- context [reserve_venue _ _ _ _ _ _ _ _ _ ?b] =>
    destruct (reserve_venue_capable (λ _, None) (λ _, None) sel_ctx 0 example_heap
      example_heap example_heap example_pool [1; 2]%positive ∅ b (Some "x86_64-linux")
      sel_world eq_refl example_registered (reflexivity _)) as (v & c' & Hv & _)
  end.
  exists v, c'. split; [exact Hv|].
  apply (f_equal (λ x, match x.1 with
    | Ok (Some (VAgent _ s _), _) => Some (machine_id (snap_spec s)) | _ => None end)) in Hv.
  vm_compute in Hv. destruct v as [[]|]; simplify_eq. done.
Defined.
