(* ===== verification/RunnerLoop.v ===== *)
(** * The scheduler loop

    [crates/queue-runner/src/runner_loop.rs] with [helpers.rs]: what one cycle does
    with each pending build, the periodic recovery of orphaned builds, and the
    table of active builds shared by the dispatched tasks
    ([worker.rs], [WorkerPool::dispatch], and the cancel checker of [cli.rs]).

    [nix-store] is a parameter.  A cycle returns what it handed to the rest of the
    program: dispatched builds, notifications, closures to publish. *)

From S2P Require Import Prelude Types Float32 Psi Pool Db Builds Builders Dispatch.

(** ** Helpers *)

Definition get_project_for_build (b : Build) : M (option (Project * string)) :=
  let! e := mtry (evaluations.get (b_evaluation_id b)) in
  match e with
  | Err _ => mret None
  | Ok e =>
      let! j := mtry (jobsets.get (e_jobset_id e)) in
      match j with
      | Err _ => mret None
      | Ok j =>
          let! p := mtry (projects.get (j_project_id j)) in
          match p with
          | Err _ => mret None
          | Ok p => mret (Some (p, e_commit_hash e))
          end
      end
  end.

Definition is_interval_rebuild (b : Build) : M bool :=
  let! e := mtry (evaluations.get (b_evaluation_id b)) in
  match e with
  | Ok e => mret (bool_decide (e_trigger_kind e = EvaluationTriggerKind.Interval))
  | Err _ => mret false
  end.

Definition mark_build_done (id : Uuid) (status : BuildStatus)
    (log_path output_path error_msg : option string) : M () :=
  let! _ := mtry (builds.start id) in
  let! _ := builds.complete id status log_path output_path error_msg in
  mret ().

(** The texts among the values of an object. *)
Definition object_strings (j : Json) : list string :=
  match j with JObj l => omap (λ kv, json_str kv.2) l | _ => [] end.

Definition completed_build_output_paths (b : Build) : M (list string) :=
  let! r := mtry (build_outputs.list_for_build (b_id b)) in
  let paths := match r with Ok l => omap snd l | Err _ => [] end in
  let paths :=
    match paths, b_outputs b with
    | [], Some outputs => object_strings outputs
    | _, _ => paths
    end in
  let paths :=
    match paths, b_build_output_path b with
    | [], Some p => [p]
    | _, _ => paths
    end in
  mret (dedup (sort_strings paths)).

(** ** One build *)

(** What a cycle hands on. *)
Inductive Effect :=
  (** [worker_pool.dispatch(build)] *)
  | EDispatch (b : Build)
  (** [spawn_succeeded_output_closure_publication] *)
  | EPublish (id : Uuid) (output_paths : list string)
  (** [circus_notification::dispatch_build_finished] *)
  | ENotifyFinished (b : Build) (p : Project) (commit : string).

Abbreviation FodCache := (gmap string (option string)).

Record LoopConfig := {
  lc_failed_paths_cache : bool;
  (** In microseconds. *)
  lc_unsupported_timeout : option Z;
  lc_scheduling_strategy : BuilderSchedulingStrategy;
  lc_runner_caps : RunnerCaps;
  lc_strict_errors : bool;
}.

Section runner_loop.
(** The output of [nix-store --query --outputs] when it succeeds and is UTF-8, and
    whether [nix-store --check-validity] succeeds. *)
Context (nix_query_outputs : string → option string).
Context (nix_check_validity : string → bool).

Definition query_drv_output (drv : string) : option string :=
  let* out := nix_query_outputs drv in
  let* line := head (lines out) in
  let line := trim line in
  if decide (line = "") then None else Some line.

(** Aggregates: completed with their constituents, never dispatched. *)
Definition aggregate_step (b : Build) : M (list Effect) :=
  let! deps := mtry (build_dependencies.all_deps_completed (b_id b)) in
  match deps with
  | Ok true =>
      let! done := mtry (mark_build_done (b_id b) Succeeded None None None) in
      match done with
      | Err _ => mret []
      | Ok _ =>
          let! updated := mtry (builds.get (b_id b)) in
          match updated with
          | Err _ => mret []
          | Ok updated =>
              let! ctx := get_project_for_build updated in
              match ctx with
              | Some (p, commit) => mret [ENotifyFinished updated p commit]
              | None => mret []
              end
          end
      end
  | Ok false | Err _ => mret []
  end.

(** Each of the following steps returns [Some effects] when the build is settled
    (the [continue] of the loop) and [None] to go on. *)

Definition dedup_step (interval : bool) (b : Build) : M (option (list Effect)) :=
  if interval then mret None
  else
    let! found := mtry (builds.get_completed_by_drv_path (b_drv_path b)) in
    match found with
    | Ok (Some existing) =>
        if b_id existing =? b_id b then mret None
        else
          let! done := mtry (mark_build_done (b_id b) Succeeded (b_log_path existing)
                               (b_build_output_path existing) None) in
          match done with
          | Err _ => mret (Some [])
          | Ok _ =>
              let! paths := completed_build_output_paths existing in
              mret (Some [EPublish (b_id b) paths])
          end
    | _ => mret None
    end.

(** The cached lookup of a fixed-output derivation's path. *)
Definition fod_output (interval : bool) (b : Build) (c : FodCache) :
    option string * FodCache :=
  if b_is_fod b && negb interval then
    match c !! b_drv_path b with
    | Some cached => (cached, c)
    | None =>
        let v := query_drv_output (b_drv_path b) in (v, <[b_drv_path b := v]> c)
    end
  else (None, c).

Definition fod_step (out : option string) (b : Build) : M (option (list Effect)) :=
  match b_is_fod b, out with
  | true, Some path =>
      if nix_check_validity path then
        let! done := mtry (mark_build_done (b_id b) Succeeded None (Some path) None) in
        match done with
        | Err _ => mret (Some [])
        | Ok _ => mret (Some [EPublish (b_id b) [path]])
        end
      else mret None
  | _, _ => mret None
  end.

Definition failed_cache_step (cfg : LoopConfig) (interval : bool) (b : Build) :
    M (option (list Effect)) :=
  if negb interval && lc_failed_paths_cache cfg then
    let! cached := mtry (failed_paths_cache.is_cached_failure (b_drv_path b)) in
    match cached with
    | Ok true =>
        let! _ := mtry (mark_build_done (b_id b) CachedFailure None None
          (Some "Build skipped: derivation is in failed paths cache")) in
        mret (Some [])
    | _ => mret None
    end
  else mret None.

Definition deps_step (b : Build) : M (option (list Effect)) :=
  let! deps := mtry (build_dependencies.all_deps_completed (b_id b)) in
  match deps with
  | Ok true => mret None
  | Ok false | Err _ => mret (Some [])
  end.

(** Some agent of the pool could run the build when it is idle. *)
Definition has_agent (h : Heap) (vals : list positive) (system : string) (b : Build) : bool :=
  existsb (λ a, str_in system (systems (snap_spec a)) &&
                supports_features a (scheduling_features b)) (snapshot_all h vals).

Definition has_builder (builders : list RemoteBuilder) (b : Build) : bool :=
  existsb (λ r, supports_required_features (scheduling_features b)
     (rs_supported_features (rb_params r)) (rs_mandatory_features (rb_params r))) builders.

(** [chrono::Utc::now()], taken as the database's clock. *)
Definition utc_now : M DateTime := λ w, (Ok (w_now w), w).

(** Whether a builder and whether an agent could run the build; [None] when the
    builders cannot be listed. *)
Definition find_venues (cfg : LoopConfig) (h : Heap) (vals : list positive) (b : Build) :
    M (option (bool * bool)) :=
  match b_system b with
  | Some system =>
      let! found := mtry (remote_builders.find_for_system system
                            (lc_scheduling_strategy cfg)) in
      match found with
      | Ok l => mret (Some (has_builder l b, has_agent h vals system b))
      | Err _ => mret None
      end
  | None => mret (Some (false, false))
  end.

(** Nothing can run the build: give up on it once the timeout has passed. *)
Definition expire_unsupported (timeout : Z) (b : Build) : M (option (list Effect)) :=
  let! now := utc_now in
  if b_created_at b + timeout <? now then
    let! _ := mtry (mark_build_done (b_id b) UnsupportedSystem None None
      (Some "No builder available for system/features")) in
    mret (Some [])
  else mret (Some []).

Definition unsupported_step (cfg : LoopConfig) (h : Heap) (vals : list positive)
    (b : Build) : M (option (list Effect)) :=
  match lc_unsupported_timeout cfg with
  | None => mret None
  | Some timeout =>
      let! venues := find_venues cfg h vals b in
      match venues with
      | None => mret (Some [])
      | Some (builder, agent) =>
          let runner := runner_supports (lc_runner_caps cfg) (b_system b)
                          (scheduling_features b) in
          if negb builder && negb agent && negb runner
          then expire_unsupported timeout b else mret None
      end
  end.

Definition one_at_a_time_step (b : Build) : M (option (list Effect)) :=
  let! e := mtry (evaluations.get (b_evaluation_id b)) in
  match e with
  | Err _ => mret (Some [])
  | Ok e =>
      let! j := mtry (jobsets.get (e_jobset_id e)) in
      match j with
      | Err _ => mret (Some [])
      | Ok j =>
          if decide (j_state j = JobsetState.OneAtATime) then
            let! running := mtry (jobsets.has_running_builds (j_id j)) in
            match running with
            | Ok true | Err _ => mret (Some [])
            | Ok false => mret None
            end
          else mret None
      end
  end.

(** Run the steps until one settles the build. *)
Definition or_else (s : M (option (list Effect))) (k : M (list Effect)) :
    M (list Effect) :=
  let! r := s in match r with Some effects => mret effects | None => k end.

(** What follows the deduplication. *)
Definition remaining_steps (cfg : LoopConfig) (h : Heap) (vals : list positive)
    (interval : bool) (out : option string) (b : Build) : M (list Effect) :=
  or_else (fod_step out b) (
  or_else (failed_cache_step cfg interval b) (
  or_else (deps_step b) (
  or_else (unsupported_step cfg h vals b) (
  or_else (one_at_a_time_step b) (
  mret [EDispatch b]))))).

(** The body of [for build in builds]. *)
Definition process_build (cfg : LoopConfig) (h : Heap) (vals : list positive)
    (b : Build) (c : FodCache) : M (list Effect * FodCache) :=
  let! interval := is_interval_rebuild b in
  if b_is_aggregate b then
    let! effects := aggregate_step b in mret (effects, c)
  else
    let! settled := dedup_step interval b in
    match settled with
    | Some effects => mret (effects, c)
    | None =>
        let '(out, c) := fod_output interval b c in
        let! effects := remaining_steps cfg h vals interval out b in
        mret (effects, c)
    end.

Fixpoint process_builds (cfg : LoopConfig) (h : Heap) (vals : list positive)
    (l : list Build) (c : FodCache) : M (list Effect) :=
  match l with
  | [] => mret []
  | b :: l =>
      let! (effects, c) := process_build cfg h vals b c in
      let! rest := process_builds cfg h vals l c in
      mret (effects ++ rest)
  end.

(** ** The cycle *)

Definition EPHEMERAL_SESSION_TTL_SECS : Z := 3600.

Definition reset_orphaned_builds (active : list Uuid) : M () :=
  let! _ := mtry (builds.reset_orphaned_excluding 300 active) in mret ().

Definition prune_stale_ephemeral_sessions : M () :=
  let! _ := mtry (builder_sessions.prune_stale_ephemeral EPHEMERAL_SESSION_TTL_SECS) in
  mret ().

Definition ORPHAN_RESET_INTERVAL : Z := 60000000000.

(** One turn of the loop, at the instants [now] (in nanoseconds): the effects, and
    when the orphans were last reset. *)
Definition cycle (cfg : LoopConfig) (h : Heap) (vals : list positive) (worker_count : Z)
    (active : list Uuid) (last_reset now now' : Instant) : M (list Effect * Instant) :=
  let! last_reset :=
    if ORPHAN_RESET_INTERVAL <=? now - last_reset then
      let! _ := reset_orphaned_builds active in
      let! _ := prune_stale_ephemeral_sessions in
      mret now'
    else mret last_reset in
  let capacity := scheduler_capacity h vals worker_count in
  let! pending := mtry (builds.list_pending (fetch_limit capacity)
                          (schedulable_capacity capacity)) in
  match pending with
  | Ok l => let! effects := process_builds cfg h vals l ∅ in mret (effects, last_reset)
  | Err e => if lc_strict_errors cfg
             then mfail (Internal "Failed to fetch pending builds")
             else mret ([], last_reset)
  end.
End runner_loop.
