(* ===== verification/Scheduling.v ===== *)
(** * Properties of the scheduler loop

    When a pending build is dispatched, what happens to one that is not, the race
    of one-at-a-time jobsets, and the table of active builds. *)

From S2P Require Import Prelude Types Float32 Psi Pool Db Builds Lifecycle Builders PendingQueue Dispatch RunnerLoop.

Section scheduling.
Context (nix_query_outputs : string → option string).
Context (nix_check_validity : string → bool).
Context (cfg : LoopConfig) (h : Heap) (vals : list positive).
Context (w : World) (b : Build).
Context (Hf : w_faults w = []).
Context (Hrow : w_builds w !! b_id b = Some b) (Hpend : b_status b = Pending).
Context (Hinv : inv w).

(** ** When a build is dispatched *)

(** The evaluation was triggered by its interval. *)
Definition interval_of : bool :=
  match w_evaluations w !! b_evaluation_id b with
  | Some e => bool_decide (e_trigger_kind e = EvaluationTriggerKind.Interval)
  | None => false
  end.

(** No build of the same derivation has succeeded. *)
Definition not_built : Prop :=
  ∀ id e, w_builds w !! id = Some e → b_drv_path e = b_drv_path b → b_status e ≠ Succeeded.

(** The output of a fixed-output derivation is not in the store. *)
Definition fod_missing (c : FodCache) : Prop :=
  ∀ path, (fod_output nix_query_outputs interval_of b c).1 = Some path →
    nix_check_validity path = false.

Definition not_known_to_fail : Prop :=
  lc_failed_paths_cache cfg = true → w_failed_paths w !! b_drv_path b = None.

Definition deps_met : Prop :=
  ∀ d dep, (b_id b, d) ∈ w_deps w → w_builds w !! d = Some dep → b_status dep = Succeeded.

(** The builders [find_for_system] returns; [None] when it fails. *)
Definition found_builders (system : string) : option (list RemoteBuilder) :=
  match (remote_builders.find_for_system system (lc_scheduling_strategy cfg) w).1 with
  | Ok l => Some l
  | Err _ => None
  end.

(** Some builder, agent or the runner has the system and the features. *)
Definition supported : bool :=
  match b_system b with
  | Some system =>
      match found_builders system with
      | Some l => has_builder l b || has_agent h vals system b ||
          runner_supports (lc_runner_caps cfg) (b_system b) (scheduling_features b)
      | None => false
      end
  | None => runner_supports (lc_runner_caps cfg) (b_system b) (scheduling_features b)
  end.

Definition jobset_free : Prop :=
  ∃ e j, w_evaluations w !! b_evaluation_id b = Some e ∧
    w_jobsets w !! e_jobset_id e = Some j ∧
    (j_state j = JobsetState.OneAtATime → Sql.running_count w (j_id j) = 0).

(** The gates of the loop. *)
Record dispatchable (c : FodCache) : Prop := {
  dp_plain : b_is_aggregate b = false;
  dp_not_built : interval_of = false → not_built;
  dp_fod : b_is_fod b = true → interval_of = false → fod_missing c;
  dp_not_failing : interval_of = false → not_known_to_fail;
  dp_deps : deps_met;
  dp_supported : is_Some (lc_unsupported_timeout cfg) → supported = true;
  dp_jobset : jobset_free;
}.

(** The row of the build is the only one that may have changed, and then the build
    is finished without having been run. *)
Definition settled (w' : World) : Prop :=
  w' = w ∨ ∃ b', w' = set_w_builds (<[b_id b := b']> (w_builds w)) w ∧
    b_status b' ∈ [Succeeded; CachedFailure; UnsupportedSystem].

Definition no_dispatch (effects : list Effect) : Prop :=
  ∀ b', EDispatch b' ∉ effects.

(** A step settles the build or, under [P], lets it through untouched. *)
Definition gate (P : Prop) (s : M (option (list Effect))) : Prop :=
  ∃ r w', s w = (Ok r, w') ∧
  match r with
  | None => P ∧ w' = w
  | Some effects => ¬ P ∧ no_dispatch effects ∧ settled w'
  end.

Definition decides (P : Prop) (s : M (list Effect)) : Prop :=
  ∃ effects w', s w = (Ok effects, w') ∧
  ((P ∧ effects = [EDispatch b] ∧ w' = w) ∨ (¬ P ∧ no_dispatch effects ∧ settled w')).

Lemma or_else_decides P Q s k :
  gate P s → (P → decides Q k) → decides (P ∧ Q) (or_else s k).
Proof.
  intros (r & w1 & Hs & Hr) Hk. unfold or_else, decides.
  rewrite (mbind_ok _ _ _ _ _ Hs). destruct r as [effects|].
  - exists effects, w1. split; [done|]. right. destruct Hr as (? & ? & ?). tauto.
  - destruct Hr as [HP ->]. destruct (Hk HP) as (effects & w2 & ? & Hd).
    exists effects, w2. split; [done|]. destruct Hd as [[? ?]|[? ?]]; tauto.
Qed.

Lemma decides_iff P Q s : (P ↔ Q) → decides P s → decides Q s.
Proof. intros HPQ (effects & w' & ? & Hd). exists effects, w'. split; [done|]. tauto. Qed.

Lemma no_dispatch_nil : no_dispatch [].
Proof. intros b' Hb'. by apply not_elem_of_nil in Hb'. Qed.

Lemma no_dispatch_publish id paths : no_dispatch [EPublish id paths].
Proof. intros b' Hb'. by apply list_elem_of_singleton in Hb'. Qed.

(** ** Writing the result *)

Lemma update_ok id guard f w0 x x' :
  w_faults w0 = [] → w_builds w0 !! id = Some x → guard x = true → f x = Some x' →
  Sql.update id guard f w0 = (Ok (Some x'), set_w_builds (<[id := x']> (w_builds w0)) w0).
Proof. intros H1 H2 H3 H4. rewrite update_no_fault, H2, H3, H4 by done. done. Qed.

Lemma set_w_builds_id w0 : set_w_builds (w_builds w0) w0 = w0.
Proof. by destruct w0. Qed.

(** [start], then [complete]: whether or not the build could be claimed, its row
    ends with the given status and nothing else changes. *)
Lemma mark_done_ok status log out err :
  ∃ b', mtry (mark_build_done (b_id b) status log out err) w =
    (Ok (Ok ()), set_w_builds (<[b_id b := b']> (w_builds w)) w) ∧ b_status b' = status.
Proof.
  assert (Hs : ∃ x r, Sql.start (b_id b) w =
    (r, set_w_builds (<[b_id b := x]> (w_builds w)) w)).
  { unfold Sql.start. rewrite update_no_fault, Hrow by done.
    case_match; [by eexists _, _|]. exists b, (Ok None).
    by rewrite insert_id, set_w_builds_id. }
  destruct Hs as (x & r & Hs).
  exists (Sql.set_complete status (w_now w) log out err x). split; [|done].
  apply mtry_ok. unfold mark_build_done.
  rewrite (mbind_ok _ _ _ _ _ (mtry_ok _ _ _ _ Hs)).
  unfold builds.complete, or_not_found, mbind, Sql.complete.
  rewrite (update_ok _ _ _ _ x (Sql.set_complete status (w_now w) log out err x));
    [|done|by simpl; rewrite lookup_insert_eq|done|done].
  simpl. unfold mret. by rewrite insert_insert_eq.
Qed.

Lemma settled_done b' status :
  b_status b' = status → status ∈ [Succeeded; CachedFailure; UnsupportedSystem] →
  settled (set_w_builds (<[b_id b := b']> (w_builds w)) w).
Proof. intros <- H. right. by exists b'. Qed.

(** ** The gates *)

Lemma interval_ok : is_interval_rebuild b w = (Ok interval_of, w).
Proof.
  unfold is_interval_rebuild, evaluations.get.
  rewrite (mbind_ok _ _ _ _ _ (get_no_fault _ _ w Hf)). unfold interval_of.
  by destruct (w_evaluations w !! _).
Qed.

Lemma find_rows (t : gmap Z Build) p :
  match List.find p (rows t) with
  | Some e => p e = true ∧ ∃ id, t !! id = Some e
  | None => ∀ id e, t !! id = Some e → p e = false
  end.
Proof.
  destruct (List.find p (rows t)) as [e|] eqn:E.
  - apply find_some in E as [He ?]. split; [done|].
    apply list_elem_of_In, list_elem_of_fmap in He as ([id e'] & -> & He).
    apply elem_of_map_to_list in He. by exists id.
  - intros id e He. eapply find_none in E; [exact E|].
    apply list_elem_of_In, list_elem_of_fmap. exists (id, e).
    split; [done|]. by apply elem_of_map_to_list.
Qed.

Lemma dedup_gate : gate (interval_of = false → not_built) (dedup_step interval_of b).
Proof.
  unfold dedup_step, gate. destruct interval_of eqn:Hi.
  { exists None, w. by split_and!. }
  unfold builds.get_completed_by_drv_path, Sql.get_completed_by_drv_path.
  erewrite mbind_ok by (apply mtry_ok, read_no_fault, Hf). cbv beta.
  set (p := λ b0, bool_decide (b_drv_path b0 = b_drv_path b) && Sql.has_status Succeeded b0).
  pose proof (find_rows (w_builds w) p) as Hp.
  destruct (List.find p _) as [e|]; cycle 1.
  { exists None, w. split_and!; [done| |done]. intros _ id e He Hd Hs.
    apply Hp in He. unfold p, Sql.has_status in He. by rewrite !bool_decide_true in He. }
  destruct Hp as [Hp (id & He)]. unfold p, Sql.has_status in Hp.
  apply andb_true_iff in Hp as [Hd%bool_decide_eq_true Hs%bool_decide_eq_true].
  assert (b_id e ≠ b_id b).
  { intros Heq. destruct (proj1 Hinv id e He) as [Hid _]. rewrite Hid in Heq. subst id.
    rewrite Hrow in He. simplify_eq. congruence. }
  destruct (Z.eqb_spec (b_id e) (b_id b)); [done|].
  destruct (mark_done_ok Succeeded (b_log_path e) (b_build_output_path e) None)
    as (b' & Hm & Hst).
  rewrite (mbind_ok _ _ _ _ _ Hm). unfold completed_build_output_paths.
  unfold build_outputs.list_for_build.
  eexists (Some _), _. split.
  { erewrite mbind_ok; [reflexivity|]. erewrite mbind_ok by (by apply mtry_ok, read_no_fault).
    reflexivity. }
  split_and!; [|apply no_dispatch_publish|by eapply settled_done; [|left]].
  intros Hn. by apply (Hn eq_refl id e).
Qed.

Lemma fod_gate c :
  gate (b_is_fod b = true → interval_of = false → fod_missing c)
    (fod_step nix_check_validity (fod_output nix_query_outputs interval_of b c).1 b).
Proof.
  unfold fod_step, gate, fod_missing.
  destruct (b_is_fod b) eqn:Hfod; [|by exists None, w].
  destruct ((fod_output _ _ b c).1) as [path|] eqn:Ho; [|by exists None, w].
  assert (interval_of = false) as Hi.
  { unfold fod_output in Ho. rewrite Hfod in Ho. by destruct interval_of. }
  destruct (nix_check_validity path) eqn:Hv.
  - destruct (mark_done_ok Succeeded None (Some path) None) as (b' & Hm & Hst).
    rewrite (mbind_ok _ _ _ _ _ Hm). eexists (Some _), _. split; [reflexivity|].
    split_and!; [|apply no_dispatch_publish|by eapply settled_done; [|left]].
    intros Hn. specialize (Hn eq_refl Hi path eq_refl). congruence.
  - exists None, w. split_and!; [done| |done]. intros _ _ path' ?. by simplify_eq.
Qed.

Lemma failed_gate :
  gate (interval_of = false → not_known_to_fail) (failed_cache_step cfg interval_of b).
Proof.
  unfold failed_cache_step, gate, not_known_to_fail.
  destruct interval_of eqn:Hi; [by exists None, w|]. simpl.
  destruct (lc_failed_paths_cache cfg) eqn:Hc; [|by exists None, w].
  assert (Hr : failed_paths_cache.is_cached_failure (b_drv_path b) w =
    (Ok (is_some (w_failed_paths w !! b_drv_path b)), w)).
  { unfold failed_paths_cache.is_cached_failure, Sql.is_cached_failure.
    erewrite mbind_ok by (by apply read_no_fault). by destruct (w_failed_paths w !! _). }
  rewrite (mbind_ok _ _ _ _ _ (mtry_ok _ _ _ _ Hr)).
  destruct (w_failed_paths w !! _) as [f|]; simpl; [|by exists None, w].
  destruct (mark_done_ok CachedFailure None None
    (Some "Build skipped: derivation is in failed paths cache")) as (b' & Hm & Hst).
  rewrite (mbind_ok _ _ _ _ _ Hm). eexists (Some _), _. split; [reflexivity|].
  split_and!; [|apply no_dispatch_nil|by eapply settled_done; [|right; left]].
  intros Hn. by specialize (Hn eq_refl eq_refl).
Qed.

Lemma deps_ok :
  ∃ r, build_dependencies.all_deps_completed (b_id b) w = (Ok r, w) ∧
    (r = true ↔ deps_met).
Proof.
  unfold build_dependencies.all_deps_completed, Sql.all_deps_completed.
  erewrite mbind_ok by (by apply read_no_fault).
  eexists. split; [reflexivity|]. rewrite Z.eqb_eq.
  set (p := λ d, match w_builds w !! d with
    | Some dep => negb (Sql.has_status Succeeded dep) | None => false end).
  unfold deps_met, Sql.deps_of. split.
  - intros Hz d dep Hd Hdep.
    assert (Hnil : List.filter p (snd <$> List.filter (λ d0, d0.1 =? b_id b) (w_deps w)) = []).
    { apply nil_length_inv. lia. }
    assert (p d = false) as Hp.
    { destruct (p d) eqn:Hp; [|done]. assert (In d []) as [].
      rewrite <-Hnil. apply filter_In. split; [|done].
      apply list_elem_of_In, list_elem_of_fmap. exists (b_id b, d). split; [done|].
      apply list_elem_of_In, filter_In. split; [by apply list_elem_of_In|].
      apply Z.eqb_refl. }
    unfold p in Hp. rewrite Hdep in Hp. apply negb_false_iff in Hp.
    by apply bool_decide_eq_true in Hp.
  - intros Hd. destruct (List.filter p _) as [|d l] eqn:E; [done|]. exfalso.
    assert (In d (d :: l)) as Hin by (by left). rewrite <-E in Hin.
    apply filter_In in Hin as [Hin Hp].
    apply list_elem_of_In, list_elem_of_fmap in Hin as ([i d'] & -> & Hin).
    apply list_elem_of_In, filter_In in Hin as [Hin Hi%Z.eqb_eq].
    simpl in Hi. subst i.
    unfold p in Hp. simpl in Hp. destruct (w_builds w !! d') as [dep|] eqn:Hdep; [|done].
    apply list_elem_of_In in Hin. specialize (Hd d' dep Hin Hdep).
    unfold Sql.has_status in Hp. by rewrite bool_decide_true in Hp.
Qed.

Lemma deps_gate : gate deps_met (deps_step b).
Proof.
  unfold deps_step, gate. destruct deps_ok as (r & Hr & Hiff).
  rewrite (mbind_ok _ _ _ _ _ (mtry_ok _ _ _ _ Hr)).
  destruct r; [exists None, w|exists (Some []), w]; (split; [done|]).
  - split; [by apply Hiff|done].
  - split_and!; [by intros ?%Hiff|apply no_dispatch_nil|by left].
Qed.

Lemma venues_ok :
  ∃ r, find_venues cfg h vals b w = (Ok r, w) ∧
    supported = match r with
      | Some (builder, agent) => builder || agent ||
          runner_supports (lc_runner_caps cfg) (b_system b) (scheduling_features b)
      | None => false
      end.
Proof.
  unfold find_venues, supported. destruct (b_system b) as [system|]; cycle 1.
  { by eexists. }
  unfold found_builders, remote_builders.find_for_system, query. rewrite Hf.
  destruct (forallb _ _) eqn:Hok; (eexists; split;
    [erewrite mbind_ok by (apply mtry_ok; rewrite Hf, Hok; reflexivity); reflexivity|done]).
Qed.

Lemma expire_ok timeout :
  ∃ w', expire_unsupported timeout b w = (Ok (Some []), w') ∧ settled w'.
Proof.
  unfold expire_unsupported. rewrite (mbind_ok _ _ (w_now w) w w) by done. case_match.
  - destruct (mark_done_ok UnsupportedSystem None None
      (Some "No builder available for system/features")) as (b' & Hm & Hst).
    rewrite (mbind_ok _ _ _ _ _ Hm). eexists. split; [reflexivity|].
    eapply settled_done; [done|]. by right; right; left.
  - exists w. split; [done|by left].
Qed.

Lemma unsupported_gate :
  gate (is_Some (lc_unsupported_timeout cfg) → supported = true)
    (unsupported_step cfg h vals b).
Proof.
  unfold unsupported_step, gate.
  destruct (lc_unsupported_timeout cfg) as [timeout|]; cycle 1.
  { exists None, w. split_and!; [done|by intros []|done]. }
  destruct venues_ok as (r & Hr & ->). rewrite (mbind_ok _ _ _ _ _ Hr).
  assert (Hno : ∀ x : bool, x = false → ¬ (is_Some (Some timeout) → x = true)).
  { intros x -> Hx. by specialize (Hx ltac:(eauto)). }
  destruct r as [[builder agent]|]; cycle 1.
  { exists (Some []), w. split_and!; [done|by apply Hno|apply no_dispatch_nil|by left]. }
  destruct (negb builder && negb agent && negb _) eqn:Hv.
  - destruct (expire_ok timeout) as (w' & He & ?). exists (Some []), w'.
    split_and!; [done| |apply no_dispatch_nil|done]. apply Hno.
    destruct builder, agent; try done. by apply negb_true_iff in Hv.
  - exists None, w. split_and!; [done| |done]. intros _.
    destruct builder, agent; try done. by apply negb_false_iff in Hv.
Qed.

Lemma jobset_gate : gate jobset_free (one_at_a_time_step b).
Proof.
  unfold one_at_a_time_step, gate, jobset_free, evaluations.get.
  assert (Hskip : ∀ P : Prop, ¬ P → ∃ r w', mret (Some []) w = (Ok r, w') ∧
    match r with None => P ∧ w' = w | Some effects => ¬ P ∧ no_dispatch effects ∧ settled w' end).
  { intros P HP. exists (Some []), w. split_and!; [done..|apply no_dispatch_nil|by left]. }
  rewrite (mbind_ok _ _ _ _ _ (get_no_fault _ _ w Hf)).
  destruct (w_evaluations w !! _) as [e|] eqn:He; cycle 1.
  { apply Hskip. by intros (e & j & ? & _). }
  unfold jobsets.get. rewrite (mbind_ok _ _ _ _ _ (get_no_fault _ _ w Hf)).
  destruct (w_jobsets w !! _) as [j|] eqn:Hj; cycle 1.
  { apply Hskip. intros (e' & j & ? & ? & _). congruence. }
  case_decide as Hst; cycle 1.
  { exists None, w. split_and!; [done| |done]. by exists e, j. }
  unfold jobsets.has_running_builds.
  erewrite mbind_ok by (by apply mtry_ok, read_no_fault). cbv beta.
  destruct (Z.ltb_spec 0 (Sql.running_count w (j_id j))) as [Hc|Hc].
  - apply Hskip. intros (e' & j' & ? & ? & Hr). simplify_eq. rewrite Hr in Hc by done. lia.
  - exists None, w. split_and!; [done| |done]. exists e, j. split_and!; [done..|].
    intros _. unfold Sql.running_count in *. lia.
Qed.

(** ** Aggregates *)

Lemma aggregate_ok :
  ∃ effects w', aggregate_step b w = (Ok effects, w') ∧ no_dispatch effects ∧ settled w'.
Proof.
  unfold aggregate_step. destruct deps_ok as (r & Hr & _).
  rewrite (mbind_ok _ _ _ _ _ (mtry_ok _ _ _ _ Hr)).
  destruct r; [|exists [], w; split_and!; [done|apply no_dispatch_nil|by left]].
  destruct (mark_done_ok Succeeded None None None) as (b' & Hm & Hst).
  rewrite (mbind_ok _ _ _ _ _ Hm).
  set (w1 := set_w_builds _ _). assert (w_faults w1 = []) as Hf1 by done.
  assert (settled w1) by (by eapply settled_done; [|left]).
  unfold builds.get. rewrite (mbind_ok _ _ _ _ _ (get_no_fault _ _ w1 Hf1)).
  destruct (w_builds w1 !! _) as [u|]; [|by exists [], w1; split_and!; [|apply no_dispatch_nil|]].
  assert (∃ o, get_project_for_build u w1 = (Ok o, w1)) as [o Ho].
  { unfold get_project_for_build, evaluations.get, jobsets.get, projects.get.
    rewrite (mbind_ok _ _ _ _ _ (get_no_fault _ _ w1 Hf1)).
    destruct (w_evaluations w1 !! _); [|by eexists].
    rewrite (mbind_ok _ _ _ _ _ (get_no_fault _ _ w1 Hf1)).
    destruct (w_jobsets w1 !! _); [|by eexists].
    rewrite (mbind_ok _ _ _ _ _ (get_no_fault _ _ w1 Hf1)).
    destruct (w_projects w1 !! _); by eexists. }
  rewrite (mbind_ok _ _ _ _ _ Ho).
  destruct o as [[p commit]|]; [|by exists [], w1; split_and!; [|apply no_dispatch_nil|]].
  eexists [_], w1. split_and!; [reflexivity| |done].
  intros b'' Hb. by apply list_elem_of_singleton in Hb.
Qed.

Lemma remaining_decides c :
  decides
    ((b_is_fod b = true → interval_of = false → fod_missing c) ∧
     (interval_of = false → not_known_to_fail) ∧ deps_met ∧
     (is_Some (lc_unsupported_timeout cfg) → supported = true) ∧ jobset_free ∧ True)
    (remaining_steps nix_check_validity cfg h vals interval_of
       (fod_output nix_query_outputs interval_of b c).1 b).
Proof.
  apply or_else_decides; [apply fod_gate|intros _].
  apply or_else_decides; [apply failed_gate|intros _].
  apply or_else_decides; [apply deps_gate|intros _].
  apply or_else_decides; [apply unsupported_gate|intros _].
  apply or_else_decides; [apply jobset_gate|intros _].
  exists [EDispatch b], w. split; [done|]. by left.
Qed.

Lemma process_build_cases c :
  ∃ effects c' w',
    process_build nix_query_outputs nix_check_validity cfg h vals b c w =
      (Ok (effects, c'), w') ∧
    ((dispatchable c ∧ effects = [EDispatch b] ∧ w' = w) ∨
     (¬ dispatchable c ∧ no_dispatch effects ∧ settled w')).
Proof.
  unfold process_build. rewrite (mbind_ok _ _ _ _ _ interval_ok).
  destruct (b_is_aggregate b) eqn:Ha.
  { destruct aggregate_ok as (effects & w' & Hg & ? & ?).
    rewrite (mbind_ok _ _ _ _ _ Hg). exists effects, c, w'. split; [done|].
    right. split_and!; [|done..]. intros Hd. pose proof (dp_plain _ Hd). congruence. }
  destruct dedup_gate as (r & w1 & Hs & Hr). rewrite (mbind_ok _ _ _ _ _ Hs).
  destruct r as [effects|].
  { exists effects, c, w1. split; [done|]. right. destruct Hr as (Hn & ? & ?).
    split_and!; [|done..]. intros Hd. apply Hn, (dp_not_built _ Hd). }
  destruct Hr as [Hnb ->].
  destruct (remaining_decides c) as (effects & w' & Hk & Hd).
  destruct (fod_output _ _ b c) as [out c'] eqn:Ho. simpl in Hk.
  rewrite (mbind_ok _ _ _ _ _ Hk). exists effects, c', w'. split; [done|].
  destruct Hd as [[Hd ?]|[Hd ?]]; [left|right]; (split; [|done]).
  - destruct Hd as (? & ? & ? & ? & ? & _). by constructor.
  - intros []. by apply Hd.
Qed.
End scheduling.

(** C2. Exactly which pending builds a cycle hands to the workers, the database
    answering.  A pending build is dispatched, alone and without any write, if and
    only if: it is not an aggregate; no build of its derivation has succeeded, its
    fixed output is not in the store and its derivation is not in the cache of
    failures (three checks an interval rebuild skips); all its dependencies have
    succeeded; with an unsupported-system timeout, some builder, agent or the
    runner has its system and features; and its jobset exists and, when
    one-at-a-time, runs no build.  Otherwise nothing is dispatched and the database
    is unchanged but for the build's own row, which is then finished as succeeded,
    cached failure or unsupported system. *)
Theorem process_build_dispatches_exactly nq nv cfg h vals w b c :
  reachable w → w_faults w = [] → w_builds w !! b_id b = Some b → b_status b = Pending →
  ∃ effects c' w',
    process_build nq nv cfg h vals b c w = (Ok (effects, c'), w') ∧
    ((dispatchable nq nv cfg h vals w b c ∧ effects = [EDispatch b] ∧ w' = w) ∨
     (¬ dispatchable nq nv cfg h vals w b c ∧ no_dispatch effects ∧ settled w b w')).
Proof. intros Hr%inv_reachable. intros. by apply process_build_cases. Qed.

Definition loop_config : LoopConfig :=
  {| lc_failed_paths_cache := true; lc_unsupported_timeout := None;
     lc_scheduling_strategy := SpeedFactorOnly; lc_strict_errors := false;
     lc_runner_caps := {| caps_enabled := true; caps_systems := ["x86_64-linux"];
                          caps_features := ["kvm"] |} |}.

Lemma process_build_dispatches_exactly_witness :
  ∃ b, w_builds queue_world !! 10 = Some b ∧
  dispatchable (λ _, None) (λ _, false) loop_config ∅ [] queue_world b ∅.
Proof.
  eexists. split; [reflexivity|].
  match goal with |- dispatchable _ _ _ _ _ _ ?b _ =>
    destruct (process_build_dispatches_exactly (λ _, None) (λ _, false) loop_config ∅ []
      queue_world b ∅ queue_world_reachable eq_refl eq_refl eq_refl)
      as (effects & c' & w' & Hrun & [[Hd _]|[_ [Hn _]]]); [exact Hd|]
  end.
  exfalso. apply (f_equal (λ r, match r.1 with Ok (e, _) => e | Err _ => [] end)) in Hrun.
  vm_compute in Hrun. subst effects. eapply Hn. left.
Defined.

(** ** One-at-a-time jobsets *)

Definition second_input : Sql.CreateBuild :=
  {| Sql.cb_evaluation_id := 1; Sql.cb_job_name := "world";
     Sql.cb_drv_path := "/nix/store/world.drv"; Sql.cb_system := Some "x86_64-linux";
     Sql.cb_outputs := None; Sql.cb_is_aggregate := None; Sql.cb_constituents := None;
     Sql.cb_is_fod := None; Sql.cb_fod_hash := None; Sql.cb_meta_description := None;
     Sql.cb_meta_license := None; Sql.cb_meta_homepage := None;
     Sql.cb_meta_maintainers := None; Sql.cb_required_features := [] |}.

(** [queue_world] with a second pending build of the same jobset. *)
Definition two_pending : World := exec (OCreate 11 second_input) queue_world.

Lemma two_pending_reachable : reachable two_pending.
Proof. eapply rtc_r; [apply queue_world_reachable|]. by apply step_op. Qed.

(** The ids a cycle dispatches. *)
Definition dispatched (effects : list Effect) : list Uuid :=
  omap (λ e, match e with EDispatch b => Some (b_id b) | _ => None end) effects.

(** One-at-a-time is not enforced: there is a reachable database with a
    one-at-a-time jobset in which one cycle of the loop dispatches two builds of the
    jobset (the check reads the running builds, which the tasks only become later),
    and both are then started, so that the jobset runs two builds at once. *)
Theorem one_at_a_time_race :
  ∃ w j, reachable w ∧ w_faults w = [] ∧ w_jobsets w !! j_id j = Some j ∧
  j_state j = JobsetState.OneAtATime ∧ Sql.running_count w (j_id j) = 0 ∧
  ∃ effects t w',
    cycle (λ _, None) (λ _, false) loop_config ∅ [] 4 [] 0 0 0 w = (Ok (effects, t), w') ∧
    w' = w ∧ dispatched effects = [10; 11] ∧
    Sql.running_count (exec (OStart 11) (exec (OStart 10) w)) (j_id j) = 2.
Proof.
  exists two_pending, example_jobset.
  split_and!; [apply two_pending_reachable|done..|].
  eexists _, _, _. split; [vm_compute; reflexivity|].
  split_and!; vm_compute; reflexivity.
Qed.
