(* ===== verification/ActiveBuilds.v ===== *)
(** * The table of active builds

    [WorkerPool::dispatch] ([crates/queue-runner/src/worker.rs]) registers a
    cancellation token for the build, spawns a task and removes the entry when the
    task ends; the cancel checker ([cli.rs]) uses the table to reach the tasks of
    cancelled builds, and the orphan recovery ([runner_loop.rs]) to spare the builds
    this process is running.

    The tasks interleave.  The table is exact as long as a build has at most one
    task; nothing in the loop guarantees that, and with two tasks the first to end
    unregisters the other. *)

From S2P Require Import Prelude Types Db Builds Lifecycle PendingQueue RunnerLoop Scheduling.

Inductive Phase := Waiting | Executing.

(** A task is known by its token. *)
Record sys := {
  world : World;
  active : gmap Z Z;
  live : gmap Z (Z * Phase);
  cancelled : gset Z;
}.

(** ** Operations *)

(** [dispatch]: nothing while draining. *)
Definition dispatch (draining : bool) (tok : Z) (b : Build) (s : sys) : sys :=
  if draining then s
  else {| world := world s; active := <[b_id b := tok]> (active s);
          live := <[tok := (b_id b, Waiting)]> (live s); cancelled := cancelled s |}.

(** The end of a task, however [select!] came out. *)
Definition task_end (tok : Z) (s : sys) : sys :=
  match live s !! tok with
  | Some (id, _) =>
      {| world := world s; active := delete id (active s);
         live := delete tok (live s); cancelled := cancelled s |}
  | None => s
  end.

(** [repo::builds::start] in [run_build], once a venue is reserved: the task goes
    on when it claimed the build and returns otherwise. *)
Definition claim (tok : Z) (s : sys) : sys :=
  match live s !! tok with
  | Some (id, Waiting) =>
      let '(r, w) := builds.start id (world s) in
      let s' := {| world := w; active := active s; live := live s;
                   cancelled := cancelled s |} in
      match r with
      | Ok (Some _) =>
          {| world := w; active := active s; live := <[tok := (id, Executing)]> (live s);
             cancelled := cancelled s |}
      | _ => task_end tok s'
      end
  | _ => s
  end.

(** The loop over [cancelled_ids]. *)
Fixpoint cancel_all (ids : list Uuid) (s : sys) : sys :=
  match ids with
  | [] => s
  | id :: ids =>
      cancel_all ids
        match active s !! id with
        | Some tok =>
            {| world := world s; active := delete id (active s); live := live s;
               cancelled := {[tok]} ∪ cancelled s |}
        | None => s
        end
  end.

Definition active_ids (s : sys) : list Uuid := (map_to_list (active s)).*1.

(** One turn of [cancel_checker_loop]. *)
Definition cancel_check (s : sys) : sys :=
  match active_ids s with
  | [] => s
  | ids =>
      let '(r, w) := builds.get_cancelled_among ids (world s) in
      let s := {| world := w; active := active s; live := live s;
                  cancelled := cancelled s |} in
      match r with Ok ids => cancel_all ids s | Err _ => s end
  end.

Definition reset_orphans (s : sys) : sys :=
  {| world := (reset_orphaned_builds (active_ids s) (world s)).2; active := active s;
     live := live s; cancelled := cancelled s |}.

(** ** Runs *)

(** [single] restricts dispatches to builds without a live task. *)
Inductive step (single : bool) : sys → sys → Prop :=
  | st_dispatch s draining tok b :
      live s !! tok = None → tok ∉ cancelled s →
      (single = true → ∀ tok' ph, live s !! tok' ≠ Some (b_id b, ph)) →
      step single s (dispatch draining tok b s)
  | st_end s tok : step single s (task_end tok s)
  | st_claim s tok : step single s (claim tok s)
  | st_cancel_check s : step single s (cancel_check s)
  | st_reset s : step single s (reset_orphans s)
  (** Everything else that happens to the database. *)
  | st_world s w :
      Lifecycle.step (world s) w →
      step single s {| world := w; active := active s; live := live s;
                       cancelled := cancelled s |}.

Definition init : sys :=
  {| world := empty_world; active := ∅; live := ∅; cancelled := ∅ |}.

Definition reachable_sys (single : bool) : sys → Prop := rtc (step single) init.

(** ** Exactness under single dispatch *)

Record exact (s : sys) : Prop := {
  ex_world : reachable (world s);
  ex_active id tok : active s !! id = Some tok →
    (tok ∉ cancelled s) ∧ (∃ ph, live s !! tok = Some (id, ph));
  ex_live tok id ph : live s !! tok = Some (id, ph) → tok ∉ cancelled s →
    active s !! id = Some tok;
  ex_unique tok tok' id ph ph' : live s !! tok = Some (id, ph) →
    live s !! tok' = Some (id, ph') → tok = tok';
}.

(** The database moves on; the tasks do not. *)
Lemma exact_world s w :
  exact s → reachable w →
  exact {| world := w; active := active s; live := live s; cancelled := cancelled s |}.
Proof. intros [? ? ? ?] ?. by constructor. Qed.

Lemma reachable_op w o : reachable w → op_ok w o → reachable (exec o w).
Proof. intros. eapply rtc_r; [done|]. by apply step_op. Qed.

Lemma exact_dispatch draining tok b s :
  exact s → live s !! tok = None → tok ∉ cancelled s →
  (∀ tok' ph, live s !! tok' ≠ Some (b_id b, ph)) →
  exact (dispatch draining tok b s).
Proof.
  intros [Hw Ha Hl Hu] Hn Hc Hs. destruct draining; [by constructor|].
  constructor; simpl; [done| | |].
  - intros id t [[<- <-]|[Hne Ht]]%lookup_insert_Some.
    + split; [done|]. exists Waiting. by rewrite lookup_insert_eq.
    + destruct (Ha id t Ht) as [? [ph ?]]. split; [done|]. exists ph.
      rewrite lookup_insert_ne; [done|]. intros ->. congruence.
  - intros t id ph [[<- Heq]|[Hne Ht]]%lookup_insert_Some Hnc.
    + simplify_eq. by rewrite lookup_insert_eq.
    + rewrite lookup_insert_ne; [by eapply Hl|]. intros <-. by eapply Hs.
  - intros t t' id ph ph' [[<- H1]|[? Ht]]%lookup_insert_Some
      [[<- H2]|[? Ht']]%lookup_insert_Some; simplify_eq; try done.
    + exfalso. by eapply Hs.
    + exfalso. by eapply Hs.
    + by eapply Hu.
Qed.

Lemma exact_end tok s : exact s → exact (task_end tok s).
Proof.
  intros [Hw Ha Hl Hu]. unfold task_end.
  destruct (live s !! tok) as [[id ph]|] eqn:E; [|by constructor].
  constructor; simpl; [done| | |].
  - intros id' t [Hne Ht]%lookup_delete_Some. destruct (Ha id' t Ht) as [? [ph' ?]].
    split; [done|]. exists ph'. apply lookup_delete_Some. split; [|done].
    intros ->. congruence.
  - intros t id' ph' [Hne Ht]%lookup_delete_Some Hc. apply lookup_delete_Some.
    split; [|by eapply Hl]. intros ->. by apply Hne; eapply Hu.
  - intros t t' id' ? ? [_ ?]%lookup_delete_Some [_ ?]%lookup_delete_Some. by eapply Hu.
Qed.

Lemma exact_claim tok s : exact s → exact (claim tok s).
Proof.
  intros Hs. unfold claim.
  destruct (live s !! tok) as [[id []]|] eqn:E; try done.
  destruct (builds.start id (world s)) as [r w] eqn:Est.
  assert (Hw : reachable w).
  { change w with (r, w).2. rewrite <-Est. apply (reachable_op _ (OStart id)); [apply Hs|done]. }
  pose proof (exact_world s w Hs Hw) as Hs'.
  destruct r as [[b|]|]; [|by apply exact_end..].
  destruct Hs as [_ Ha Hl Hu]. constructor; simpl; [done| | |].
  - intros id' t Ht. destruct (Ha id' t Ht) as [? [ph ?]]. split; [done|].
    destruct (decide (tok = t)) as [->|]; [|exists ph; by rewrite lookup_insert_ne].
    exists Executing. rewrite lookup_insert_eq. congruence.
  - intros t id' ph [[<- Heq]|[? Ht]]%lookup_insert_Some ?; simplify_eq; by eapply Hl.
  - intros t t' id' ph ph' [[<- H1]|[? Ht]]%lookup_insert_Some
      [[<- H2]|[? Ht']]%lookup_insert_Some; simplify_eq; try done; by eapply Hu.
Qed.

Lemma exact_cancel ids s : exact s → exact (cancel_all ids s).
Proof.
  revert s. induction ids as [|id ids IH]; intros s Hs; [done|]. simpl. apply IH.
  destruct (active s !! id) as [tok|] eqn:E; [|done].
  destruct Hs as [Hw Ha Hl Hu]. constructor; simpl; [done| | |done].
  - intros id' t [Hne Ht]%lookup_delete_Some. destruct (Ha id' t Ht) as [? [ph ?]].
    split; [|by exists ph]. intros [->%elem_of_singleton|?]%elem_of_union; [|done].
    destruct (Ha id tok E) as [_ [ph' ?]]. congruence.
  - intros t id' ph Ht [Hne Hc]%not_elem_of_union. apply lookup_delete_Some.
    pose proof (Hl t id' ph Ht Hc) as Ht'. split; [|done].
    intros ->. rewrite E in Ht'. simplify_eq. by apply Hne, elem_of_singleton.
Qed.

Lemma get_cancelled_reachable ids w r w' :
  reachable w → builds.get_cancelled_among ids w = (r, w') → reachable w'.
Proof.
  intros Hr H. eapply rtc_r; [done|]. apply step_env.
  change w' with (r, w').2. rewrite <-H.
  unfold builds.get_cancelled_among, Sql.get_cancelled_among, read.
  destruct ids as [|i ids]; [done|].
  match goal with |- context [query ?f w] => destruct (query_cases f w)
    as [(w1 & (Hb & _) & _ & _ & _ & _ & ->)|(e & w1 & (Hb & _) & ->)] end; done.
Qed.

Lemma reset_is_op ids w :
  (reset_orphaned_builds ids w).2 = exec (OResetOrphaned 300 ids) w.
Proof.
  unfold reset_orphaned_builds, mbind, mtry. simpl.
  by destruct (builds.reset_orphaned_excluding 300 ids w).
Qed.

Lemma exact_step s s' : exact s → step true s s' → exact s'.
Proof.
  intros Hs Hst.
  destruct Hst as [s draining tok b Hn Hc Hd|s tok|s tok|s|s|s w Hw].
  - apply exact_dispatch; auto.
  - by apply exact_end.
  - by apply exact_claim.
  - unfold cancel_check. destruct (active_ids s) as [|i ids]; [done|].
    destruct (builds.get_cancelled_among (i :: ids) (world s)) as [r w] eqn:E.
    assert (reachable w) by (by eapply get_cancelled_reachable; [apply Hs|]).
    destruct r; [apply exact_cancel|]; by apply exact_world.
  - apply exact_world; [done|]. rewrite reset_is_op.
    apply (reachable_op _ (OResetOrphaned 300 (active_ids s))); [apply Hs|done].
  - apply exact_world; [done|]. eapply rtc_r; [apply Hs|done].
Qed.

Lemma exact_reachable s : reachable_sys true s → exact s.
Proof.
  intros Hr. unfold reachable_sys in Hr. apply (rtc_ind_r exact init) in Hr; [done| |].
  - constructor; simpl; [apply rtc_refl|intros; by simplify_map_eq..].
  - intros s1 s2 _ Hst Hs. by eapply exact_step.
Qed.

Lemma active_ids_spec s id : id ∈ active_ids s ↔ is_Some (active s !! id).
Proof.
  unfold active_ids. rewrite list_elem_of_fmap. split.
  - intros ([i t] & -> & ?%elem_of_map_to_list). by eexists.
  - intros [t Ht]. exists (id, t). split; [done|]. by apply elem_of_map_to_list.
Qed.

(** The recovery spares a row whose id is excluded, also when it fails. *)
Lemma reset_spares ids w id b :
  inv w → w_builds w !! id = Some b → id ∈ ids →
  w_builds (reset_orphaned_builds ids w).2 !! id = Some b.
Proof.
  intros Hinv Hb Hid. unfold reset_orphaned_builds, mbind, mtry,
    builds.reset_orphaned_excluding, Sql.reset_orphaned.
  match goal with |- context [query ?f w] => destruct (query_cases f w)
    as [(w1 & (Hb1 & _) & Hn & _ & _ & _ & ->)|(e & w1 & (Hb1 & _) & ->)] end;
    simpl; [|by rewrite Hb1].
  rewrite lookup_fmap, Hb1, Hb. simpl. do 2 f_equal.
  destruct (proj1 Hinv id b Hb) as [Hid' _].
  unfold Sql.orphaned. rewrite Hid', (bool_decide_true _ Hid), andb_false_r. done.
Qed.

(** C36. As long as no build is dispatched while it still has a task, the table is
    exact: a task that has not been told to stop is registered under its build with
    its own token, a registered token belongs to a live task of that build, and so
    the recovery of orphans, however old the row, leaves the builds of live tasks
    alone. *)
Theorem active_table_exact s tok id ph :
  reachable_sys true s → live s !! tok = Some (id, ph) → tok ∉ cancelled s →
  active s !! id = Some tok ∧
  (∀ id' tok', active s !! id' = Some tok' → ∃ ph', live s !! tok' = Some (id', ph')) ∧
  ∀ b, w_builds (world s) !! id = Some b →
    w_builds (world (reset_orphans s)) !! id = Some b.
Proof.
  intros Hs%exact_reachable Hl Hc. destruct Hs as [Hw Ha Hlv _].
  split_and!; [by eapply Hlv|intros id' tok' H; by apply Ha|].
  intros b Hb. apply reset_spares; [by apply inv_reachable|done|].
  apply active_ids_spec. eexists. by eapply Hlv.
Qed.

(** ** Double dispatch *)

(** One pending build, dispatched; the task waits for a venue. *)
Definition s1 (b : Build) : sys :=
  dispatch false 1 b {| world := queue_world; active := ∅; live := ∅; cancelled := ∅ |}.

(** Dispatched again by the next cycle; the first task claims the build, the second
    finds it claimed and ends. *)
Definition s2 (b : Build) : sys := claim 2 (claim 1 (dispatch false 2 b (s1 b))).

(** Ten minutes later. *)
Definition later : World → World := λ w,
  set_w_faults [] (set_w_now (w_now w + 600000000) w).

Definition s3 (b : Build) : sys :=
  {| world := later (world (s2 b)); active := active (s2 b); live := live (s2 b);
     cancelled := cancelled (s2 b) |}.

Lemma s1_reachable single b : reachable_sys single (s1 b).
Proof.
  eapply (rtc_r _ {| world := queue_world; active := ∅; live := ∅; cancelled := ∅ |});
    [|apply st_dispatch; [done|apply not_elem_of_empty|done]].
  eapply (rtc_r _ {| world := example_world; active := ∅; live := ∅; cancelled := ∅ |}).
  - eapply rtc_r; [apply rtc_refl|].
    apply (st_world _ init). by apply step_op.
  - apply (st_world _ {| world := example_world; active := ∅; live := ∅; cancelled := ∅ |}).
    by apply step_env.
Qed.

Lemma active_table_exact_witness :
  ∃ b, w_builds queue_world !! 10 = Some b ∧ active (s1 b) !! 10 = Some 1.
Proof.
  eexists. split; [reflexivity|].
  apply (active_table_exact (s1 _) 1 10 Waiting);
    [apply s1_reachable|reflexivity|apply not_elem_of_empty].
Defined.

Lemma s3_reachable b : reachable_sys false (s3 b).
Proof.
  eapply rtc_r; [|apply (st_world _ (s2 b)); by apply step_env].
  eapply rtc_r; [|apply st_claim]. eapply rtc_r; [|apply st_claim].
  eapply rtc_r; [apply (s1_reachable false b)|].
  apply st_dispatch; [by vm_compute|apply not_elem_of_empty|done].
Qed.

(** Without that discipline the table is wrong, and the loop does not keep it:
    after a build is dispatched it is still pending and the next cycle dispatches it
    again; when one task has claimed the build and the other ends, the build is
    running in a live task that nothing registers, so that neither the cancel
    checker nor the recovery knows of it, and five minutes later the recovery puts
    the running build back into the queue. *)
Theorem double_dispatch_loses_build :
  ∃ b s, reachable_sys false s ∧
  (** the loop dispatches the build a second time *)
  dispatched (match (cycle (λ _, None) (λ _, false) loop_config ∅ [] 4
                       (active_ids (s1 b)) 0 0 0 (world (s1 b))).1 with
              | Ok (effects, _) => effects | Err _ => [] end) = [b_id b] ∧
  (** a task is executing the build, unregistered *)
  live s !! 1 = Some (b_id b, Executing) ∧ active s = ∅ ∧
  (b_status <$> w_builds (world s) !! b_id b) = Some Running ∧
  (** the recovery requeues it under the task's feet *)
  (b_status <$> w_builds (world (reset_orphans s)) !! b_id b) = Some Pending ∧
  live (reset_orphans s) !! 1 = Some (b_id b, Executing).
Proof.
  destruct (w_builds queue_world !! 10) as [b|] eqn:Hb; [|by vm_compute in Hb].
  vm_compute in Hb. injection Hb as Hb. exists b, (s3 b).
  split; [apply s3_reachable|]. subst b. split_and!; by vm_compute.
Qed.
