(* ===== verification/Worker.v ===== *)
(** * Running a build ([crates/queue-runner/src/worker.rs])

    [run_build]: from the reserved venue to the row that records the outcome, with
    the arguments of [nix build], the SSH builders tried in turn, the upload to a
    binary cache and the effective features ([features.rs]).

    The processes ([nix], [ssh], the agent) are parameters that answer.  Files
    (logs, GC roots), metrics, the tables of build products, narinfos and channels
    are not modelled: a statement on such a table is a query that may fail and
    changes nothing here. *)

From S2P Require Import Prelude Types Float32 S3 Psi Pool Db Builds Builders Dispatch RunnerLoop.

(** ** Arguments of [nix build] *)

Record CacheConfig := {
  cc_enabled : bool;
  cc_cache_url : option string;
  cc_upstreams : list (string * option string);
}.

(** [circus_config::project_cache_url]. *)
Definition project_cache_url (global_cache_url : option string) (project_name : string)
    (project_url : option string) : option string :=
  match project_url with
  | Some url => Some url
  | None =>
      let* global := global_cache_url in
      let base := trim_end_matches "/" global in
      let site := default base (strip_suffix "/nix-cache" base) in
      Some (site +:+ "/projects/" +:+ project_name +:+ "/nix-cache/")
  end.

Definition cache_args_for_build (config : CacheConfig) (project : option Project) :
    list string :=
  let '(cache_url, upstreams) :=
    match project with
    | Some p =>
        if p_cache_enabled p
        then (project_cache_url (cc_cache_url config) (p_name p) (p_cache_url p),
              p_cache_upstreams p)
        else if cc_enabled config then (cc_cache_url config, cc_upstreams config)
        else (None, [])
    | None => if cc_enabled config then (cc_cache_url config, cc_upstreams config)
              else (None, [])
    end in
  let substituters :=
    match cache_url with Some u => [u] | None => [] end ++ (fst <$> upstreams) in
  let public_keys := omap snd upstreams in
  match substituters with
  | [] => []
  | _ => ["--option"; "extra-substituters"; str_join " " substituters]
  end ++
  match public_keys with
  | [] => []
  | _ => ["--option"; "extra-trusted-public-keys"; str_join " " public_keys]
  end.

Definition nix_args_for_build (base_args : list string) (interval_rebuild : bool)
    (cache_args : list string) : list string :=
  let args := cache_args ++ base_args in
  if interval_rebuild && negb (str_in "--rebuild" args) then args ++ ["--rebuild"] else args.

(** ** Effective features ([features.rs]) *)

(** [Path::extension] of a text, compared with [drv]: what follows the last dot of
    the last component, unless the dot is its first character. *)
Definition file_name (path : string) : option string :=
  let normal s := negb (bool_decide (s = "")) && negb (bool_decide (s = ".")) in
  let* name := last (List.filter normal (split_by (char_is "/") path)) in
  if decide (name = "..") then None else Some name.
Fixpoint last_dot (s : string) : option (string * string) :=
  match s with
  | "" => None
  | String a t =>
      match last_dot t with
      | Some (l, r) => Some (String a l, r)
      | None => if decide (a = "."%char) then Some ("", t) else None
      end
  end.
Definition has_drv_extension (path : string) : bool :=
  match obind (file_name path) last_dot with
  | Some (stem, ext) =>
      negb (bool_decide (stem = "")) && bool_decide (to_lower ext = "drv")
  | None => false
  end.

(** The loop of [parse_dry_run_will_build]. *)
Fixpoint will_build_lines (in_built : bool) (l : list string) : list string :=
  match l with
  | [] => []
  | line :: l =>
      if starts_with " " line || starts_with (String TAB "") line then
        let path := trim line in
        (if in_built && has_drv_extension path then [path] else []) ++
        will_build_lines in_built l
      else will_build_lines (contains "will be built" line) l
  end.
Definition parse_dry_run_will_build (stderr : string) : list string :=
  will_build_lines false (lines stderr).

(** [BTreeSet]: sorted, without duplicates. *)
Definition with_required_floor (computed required : list string) : list string :=
  dedup (sort_strings (computed ++ required)).

(** [computed] is the answer of [compute]: the dry run and [nix derivation show]. *)
Definition ensure_effective_features (computed : result string (list string)) (b : Build) :
    M Build :=
  match b_effective_features b with
  | Some _ => mret b
  | None =>
      match computed with
      | Ok l =>
          let features := with_required_floor l (b_required_features b) in
          let! _ := mtry (builds.set_effective_features (b_id b) features) in
          mret (set_b_run (set_br_effective_features (Some features) (b_run b)) b)
      | Err _ => mret b
      end
  end.

(** ** The environment of a build *)

Record CacheUploadConfig := {
  cu_enabled : bool;
  cu_store_uri : option string;
  cu_s3 : option S3CacheConfig;
  cu_upload_max_retries : nat;
  cu_fail_build_on_upload_error : bool;
  cu_compression : string;
}.

Record SigningConfig := {
  sg_enabled : bool;
  (** [Some exists] when a key file is configured. *)
  sg_key_file : option bool;
}.

Record BuildContext := {
  bc_sched : Ctx;
  bc_cache_config : CacheConfig;
  bc_upload : CacheUploadConfig;
  bc_signing : SigningConfig;
  bc_extra_nix_args : list string;
  bc_nix_store_dir : string;
}.

(** What the processes and the file system answer. *)
Record Answers := {
  (** The final path of the log, when the log directory can be opened. *)
  an_log_path : option string;
  (** What the agent reports; [None] when the channel is dropped. *)
  an_agent : option DispatchResult;
  (** The output of [nix-store --query --outputs] of the derivation on success. *)
  an_query_outputs : string → option string;
  (** [run_nix_build_remote] of a derivation on a store URI and [run_nix_build]. *)
  an_remote : string → string → list string → result string BuildResult;
  an_local : string → list string → result string BuildResult;
  (** [try_acquire_owned] on the worker semaphore. *)
  an_permit : bool;
  (** [nix store sign] of a path, and [nix copy --to uri path] on an attempt. *)
  an_sign : string → bool;
  an_copy : string → string → nat → bool;
  (** Whether a GC root is registered for a path. *)
  an_gc_root : string → bool;
}.

(** What a build hands on. *)
Inductive Event :=
  | NotifyStarted (b : Build)
  | NotifyFinished (b : Build)
  | AutoPromote (jobset_id evaluation_id : Uuid).

Section worker.
Context (url_encode : string → string).
Context (ssh : list string → option string).
Context (url_parse : string → option (option string * string)).

Definition presigned_s3_upload_available (c : CacheUploadConfig) : bool :=
  if negb (cu_enabled c) then false
  else match cu_store_uri c, cu_s3 c with
       | Some uri, Some s3 => is_some (from_config uri s3)
       | _, _ => false
       end.

(** *** Uploads *)

(** [for attempt in 0..=max_retries]: [n] attempts remain. *)
Fixpoint push_path (copy : nat → bool) (attempt n : nat) : bool :=
  match n with
  | O => false
  | S n => copy attempt || push_path copy (S attempt) n
  end.

Definition push_to_cache (an : Answers) (paths : list string) (store_uri : string)
    (s3 : option S3CacheConfig) (max_retries : nat) : list string :=
  let uri := if starts_with "s3://" store_uri
             then build_s3_store_uri url_encode store_uri s3 else store_uri in
  List.filter (λ p, negb (push_path (an_copy an uri p) 0 (S max_retries))) paths.

Definition sign_outputs (an : Answers) (paths : list string) (c : SigningConfig) : bool :=
  match sg_key_file c with
  | Some exists_ =>
      if sg_enabled c && exists_ then forallb (an_sign an) paths else false
  | None => false
  end.

(** *** Venues *)

Definition store_uri_of (r : RemoteBuilder) : string :=
  let uri := rs_ssh_uri (rb_params r) in
  if starts_with "ssh://" uri || starts_with "ssh-ng://" uri then uri else "ssh://" +:+ uri.

(** [read_drv_outputs]. *)
Definition read_drv_outputs (an : Answers) (drv : string) : list string :=
  match an_query_outputs an drv with
  | Some out => List.filter (λ s, negb (bool_decide (s = ""))) (trim <$> lines out)
  | None => []
  end.

(** [normalized_drv_path]: an absolute store path. *)
Definition normalized_drv_path (bc : BuildContext) (b : Build) : string :=
  if starts_with "/" (b_drv_path b) then b_drv_path b
  else bc_nix_store_dir bc +:+ "/" +:+ b_drv_path b.

(** The loop of [try_remote_build] over the builders. *)
Fixpoint try_builders (cx : Ctx) (now : Z) (jitter : Z) (an : Answers) (b : Build)
    (drv : string) (args : list string) (l : list RemoteBuilder) (c : PsiCache) :
    M (option BuildResult * PsiCache) :=
  match l with
  | [] => mret (None, c)
  | r :: l =>
      if cx_require_host_key cx && is_none (rs_public_host_key (rb_params r))
      then try_builders cx now jitter an b drv args l c
      else if negb (supports_required_features (scheduling_features b)
             (rs_supported_features (rb_params r)) (rs_mandatory_features (rb_params r)))
      then try_builders cx now jitter an b drv args l c
      else
        let '(overloaded, c) :=
          match cx_psi_threshold cx with
          | Some threshold =>
              let '(snap, c) := read_cached ssh now (rs_ssh_uri (rb_params r))
                                  (cx_psi_check_timeout cx) c in
              (match snap with Some s => exceeds s threshold | None => false end, c)
          | None => (false, c)
          end in
        if overloaded then try_builders cx now jitter an b drv args l c
        else
          let! _ := mtry (builds.set_builder (b_id b) (rb_id r)) in
          match an_remote an drv (store_uri_of r) args with
          | Ok res =>
              let! _ := mtry (remote_builders.record_success (rb_id r)) in
              mret (Some res, c)
          | Err _ =>
              let! _ := mtry (remote_builders.record_failure jitter (rb_id r)) in
              try_builders cx now jitter an b drv args l c
          end
  end.

Definition try_remote_build (cx : Ctx) (now jitter : Z) (an : Answers) (b : Build)
    (drv : string) (args : list string) (c : PsiCache) : M (option BuildResult) :=
  match b_system b with
  | None => mret None
  | Some system =>
      let! found := mtry (remote_builders.find_for_system system (cx_strategy cx)) in
      match found with
      | Err _ => mret None
      | Ok l => let! (r, _) := try_builders cx now jitter an b drv args l c in mret r
      end
  end.

(** [Ok (Some r)]: a result; [Ok None]: no venue took it; [Err msg]: an error. *)
Definition run_on_runner (cx : Ctx) (now jitter : Z) (an : Answers) (b : Build)
    (drv : string) (args : list string) (c : PsiCache) : M (result string (option BuildResult)) :=
  let! remote :=
    if is_some (b_system b) then try_remote_build cx now jitter an b drv args c
    else mret None in
  match remote with
  | Some r => mret (Ok (Some r))
  | None =>
      if negb (runner_supports (cx_runner_caps cx) (b_system b) (scheduling_features b))
      then mret (Ok None)
      else mret (match an_local an drv args with Ok r => Ok (Some r) | Err e => Err e end)
  end.

(** [tx_open]: the agent still takes commands. *)
Definition run_on_agent (tx_open : bool) (machine : Uuid) (upload_s3 : bool)
    (an : Answers) (b : Build) (drv : string) : M (option BuildResult) :=
  if negb tx_open then mret None
  else
    let! _ := mtry (builder_sessions.touch machine) in
    let! _ := mtry (builds.set_agent (b_id b) machine) in
    mret (agent_result upload_s3 (read_drv_outputs an drv) (an_agent an)).

Definition execute (bc : BuildContext) (now jitter : Z) (an : Answers) (b : Build)
    (drv : string) (args : list string) (c : PsiCache) (v : Venue) : M (result string (option BuildResult)) :=
  match v with
  | VAgent meta snap h =>
      let open_ := match h !! meta with Some m => tx_open m | None => false end in
      let! r := run_on_agent open_ (machine_id (snap_spec snap))
                  (presigned_s3_upload_available (bc_upload bc)) an b drv in
      match r with
      | Some r => mret (Ok (Some r))
      | None => if an_permit an then run_on_runner (bc_sched bc) now jitter an b drv args c
                else mret (Ok None)
      end
  | VRunner => run_on_runner (bc_sched bc) now jitter an b drv args c
  end.

(** *** Recording the outcome *)

(** A statement on a table that is not modelled. *)
Definition other_table : M () := query (λ w, (Ok (), w)).

(** [path_to_name]: the last name of a path wins. *)
Definition path_to_name (b : Build) : gmap string string :=
  match b_outputs b with
  | Some (JObj l) =>
      list_to_map (rev (omap (λ kv, let* p := json_str kv.2 in Some (p, kv.1)) l))
  | _ => ∅
  end.

Definition output_name (b : Build) (i : nat) (path : string) : string :=
  match path_to_name b !! path with
  | Some n => n
  | None => match i with O => "out" | _ => "out" +:+ pretty (N.of_nat i) end
  end.

(** The rows of [build_outputs]; an error is logged. *)
Fixpoint store_outputs (b : Build) (i : nat) (paths : list string) : M () :=
  match paths with
  | [] => mret ()
  | p :: paths =>
      let! _ := mtry (build_outputs.create (b_id b) (output_name b i p) (Some p)) in
      store_outputs b (S i) paths
  end.

(** The build products; an error ends [run_build].  Setting the GC root, where one
    is registered, is a second statement. *)
Fixpoint store_products (an : Answers) (paths : list string) : M () :=
  match paths with
  | [] => mret ()
  | p :: paths =>
      let! _ := other_table in
      let! _ := if an_gc_root an p then other_table else mret () in
      store_products an paths
  end.

Definition upload_failed (bc : BuildContext) (an : Answers) (r : BuildResult) : list string :=
  let u := bc_upload bc in
  match cu_enabled u && negb (br_cache_upload_handled r), cu_store_uri u with
  | true, Some uri =>
      push_to_cache an (br_output_paths r) uri (cu_s3 u) (cu_upload_max_retries u)
  | _, _ => []
  end.

Definition notify_finished (b : Build) : M (list Event) :=
  let! ctx := get_project_for_build b in
  mret (match ctx with Some _ => [NotifyFinished b] | None => [] end).

(** After completion: notify, and promote channels after a success. *)
Definition after_completion (id : Uuid) : M (list Event) :=
  let! updated := builds.get id in
  if is_finished (b_status updated) then
    let! events := notify_finished updated in
    if is_success (b_status updated) then
      let! e := mtry (evaluations.get (b_evaluation_id updated)) in
      match e with
      | Ok e => mret (events ++ [AutoPromote (e_jobset_id e) (e_id e)])
      | Err _ => mret events
      end
    else mret events
  else mret [].

(** The duration [collect_metrics_and_alert] records of the build it is given. *)
Definition build_duration (b : Build) : option Z :=
  match b_started_at b, b_completed_at b with
  | Some started, Some completed => Some (completed - started)
  | _, _ => None
  end.

(** A successful result. *)
Definition record_success (bc : BuildContext) (an : Answers) (b : Build) (r : BuildResult) :
    M (list Event) :=
  let! _ := store_outputs b 0 (br_output_paths r) in
  let! _ := store_products an (br_output_paths r) in
  let! _ := if sign_outputs an (br_output_paths r) (bc_signing bc)
            then let! _ := mtry (builds.mark_signed (b_id b)) in mret ()
            else mret () in
  let failed := upload_failed bc an r in
  if negb (bool_decide (failed = [])) && cu_fail_build_on_upload_error (bc_upload bc) then
    let msg := "Cache upload failed for " +:+ pretty (N.of_nat (length failed)) +:+
               " path(s): " +:+ str_join ", " failed in
    let! _ := builds.complete (b_id b) Failed (an_log_path an) None (Some msg) in
    let! updated := builds.get (b_id b) in
    notify_finished updated
  else
    let! _ := builds.complete (b_id b) Succeeded (an_log_path an)
                (head (br_output_paths r)) None in
    after_completion (b_id b).

(** A failed result: back to the queue while retries remain. *)
Definition record_failed (an : Answers) (b : Build) (r : BuildResult) : M (list Event) :=
  if b_retry_count b <? b_max_retries b then
    let! _ := builds.retry (b_id b) in mret []
  else
    let status := match br_exit_code r with
                  | Some c => from_exit_code c
                  | None => Failed
                  end in
    let! _ := builds.complete (b_id b) status (an_log_path an) None (Some (br_stderr r)) in
    let! _ := mtry (failed_paths_cache.insert (b_drv_path b) status (b_id b)) in
    after_completion (b_id b).

(** What [run_build] does with the answer of the venue. *)
Definition record_outcome (bc : BuildContext) (an : Answers) (b : Build)
    (o : result string (option BuildResult)) : M (list Event) :=
  match o with
  | Ok None => let! _ := mtry (builds.requeue (b_id b)) in mret []
  | Ok (Some r) =>
      if br_success r then record_success bc an b r else record_failed an b r
  | Err msg =>
      let! _ := builds.complete (b_id b) Failed None None (Some msg) in
      after_completion (b_id b)
  end.

(** The started notification, sent once per run. *)
Definition notify_started (claimed : Build) (ctx : option (Project * string)) :
    M (list Event) :=
  match ctx with
  | Some _ =>
      let! first := mtry (builds.mark_started_notified (b_id claimed)) in
      mret (match first with Ok true => [NotifyStarted claimed] | _ => [] end)
  | None => mret []
  end.

(** [run_build] once a venue is reserved. *)
Definition run_reserved (bc : BuildContext) (now jitter : Z) (an : Answers) (b : Build)
    (c : PsiCache) (v : Venue) : M (list Event) :=
  let! claimed := builds.start (b_id b) in
  match claimed with
  | None => mret []
  | Some claimed =>
      let! ctx := get_project_for_build claimed in
      let! interval := is_interval_rebuild b in
      let args := nix_args_for_build (bc_extra_nix_args bc) interval
                    (cache_args_for_build (bc_cache_config bc) (fst <$> ctx)) in
      let! started := notify_started claimed ctx in
      let! o := execute bc now jitter an b (normalized_drv_path bc b) args c v in
      let! events := record_outcome bc an b o in
      mret (started ++ events)
  end.

Definition run_build (bc : BuildContext) (now jitter : Z) (an : Answers)
    (h1 h2 h3 : Heap) (vals : list positive) (c : PsiCache) (b : Build) : M (list Event) :=
  let! (venue, c) := reserve_venue url_parse ssh (bc_sched bc) now h1 h2 h3 vals c b
                       (b_system b) in
  match venue with
  | None => mret []
  | Some v => run_reserved bc now jitter an b c v
  end.
End worker.
