(* ===== verification/Outcomes.v ===== *)
(** * Properties of running a build

    The row a build ends with for every answer of its venue, and the bound on
    retries. *)

From S2P Require Import Prelude Types Float32 S3 Psi Pool Db Frames Builds Lifecycle Builders Dispatch RunnerLoop Scheduling Worker.

#[local] Set Warnings "-clear-no-such-hyp".

(** ** Frames *)

(** No fault is left, the locks of others are as they were, and only the row [id] of
    the builds table may have changed. *)
Record keeps (id : Uuid) (w w' : World) : Prop := {
  k_faults : w_faults w' = [];
  k_locks : w_locks w' = w_locks w;
  k_rows j : j ≠ id → w_builds w' !! j = w_builds w !! j;
}.

Lemma keeps_refl id w : w_faults w = [] → keeps id w w.
Proof. by constructor. Qed.

Lemma keeps_trans id w1 w2 w3 : keeps id w1 w2 → keeps id w2 w3 → keeps id w1 w3.
Proof.
  intros [H1 Hl H2] [H3 Hl' H4]. constructor; [done|congruence|].
  intros j Hj. by rewrite H4, H2.
Qed.

(** The row afterwards differs in the columns about the venue at most. *)
Definition same_run (x x' : Build) : Prop := b_info x' = b_info x ∧ b_run x' = b_run x.

Lemma same_run_trans x y z : same_run x y → same_run y z → same_run x z.
Proof. intros [H1 H2] [H3 H4]. split; congruence. Qed.

(** A computation that succeeds, keeps the other rows and takes the row from [x]
    to one that satisfies [P] (with the result). *)
Definition on_row {A} (id : Uuid) (w : World) (m : M A) (P : A → World → Build → Prop) : Prop :=
  ∃ a w' x', m w = (Ok a, w') ∧ keeps id w w' ∧ w_builds w' !! id = Some x' ∧ P a w' x'.

Lemma on_row_bind {A B} id w (m : M A) (k : A → M B) P Q :
  on_row id w m P →
  (∀ a w' x', keeps id w w' → w_builds w' !! id = Some x' → P a w' x' →
     on_row id w' (k a) Q) →
  on_row id w (mbind m k) Q.
Proof.
  intros (a & w1 & x1 & Hm & Hk & Hx & HP) Hn.
  destruct (Hn a w1 x1 Hk Hx HP) as (c & w2 & x2 & Hm2 & Hk2 & Hx2 & HQ).
  exists c, w2, x2. rewrite (mbind_ok _ _ _ _ _ Hm).
  split_and!; [done|by eapply keeps_trans|done|done].
Qed.

Lemma on_row_assoc {A B C} id w (m : M A) (f : A → M B) (k : B → M C) P :
  on_row id w (mbind (mbind m f) k) P → on_row id w (mbind m (λ a, mbind (f a) k)) P.
Proof.
  intros (c & w' & x' & Hm & HP). exists c, w', x'. split; [|done]. revert Hm.
  unfold mbind. by destruct (m w) as [[a|e] w1].
Qed.

Lemma on_row_ret {A} id w (a : A) x (P : A → World → Build → Prop) :
  w_faults w = [] → w_builds w !! id = Some x → P a w x → on_row id w (mret a) P.
Proof. intros Hf Hx HP. exists a, w, x. split_and!; [done|by apply keeps_refl|done|done]. Qed.

Lemma on_row_impl {A} id w (m : M A) (P Q : A → World → Build → Prop) :
  on_row id w m P → (∀ a w' x', P a w' x' → Q a w' x') → on_row id w m Q.
Proof. intros (a & w' & x' & ? & ? & ? & ?) HPQ. exists a, w', x'. auto. Qed.

(** The builders and the clock are as before. *)
Definition same_builders (w w' : World) : Prop :=
  w_remote_builders w' = w_remote_builders w ∧ w_now w' = w_now w.

#[local] Instance same_builders_preorder : PreOrder same_builders.
Proof. split; [done|]. unfold same_builders. intros w1 w2 w3 [] []. split; congruence. Qed.

Lemma same_builders_faults w fs : same_builders w (set_w_faults fs w).
Proof. done. Qed.

Lemma on_row_leads {A} R id w (m : M A) P :
  on_row id w m P → leads R m → on_row id w m (λ a w' x', P a w' x' ∧ R w w').
Proof.
  intros (a & w' & x' & Hm & Hk & Hx & HP) HR. exists a, w', x'. split_and!; [done..|].
  specialize (HR w). by rewrite Hm in HR.
Qed.

Lemma update_calm id guard f : leads same_builders (Sql.update id guard f).
Proof. apply (leads_query _ same_builders_faults). intros w. by repeat case_match. Qed.

Lemma reference_calm id refers f : leads same_builders (Sql.update_reference id refers f).
Proof. apply (leads_query _ same_builders_faults). intros w. by repeat case_match. Qed.

(** ** Statements on the row *)

Lemma update_row_ok id guard f w x x' :
  w_faults w = [] → w_builds w !! id = Some x → guard x = true → f x = Some x' →
  on_row id w (Sql.update id guard f) (λ a w' y, a = Some x' ∧ y = x' ∧
    w' = set_w_builds (<[id := x']> (w_builds w)) w).
Proof.
  intros Hf Hx Hg Hfx. exists (Some x'), (set_w_builds (<[id := x']> (w_builds w)) w), x'.
  split_and!; [by apply update_ok with x| |apply lookup_insert_eq|done..].
  constructor; [done..|]. intros j Hj. by apply lookup_insert_ne.
Qed.

Lemma on_row_try {A} id w (m : M A) P :
  on_row id w m P → on_row id w (mtry m) (λ r w' x', ∃ a, r = Ok a ∧ P a w' x').
Proof.
  intros (a & w' & x' & Hm & ? & ? & ?). exists (Ok a), w', x'.
  split_and!; [by apply mtry_ok|done|done|by exists a].
Qed.

Lemma on_row_unit {A} id w (m : M A) P :
  on_row id w m P →
  on_row id w (let! _ := m in mret ()) (λ _ w' x', ∃ a, P a w' x').
Proof.
  intros (a & w' & x' & Hm & Hk & Hx & HP). exists (), w', x'.
  rewrite (mbind_ok _ _ _ _ _ Hm). split_and!; [done..|by exists a].
Qed.

Lemma on_row_found {A} id w msg (m : M (option A)) P :
  on_row id w m P → (∀ a w' x', P a w' x' → is_Some a) →
  on_row id w (or_not_found msg m) (λ a w' x', P (Some a) w' x').
Proof.
  intros (a & w' & x' & Hm & Hk & Hx & HP) Hs. destruct (Hs _ _ _ HP) as [y ->].
  exists y, w', x'. unfold or_not_found. by rewrite (mbind_ok _ _ _ _ _ Hm).
Qed.

(** A query that does not write keeps the row. *)
Lemma on_row_read {A} id w (f : World → A) x (P : A → World → Build → Prop) :
  w_faults w = [] → w_builds w !! id = Some x → P (f w) w x → on_row id w (read f) P.
Proof.
  intros Hf Hx HP. exists (f w), w, x.
  split_and!; [by apply read_no_fault|by apply keeps_refl|done|done].
Qed.

Lemma complete_ok id status log out err w x :
  w_faults w = [] → w_builds w !! id = Some x →
  on_row id w (builds.complete id status log out err)
    (λ _ w' x', x' = Sql.set_complete status (w_now w) log out err x ∧
       w' = set_w_builds (<[id := x']> (w_builds w)) w).
Proof.
  intros Hf Hx. unfold builds.complete, Sql.complete.
  eapply on_row_impl; [apply on_row_found|]; [by eapply update_row_ok| |].
  - intros a w' x' (-> & _). eauto.
  - intros a w' x' (_ & -> & ->). done.
Qed.

Lemma retry_ok id w x :
  w_faults w = [] → w_builds w !! id = Some x → Sql.i32_ok (b_retry_count x + 1) = true →
  on_row id w (builds.retry id)
    (λ _ w' x', x' = Sql.set_pending (b_retry_count x + 1) x ∧
       w' = set_w_builds (<[id := x']> (w_builds w)) w).
Proof.
  intros Hf Hx Hr. unfold builds.retry, Sql.retry.
  eapply on_row_impl; [apply on_row_unit; eapply update_row_ok; [done..|by rewrite Hr]|].
  intros a w' x' (o & _ & -> & ->). done.
Qed.

Lemma requeue_ok id w x :
  w_faults w = [] → w_builds w !! id = Some x → b_status x = Running →
  on_row id w (builds.requeue id)
    (λ _ w' x', x' = Sql.set_pending (b_retry_count x) x).
Proof.
  intros Hf Hx Hr. unfold builds.requeue, Sql.requeue.
  eapply on_row_impl; [by eapply update_row_ok; [..|apply bool_decide_eq_true|]|].
  intros a w' x' (_ & -> & _). done.
Qed.

(** A statement on another table leaves the builds alone. *)
Lemma on_row_other {A} id w (f : World → result CiError A * World) x :
  w_faults w = [] → w_builds w !! id = Some x →
  (w_builds (f w).2 = w_builds w ∧ w_faults (f w).2 = w_faults w ∧
   w_locks (f w).2 = w_locks w) →
  on_row id w (mtry (query f)) (λ _ w' x', x' = x ∧ w' = (f w).2).
Proof.
  intros Hf Hx (Hb & Hfl & Hlk). exists (f w).1, (f w).2, x.
  split_and!; [|by constructor; [congruence|done|intros; by rewrite Hb]|by rewrite Hb|done..].
  unfold mtry, query. rewrite Hf. by destruct (f w).
Qed.

Lemma on_row_get {A} id w msg (f : World → option A) x :
  w_faults w = [] → w_builds w !! id = Some x →
  on_row id w (mtry (or_not_found msg (read f))) (λ r w' x', w' = w ∧ x' = x ∧
    r = match f w with Some a => Ok a | None => Err (NotFound msg) end).
Proof.
  intros Hf Hx. eexists _, w, x.
  split_and!; [by apply get_no_fault|by apply keeps_refl|done..].
Qed.

(** The project a build belongs to, through its evaluation and jobset. *)
Definition project_of (w : World) (b : Build) : option Project :=
  let* e := w_evaluations w !! b_evaluation_id b in
  let* j := w_jobsets w !! e_jobset_id e in
  w_projects w !! j_project_id j.

Lemma project_ok id w x b :
  w_faults w = [] → w_builds w !! id = Some x →
  on_row id w (get_project_for_build b) (λ ctx w' x', w' = w ∧ x' = x ∧ fst <$> ctx = project_of w b).
Proof.
  intros Hf Hx. unfold get_project_for_build, evaluations.get, jobsets.get, projects.get, project_of.
  eapply on_row_bind; [by apply (on_row_get id w)|]. intros e w1 x1 _ _ (-> & -> & ->).
  destruct (w_evaluations w !! _) as [e|]; [|by eapply on_row_ret]. cbn [obind].
  eapply on_row_bind; [by apply (on_row_get id w)|]. intros j w1 x1 _ _ (-> & -> & ->).
  destruct (w_jobsets w !! _) as [j|]; [|by eapply on_row_ret]. cbn [obind].
  eapply on_row_bind; [by apply (on_row_get id w)|]. intros p w1 x1 _ _ (-> & -> & ->).
  destruct (w_projects w !! _) as [p|]; by eapply on_row_ret.
Qed.

Lemma notify_ok id w x b :
  w_faults w = [] → w_builds w !! id = Some x →
  on_row id w (notify_finished b) (λ _ w' x', w' = w ∧ x' = x).
Proof.
  intros Hf Hx. eapply on_row_bind; [by apply project_ok|].
  intros o w1 x1 _ _ (-> & -> & _). by eapply on_row_ret.
Qed.

Lemma after_completion_ok id w x :
  w_faults w = [] → w_builds w !! id = Some x →
  on_row id w (after_completion id) (λ _ w' x', w' = w ∧ x' = x).
Proof.
  intros Hf Hx. unfold after_completion, builds.get.
  eapply on_row_bind.
  { apply on_row_found with (P := λ a w' x', a = Some x ∧ w' = w ∧ x' = x);
      [|by intros a ? ? [-> _]]. by eapply on_row_read. }
  intros u w1 x1 _ _ ([= ->] & -> & ->).
  destruct (is_finished (b_status x)); [|by eapply on_row_ret].
  eapply on_row_bind; [by apply notify_ok|]. intros ev w1 x1 _ _ [-> ->].
  destruct (is_success (b_status x)); [|by eapply on_row_ret].
  eapply on_row_bind; [by apply (on_row_get id w)|]. intros e w1 x1 _ _ (-> & -> & _).
  destruct e as [e|]; by eapply on_row_ret.
Qed.

Lemma store_outputs_ok b i paths w x :
  w_faults w = [] → w_builds w !! b_id b = Some x →
  on_row (b_id b) w (store_outputs b i paths) (λ _ w' x', x' = x ∧ w_now w' = w_now w).
Proof.
  revert i w. induction paths as [|p paths IH]; intros i w Hf Hx; [by eapply on_row_ret|].
  cbn [store_outputs]. unfold build_outputs.create.
  eapply on_row_bind.
  { apply (on_row_other _ _ _ x); [done..|].
    destruct (w_outputs w !! _); [done|]. by destruct (w_builds w !! b_id b). }
  intros _ w1 x1 [Hf1 _ _] Hx1 [-> ->].
  eapply on_row_impl; [by apply IH|]. intros _ w2 x2 [-> Hn]. split; [done|].
  rewrite Hn. destruct (w_outputs w !! _); [done|]. by destruct (w_builds w !! b_id b).
Qed.

Lemma store_products_ok id an paths w x :
  w_faults w = [] → w_builds w !! id = Some x →
  on_row id w (store_products an paths) (λ _ w' x', x' = x ∧ w' = w).
Proof.
  intros Hf Hx. induction paths as [|p paths IH]; [by eapply on_row_ret|].
  cbn [store_products]. unfold other_table, query.
  assert (Ho : on_row id w (query (λ w, (Ok (), w))) (λ _ w' x', x' = x ∧ w' = w)).
  { exists (), w, x. unfold query. rewrite Hf.
    split_and!; [done|by apply keeps_refl|done..]. }
  eapply on_row_bind; [apply Ho|]. intros _ w1 x1 _ _ [-> ->].
  eapply on_row_bind with (P := λ _ w' x', x' = x ∧ w' = w);
    [destruct (an_gc_root an p); [apply Ho|by eapply on_row_ret]|].
  by intros _ w1 x1 _ _ [-> ->].
Qed.

(** The columns [mark_signed] leaves alone. *)
Lemma sign_ok b w x c :
  w_faults w = [] → w_builds w !! b_id b = Some x →
  on_row (b_id b) w
    (if c : bool then let! _ := mtry (builds.mark_signed (b_id b)) in mret () else mret ())
    (λ _ w' x', same_run x x' ∧ w_now w' = w_now w).
Proof.
  intros Hf Hx. destruct c; [|by eapply on_row_ret].
  eapply on_row_impl.
  - apply on_row_unit, on_row_try. unfold builds.mark_signed, Sql.mark_signed.
    apply on_row_unit. by eapply update_row_ok.
  - by intros _ w' x' (_ & _ & _ & _ & _ & -> & ->).
Qed.

Lemma cache_failure_ok id w x drv status src :
  w_faults w = [] → w_builds w !! id = Some x →
  on_row id w (mtry (failed_paths_cache.insert drv status src))
    (λ _ w' x', x' = x ∧ w_failed_paths w' !! drv =
       Some {| fp_source_build_id := Some src; fp_failure_status := Some status;
               fp_failed_at := w_now w |}).
Proof.
  intros Hf Hx. unfold failed_paths_cache.insert, Sql.insert_failed_path.
  eapply on_row_impl; [by apply (on_row_other _ _ _ x)|].
  intros _ w' x' [-> ->]. split; [done|]. apply lookup_insert_eq.
Qed.

(** ** The recorded outcome *)

Section outcomes.
Context (url_encode : string → string).
Context (ssh : list string → option string).

Definition failure_status (r : BuildResult) : BuildStatus :=
  match br_exit_code r with Some c => from_exit_code c | None => Failed end.

(** What the row [x] of the claimed build and the cache of failures must have
    become for the answer [o] of the venue. *)
Definition recorded (bc : BuildContext) (an : Answers) (b : Build)
    (o : result string (option BuildResult)) (x : Build) (w' : World) (x' : Build) : Prop :=
  b_info x' = b_info x ∧
  match o with
  | Ok None => b_status x' = Pending ∧ b_retry_count x' = b_retry_count x
  | Ok (Some r) =>
      if br_success r then
        b_retry_count x' = b_retry_count x ∧
        if bool_decide (upload_failed url_encode bc an r ≠ []) &&
           cu_fail_build_on_upload_error (bc_upload bc)
        then b_status x' = Failed ∧ is_Some (b_error_message x')
        else b_status x' = Succeeded ∧ b_error_message x' = None ∧
             b_build_output_path x' = head (br_output_paths r)
      else if b_retry_count b <? b_max_retries b then
        b_status x' = Pending ∧ b_retry_count x' = b_retry_count x + 1
      else
        b_status x' = failure_status r ∧ b_retry_count x' = b_retry_count x ∧
        b_error_message x' = Some (br_stderr r) ∧
        ∃ t, w_failed_paths w' !! b_drv_path b =
          Some {| fp_source_build_id := Some (b_id b);
                  fp_failure_status := Some (failure_status r); fp_failed_at := t |}
  | Err msg => b_status x' = Failed ∧ b_retry_count x' = b_retry_count x ∧
      b_error_message x' = Some msg
  end.

Lemma record_success_ok bc an b r w x :
  w_faults w = [] → w_builds w !! b_id b = Some x → br_success r = true →
  on_row (b_id b) w (record_success url_encode bc an b r)
    (λ _ w' x', recorded bc an b (Ok (Some r)) x w' x').
Proof.
  intros Hf Hx Hr. unfold record_success, recorded. rewrite Hr.
  eapply on_row_bind; [by apply store_outputs_ok|]. intros _ w1 x1 [Hf1 _ _] Hx1 [-> _].
  eapply on_row_bind; [by apply store_products_ok|]. intros _ w2 x2 _ Hx2 [-> ->].
  eapply on_row_bind; [by apply sign_ok|]. intros _ w3 x3 [Hf3 _ _] Hx3 [[Hi Hrun] _].
  rewrite <-(bool_decide_not (upload_failed url_encode bc an r = [])).
  destruct (bool_decide _ && _).
  - eapply on_row_bind; [by apply complete_ok|]. intros _ w4 x4 [Hf4 _ _] Hx4 [Heq _].
    eapply on_row_bind.
    { unfold builds.get.
      apply on_row_found with (P := λ a w' x', is_Some a ∧ w' = w4 ∧ x' = x4);
        [|by intros a ? ? [? _]].
      eapply on_row_read; [done|exact Hx4|]. rewrite Hx4. eauto. }
    intros u w5 x5 _ _ (_ & -> & ->).
    eapply on_row_impl; [by apply notify_ok|]. intros _ w6 x6 [-> ->]. subst x4.
    split_and!; [done| |done|by eexists].
    unfold b_retry_count. simpl. by rewrite Hrun.
  - eapply on_row_bind; [by apply complete_ok|]. intros _ w4 x4 [Hf4 _ _] Hx4 [-> Hw4].
    eapply on_row_impl; [by apply after_completion_ok|]. intros _ w6 x6 [-> ->].
    split_and!; [done| |done..]. unfold b_retry_count. simpl. by rewrite Hrun.
Qed.

Lemma record_failed_ok bc an b r w x :
  w_faults w = [] → w_builds w !! b_id b = Some x → br_success r = false →
  Sql.i32_ok (b_retry_count x + 1) = true →
  on_row (b_id b) w (record_failed an b r)
    (λ _ w' x', recorded bc an b (Ok (Some r)) x w' x').
Proof.
  intros Hf Hx Hr Hok. unfold record_failed, recorded. rewrite Hr.
  destruct (b_retry_count b <? b_max_retries b).
  - eapply on_row_bind; [by apply retry_ok|]. intros _ w1 x1 [Hf1 _ _] Hx1 [-> _].
    by eapply on_row_ret.
  - eapply on_row_bind; [by apply complete_ok|]. intros _ w1 x1 [Hf1 _ _] Hx1 [-> _].
    eapply on_row_bind; [by apply cache_failure_ok|].
    intros _ w2 x2 [Hf2 _ _] Hx2 [-> Hc].
    eapply on_row_impl; [by apply after_completion_ok|]. intros _ w6 x6 [-> ->].
    split_and!; [done..|]. eexists. exact Hc.
Qed.

Lemma record_outcome_ok bc an b o w x :
  w_faults w = [] → w_builds w !! b_id b = Some x → b_status x = Running →
  Sql.i32_ok (b_retry_count x + 1) = true →
  on_row (b_id b) w (record_outcome url_encode bc an b o)
    (λ _ w' x', recorded bc an b o x w' x').
Proof.
  intros Hf Hx Hs Hok. unfold record_outcome. destruct o as [[r|]|msg].
  - destruct (br_success r) eqn:Hr; [by apply record_success_ok|by apply record_failed_ok].
  - eapply on_row_bind; [by apply on_row_try, requeue_ok|].
    intros _ w1 x1 [Hf1 _ _] Hx1 (_ & _ & ->). by eapply on_row_ret.
  - eapply on_row_bind; [by apply complete_ok|]. intros _ w1 x1 [Hf1 _ _] Hx1 [-> _].
    eapply on_row_impl; [by apply after_completion_ok|]. by intros _ w6 x6 [-> ->].
Qed.

(** ** The venues *)

Lemma on_row_other_found {A} id w msg (f : World → result CiError (option A) * World) x :
  w_faults w = [] → w_builds w !! id = Some x →
  (w_builds (f w).2 = w_builds w ∧ w_faults (f w).2 = w_faults w ∧
   w_locks (f w).2 = w_locks w) →
  on_row id w (mtry (or_not_found msg (query f))) (λ _ w' x', x' = x ∧ w' = (f w).2).
Proof.
  intros Hf Hx (Hb & Hfl & Hlk).
  assert (∃ r, or_not_found msg (query f) w = (r, (f w).2)) as [r Hr].
  { unfold or_not_found, mbind, query. rewrite Hf.
    destruct (f w) as [[[a|]|e] w']; by eexists. }
  exists r, (f w).2, x.
  split_and!; [by apply mtry_ok|by constructor; [congruence|done|intros; by rewrite Hb]
    |by rewrite Hb|done..].
Qed.

Lemma builder_row_ok id w x rid f :
  w_faults w = [] → w_builds w !! id = Some x →
  on_row id w (mtry (remote_builders.update_row rid f)) (λ _ w' x', x' = x).
Proof.
  intros Hf Hx. unfold remote_builders.update_row.
  eapply on_row_impl; [apply (on_row_other_found id w _ _ x); [done..|]|].
  - by destruct (w_remote_builders w !! rid).
  - by intros _ ? ? [? _].
Qed.

(** An error of the foreign key is dropped, and the row stays. *)
Lemma reference_ok id w x refers f :
  w_faults w = [] → w_builds w !! id = Some x →
  on_row id w (mtry (let! _ := Sql.update_reference id refers f in mret ()))
    (λ _ w' x', x' = x ∨ x' = f x).
Proof.
  intros Hf Hx.
  assert (Hm : mtry (let! _ := Sql.update_reference id refers f in mret ()) w =
    if refers w then (Ok (Ok ()), set_w_builds (<[id := f x]> (w_builds w)) w)
    else (Ok (Err (Database "foreign key violation")), w)).
  { unfold Sql.update_reference, mtry, mbind, query. rewrite Hf, Hx. by destruct (refers w). }
  destruct (refers w).
  - exists (Ok ()), (set_w_builds (<[id := f x]> (w_builds w)) w), (f x).
    split_and!; [done| |apply lookup_insert_eq|by right].
    constructor; [done..|]. intros j Hj. by apply lookup_insert_ne.
  - eexists _, w, x. split_and!; [done|by constructor|done|by left].
Qed.

Lemma set_builder_ok id w x rid :
  w_faults w = [] → w_builds w !! id = Some x →
  on_row id w (mtry (builds.set_builder id rid)) (λ _ w' x', same_run x x').
Proof.
  intros Hf Hx. eapply on_row_impl; [by eapply reference_ok|]. by intros _ w' x' [->| ->].
Qed.

Lemma set_agent_ok id w x mid :
  w_faults w = [] → w_builds w !! id = Some x →
  on_row id w (mtry (builds.set_agent id mid)) (λ _ w' x', same_run x x').
Proof.
  intros Hf Hx. eapply on_row_impl; [by eapply reference_ok|]. by intros _ w' x' [->| ->].
Qed.

(** *** What the venue answers

    The specification of [execute], apart from its loops: which builder is asked, with which
    arguments, and whose result counts. *)

Definition rebuilds (w : World) (b : Build) : bool :=
  match w_evaluations w !! b_evaluation_id b with
  | Some e => bool_decide (e_trigger_kind e = EvaluationTriggerKind.Interval)
  | None => false
  end.

Section answers.
Context (bc : BuildContext) (now : Z) (an : Answers) (b : Build) (drv : string) (args : list string).
Let cx := bc_sched bc.

(** A builder the queue runner may give the build to. *)
Definition may_run (r : RemoteBuilder) : Prop :=
  (cx_require_host_key cx = true → is_Some (rs_public_host_key (rb_params r))) ∧
  (∀ f, f ∈ scheduling_features b → f ∈ rs_supported_features (rb_params r)) ∧
  (∀ f, f ∈ rs_mandatory_features (rb_params r) → f ∈ scheduling_features b).

(** Its pressure is read, or remembered, when a threshold is configured. *)
Definition pressure (r : RemoteBuilder) (c : PsiCache) : option PsiSnapshot * PsiCache :=
  match cx_psi_threshold cx with
  | Some _ => read_cached ssh now (rs_ssh_uri (rb_params r)) (cx_psi_check_timeout cx) c
  | None => (None, c)
  end.

Definition overloaded (r : RemoteBuilder) (c : PsiCache) : Prop :=
  ∃ threshold snap, cx_psi_threshold cx = Some threshold ∧ (pressure r c).1 = Some snap ∧
    exceeds snap threshold = true.

(** These builders are asked in this order, and none of them runs the build. *)
Inductive passed_over : PsiCache → list RemoteBuilder → PsiCache → Prop :=
  | passed_none c : passed_over c [] c
  | passed_unfit r l c c' : ¬ may_run r → passed_over c l c' → passed_over c (r :: l) c'
  | passed_loaded r l c c' : may_run r → overloaded r c → passed_over (pressure r c).2 l c' →
      passed_over c (r :: l) c'
  | passed_failed r l c c' e : may_run r → ¬ overloaded r c →
      an_remote an drv (store_uri_of r) args = Err e → passed_over (pressure r c).2 l c' →
      passed_over c (r :: l) c'.

(** The result of the first builder that runs it, if one does. *)
Inductive builders_answer (c : PsiCache) (l : list RemoteBuilder) : option BuildResult → Prop :=
  | answer_of pre r post c' res : l = pre ++ r :: post → passed_over c pre c' → may_run r →
      ¬ overloaded r c' → an_remote an drv (store_uri_of r) args = Ok res →
      builders_answer c l (Some res)
  | answer_none c' : passed_over c l c' → builders_answer c l None.

(** Enabled, for the system, and not backing off. *)
Definition available_for (w : World) (system : string) (r : RemoteBuilder) : Prop :=
  rs_enabled (rb_params r) = true ∧ system ∈ rs_systems (rb_params r) ∧
  ∀ t, rb_disabled_until r = Some t → t < w_now w.

(** The builders that are asked, the preferred ones first. *)
Definition asked (w : World) (l : list RemoteBuilder) : Prop :=
  match b_system b with
  | None => l = []
  | Some system =>
      (∃ others, rows (w_remote_builders w) ≡ₚ l ++ others ∧
         Forall (available_for w system) l ∧ Forall (λ r, ¬ available_for w system r) others ∧
         StronglySorted (λ r r', remote_builders.rank (cx_strategy cx) w r' ≤
                                 remote_builders.rank (cx_strategy cx) w r) l) ∨
      (** the ranking overflows *)
      (∃ k r, w_remote_builders w !! k = Some r ∧ available_for w system r ∧
         remote_builders.rank_ok (cx_strategy cx) (remote_builders.rank (cx_strategy cx) w r) = false) ∧
      l = []
  end.

(** The runner itself is able to build it. *)
Definition runner_able : Prop :=
  caps_enabled (cx_runner_caps cx) = true ∧
  (∀ system, b_system b = Some system → system ∈ caps_systems (cx_runner_caps cx)) ∧
  ∀ f, f ∈ scheduling_features b → f ∈ caps_features (cx_runner_caps cx).

(** The permit of the runner: the builders over SSH, then the runner itself. *)
Inductive runner_answer (w : World) (c : PsiCache) : result string (option BuildResult) → Prop :=
  | runner_remote l res : asked w l → builders_answer c l (Some res) →
      runner_answer w c (Ok (Some res))
  | runner_local l res : asked w l → builders_answer c l None → runner_able →
      an_local an drv args = Ok res → runner_answer w c (Ok (Some res))
  | runner_error l e : asked w l → builders_answer c l None → runner_able →
      an_local an drv args = Err e → runner_answer w c (Err e)
  | runner_unable l : asked w l → builders_answer c l None → ¬ runner_able →
      runner_answer w c (Ok None).

(** What a connected agent's report means. *)
Definition agent_report : option (bool * Z * string) :=
  match an_agent an with
  | Some (DSucceeded msg) => Some (true, 0, default "" msg)
  | Some (DFailed msg) => Some (false, 1, msg)
  | Some DTimedOut => Some (false, 124, "build timed out")
  | Some DAborted => Some (false, 130, "build aborted")
  | Some (DOomKilled msg) => Some (false, -9, msg)
  | Some DDisconnected | None => None
  end.

Definition report_result (report : bool * Z * string) : BuildResult :=
  let '(success, code, text) := report in
  {| br_success := success; br_exit_code := Some code; br_stdout := ""; br_stderr := text;
     br_output_paths := if success then read_drv_outputs an drv else [];
     br_cache_upload_handled := presigned_s3_upload_available (bc_upload bc) |}.

Definition connected (meta : positive) (h : Heap) : bool :=
  match h !! meta with Some m => tx_open m | None => false end.

(** An agent's report, or what the runner's permit gives when the agent has none. *)
Definition venue_answers (w : World) (c : PsiCache) (v : Venue)
    (o : result string (option BuildResult)) : Prop :=
  match v with
  | VAgent meta _ h =>
      match (if connected meta h then agent_report else None) with
      | Some report => o = Ok (Some (report_result report))
      | None => if an_permit an then runner_answer w c o else o = Ok None
      end
  | VRunner => runner_answer w c o
  end.
End answers.

(** The world in which the builders are ranked: the one the run began in, but for the row of
    the build, which is running. *)
Record while_running (b : Build) (w w1 : World) : Prop := {
  wr_builders : w_remote_builders w1 = w_remote_builders w;
  wr_now : w_now w1 = w_now w;
  wr_rows j : j ≠ b_id b → w_builds w1 !! j = w_builds w !! j;
  wr_row : ∃ x, w_builds w1 !! b_id b = Some x ∧ b_info x = b_info b ∧ b_status x = Running;
}.

(** The answer of the venue of a run that begins in [w]. *)
Definition venue_outcome (bc : BuildContext) (now : Z) (an : Answers) (b : Build) (c : PsiCache)
    (v : Venue) (w : World) (o : result string (option BuildResult)) : Prop :=
  ∃ w1, while_running b w w1 ∧
    venue_answers bc now an b (normalized_drv_path bc b)
      (nix_args_for_build (bc_extra_nix_args bc) (rebuilds w b)
         (cache_args_for_build (bc_cache_config bc) (project_of w b))) w1 c v o.

(** *** The code answers as specified *)

Section answered.
Context (bc : BuildContext) (now : Z) (an : Answers) (b : Build) (drv : string) (args : list string).
Let cx := bc_sched bc.

Lemma all_in (l k : list string) :
  forallb (λ f, str_in f k) l = true ↔ ∀ f, f ∈ l → f ∈ k.
Proof.
  rewrite forallb_forall. setoid_rewrite <-list_elem_of_In. by setoid_rewrite Names.str_in_iff.
Qed.

Lemma may_run_spec r :
  cx_require_host_key cx && is_none (rs_public_host_key (rb_params r)) = false →
  supports_required_features (scheduling_features b) (rs_supported_features (rb_params r))
    (rs_mandatory_features (rb_params r)) = true → may_run bc b r.
Proof.
  unfold may_run, supports_required_features. rewrite andb_true_iff, !all_in. fold cx.
  intros Hk [Hs Hm]. split_and!; [|done..]. intros Hr. rewrite Hr in Hk.
  by destruct (rs_public_host_key (rb_params r)).
Qed.

Lemma may_run_inv r :
  may_run bc b r →
  cx_require_host_key cx && is_none (rs_public_host_key (rb_params r)) = false ∧
  supports_required_features (scheduling_features b) (rs_supported_features (rb_params r))
    (rs_mandatory_features (rb_params r)) = true.
Proof.
  unfold may_run, supports_required_features. rewrite andb_true_iff, !all_in. fold cx.
  intros (Hk & Hs & Hm). split; [|done]. destruct (cx_require_host_key cx); [|done].
  by destruct (Hk eq_refl) as [k ->].
Qed.

Lemma overloaded_spec r c over c2 :
  (match cx_psi_threshold cx with
   | Some threshold =>
       let '(snap, c) := read_cached ssh now (rs_ssh_uri (rb_params r)) (cx_psi_check_timeout cx) c in
       (match snap with Some s => exceeds s threshold | None => false end, c)
   | None => (false, c)
   end) = (over, c2) →
  c2 = (pressure bc now r c).2 ∧ (over = true ↔ overloaded bc now r c).
Proof.
  unfold overloaded, pressure. fold cx. destruct (cx_psi_threshold cx) as [t|].
  - destruct (read_cached _ _ _ _ _) as [[s|] c1]; intros [= <- <-]; (split; [done|]); naive_solver.
  - intros [= <- <-]. split; [done|]. naive_solver.
Qed.

(** One more builder is asked first, in vain. *)
Lemma builders_answer_cons r l c c2 o :
  (∀ l c', passed_over bc now an b drv args c2 l c' → passed_over bc now an b drv args c (r :: l) c') →
  builders_answer bc now an b drv args c2 l o → builders_answer bc now an b drv args c (r :: l) o.
Proof.
  intros Hr [pre r' post c' res -> Hp Hm Ho Ha|c' Hp]; [|by eapply answer_none, Hr].
  eapply (answer_of _ _ _ _ _ _ _ _ (r :: pre)); [done|by apply Hr|done..].
Qed.

Lemma try_builders_ok jitter l c w x :
  w_faults w = [] → w_builds w !! b_id b = Some x →
  on_row (b_id b) w (try_builders ssh cx now jitter an b drv args l c)
    (λ o _ x', same_run x x' ∧ builders_answer bc now an b drv args c l o.1).
Proof.
  revert c w x. induction l as [|r l IH]; intros c w x Hf Hx.
  { eapply on_row_ret; [done..|]. split; [done|]. eapply answer_none. constructor. }
  assert (Hun : ¬ may_run bc b r → on_row (b_id b) w (try_builders ssh cx now jitter an b drv args l c)
    (λ o _ x', same_run x x' ∧ builders_answer bc now an b drv args c (r :: l) o.1)).
  { intros Hm. eapply on_row_impl; [by apply IH|]. intros o w1 x1 [Hs Ho]. split; [done|].
    eapply builders_answer_cons; [|done]. intros. by apply passed_unfit. }
  cbn [try_builders]. case_match eqn:Hkey.
  { apply Hun. intros [Hk _]%may_run_inv. congruence. }
  case_match eqn:Hsup.
  { apply Hun. intros [_ Hs]%may_run_inv. by rewrite Hs in Hsup. }
  assert (Hm : may_run bc b r) by (apply may_run_spec; [done|by apply negb_false_iff]).
  destruct (match cx_psi_threshold cx with Some _ => _ | None => _ end) as [over c2] eqn:Hov.
  apply overloaded_spec in Hov as [-> Hov]. destruct over.
  { eapply on_row_impl; [by apply IH|]. intros o w1 x1 [Hs Ho]. split; [done|].
    eapply builders_answer_cons; [|done]. intros. apply passed_loaded; [done|by apply Hov|done]. }
  assert (Hno : ¬ overloaded bc now r c) by (by intros ?%Hov).
  eapply on_row_bind; [by apply set_builder_ok|]. intros _ w1 x1 [Hf1 _ _] Hx1 Hs1.
  destruct (an_remote an drv (store_uri_of r) args) as [res|e] eqn:Ha.
  - eapply on_row_bind; [by apply builder_row_ok|]. intros _ w2 x2 [Hf2 _ _] Hx2 ->.
    eapply on_row_ret; [done..|]. split; [done|].
    eapply (answer_of _ _ _ _ _ _ _ _ [] r l); [done|constructor|done..].
  - eapply on_row_bind; [by apply builder_row_ok|]. intros _ w2 x2 [Hf2 _ _] Hx2 ->.
    eapply on_row_impl; [by apply IH|]. intros o w3 x3 [Hs3 Ho]. split; [by eapply same_run_trans|].
    eapply builders_answer_cons; [|done]. intros. by eapply passed_failed.
Qed.

(** *** The order of the builders *)

Lemma insert_ranked (f : RemoteBuilder → Z) r l :
  StronglySorted (λ x y, f y ≤ f x) l →
  StronglySorted (λ x y, f y ≤ f x) (insert_by (λ x y, f y ?= f x) r l).
Proof.
  induction 1 as [|y l Hs IH Hy]; simpl; [by repeat constructor|].
  destruct (Z.compare_spec (f y) (f r)); constructor; try (by constructor); try lia.
  - constructor; [lia|]. eapply Forall_impl; [exact Hy|]. simpl. lia.
  - constructor; [lia|]. eapply Forall_impl; [exact Hy|]. simpl. lia.
  - done.
  - rewrite insert_by_perm. constructor; [lia|done].
Qed.

Lemma sort_ranked (f : RemoteBuilder → Z) l :
  StronglySorted (λ x y, f y ≤ f x) (sort_by (λ x y, f y ?= f x) l).
Proof. induction l; simpl; [constructor|by apply insert_ranked]. Qed.

Lemma filter_split {A} (p : A → bool) l :
  l ≡ₚ List.filter p l ++ List.filter (λ x, negb (p x)) l.
Proof.
  induction l as [|x l IH]; [done|]. cbn [List.filter]. destruct (p x); simpl.
  - by rewrite <-IH.
  - rewrite <-Permutation_middle. by rewrite <-IH.
Qed.

Lemma forallb_fails {A} (p : A → bool) l : forallb p l = false → ∃ x, x ∈ l ∧ p x = false.
Proof.
  induction l as [|x l IH]; [done|]. simpl. intros [Hx|(y & Hy & Hp)%IH]%andb_false_iff.
  - exists x. split; [left|done].
  - exists y. split; [by right|done].
Qed.

Lemma available_spec w system r :
  remote_builders.available w system r = true ↔ available_for w system r.
Proof.
  unfold remote_builders.available, available_for. rewrite !andb_true_iff, Names.str_in_iff.
  destruct (rb_disabled_until r) as [t|]; [rewrite Z.ltb_lt|]; naive_solver.
Qed.

Lemma asked_found w system :
  b_system b = Some system →
  let found := List.filter (remote_builders.available w system) (rows (w_remote_builders w)) in
  asked bc b w (if forallb (λ r, remote_builders.rank_ok (cx_strategy cx) (remote_builders.rank (cx_strategy cx) w r)) found
                then sort_by (λ x y, remote_builders.rank (cx_strategy cx) w y ?= remote_builders.rank (cx_strategy cx) w x) found
                else []).
Proof.
  intros Es found. unfold asked. rewrite Es. fold cx.
  assert (Hin : ∀ r, r ∈ found ↔ r ∈ rows (w_remote_builders w) ∧ available_for w system r).
  { intros r. unfold found. by rewrite list_elem_of_In, filter_In, <-list_elem_of_In, available_spec. }
  destruct (forallb _ found) eqn:Hok.
  - left. exists (List.filter (λ r, negb (remote_builders.available w system r)) (rows (w_remote_builders w))).
    split_and!.
    + rewrite sort_by_perm. apply filter_split.
    + rewrite sort_by_perm. apply Forall_forall. intros r Hr. by apply Hin.
    + apply Forall_forall. intros r Hr Ha%available_spec. rewrite list_elem_of_In, filter_In, Ha in Hr.
      by destruct Hr.
    + apply sort_ranked.
  - right. split; [|done]. apply forallb_fails in Hok as (r & Hr & Hk). apply Hin in Hr as [Hr Ha].
    apply elem_of_rows in Hr as [k Hr]. by exists k, r.
Qed.

Lemma runner_able_spec :
  runner_supports (cx_runner_caps cx) (b_system b) (scheduling_features b) = true ↔ runner_able bc b.
Proof.
  unfold runner_supports, runner_able. fold cx. rewrite !andb_true_iff, all_in.
  destruct (b_system b) as [s|]; [rewrite Names.str_in_iff|]; naive_solver.
Qed.

Lemma run_on_runner_ok jitter c w x :
  w_faults w = [] → w_builds w !! b_id b = Some x →
  on_row (b_id b) w (run_on_runner ssh cx now jitter an b drv args c)
    (λ o _ x', same_run x x' ∧ runner_answer bc now an b drv args w c o).
Proof.
  intros Hf Hx. unfold run_on_runner.
  eapply on_row_bind with (P := λ o _ x', same_run x x' ∧ ∃ l, asked bc b w l ∧ builders_answer bc now an b drv args c l o).
  - unfold try_remote_build. destruct (b_system b) as [system|] eqn:Es; simpl.
    2:{ eapply on_row_ret; [done..|]. split; [done|]. exists []. split; [by unfold asked; rewrite Es|].
        eapply answer_none. constructor. }
    eapply on_row_bind with (P := λ found w' x', w' = w ∧ x' = x ∧
      asked bc b w (match found with Ok l => l | Err _ => [] end)).
    + pose proof (asked_found w system Es) as Ha. unfold remote_builders.find_for_system.
      unfold on_row, mtry, query. rewrite Hf. simpl in Ha |- *. set (found := List.filter _ _) in *.
      destruct (forallb _ found); eexists _, w, x; (split; [reflexivity|]); by split_and!; [apply keeps_refl|..].
    + intros found w1 x1 _ _ (-> & -> & Ha). destruct found as [l|e].
      * eapply on_row_bind; [by apply try_builders_ok|]. intros [o c'] w2 x2 [Hf2 _ _] Hx2 [Hs Ho].
        eapply on_row_ret; [done..|]. eauto.
      * eapply on_row_ret; [done..|]. split; [done|]. exists []. split; [done|].
        eapply answer_none. constructor.
  - intros o w1 x1 [Hf1 _ _] Hx1 (Hs & l & Ha & Ho). destruct o as [r|].
    { eapply on_row_ret; [done..|]. split; [done|]. by eapply runner_remote. }
    destruct (runner_supports _ _ _) eqn:Hr; simpl; (eapply on_row_ret; [done..|]); (split; [done|]).
    + apply runner_able_spec in Hr. destruct (an_local an drv args) eqn:El;
        [by eapply runner_local|by eapply runner_error].
    + eapply runner_unable; [done..|]. intros Hb%runner_able_spec. congruence.
Qed.
End answered.

(** The row of the build differs in its venue at most, and the builders are the same. *)
Definition calm (b x : Build) (w w1 : World) : Prop :=
  same_builders w w1 ∧ (∀ j, j ≠ b_id b → w_builds w1 !! j = w_builds w !! j) ∧
  ∃ y, w_builds w1 !! b_id b = Some y ∧ same_run x y.

Lemma touch_agent_ok id w x mid :
  w_faults w = [] → w_builds w !! id = Some x →
  on_row id w (let! _ := mtry (builder_sessions.touch mid) in mtry (builds.set_agent id mid))
    (λ _ w' x', same_run x x' ∧ same_builders w w').
Proof.
  intros Hf Hx. apply on_row_leads.
  - eapply on_row_bind with (P := λ _ _ x', x' = x).
    + unfold builder_sessions.touch, builder_sessions.update.
      eapply on_row_impl; [by apply (on_row_other _ _ _ x)|by intros _ ? ? [-> _]].
    + intros _ w1 x1 [Hf1 _ _] Hx1 ->. by apply set_agent_ok.
  - apply (leads_mbind _); [by apply leads_mtry, (leads_query _ same_builders_faults)|].
    intros _. apply leads_mtry, (leads_mbind _); [apply reference_calm|].
    intros. apply (leads_mret _).
Qed.

Lemma execute_ok bc now jitter an b args c v w x :
  w_faults w = [] → w_builds w !! b_id b = Some x →
  on_row (b_id b) w (execute ssh bc now jitter an b (normalized_drv_path bc b) args c v)
    (λ o _ x', same_run x x' ∧ ∃ w1, calm b x w w1 ∧
       venue_answers bc now an b (normalized_drv_path bc b) args w1 c v o).
Proof.
  intros Hf Hx. assert (Hc : calm b x w w) by (split_and!; [done..|by exists x]).
  destruct v as [meta snap h|]; cbn [execute venue_answers].
  2:{ eapply on_row_impl; [by apply run_on_runner_ok|]. intros o w1 x1 [Hs Ho]. eauto. }
  fold (connected meta h).
  assert (Er : agent_result (presigned_s3_upload_available (bc_upload bc))
      (read_drv_outputs an (normalized_drv_path bc b)) (an_agent an) =
    report_result bc an (normalized_drv_path bc b) <$> agent_report an).
  { unfold agent_report, agent_result. by destruct (an_agent an) as [[]|]. }
  set (drv := normalized_drv_path bc b) in *.
  eapply on_row_bind with (P := λ r w1 x', same_run x x' ∧ calm b x w w1 ∧
    r = report_result bc an drv <$> (if connected meta h then agent_report an else None)).
  { unfold run_on_agent. rewrite Er. destruct (connected meta h); cbn [negb]; [|by eapply on_row_ret].
    apply on_row_assoc.
    eapply on_row_bind; [by apply touch_agent_ok|]. intros _ w2 x2 Hk2 Hx2 [Hs Hb].
    eapply on_row_ret; [apply Hk2|done|]. split; [done|]. split; [|done].
    split_and!; [done|apply Hk2|by exists x2]. }
  intros r w1 x1 [Hf1 _ _] Hx1 (Hs & Hc1 & ->).
  destruct (if connected meta h then agent_report an else None) as [report|]; cbn [fmap option_fmap option_map].
  { eapply on_row_ret; [done..|]. eauto. }
  destruct (an_permit an).
  - eapply on_row_impl; [by apply run_on_runner_ok|]. intros o w2 x2 [Hs2 Ho].
    split; [by eapply same_run_trans|]. by exists w1.
  - eapply on_row_ret; [done..|]. split; [done|]. by exists w1.
Qed.

(** ** The whole run *)

(** The row of [x] enters [recorded] through its fixed columns and its counter. *)
Lemma recorded_from bc an b o x y w' x' :
  b_info x = b_info y → b_retry_count x = b_retry_count y →
  recorded bc an b o x w' x' → recorded bc an b o y w' x'.
Proof. unfold recorded. by intros -> ->. Qed.

Lemma failure_status_finished r : is_finished (failure_status r) = true.
Proof.
  unfold failure_status. destruct (br_exit_code r) as [c|]; [|done].
  unfold from_exit_code. repeat case_match; done.
Qed.

Lemma recorded_not_running bc an b o x w' x' :
  recorded bc an b o x w' x' → b_status x' ≠ Running.
Proof.
  intros [_ Hr]. destruct o as [[r|]|msg].
  - destruct (br_success r).
    + destruct Hr as [_ Hr]. case_match; destruct Hr as [-> _]; done.
    + case_match; destruct Hr as [-> _]; [done|].
      intros Hs. pose proof (failure_status_finished r) as Hf. by rewrite Hs in Hf.
  - by destruct Hr as [-> _].
  - by destruct Hr as [-> _].
Qed.

(** The build can be claimed now. *)
Definition claimable (w : World) (b : Build) : Prop :=
  w_builds w !! b_id b = Some b ∧ b_status b = Pending ∧ (b_drv_path b ∉ w_locks w) ∧
  Sql.running_twin (b_drv_path b) (w_builds w) = false.

Lemma start_claimable w b :
  w_faults w = [] → claimable w b →
  on_row (b_id b) w (builds.start (b_id b))
    (λ a w' x', a = Some x' ∧ x' = Sql.set_running (w_now w) b ∧
       w' = set_w_builds (<[b_id b := x']> (w_builds w)) w).
Proof.
  intros Hf (Hb & Hp & Hl & Ht). unfold builds.start, Sql.start, on_row.
  eapply on_row_impl.
  - eapply update_row_ok; [done|exact Hb| |done].
    unfold Sql.has_status. rewrite bool_decide_true by done.
    by rewrite (bool_decide_false _ Hl), Ht.
  - by intros a w' x' (-> & -> & ->).
Qed.

Lemma notify_started_calm x ctx : leads same_builders (notify_started x ctx).
Proof.
  unfold notify_started. destruct ctx; [|apply (leads_mret _)].
  apply (leads_mbind _); [|intros; apply (leads_mret _)].
  apply leads_mtry, (leads_mbind _); [intros w; apply update_calm|]. intros. apply (leads_mret _).
Qed.

Lemma notify_started_ok b x w ctx :
  w_faults w = [] → b_id x = b_id b → w_builds w !! b_id b = Some x →
  on_row (b_id b) w (notify_started x ctx)
    (λ _ _ x', b_info x' = b_info x ∧ b_status x' = b_status x ∧
       b_retry_count x' = b_retry_count x).
Proof.
  intros Hf Hid Hx. unfold notify_started. destruct ctx; [|by eapply on_row_ret].
  rewrite Hid. unfold builds.mark_started_notified, Sql.mark_started_notified.
  destruct (is_none (b_started_notified_at x)) eqn:Hn.
  - set (Q := λ x', b_info x' = b_info x ∧ b_status x' = b_status x ∧
      b_retry_count x' = b_retry_count x).
    eapply on_row_bind with (P := λ _ _ x', Q x').
    { eapply on_row_impl; [apply on_row_try; eapply on_row_bind with (Q := λ _ _ x', Q x');
        [by eapply update_row_ok|]|by intros r ? ? (? & _ & ?)].
      intros a w1 x1 [Hf1 _ _] Hx1 (_ & -> & _). by eapply on_row_ret. }
    intros r w1 x1 [Hf1 _ _] Hx1 HQ. by eapply on_row_ret.
  - assert (Hu : ∀ f, Sql.update (b_id b) (λ b0, is_none (b_started_notified_at b0)) f w =
      (Ok None, w)).
    { intros f. by rewrite update_no_fault, Hx, Hn. }
    exists [], w, x. split_and!; [|by apply keeps_refl|done..].
    unfold mbind, mtry. by rewrite Hu.
Qed.

Lemma run_reserved_ok bc now jitter an b c v w :
  w_faults w = [] → claimable w b → Sql.i32_ok (b_retry_count b + 1) = true →
  on_row (b_id b) w (run_reserved url_encode ssh bc now jitter an b c v)
    (λ _ w' x', ∃ o, recorded bc an b o b w' x' ∧ venue_outcome bc now an b c v w o).
Proof.
  intros Hf Hcl Hok. unfold run_reserved.
  eapply on_row_bind; [by apply start_claimable|].
  intros a w1 x1 [Hf1 _ Hk1] Hx1 (-> & Heq & Ew).
  assert (Hst : b_status x1 = Running ∧ b_info x1 = b_info b ∧
    b_retry_count x1 = b_retry_count b) by (by subst x1).
  assert (Hb1 : same_builders w w1) by (by subst w1).
  assert (Hev : project_of w1 x1 = project_of w b ∧ rebuilds w1 b = rebuilds w b).
  { subst w1 x1. done. }
  clear Heq Ew. destruct Hst as (Hst & Hi & Hrc). destruct Hev as [Hp Hrb].
  eapply on_row_bind; [by apply project_ok|]. intros ctx w2 x2 _ _ (-> & -> & Ectx).
  eapply on_row_bind with (P := λ r w' x', w' = w1 ∧ x' = x1 ∧ r = rebuilds w1 b).
  { unfold is_interval_rebuild, evaluations.get, rebuilds.
    eapply on_row_bind; [by apply (on_row_get (b_id b) w1)|].
    intros e w2 x2 _ _ (-> & -> & ->). destruct (w_evaluations w1 !! _); by eapply on_row_ret. }
  intros interval w2 x2 _ _ (-> & -> & ->).
  eapply on_row_bind.
  { eapply on_row_leads; [|apply notify_started_calm].
    apply notify_started_ok; [done| |exact Hx1]. unfold b_id. by rewrite Hi. }
  intros started w3 x3 [Hf3 _ Hk3] Hx3 ((Hi3 & Hs3 & Hr3) & Hb3).
  eapply on_row_bind; [by apply execute_ok|].
  intros o w4 x4 [Hf4 _ _] Hx4 ([Hi4 Hr4] & w5 & Hc5 & Hans).
  assert (b_retry_count x4 = b_retry_count b) as Hrc4.
  { unfold b_retry_count in *. rewrite Hr4. congruence. }
  eapply on_row_bind; [apply record_outcome_ok; [done|exact Hx4| |by rewrite Hrc4]|].
  { unfold b_status in *. rewrite Hr4. congruence. }
  intros events w6 x6 [Hf6 _ _] Hx6 Hrec. eapply on_row_ret; [done..|].
  exists o. split; [eapply recorded_from; [| |exact Hrec]; congruence|].
  exists w5. split; [|by rewrite Ectx, Hp, Hrb in Hans].
  destruct Hc5 as ([Hrb5 Hn5] & Hk5 & y & Hy & Hiy & Hry). destruct Hb1, Hb3. split.
  - congruence.
  - congruence.
  - intros j Hj. by rewrite Hk5, Hk3, Hk1.
  - exists y. split; [done|]. split; [congruence|]. unfold b_status in *. rewrite Hry. congruence.
Qed.
End outcomes.

(** C4. Running a claimed build always ends with its outcome on record, the database
    answering: for every venue and every answer of the processes, [run_build] ends
    without error, touches no other build, never leaves the build running, and its
    row is: back in the queue with the same retry count when no venue ran it;
    succeeded with the first output when the build succeeded, or failed when a
    required upload was exhausted; back in the queue with one more retry when it
    failed with retries left; otherwise finished with the status of its exit code
    and its derivation in the cache of failures.  The outcome is that of its venue: the
    report of a connected agent; or else, with a permit of the runner, the result of the first
    builder over SSH that runs it, of those available for the system in the order of the
    strategy that have a pinned key where one is required, fit its features and are not under
    pressure; or else that of the runner, if it is able to build it.  They are run with the
    arguments of the build's project and evaluation. *)
Theorem run_reserved_records url_encode ssh bc now jitter an b c v w :
  w_faults w = [] → claimable w b → 0 ≤ b_retry_count b < I32_MAX →
  ∃ events w' x' o,
    run_reserved url_encode ssh bc now jitter an b c v w = (Ok events, w') ∧
    (∀ j, j ≠ b_id b → w_builds w' !! j = w_builds w !! j) ∧
    w_builds w' !! b_id b = Some x' ∧ b_status x' ≠ Running ∧
    recorded url_encode bc an b o b w' x' ∧ venue_outcome ssh bc now an b c v w o.
Proof.
  intros Hf Hcl Hrc.
  destruct (run_reserved_ok url_encode ssh bc now jitter an b c v w Hf Hcl)
    as (events & w' & x' & Hrun & [_ _ Hk] & Hx & o & Hrec & Hans).
  { unfold Sql.i32_ok, I32_MIN, I32_MAX in *. apply andb_true_iff. lia. }
  exists events, w', x', o. split_and!; [done..| |done|done].
  by eapply recorded_not_running.
Qed.

(** ** Retries *)

(** One run of the build: when, on which venue, and what the processes answer. *)
Record Attempt := {
  at_now : Z;
  at_jitter : Z;
  at_answers : Answers;
  at_cache : PsiCache;
  at_venue : Venue;
}.

Section retries.
Context (url_encode : string → string) (ssh : list string → option string) (bc : BuildContext).

(** The build is run again and again as the scheduler finds it. *)
Fixpoint attempts (l : list Attempt) (id : Uuid) (w : World) : World :=
  match l with
  | [] => w
  | a :: l =>
      match w_builds w !! id with
      | Some b =>
          attempts l id (run_reserved url_encode ssh bc (at_now a) (at_jitter a) (at_answers a) b
                           (at_cache a) (at_venue a) w).2
      | None => w
      end
  end.

Definition outcome_of (a : Attempt) (b : Build) (w : World) : result string (option BuildResult) → Prop :=
  venue_outcome ssh bc (at_now a) (at_answers a) b (at_cache a) (at_venue a) w.

(** The venue runs the build and it fails, or running it is an error. *)
Definition fails (a : Attempt) (b : Build) (w : World) : Prop :=
  ∀ o, outcome_of a b w o → (∃ r, o = Ok (Some r) ∧ br_success r = false) ∨ ∃ e, o = Err e.

Lemma no_twin drv t :
  (∀ j x, t !! j = Some x → b_drv_path x = drv → b_status x ≠ Running) →
  Sql.running_twin drv t = false.
Proof.
  intros H. destruct (Sql.running_twin drv t) eqn:E; [|done]. exfalso.
  apply existsb_exists in E as (x & Hx & Hs).
  apply andb_true_iff in Hs as [Hd%bool_decide_eq_true Hs%has_status_true].
  apply list_elem_of_In, list_elem_of_fmap in Hx as ([j y] & -> & Hx).
  apply elem_of_map_to_list in Hx. by apply (H j y).
Qed.

Lemma agent_fails a b w meta snap h report :
  at_venue a = VAgent meta snap h → connected meta h = true →
  agent_report (at_answers a) = Some report → report.1.1 = false → fails a b w.
Proof.
  intros Hv Hc Hr Hs o (w1 & _ & Ho). rewrite Hv in Ho. cbn [venue_answers] in Ho.
  rewrite Hc, Hr in Ho. subst o. left. destruct report as [[success code] text]. simpl in Hs. subst success.
  by eexists.
Qed.

Lemma runner_fails a b w :
  at_venue a = VRunner → runner_able bc b →
  (∀ drv uri args r, an_remote (at_answers a) drv uri args = Ok r → br_success r = false) →
  (∀ drv args r, an_local (at_answers a) drv args = Ok r → br_success r = false) → fails a b w.
Proof.
  intros Hv Hab Hr Hl o (w1 & _ & Ho). rewrite Hv in Ho. cbn [venue_answers] in Ho.
  destruct Ho as [l res _ Hb|l res _ _ _ Hres|l e _ _ _ _|l _ _ Hn]; [..|right; by exists e|done].
  - left. exists res. split; [done|]. inversion Hb as [? ? ? ? ? _ _ _ _ Ha|]. by eapply Hr.
  - left. exists res. split; [done|]. by eapply Hl.
Qed.

(** How a run ends the build: with an error, or with its last failure. *)
Definition given_up (a : Attempt) (b : Build) (w w' : World) (b' : Build) : Prop :=
  (∃ e, outcome_of a b w (Err e) ∧ b_status b' = Failed ∧ b_error_message b' = Some e) ∨
  (b_max_retries b ≤ b_retry_count b ∧
   ∃ r, outcome_of a b w (Ok (Some r)) ∧ br_success r = false ∧ b_status b' = failure_status r ∧
     is_Some (w_failed_paths w' !! b_drv_path b)).

(** One failed attempt. *)
Lemma attempt_once a b w :
  fails a b w → w_faults w = [] → claimable w b → 0 ≤ b_retry_count b < I32_MAX →
  ∃ w' b', (run_reserved url_encode ssh bc (at_now a) (at_jitter a) (at_answers a) b
              (at_cache a) (at_venue a) w).2 = w' ∧
    w_faults w' = [] ∧ w_builds w' !! b_id b = Some b' ∧ b_info b' = b_info b ∧
    (given_up a b w w' b' ∨
     b_retry_count b < b_max_retries b ∧ claimable w' b' ∧ b_retry_count b' = b_retry_count b + 1).
Proof.
  intros Hfail Hf Hcl Hrc.
  destruct (run_reserved_ok url_encode ssh bc (at_now a) (at_jitter a) (at_answers a) b (at_cache a)
    (at_venue a) w Hf Hcl) as (events & w' & x' & Hrun & [Hf' Hl Hk] & Hx & o & Hrec & Ho).
  { unfold Sql.i32_ok, I32_MIN, I32_MAX in *. apply andb_true_iff. lia. }
  exists w', x'. rewrite Hrun. destruct Hrec as [Hi Hrec]. split_and!; [done..|].
  destruct (Hfail o Ho) as [(r & -> & Hr)|[e ->]].
  2:{ destruct Hrec as (? & _ & ?). left. left. by exists e. }
  rewrite Hr in Hrec. destruct (Z.ltb_spec (b_retry_count b) (b_max_retries b)).
  - destruct Hrec as [Hp Hc']. right. split; [done|]. split; [|done].
    destruct Hcl as (Hb & Hpend & Hlk & Htw).
    assert (b_id x' = b_id b) as Hid by (unfold b_id; by rewrite Hi).
    split_and!; [by rewrite Hid|done| |].
    + unfold b_drv_path in *. by rewrite Hi, Hl.
    + apply no_twin. intros j y Hy Hd. destruct (decide (j = b_id b)) as [->|Hj].
      * rewrite Hx in Hy. simplify_eq. congruence.
      * rewrite Hk in Hy by done. eapply running_twin_false; [exact Htw|exact Hy|].
        unfold b_drv_path in *. congruence.
  - destruct Hrec as (Hs & _ & _ & t & Hc'). left. right. split; [done|]. exists r.
    split_and!; [done..|by eexists].
Qed.

Lemma attempts_cons a l b w :
  w_builds w !! b_id b = Some b →
  attempts (a :: l) (b_id b) w =
  attempts l (b_id b) (run_reserved url_encode ssh bc (at_now a) (at_jitter a) (at_answers a) b
                         (at_cache a) (at_venue a) w).2.
Proof. intros Hb. simpl. by rewrite Hb. Qed.
End retries.

(** C33. Retries are bounded: a build that fails in every run, with a failed result of its venue -
    the report of an agent, whatever kind of failure it tells, an SSH builder or the runner
    itself, in any order - or with an error of the run, is back in the queue with its counter up
    by one after each run, until a run is an error, which finishes it as failed with the text of
    the error, or the counter has reached [max_retries] and one more run fails, which finishes it
    with the status of that failure and puts its derivation into the cache of failures. *)
Theorem retries_bounded url_encode ssh bc l b w :
  let run k := attempts url_encode ssh bc (take k l) (b_id b) w in
  (∀ k a b', l !! k = Some a → w_builds (run k) !! b_id b = Some b' → b_status b' = Pending →
     fails ssh bc a b' (run k)) →
  w_faults w = [] → claimable w b → 0 ≤ b_retry_count b ≤ b_max_retries b →
  b_max_retries b < I32_MAX → b_max_retries b - b_retry_count b < zlen l →
  ∃ m a b1 b2, Z.of_nat m ≤ b_max_retries b - b_retry_count b ∧ l !! m = Some a ∧
    (∀ k, (k <= m)%nat → ∃ b', w_builds (run k) !! b_id b = Some b' ∧
       b_status b' = Pending ∧ b_retry_count b' = b_retry_count b + Z.of_nat k) ∧
    w_builds (run m) !! b_id b = Some b1 ∧ w_builds (run (S m)) !! b_id b = Some b2 ∧
    given_up ssh bc a b1 (run m) (run (S m)) b2.
Proof.
  revert b w. induction l as [|a l IH]; intros b w run Hfail Hf Hcl Hrc Hmax Hlen.
  { unfold zlen in Hlen. simpl in Hlen. lia. }
  assert (Hrow := proj1 Hcl).
  destruct (attempt_once url_encode ssh bc a b w) as (w' & b' & Hrun & Hf' & Hb' & Hi & Hr); [|done..|lia|].
  { by apply (Hfail 0%nat a b); [..|apply Hcl]. }
  assert (b_id b' = b_id b) as Hid by (unfold b_id; by rewrite Hi).
  assert (Hstep : ∀ k, run (S k) = attempts url_encode ssh bc (take k l) (b_id b') w').
  { intros k. unfold run. cbn [take]. rewrite attempts_cons, Hrun by done. by rewrite Hid. }
  assert (H0 : ∃ y, w_builds (run 0%nat) !! b_id b = Some y ∧ b_status y = Pending ∧
    b_retry_count y = b_retry_count b + Z.of_nat 0).
  { exists b. split_and!; [done|apply Hcl|lia]. }
  destruct Hr as [Hg|(Hlt & Hcl' & Hrc')].
  { exists 0%nat, a, b, b'. split_and!; [lia|done| |done|by rewrite Hstep, Hid|by rewrite Hstep].
    intros k Hk. by replace k with 0%nat by lia. }
  assert (b_max_retries b' = b_max_retries b) as Hmx by (unfold b_max_retries; by rewrite Hi).
  destruct (IH b' w') as (m & a' & b1 & b2 & Hm & Ha & Hk & H1 & H2 & Hg); [|done|done|lia|lia| |].
  { intros k a' y Ha Hy Hp. rewrite <-Hstep in *. rewrite Hid in Hy. by apply (Hfail (S k)). }
  { unfold zlen in *. simpl in Hlen. lia. }
  exists (S m), a', b1, b2. rewrite !Hstep, <-Hid. split_and!; [lia|done| |done..].
  intros [|k] Hk'; [by rewrite Hid|]. rewrite Hstep. destruct (Hk k) as (y & ? & ? & ?); [lia|].
  exists y. split_and!; [done..|lia].
Qed.

(** ** Witnesses *)

Definition demo_context : BuildContext :=
  {| bc_sched := {| cx_strategy := SpeedFactorOnly; cx_psi_threshold := None;
       cx_psi_check_timeout := 0; cx_heartbeat_ttl := 0; cx_require_host_key := false;
       cx_runner_caps := {| caps_enabled := true; caps_systems := ["x86_64-linux"];
                            caps_features := ["kvm"] |} |};
     bc_cache_config := {| cc_enabled := false; cc_cache_url := None; cc_upstreams := [] |};
     bc_upload := {| cu_enabled := true; cu_store_uri := Some "file:///cache";
       cu_s3 := None; cu_upload_max_retries := 2;
       cu_fail_build_on_upload_error := true; cu_compression := "zstd" |};
     bc_signing := {| sg_enabled := true; sg_key_file := Some true |};
     bc_extra_nix_args := []; bc_nix_store_dir := "/nix/store" |}.

(** The agent succeeds, but the second path cannot be uploaded. *)
Definition demo_answers : Answers :=
  {| an_log_path := Some "/logs/10"; an_agent := Some (DSucceeded None);
     an_query_outputs := λ _, Some ("/nix/store/a" +:+ String NL "/nix/store/b");
     an_remote := λ _ _ _, Err "unreachable"; an_local := λ _ _, Err "no disk";
     an_permit := true; an_sign := λ _, true;
     an_copy := λ _ p _, bool_decide (p = "/nix/store/a"); an_gc_root := λ _, true |}.

Definition demo_venue : Venue :=
  VAgent 1%positive (snapshot (AgentMeta_new Slots.example_spec 0) 0)
    {[ 1%positive := AgentMeta_new Slots.example_spec 0 ]}.

Lemma demo_claimable b : w_builds example_world !! 10 = Some b → claimable example_world b.
Proof.
  intros Hb. vm_compute in Hb. injection Hb as <-.
  split_and!; [reflexivity|reflexivity|apply not_elem_of_empty|reflexivity].
Qed.

Lemma run_reserved_records_witness :
  ∃ b x', w_builds example_world !! 10 = Some b ∧
    w_builds (run_reserved (λ s, s) (λ _, None) demo_context 0 0 demo_answers b ∅
      demo_venue example_world).2 !! 10 = Some x' ∧ b_status x' = Failed ∧
    b_error_message x' = Some "Cache upload failed for 1 path(s): /nix/store/b".
Proof.
  destruct (w_builds example_world !! 10) as [b|] eqn:Hb; [|by vm_compute in Hb].
  pose proof (demo_claimable b Hb) as Hcl. vm_compute in Hb. injection Hb as <-.
  match type of Hcl with claimable _ ?b =>
    destruct (run_reserved_records (λ s, s) (λ _, None) demo_context 0 0 demo_answers
      b ∅ demo_venue example_world eq_refl Hcl ltac:(by vm_compute))
      as (events & w' & x' & o & Hrun & _ & Hx & _ & _ & _) end.
  eexists _, x'. split; [reflexivity|]. rewrite Hrun. split; [exact Hx|].
  vm_compute in Hrun. injection Hrun as _ <-. vm_compute in Hx. injection Hx as <-.
  split; reflexivity.
Defined.

(** The build has three retries: an agent fails, times out and is out of memory, and the run on
    the runner fails in the end. *)
Definition failing_answers (report : DispatchResult) : Answers :=
  {| an_log_path := Some "/logs/10"; an_agent := Some report;
     an_query_outputs := λ _, None;
     an_remote := λ _ _ _, Err "unreachable";
     an_local := λ _ _, Ok {| br_success := false; br_exit_code := Some 1; br_stdout := "";
       br_stderr := "boom"; br_output_paths := []; br_cache_upload_handled := false |};
     an_permit := true; an_sign := λ _, true; an_copy := λ _ _ _, true;
     an_gc_root := λ _, true |}.

Definition failing_attempt (report : DispatchResult) (v : Venue) : Attempt :=
  {| at_now := 0; at_jitter := 0; at_answers := failing_answers report; at_cache := ∅; at_venue := v |}.

Definition failing_attempts : list Attempt :=
  [failing_attempt (DFailed "boom") demo_venue; failing_attempt DTimedOut demo_venue;
   failing_attempt (DOomKilled "killed") demo_venue; failing_attempt DDisconnected VRunner].

Lemma failing_attempts_fail k a b' w :
  failing_attempts !! k = Some a → runner_able demo_context b' →
  fails (λ _, None) demo_context a b' w.
Proof.
  intros Ha Hab. destruct k as [|[|[|[|k]]]]; simpl in Ha; try done; injection Ha as <-.
  1-3: by eapply agent_fails.
  apply runner_fails; [done|done|by intros|]. intros drv args r [= <-]. done.
Qed.

Definition able (b : Build) : bool :=
  bool_decide (b_system b = Some "x86_64-linux") && bool_decide (scheduling_features b = ["kvm"]).

Lemma able_spec b : able b = true → runner_able demo_context b.
Proof.
  intros [Hs%bool_decide_eq_true Hf%bool_decide_eq_true]%andb_prop.
  split_and!; [done| |by rewrite Hf]. rewrite Hs. intros system [= <-]. left.
Qed.

Lemma failing_rows_able k b' : (k < 4)%nat →
  w_builds (attempts (λ s, s) (λ _, None) demo_context (take k failing_attempts) 10 example_world) !! 10 = Some b' →
  runner_able demo_context b'.
Proof.
  intros Hk Hb. apply able_spec.
  assert (E : forallb (λ k, match w_builds (attempts (λ s, s) (λ _, None) demo_context
    (take k failing_attempts) 10 example_world) !! 10 with Some b => able b | None => false end) [0; 1; 2; 3]%nat = true)
    by (vm_compute; reflexivity).
  rewrite forallb_forall in E. specialize (E k). rewrite Hb in E. apply E.
  apply list_elem_of_In. rewrite !elem_of_cons. lia.
Qed.

Lemma retries_bounded_witness :
  ∃ m a b1 b2, Z.of_nat m ≤ 3 ∧ failing_attempts !! m = Some a ∧
    w_builds (attempts (λ s, s) (λ _, None) demo_context (take (S m) failing_attempts) 10 example_world) !! 10 = Some b2 ∧
    given_up (λ _, None) demo_context a b1
      (attempts (λ s, s) (λ _, None) demo_context (take m failing_attempts) 10 example_world)
      (attempts (λ s, s) (λ _, None) demo_context (take (S m) failing_attempts) 10 example_world) b2.
Proof.
  destruct (w_builds example_world !! 10) as [b|] eqn:Hb; [|by vm_compute in Hb].
  pose proof (demo_claimable b Hb) as Hcl. vm_compute in Hb. injection Hb as <-.
  match type of Hcl with claimable _ ?b =>
    destruct (retries_bounded (λ s, s) (λ _, None) demo_context failing_attempts b example_world)
      as (m & a & b1 & b2 & Hm & Ha & _ & _ & H2 & Hg) end;
    [|reflexivity|exact Hcl|split; by vm_compute|by vm_compute|by vm_compute|].
  - intros k a b' Ha Hb' _. apply (failing_attempts_fail k); [exact Ha|].
    apply (failing_rows_able k); [|exact Hb']. by apply lookup_lt_Some in Ha.
  - exists m, a, b1, b2. split_and!; [exact Hm|exact Ha|exact H2|exact Hg].
Defined.

(** The scheduler hands [run_build] the pending row it read, and the metrics are
    taken from that row: it has no start and no end, so that no duration is ever
    recorded. *)
Lemma duration_never_recorded w id b :
  reachable w → w_builds w !! id = Some b → b_status b = Pending → build_duration b = None.
Proof.
  intros Hr%inv_reachable Hb Hp. destruct (proj1 Hr id b Hb) as [_ Hwf].
  unfold wf_build in Hwf. rewrite Hp in Hwf. destruct Hwf as [[Hs _] _].
  unfold build_duration. by rewrite Hs.
Qed.

(** ** Effective features *)

(** A build never loses the features its own derivation requires: whatever the
    dry run and [nix derivation show] answer, or if they fail, the features the
    scheduler uses afterwards are exactly the required ones together with the
    computed ones; features computed before are kept as they are; and the row of no
    other build is touched. *)
Theorem effective_features_floor computed b w :
  w_faults w = [] → w_builds w !! b_id b = Some b →
  ∃ b' w', ensure_effective_features computed b w = (Ok b', w') ∧
    (∀ j, j ≠ b_id b → w_builds w' !! j = w_builds w !! j) ∧ b_info b' = b_info b ∧
    (is_Some (b_effective_features b) → b' = b) ∧
    (b_effective_features b = None → ∀ f, f ∈ scheduling_features b' ↔
       f ∈ b_required_features b ∨ ∃ l, computed = Ok l ∧ f ∈ l).
Proof.
  intros Hf Hb. unfold ensure_effective_features.
  destruct (b_effective_features b) as [fs|] eqn:He; [by exists b, w|].
  destruct computed as [l|e]; cycle 1.
  { exists b, w. split_and!; [done..|by intros []|]. intros _ f.
    unfold scheduling_features. rewrite He. simpl. split; [by left|].
    by intros [?|(l & ? & _)]. }
  set (fs := with_required_floor l (b_required_features b)).
  assert (on_row (b_id b) w (mtry (builds.set_effective_features (b_id b) fs))
    (λ _ _ _, True)) as (r & w' & x' & Hm & [_ _ Hk] & _).
  { eapply on_row_impl; [|done]. apply on_row_try, on_row_unit. by eapply update_row_ok. }
  rewrite (mbind_ok _ _ _ _ _ Hm). eexists _, w'. split_and!; [done..|by intros []|].
  intros _ f. unfold scheduling_features, b_effective_features. simpl.
  unfold fs, with_required_floor, sort_strings.
  rewrite dedup_elem, sort_by_perm, elem_of_app. split.
  - intros [?|?]; [right; by exists l|by left].
  - intros [?|(l' & [= <-] & ?)]; auto.
Qed.

(** The dry run of the parser's test: one derivation will be built, one path is
    fetched. *)
Definition dry_run_text : string :=
  "this derivation will be built:" +:+ String NL
  ("  /nix/store/aaa-hello.drv" +:+ String NL
  ("these 2 paths will be fetched (1.0 MiB download):" +:+ String NL
  ("  /nix/store/bbb-glibc" +:+ String NL ""))).

Lemma effective_features_floor_witness :
  ∃ b, w_builds example_world !! 10 = Some b ∧
  parse_dry_run_will_build dry_run_text = ["/nix/store/aaa-hello.drv"] ∧
  ∃ b' w', ensure_effective_features (Ok ["big-parallel"]) b example_world = (Ok b', w') ∧
    "kvm" ∈ scheduling_features b'.
Proof.
  eexists. split; [reflexivity|]. split; [reflexivity|].
  match goal with |- context [ensure_effective_features _ ?b _] =>
    destruct (effective_features_floor (Ok ["big-parallel"]) b example_world eq_refl eq_refl)
      as (b' & w' & Hrun & _ & _ & _ & Hfl) end.
  exists b', w'. split; [exact Hrun|]. apply (Hfl eq_refl). left. apply list_elem_of_here.
Defined.
