(* ===== verification/Sinks.v ===== *)
(** * The capabilities a dispatched build hands to its agent

    [crates/queue-runner/src/rpc/log_sink.rs] (the live log), [output_sink.rs] (the
    output closure piped into [nix-store --import]) and [result_sink.rs] (the final
    report), with the part of [dispatch_one] ([rpc/server.rs]) that waits for it.
    Each sink guards its state with a mutex that is held for the whole of a [write],
    so calls are atomic and a sink's life is a sequence of calls.  What the file
    system and the child process answer is part of each call. *)

From S2P Require Import Prelude Types Float32 Base32 Codecs StorePath Pool Db Builders.

(** ** The live log *)

Module LogSink.

Record LogState := {
  file_open : bool;
  bytes_written : Z;
  closed : bool;
  (** The content of the file at [path]. *)
  disk : list Z;
}.

Definition new (disk : list Z) : LogState :=
  {| file_open := false; bytes_written := 0; closed := false; disk := disk |}.

(** What [open] and the two [write_all] do; a failed one has written the given
    number of bytes. *)
Record Io := {
  io_open : option string;
  io_chunk : option (nat * string);
  io_newline : option (nat * string);
}.

Definition io_fine : Io := {| io_open := None; io_chunk := None; io_newline := None |}.

Definition put (l : list Z) (s : LogState) : LogState :=
  {| file_open := file_open s; bytes_written := bytes_written s; closed := closed s;
     disk := disk s ++ l |}.

Definition write_all (fault : option (nat * string)) (l : list Z) (s : LogState) :
    result string () * LogState :=
  match fault with
  | None => (Ok (), put l s)
  | Some (n, e) => (Err ("write log: " +:+ e), put (take n l) s)
  end.

(** The writes of an accepted chunk, on an open file. *)
Definition append (io : Io) (chunk : list Z) (accounted : Z) (s : LogState) :
    result string () * LogState :=
  match write_all (io_chunk io) chunk s with
  | (Err e, s) => (Err e, s)
  | (Ok _, s) =>
      match write_all (io_newline io) [10] s with
      | (Err e, s) => (Err e, s)
      | (Ok _, s) =>
          (Ok (), {| file_open := file_open s;
                     bytes_written := u64_saturating_add (bytes_written s) accounted;
                     closed := closed s; disk := disk s |})
      end
  end.

Definition write (path : string) (max_bytes : Z) (io : Io) (chunk : list Z)
    (s : LogState) : result string () * LogState :=
  if limits.MAX_LOG_CHUNK_BYTES <? zlen chunk then
    (Err ("log chunk too large: " +:+ pretty (zlen chunk) +:+ " > " +:+
          pretty limits.MAX_LOG_CHUNK_BYTES), s)
  else
    let accounted := zlen chunk + 1 in
    if closed s then (Err "log sink is closed", s)
    else if max_bytes <? u64_saturating_add (bytes_written s) accounted then
      (Err ("log size limit exceeded: " +:+
            pretty (u64_saturating_add (bytes_written s) accounted) +:+ " > " +:+
            pretty max_bytes), s)
    else if file_open s then append io chunk accounted s
    else match io_open io with
         | Some e => (Err ("open log " +:+ path +:+ ": " +:+ e), s)
         | None =>
             append io chunk accounted
               {| file_open := true; bytes_written := bytes_written s;
                  closed := closed s; disk := disk s |}
         end.

Definition close (s : LogState) : LogState :=
  {| file_open := false; bytes_written := bytes_written s; closed := true;
     disk := disk s |}.

Inductive Call := CWrite (io : Io) (chunk : list Z) | CClose.

Definition call (path : string) (max_bytes : Z) (c : Call) (s : LogState) :
    result string () * LogState :=
  match c with
  | CWrite io chunk => write path max_bytes io chunk s
  | CClose => (Ok (), close s)
  end.

Fixpoint run (path : string) (max_bytes : Z) (cs : list Call) (s : LogState) :
    list (result string ()) * LogState :=
  match cs with
  | [] => ([], s)
  | c :: cs =>
      let '(r, s) := call path max_bytes c s in
      let '(rs, s) := run path max_bytes cs s in (r :: rs, s)
  end.

(** *** Specification

    The lines a sequence of calls leaves in the log: those that are not too long,
    come before the first [close] and still fit. *)

Fixpoint spec_lines (max_bytes used : Z) (cs : list Call) : list (list Z) :=
  match cs with
  | [] | CClose :: _ => []
  | CWrite _ chunk :: cs =>
      if (limits.MAX_LOG_CHUNK_BYTES <? zlen chunk) ||
         (max_bytes <? used + zlen chunk + 1)
      then spec_lines max_bytes used cs
      else chunk :: spec_lines max_bytes (used + zlen chunk + 1) cs
  end.

Definition text_of (lines : list (list Z)) : list Z := concat ((λ l, l ++ [10]) <$> lines).

(** The chunks whose [write] returned without error. *)
Fixpoint accepted (cs : list Call) (rs : list (result string ())) : list (list Z) :=
  match cs, rs with
  | CWrite _ chunk :: cs, r :: rs =>
      if is_ok r then chunk :: accepted cs rs else accepted cs rs
  | CClose :: cs, _ :: rs => accepted cs rs
  | _, _ => []
  end.

Definition works (c : Call) : Prop :=
  match c with CWrite io _ => io = io_fine | CClose => True end.

(** The states in which the log is as long as its counter says. *)
Definition sane (max_bytes : Z) (s : LogState) : Prop :=
  0 ≤ bytes_written s ≤ max_bytes.

Lemma text_of_cons l ls : text_of (l :: ls) = l ++ [10] ++ text_of ls.
Proof. unfold text_of. rewrite fmap_cons. simpl. by rewrite <-app_assoc. Qed.

Lemma saturating_limit used a max_bytes :
  max_bytes < U64_MAX →
  (max_bytes <? u64_saturating_add used a) = (max_bytes <? used + a).
Proof.
  intros Hm. unfold u64_saturating_add.
  destruct (Z.ltb_spec max_bytes (used + a)), (Z.ltb_spec max_bytes (Z.min (used + a) U64_MAX));
    lia.
Qed.

Lemma write_fine path max_bytes chunk s :
  0 ≤ max_bytes < U64_MAX → sane max_bytes s → closed s = false →
  let fits := negb ((limits.MAX_LOG_CHUNK_BYTES <? zlen chunk) ||
                    (max_bytes <? bytes_written s + zlen chunk + 1)) in
  let '(r, s') := write path max_bytes io_fine chunk s in
  is_ok r = fits ∧ sane max_bytes s' ∧ closed s' = false ∧
  (if fits
   then disk s' = disk s ++ chunk ++ [10] ∧
        bytes_written s' = bytes_written s + zlen chunk + 1
   else s' = s).
Proof.
  intros Hmax Hs Hc. pose proof (zlen_nonneg chunk). unfold write.
  rewrite Hc, saturating_limit by lia. rewrite !Z.add_assoc.
  destruct (Z.ltb_spec limits.MAX_LOG_CHUNK_BYTES (zlen chunk)); [done|].
  destruct (Z.ltb_spec max_bytes (bytes_written s + zlen chunk + 1)); [done|].
  unfold append, sane, u64_saturating_add in *.
  destruct (file_open s); simpl; rewrite <-app_assoc, Z.min_l by lia;
    (split_and!; [done|lia|lia|done|done|lia]).
Qed.

Lemma call_closed path max_bytes c s r s' :
  closed s = true → call path max_bytes c s = (r, s') →
  closed s' = true ∧ disk s' = disk s ∧ bytes_written s' = bytes_written s ∧
  (c = CClose ∨ is_ok r = false).
Proof.
  intros Hc E. destruct c as [io chunk|]; simpl in E; [|injection E as <- <-; auto].
  unfold write in E. rewrite Hc in E. case_match; injection E as <- <-; auto.
Qed.

Lemma run_closed path max_bytes cs s :
  closed s = true →
  let '(rs, s') := run path max_bytes cs s in
  disk s' = disk s ∧ bytes_written s' = bytes_written s ∧ accepted cs rs = [].
Proof.
  revert s. induction cs as [|c cs IH]; intros s Hc; [done|]. simpl.
  destruct (call path max_bytes c s) as [r s'] eqn:E.
  destruct (call_closed _ _ _ _ _ _ Hc E) as (Hc' & Hd & Hb & Hr).
  specialize (IH s' Hc'). destruct (run path max_bytes cs s') as [rs s''].
  destruct IH as (-> & -> & Ha). rewrite Hd, Hb.
  destruct Hr as [->|Hr]; [done|]. destruct c; [|done]. simpl. by rewrite Hr.
Qed.

Lemma run_lines path max_bytes cs s :
  0 ≤ max_bytes < U64_MAX → sane max_bytes s → closed s = false → Forall works cs →
  let lines := spec_lines max_bytes (bytes_written s) cs in
  let '(rs, s') := run path max_bytes cs s in
  disk s' = disk s ++ text_of lines ∧
  bytes_written s' = bytes_written s + zlen (text_of lines) ∧ sane max_bytes s' ∧
  accepted cs rs = lines.
Proof.
  intros Hmax. revert s. induction cs as [|[io chunk|] cs IH]; intros s Hs Hc Hw.
  - simpl. rewrite app_nil_r. unfold zlen. simpl. split_and!; [done|lia|apply Hs..|done].
  - inversion Hw as [|?? Hio Hw']; subst. simpl in Hio. subst io. simpl.
    pose proof (write_fine path max_bytes chunk s Hmax Hs Hc) as Hwf.
    destruct (write path max_bytes io_fine chunk s) as [r s'].
    destruct Hwf as (Hr & Hs' & Hc' & Hif). specialize (IH s' Hs' Hc' Hw').
    destruct (run path max_bytes cs s') as [rs s'']. rewrite Hr.
    destruct (_ || _); simpl in Hif |- *; [by subst s'|]. destruct Hif as [Hd Hb].
    destruct IH as (H1 & H2 & H3 & H4).
    rewrite H1, H2, H4, Hd, Hb, text_of_cons, <-!app_assoc, !zlen_app.
    change (zlen [10]) with 1. split_and!; [done|lia|apply H3..|done].
  - simpl. pose proof (run_closed path max_bytes cs (close s) eq_refl) as Hrun.
    destruct (run path max_bytes cs (close s)) as [rs s''].
    destruct Hrun as (H1 & H2 & H3). unfold sane in *. rewrite H1, H2, app_nil_r.
    unfold zlen. simpl. split_and!; [done|lia|lia|lia|done].
Qed.

(** The log of an agent build.  While the file system works, any sequence of
    [write] and [close] calls appends to the file exactly the chunks that were
    accepted, each with its newline: those of at most a megabyte that come before the
    first [close] and for which there is still room.  What is appended never exceeds
    the limit, and the counter is its length. *)
Theorem log_sink_exact path max_bytes before cs :
  0 ≤ max_bytes < U64_MAX → Forall works cs →
  let '(rs, s) := run path max_bytes cs (new before) in
  accepted cs rs = spec_lines max_bytes 0 cs ∧
  disk s = before ++ text_of (spec_lines max_bytes 0 cs) ∧
  bytes_written s = zlen (text_of (spec_lines max_bytes 0 cs)) ∧
  bytes_written s ≤ max_bytes.
Proof.
  intros Hmax Hw.
  pose proof (run_lines path max_bytes cs (new before) Hmax) as H.
  destruct (run path max_bytes cs (new before)) as [rs s].
  destruct H as (H1 & H2 & H3 & H4); [split; simpl; lia|done|done|].
  split_and!; [done|done|by rewrite H2|apply H3].
Qed.

Lemma log_sink_exact_witness :
  let calls := [CWrite io_fine [104; 105]; CWrite io_fine [1; 2; 3; 4];
                CWrite io_fine [33]; CClose; CWrite io_fine []] in
  spec_lines 6 0 calls = [[104; 105]; [33]] ∧
  (let '(rs, s) := run "/log/1.active.log" 6 calls (new [7]) in
   accepted calls rs = spec_lines 6 0 calls ∧
   disk s = [7] ++ text_of (spec_lines 6 0 calls) ∧
   bytes_written s = zlen (text_of (spec_lines 6 0 calls)) ∧ bytes_written s ≤ 6).
Proof.
  split; [vm_compute; reflexivity|].
  apply (log_sink_exact "/log/1.active.log" 6 [7]); [done|by repeat constructor].
Defined.
End LogSink.

(** ** The output closure *)

Module OutputSink.

Record OutState := {
  (** The import child and its standard input, present together. *)
  child : bool;
  out_closed : bool;
  total : Z;
  (** What was written to the child. *)
  fed : list Z;
}.

Definition new : OutState := {| child := false; out_closed := false; total := 0; fed := [] |}.

(** What [spawn_import] and [write_all] answer. *)
Record Io := {
  io_spawn : option string;
  io_write : option (nat * string);
}.

Definition feed (io : Io) (chunk : list Z) (s : OutState) :
    result string () * OutState :=
  match io_write io with
  | None =>
      (Ok (), {| child := true; out_closed := out_closed s; total := total s;
                 fed := fed s ++ chunk |})
  | Some (n, e) =>
      (Err ("write to nix-store --import: " +:+ e),
       {| child := true; out_closed := out_closed s; total := total s;
          fed := fed s ++ take n chunk |})
  end.

(** The total counts a chunk before it is checked. *)
Definition write (build_id : string) (io : Io) (chunk : list Z) (s : OutState) :
    result string () * OutState :=
  if limits.MAX_NAR_CHUNK_BYTES <? zlen chunk then
    (Err ("output chunk too large: " +:+ pretty (zlen chunk) +:+ " > " +:+
          pretty limits.MAX_NAR_CHUNK_BYTES), s)
  else if out_closed s then (Err "output sink is closed", s)
  else
    let s := {| child := child s; out_closed := out_closed s;
                total := u64_saturating_add (total s) (zlen chunk);
                fed := fed s |} in
    if limits.MAX_IMPORT_TOTAL_BYTES <? total s then
      (Err ("imported closure exceeds " +:+ pretty limits.MAX_IMPORT_TOTAL_BYTES +:+
            " bytes for build " +:+ build_id), s)
    else if child s then feed io chunk s
    else match io_spawn io with
         | Some e => (Err ("spawn nix-store --import: " +:+ e), s)
         | None => feed io chunk s
         end.

(** [status] is what waiting for the child gives: its exit status, or an error. *)
Definition close (build_id : string) (status : result string (bool * string))
    (s : OutState) : result string () * OutState :=
  let s' := {| child := false; out_closed := true; total := total s; fed := fed s |} in
  if negb (child s) then (Ok (), s')
  else match status with
       | Err e => (Err ("wait for nix-store --import: " +:+ e), s')
       | Ok (success, text) =>
           if success then (Ok (), s')
           else (Err ("nix-store --import failed for build " +:+ build_id +:+ " (" +:+
                      text +:+ ")"), s')
       end.

Inductive Call :=
  | OWrite (io : Io) (chunk : list Z)
  | OClose (status : result string (bool * string)).

Definition call (build_id : string) (c : Call) (s : OutState) :
    result string () * OutState :=
  match c with
  | OWrite io chunk => write build_id io chunk s
  | OClose status => close build_id status s
  end.

Definition run (build_id : string) (cs : list Call) (s : OutState) : OutState :=
  foldl (λ s c, (call build_id c s).2) s cs.

Definition bounded (s : OutState) : Prop :=
  zlen (fed s) ≤ Z.min (total s) limits.MAX_IMPORT_TOTAL_BYTES ∧ 0 ≤ total s.

Lemma feed_bounded io chunk s :
  zlen (fed s) + zlen chunk ≤ Z.min (total s) limits.MAX_IMPORT_TOTAL_BYTES →
  0 ≤ total s → bounded (feed io chunk s).2.
Proof.
  intros H H0. unfold feed, bounded.
  destruct (io_write io) as [[n e]|]; simpl; rewrite zlen_app; [|lia].
  assert (zlen (take n chunk) ≤ zlen chunk); [|lia].
  unfold zlen. rewrite length_take. lia.
Qed.

Lemma call_bounded build_id c s : bounded s → bounded (call build_id c s).2.
Proof.
  intros [Hf Ht]. destruct c as [io chunk|status]; simpl; [|unfold close; cases].
  pose proof (zlen_nonneg chunk). unfold write.
  destruct (_ <? zlen chunk); [done|]. destruct (out_closed s); [done|].
  cbn zeta. simpl. unfold u64_saturating_add.
  destruct (Z.ltb_spec limits.MAX_IMPORT_TOTAL_BYTES
    (Z.min (total s + zlen chunk) U64_MAX)) as [Hgt|Hle]; simpl.
  - unfold bounded, U64_MAX in *. simpl. lia.
  - assert (Hs : total s + zlen chunk ≤ limits.MAX_IMPORT_TOTAL_BYTES).
    { unfold U64_MAX, limits.MAX_IMPORT_TOTAL_BYTES in *. lia. }
    rewrite Z.min_l by (unfold U64_MAX, limits.MAX_IMPORT_TOTAL_BYTES in *; lia).
    destruct (child s); [apply feed_bounded; simpl; lia|].
    destruct (io_spawn io); [|apply feed_bounded; simpl; lia].
    unfold bounded. simpl. lia.
Qed.

(** However the calls and the child behave, at most [MAX_IMPORT_TOTAL_BYTES] bytes
    are handed to [nix-store --import]. *)
Lemma import_bounded build_id cs :
  zlen (fed (run build_id cs new)) ≤ limits.MAX_IMPORT_TOTAL_BYTES.
Proof.
  assert (H : ∀ s, bounded s → bounded (run build_id cs s)).
  { induction cs as [|c cs IH]; intros s Hs; [done|]. simpl. by apply IH, call_bounded. }
  destruct (H new); [|lia]. split; simpl; [|done]. by vm_compute.
Qed.
End OutputSink.

(** ** The report *)

Module ResultSink.

(** [circus_proto::BuildOutcome]; [None] is a value outside the schema. *)
Inductive BuildOutcome :=
  | Success | BuildFailure | PreparingFailure | ImportFailure | UploadFailure
  | PostProcessFailure | Aborted | TimedOut | OomKilled.

#[global] Instance build_outcome_eq_dec : EqDecision BuildOutcome.
Proof. solve_decision. Defined.

Inductive BuildOutcomeKind :=
  | KSuccess (error_message : option string)
  | KFailure (error_message : option string)
  | KTimedOut
  | KAborted
  | KOomKilled (error_message : option string).

(** [msg] is the text of the message, when it can be read. *)
Definition result_error_message (msg : option string) : option string :=
  let* s := msg in if is_empty s then None else Some s.

Definition kind_of (outcome : option BuildOutcome) (msg : option string) : BuildOutcomeKind :=
  match default BuildFailure outcome with
  | Success => KSuccess (result_error_message msg)
  | TimedOut => KTimedOut
  | Aborted => KAborted
  | OomKilled => KOomKilled (result_error_message msg)
  | _ => KFailure (result_error_message msg)
  end.

Definition succeeded (k : BuildOutcomeKind) : bool :=
  match k with KSuccess _ => true | _ => false end.

(** [done]: the sender is still there; [sent]: what the dispatch task receives. *)
Record SinkState := {
  done : bool;
  sent : option BuildOutcomeKind;
}.

Definition new : SinkState := {| done := true; sent := None |}.

Record Report := {
  r_outcome : option BuildOutcome;
  r_message : option string;
  (** The random part of the back-off. *)
  r_jitter : Z;
}.

Definition report (machine : Uuid) (r : Report) (s : SinkState) (w : World) :
    result string () * SinkState * World :=
  let kind := kind_of (r_outcome r) (r_message r) in
  if negb (done s) then (Err "build result already reported", s, w)
  else
    let '(_, w) := builder_sessions.record_outcome (r_jitter r) machine (succeeded kind) w in
    (Ok (), {| done := false; sent := Some kind |}, w).

Fixpoint reports (machine : Uuid) (rs : list Report) (s : SinkState) (w : World) :
    list (result string ()) * SinkState * World :=
  match rs with
  | [] => ([], s, w)
  | r :: rs =>
      let '(a, s, w) := report machine r s w in
      let '(l, s, w) := reports machine rs s w in (a :: l, s, w)
  end.

(** The result [dispatch_one] returns: [None] when the assignment fails or the sink is
    dropped unreported. *)
Definition dispatch_result (received : option BuildOutcomeKind) : DispatchResult :=
  match received with
  | Some (KSuccess m) => DSucceeded m
  | Some KTimedOut => DTimedOut
  | Some KAborted => DAborted
  | Some (KOomKilled m) => DOomKilled (default "" m)
  | Some (KFailure m) => DFailed (default "" m)
  | None => DDisconnected
  end.

Lemma reports_spent machine rs k w :
  reports machine rs {| done := false; sent := k |} w =
  ((λ _, Err "build result already reported") <$> rs, {| done := false; sent := k |}, w).
Proof. induction rs as [|r rs IH]; [done|]. simpl. by rewrite IH. Qed.

(** However often an agent reports, the first report alone counts: it is the one
    the dispatching task receives, the agent's counters are updated once and with its
    outcome, and every later report is refused without an effect.  Success is received
    only for a reported success, and only an agent that never reports is taken for
    disconnected. *)
Theorem first_report_counts machine rs w :
  let '(answers, s, w') := reports machine rs new w in
  match rs with
  | [] => answers = [] ∧ dispatch_result (sent s) = DDisconnected ∧ w' = w
  | r :: later =>
      let kind := kind_of (r_outcome r) (r_message r) in
      answers = Ok () :: ((λ _, Err "build result already reported") <$> later) ∧
      sent s = Some kind ∧
      dispatch_result (sent s) ≠ DDisconnected ∧
      ((∃ m, dispatch_result (sent s) = DSucceeded m) ↔ r_outcome r = Some Success) ∧
      w' = (builder_sessions.record_outcome (r_jitter r) machine
              (bool_decide (r_outcome r = Some Success)) w).2
  end.
Proof.
  destruct rs as [|r later]; [done|]. simpl. unfold report. simpl.
  assert (Hs : succeeded (kind_of (r_outcome r) (r_message r)) =
               bool_decide (r_outcome r = Some Success)).
  { unfold kind_of. destruct (r_outcome r) as [[]|]; done. }
  rewrite Hs. destruct (builder_sessions.record_outcome _ _ _ w) as [a w'].
  rewrite reports_spent. simpl. split_and!; [done|done|..|done];
    unfold kind_of; destruct (r_outcome r) as [[]|]; simpl; try done;
    try (split; [intros [? ?]; done|done]). split; [done|by eexists].
Qed.
End ResultSink.
