(* ===== verification/Oidc.v ===== *)
(** * OIDC authentication of agents ([crates/queue-runner/src/rpc/oidc.rs])

    The verification of an ID token against the issuer's published keys and the
    configured allowlists, and the cache of those keys.  The JWT library, the URL
    parser and the issuer's answers are parameters.

    The cache is shared by all registrations in progress; [refresh] releases its lock
    while it fetches, so its two critical sections are also given as events that any
    number of tasks interleave. *)

From S2P Require Import Prelude.

Definition JWKS_TTL : Z := 3600 * 1000000000.
Definition MIN_REFRESH_INTERVAL : Z := 60 * 1000000000.

Record VerifiedIdentity := {
  vi_repository : string;
  vi_subject : string;
  vi_workflow_ref : option string;
  vi_ref_name : option string;
}.

Record GitHubClaims := {
  gc_repository : string;
  gc_sub : string;
  gc_workflow_ref : option string;
  gc_ref_name : option string;
}.

Record Jwk := {
  jwk_kid : string;
  jwk_kty : string;
  jwk_n : string;
  jwk_e : string;
}.

Record CacheState := {
  keys : gmap string Jwk;
  fetched_at : option Instant;
  last_refresh_start : option Instant;
  resolved_jwks_uri : option string;
}.

Definition empty_cache : CacheState :=
  {| keys := ∅; fetched_at := None; last_refresh_start := None; resolved_jwks_uri := None |}.

(** The configured part of [OidcVerifier]. *)
Record OidcVerifier := {
  issuer : string;
  jwks_url : option string;
  audiences : list string;
  allowed_repositories : list string;
  allowed_subjects : list string;
  allowed_subject_prefixes : list string;
  allowed_workflow_refs : list string;
  allowed_refs : list string;
}.

(** [Instant::elapsed] saturates. *)
Definition elapsed (t now : Instant) : Z := Z.max (now - t) 0.

Definition is_stale (fetched : option Instant) (now : Instant) : bool :=
  match fetched with None => true | Some t => JWKS_TTL <=? elapsed t now end.

Definition one_of (v : string) (l : list string) : bool :=
  existsb (λ a, bool_decide (a = v)) l.

Definition is_nil {A} (l : list A) : bool := match l with [] => true | _ => false end.

Definition claim_allowed (value : string) (exact prefixes : list string) : bool :=
  (is_nil exact && is_nil prefixes) || one_of value exact ||
  existsb (λ p, starts_with p value) prefixes.

Definition optional_claim_allowed (value : option string) (exact : list string) : bool :=
  is_nil exact || match value with Some v => one_of v exact | None => false end.

(** ** The JWT library, URLs and the issuer *)

Record Header := { h_rs256 : bool; h_kid : option string }.

Record Validation := { val_issuer : string; val_audience : list string }.

Record Origin := {
  o_scheme : string;
  o_host : option string;
  o_port : option Z;
}.

(** What the issuer answers to one refresh, and when it does. *)
Record Issuer := {
  discovery : result string string;
  jwks : string → result string (list Jwk);
  answered_at : Instant;
}.

Section oidc.
Variable DecodingKey : Type.
Variable decode_header : string → result string Header.
Variable from_rsa_components : string → string → result string DecodingKey.
Variable jwt_decode : string → DecodingKey → Validation → result string GitHubClaims.
Variable url_origin : string → option Origin.

Definition same_origin (iss uri : string) : bool :=
  match url_origin iss, url_origin uri with
  | Some a, Some b =>
      bool_decide (o_scheme a = o_scheme b) && bool_decide (o_host a = o_host b) &&
      bool_decide (o_port a = o_port b)
  | _, _ => false
  end.

Definition resolve_jwks_uri (v : OidcVerifier) (ans : Issuer) (c : CacheState) :
    result string string * CacheState :=
  match jwks_url v, resolved_jwks_uri c with
  | Some uri, _ => (Ok uri, c)
  | None, Some uri => (Ok uri, c)
  | None, None =>
      match discovery ans with
      | Err e => (Err e, c)
      | Ok uri =>
          if negb (same_origin (issuer v) uri) then
            (Err ("discovered jwks_uri " +:+ uri +:+ " is not same-origin as issuer " +:+
                  issuer v), c)
          else
            (Ok uri, {| keys := keys c; fetched_at := fetched_at c;
                        last_refresh_start := last_refresh_start c;
                        resolved_jwks_uri := Some uri |})
      end
  end.

(** The first critical section of [refresh]: whether to go on and fetch. *)
Definition begin_refresh (now : Instant) (c : CacheState) : bool * CacheState :=
  if match last_refresh_start c with
     | Some t => elapsed t now <? MIN_REFRESH_INTERVAL
     | None => false
     end
  then (false, c)
  else (true, {| keys := keys c; fetched_at := fetched_at c;
                 last_refresh_start := Some now;
                 resolved_jwks_uri := resolved_jwks_uri c |}).

Definition rsa (k : Jwk) : bool :=
  bool_decide (jwk_kty k = "") || bool_decide (jwk_kty k = "RSA").

(** Collecting into a map keeps the last key of a [kid]. *)
Definition key_map (set : list Jwk) : gmap string Jwk :=
  foldl (λ m k, <[jwk_kid k := k]> m) ∅ (List.filter rsa set).

(** The second critical section. *)
Definition finish_refresh (now : Instant) (set : list Jwk) (c : CacheState) : CacheState :=
  {| keys := key_map set; fetched_at := Some now;
     last_refresh_start := last_refresh_start c;
     resolved_jwks_uri := resolved_jwks_uri c |}.

Definition refresh (v : OidcVerifier) (now : Instant) (ans : Issuer) (c : CacheState) :
    result string () * CacheState :=
  let '(go, c) := begin_refresh now c in
  if negb go then (Ok (), c)
  else
    let '(uri, c) := resolve_jwks_uri v ans c in
    match uri with
    | Err e => (Err e, c)
    | Ok uri =>
        match jwks ans uri with
        | Err e => (Err e, c)
        | Ok set => (Ok (), finish_refresh (answered_at ans) set c)
        end
    end.

(** The slow path of [jwk_for_kid]. *)
Definition refetch_kid (v : OidcVerifier) (now : Instant) (ans : Issuer) (kid : string)
    (c : CacheState) : result string Jwk * CacheState :=
  let '(r, c) := refresh v now ans c in
  match r with
  | Err e => (Err e, c)
  | Ok _ =>
      (match keys c !! kid with
       | Some k => Ok k
       | None => Err ("no JWKS key for kid " +:+ kid)
       end, c)
  end.

Definition jwk_for_kid (v : OidcVerifier) (now : Instant) (ans : Issuer) (kid : string)
    (c : CacheState) : result string Jwk * CacheState :=
  match keys c !! kid with
  | Some k =>
      if negb (is_stale (fetched_at c) now) then (Ok k, c) else refetch_kid v now ans kid c
  | None => refetch_kid v now ans kid c
  end.

(** The allowlists, after the signature. *)
Definition check_claims (v : OidcVerifier) (cl : GitHubClaims) :
    result string VerifiedIdentity :=
  if negb (one_of (gc_repository cl) (allowed_repositories v)) then
    Err ("repository " +:+ gc_repository cl +:+ " is not allowed")
  else if negb (claim_allowed (gc_sub cl) (allowed_subjects v)
                  (allowed_subject_prefixes v)) then
    Err ("subject " +:+ gc_sub cl +:+ " is not allowed")
  else if negb (optional_claim_allowed (gc_workflow_ref cl) (allowed_workflow_refs v)) then
    Err ("workflow_ref " +:+ default "<missing>" (gc_workflow_ref cl) +:+
         " is not allowed")
  else if negb (optional_claim_allowed (gc_ref_name cl) (allowed_refs v)) then
    Err ("ref " +:+ default "<missing>" (gc_ref_name cl) +:+ " is not allowed")
  else
    Ok {| vi_repository := gc_repository cl; vi_subject := gc_sub cl;
          vi_workflow_ref := gc_workflow_ref cl; vi_ref_name := gc_ref_name cl |}.

Definition validation (v : OidcVerifier) : Validation :=
  {| val_issuer := issuer v; val_audience := audiences v |}.

Definition verify (v : OidcVerifier) (now : Instant) (ans : Issuer) (token : string)
    (c : CacheState) : result string VerifiedIdentity * CacheState :=
  match decode_header token with
  | Err _ => (Err "decode JWT header", c)
  | Ok header =>
      if negb (h_rs256 header) then (Err "unexpected JWT alg, want RS256", c)
      else match h_kid header with
           | None => (Err "JWT has no kid", c)
           | Some kid =>
               let '(jwk, c) := jwk_for_kid v now ans kid c in
               (let? jwk := jwk in
                let? key :=
                  match from_rsa_components (jwk_n jwk) (jwk_e jwk) with
                  | Ok key => Ok key
                  | Err _ => Err "build decoding key from JWK"
                  end in
                let? claims :=
                  match jwt_decode token key (validation v) with
                  | Ok claims => Ok claims
                  | Err _ => Err "verify JWT"
                  end in
                check_claims v claims, c)
           end
  end.

(** ** The refresh as events

    Any number of registrations run [refresh] at the same time: their critical
    sections interleave, in the order of the clock.  A task that passes the first one
    fetches. *)

Inductive Event :=
  | Begin (now : Instant)
  | Resolved (uri : string)
  | Finish (now : Instant) (set : list Jwk).

Definition event_time (e : Event) : option Instant :=
  match e with Begin t | Finish t _ => Some t | Resolved _ => None end.

(** The state after the events, and the times at which a fetch went out. *)
Fixpoint replay (es : list Event) (c : CacheState) : list Instant * CacheState :=
  match es with
  | [] => ([], c)
  | Begin now :: es =>
      let '(go, c) := begin_refresh now c in
      let '(l, c) := replay es c in (if go then now :: l else l, c)
  | Resolved uri :: es =>
      replay es {| keys := keys c; fetched_at := fetched_at c;
                   last_refresh_start := last_refresh_start c;
                   resolved_jwks_uri := Some uri |}
  | Finish now set :: es => replay es (finish_refresh now set c)
  end.

(** Every fetch comes the minimal interval after the one before, counting the last
    start the cache remembers. *)
Fixpoint spaced (last : option Instant) (l : list Instant) : Prop :=
  match l with
  | [] => True
  | t :: l =>
      match last with Some t' => t' + MIN_REFRESH_INTERVAL ≤ t | None => True end ∧
      spaced (Some t) l
  end.

Lemma replay_spaced es c :
  spaced (last_refresh_start c) (replay es c).1.
Proof.
  revert c. induction es as [|[now|uri|now set] es IH]; intros c; simpl;
    [done| |apply (IH (Build_CacheState _ _ _ _))|apply (IH (finish_refresh now set c))].
  unfold begin_refresh.
  destruct (last_refresh_start c) as [t|] eqn:Hl.
  - destruct (Z.ltb_spec (elapsed t now) MIN_REFRESH_INTERVAL) as [Hlt|Hge].
    + specialize (IH c). rewrite Hl in IH. by destruct (replay es c).
    + match goal with |- context [replay es ?c'] => specialize (IH c') end.
      destruct (replay es _) as [l c']. simpl in *. split; [|done].
      unfold elapsed, MIN_REFRESH_INTERVAL in *. lia.
  - match goal with |- context [replay es ?c'] => specialize (IH c') end.
    destruct (replay es _) as [l c']. simpl in *. by split.
Qed.

Definition count (p : Instant → bool) (l : list Instant) : Z :=
  Z.of_nat (length (List.filter p l)).

Lemma count_cons p t l : count p (t :: l) = (if p t then 1 else 0) + count p l.
Proof. unfold count. simpl. destruct (p t); simpl; lia. Qed.

Lemma count_mono (p q : Instant → bool) l :
  (∀ t, p t = true → q t = true) → count p l ≤ count q l.
Proof.
  intros H. induction l as [|t l IH]; [done|]. rewrite !count_cons.
  destruct (p t) eqn:E; [rewrite (H _ E); lia|]. destruct (q t); lia.
Qed.

Lemma spaced_until t l hi :
  spaced (Some t) l → count (λ x, x <=? hi) l * MIN_REFRESH_INTERVAL ≤ Z.max 0 (hi - t).
Proof.
  revert t. induction l as [|x l IH]; intros t; [simpl; unfold count; simpl; lia|].
  intros [Hx Hl]. specialize (IH x Hl). rewrite count_cons.
  destruct (Z.leb_spec x hi); unfold MIN_REFRESH_INTERVAL in *; lia.
Qed.

Lemma spaced_window last l lo hi :
  lo ≤ hi → spaced last l →
  count (λ x, (lo <=? x) && (x <=? hi)) l * MIN_REFRESH_INTERVAL ≤
  hi - lo + MIN_REFRESH_INTERVAL.
Proof.
  intros Hlh. revert last. induction l as [|x l IH]; intros last.
  { unfold count, MIN_REFRESH_INTERVAL. simpl. lia. }
  intros [_ Hl]. rewrite count_cons.
  destruct (Z.leb_spec lo x), (Z.leb_spec x hi); simpl; try apply (IH (Some x) Hl).
  pose proof (spaced_until x l hi Hl).
  pose proof (count_mono (λ x, (lo <=? x) && (x <=? hi)) (λ x, x <=? hi) l) as Hm.
  specialize (Hm ltac:(intros t [_ ?]%andb_prop; done)).
  unfold MIN_REFRESH_INTERVAL in *. lia.
Qed.

(** C38. The fetches of the issuer's keys are rate limited: however many registrations
    refresh at once and in whatever order their steps interleave, two fetches start at
    least a minute apart, so that at most one more than the number of minutes fall into
    any stretch of time; tokens with unknown key ids cannot drive one fetch each. *)
Theorem refresh_rate_limited es c lo hi :
  lo ≤ hi →
  let fetches := (replay es c).1 in
  spaced (last_refresh_start c) fetches ∧
  count (λ t, (lo <=? t) && (t <=? hi)) fetches * MIN_REFRESH_INTERVAL ≤
    hi - lo + MIN_REFRESH_INTERVAL.
Proof.
  intros Hlh. split; [apply replay_spaced|]. eapply spaced_window, replay_spaced. done.
Qed.

(** ** What a verified token guarantees *)

Lemma check_claims_ok v cl id :
  check_claims v cl = Ok id →
  id = {| vi_repository := gc_repository cl; vi_subject := gc_sub cl;
          vi_workflow_ref := gc_workflow_ref cl; vi_ref_name := gc_ref_name cl |} ∧
  one_of (vi_repository id) (allowed_repositories v) = true ∧
  claim_allowed (vi_subject id) (allowed_subjects v) (allowed_subject_prefixes v) = true ∧
  optional_claim_allowed (vi_workflow_ref id) (allowed_workflow_refs v) = true ∧
  optional_claim_allowed (vi_ref_name id) (allowed_refs v) = true.
Proof.
  unfold check_claims. repeat (case_match; [done|]).
  intros [= <-]. rewrite !negb_false_iff in *. by split_and!.
Qed.

Lemma verify_ok v now ans token c id c' :
  verify v now ans token c = (Ok id, c') →
  ∃ kid jwk key claims,
    decode_header token = Ok {| h_rs256 := true; h_kid := Some kid |} ∧
    jwk_for_kid v now ans kid c = (Ok jwk, c') ∧
    from_rsa_components (jwk_n jwk) (jwk_e jwk) = Ok key ∧
    jwt_decode token key (validation v) = Ok claims ∧
    check_claims v claims = Ok id.
Proof.
  unfold verify. destruct (decode_header token) as [[rs kid]|] eqn:Hd; [|done]. simpl.
  destruct rs; [|done]. destruct kid as [kid|]; [|done]. simpl.
  destruct (jwk_for_kid v now ans kid c) as [[jwk|e] c1] eqn:Hj; simpl; [|done].
  destruct (from_rsa_components _ _) as [key|] eqn:Hk; simpl; [|done].
  destruct (jwt_decode token key _) as [claims|] eqn:Hc; simpl; [|done].
  intros [= Hv <-]. by exists kid, jwk, key, claims.
Qed.

(** A key of the cache that has expired is still served while the issuer cannot be
    reached: the registration that notices the expiry fails with the fetch, and for the
    next minute the rate limit makes [refresh] succeed without one, so that tokens under
    the expired key are verified.  This repeats every minute, however old the keys are. *)
Theorem expired_key_served v c kid k t ans d ans' uri :
  keys c !! kid = Some k → is_stale (fetched_at c) t = true →
  jwks_url v = Some uri → is_ok (jwks ans uri) = false →
  match last_refresh_start c with
  | Some t0 => t0 + MIN_REFRESH_INTERVAL ≤ t | None => True
  end →
  0 ≤ d < MIN_REFRESH_INTERVAL →
  let '(r, c1) := jwk_for_kid v t ans kid c in
  is_ok r = false ∧
  is_stale (fetched_at c1) (t + d) = true ∧
  jwk_for_kid v (t + d) ans' kid c1 = (Ok k, c1) ∧
  last_refresh_start c1 = Some t ∧ keys c1 = keys c ∧ fetched_at c1 = fetched_at c.
Proof.
  intros Hk Hst Hu Hans Hlast Hd. unfold jwk_for_kid. rewrite Hk, Hst. simpl.
  assert (Hst' : is_stale (fetched_at c) (t + d) = true).
  { unfold is_stale, elapsed in *. destruct (fetched_at c) as [t0|]; [|done].
    rewrite Z.leb_le in *. lia. }
  unfold refetch_kid at 1, refresh, begin_refresh.
  replace (match last_refresh_start c with
           | Some t0 => elapsed t0 t <? MIN_REFRESH_INTERVAL | None => false end)
    with false; cycle 1.
  { destruct (last_refresh_start c) as [t0|]; [|done]. symmetry. apply Z.ltb_ge.
    unfold elapsed, MIN_REFRESH_INTERVAL in *. lia. }
  simpl. unfold resolve_jwks_uri. rewrite Hu. simpl.
  destruct (jwks ans uri) as [|e]; [done|]. simpl.
  rewrite Hk, Hst'. simpl. split_and!; [done|done| |done|done|done].
  unfold refetch_kid, refresh, begin_refresh. simpl.
  destruct (Z.ltb_spec (elapsed t (t + d)) MIN_REFRESH_INTERVAL) as [|Hge]; simpl;
    [by rewrite Hk|]. unfold elapsed, MIN_REFRESH_INTERVAL in *. lia.
Qed.
End oidc.

(** ** Witnesses *)

Definition example_verifier : OidcVerifier :=
  {| issuer := "https://issuer"; jwks_url := Some "https://issuer/keys";
     audiences := ["circus"]; allowed_repositories := ["owner/repo"];
     allowed_subjects := []; allowed_subject_prefixes := []; allowed_workflow_refs := [];
     allowed_refs := [] |}.

Definition example_jwk : Jwk :=
  {| jwk_kid := "k1"; jwk_kty := "RSA"; jwk_n := "n"; jwk_e := "e" |}.

Definition down : Issuer :=
  {| discovery := Err "timeout"; jwks := λ _, Err "timeout"; answered_at := 0 |}.

Lemma refresh_rate_limited_witness :
  let es := [Begin 0; Begin 5; Finish 9 [example_jwk]; Begin 61000000000; Begin 70000000000] in
  (replay es empty_cache).1 = [0; 61000000000] ∧
  (spaced None (replay es empty_cache).1 ∧
   count (λ t, (0 <=? t) && (t <=? 70000000000)) (replay es empty_cache).1
     * MIN_REFRESH_INTERVAL ≤ 70000000000 - 0 + MIN_REFRESH_INTERVAL).
Proof.
  split; [vm_compute; reflexivity|].
  apply (refresh_rate_limited _ empty_cache 0 70000000000). lia.
Defined.

(** The keys were fetched at time 0; a day later the issuer is down. *)
Lemma expired_key_served_witness :
  let c := finish_refresh 0 [example_jwk] empty_cache in
  let t := 24 * JWKS_TTL in
  let '(r, c1) := jwk_for_kid (λ _, None) example_verifier t down "k1" c in
  is_ok r = false ∧ is_stale (fetched_at c1) (t + 1000000000) = true ∧
  jwk_for_kid (λ _, None) example_verifier (t + 1000000000) down "k1" c1 =
    (Ok example_jwk, c1) ∧
  last_refresh_start c1 = Some t ∧ keys c1 = keys c ∧ fetched_at c1 = fetched_at c.
Proof.
  apply (expired_key_served (λ _, None) example_verifier
           (finish_refresh 0 [example_jwk] empty_cache) "k1" example_jwk
           (24 * JWKS_TTL) down 1000000000 down "https://issuer/keys");
    [vm_compute; reflexivity..|exact I|vm_compute; by split].
Defined.
