(* ===== verification/UploadVerify.v ===== *)
(** * Verification of an uploaded NAR ([crates/queue-runner/src/rpc/upload_verify.rs])

    The runner downloads what an agent has uploaded, decompresses it as it arrives and
    compares sizes and hashes with what the agent declared.  HTTP, the decompressors
    and the incremental hasher are third-party code: [Hasher] is what the program
    relies on of [sha2], and the reads a response gives through the decompressor are
    an input. *)

From S2P Require Import Prelude Base32 Codecs StorePath.

Record UploadedNar := {
  un_nar_hash : string;
  un_nar_size : Z;
  un_file_hash : string;
  un_file_size : Z;
}.

Record VerifyRequest := {
  vr_get_url : string;
  vr_compression : string;
  vr_nar_hash : string;
  vr_nar_size : Z;
  vr_file_hash : option string;
  vr_file_size : option Z;
}.

(** The incremental interface of [Sha256]: updating with pieces and finalising is the
    digest of the pieces put together. *)
Class Hasher `{Codecs} := {
  hasher : Type;
  hasher_new : hasher;
  hasher_update : hasher → list Z → hasher;
  hasher_finalize : hasher → list Z;
  hasher_pieces pieces :
    hasher_finalize (foldl hasher_update hasher_new pieces) = sha256 (concat pieces);
}.

(** An instance that keeps what it was given. *)
#[local] Instance hasher_ref `{Codecs} : Hasher.
Proof.
  refine {| hasher := list Z; hasher_new := []; hasher_update := λ h p, h ++ p;
            hasher_finalize := sha256 |}.
  intros pieces. f_equal.
  assert (Hacc : ∀ acc, foldl (λ h p, h ++ p) acc pieces = acc ++ concat pieces).
  { induction pieces as [|p l IH]; intros acc; simpl; [by rewrite app_nil_r|].
    by rewrite IH, <-app_assoc. }
  apply (Hacc []).
Defined.

Inductive Decoder := DZstd | DXz | DGzip | DPlain.

Definition decoder_of (compression : string) : option Decoder :=
  match_str compression
    [("zstd", DZstd); ("xz", DXz); ("gzip", DGzip); ("gz", DGzip); ("none", DPlain);
     ("", DPlain)].

(** What a response gives when it is read through a decoder: the pieces that pass
    [HashingReader] and the results of [reader.read], an empty one being the end. *)
Record Stream := {
  raw : list (list Z);
  reads : list (result string (list Z));
}.

(** What [GET] answers for a URL, by decoder. *)
Definition Http : Type := string → result string (Decoder → Stream).

(** [AtomicU64::fetch_add] wraps. *)
Definition wrap_u64 (z : Z) : Z := z mod 18446744073709551616.

Section verify.
Context `{Hasher}.

(** [HashingReader]: the hasher and the counter after the pieces. *)
Definition hash_file (pieces : list (list Z)) : hasher * Z :=
  foldl (λ '(h, n) p, match p with
                      | [] => (h, n)
                      | _ => (hasher_update h p, wrap_u64 (n + zlen p))
                      end) (hasher_new, 0) pieces.

(** [loop { let n = reader.read(..)?; .. }]. *)
Fixpoint read_loop (declared : Z) (rs : list (result string (list Z))) (h : hasher)
    (nar_size : Z) : result string (hasher * Z) :=
  match rs with
  | [] | Ok [] :: _ => Ok (h, nar_size)
  | Err _ :: _ => Err "read uploaded NAR"
  | Ok piece :: rs =>
      let h := hasher_update h piece in
      let nar_size := u64_saturating_add nar_size (zlen piece) in
      if declared <? nar_size then
        Err ("uploaded NAR exceeds declared size " +:+ pretty declared +:+
             ": decompressed at least " +:+ pretty nar_size +:+ " bytes")
      else read_loop declared rs h nar_size
  end.

(** The comparisons, in the order of the code. *)
Definition compare_upload (req : VerifyRequest) (computed_nar computed_file : list Z)
    (nar_size file_size : Z) : result string UploadedNar :=
  let file_hash := "sha256:" +:+ hex_encode computed_file in
  let? file_hash_ok :=
    match vr_file_hash req with
    | Some expected => hash_matches expected computed_file
    | None => Ok true
    end in
  if negb file_hash_ok then
    Err ("uploaded file hash mismatch: reported " +:+ default "" (vr_file_hash req) +:+
         ", computed " +:+ file_hash)
  else if match vr_file_size req with
          | Some expected => negb (expected =? file_size) | None => false
          end then
    Err ("uploaded file size mismatch: reported " +:+
         pretty (default 0 (vr_file_size req)) +:+ ", computed " +:+ pretty file_size)
  else if negb (vr_nar_size req =? nar_size) then
    Err ("uploaded NAR size mismatch: reported " +:+ pretty (vr_nar_size req) +:+
         ", computed " +:+ pretty nar_size)
  else
    let? nar_hash_ok := hash_matches (vr_nar_hash req) computed_nar in
    if negb nar_hash_ok then
      Err ("uploaded NAR hash mismatch: reported " +:+ vr_nar_hash req +:+
           ", computed sha256:" +:+ hex_encode computed_nar)
    else
      match encode_sha256 computed_nar with
      | Some text =>
          Ok {| un_nar_hash := "sha256:" +:+ text; un_nar_size := nar_size;
                un_file_hash := file_hash; un_file_size := file_size |}
      | None => Err "index out of bounds"
      end.

Definition verify (http : Http) (req : VerifyRequest) : result string UploadedNar :=
  match http (vr_get_url req) with
  | Err _ => Err ("GET " +:+ redact_url_query (vr_get_url req))
  | Ok response =>
      match decoder_of (vr_compression req) with
      | None => Err ("unsupported upload compression: " +:+ vr_compression req)
      | Some d =>
          let stream := response d in
          let? (nar_hasher, nar_size) :=
            read_loop (vr_nar_size req) (reads stream) hasher_new 0 in
          let '(file_hasher, file_size) := hash_file (raw stream) in
          compare_upload req (hasher_finalize nar_hasher) (hasher_finalize file_hasher)
            nar_size file_size
      end
  end.

(** ** Specification

    The NAR a stream holds: the pieces up to the first empty one, unless a read fails
    before. *)

Fixpoint nar_of (rs : list (result string (list Z))) : option (list Z) :=
  match rs with
  | [] | Ok [] :: _ => Some []
  | Err _ :: _ => None
  | Ok piece :: rs => let* rest := nar_of rs in Some (piece ++ rest)
  end.

(** A hash text names a digest. *)
Definition names (text : string) (digest : list Z) : Prop :=
  parse_sha256_hash text = Ok digest.

Lemma hash_matches_true text digest :
  hash_matches text digest = Ok true ↔ names text digest.
Proof.
  unfold hash_matches, names, rbind. destruct (parse_sha256_hash text) as [e|]; [|by split].
  split; [|intros [= ->]; by rewrite bool_decide_true].
  intros [= ?%bool_decide_eq_true]. by subst.
Qed.

(** The saturating counter of a stream of [n] bytes. *)
Definition saturated (n : Z) : Z := Z.min n U64_MAX.

Lemma read_loop_spec declared rs h n :
  0 ≤ n →
  match read_loop declared rs h (saturated n) with
  | Ok (h', n') =>
      ∃ pieces, nar_of rs = Some (concat pieces) ∧ h' = foldl hasher_update h pieces ∧
        n' = saturated (n + zlen (concat pieces))
  | Err _ => ∀ nar, nar_of rs = Some nar → declared < saturated (n + zlen nar)
  end.
Proof.
  revert h n. induction rs as [|[[|b p]|e] rs IH]; intros h n Hn; cbn [read_loop nar_of].
  - exists []. unfold zlen. simpl. by rewrite Z.add_0_r.
  - exists []. unfold zlen. simpl. by rewrite Z.add_0_r.
  - generalize (b :: p) as piece. intros piece. pose proof (zlen_nonneg piece).
    assert (u64_saturating_add (saturated n) (zlen piece) = saturated (n + zlen piece))
      as -> by (unfold u64_saturating_add, saturated; lia).
    specialize (IH (hasher_update h piece) (n + zlen piece) ltac:(lia)).
    destruct (Z.ltb_spec declared (saturated (n + zlen piece))) as [Hlt|Hge].
    + intros nar. destruct (nar_of rs) as [rest|]; simpl; [|done]. intros [= <-].
      pose proof (zlen_nonneg rest). rewrite zlen_app. unfold saturated in *. lia.
    + destruct (read_loop _ _ _ _) as [[h' n']|e].
      * destruct IH as (pieces & -> & -> & ->). exists (piece :: pieces).
        cbn [concat]. by rewrite zlen_app, Z.add_assoc.
      * intros nar. destruct (nar_of rs) as [rest|]; simpl; [|done]. intros [= <-].
        specialize (IH rest eq_refl). by rewrite zlen_app, Z.add_assoc.
  - done.
Qed.

Lemma hash_file_spec pieces :
  let '(h, n) := hash_file pieces in
  hasher_finalize h = sha256 (concat pieces) ∧ n = wrap_u64 (zlen (concat pieces)).
Proof.
  set (step := λ '(h, n) p, match p with
                      | [] => (h, n)
                      | _ => (hasher_update h p, wrap_u64 (n + zlen p))
                      end).
  assert (Hgen : ∀ h n, wrap_u64 n = n → ∃ pieces',
    concat pieces' = concat pieces ∧
    foldl step (h, n) pieces =
      (foldl hasher_update h pieces', wrap_u64 (n + zlen (concat pieces)))).
  { induction pieces as [|[|b p] l IH]; intros h n Hn.
    - exists []. unfold zlen. simpl. by rewrite Z.add_0_r, Hn.
    - apply (IH h n Hn).
    - destruct (IH (hasher_update h (b :: p)) (wrap_u64 (n + zlen (b :: p)))) as
        (ps & Hc & He); [apply Z.mod_mod; lia|].
      exists ((b :: p) :: ps). simpl. rewrite Hc. split; [done|].
      etrans; [apply He|]. f_equal. rewrite app_comm_cons, zlen_app. unfold wrap_u64.
      by rewrite Z.add_mod_idemp_l, Z.add_assoc by lia. }
  destruct (Hgen hasher_new 0 eq_refl) as (ps & Hc & He). unfold hash_file.
  fold step. rewrite He. split; [|done]. by rewrite hasher_pieces, Hc.
Qed.

(** What the comparisons accept. *)
Lemma compare_upload_ok req nar file nar_size file_size u :
  length nar = 32%nat → Forall is_byte nar →
  compare_upload req nar file nar_size file_size = Ok u ↔
  (∀ t, vr_file_hash req = Some t → names t file) ∧
  (∀ n, vr_file_size req = Some n → n = file_size) ∧
  nar_size = vr_nar_size req ∧ names (vr_nar_hash req) nar ∧
  Some (un_nar_hash u) = canonical_sha256_bytes nar ∧ un_nar_size u = nar_size ∧
  un_file_hash u = "sha256:" +:+ hex_encode file ∧ un_file_size u = file_size.
Proof.
  intros Hl Hb. unfold compare_upload.
  destruct (encode_decode_bytes nar Hl Hb) as (text & He & _).
  unfold canonical_sha256_bytes. rewrite He, Hl. simpl.
  split.
  - intros Hok. destruct u as [u1 u2 u3 u4]. simpl.
    destruct (match vr_file_hash req with Some _ => _ | None => _ end) as [[]|] eqn:Hf;
      simpl in Hok; [|done..].
    destruct (match vr_file_size req with Some _ => _ | None => _ end) eqn:Hs; [done|].
    destruct (Z.eqb_spec (vr_nar_size req) nar_size) as [Hn|]; simpl in Hok; [|done].
    destruct (hash_matches (vr_nar_hash req) nar) as [[]|] eqn:Hm; simpl in Hok; [|done..].
    injection Hok as <- <- <- <-. split_and!; try done.
    + intros t Ht. rewrite Ht in Hf. by apply hash_matches_true.
    + intros n Hsz. rewrite Hsz in Hs. by apply negb_false_iff, Z.eqb_eq in Hs.
    + by apply hash_matches_true.
  - intros (Hf & Hs & -> & Hm & Hu1 & Hu2 & Hu3 & Hu4).
    apply hash_matches_true in Hm. rewrite Hm, Z.eqb_refl. simpl.
    destruct u as [u1 u2 u3 u4]. simpl in *. injection Hu1 as ->. subst.
    destruct (vr_file_hash req) as [t|]; [rewrite (proj2 (hash_matches_true t file)) by auto|];
      simpl; (destruct (vr_file_size req) as [n|]; [rewrite (Hs n eq_refl), Z.eqb_refl|]); done.
Qed.

(** Reading piece by piece with an early stop is looking at the whole NAR. *)
Lemma verify_whole http req u :
  verify http req = Ok u ↔
  ∃ response d nar,
    http (vr_get_url req) = Ok response ∧ decoder_of (vr_compression req) = Some d ∧
    nar_of (reads (response d)) = Some nar ∧
    let file := concat (raw (response d)) in
    compare_upload req (sha256 nar) (sha256 file) (saturated (zlen nar))
      (wrap_u64 (zlen file)) = Ok u.
Proof.
  pose proof (λ d (response : Decoder → Stream),
    read_loop_spec (vr_nar_size req) (reads (response d)) hasher_new 0 (Z.le_refl 0)) as Hr.
  pose proof (λ d (response : Decoder → Stream), hash_file_spec (raw (response d))) as Hf.
  unfold verify. split.
  - destruct (http _) as [response|]; [|done].
    destruct (decoder_of _) as [d|] eqn:Hd; [|done].
    specialize (Hr d response). specialize (Hf d response).
    change (saturated 0) with 0 in Hr.
    destruct (read_loop _ _ _ _) as [[h n]|]; [|done]. cbn [rbind].
    destruct (hash_file _) as [hf nf]. destruct Hf as [-> ->].
    destruct Hr as (pieces & Hnar & -> & ->). rewrite hasher_pieces.
    intros Hok. by exists response, d, (concat pieces).
  - intros (response & d & nar & -> & -> & Hnar & Hok).
    specialize (Hr d response). specialize (Hf d response).
    change (saturated 0) with 0 in Hr.
    destruct (read_loop _ _ _ _) as [[h n]|]; cycle 1.
    { specialize (Hr nar Hnar). exfalso.
      apply compare_upload_ok in Hok as (_ & _ & Hs & _);
        [rewrite Z.add_0_l in Hr; lia|apply sha256_length|apply sha256_bytes]. }
    cbn [rbind]. destruct (hash_file _) as [hf nf]. destruct Hf as [-> ->].
    destruct Hr as (pieces & Hnar' & -> & ->). rewrite hasher_pieces.
    by assert (concat pieces = nar) as -> by congruence.
Qed.

(** C37. An upload is accepted exactly when what the runner downloads is what the agent
    declared: the download decodes without error, the decoded NAR has the declared size
    (counted up to the largest 64-bit number) and a digest the declared hash names, and
    the file hash and size agree where they were given.  What is recorded is computed
    from the download: the size of the NAR and the canonical text of its digest, which
    reads back as the digest.  Reading piece by piece with an early stop is thus
    equivalent to looking at the whole NAR. *)
Theorem verify_exact http req u :
  verify http req = Ok u ↔
  ∃ response d nar,
    http (vr_get_url req) = Ok response ∧ decoder_of (vr_compression req) = Some d ∧
    nar_of (reads (response d)) = Some nar ∧
    let file := concat (raw (response d)) in
    saturated (zlen nar) = vr_nar_size req ∧ names (vr_nar_hash req) (sha256 nar) ∧
    (∀ t, vr_file_hash req = Some t → names t (sha256 file)) ∧
    (∀ n, vr_file_size req = Some n → n = wrap_u64 (zlen file)) ∧
    Some (un_nar_hash u) = canonical_sha256_bytes (sha256 nar) ∧
    names (un_nar_hash u) (sha256 nar) ∧ un_nar_size u = vr_nar_size req ∧
    un_file_hash u = "sha256:" +:+ hex_encode (sha256 file) ∧
    un_file_size u = wrap_u64 (zlen file).
Proof.
  rewrite verify_whole. f_equiv; intros response. f_equiv; intros d. f_equiv; intros nar.
  do 3 (apply and_iff_compat_l).
  rewrite compare_upload_ok by (apply sha256_length || apply sha256_bytes).
  destruct (canonical_bytes_parse (sha256 nar) (sha256_length _) (sha256_bytes _))
    as (text & Hc & Hp & _). rewrite Hc. split.
  - intros (H1 & H2 & H3 & H4 & [= H5] & H6 & H7 & H8). rewrite H5. split_and!; congruence || done.
  - intros (H1 & H2 & H3 & H4 & H5 & H6 & H7 & H8 & H9). split_and!; congruence || done.
Qed.
End verify.

(** ** An example *)

Definition example_http : Http := λ _,
  Ok (λ _, {| raw := [[9; 9]; []; [9]]; reads := [Ok [1]; Ok [2; 3]; Ok []] |}).

Definition example_request : VerifyRequest :=
  {| vr_get_url := "https://bucket/nar/x.nar.zst?sig"; vr_compression := "zstd";
     vr_nar_hash := "sha256:" +:+ @hex_encode codecs_ref (@sha256 codecs_ref [1; 2; 3]);
     vr_nar_size := 3; vr_file_hash := None; vr_file_size := Some 3 |}.

Definition example_upload : UploadedNar :=
  {| un_nar_hash := default "" (@canonical_sha256_bytes (@sha256 codecs_ref [1; 2; 3]));
     un_nar_size := 3;
     un_file_hash := "sha256:" +:+ @hex_encode codecs_ref (@sha256 codecs_ref [9; 9; 9]);
     un_file_size := 3 |}.

(** The definitions accept a correct upload. *)
Example verify_example :
  let C := codecs_ref in let Hh := hasher_ref in
  verify example_http example_request = Ok example_upload.
Proof. vm_compute. reflexivity. Qed.
