(* ===== verification/Rpc.v ===== *)
(** * The RPC server ([crates/queue-runner/src/rpc/server.rs], [session.rs])

    Agents connect, register, and call the runner: heartbeats, presigned URLs for the
    outputs of the builds they run, and the notification that an upload is complete;
    the runner assigns builds to them.

    All of this runs on one thread, so a handler is atomic between two suspension
    points and interleaves with the others at each [.await].  A handler that is
    suspended is a [Task]: what it still has to do.  The state is what the handlers
    share: the database, the pool and its heap, the table of presigned uploads, the
    open connections with their registration slot, and the object store.

    When a connection closes, the RPC library drops the handlers that are running for
    it; [drops] tells whether it does, and what depends on it says so. *)

From S2P Require Import Prelude Types Float32 Base32 Codecs StorePath S3 Pool Db Builds Builders Dispatch Oidc UploadVerify.

Definition PROTO_VERSION : string := "circus-proto/2".

(** ** Configuration *)

Record ServerConfig := {
  token_hashes : list string;
  (** [tls.is_some_and(|t| t.pin_cn)]. *)
  pin_cn : bool;
  presigner : option Presigner;
  upload_compression : string;
  (** The key file and what reading it gives: the signing function of the key. *)
  signing_key : option (result string (string → string));
  oidc : option OidcVerifier;
}.

Record PeerCertIdentity := {
  presented : bool;
  cert_name : option string;
}.

(** ** Tokens *)

Section tokens.
Context `{Codecs}.

(** [matched |= ct_eq(..)] over all configured digests. *)
Fixpoint match_token (allowed : list string) (digest : list Z) (matched : Z) : Z :=
  match allowed with
  | [] => matched
  | allowed_hash :: allowed =>
      match_token allowed digest
        match hex_decode (trim allowed_hash) with
        | Ok decoded =>
            if Nat.eqb (length decoded) (length digest)
            then Z.lor matched (if bool_decide (decoded = digest) then 1 else 0)
            else matched
        | Err _ => matched
        end
  end.

Definition verify_token (allowed : list string) (token : string) : bool :=
  match allowed with
  | [] => false
  | _ => match_token allowed (sha256 (as_bytes token)) 0 =? 1
  end.

(** [validate_token_hashes], from index [idx] on. *)
Fixpoint validate_token_hashes (idx : Z) (hashes : list string) : result string () :=
  match hashes with
  | [] => Ok ()
  | hash :: hashes =>
      match hex_decode (trim hash) with
      | Err _ => Err ("queue_runner.rpc.auth_tokens[" +:+ pretty idx +:+ "] is not hex")
      | Ok decoded =>
          if negb (Nat.eqb (length decoded) 32)
          then Err ("queue_runner.rpc.auth_tokens[" +:+ pretty idx +:+
                    "] must decode to 32 bytes, got " +:+ pretty (length decoded))
          else validate_token_hashes (idx + 1) hashes
      end
  end.
End tokens.

(** ** Registration *)

(** What an agent says of itself. *)
Record AgentInfo := {
  ai_machine_id : string;
  ai_name : string;
  ai_hostname : string;
  ai_proto_version : string;
  ai_auth_token : string;
  ai_systems : list string;
  ai_supported_features : list string;
  ai_mandatory_features : list string;
  ai_speed_factor : f32;
  ai_cpu_count : Z;
  ai_max_jobs : Z;
  ai_ephemeral : bool;
}.

(** [as i32] and [as i64]. *)
Definition as_i32 (z : Z) : Z := if z <=? I32_MAX then z else z - 4294967296.
Definition as_i64 (z : Z) : Z := if z <=? I64_MAX then z else z - 18446744073709551616.

Definition check_pin (cfg : ServerConfig) (peer : PeerCertIdentity) (name : string) :
    result string () :=
  if pin_cn cfg && presented peer then
    match cert_name peer with
    | Some c => if bool_decide (c = name) then Ok () else Err "cert/name mismatch"
    | None => Err "client cert has no pinned name"
    end
  else Ok ().

(** The outcome of the authentication: how, and for OIDC as whom. *)
Definition Auth : Type := AuthKind.t * option VerifiedIdentity.

(** The fields checked after the authentication. *)
Definition check_fields (cfg : ServerConfig) (peer : PeerCertIdentity) (info : AgentInfo)
    (machine conn : Uuid) (auth : Auth) : result string AgentSpec :=
  let? _ := check_pin cfg peer (ai_name info) in
  let? _ := validate_text_len "agent.name" (ai_name info) 1 limits.MAX_AGENT_NAME_LEN in
  let? _ := validate_text_len "agent.hostname" (ai_hostname info) 1
              limits.MAX_HOSTNAME_LEN in
  let? systems := read_bounded_text_list (ai_systems info) "systems"
                    limits.MAX_SYSTEMS limits.MAX_FEATURE_LEN in
  let? supported := read_bounded_text_list (ai_supported_features info)
                      "supported_features" limits.MAX_FEATURES limits.MAX_FEATURE_LEN in
  let? mandatory := read_bounded_text_list (ai_mandatory_features info)
                      "mandatory_features" limits.MAX_FEATURES limits.MAX_FEATURE_LEN in
  let ephemeral := ai_ephemeral info ||
                   match auth.1 with AuthKind.Oidc => true | AuthKind.Token => false end in
  let? _ := validate_agent_capacity systems (ai_speed_factor info) (ai_cpu_count info)
              (ai_max_jobs info) in
  Ok {| machine_id := machine; connection_id := conn; name := ai_name info;
        hostname := ai_hostname info; systems := systems;
        supported_features := supported; mandatory_features := mandatory;
        speed_factor := ai_speed_factor info; cpu_count := ai_cpu_count info;
        max_jobs := ai_max_jobs info; ephemeral := ephemeral; auth_kind := auth.1;
        oidc_repository := vi_repository <$> auth.2; oidc_subject := vi_subject <$> auth.2 |}.

(** The row written for an agent. *)
Definition session_row (sp : AgentSpec) : RegisterSession :=
  {| sr_machine_id := machine_id sp; sr_name := name sp; sr_hostname := hostname sp;
     sr_systems := systems sp; sr_supported_features := supported_features sp;
     sr_mandatory_features := mandatory_features sp; sr_speed_factor := speed_factor sp;
     sr_cpu_count := as_i32 (cpu_count sp); sr_max_jobs := as_i32 (max_jobs sp);
     sr_proto_version := PROTO_VERSION; sr_ephemeral := ephemeral sp;
     sr_auth_kind := AuthKind.as_str (auth_kind sp) |}.

(** ** Uploads *)

Definition UploadKey : Type := Uuid * Uuid * string.

Record ExpectedUpload := {
  eu_nar_hash : string;
  eu_nar_size : Z;
  eu_compression : string;
  eu_nar_path : string;
}.

Record UrlRequest := {
  ur_store_path : string;
  ur_nar_hash : string;
  ur_nar_size : Z;
}.

Inductive UrlResponse :=
  | UrlGranted (store_path compression nar_url nar_path : string)
  | UrlRefused (store_path compression error_message : string).

(** What [notifyUploadComplete] carries. *)
Record UploadInfo := {
  ui_store_path : string;
  ui_nar_hash : string;
  ui_nar_size : Z;
  ui_file_hash : string;
  ui_file_size : Z;
  ui_compression : string;
  ui_url : string;
  ui_deriver : string;
  ui_references : list string;
  ui_ca : string;
}.

(** [forget_uploads_for]. *)
Definition forget_uploads_for (machine build : Uuid)
    (t : gmap (Z * Z * string) ExpectedUpload) : gmap (Z * Z * string) ExpectedUpload :=
  filter (λ kv, negb (bool_decide (kv.1.1 = (machine, build))) = true) t.

(** The narinfo fingerprint ([common/src/narinfo_signing.rs]). *)
Definition fingerprint (store_path nar_hash : string) (nar_size : Z)
    (references : list string) : string :=
  "1;" +:+ store_path +:+ ";" +:+ nar_hash +:+ ";" +:+ pretty nar_size +:+ ";" +:+
  str_join "," (sort_by String.compare references).

Fixpoint validate_references (l : list string) : result string () :=
  match l with
  | [] => Ok ()
  | r :: l => let? _ := validate_store_path r in validate_references l
  end.

(** The checks of [notify_upload_complete] before any shared state is looked at. *)
Definition check_upload_info (info : UploadInfo) : result string () :=
  let? _ := validate_store_path (ui_store_path info) in
  let? _ := validate_hash_text "nar_hash" (ui_nar_hash info) in
  let? _ := if negb (is_empty (ui_file_hash info))
            then validate_hash_text "file_hash" (ui_file_hash info) else Ok () in
  let? _ := validate_upload_compression (ui_compression info) in
  validate_references (ui_references info).

(** ** The shared state *)

Record RegisteredAgent := {
  ra_machine_id : Uuid;
  ra_connection_id : Uuid;
}.

(** An open connection: its certificate and its registration slot. *)
Record Conn := {
  peer_cert : PeerCertIdentity;
  registered : option RegisteredAgent;
}.

(** A suspended handler, by what it waits for. *)
Inductive Task :=
  (** [register]: the slot is taken; the session row is being written. *)
  | TRegister (c : Z) (sp : AgentSpec)
  (** [register]: the row is written; the agent is not in the pool yet. *)
  | TInsert (c : Z) (sp : AgentSpec)
  (** [serve_one]: the agent is out of the pool; the row is not yet marked. *)
  | TDisconnect (machine : Uuid)
  (** [request_presigned_urls]: the build is being read. *)
  | TPresign (c : Z) (machine build : Uuid) (reqs : list UrlRequest)
  (** [request_presigned_urls]: the outputs of the derivation are being queried. *)
  | TOutputs (c : Z) (machine build : Uuid) (reqs : list UrlRequest) (drv_path : string)
  (** [notify_upload_complete]: the upload is being verified. *)
  | TVerify (c : Z) (key : UploadKey) (info : UploadInfo) (get_url : string)
  (** [notify_upload_complete]: the project is being read. *)
  | TProject (c : Z) (key : UploadKey) (info : UploadInfo) (verified : UploadedNar)
  (** [notify_upload_complete]: the narinfo is being written. *)
  | TPersist (c : Z) (key : UploadKey) (row : NarInfoData) (project : option Uuid)
  (** [notify_upload_complete]: it is written. *)
  | TForget (c : Z) (key : UploadKey)
  (** [dispatch_one], from the assignment to the result. *)
  | TDispatch (l : loc) (machine build : Uuid).

(** The connection whose end drops the handler. *)
Definition owner (t : Task) : option Z :=
  match t with
  | TRegister c _ | TInsert c _ | TPresign c _ _ _ | TOutputs c _ _ _ _ | TVerify c _ _ _
  | TProject c _ _ _ | TPersist c _ _ _ | TForget c _ => Some c
  | TDisconnect _ | TDispatch _ _ _ => None
  end.

Record sys := {
  world : World;
  heap : Heap;
  pool : AgentPool;
  uploads : gmap (Z * Z * string) ExpectedUpload;
  conns : gmap Z Conn;
  tasks : gmap Z Task;
  jwks_cache : CacheState;
  bucket : Http;
}.

Definition set_world (v : World) (s : sys) : sys :=
  {| world := v; heap := heap s; pool := pool s; uploads := uploads s;
     conns := conns s; tasks := tasks s; jwks_cache := jwks_cache s;
     bucket := bucket s |}.

Definition set_heap (v : Heap) (s : sys) : sys :=
  {| world := world s; heap := v; pool := pool s; uploads := uploads s;
     conns := conns s; tasks := tasks s; jwks_cache := jwks_cache s;
     bucket := bucket s |}.

Definition set_pool (v : AgentPool) (s : sys) : sys :=
  {| world := world s; heap := heap s; pool := v; uploads := uploads s;
     conns := conns s; tasks := tasks s; jwks_cache := jwks_cache s;
     bucket := bucket s |}.

Definition set_uploads (v : gmap (Z * Z * string) ExpectedUpload) (s : sys) : sys :=
  {| world := world s; heap := heap s; pool := pool s; uploads := v;
     conns := conns s; tasks := tasks s; jwks_cache := jwks_cache s;
     bucket := bucket s |}.

Definition set_conns (v : gmap Z Conn) (s : sys) : sys :=
  {| world := world s; heap := heap s; pool := pool s; uploads := uploads s;
     conns := v; tasks := tasks s; jwks_cache := jwks_cache s; bucket := bucket s |}.

Definition set_tasks (v : gmap Z Task) (s : sys) : sys :=
  {| world := world s; heap := heap s; pool := pool s; uploads := uploads s;
     conns := conns s; tasks := v; jwks_cache := jwks_cache s; bucket := bucket s |}.

Definition set_jwks_cache (v : CacheState) (s : sys) : sys :=
  {| world := world s; heap := heap s; pool := pool s; uploads := uploads s;
     conns := conns s; tasks := tasks s; jwks_cache := v; bucket := bucket s |}.

Definition set_bucket (v : Http) (s : sys) : sys :=
  {| world := world s; heap := heap s; pool := pool s; uploads := uploads s;
     conns := conns s; tasks := tasks s; jwks_cache := jwks_cache s; bucket := v |}.

(** A handler goes on, or ends. *)
Definition put_task (tid : Z) (t : Task) (s : sys) : sys := set_tasks (<[tid := t]> (tasks s)) s.
Definition end_task (tid : Z) (s : sys) : sys := set_tasks (base.delete tid (tasks s)) s.

Definition set_slot (c : Z) (r : option RegisteredAgent) (s : sys) : sys :=
  set_conns (alter (λ k, {| peer_cert := peer_cert k; registered := r |}) c (conns s)) s.

(** Run a database operation. *)
Definition on_world {A} (m : M A) (s : sys) : result CiError A * sys :=
  let '(r, w) := m (world s) in (r, set_world w s).

Definition set_active (f : gset Z → gset Z) (m : AgentMeta) : AgentMeta :=
  {| spec := spec m; current_jobs := current_jobs m; active_builds := f (active_builds m);
     heartbeat := heartbeat m; registered_at := registered_at m; tx_open := tx_open m |}.

(** ** Handlers *)

(** The code the handlers call and do not contain, and the configuration. *)
Class Server := {
  uuid_parse : string → option Uuid;
  DecodingKey : Type;
  decode_header : string → result string Header;
  from_rsa_components : string → string → result string DecodingKey;
  jwt_decode : string → DecodingKey → Validation → result string GitHubClaims;
  url_origin : string → option Origin;
  (** The presigner's URLs for an object. *)
  presign_put : Presigner → string → string;
  presign_get : Presigner → string → string;
  (** [nix-store --query --outputs]: a derivation does not change. *)
  drv_outputs : string → result string (list string);
  cfg : ServerConfig;
}.

Section server.
Context `{Hasher, Server}.

Definition parse_uuid_param (value field : string) : result string Uuid :=
  match uuid_parse value with Some u => Ok u | None => Err ("bad " +:+ field) end.

(** *** [register] *)

Definition authenticate (now : Instant) (ans : Issuer) (token : string)
    (c : CacheState) : result string Auth * CacheState :=
  if verify_token (token_hashes cfg) token then (Ok (AuthKind.Token, None), c)
  else match oidc cfg with
       | Some v =>
           let '(r, c) := Oidc.verify DecodingKey decode_header from_rsa_components
                            jwt_decode url_origin v now ans token c in
           match r with
           | Ok id => (Ok (AuthKind.Oidc, Some id), c)
           | Err _ => (Err "auth failed", c)
           end
       | None => (Err "auth failed", c)
       end.

(** The checks up to the slot. *)
Definition check_registration (now : Instant) (ans : Issuer) (peer : PeerCertIdentity)
    (info : AgentInfo) (conn : Uuid) (c : CacheState) : result string AgentSpec * CacheState :=
  match uuid_parse (ai_machine_id info) with
  | None => (Err "bad machine_id", c)
  | Some machine =>
      if negb (bool_decide (ai_proto_version info = PROTO_VERSION)) then
        (Err ("proto mismatch: agent=" +:+ ai_proto_version info +:+ " runner=" +:+
              PROTO_VERSION), c)
      else
        match validate_text_len "agent.auth_token" (ai_auth_token info) 1
                limits.MAX_AUTH_TOKEN_LEN with
        | Err e => (Err e, c)
        | Ok _ =>
            let '(auth, c) := authenticate now ans (ai_auth_token info) c in
            (let? auth := auth in check_fields cfg peer info machine conn auth, c)
        end
  end.

(** [conn] is the new connection id, [tid] names the suspended handler. *)
Definition register_begin (c tid : Z) (now : Instant) (ans : Issuer) (info : AgentInfo)
    (conn : Uuid) (s : sys) : result string () * sys :=
  match conns s !! c with
  | None => (Err "disconnected", s)
  | Some k =>
      let '(r, cache) :=
        check_registration now ans (peer_cert k) info conn (jwks_cache s) in
      let s := set_jwks_cache cache s in
      match r with
      | Err e => (Err e, s)
      | Ok sp =>
          if is_some (registered k) then (Err "connection is already registered", s)
          else
            (Ok (), put_task tid (TRegister c sp)
               (set_slot c (Some {| ra_machine_id := machine_id sp;
                                    ra_connection_id := conn |}) s))
      end
  end.

(** [repo::builder_sessions::register] answers. *)
Definition register_db (tid : Z) (s : sys) : sys :=
  match tasks s !! tid with
  | Some (TRegister c sp) =>
      let '(r, s) := on_world (builder_sessions.register (session_row sp)) s in
      match r with
      | Ok _ => put_task tid (TInsert c sp) s
      | Err _ => end_task tid (set_slot c None s)
      end
  | _ => s
  end.

(** The rest: the metadata at a new address, the pool, the dispatch pump. *)
Definition register_finish (tid : Z) (l : loc) (now : Instant) (s : sys) : sys :=
  match tasks s !! tid with
  | Some (TInsert c sp) =>
      let s := set_heap (<[l := AgentMeta_new sp now]> (heap s)) s in
      let '(_, p) := pool_insert (heap s) l (pool s) in
      end_task tid (set_pool p s)
  | _ => s
  end.

(** *** The end of a connection *)

Definition drop_handlers (drops : bool) (c : Z) (s : sys) : sys :=
  if drops then set_tasks (filter (λ kt, owner kt.2 ≠ Some c) (tasks s)) s else s.

(** The end of [serve_one]; [tid] names the suspended cleanup. *)
Definition close (drops : bool) (c tid : Z) (s : sys) : sys :=
  match conns s !! c with
  | None => s
  | Some k =>
      let s := drop_handlers drops c (set_conns (base.delete c (conns s)) s) in
      match registered k with
      | None => s
      | Some r =>
          let '(removed, p) :=
            pool_remove_if_connection (heap s) (ra_machine_id r) (ra_connection_id r)
              (pool s) in
          let s := set_pool p s in
          match removed with
          | Some _ => put_task tid (TDisconnect (ra_machine_id r)) s
          | None => s
          end
      end
  end.

(** [mark_disconnected]; an error is only logged. *)
Definition disconnect_db (tid : Z) (s : sys) : sys :=
  match tasks s !! tid with
  | Some (TDisconnect machine) =>
      end_task tid (on_world (builder_sessions.mark_disconnected machine) s).2
  | _ => s
  end.

(** *** [request_presigned_urls] *)

(** The session check all calls share. *)
Definition check_session (c : Z) (machine : Uuid) (s : sys) : result string () :=
  if bool_decide ((let* k := conns s !! c in ra_machine_id <$> registered k) = Some machine)
  then Ok () else Err "machine_id does not match registered session".

(** [pool.get] and [active_builds.read().contains]. *)
Definition check_active (machine build : Uuid) (s : sys) : result string () :=
  match (let* l := pool_get machine (pool s) in heap s !! l) with
  | None => Err "registered agent is not in the live pool"
  | Some m =>
      if bool_decide (build ∈ active_builds m) then Ok ()
      else Err "build_id is not active for this agent"
  end.

Definition presign_begin (c tid : Z) (machine_text build_text : string)
    (reqs : list UrlRequest) (s : sys) : result string () * sys :=
  let r :=
    let? machine := parse_uuid_param machine_text "machine_id" in
    let? build := parse_uuid_param build_text "build_id" in
    if limits.MAX_PRESIGNED_URL_REQUESTS <? zlen reqs then
      Err ("too many presigned URL requests: " +:+ pretty (zlen reqs) +:+ " > " +:+
           pretty limits.MAX_PRESIGNED_URL_REQUESTS)
    else
      let? _ := validate_upload_compression (upload_compression cfg) in
      let? _ := check_session c machine s in
      let? _ := check_active machine build s in
      Ok (TPresign c machine build reqs) in
  match r with
  | Ok t => (Ok (), put_task tid t s)
  | Err e => (Err e, s)
  end.

(** [repo::builds::get] answers. *)
Definition presign_db (tid : Z) (s : sys) : result string () * sys :=
  match tasks s !! tid with
  | Some (TPresign c machine build reqs) =>
      let '(r, s) := on_world (builds.get build) s in
      match r with
      | Ok b => (Ok (), put_task tid (TOutputs c machine build reqs (b_drv_path b)) s)
      | Err _ =>
          (Err ("cannot resolve build " +:+ pretty build +:+ " for upload authorization"),
           end_task tid s)
      end
  | _ => (Ok (), s)
  end.

Definition object_path (nar_hash : string) : string :=
  "nar/" +:+ hash_key_segment nar_hash +:+ "." +:+ compression_ext (upload_compression cfg).

(** One turn of the loop over the requests. *)
Definition presign_one (machine build : Uuid) (outputs : list string) (req : UrlRequest)
    (t : gmap (Z * Z * string) ExpectedUpload) :
    UrlResponse * gmap (Z * Z * string) ExpectedUpload :=
  let path := ur_store_path req in
  let compression := upload_compression cfg in
  match (let? _ := validate_store_path path in
         validate_hash_text "nar_hash" (ur_nar_hash req)) with
  | Err e => (UrlRefused path compression e, t)
  | Ok _ =>
      if negb (str_in path outputs) then
        (UrlRefused path compression
           "store path is not an output of this build's derivation", t)
      else match presigner cfg with
           | None =>
               (UrlRefused path compression "runner has no S3 presigner configured", t)
           | Some p =>
               let key := object_path (ur_nar_hash req) in
               (UrlGranted path compression (presign_put p key) key,
                <[(machine, build, path) :=
                    {| eu_nar_hash := ur_nar_hash req; eu_nar_size := ur_nar_size req;
                       eu_compression := compression; eu_nar_path := key |}]> t)
           end
  end.

Fixpoint presign_all (machine build : Uuid) (outputs : list string) (reqs : list UrlRequest)
    (t : gmap (Z * Z * string) ExpectedUpload) :
    list UrlResponse * gmap (Z * Z * string) ExpectedUpload :=
  match reqs with
  | [] => ([], t)
  | req :: reqs =>
      let '(a, t) := presign_one machine build outputs req t in
      let '(l, t) := presign_all machine build outputs reqs t in (a :: l, t)
  end.

(** The outputs are known. *)
Definition presign_finish (tid : Z) (s : sys) : result string (list UrlResponse) * sys :=
  match tasks s !! tid with
  | Some (TOutputs c machine build reqs drv_path) =>
      let s := end_task tid s in
      match drv_outputs drv_path with
      | Ok [] =>
          (Err ("derivation " +:+ drv_path +:+
                " has no queryable outputs for upload authorization"), s)
      | Ok outputs =>
          let '(responses, t) := presign_all machine build outputs reqs (uploads s) in
          (Ok responses, set_uploads t s)
      | Err e =>
          (Err ("cannot query derivation outputs for upload authorization: " +:+ e), s)
      end
  | _ => (Ok [], s)
  end.

(** *** [notify_upload_complete] *)

(** The declaration matches what was presigned. *)
Definition matches_presigned (e : ExpectedUpload) (info : UploadInfo) : bool :=
  bool_decide (eu_nar_hash e = ui_nar_hash info) && (eu_nar_size e =? ui_nar_size info) &&
  bool_decide (eu_compression e = ui_compression info) &&
  bool_decide (eu_nar_path e = ui_url info).

Definition notify_begin (c tid : Z) (machine_text build_text : string)
    (info : UploadInfo) (s : sys) : result string () * sys :=
  let r :=
    let? machine := parse_uuid_param machine_text "machine_id" in
    let? build := parse_uuid_param build_text "build_id" in
    let? _ := check_upload_info info in
    let? _ := check_session c machine s in
    let key := (machine, build, ui_store_path info) in
    match uploads s !! key with
    | None => Err "upload was not presigned for this session/build/path"
    | Some expected =>
        if negb (matches_presigned expected info)
        then Err "narinfo does not match presigned upload"
        else match presigner cfg with
             | None => Err "runner has no S3 presigner configured"
             | Some p => Ok (TVerify c key info (presign_get p (eu_nar_path expected)))
             end
    end in
  match r with
  | Ok t => (Ok (), put_task tid t s)
  | Err e => (Err e, s)
  end.

Definition verify_request (info : UploadInfo) (get_url : string) : VerifyRequest :=
  {| vr_get_url := get_url; vr_compression := ui_compression info;
     vr_nar_hash := ui_nar_hash info; vr_nar_size := ui_nar_size info;
     vr_file_hash := non_empty (ui_file_hash info);
     vr_file_size := if 0 <? ui_file_size info then Some (ui_file_size info) else None |}.

(** The download is complete. *)
Definition notify_verified (tid : Z) (s : sys) : result string () * sys :=
  match tasks s !! tid with
  | Some (TVerify c key info get_url) =>
      match UploadVerify.verify (bucket s) (verify_request info get_url) with
      | Ok verified => (Ok (), put_task tid (TProject c key info verified) s)
      | Err e => (Err ("uploaded NAR verification failed: " +:+ e), end_task tid s)
      end
  | _ => (Ok (), s)
  end.

(** [sign_fingerprint], with the error logged and dropped. *)
Definition signature (info : UploadInfo) (verified : UploadedNar) : option string :=
  match signing_key cfg with
  | Some (Ok sign) =>
      Some (sign (fingerprint (ui_store_path info) (un_nar_hash verified)
                    (as_i64 (un_nar_size verified)) (ui_references info)))
  | _ => None
  end.

(** The row to persist. *)
Definition narinfo_row (info : UploadInfo) (verified : UploadedNar) : NarInfoData :=
  {| ni_nar_hash := un_nar_hash verified; ni_nar_size := as_i64 (un_nar_size verified);
     ni_file_hash := Some (un_file_hash verified);
     ni_file_size := if bool_decide (ui_compression info = "none") then None
                     else Some (as_i64 (un_file_size verified));
     ni_compression := ui_compression info; ni_url := ui_url info;
     ni_deriver := non_empty (ui_deriver info); ni_references := ui_references info;
     ni_sig := signature info verified; ni_ca := non_empty (ui_ca info) |}.

(** [project_id_for_build] answers; the signature follows. *)
Definition notify_project (tid : Z) (s : sys) : result string () * sys :=
  match tasks s !! tid with
  | Some (TProject c key info verified) =>
      let '(r, s) := on_world (builds.project_id_for_build key.1.2) s in
      match r with
      | Ok project => (Ok (), put_task tid (TPersist c key (narinfo_row info verified) project) s)
      | Err _ => (Err "failed to resolve build project", end_task tid s)
      end
  | _ => (Ok (), s)
  end.

(** [narinfo_cache::upsert] answers. *)
Definition notify_persist (tid : Z) (s : sys) : result string () * sys :=
  match tasks s !! tid with
  | Some (TPersist c key row project) =>
      let '(r, s) := on_world (narinfo_cache.upsert key.2 row (Some key.1.2) project) s in
      match r with
      | Ok _ => (Ok (), put_task tid (TForget c key) s)
      | Err _ => (Err "failed to persist narinfo", end_task tid s)
      end
  | _ => (Ok (), s)
  end.

Definition notify_finish (tid : Z) (s : sys) : sys :=
  match tasks s !! tid with
  | Some (TForget c key) => end_task tid (set_uploads (base.delete key (uploads s)) s)
  | _ => s
  end.

(** *** [fetch_drv_closure]

    The derivation whose closure is streamed to the agent.  Nothing is written, so
    what happens between the checks and the query does not matter. *)

Definition fetch_drv_closure (c : Z) (machine_text build_text : string) (s : sys) :
    result string string * sys :=
  let r :=
    let? machine := parse_uuid_param machine_text "machine_id" in
    let? build := parse_uuid_param build_text "build_id" in
    let? _ := check_session c machine s in
    let? _ := check_active machine build s in
    Ok build in
  match r with
  | Err e => (Err e, s)
  | Ok build =>
      let '(b, s) := on_world (builds.get build) s in
      match b with
      | Ok b => (Ok (b_drv_path b), s)
      | Err _ => (Err ("cannot load build " +:+ pretty build), s)
      end
  end.

(** *** [dispatch_one] *)

Definition dispatch_begin (tid : Z) (l : loc) (build : Uuid) (s : sys) : sys :=
  match heap s !! l with
  | None => s
  | Some m =>
      put_task tid (TDispatch l (machine_id (spec m)) build)
        (set_heap (<[l := set_active (λ b, {[build]} ∪ b) m]> (heap s)) s)
  end.

(** The assignment has failed, or the result is there. *)
Definition dispatch_end (tid : Z) (s : sys) : sys :=
  match tasks s !! tid with
  | Some (TDispatch l machine build) =>
      end_task tid
        (set_uploads (forget_uploads_for machine build (uploads s))
           (set_heap (alter (set_active (λ b, b ∖ {[build]})) l (heap s)) s))
  | _ => s
  end.

(** *** [heartbeat] ([session.rs]) *)

Record Ping := {
  ping_snapshot : HeartbeatSnapshot;
  ping_current_jobs : Z;
  ping_mem_total : Z;
  ping_mem_used : Z;
  ping_store_free : Z;
  ping_build_dir_free : Z;
}.

Definition try_i32 (z : Z) : Z := if z <=? I32_MAX then z else I32_MAX.
Definition try_i64 (z : Z) : Z := if z <=? I64_MAX then z else I64_MAX.

Definition ping_metrics (p : Ping) : SessionMetrics :=
  let h := ping_snapshot p in
  {| sm_load1 := Some (load1 h); sm_load5 := Some (load5 h); sm_load15 := Some (load15 h);
     sm_cpu_psi_avg10 := Some (cpu_psi_avg10 h); sm_mem_psi_avg10 := Some (mem_psi_avg10 h);
     sm_io_psi_avg10 := Some (io_psi_avg10 h);
     sm_mem_total := Some (try_i64 (ping_mem_total p));
     sm_mem_used := Some (try_i64 (ping_mem_used p));
     sm_store_free := Some (try_i64 (ping_store_free p));
     sm_build_dir_free := Some (try_i64 (ping_build_dir_free p)) |}.

Definition set_heartbeat (h : HeartbeatSnapshot) (m : AgentMeta) : AgentMeta :=
  {| spec := spec m; current_jobs := current_jobs m; active_builds := active_builds m;
     heartbeat := h; registered_at := registered_at m; tx_open := tx_open m |}.

Definition session_heartbeat (machine : Uuid) (p : Ping) (s : sys) : sys :=
  let s :=
    match pool_get machine (pool s) with
    | Some l => set_heap (alter (set_heartbeat (ping_snapshot p)) l (heap s)) s
    | None => s
    end in
  (on_world (builder_sessions.heartbeat machine (ping_metrics p)
               (try_i32 (ping_current_jobs p))) s).2.

(** ** Runs *)

(** Connection ids are random: a new one is in nobody's hands. *)
Definition spec_of (t : Task) : option AgentSpec :=
  match t with TRegister _ sp | TInsert _ sp => Some sp | _ => None end.

Definition unused_id (conn : Uuid) (s : sys) : Prop :=
  (∀ l m, heap s !! l = Some m → connection_id (spec m) ≠ conn) ∧
  (∀ t tk sp, tasks s !! t = Some tk → spec_of tk = Some sp → connection_id sp ≠ conn).

(** What others do to the database: the narinfos may lose rows and change their
    bookkeeping, but not what they say. *)
Definition others_write (w w' : World) : Prop :=
  ∀ p r', w_narinfos w' !! p = Some r' →
    ∃ r, w_narinfos w !! p = Some r ∧ nr_info r' = nr_info r.

Inductive step (drops : bool) : sys → sys → Prop :=
  | st_open s c peer :
      conns s !! c = None →
      step drops s (set_conns (<[c := {| peer_cert := peer; registered := None |}]> (conns s)) s)
  | st_register s c tid now ans info conn :
      tasks s !! tid = None → unused_id conn s →
      step drops s (register_begin c tid now ans info conn s).2
  | st_register_db s tid : step drops s (register_db tid s)
  | st_register_finish s tid l now :
      heap s !! l = None → step drops s (register_finish tid l now s)
  | st_close s c tid : tasks s !! tid = None → step drops s (close drops c tid s)
  | st_disconnect_db s tid : step drops s (disconnect_db tid s)
  | st_presign s c tid m b reqs :
      tasks s !! tid = None → step drops s (presign_begin c tid m b reqs s).2
  | st_presign_db s tid : step drops s (presign_db tid s).2
  | st_presign_finish s tid : step drops s (presign_finish tid s).2
  | st_notify s c tid m b info :
      tasks s !! tid = None → step drops s (notify_begin c tid m b info s).2
  | st_verified s tid : step drops s (notify_verified tid s).2
  | st_project s tid : step drops s (notify_project tid s).2
  | st_persist s tid : step drops s (notify_persist tid s).2
  | st_notify_finish s tid : step drops s (notify_finish tid s)
  | st_fetch_drv s c m b : step drops s (fetch_drv_closure c m b s).2
  | st_dispatch s tid l b : tasks s !! tid = None → step drops s (dispatch_begin tid l b s)
  | st_dispatch_end s tid : step drops s (dispatch_end tid s)
  | st_heartbeat s m p : step drops s (session_heartbeat m p s)
  (** The scheduler takes and releases slots. *)
  | st_acquire s l h : try_acquire_slot l (heap s) = Some h → step drops s (set_heap h s)
  | st_release s l : step drops s (set_heap (drop_slot l (heap s)) s)
  (** Other clients of the database and of the object store. *)
  | st_world s w : others_write (world s) w → step drops s (set_world w s)
  | st_bucket s b : step drops s (set_bucket b s).

Definition initial (s : sys) : Prop :=
  heap s = ∅ ∧ pool s = ∅ ∧ uploads s = ∅ ∧ conns s = ∅ ∧ tasks s = ∅.

(** A run, the last state first. *)
Inductive run (drops : bool) : list sys → Prop :=
  | run_initial s : initial s → run drops [s]
  | run_step s s' h : run drops (s :: h) → step drops s s' → run drops (s' :: s :: h).

Definition reachable_sys (drops : bool) (s : sys) : Prop := ∃ h, run drops (s :: h).
End server.
