(* ===== verification/RpcUploads.v ===== *)
(** * The narinfos the RPC server persists

    Whatever the agents send and however the handlers of [Rpc] interleave, a narinfo is
    written only for an output of the derivation of a build the agent was running, and
    describes the object the runner downloaded ([narinfo_authorised]).  The invariant
    carries the evidence through the suspended handlers: a fact about an earlier state
    of the run stays true. *)

From S2P Require Import Prelude Types Float32 Base32 Codecs StorePath S3 Pool Db Builds Builders Dispatch Oidc UploadVerify Rpc.

#[local] Set Warnings "-clear-no-such-hyp".

(** ** Narinfos *)

Section authorised.
Context {codecs : Codecs} {hashes : Hasher} {server : Server}.

(** At some moment an open connection was registered for the machine and the build was
    active on the agent the pool held for it. *)
Definition was_active (h : list sys) (machine build : Uuid) : Prop :=
  ∃ s c k r l m, s ∈ h ∧ conns s !! c = Some k ∧ registered k = Some r ∧
    ra_machine_id r = machine ∧ pool s !! machine = Some l ∧ heap s !! l = Some m ∧
    build ∈ active_builds m.

(** At some moment the build had this derivation. *)
Definition had_drv (h : list sys) (build : Uuid) (drv : string) : Prop :=
  ∃ s b, s ∈ h ∧ w_builds (world s) !! build = Some b ∧ b_drv_path b = drv.

Definition is_output (h : list sys) (build : Uuid) (path : string) : Prop :=
  ∃ drv outs, had_drv h build drv ∧ drv_outputs drv = Ok outs ∧ path ∈ outs.

Definition granted (h : list sys) (k : UploadKey) (e : ExpectedUpload) : Prop :=
  was_active h k.1.1 k.1.2 ∧ is_output h k.1.2 k.2 ∧
  eu_nar_path e = object_path (eu_nar_hash e) ∧ eu_compression e = upload_compression cfg.

(** A declaration that matches a grant for its path. *)
Definition declared (h : list sys) (k : UploadKey) (info : UploadInfo) : Prop :=
  ∃ e, granted h k e ∧ matches_presigned e info = true ∧ k.2 = ui_store_path info.

(** At some moment the object at the declared URL passed the verification. *)
Definition downloaded (h : list sys) (info : UploadInfo) (u : UploadedNar) : Prop :=
  ∃ s p, s ∈ h ∧ presigner cfg = Some p ∧
    UploadVerify.verify (bucket s) (verify_request info (presign_get p (ui_url info))) = Ok u.

Definition authorised (h : list sys) (k : UploadKey) (row : NarInfoData) : Prop :=
  ∃ info u, declared h k info ∧ downloaded h info u ∧ row = narinfo_row info u.

Definition task_ok (h : list sys) (t : Task) : Prop :=
  match t with
  | TPresign _ m b _ => was_active h m b
  | TOutputs _ m b _ drv => was_active h m b ∧ had_drv h b drv
  | TVerify _ k info url =>
      declared h k info ∧ ∃ p, presigner cfg = Some p ∧ url = presign_get p (ui_url info)
  | TProject _ k info u => declared h k info ∧ downloaded h info u
  | TPersist _ k row _ => authorised h k row
  | _ => True
  end.

(** A narinfo is as it was at the start, or authorised. *)
Definition row_ok (h : list sys) (path : string) (row : NarInfoData) : Prop :=
  (∃ s0 r0, last h = Some s0 ∧ w_narinfos (world s0) !! path = Some r0 ∧ nr_info r0 = row) ∨
  ∃ k, k.2 = path ∧ authorised h k row.

Record inv (h : list sys) (s : sys) : Prop := {
  inv_uploads k e : uploads s !! k = Some e → granted h k e;
  inv_tasks t tk : tasks s !! t = Some tk → task_ok h tk;
  inv_rows p r : w_narinfos (world s) !! p = Some r → row_ok h p (nr_info r);
}.

(** *** Evidence lasts *)

Lemma was_active_mono h h' m b : h ⊆ h' → was_active h m b → was_active h' m b.
Proof. intros ? (s & c & k & r & l & mt & ? & ?). exists s, c, k, r, l, mt. naive_solver. Qed.

Lemma had_drv_mono h h' b d : h ⊆ h' → had_drv h b d → had_drv h' b d.
Proof. intros ? (s & r & ? & ?). exists s, r. naive_solver. Qed.

Lemma granted_mono h h' k e : h ⊆ h' → granted h k e → granted h' k e.
Proof.
  intros Hs (Ha & (drv & outs & Hd & Ho) & Hr). split; [by eapply was_active_mono|].
  split; [|done]. exists drv, outs. split; [by eapply had_drv_mono|done].
Qed.

Lemma declared_mono h h' k i : h ⊆ h' → declared h k i → declared h' k i.
Proof. intros Hs (e & Hg & ?). exists e. split; [by eapply granted_mono|done]. Qed.

Lemma downloaded_mono h h' i u : h ⊆ h' → downloaded h i u → downloaded h' i u.
Proof. intros ? (s & p & ? & ?). exists s, p. naive_solver. Qed.

Lemma authorised_mono h h' k r : h ⊆ h' → authorised h k r → authorised h' k r.
Proof.
  intros Hs (i & u & Hd & Hu & ->). exists i, u.
  eauto using declared_mono, downloaded_mono.
Qed.

#[local] Hint Resolve was_active_mono had_drv_mono granted_mono declared_mono
  downloaded_mono authorised_mono : core.

Lemma task_ok_mono h h' t : h ⊆ h' → task_ok h t → task_ok h' t.
Proof. intros Hs. destruct t; simpl; naive_solver eauto. Qed.

Lemma row_ok_mono s' s h p r : row_ok (s :: h) p r → row_ok (s' :: s :: h) p r.
Proof.
  intros [Hl|(k & Hk & Ha)]; [left; done|right]. exists k. split; [done|].
  eapply authorised_mono; [|done]. set_solver.
Qed.

Lemma inv_mono s' s h x : inv (s :: h) x → inv (s' :: s :: h) x.
Proof.
  intros [Hu Ht Hr]. assert (s :: h ⊆ s' :: s :: h) by set_solver.
  constructor; [|eauto using task_ok_mono|eauto using row_ok_mono].
  intros k e Hk. eapply granted_mono; [done|by apply Hu].
Qed.

(** *** What the operations do to it *)

Lemma inv_put h tid t s : inv h s → task_ok h t → inv h (put_task tid t s).
Proof.
  intros [Hu Ht Hr] Hok. constructor; [done| |done]. simpl. intros t' tk.
  rewrite lookup_insert_Some. naive_solver.
Qed.

Lemma inv_end h tid s : inv h s → inv h (end_task tid s).
Proof.
  intros [Hu Ht Hr]. constructor; [done| |done]. simpl. intros t' tk.
  rewrite lookup_delete_Some. naive_solver.
Qed.

Lemma inv_set_uploads h t s :
  inv h s → (∀ k e, t !! k = Some e → granted h k e) → inv h (set_uploads t s).
Proof. intros [Hu Ht Hr] Hok. by constructor. Qed.

Lemma inv_set_world h w s :
  inv h s → others_write (world s) w → inv h (set_world w s).
Proof.
  intros [Hu Ht Hr] Hw. constructor; [done|done|]. simpl. intros p r Hp.
  destruct (Hw p r Hp) as (r0 & Hp0 & ->). by eapply Hr.
Qed.

(** Queries that do not touch the narinfos. *)
Definition keeps_narinfos {A} (m : M A) : Prop :=
  ∀ w, w_narinfos (m w).2 = w_narinfos w.

Lemma query_keeps {A} (f : World → result CiError A * World) :
  (∀ w, w_narinfos (f w).2 = w_narinfos w) → keeps_narinfos (query f).
Proof. intros Hf w. unfold query. destruct (w_faults w) as [|[] ?]; simpl; [..|rewrite Hf]; by try apply Hf. Qed.

Lemma bind_keeps {A B} (m : M A) (k : A → M B) :
  keeps_narinfos m → (∀ a, keeps_narinfos (k a)) → keeps_narinfos (mbind m k).
Proof.
  intros Hm Hk w. unfold mbind. specialize (Hm w).
  destruct (m w) as [[a|e] w']; simpl in *; [by rewrite Hk|done].
Qed.

Lemma not_found_keeps {A} msg (m : M (option A)) :
  keeps_narinfos m → keeps_narinfos (or_not_found msg m).
Proof. intros Hm. apply bind_keeps; [done|]. by intros [a|] w. Qed.

Lemma register_keeps r : keeps_narinfos (builder_sessions.register r).
Proof. apply query_keeps. intros w. by case_match. Qed.

Lemma inv_on_world h {A} (m : M A) s :
  inv h s → keeps_narinfos m → inv h (on_world m s).2.
Proof.
  intros Hi Hk. unfold on_world. specialize (Hk (world s)).
  destruct (m (world s)) as [r w]. simpl in *. apply inv_set_world; [done|].
  intros p r' Hp. rewrite Hk in Hp. eauto.
Qed.

(** *** Every handler preserves it *)

(** The checks of a call, from their result. *)
Lemma check_session_ok c machine s :
  check_session c machine s = Ok () →
  ∃ k r, conns s !! c = Some k ∧ registered k = Some r ∧ ra_machine_id r = machine.
Proof.
  unfold check_session. case_bool_decide as E; [|done]. intros _.
  destruct (conns s !! c) as [k|]; simpl in E; [|done].
  destruct (registered k) as [r|] eqn:Hr; simpl in E; [|done]. naive_solver.
Qed.

Lemma check_active_ok machine build s :
  check_active machine build s = Ok () →
  ∃ l m, pool s !! machine = Some l ∧ heap s !! l = Some m ∧ build ∈ active_builds m.
Proof.
  unfold check_active, pool_get. destruct (pool s !! machine) as [l|]; simpl; [|done].
  destruct (heap s !! l) as [m|] eqn:Hm; [|done]. case_bool_decide; [|done]. eauto.
Qed.

Lemma inv_register h c tid now ans info conn s :
  inv h s → inv h (register_begin c tid now ans info conn s).2.
Proof.
  intros Hi. unfold register_begin. destruct (conns s !! c) as [k|]; [|done].
  destruct (check_registration _ _ _ _ _ _) as [[sp|e] cache]; [|by destruct Hi].
  destruct (is_some (registered k)); simpl; [by destruct Hi|].
  apply inv_put; [by destruct Hi|done].
Qed.

Lemma inv_register_db h tid s : inv h s → inv h (register_db tid s).
Proof.
  intros Hi. unfold register_db. destruct (tasks s !! tid) as [[]|]; try done.
  pose proof (inv_on_world h _ s Hi (register_keeps (session_row sp))) as Hw.
  destruct (on_world _ s) as [[[]|e] s']; simpl in Hw.
  - by apply inv_put.
  - apply inv_end. by destruct Hw.
Qed.

Lemma inv_register_finish h tid l now s : inv h s → inv h (register_finish tid l now s).
Proof.
  intros Hi. unfold register_finish. destruct (tasks s !! tid) as [[]|]; try done.
  destruct (pool_insert _ _ _) as [o p]. apply inv_end. by destruct Hi.
Qed.

Lemma inv_drop_handlers h drops c s : inv h s → inv h (drop_handlers drops c s).
Proof.
  intros Hi. unfold drop_handlers. destruct drops; [|done]. destruct Hi as [Hu Ht Hr].
  constructor; [done| |done]. simpl. intros t tk [Hk _]%map_lookup_filter_Some. eauto.
Qed.

Lemma inv_close h drops c tid s : inv h s → inv h (close drops c tid s).
Proof.
  intros Hi. unfold close. destruct (conns s !! c) as [k|]; [|done].
  assert (Hd : inv h (drop_handlers drops c (set_conns (base.delete c (conns s)) s))).
  { apply inv_drop_handlers. by destruct Hi. }
  destruct (registered k) as [r|]; [|done].
  destruct (pool_remove_if_connection _ _ _ _) as [[l|] p].
  - apply inv_put; [by destruct Hd|done].
  - by destruct Hd.
Qed.

Lemma inv_disconnect_db h tid s : inv h s → inv h (disconnect_db tid s).
Proof.
  intros Hi. unfold disconnect_db. destruct (tasks s !! tid) as [[]|]; try done.
  apply inv_end, inv_on_world; [done|]. by apply query_keeps.
Qed.

Lemma inv_presign h c tid mt bt reqs s :
  s ∈ h → inv h s → inv h (presign_begin c tid mt bt reqs s).2.
Proof.
  intros Hs Hi. unfold presign_begin.
  destruct (parse_uuid_param mt _) as [machine|]; simpl; [|done].
  destruct (parse_uuid_param bt _) as [build|]; simpl; [|done].
  destruct (_ <? _); [done|]. destruct (validate_upload_compression _); simpl; [|done].
  destruct (check_session c machine s) as [[]|] eqn:Hc; simpl; [|done].
  destruct (check_active machine build s) as [[]|] eqn:Ha; simpl; [|done].
  apply inv_put; [done|]. simpl.
  apply check_session_ok in Hc as (k & r & ? & ? & ?).
  apply check_active_ok in Ha as (l & m & ? & ? & ?). by exists s, c, k, r, l, m.
Qed.

Lemma inv_presign_db h tid s : s ∈ h → inv h s → inv h (presign_db tid s).2.
Proof.
  intros Hs Hi. unfold presign_db. destruct (tasks s !! tid) as [[]|] eqn:Ht; try done.
  pose proof (inv_on_world h (builds.get build) s Hi) as Hw.
  specialize (Hw ltac:(by apply not_found_keeps, query_keeps)).
  unfold on_world in *. destruct (builds.get build (world s)) as [[b|e] w'] eqn:Hb.
  - simpl in *. apply inv_put; [done|]. simpl. split; [apply (inv_tasks _ _ Hi _ _ Ht)|].
    exists s, b. split; [done|]. split; [|done]. unfold builds.get, or_not_found, mbind,
      Db.read, query in Hb.
    destruct (w_faults (world s)) as [|[] ?]; simpl in Hb; try done;
      (destruct (w_builds (world s) !! build) as [b'|] eqn:E; simpl in Hb; [|done]);
      unfold mret in Hb; congruence.
  - by apply inv_end.
Qed.

Lemma presign_one_granted h machine build drv outputs req t :
  was_active h machine build → had_drv h build drv → drv_outputs drv = Ok outputs →
  (∀ k e, t !! k = Some e → granted h k e) →
  ∀ k e, (presign_one machine build outputs req t).2 !! k = Some e → granted h k e.
Proof.
  intros Ha Hd Ho Ht k e. unfold presign_one.
  destruct (rbind _ _); [|by apply Ht].
  destruct (str_in _ outputs) eqn:Hin; simpl; [|by apply Ht].
  destruct (presigner cfg); simpl; [|by apply Ht].
  rewrite lookup_insert_Some. intros [[<- <-]|[_ Hk]]; [|by apply Ht].
  split; [done|]. split; [|done]. exists drv, outputs. split_and!; [done|done|].
  apply existsb_exists in Hin as (x & Hx%list_elem_of_In & E%bool_decide_eq_true). by subst.
Qed.

Lemma presign_all_granted h machine build drv outputs reqs t :
  was_active h machine build → had_drv h build drv → drv_outputs drv = Ok outputs →
  (∀ k e, t !! k = Some e → granted h k e) →
  ∀ k e, (presign_all machine build outputs reqs t).2 !! k = Some e → granted h k e.
Proof.
  intros Ha Hd Ho. revert t. induction reqs as [|req reqs IH]; intros t Ht; [done|]. simpl.
  pose proof (presign_one_granted h machine build drv outputs req t Ha Hd Ho Ht) as H1.
  destruct (presign_one _ _ _ _ t) as [a t1]. simpl in H1. specialize (IH t1 H1).
  by destruct (presign_all _ _ _ _ t1).
Qed.

Lemma inv_presign_finish h tid s : inv h s → inv h (presign_finish tid s).2.
Proof.
  intros Hi. unfold presign_finish. destruct (tasks s !! tid) as [[]|] eqn:Ht; try done.
  pose proof (inv_tasks _ _ Hi _ _ Ht) as [Ha Hd].
  assert (He : inv h (end_task tid s)) by by apply inv_end.
  destruct (drv_outputs drv_path) as [outs|e] eqn:Ho; [|done].
  pose proof (presign_all_granted h _ _ _ _ reqs (uploads (end_task tid s)) Ha Hd Ho
    (inv_uploads _ _ He)) as Hg.
  destruct outs as [|o outs]; [done|].
  destruct (presign_all _ _ _ _ _) as [rs t]. by apply inv_set_uploads.
Qed.

Lemma matches_presigned_true e info :
  matches_presigned e info = true ↔
  eu_nar_hash e = ui_nar_hash info ∧ eu_nar_size e = ui_nar_size info ∧
  eu_compression e = ui_compression info ∧ eu_nar_path e = ui_url info.
Proof.
  unfold matches_presigned.
  rewrite !andb_true_iff, !bool_decide_eq_true, Z.eqb_eq. tauto.
Qed.

Lemma inv_notify h c tid mt bt info s :
  inv h s → inv h (notify_begin c tid mt bt info s).2.
Proof.
  intros Hi. unfold notify_begin.
  destruct (parse_uuid_param mt _) as [machine|]; simpl; [|done].
  destruct (parse_uuid_param bt _) as [build|]; simpl; [|done].
  destruct (check_upload_info info); simpl; [|done].
  destruct (check_session c machine s); simpl; [|done].
  destruct (uploads s !! _) as [e|] eqn:Hu; [|done].
  destruct (matches_presigned e info) eqn:Hm; simpl; [|done].
  destruct (presigner cfg) as [p|] eqn:Hp; [|done].
  apply inv_put; [done|]. simpl. split.
  - exists e. split_and!; [by apply (inv_uploads _ _ Hi)|done|done].
  - exists p. split; [done|]. apply matches_presigned_true in Hm as (_ & _ & _ & ->). done.
Qed.

Lemma inv_verified h tid s : s ∈ h → inv h s → inv h (notify_verified tid s).2.
Proof.
  intros Hs Hi. unfold notify_verified. destruct (tasks s !! tid) as [[]|] eqn:Ht; try done.
  destruct (UploadVerify.verify _ _) as [u|e] eqn:Hv; [|by apply inv_end].
  destruct (inv_tasks _ _ Hi _ _ Ht) as (Hd & p & Hp & ->).
  apply inv_put; [done|]. split; [done|]. by exists s, p.
Qed.

Lemma inv_project h tid s : inv h s → inv h (notify_project tid s).2.
Proof.
  intros Hi. unfold notify_project. destruct (tasks s !! tid) as [[]|] eqn:Ht; try done.
  pose proof (inv_on_world h (builds.project_id_for_build key.1.2) s Hi) as Hw.
  specialize (Hw ltac:(by apply query_keeps)).
  destruct (inv_tasks _ _ Hi _ _ Ht) as [Hd Hu].
  destruct (on_world _ s) as [[project|e] s']; simpl in *; [|by apply inv_end].
  apply inv_put; [done|]. by exists info, verified.
Qed.

(** An upsert leaves the other rows alone. *)
Lemma upsert_tx_rows path d b p w q row :
  w_narinfos (narinfo_cache.upsert_tx path d b p w).2 !! q = Some row →
  (q = path ∧ nr_info row = d) ∨ w_narinfos w !! q = Some row.
Proof.
  unfold narinfo_cache.upsert_tx. cbn zeta. case_match; [by right|]. simpl. intros Hq.
  assert (Hi : <[path := narinfo_cache.upsert_row (w_now w) (w_narinfos w !! path) d b p]>
                 (w_narinfos w) !! q = Some row) by (by destruct p).
  apply lookup_insert_Some in Hi as [[<- <-]|[_ Hi]]; [left|by right].
  split; [done|]. unfold narinfo_cache.upsert_row. by destruct (w_narinfos w !! _).
Qed.

Lemma upsert_rows path d b p w q row :
  w_narinfos (narinfo_cache.upsert path d b p w).2 !! q = Some row →
  (q = path ∧ nr_info row = d) ∨ w_narinfos w !! q = Some row.
Proof.
  unfold narinfo_cache.upsert, query. destruct (w_faults w) as [|[] faults].
  - apply upsert_tx_rows.
  - by right.
  - apply (upsert_tx_rows path d b p (set_w_faults faults w)).
Qed.

Lemma inv_persist h tid s : inv h s → inv h (notify_persist tid s).2.
Proof.
  intros Hi. unfold notify_persist. destruct (tasks s !! tid) as [[]|] eqn:Ht; try done.
  pose proof (inv_tasks _ _ Hi _ _ Ht) as Ha. simpl in Ha. unfold on_world.
  pose proof (upsert_rows key.2 row (Some key.1.2) project (world s)) as Hu.
  destruct (narinfo_cache.upsert _ _ _ _ _) as [r w'].
  assert (Hw : inv h (set_world w' s)).
  { destruct Hi as [Hup Htk Hr]. constructor; [done|done|]. simpl. intros p row0 Hp.
    destruct (Hu p row0 Hp) as [[-> ->]|Hold]; [|by apply Hr].
    right. by exists key. }
  destruct r as [[]|e]; simpl; [by apply inv_put|by apply inv_end].
Qed.

Lemma inv_notify_finish h tid s : inv h s → inv h (notify_finish tid s).
Proof.
  intros Hi. unfold notify_finish. destruct (tasks s !! tid) as [[]|] eqn:Ht; try done.
  apply inv_end, inv_set_uploads; [done|]. intros k e [_ Hk]%lookup_delete_Some.
  by apply (inv_uploads _ _ Hi).
Qed.

Lemma inv_fetch_drv h c m b s : inv h s → inv h (fetch_drv_closure c m b s).2.
Proof.
  intros Hi. unfold fetch_drv_closure. destruct (rbind _ _) as [build|]; [|done].
  pose proof (inv_on_world h (builds.get build) s Hi) as Hw.
  specialize (Hw ltac:(by apply not_found_keeps, query_keeps)).
  by destruct (on_world _ s) as [[]].
Qed.

Lemma inv_dispatch_end h tid s : inv h s → inv h (dispatch_end tid s).
Proof.
  intros Hi. unfold dispatch_end. destruct (tasks s !! tid) as [[]|] eqn:Ht; try done.
  apply inv_end, inv_set_uploads; [by destruct Hi|].
  intros k e [Hk _]%map_lookup_filter_Some. by apply (inv_uploads _ _ Hi).
Qed.

Lemma inv_step drops h s s' : s ∈ h → inv h s → step drops s s' → inv h s'.
Proof.
  intros Hs Hi Hst. destruct Hst; try (by destruct Hi).
  - by apply inv_register.
  - by apply inv_register_db.
  - by apply inv_register_finish.
  - by apply inv_close.
  - by apply inv_disconnect_db.
  - by apply inv_presign.
  - by apply inv_presign_db.
  - by apply inv_presign_finish.
  - by apply inv_notify.
  - by apply inv_verified.
  - by apply inv_project.
  - by apply inv_persist.
  - by apply inv_notify_finish.
  - by apply inv_fetch_drv.
  - unfold dispatch_begin. destruct (heap s !! l); [|done].
    apply inv_put; [by destruct Hi|done].
  - by apply inv_dispatch_end.
  - unfold session_heartbeat. apply inv_on_world; [|by apply query_keeps].
    destruct (pool_get m (pool s)); by destruct Hi.
  - by apply inv_set_world.
Qed.

Lemma inv_run drops s h : run drops (s :: h) → inv (s :: h) s.
Proof.
  remember (s :: h) as l eqn:El. intros Hrun. revert s h El.
  induction Hrun as [s0 H0|s1 s2 h' Hrun IH Hst]; intros s h E; simplify_eq.
  - destruct H0 as (_ & _ & Hu & _ & Ht). constructor.
    + intros k e. rewrite Hu. done.
    + intros t tk. rewrite Ht. done.
    + intros p r Hp. left. by exists s, r.
  - apply inv_mono. eapply inv_step; [|by eapply IH|done]. left.
Qed.

(** C8. Every narinfo the server persists is authorised.  Whatever the agents send and
    however the handlers interleave, a narinfo that was not there at the start was
    uploaded by a machine that, on a registered connection, was running the build the
    path is an output of; the runner has downloaded the object its URL names and decoded
    a NAR of exactly the recorded hash and size; the URL is the one that was presigned
    for the hash the agent declared; and a signature is the runner's own, over the
    recorded path, hash, size and references. *)
Theorem narinfo_authorised drops s h path r :
  run drops (s :: h) → w_narinfos (world s) !! path = Some r →
  let row := nr_info r in
  (∃ s0 r0, last (s :: h) = Some s0 ∧ w_narinfos (world s0) !! path = Some r0 ∧
     nr_info r0 = row) ∨
  ∃ machine build nar_hash p sv response d nar,
    was_active (s :: h) machine build ∧ is_output (s :: h) build path ∧
    presigner cfg = Some p ∧ ni_url row = object_path nar_hash ∧
    ni_compression row = upload_compression cfg ∧
    sv ∈ s :: h ∧ bucket sv (presign_get p (ni_url row)) = Ok response ∧
    decoder_of (ni_compression row) = Some d ∧ nar_of (reads (response d)) = Some nar ∧
    names nar_hash (sha256 nar) ∧ names (ni_nar_hash row) (sha256 nar) ∧
    ni_nar_size row = as_i64 (saturated (zlen nar)) ∧
    (∀ sig, ni_sig row = Some sig → ∃ sign, signing_key cfg = Some (Ok sign) ∧
       sig = sign (fingerprint path (ni_nar_hash row) (ni_nar_size row) (ni_references row))).
Proof.
  intros Hrun Hr row.
  destruct (inv_rows _ _ (inv_run _ _ _ Hrun) _ _ Hr) as [Hold|(k & <- & Ha)]; [by left|right].
  destruct Ha as (info & u & (e & (Hact & Hout & Hpath & Hcomp) & Hm & Hk) &
    (sv & p & Hsv & Hp & Hv) & Hrow).
  apply matches_presigned_true in Hm as (Hm1 & Hm2 & Hm3 & Hm4).
  apply verify_exact in Hv as (response & d & nar & Hb & Hd & Hn & Hlen & Hname & _ & _ &
    _ & Hname' & Hsize & _).
  exists k.1.1, k.1.2, (ui_nar_hash info), p, sv, response, d, nar. unfold row.
  rewrite Hrow. simpl in *. rewrite Hm1 in Hpath.
  split_and!; [done|done|done|congruence|congruence|done|done|done|done|done|done| |].
  - by rewrite Hsize, Hlen.
  - intros sig. unfold signature. destruct (signing_key cfg) as [[sign|]|]; [|done..].
    intros [= <-]. exists sign. split; [done|]. by rewrite Hk.
Qed.
End authorised.
