(* ===== verification/RpcAdmission.v ===== *)
(** * The agents the RPC server admits

    An agent of the pool has an open connection and was admitted by a registration of the run
    on that connection, which presented a configured token or an identity of the issuer and,
    where names are pinned, the name of its certificate ([pool_only_admitted]). *)

From S2P Require Import Prelude Types Float32 Base32 Codecs StorePath S3 Pool Db Builds Builders Dispatch Oidc UploadVerify Rpc.

#[local] Set Warnings "-clear-no-such-hyp".

(** ** Agents *)

Section admitted.
Context {codecs : Codecs} {hashes : Hasher} {server : Server}.

(** *** What a registration has to bring

    Independently of the checks: [info] is what the agent said, [peer] its certificate,
    [cache] the keys the runner held and [ans] what the issuer answered. *)

(** The digest of the token is configured. *)
Definition token_accepted (token : string) : Prop :=
  ∃ d, d ∈ token_hashes cfg ∧ hex_decode (trim d) = Ok (sha256 (as_bytes token)).

(** A key of the issuer: one the runner held, or one of the set just fetched. *)
Definition issuer_key (ans : Issuer) (cache : CacheState) (kid : string) (k : Jwk) : Prop :=
  keys cache !! kid = Some k ∨
  ∃ uri set, jwks ans uri = Ok set ∧ k ∈ set ∧ jwk_kid k = kid.

(** An optional allowlist: empty, or holding the claim. *)
Definition listed (claim : option string) (allowed : list string) : Prop :=
  allowed = [] ∨ ∃ x, claim = Some x ∧ x ∈ allowed.

(** The token is signed with a key of the issuer, for the issuer and the audiences of the
    configuration, and its claims are allowed. *)
Definition identity_accepted (ans : Issuer) (cache : CacheState) (token : string)
    (claims : GitHubClaims) : Prop :=
  ∃ v kid jwk key,
    oidc cfg = Some v ∧
    decode_header token = Ok {| h_rs256 := true; h_kid := Some kid |} ∧
    issuer_key ans cache kid jwk ∧ from_rsa_components (jwk_n jwk) (jwk_e jwk) = Ok key ∧
    jwt_decode token key {| val_issuer := issuer v; val_audience := audiences v |} = Ok claims ∧
    gc_repository claims ∈ allowed_repositories v ∧
    (allowed_subjects v = [] ∧ allowed_subject_prefixes v = [] ∨
     gc_sub claims ∈ allowed_subjects v ∨
     ∃ p rest, p ∈ allowed_subject_prefixes v ∧ gc_sub claims = p +:+ rest) ∧
    listed (gc_workflow_ref claims) (allowed_workflow_refs v) ∧
    listed (gc_ref_name claims) (allowed_refs v).

(** The credential in the agent's own registration, and what is recorded of it. *)
Definition authenticated (ans : Issuer) (cache : CacheState) (info : AgentInfo)
    (sp : AgentSpec) : Prop :=
  match auth_kind sp with
  | AuthKind.Token =>
      token_accepted (ai_auth_token info) ∧ ephemeral sp = ai_ephemeral info ∧
      oidc_repository sp = None ∧ oidc_subject sp = None
  | AuthKind.Oidc =>
      ephemeral sp = true ∧
      ∃ claims, identity_accepted ans cache (ai_auth_token info) claims ∧
        oidc_repository sp = Some (gc_repository claims) ∧
        oidc_subject sp = Some (gc_sub claims)
  end.

Definition pinned (peer : PeerCertIdentity) (sp : AgentSpec) : Prop :=
  pin_cn cfg = true → presented peer = true → cert_name peer = Some (name sp).

Definition capacity_in_range (sp : AgentSpec) : Prop :=
  systems sp ≠ [] ∧
  f32_is_finite (speed_factor sp) = true ∧ f32_le (speed_factor sp) f32_zero = false ∧
  cpu_count sp ≠ 0 ∧ max_jobs sp ≠ 0 ∧ max_jobs sp ≤ 670.

(** The agent is what it said. *)
Definition says (info : AgentInfo) (sp : AgentSpec) : Prop :=
  uuid_parse (ai_machine_id info) = Some (machine_id sp) ∧
  ai_proto_version info = PROTO_VERSION ∧ name sp = ai_name info ∧
  hostname sp = ai_hostname info ∧ speed_factor sp = ai_speed_factor info ∧
  cpu_count sp = ai_cpu_count info ∧ max_jobs sp = ai_max_jobs info.

Record admitted (ans : Issuer) (cache : CacheState) (peer : PeerCertIdentity)
    (info : AgentInfo) (sp : AgentSpec) : Prop := {
  adm_says : says info sp;
  adm_authenticated : authenticated ans cache info sp;
  adm_pinned : pinned peer sp;
  adm_capacity : capacity_in_range sp;
}.

(** The registration of [sp] over the connection [c] is one of the steps of the history
    [h] (the last state first), and it was in order. *)
Definition registered_in (h : list sys) (c : Z) (peer : PeerCertIdentity) (sp : AgentSpec) :
    Prop :=
  ∃ later s0 earlier tid now ans info,
    h = later ++ (register_begin c tid now ans info (connection_id sp) s0).2 :: s0 :: earlier ∧
    (register_begin c tid now ans info (connection_id sp) s0).1 = Ok () ∧
    peer_cert <$> conns s0 !! c = Some peer ∧
    admitted ans (jwks_cache s0) peer info sp.

Lemma match_token_spec allowed digest matched :
  matched = 0 ∨ matched = 1 →
  match_token allowed digest matched = 1 ↔
  matched = 1 ∨ ∃ d, d ∈ allowed ∧ hex_decode (trim d) = Ok digest.
Proof.
  revert matched. induction allowed as [|a allowed IH]; intros matched Hm; simpl.
  { split; [by left|]. intros [?|(d & Hd%elem_of_nil & _)]; done. }
  set (bit := match hex_decode (trim a) with Ok l => bool_decide (l = digest) | _ => false end).
  assert (Hbit : (if bit then True else False) ↔ hex_decode (trim a) = Ok digest).
  { unfold bit. destruct (hex_decode _); [|done]. case_bool_decide; subst; [done|].
    split; [done|congruence]. }
  match goal with |- match_token _ _ ?m = 1 ↔ _ => assert (Hnew : m = if bit then 1 else matched) end.
  { unfold bit. destruct (hex_decode (trim a)) as [l|]; [|done].
    case_bool_decide as E; [subst l; rewrite Nat.eqb_refl; by destruct Hm; subst|].
    destruct (Nat.eqb _ _); [|done]. by destruct Hm; subst. }
  rewrite Hnew, IH by (destruct bit; auto).
  setoid_rewrite elem_of_cons. destruct bit; naive_solver.
Qed.

(** A token is accepted exactly when one of the configured digests is its own. *)
Lemma verify_token_exact token :
  verify_token (token_hashes cfg) token = true ↔ token_accepted token.
Proof.
  unfold verify_token, token_accepted. destruct (token_hashes cfg) as [|a l] eqn:E.
  - split; [done|]. by intros (d & Hd%elem_of_nil & _).
  - rewrite Z.eqb_eq, match_token_spec by auto. naive_solver.
Qed.

Lemma one_of_elem v l : one_of v l = true ↔ v ∈ l.
Proof.
  unfold one_of. rewrite existsb_exists, list_elem_of_In.
  setoid_rewrite bool_decide_eq_true. naive_solver.
Qed.

Lemma is_nil_true {A} (l : list A) : is_nil l = true ↔ l = [].
Proof. by destruct l. Qed.

Lemma claim_allowed_spec x exact prefixes :
  claim_allowed x exact prefixes = true ↔
  exact = [] ∧ prefixes = [] ∨ x ∈ exact ∨ ∃ p rest, p ∈ prefixes ∧ x = p +:+ rest.
Proof.
  unfold claim_allowed. rewrite !orb_true_iff, andb_true_iff, !is_nil_true, one_of_elem,
    existsb_exists. setoid_rewrite <-list_elem_of_In. setoid_rewrite starts_with_true.
  naive_solver.
Qed.

Lemma optional_claim_allowed_spec x l : optional_claim_allowed x l = true ↔ listed x l.
Proof.
  unfold optional_claim_allowed, listed. rewrite orb_true_iff, is_nil_true.
  destruct x as [x|]; [rewrite one_of_elem|]; naive_solver.
Qed.

Lemma key_map_elem set kid k : key_map set !! kid = Some k → k ∈ set ∧ jwk_kid k = kid.
Proof.
  unfold key_map. assert (Hf : ∀ x, x ∈ List.filter rsa set → x ∈ set).
  { intros x. rewrite !list_elem_of_In, filter_In. tauto. }
  revert Hf. generalize (List.filter rsa set) as l.
  assert (Hgen : ∀ l (m : gmap string Jwk), (∀ x, x ∈ l → x ∈ set) →
    (∀ k, m !! kid = Some k → k ∈ set ∧ jwk_kid k = kid) →
    foldl (λ m k, <[jwk_kid k := k]> m) m l !! kid = Some k → k ∈ set ∧ jwk_kid k = kid).
  { induction l as [|a l IH]; simpl; intros m Hl Hm; [by apply Hm|].
    apply IH; [intros x ?; apply Hl; by right|]. intros x [[E <-]|[_ ?]]%lookup_insert_Some.
    - split; [apply Hl; left|done].
    - by apply Hm. }
  intros l Hl. apply Hgen; [done|]. intros x. by rewrite lookup_empty.
Qed.

Lemma refetch_kid_key v now ans kid c k c' :
  refetch_kid url_origin v now ans kid c = (Ok k, c') → issuer_key ans c kid k.
Proof.
  unfold refetch_kid, refresh. destruct (begin_refresh now c) as [go c0] eqn:Hb.
  assert (Hk0 : keys c0 = keys c) by (unfold begin_refresh in Hb; case_match; by simplify_eq).
  destruct go; simpl; cycle 1.
  { rewrite Hk0. destruct (keys c !! kid) eqn:E; [|done]. intros [= <- _]. by left. }
  destruct (resolve_jwks_uri url_origin v ans c0) as [[uri|e] c1]; [|done].
  destruct (jwks ans uri) as [set|e] eqn:Hset; [|done]. simpl.
  destruct (key_map set !! kid) eqn:E; [|done]. intros [= <- _]. right. exists uri, set.
  split; [done|]. by apply key_map_elem.
Qed.

Lemma jwk_for_kid_key v now ans kid c k c' :
  jwk_for_kid url_origin v now ans kid c = (Ok k, c') → issuer_key ans c kid k.
Proof.
  unfold jwk_for_kid. destruct (keys c !! kid) as [k0|] eqn:E; [|apply refetch_kid_key].
  destruct (negb _); [|apply refetch_kid_key]. intros [= <- _]. by left.
Qed.

Lemma verified_identity v now ans token c id c' :
  oidc cfg = Some v →
  Oidc.verify DecodingKey decode_header from_rsa_components jwt_decode url_origin
    v now ans token c = (Ok id, c') →
  ∃ claims, identity_accepted ans c token claims ∧
    vi_repository id = gc_repository claims ∧ vi_subject id = gc_sub claims.
Proof.
  intros Ho (kid & jwk & key & claims & Hh & Hj & Hk & Hd & Hc)%verify_ok.
  apply check_claims_ok in Hc as (-> & Hrepo%one_of_elem & Hsub%claim_allowed_spec &
    Hwf%optional_claim_allowed_spec & Hrefs%optional_claim_allowed_spec).
  exists claims. split; [|done]. exists v, kid, jwk, key. split_and!; try done.
  by eapply jwk_for_kid_key.
Qed.

Lemma capacity_ok sp :
  validate_agent_capacity (systems sp) (speed_factor sp) (cpu_count sp) (max_jobs sp) = Ok () →
  capacity_in_range sp.
Proof.
  unfold validate_agent_capacity, capacity_in_range, MAX_AGENT_MAX_JOBS. case_bool_decide; [done|].
  destruct (f32_is_finite _); [|done]. destruct (f32_le _ _); [done|]. simpl.
  repeat (case_match; [done|]). intros _. split_and!; done || lia.
Qed.

Lemma check_fields_ok peer info machine conn auth sp :
  check_fields cfg peer info machine conn auth = Ok sp →
  machine_id sp = machine ∧ connection_id sp = conn ∧ name sp = ai_name info ∧
  hostname sp = ai_hostname info ∧ speed_factor sp = ai_speed_factor info ∧
  cpu_count sp = ai_cpu_count info ∧ max_jobs sp = ai_max_jobs info ∧
  pinned peer sp ∧ auth_kind sp = auth.1 ∧
  oidc_repository sp = vi_repository <$> auth.2 ∧ oidc_subject sp = vi_subject <$> auth.2 ∧
  ephemeral sp = (ai_ephemeral info || match auth.1 with AuthKind.Oidc => true | _ => false end) ∧
  capacity_in_range sp.
Proof.
  unfold check_fields. intros E.
  destruct (check_pin cfg peer (ai_name info)) as [[]|] eqn:Hp; simpl in E; [|done].
  repeat (match type of E with rbind ?x _ = _ => destruct x eqn:? end; simpl in E; [|done]).
  repeat match goal with u : () |- _ => destruct u end.
  simplify_eq/=. split_and!; try done.
  - intros H1 H2. unfold check_pin in Hp. rewrite H1, H2 in Hp. simpl in *.
    destruct (cert_name peer) as [c|]; [|done]. by case_bool_decide; subst.
  - by apply capacity_ok.
Qed.

Lemma authenticate_ok now ans token c auth c' :
  authenticate now ans token c = (Ok auth, c') →
  (auth = (AuthKind.Token, None) ∧ token_accepted token) ∨
  ∃ id claims, auth = (AuthKind.Oidc, Some id) ∧ identity_accepted ans c token claims ∧
    vi_repository id = gc_repository claims ∧ vi_subject id = gc_sub claims.
Proof.
  unfold authenticate. destruct (verify_token _ _) eqn:Ht.
  { intros [= <- <-]. left. split; [done|]. by apply verify_token_exact. }
  destruct (oidc cfg) as [v|] eqn:Ho; [|done].
  destruct (Oidc.verify _ _ _ _ _ _ _ _ _ _) as [[id|] c2] eqn:Hv; [|done].
  intros [= <- <-]. right. destruct (verified_identity _ _ _ _ _ _ _ Ho Hv) as (claims & ?).
  by exists id, claims.
Qed.

Lemma check_registration_ok now ans peer info conn c sp c' :
  check_registration now ans peer info conn c = (Ok sp, c') →
  admitted ans c peer info sp ∧ connection_id sp = conn.
Proof.
  unfold check_registration. destruct (uuid_parse _) as [machine|] eqn:Hm; [|done].
  case_bool_decide as Hproto; [|done]. simpl.
  destruct (validate_text_len _ _ _ _); [|done].
  destruct (authenticate _ _ _ _) as [[auth|e] c1] eqn:Ha; simpl; [|done].
  intros [= Hf <-].
  apply check_fields_ok in Hf as (Hid & Hc & Hn & Hh & Hsf & Hcpu & Hmj & Hp & Hk & Hr & Hs & He & Hv).
  split; [|done]. split; [|clear Hid| done|done].
  { split_and!; try done. by rewrite Hid. }
  unfold authenticated. rewrite Hk, Hr, Hs, He.
  apply authenticate_ok in Ha as [[-> ?]|(id & claims & -> & Hi & Er & Es)]; simpl.
  - by rewrite orb_false_r.
  - split; [apply orb_true_r|]. exists claims. by rewrite Er, Es.
Qed.

(** *** The invariant *)

Definition slot_of (sp : AgentSpec) : RegisteredAgent :=
  {| ra_machine_id := machine_id sp; ra_connection_id := connection_id sp |}.

(** What a registration needs, fixed for the moment: the history supplies it below. *)
Section grounds.
Variable grounds : Z → PeerCertIdentity → AgentSpec → Prop.

(** The open connection [c] is registered as [sp], and rightly so. *)
Definition holds (s : sys) (c : Z) (sp : AgentSpec) : Prop :=
  ∃ k, conns s !! c = Some k ∧ registered k = Some (slot_of sp) ∧ grounds c (peer_cert k) sp.

(** A registration in progress. *)
Definition registering (s : sys) (t c : Z) (sp : AgentSpec) : Prop :=
  tasks s !! t = Some (TRegister c sp) ∨ tasks s !! t = Some (TInsert c sp).

Record admission (s : sys) : Prop := {
  ad_pool m l : pool s !! m = Some l →
    ∃ mt c, heap s !! l = Some mt ∧ machine_id (spec mt) = m ∧ holds s c (spec mt);
  ad_task t c sp : registering s t c sp →
    holds s c sp ∧ ∀ l mt, heap s !! l = Some mt → connection_id (spec mt) ≠ connection_id sp;
  ad_distinct t t' c c' sp sp' : registering s t c sp → registering s t' c' sp' →
    t ≠ t' → connection_id sp ≠ connection_id sp';
}.

(** What it depends on. *)
Lemma admission_frame s s' :
  admission s → pool s' = pool s → conns s' = conns s →
  (∀ l, spec <$> heap s' !! l = spec <$> heap s !! l) →
  (∀ t c sp, registering s' t c sp → registering s t c sp) → admission s'.
Proof.
  intros [Hp Ht Hd] Ep Ec Eh Er.
  assert (Hh : ∀ c sp, holds s c sp → holds s' c sp) by (unfold holds; by rewrite Ec).
  assert (Hback : ∀ l mt', heap s' !! l = Some mt' →
    ∃ mt, heap s !! l = Some mt ∧ spec mt' = spec mt).
  { intros l mt' Hl. specialize (Eh l). rewrite Hl in Eh. simpl in Eh.
    destruct (heap s !! l) as [mt|]; [|done]. injection Eh as ->. by exists mt. }
  constructor.
  - intros m l. rewrite Ep. intros (mt & c & Hl & Hm & Hc)%Hp.
    specialize (Eh l). rewrite Hl in Eh. destruct (heap s' !! l) as [mt'|] eqn:E; [|done].
    injection Eh as Es. exists mt', c. rewrite Es. eauto.
  - intros t c sp (Hc & Hu)%Er%Ht. split; [auto|]. intros l mt' (mt & Hl & ->)%Hback. eauto.
  - intros t t' c c' sp sp' ?%Er ?%Er. by eapply Hd.
Qed.

Lemma registering_put s tid tk t c sp :
  spec_of tk = None → registering (put_task tid tk s) t c sp → registering s t c sp.
Proof.
  unfold registering. simpl. rewrite !lookup_insert_Some.
  naive_solver.
Qed.

Lemma registering_end s tid t c sp :
  registering (end_task tid s) t c sp → registering s t c sp ∧ t ≠ tid.
Proof.
  unfold registering. simpl. rewrite !lookup_delete_Some. naive_solver.
Qed.

Lemma admission_put tid tk s :
  spec_of tk = None → admission s → admission (put_task tid tk s).
Proof.
  intros Hs Hi. apply (admission_frame s); [done..|]. eauto using registering_put.
Qed.

Lemma admission_end tid s : admission s → admission (end_task tid s).
Proof.
  intros Hi. apply (admission_frame s); [done..|]. intros t c sp Hr.
  by eapply registering_end.
Qed.

(** Setters of the parts it does not depend on. *)
Lemma admission_same s s' :
  admission s → pool s' = pool s → conns s' = conns s → heap s' = heap s →
  tasks s' = tasks s → admission s'.
Proof.
  intros Hi Hp Hc Hh Ht. apply (admission_frame s); [done|done|done| |].
  - intros l. by rewrite Hh.
  - intros t c sp. unfold registering. by rewrite Ht.
Qed.

Lemma admission_on_world {A} (m : M A) s : admission s → admission (on_world m s).2.
Proof.
  intros Hi. unfold on_world. destruct (m (world s)). by apply (admission_same s).
Qed.

Lemma admission_heap h s :
  admission s → (∀ l, spec <$> h !! l = spec <$> heap s !! l) → admission (set_heap h s).
Proof. intros Hi Hh. by apply (admission_frame s). Qed.

(** *** Steps that matter *)

Lemma admission_open c peer s :
  conns s !! c = None → admission s →
  admission (set_conns (<[c := {| peer_cert := peer; registered := None |}]> (conns s)) s).
Proof.
  intros Hn [Hp Ht Hd].
  assert (Hh : ∀ c' sp, holds s c' sp → holds (set_conns
    (<[c := {| peer_cert := peer; registered := None |}]> (conns s)) s) c' sp).
  { intros c' sp (k & Hk & ?). exists k. split; [|done]. simpl.
    by rewrite lookup_insert_ne by congruence. }
  constructor; [|naive_solver|done].
  intros m l (mt & c' & ? & ? & ?)%Hp. exists mt, c'. eauto.
Qed.

(** Registering changes one slot, which was empty. *)
Lemma holds_slot s c c' r sp k :
  conns s !! c = Some k → registered k ≠ Some (slot_of sp) → holds s c' sp →
  holds (set_slot c r s) c' sp.
Proof.
  intros Hc Hk (k' & Hk' & Hr & Ha). exists k'. split; [|done]. simpl.
  rewrite lookup_alter_ne; [done|]. congruence.
Qed.

Lemma admission_register c tid now ans info conn s :
  tasks s !! tid = None → unused_id conn s →
  (∀ k sp, conns s !! c = Some k → connection_id sp = conn →
     (register_begin c tid now ans info conn s).1 = Ok () →
     admitted ans (jwks_cache s) (peer_cert k) info sp → grounds c (peer_cert k) sp) →
  admission s → admission (register_begin c tid now ans info conn s).2.
Proof.
  intros Hfresh [Hu1 Hu2] Hgr Hi. unfold register_begin in *.
  destruct (conns s !! c) as [k|] eqn:Hc; [|done].
  destruct (check_registration _ _ _ _ _ _) as [[sp|e] cache] eqn:Hr; simpl;
    [|by apply (admission_same s)].
  apply check_registration_ok in Hr as [Ha Hconn].
  destruct (registered k) as [r|] eqn:Hk; simpl; [by apply (admission_same s)|].
  specialize (Hgr k sp eq_refl Hconn eq_refl Ha).
  set (s1 := set_jwks_cache cache s). set (slot := Some _).
  assert (Hother : ∀ c' sp', holds s c' sp' → holds (set_slot c slot s1) c' sp').
  { intros c' sp' Hh. apply (holds_slot s1 c c' slot sp' k); [done|congruence|done]. }
  assert (Hnew : holds (set_slot c slot s1) c sp).
  { eexists. split; [simpl; apply lookup_alter_Some; left; split; [done|]; by exists k|].
    simpl. unfold slot, slot_of. by rewrite Hconn. }
  assert (Hreg : ∀ t c' sp', registering (put_task tid (TRegister c sp) (set_slot c slot s1)) t c' sp' →
    (t = tid ∧ c' = c ∧ sp' = sp) ∨ (t ≠ tid ∧ registering s t c' sp')).
  { unfold registering. simpl. intros t c' sp'. rewrite !lookup_insert_Some. naive_solver. }
  destruct Hi as [Hp Ht Hd]. constructor.
  - intros m l (mt & c' & ? & ? & Hh)%Hp. exists mt, c'.
    split_and!; [done|done|exact (Hother _ _ Hh)].
  - intros t c' sp' [(-> & -> & ->)|[_ Hold]]%Hreg.
    + split; [exact Hnew|]. rewrite Hconn. apply Hu1.
    + destruct (Ht _ _ _ Hold) as [Hh ?]. split; [exact (Hother _ _ Hh)|done].
  - assert (Hne : ∀ t c' sp', registering s t c' sp' → connection_id sp' ≠ conn).
    { intros t c' sp' [Hx|Hx]; by eapply Hu2. }
    intros t t' c1 c2 sp1 sp2 [(-> & -> & ->)|[? ?]]%Hreg [(-> & -> & ->)|[? ?]]%Hreg Hne';
      [done|rewrite Hconn; symmetry; eauto|rewrite Hconn; eauto|eauto].
Qed.

Lemma admission_register_db tid s : admission s → admission (register_db tid s).
Proof.
  intros Hi. unfold register_db. destruct (tasks s !! tid) as [[]|] eqn:Ht; try done.
  pose proof (admission_on_world (builder_sessions.register (session_row sp)) s Hi) as Hw.
  unfold on_world in *. destruct (builder_sessions.register _ _) as [[[]|e] w]; simpl in Hw.
  - apply (admission_frame _ _ Hw); [done..|]. intros t c' sp'. unfold registering. simpl.
    rewrite !lookup_insert_Some. naive_solver.
  - destruct (ad_task _ Hi tid c sp) as [(k & Hk & Hr & Ha) Hun]; [by left|].
    assert (Hother : ∀ c' sp', connection_id sp' ≠ connection_id sp → holds s c' sp' →
      holds (set_slot c None (set_world w s)) c' sp').
    { intros c' sp' Hne Hh. apply (holds_slot _ c c' None sp' k); [done| |done].
      rewrite Hr. unfold slot_of. congruence. }
    constructor.
    + intros m l (mt & c' & Hl & Hm & Hh)%(ad_pool _ Hi). exists mt, c'. split_and!; [done..|].
      apply Hother; [by apply (Hun l)|done].
    + intros t c' sp' [Hreg Hne]%registering_end.
      assert (Hold : registering s t c' sp') by exact Hreg.
      destruct (ad_task _ Hi _ _ _ Hold) as [Hh ?]. split; [|done].
      apply Hother; [|done]. by apply (ad_distinct _ Hi t tid c' c); [| left|].
    + intros t t' c1 c2 sp1 sp2 [? _]%registering_end [? _]%registering_end.
      by apply (ad_distinct _ Hi t t' c1 c2).
Qed.

Lemma admission_register_finish tid l now s :
  heap s !! l = None → admission s → admission (register_finish tid l now s).
Proof.
  intros Hl Hi. unfold register_finish. destruct (tasks s !! tid) as [[]|] eqn:Ht; try done.
  unfold pool_insert. simpl. rewrite lookup_insert_eq. simpl.
  assert (Hreg : registering s tid c sp) by by right.
  destruct (ad_task _ Hi _ _ _ Hreg) as [Hh Hun]. constructor; simpl.
  - intros m l'. rewrite lookup_insert_Some. intros [[<- <-]|[_ Hp]].
    + exists (AgentMeta_new sp now), c. by rewrite lookup_insert_eq.
    + destruct (ad_pool _ Hi m l' Hp) as (mt & c' & Hm & ? & ?). exists mt, c'.
      rewrite lookup_insert_ne by congruence. done.
  - intros t c' sp' [Hr Hne]%registering_end.
    destruct (ad_task _ Hi _ _ _ Hr) as [Hh' Hun']. split; [done|].
    intros l' mt. rewrite lookup_insert_Some. intros [[<- <-]|[_ Hm]]; [|by eapply Hun'].
    by apply (ad_distinct _ Hi tid t c c').
  - intros t t' c1 c2 sp1 sp2 [? _]%registering_end [? _]%registering_end.
    by apply (ad_distinct _ Hi t t' c1 c2).
Qed.

(** The cleanup removes the entry of the closed connection, if it has one. *)
Lemma remove_if_connection_spec s r m l :
  (pool_remove_if_connection (heap s) (ra_machine_id r) (ra_connection_id r)
     (pool s)).2 !! m = Some l →
  pool s !! m = Some l ∧
  (∀ mt, heap s !! l = Some mt → machine_id (spec mt) = m → slot_of (spec mt) ≠ r).
Proof.
  unfold pool_remove_if_connection. intros Hp. destruct r as [rm rc]. simpl in *.
  destruct (pool s !! rm) as [l0|] eqn:Hl0; cycle 1.
  { split; [done|]. intros mt Hl Hm [= <- _]. simpl in *. congruence. }
  destruct (heap s !! l0) as [m0|] eqn:Hm0; cycle 1.
  { split; [done|]. intros mt Hl Hm [= <- _]. simpl in *. congruence. }
  destruct (Z.eqb_spec (connection_id (spec m0)) rc) as [Hc|Hc]; simpl in Hp.
  - apply lookup_delete_Some in Hp as [Hne Hp]. split; [done|].
    intros mt Hl Hm [= <- _]. simpl in *. congruence.
  - split; [done|]. intros mt Hl Hm [= <- <-]. simpl in *. congruence.
Qed.

Lemma holds_delete s c c' sp k :
  conns s !! c = Some k → registered k ≠ Some (slot_of sp) → holds s c' sp →
  holds (set_conns (base.delete c (conns s)) s) c' sp.
Proof.
  intros Hc Hk (k' & Hk' & Hr & Ha). exists k'. split; [|done]. simpl.
  rewrite lookup_delete_ne; [done|]. congruence.
Qed.

Lemma registering_drop s c t c' sp :
  registering (drop_handlers true c (set_conns (base.delete c (conns s)) s)) t c' sp →
  registering s t c' sp ∧ c' ≠ c.
Proof.
  unfold registering. simpl. rewrite !map_lookup_filter_Some. simpl. naive_solver.
Qed.

Lemma admission_close c tid s : admission s → admission (close true c tid s).
Proof.
  intros Hi. unfold close. destruct (conns s !! c) as [k|] eqn:Hc; [|done].
  set (s0 := drop_handlers true c (set_conns (base.delete c (conns s)) s)).
  assert (Hgen : ∀ p, (∀ m l, p !! m = Some l → pool s !! m = Some l ∧
      ∀ mt, heap s !! l = Some mt → machine_id (spec mt) = m →
        registered k ≠ Some (slot_of (spec mt))) →
    admission (set_pool p s0)).
  { intros p Hp. constructor; simpl.
    - intros m l [Hl Hne]%Hp. destruct (ad_pool _ Hi m l Hl) as (mt & c' & Hm & Hid & Hh).
      exists mt, c'. split_and!; [done|done|].
      exact (holds_delete s c c' _ k Hc (Hne mt Hm Hid) Hh).
    - intros t c' sp [Hr Hne]%registering_drop.
      destruct (ad_task _ Hi _ _ _ Hr) as [(k' & Hk' & ?) Hun]. split; [|done].
      exists k'. simpl. by rewrite lookup_delete_ne by congruence.
    - intros t t' c1 c2 sp1 sp2 [? _]%registering_drop [? _]%registering_drop.
      by apply (ad_distinct _ Hi t t' c1 c2). }
  destruct (registered k) as [r|] eqn:Hk.
  - pose proof (remove_if_connection_spec s r) as Hrem.
    change (heap s0) with (heap s). change (pool s0) with (pool s).
    destruct (pool_remove_if_connection _ _ _ _) as [[l|] p]; simpl in Hrem;
      [apply admission_put; [done|]|]; apply Hgen; intros m l' Hl;
      (destruct (Hrem m l' Hl) as [? Hs]; split; [done|]; intros mt ? ? [= E]; by apply (Hs mt)).
  - apply (admission_same (set_pool (pool s) s0)); [|done..]. by apply Hgen.
Qed.

Lemma spec_alter (f : AgentMeta → AgentMeta) l l' (h : Heap) :
  (∀ m, spec (f m) = spec m) → spec <$> alter f l h !! l' = spec <$> h !! l'.
Proof.
  intros Hf. rewrite lookup_alter. case_decide; [|done]. subst.
  destruct (h !! l'); simpl; [by rewrite Hf|done].
Qed.

Lemma spec_insert l l' m m' (h : Heap) :
  h !! l = Some m → spec m' = spec m → spec <$> <[l := m']> h !! l' = spec <$> h !! l'.
Proof.
  intros Hl Hs. rewrite lookup_insert. case_decide; [|done]. subst. rewrite Hl. simpl.
  by rewrite Hs.
Qed.

(** The handlers of a call only suspend, go on and end. *)
Lemma admission_presign c tid m b reqs s :
  admission s → admission (presign_begin c tid m b reqs s).2.
Proof.
  intros Hi. unfold presign_begin. destruct (rbind _ _) as [t|] eqn:E; simpl; [|done].
  apply admission_put; [|done].
  repeat (match type of E with
    | rbind ?x _ = _ => destruct x
    | (if ?x then _ else _) = _ => destruct x
    end; simpl in E; try done). by simplify_eq.
Qed.

Lemma admission_notify c tid m b info s :
  admission s → admission (notify_begin c tid m b info s).2.
Proof.
  intros Hi. unfold notify_begin. destruct (rbind _ _) as [t|] eqn:E; simpl; [|done].
  apply admission_put; [|done].
  repeat (match type of E with
    | rbind ?x _ = _ => destruct x
    | (if ?x then _ else _) = _ => destruct x
    | match ?x with _ => _ end = _ => destruct x
    end; simpl in E; try done). by simplify_eq.
Qed.

Lemma admission_presign_db tid s : admission s → admission (presign_db tid s).2.
Proof.
  intros Hi. unfold presign_db. destruct (tasks s !! tid) as [[]|]; try done.
  pose proof (admission_on_world (builds.get build) s Hi) as Hw.
  destruct (on_world _ s) as [[b|e] s']; [by apply admission_put|by apply admission_end].
Qed.

Lemma admission_presign_finish tid s : admission s → admission (presign_finish tid s).2.
Proof.
  intros Hi. unfold presign_finish. destruct (tasks s !! tid) as [[]|]; try done.
  pose proof (admission_end tid s Hi) as He.
  destruct (drv_outputs drv_path) as [[|o outs]|]; [done| |done].
  destruct (presign_all _ _ _ _ _) as [rs t]. by apply (admission_same _ _ He).
Qed.

Lemma admission_notify_steps tid s :
  admission s →
  admission (notify_verified tid s).2 ∧ admission (notify_project tid s).2 ∧
  admission (notify_persist tid s).2 ∧ admission (notify_finish tid s).
Proof.
  intros Hi. unfold notify_verified, notify_project, notify_persist, notify_finish.
  destruct (tasks s !! tid) as [[]|]; try done; split_and!; try done.
  - destruct (UploadVerify.verify _ _); [by apply admission_put|by apply admission_end].
  - pose proof (admission_on_world (builds.project_id_for_build key.1.2) s Hi) as Hw.
    destruct (on_world _ s) as [[b|e] s']; [by apply admission_put|by apply admission_end].
  - pose proof (admission_on_world
      (narinfo_cache.upsert key.2 row (Some key.1.2) project) s Hi) as Hw.
    destruct (on_world _ s) as [[b|e] s']; [by apply admission_put|by apply admission_end].
  - apply admission_end. by apply (admission_same s).
Qed.

Lemma admission_dispatch tid l b s :
  admission s → admission (dispatch_begin tid l b s) ∧ admission (dispatch_end tid s).
Proof.
  intros Hi. split.
  - unfold dispatch_begin. destruct (heap s !! l) as [m|] eqn:Hl; [|done].
    apply admission_put; [done|]. apply admission_heap; [done|]. intros l'.
    by apply (spec_insert l l' m).
  - unfold dispatch_end. destruct (tasks s !! tid) as [[]|]; try done.
    apply admission_end. eapply (admission_same (set_heap _ s)); [|done..].
    apply admission_heap; [done|]. intros l'. by apply spec_alter.
Qed.

Lemma admission_heartbeat m p s : admission s → admission (session_heartbeat m p s).
Proof.
  intros Hi. unfold session_heartbeat. apply admission_on_world.
  destruct (pool_get m (pool s)) as [l|]; [|done].
  apply admission_heap; [done|]. intros l'. by apply spec_alter.
Qed.

Lemma admission_step s s' :
  (∀ c tid now ans info conn k sp, s' = (register_begin c tid now ans info conn s).2 →
     (register_begin c tid now ans info conn s).1 = Ok () →
     conns s !! c = Some k → connection_id sp = conn →
     admitted ans (jwks_cache s) (peer_cert k) info sp → grounds c (peer_cert k) sp) →
  admission s → step true s s' → admission s'.
Proof.
  intros Hgr Hi Hst. destruct Hst.
  - by apply admission_open.
  - apply admission_register; [done|done| |done]. intros k sp ? ? ?. by eapply Hgr.
  - by apply admission_register_db.
  - by apply admission_register_finish.
  - by apply admission_close.
  - unfold disconnect_db. destruct (tasks s !! tid) as [[]|]; try done.
    by apply admission_end, admission_on_world.
  - by apply admission_presign.
  - by apply admission_presign_db.
  - by apply admission_presign_finish.
  - by apply admission_notify.
  - by apply admission_notify_steps.
  - by apply admission_notify_steps.
  - by apply admission_notify_steps.
  - by apply admission_notify_steps.
  - unfold fetch_drv_closure. destruct (rbind _ _) as [build|]; [|done].
    pose proof (admission_on_world (builds.get build) s Hi) as Hw.
    by destruct (on_world _ s) as [[]].
  - by apply admission_dispatch.
  - by apply (admission_dispatch tid xH 0).
  - by apply admission_heartbeat.
  - unfold try_acquire_slot in *. destruct (heap s !! l) as [m|] eqn:Hl; simpl in *; [|done].
    case_match; simplify_eq. apply admission_heap; [done|]. intros l'.
    by apply (spec_insert l l' m).
  - apply admission_heap; [done|]. intros l'. by apply spec_alter.
  - by apply (admission_same s).
  - by apply (admission_same s).
Qed.

Lemma admission_initial s : initial s → admission s.
Proof.
  intros (Hh & Hp & _ & _ & Ht). unfold registering. constructor.
  - intros m l. by rewrite Hp.
  - unfold registering. intros t c sp. rewrite Ht. by intros [|].
  - unfold registering. intros t t' c c' sp sp'. rewrite Ht. by intros [|].
Qed.

End grounds.

Lemma admission_mono (P Q : Z → PeerCertIdentity → AgentSpec → Prop) s :
  (∀ c peer sp, P c peer sp → Q c peer sp) → admission P s → admission Q s.
Proof.
  intros HPQ [Hp Ht Hd].
  assert (Hh : ∀ c sp, holds P s c sp → holds Q s c sp).
  { intros c sp (k & ? & ? & ?). exists k. auto. }
  constructor; [|naive_solver|done]. intros m l (mt & c & ? & ? & ?)%Hp. exists mt, c. auto.
Qed.

Lemma registered_in_cons s h c peer sp :
  registered_in h c peer sp → registered_in (s :: h) c peer sp.
Proof.
  intros (later & s0 & earlier & tid & now & ans & info & -> & H).
  by exists (s :: later), s0, earlier, tid, now, ans, info.
Qed.

(** Every state of a run is in order by the registrations of its history. *)
Lemma admission_run h s : run true (s :: h) → admission (registered_in (s :: h)) s.
Proof.
  intros Hrun. remember (s :: h) as l eqn:El. revert s h El.
  induction Hrun as [s0 H0|s1 s2 h' Hrun IH Hst]; intros s h E; simplify_eq.
  - by apply admission_initial.
  - eapply admission_step; [|eapply admission_mono; [|by eapply IH]|done].
    + intros c tid now ans info conn k sp -> Hok Hk <- Ha.
      exists [], s1, h', tid, now, ans, info. split_and!; try done. by rewrite Hk.
    + intros c peer sp. apply registered_in_cons.
Qed.

(** C9. The pool holds admitted agents only.  In every state of a run, whatever the
    interleaving of registrations, reconnections and disconnections, an agent of the pool
    belongs to an open connection that is registered as exactly this agent, and the
    registration is a step of the run in which the agent, over this connection and with
    this certificate, said who it is and what it can do, and brought its own credential:
    a token whose digest is configured, or a token that a key of the issuer signed for
    the configured issuer and audiences with allowed claims, in which case it is
    ephemeral and bears the identity of the token.  Its name is the one of its
    certificate where names are pinned, and its capacity is in range.  (The RPC library
    drops the calls of a closed connection.) *)
Theorem pool_only_admitted s h machine l :
  run true (s :: h) → pool s !! machine = Some l →
  ∃ m c k, heap s !! l = Some m ∧ machine_id (spec m) = machine ∧
    conns s !! c = Some k ∧ registered k = Some (slot_of (spec m)) ∧
    registered_in (s :: h) c (peer_cert k) (spec m).
Proof.
  intros Hr Hp. destruct (ad_pool _ _ (admission_run _ _ Hr) _ _ Hp) as
    (m & c & Hm & Hid & k & Hk & Hreg & Hauth). by exists m, c, k.
Qed.
End admitted.
