(* ===== verification/RpcRaces.v ===== *)
(** * Runs of the RPC server

    Concrete runs of [Rpc]: two interleavings after which the database and the pool
    disagree about an agent ([session_flag_diverges]), one in which an upload is
    authorised after its build has ended ([grant_outlives_build]), and the runs that
    witness the guarantees of [RpcUploads] and [RpcAdmission]. *)

From S2P Require Import Prelude Types Float32 Base32 Codecs StorePath S3 Pool Db Builds Lifecycle Builders Dispatch Oidc UploadVerify Rpc RpcUploads RpcAdmission.

#[local] Existing Instance hasher_ref.

(** ** A server *)

Definition OUT : string := "/nix/store/0-out".

Definition example_presigner : Presigner :=
  {| ps_credentials := {| access_key := "k"; secret_key := "s"; session_token := None |};
     ps_region := "eu"; ps_bucket := "cache"; ps_prefix := None; ps_endpoint_url := None;
     ps_use_path_style := true |}.

(** The token is [t]. *)
Definition example_config : ServerConfig :=
  {| token_hashes := [hex_encode (sha256 (as_bytes "t"))]; pin_cn := true;
     presigner := Some example_presigner; upload_compression := "zstd";
     signing_key := Some (Ok (λ fp, "key:" +:+ fp)); oidc := None |}.

Definition example_server : Server :=
  {| uuid_parse := λ t, match_str t [("7", 7); ("10", 10)];
     DecodingKey := (); decode_header := λ _, Err "";
     from_rsa_components := λ _ _, Err ""; jwt_decode := λ _ _ _, Err "";
     url_origin := λ _, None; presign_put := λ _ k, "put:" +:+ k;
     presign_get := λ _ k, "get:" +:+ k; drv_outputs := λ _, Ok [OUT];
     cfg := example_config |}.

#[local] Existing Instance example_server.

Definition example_agent : AgentInfo :=
  {| ai_machine_id := "7"; ai_name := "a"; ai_hostname := "a.example";
     ai_proto_version := PROTO_VERSION; ai_auth_token := "t";
     ai_systems := ["x86_64-linux"]; ai_supported_features := [];
     ai_mandatory_features := []; ai_speed_factor := speed_factor Slots.example_spec;
     ai_cpu_count := 4; ai_max_jobs := 2; ai_ephemeral := false |}.

Definition example_peer : PeerCertIdentity := {| presented := true; cert_name := Some "a" |}.

(** The object store holds a three-byte NAR. *)
Definition start : sys :=
  {| world := example_world; heap := ∅; pool := ∅; uploads := ∅; conns := ∅; tasks := ∅;
     jwks_cache := empty_cache;
     bucket := λ _, Ok (λ _, {| raw := [[9]]; reads := [Ok [1; 2]; Ok [3]; Ok []] |}) |}.

Definition no_issuer : Issuer :=
  {| discovery := Err ""; jwks := λ _, Err ""; answered_at := 0 |}.

(** ** Steps by evaluation *)

Definition unused_idb (conn : Uuid) (s : sys) : bool :=
  forallb (λ lm, negb (connection_id (spec lm.2) =? conn)) (map_to_list (heap s)) &&
  forallb (λ tt, match spec_of tt.2 with
                 | Some sp => negb (connection_id sp =? conn)
                 | None => true
                 end) (map_to_list (tasks s)).

Lemma unused_idb_ok conn s : unused_idb conn s = true → unused_id conn s.
Proof.
  unfold unused_idb. rewrite andb_true_iff, !forallb_forall. intros [Hh Ht]. split.
  - intros l m Hl%elem_of_map_to_list%list_elem_of_In%Hh. simpl in Hl.
    by apply negb_true_iff, Z.eqb_neq in Hl.
  - intros t tk sp Htk%elem_of_map_to_list%list_elem_of_In%Ht Hs. simpl in Htk.
    rewrite Hs in Htk. by apply negb_true_iff, Z.eqb_neq in Htk.
Qed.

Lemma reach s s' : reachable_sys true s → step true s s' → reachable_sys true s'.
Proof. intros [h Hr] Hs. exists (s :: h). by apply run_step. Qed.

Definition connect (c : Z) (s : sys) : sys :=
  set_conns (<[c := {| peer_cert := example_peer; registered := None |}]> (conns s)) s.

Definition register (c tid : Z) (conn : Uuid) (s : sys) : sys :=
  (register_begin c tid 0 no_issuer example_agent conn s).2.

Ltac decide_it := vm_compute; reflexivity.

Lemma start_reachable : reachable_sys true start.
Proof. exists []. apply run_initial. by split_and!. Qed.

Lemma connect_reachable c s :
  conns s !! c = None → reachable_sys true s → reachable_sys true (connect c s).
Proof. intros Hc Hr. exact (reach _ _ Hr (st_open true s c example_peer Hc)). Qed.

Lemma register_reachable c tid conn s :
  tasks s !! tid = None → unused_idb conn s = true → reachable_sys true s →
  reachable_sys true (register c tid conn s).
Proof.
  intros Ht Hu%unused_idb_ok Hr.
  exact (reach _ _ Hr (st_register true s c tid 0 no_issuer example_agent conn Ht Hu)).
Qed.

(** *** A registered agent *)

Definition r1 : sys := register 1 100 71 (connect 1 start).
Definition r2 : sys := register_db 100 r1.
Definition r3 : sys := register_finish 100 1%positive 0 r2.

Lemma r1_reachable : reachable_sys true r1.
Proof.
  apply register_reachable; [decide_it|decide_it|].
  apply connect_reachable; [decide_it|apply start_reachable].
Qed.

Lemma r2_reachable : reachable_sys true r2.
Proof. exact (reach _ _ r1_reachable (st_register_db true r1 100)). Qed.

Lemma r3_reachable : reachable_sys true r3.
Proof.
  refine (reach _ _ r2_reachable (st_register_finish true r2 100 1%positive 0 _)). decide_it.
Qed.

(** *** A reconnection

    The connection is lost; before its cleanup has reached the database the agent is
    back, and its new registration overtakes the cleanup. *)

Definition c1 : sys := close true 1 101 r3.
Definition c2 : sys := register_db 102 (register 2 102 72 (connect 2 c1)).
Definition c3 : sys := disconnect_db 101 c2.
Definition c4 : sys := register_finish 102 2%positive 0 c3.

Lemma c4_reachable : reachable_sys true c4.
Proof.
  refine (reach _ _ _ (st_register_finish true c3 102 2%positive 0 _)); [|decide_it].
  refine (reach _ _ _ (st_disconnect_db true c2 101)).
  refine (reach _ _ _ (st_register_db true _ 102)).
  apply register_reachable; [decide_it|decide_it|]. apply connect_reachable; [decide_it|].
  refine (reach _ _ r3_reachable (st_close true r3 1 101 _)). decide_it.
Qed.

(** *** An interrupted registration

    The connection is lost between the session row and the pool. *)

Definition i1 : sys := close true 1 101 r2.

Lemma i1_reachable : reachable_sys true i1.
Proof. refine (reach _ _ r2_reachable (st_close true r2 1 101 _)). decide_it. Qed.

Definition connected (machine : Uuid) (s : sys) : option bool :=
  bs_connected <$> w_sessions (world s) !! machine.

(** The session row and the pool can disagree for good.  After a reconnection whose
    registration overtakes the cleanup of the lost connection, the agent is in the pool,
    connected and idle, and its row says it is not connected; after a registration that
    is interrupted between its two halves, no agent and no connection is left and the row
    says it is connected.  No handler is pending in either state and no query failed. *)
Theorem session_flag_diverges :
  (∃ s, reachable_sys true s ∧ tasks s = ∅ ∧ w_faults (world s) = [] ∧
     (∃ l m c k, pool s !! 7 = Some l ∧ heap s !! l = Some m ∧ conns s !! c = Some k ∧
        registered k = Some (slot_of (spec m))) ∧
     connected 7 s = Some false) ∧
  (∃ s, reachable_sys true s ∧ tasks s = ∅ ∧ w_faults (world s) = [] ∧
     pool s = ∅ ∧ conns s = ∅ ∧ connected 7 s = Some true).
Proof.
  split.
  - exists c4. split; [apply c4_reachable|]. split; [decide_it|]. split; [decide_it|].
    split; [|decide_it]. eexists 2%positive, _, 2, _.
    split; [decide_it|]. split; [decide_it|]. split; decide_it.
  - exists i1. split; [apply i1_reachable|]. split_and!; decide_it.
Qed.

(** ** An upload after the end of the build *)

Definition example_nar_hash : string := "sha256:" +:+ hex_encode (sha256 [1; 2; 3]).

Definition example_url_request : UrlRequest :=
  {| ur_store_path := OUT; ur_nar_hash := example_nar_hash; ur_nar_size := 3 |}.

(** Build 10 is assigned, the agent asks for a URL, and the build ends while the outputs
    of its derivation are looked up. *)
Definition u1 : sys := dispatch_begin 103 1%positive 10 r3.
Definition u2 : sys := (presign_begin 1 104 "7" "10" [example_url_request] u1).2.
Definition u3 : sys := dispatch_end 103 (presign_db 104 u2).2.
Definition u4 : sys := (presign_finish 104 u3).2.

Lemma u2_reachable : reachable_sys true u2.
Proof.
  refine (reach _ _ _ (st_presign true u1 1 104 "7" "10" [example_url_request] _));
    [|decide_it].
  refine (reach _ _ r3_reachable (st_dispatch true r3 103 1%positive 10 _)). decide_it.
Qed.

Lemma u4_reachable : reachable_sys true u4.
Proof.
  refine (reach _ _ _ (st_presign_finish true u3 104)).
  refine (reach _ _ _ (st_dispatch_end true _ 103)).
  exact (reach _ _ u2_reachable (st_presign_db true u2 104)).
Qed.

Definition example_upload_info : UploadInfo :=
  {| ui_store_path := OUT; ui_nar_hash := example_nar_hash; ui_nar_size := 3;
     ui_file_hash := ""; ui_file_size := 0; ui_compression := "zstd";
     ui_url := object_path example_nar_hash; ui_deriver := ""; ui_references := [OUT];
     ui_ca := "" |}.

Definition n1 : sys := (notify_begin 1 105 "7" "10" example_upload_info u4).2.
Definition n2 : sys := (notify_project 105 (notify_verified 105 n1).2).2.
Definition n3 : sys := notify_finish 105 (notify_persist 105 n2).2.

Lemma n3_reachable : reachable_sys true n3.
Proof.
  refine (reach _ _ _ (st_notify_finish true _ 105)).
  refine (reach _ _ _ (st_persist true n2 105)).
  refine (reach _ _ _ (st_project true _ 105)).
  refine (reach _ _ _ (st_verified true n1 105)).
  refine (reach _ _ u4_reachable
    (st_notify true u4 1 105 "7" "10" example_upload_info _)). decide_it.
Qed.

(** An upload can be authorised after its build has ended: the table is cleared when
    the build ends, but a request that was let in before and is still looking up the
    outputs adds its entry afterwards.  Nothing clears it then, no build is active on any
    agent, and a later notification is accepted and persists the narinfo. *)
Theorem grant_outlives_build :
  ∃ s s', reachable_sys true s ∧ tasks s = ∅ ∧
    active_builds <$> heap s = {[1%positive := ∅]} ∧
    is_Some (uploads s !! (7, 10, OUT)) ∧ w_narinfos (world s) = ∅ ∧
    rtc (step true) s s' ∧ tasks s' = ∅ ∧ is_Some (w_narinfos (world s') !! OUT).
Proof.
  exists u4, n3. split; [apply u4_reachable|]. split; [decide_it|]. split; [decide_it|].
  split; [eexists; decide_it|]. split; [decide_it|]. split; [|split; [decide_it|eexists; decide_it]].
  eapply rtc_l; [refine (st_notify true u4 1 105 "7" "10" example_upload_info _); decide_it|].
  eapply rtc_l; [exact (st_verified true n1 105)|].
  eapply rtc_l; [exact (st_project true _ 105)|].
  eapply rtc_l; [exact (st_persist true n2 105)|].
  apply rtc_once. exact (st_notify_finish true _ 105).
Qed.

(** ** Witnesses *)

Lemma narinfo_authorised_witness :
  ∃ h r, run true (n3 :: h) ∧ w_narinfos (world n3) !! OUT = Some r ∧
    ((∃ s0 r0, last (n3 :: h) = Some s0 ∧ w_narinfos (world s0) !! OUT = Some r0 ∧
        nr_info r0 = nr_info r) ∨
     ∃ machine build nar_hash p sv response d nar,
       was_active (n3 :: h) machine build ∧ is_output (n3 :: h) build OUT ∧
       presigner cfg = Some p ∧ ni_url (nr_info r) = object_path nar_hash ∧
       ni_compression (nr_info r) = upload_compression cfg ∧
       sv ∈ n3 :: h ∧ bucket sv (presign_get p (ni_url (nr_info r))) = Ok response ∧
       decoder_of (ni_compression (nr_info r)) = Some d ∧
       nar_of (reads (response d)) = Some nar ∧
       names nar_hash (sha256 nar) ∧ names (ni_nar_hash (nr_info r)) (sha256 nar) ∧
       ni_nar_size (nr_info r) = as_i64 (saturated (zlen nar)) ∧
       (∀ sig, ni_sig (nr_info r) = Some sig → ∃ sign, signing_key cfg = Some (Ok sign) ∧
          sig = sign (fingerprint OUT (ni_nar_hash (nr_info r)) (ni_nar_size (nr_info r))
                        (ni_references (nr_info r))))).
Proof.
  destruct n3_reachable as [h Hr].
  assert (Hrow : is_Some (w_narinfos (world n3) !! OUT)) by (eexists; decide_it).
  destruct Hrow as [r Hrow]. exists h, r. split; [exact Hr|]. split; [exact Hrow|].
  exact (narinfo_authorised true n3 h OUT r Hr Hrow).
Defined.

Lemma pool_only_admitted_witness :
  ∃ h, run true (r3 :: h) ∧ pool r3 !! 7 = Some 1%positive ∧
  ∃ m c k, heap r3 !! 1%positive = Some m ∧ machine_id (spec m) = 7 ∧
    conns r3 !! c = Some k ∧ registered k = Some (slot_of (spec m)) ∧
    registered_in (r3 :: h) c (peer_cert k) (spec m).
Proof.
  destruct r3_reachable as [h Hr]. exists h. split; [exact Hr|].
  split; [decide_it|]. apply (pool_only_admitted r3 h 7 1%positive Hr). decide_it.
Defined.
