(* ===== verification/CacheGc.v ===== *)
(** * The cleanup of the object store ([crates/queue-runner/src/cache_gc.rs])

    The selection of uploaded NARs by age and by size ([queries/narinfo_cache.sql]), the
    cycle that deletes their objects and rows, and the worker's narinfos of closures
    ([worker.rs], [persist_closure_narinfos]), which share the table with the uploads.
    The objects of the store are the set of their URLs; what the store answers to each
    deletion is an input.  The collation that orders store paths is any total order. *)

From S2P Require Import Prelude Types Float32 Base32 Codecs StorePath Db Builds Lifecycle Builders Rpc.

#[local] Set Warnings "-clear-no-such-hyp".

Record CacheGcConfig := {
  max_size_bytes : option Z;
  target_size_bytes : option Z;
  max_age_days : option Z;
  cleanup_interval : Z;
}.

Definition is_enabled (c : CacheGcConfig) : bool :=
  is_some (max_size_bytes c) || is_some (max_age_days c).

(** A row of [uploaded], with what the query computes for it. *)
Record Candidate := {
  ca_store_path : string;
  ca_url : string;
  ca_bytes : Z;
  ca_last_used : DateTime;
}.

(** ** Selection *)

Definition uploaded_row (kv : string * NarInfo) : option Candidate :=
  let '(path, r) := kv in
  let d := nr_info r in
  match ni_file_hash d with
  | Some _ =>
      Some {| ca_store_path := path; ca_url := ni_url d;
              ca_bytes := Z.max (default (ni_nar_size d) (ni_file_size d)) 0;
              ca_last_used := default (nr_created_at r) (nr_last_fetched_at r) |}
  | None => None
  end.

Definition uploaded (w : World) : list Candidate :=
  omap uploaded_row (map_to_list (w_narinfos w)).

Definition is_aged (cutoff : option DateTime) (c : Candidate) : bool :=
  match cutoff with Some t => ca_last_used c <? t | None => false end.

Definition total_bytes (l : list Candidate) : Z := foldr (λ c n, ca_bytes c + n) 0 l.

(** [SUM(bytes) OVER (ORDER BY ..)], from [acc] on: each row with the bytes reclaimed
    once it is deleted. *)
Fixpoint ranked (acc : Z) (l : list Candidate) : list (Candidate * Z) :=
  match l with
  | [] => []
  | c :: l => (c, acc + ca_bytes c) :: ranked (acc + ca_bytes c) l
  end.

(** [reclaimed_bytes - bytes < total_bytes - COALESCE(target, max)]. *)
Definition under_pressure (need : Z) (cr : Candidate * Z) : bool :=
  cr.2 - ca_bytes cr.1 <? need.

Section gc.
Variable text_cmp : string → string → comparison.

(** [ORDER BY last_used_at, store_path]. *)
Definition lru (a b : Candidate) : comparison :=
  then_with (Z.compare (ca_last_used a) (ca_last_used b))
    (text_cmp (ca_store_path a) (ca_store_path b)).

Definition quota (max target : option Z) (remaining : list Candidate) : list Candidate :=
  match max with
  | None => []
  | Some m =>
      let total := total_bytes remaining in
      if m <? total
      then (List.filter (under_pressure (total - default m target))
              (ranked 0 (sort_by lru remaining))).*1
      else []
  end.

Definition select_candidates (cutoff : option DateTime) (max target : option Z)
    (up : list Candidate) : list Candidate :=
  let aged := List.filter (is_aged cutoff) up in
  let remaining := List.filter (λ c, negb (is_aged cutoff c)) up in
  sort_by lru (aged ++ quota max target remaining).

(** The sums are cast to [bigint]. *)
Definition list_gc_candidates (cutoff : option DateTime) (max target : option Z) :
    M (list Candidate) :=
  query (λ w,
    let remaining := List.filter (λ c, negb (is_aged cutoff c)) (uploaded w) in
    if is_some max && (I64_MAX <? total_bytes remaining)
    then (Err (Database "bigint out of range"), w)
    else (Ok (select_candidates cutoff max target (uploaded w)), w)).

(** [file_hash IS NOT NULL AND store_path = ANY(..)]. *)
Definition gone (paths : list string) (kv : string * NarInfo) : bool :=
  is_some (ni_file_hash (nr_info kv.2)) && bool_decide (kv.1 ∈ paths).

Definition delete_gc_candidates (paths : list string) : M Z :=
  match paths with
  | [] => mret 0
  | _ =>
      query (λ w,
        (Ok (Z.of_nat (length (List.filter (gone paths) (map_to_list (w_narinfos w))))),
         let kept := filter (λ kv, gone paths kv = false) (w_narinfos w) in
         set_w_narinfos kept
           (set_w_narinfo_projects
              (filter (λ ko, is_Some (kept !! ko.1.1)) (w_narinfo_projects w)) w)))
  end.

(** ** Purging a cache ([delete_stale]) *)

Record DeletedNar := {
  dn_store_path : string;
  dn_url : string;
  dn_bytes : Z;
}.

Definition last_used (r : NarInfo) : DateTime := default (nr_created_at r) (nr_last_fetched_at r).

(** [:cutoff IS NULL OR COALESCE(last_fetched_at, created_at) < :cutoff]. *)
Definition is_stale (cutoff : option DateTime) (r : NarInfo) : bool :=
  match cutoff with Some t => last_used r <? t | None => true end.

(** The associations a purge of [project] ends. *)
Definition stale_owner (project : Uuid) (cutoff : option DateTime)
    (rows : gmap string NarInfo) (ko : (string * Z) * option Uuid) : bool :=
  (ko.1.2 =? project) &&
  match rows !! ko.1.1 with Some r => is_stale cutoff r | None => false end.

Definition delete_stale_project_owners (project : Uuid) (cutoff : option DateTime)
    (w : World) : World :=
  set_w_narinfo_projects
    (filter (λ ko, stale_owner project cutoff (w_narinfos w) ko = false)
       (w_narinfo_projects w)) w.

Definition owned_by_any (owners : gmap (string * Z) (option Uuid)) (path : string) : bool :=
  existsb (λ ko, bool_decide (ko.1.1 = path)) (map_to_list owners).

Definition deletable_for_project (project : Uuid) (cutoff : option DateTime)
    (owners : gmap (string * Z) (option Uuid)) (kv : string * NarInfo) : bool :=
  bool_decide (nr_project_id kv.2 = Some project) && is_stale cutoff kv.2
  && negb (owned_by_any owners kv.1).

Definition deleted_nar (kv : string * NarInfo) : DeletedNar :=
  let d := nr_info kv.2 in
  {| dn_store_path := kv.1; dn_url := ni_url d;
     dn_bytes := default (ni_nar_size d) (ni_file_size d) |}.

(** [DELETE .. RETURNING]; the associations of a deleted row go with it
    ([ON DELETE CASCADE]). *)
Definition delete_rows (p : string * NarInfo → bool) (w : World) : list DeletedNar * World :=
  let kept := filter (λ kv, p kv = false) (w_narinfos w) in
  (deleted_nar <$> List.filter p (map_to_list (w_narinfos w)),
   set_w_narinfos kept
     (set_w_narinfo_projects
        (filter (λ ko, is_Some (kept !! ko.1.1)) (w_narinfo_projects w)) w)).

Definition delete_stale (project : option Uuid) (cutoff : option DateTime) :
    M (list DeletedNar) :=
  query (λ w,
    match project with
    | Some p =>
        let w := delete_stale_project_owners p cutoff w in
        let '(l, w) := delete_rows (deletable_for_project p cutoff (w_narinfo_projects w)) w in
        (Ok l, w)
    | None =>
        let '(l, w) := delete_rows (λ kv, is_stale cutoff kv.2) w in (Ok l, w)
    end).

Definition touched (now : DateTime) (r : NarInfo) : NarInfo :=
  {| nr_info := nr_info r; nr_build_id := nr_build_id r; nr_project_id := nr_project_id r;
     nr_created_at := nr_created_at r; nr_updated_at := nr_updated_at r;
     nr_last_fetched_at := Some now |}.

Definition touch_last_fetched (path : string) : M () :=
  query (λ w, (Ok (), set_w_narinfos (alter (touched (w_now w)) path (w_narinfos w)) w)).

(** The scope of a lookup: a row is of a project if it was its first or if it is
    associated with it. *)
Definition in_scope (project : option Uuid) (w : World) (kv : string * NarInfo) : bool :=
  match project with
  | None => true
  | Some p => bool_decide (nr_project_id kv.2 = Some p)
              || bool_decide (is_Some (w_narinfo_projects w !! (kv.1, p)))
  end.

Definition package_name_from_store_path (store_path : string) : string :=
  match (let* rest := strip_prefix "/nix/store/" store_path in split_once "-" rest) with
  | Some (_, name) => name
  | None => store_path
  end.

(** ** The cycle *)

(** What the store answers to a [DELETE]: a status, or nothing; and whether the object
    is gone in the cases where the answer does not say so. *)
Record DeleteAnswer := {
  da_status : option Z;
  da_gone : bool;
}.

Definition confirmed (a : DeleteAnswer) : bool :=
  match da_status a with
  | Some s => ((200 <=? s) && (s <=? 299)) || (s =? 404)
  | None => false
  end.

Definition delete_object (answer : Candidate → DeleteAnswer) (c : Candidate)
    (objects : gset string) : option Candidate * gset string :=
  let a := answer c in
  (if confirmed a then Some c else None,
   if confirmed a || da_gone a then objects ∖ {[ca_url c]} else objects).

(** [buffer_unordered]: the order of the results does not matter to the caller. *)
Fixpoint delete_objects (answer : Candidate → DeleteAnswer) (cs : list Candidate)
    (objects : gset string) : list Candidate * gset string :=
  match cs with
  | [] => ([], objects)
  | c :: cs =>
      let '(o, objects) := delete_object answer c objects in
      let '(l, objects) := delete_objects answer cs objects in
      (match o with Some c => c :: l | None => l end, objects)
  end.

Definition DAY : Z := 86400 * 1000000.

Definition run_cycle (cfg : CacheGcConfig) (now : DateTime)
    (answer : Candidate → DeleteAnswer) (objects : gset string) (w : World) :
    result CiError () * gset string * World :=
  let cutoff := (λ days, now - days * DAY) <$> max_age_days cfg in
  let '(r, w) := list_gc_candidates cutoff (max_size_bytes cfg) (target_size_bytes cfg) w in
  match r with
  | Err e => (Err e, objects, w)
  | Ok [] => (Ok (), objects, w)
  | Ok candidates =>
      let '(deleted, objects) := delete_objects answer candidates objects in
      let '(r, w) := delete_gc_candidates (ca_store_path <$> deleted) w in
      match r with
      | Err e => (Err e, objects, w)
      | Ok _ => (Ok (), objects, w)
      end
  end.

End gc.

(** ** What is selected *)

Lemma total_bytes_app l l' : total_bytes (l ++ l') = total_bytes l + total_bytes l'.
Proof. induction l as [|c l IH]; [done|]. simpl. lia. Qed.

Lemma total_bytes_perm l l' : l ≡ₚ l' → total_bytes l = total_bytes l'.
Proof. induction 1; simpl; lia. Qed.

Lemma total_bytes_nonneg l : Forall (λ c, 0 ≤ ca_bytes c) l → 0 ≤ total_bytes l.
Proof. induction 1; simpl; lia. Qed.

Lemma total_bytes_filter p l :
  Forall (λ c, 0 ≤ ca_bytes c) l → total_bytes (List.filter p l) ≤ total_bytes l.
Proof. induction 1; simpl; [done|]. destruct (p x); simpl; lia. Qed.

Lemma none_under_pressure need acc l :
  Forall (λ c, 0 ≤ ca_bytes c) l → need ≤ acc →
  List.filter (under_pressure need) (ranked acc l) = [].
Proof.
  intros Hl. revert acc. induction Hl as [|c l Hc Hl IH]; intros acc Hn; [done|]. simpl.
  unfold under_pressure at 1. simpl.
  destruct (Z.ltb_spec (acc + ca_bytes c - ca_bytes c) need); [lia|]. apply IH. lia.
Qed.

(** The rows under pressure are a prefix, the shortest one that frees enough. *)
Lemma pressure_prefix need acc l :
  Forall (λ c, 0 ≤ ca_bytes c) l →
  ∃ q rest, l = q ++ rest ∧ (List.filter (under_pressure need) (ranked acc l)).*1 = q ∧
    (rest = [] ∨ need ≤ acc + total_bytes q) ∧
    (∀ q' c, q = q' ++ [c] → acc + total_bytes q' < need).
Proof.
  intros Hl. revert acc. induction Hl as [|c l Hc Hl IH]; intros acc.
  { exists [], []. split_and!; [done|done|by left|]. intros q' c E. by destruct q'. }
  simpl. unfold under_pressure at 1. simpl.
  replace (acc + ca_bytes c - ca_bytes c) with acc by lia.
  destruct (Z.ltb_spec acc need) as [Hlt|Hge].
  - destruct (IH (acc + ca_bytes c)) as (q & rest & -> & Hq & Hr & Hm).
    exists (c :: q), rest. rewrite fmap_cons, Hq. simpl. split_and!; [done|done| |].
    + destruct Hr as [?|?]; [by left|right; lia].
    + intros [|x q'] c' E; simpl in *; simplify_eq; [lia|].
      specialize (Hm q' c' eq_refl). lia.
  - exists [], (c :: l). rewrite none_under_pressure by (done || lia).
    split_and!; [done|done|right; simpl; lia|]. intros q' c' E. by destruct q'.
Qed.

(** *** The uploaded rows *)

Lemma uploaded_elem w c :
  c ∈ uploaded w ↔
  ∃ r, w_narinfos w !! ca_store_path c = Some r ∧ uploaded_row (ca_store_path c, r) = Some c.
Proof.
  unfold uploaded. rewrite list_elem_of_omap. split.
  - intros ([p r] & Hr%elem_of_map_to_list & Hc). unfold uploaded_row in *.
    destruct (ni_file_hash _) eqn:E; simplify_eq/=. exists r. by rewrite E.
  - intros (r & Hr & Hc). exists (ca_store_path c, r). by rewrite elem_of_map_to_list.
Qed.

Lemma uploaded_paths_nodup w : NoDup (ca_store_path <$> uploaded w).
Proof.
  unfold uploaded. pose proof (NoDup_fst_map_to_list (w_narinfos w)) as Hnd.
  induction (map_to_list (w_narinfos w)) as [|[p r] l IH]; [constructor|].
  rewrite fmap_cons, NoDup_cons in Hnd. destruct Hnd as [Hp Hnd]. specialize (IH Hnd). simpl.
  destruct (ni_file_hash (nr_info r)); [|done]. rewrite fmap_cons, NoDup_cons. split; [|done].
  rewrite list_elem_of_fmap. intros (c & Hc & Hin). apply Hp.
  apply list_elem_of_omap in Hin as ([p' r'] & Hin & Hr). apply list_elem_of_fmap.
  exists (p', r'). split; [|done]. unfold uploaded_row in Hr. by case_match; simplify_eq/=.
Qed.

Lemma uploaded_nodup w : NoDup (uploaded w).
Proof. eapply NoDup_fmap_1, uploaded_paths_nodup. Qed.

Lemma uploaded_inj w c c' :
  c ∈ uploaded w → c' ∈ uploaded w → ca_store_path c = ca_store_path c' → c = c'.
Proof.
  intros (r & Hr & Hc)%uploaded_elem (r' & Hr' & Hc')%uploaded_elem E. congruence.
Qed.

Lemma uploaded_bytes w : Forall (λ c, 0 ≤ ca_bytes c) (uploaded w).
Proof.
  apply Forall_forall. intros c (r & _ & Hc)%uploaded_elem. unfold uploaded_row in Hc.
  case_match; simplify_eq. rewrite <-Hc. simpl. lia.
Qed.

(** *** The cycle *)

Lemma delete_objects_spec answer cs objects :
  let '(deleted, objects') := delete_objects answer cs objects in
  deleted = List.filter (λ c, confirmed (answer c)) cs ∧ objects' ⊆ objects ∧
  (∀ c, c ∈ deleted → ca_url c ∉ objects').
Proof.
  revert objects. induction cs as [|c cs IH]; intros objects; simpl.
  { split_and!; [done|done|]. by intros c ?%elem_of_nil. }
  set (o1 := if confirmed (answer c) || da_gone (answer c)
             then objects ∖ {[ca_url c]} else objects).
  assert (Ho1 : o1 ⊆ objects) by (unfold o1; case_match; set_solver).
  specialize (IH o1). destruct (delete_objects answer cs o1) as [d o].
  destruct IH as (-> & Hs & Hd). destruct (confirmed (answer c)) eqn:Hc.
  - split_and!; [done|set_solver|]. intros x [->|Hx]%elem_of_cons; [|by apply Hd].
    unfold o1 in Hs. simpl in Hs. set_solver.
  - split_and!; [done|set_solver|done].
Qed.

Lemma delete_gc_candidates_spec paths w :
  w_faults w = [] →
  let '(r, w') := delete_gc_candidates paths w in
  is_ok r = true ∧
  ∀ p row, w_narinfos w' !! p = Some row ↔
    w_narinfos w !! p = Some row ∧ (ni_file_hash (nr_info row) = None ∨ p ∉ paths).
Proof.
  intros Hf. unfold delete_gc_candidates. destruct paths as [|p0 paths].
  { split; [done|]. simpl. intros p row. set_solver. }
  unfold query. rewrite Hf. split; [done|]. cbn [snd set_w_narinfos w_narinfos].
  intros p row. rewrite map_lookup_filter_Some. apply and_iff_compat_l.
  unfold gone. cbn [fst snd]. rewrite andb_false_iff, bool_decide_eq_false.
  destruct (ni_file_hash (nr_info row)); simpl; naive_solver.
Qed.

Lemma uploaded_after_delete (paths : list string) w w' :
  (∀ p row, w_narinfos w' !! p = Some row ↔
    w_narinfos w !! p = Some row ∧ (ni_file_hash (nr_info row) = None ∨ p ∉ paths)) →
  ∀ c, c ∈ uploaded w' ↔ c ∈ uploaded w ∧ ca_store_path c ∉ paths.
Proof.
  intros Hw c. rewrite !uploaded_elem. setoid_rewrite Hw. split.
  - intros (r & [Hr [Hn|Hp]] & Hc); [by simpl in Hc; rewrite Hn in Hc|]. eauto.
  - intros ((r & Hr & Hc) & Hp). eauto 10.
Qed.

(** The cycle in one formula: the early return changes nothing. *)
Lemma run_cycle_eq text_cmp cfg now answer objects w :
  w_faults w = [] → total_bytes (uploaded w) ≤ I64_MAX →
  run_cycle text_cmp cfg now answer objects w =
  let cutoff := (λ days, now - days * DAY) <$> max_age_days cfg in
  let sel := select_candidates text_cmp cutoff (max_size_bytes cfg) (target_size_bytes cfg)
               (uploaded w) in
  let '(deleted, objects') := delete_objects answer sel objects in
  let '(r, w') := delete_gc_candidates (ca_store_path <$> deleted) w in
  match r with Err e => (Err e, objects', w') | Ok _ => (Ok (), objects', w') end.
Proof.
  intros Hf Hmax. unfold run_cycle, list_gc_candidates, query. rewrite Hf.
  replace (I64_MAX <? total_bytes _) with false; cycle 1.
  { symmetry. apply Z.ltb_ge. etrans; [|exact Hmax].
    apply total_bytes_filter, uploaded_bytes. }
  rewrite andb_false_r. cbn zeta. by destruct (select_candidates _ _ _ _ _).
Qed.

(** A row that a deletion of [deleted] removes is one of them. *)
Lemma removed_row w w' (deleted : list Candidate) p row :
  (∀ c, c ∈ deleted → c ∈ uploaded w) →
  (∀ p row, w_narinfos w' !! p = Some row ↔ w_narinfos w !! p = Some row ∧
     (ni_file_hash (nr_info row) = None ∨ p ∉ ca_store_path <$> deleted)) →
  w_narinfos w !! p = Some row → w_narinfos w' !! p = None →
  ∃ c, c ∈ deleted ∧ ca_store_path c = p ∧ ca_url c = ni_url (nr_info row).
Proof.
  intros Hin Hrows Hp Hn.
  assert (Hp' : ¬ (ni_file_hash (nr_info row) = None ∨ p ∉ ca_store_path <$> deleted)).
  { intros Hk. by rewrite (proj2 (Hrows p row) (conj Hp Hk)) in Hn. }
  destruct (decide (p ∈ ca_store_path <$> deleted)) as [Hd|]; [|tauto].
  apply list_elem_of_fmap in Hd as (c & -> & Hd). exists c. split_and!; [done|done|].
  apply Hin, uploaded_elem in Hd as (row' & Hr' & Hc). simplify_eq.
  unfold uploaded_row in Hc. case_match; [|done]. by injection Hc as <-.
Qed.

Lemma filter_keeps_all {A} (p : A → bool) l : (∀ x, p x = true) → List.filter p l = l.
Proof. intros Hp. induction l as [|x l IH]; simpl; [done|]. by rewrite Hp, IH. Qed.

(** *** The selection *)

Section selection.
Variable text_cmp : string → string → comparison.
Hypothesis text_total : total_on text_cmp (λ _, True).

Lemma lru_total w : total_on (lru text_cmp) (λ c, c ∈ uploaded w).
Proof.
  apply (total_on_then Z.compare text_cmp ca_last_used ca_store_path _ z_compare_total text_total).
  intros x y Hx Hy _. by apply (uploaded_inj w).
Qed.

(** The outcome of a selection: the aged rows and the least recently used of the
    others, as many as are needed. *)
Record selection (cutoff : option DateTime) (max target : option Z) (up sel aged q rest : list Candidate) : Prop := {
  sel_split : up ≡ₚ aged ++ q ++ rest;
  sel_is : sel ≡ₚ aged ++ q;
  sel_aged : Forall (λ c, is_aged cutoff c = true) aged;
  sel_fresh : Forall (λ c, is_aged cutoff c = false) (q ++ rest);
  sel_lru : StronglySorted (cmp_le (lru text_cmp)) (q ++ rest);
  sel_none : max = None → q = [];
  sel_fits m : max = Some m → total_bytes (q ++ rest) ≤ m → q = [];
  sel_enough m : max = Some m → m < total_bytes (q ++ rest) →
    total_bytes rest ≤ default m target;
  sel_minimal m q' c : max = Some m → q = q' ++ [c] →
    default m target < ca_bytes c + total_bytes rest;
}.

Lemma select_spec cutoff max target w :
  (∀ m, max = Some m → 0 ≤ default m target) →
  ∃ aged q rest,
    selection cutoff max target (uploaded w)
      (select_candidates text_cmp cutoff max target (uploaded w)) aged q rest.
Proof.
  intros Hpos. set (up := uploaded w).
  set (aged := List.filter (is_aged cutoff) up).
  set (remaining := List.filter (λ c, negb (is_aged cutoff c)) up).
  assert (Hsplit : up ≡ₚ aged ++ remaining).
  { unfold aged, remaining. clear. induction up as [|c l IH]; [done|]. simpl.
    destruct (is_aged cutoff c); simpl; rewrite IH at 1; [done|]. apply Permutation_middle. }
  assert (Hrem : Forall (λ c, c ∈ uploaded w) remaining).
  { apply Forall_forall. intros c Hc. fold up. rewrite Hsplit. apply elem_of_app. by right. }
  set (srt := sort_by (lru text_cmp) remaining).
  assert (Hsort : srt ≡ₚ remaining) by apply sort_by_perm.
  assert (Hbytes : Forall (λ c, 0 ≤ ca_bytes c) srt).
  { rewrite Hsort. eapply Forall_impl; [exact Hrem|]. intros c Hc. simpl in Hc.
    pose proof (uploaded_bytes w) as Hb. rewrite Forall_forall in Hb. by apply Hb. }
  assert (Hq : ∃ q rest, srt = q ++ rest ∧ quota text_cmp max target remaining = q ∧
    (max = None → q = []) ∧
    (∀ m, max = Some m → total_bytes (q ++ rest) ≤ m → q = []) ∧
    (∀ m, max = Some m → m < total_bytes (q ++ rest) → total_bytes rest ≤ default m target) ∧
    (∀ m q' c, max = Some m → q = q' ++ [c] → default m target < ca_bytes c + total_bytes rest)).
  { unfold quota. destruct max as [m|]; cycle 1.
    { exists [], srt. split_and!; try done. }
    rewrite <-(total_bytes_perm _ _ Hsort). fold srt.
    destruct (Z.ltb_spec m (total_bytes srt)) as [Hlt|Hge]; cycle 1.
    { exists [], srt. split_and!; try done; [intros ? [= <-] Hlt; simpl in Hlt; lia|].
      intros m' q' c _ E. by destruct q'. }
    destruct (pressure_prefix (total_bytes srt - default m target) 0 srt Hbytes)
      as (q & rest & E & -> & Hr & Hm). specialize (Hpos m eq_refl).
    rewrite E, total_bytes_app in *. exists q, rest. split_and!; try done.
    - intros m' [= <-] Hle. rewrite total_bytes_app in Hle. lia.
    - intros m' [= <-] _. destruct Hr as [->|?]; simpl; lia.
    - intros m' q' c [= <-] Eq. specialize (Hm q' c Eq). subst q.
      rewrite total_bytes_app in Hm. simpl in *. rewrite total_bytes_app in *. simpl in *. lia. }
  destruct Hq as (q & rest & E & Hqq & H1 & H2 & H3 & H4).
  exists aged, q, rest. constructor; try done.
  - by rewrite Hsplit, <-E, Hsort.
  - unfold select_candidates. fold aged. fold remaining. rewrite sort_by_perm, Hqq. done.
  - apply Forall_forall. intros c Hc%list_elem_of_In. by apply filter_In in Hc as [_ ?].
  - rewrite <-E, Hsort. apply Forall_forall. intros c Hc%list_elem_of_In.
    apply filter_In in Hc as [_ Hc]. by apply negb_true_iff in Hc.
  - rewrite <-E. by apply (sort_by_sorted (lru text_cmp) _ (lru_total w)).
Qed.

(** Deleting the selected rows leaves the rest. *)
Lemma rest_kept cutoff max target w w' sel aged q rest :
  selection cutoff max target (uploaded w) sel aged q rest →
  (∀ c, c ∈ uploaded w' ↔ c ∈ uploaded w ∧ ca_store_path c ∉ ca_store_path <$> sel) →
  uploaded w' ≡ₚ rest.
Proof.
  intros Hsel Hw'. pose proof (uploaded_nodup w) as Hnd.
  pose proof (sel_split _ _ _ _ _ _ _ _ Hsel) as Hsplit.
  assert (Hmem : ∀ c, c ∈ sel ↔ c ∈ aged ++ q).
  { intros c. by rewrite (sel_is _ _ _ _ _ _ _ _ Hsel). }
  rewrite Hsplit, app_assoc in Hnd. apply NoDup_app in Hnd as (_ & Hdisj & Hrest).
  apply NoDup_Permutation; [apply uploaded_nodup|done|]. intros c. rewrite Hw'. split.
  - rewrite Hsplit, app_assoc, elem_of_app. intros [[Hc|Hc] Hp]; [|done]. destruct Hp.
    apply list_elem_of_fmap. exists c. by rewrite Hmem.
  - intros Hc. assert (Hup : c ∈ uploaded w) by (rewrite Hsplit, !elem_of_app; auto).
    split; [done|]. rewrite list_elem_of_fmap. intros (c' & E & Hc'). rewrite Hmem in Hc'.
    assert (c' ∈ uploaded w) by (rewrite Hsplit, app_assoc, elem_of_app; auto).
    rewrite (uploaded_inj w c c') in Hc by done. by eapply Hdisj.
Qed.

Lemma selection_uploaded cutoff max target w sel aged q rest c :
  selection cutoff max target (uploaded w) sel aged q rest → c ∈ sel → c ∈ uploaded w.
Proof.
  intros Hsel. rewrite (sel_is _ _ _ _ _ _ _ _ Hsel), (sel_split _ _ _ _ _ _ _ _ Hsel).
  rewrite !elem_of_app. tauto.
Qed.

Lemma selection_limit cutoff max target up sel aged q rest m :
  selection cutoff max target up sel aged q rest → max = Some m →
  total_bytes rest ≤ Z.max m (default m target).
Proof.
  intros Hsel Hm. destruct (Z.le_gt_cases (total_bytes (q ++ rest)) m) as [Hle|Hgt].
  - pose proof (sel_fits _ _ _ _ _ _ _ _ Hsel m Hm Hle) as ->. simpl in Hle. lia.
  - pose proof (sel_enough _ _ _ _ _ _ _ _ Hsel m Hm Hgt). lia.
Qed.

(** C40. A cleanup cycle.  It selects the uploaded NARs that were not used since the
    cutoff and, if the others exceed the maximal size, the least recently used of those:
    as many as bring the rest down to the target and not one more.  A row is deleted only
    if its object is gone, rows and objects are never added, and when every deletion is
    confirmed the rest is exactly what stays, so that the store is within its limit. *)
Theorem gc_cycle_exact cfg now answer objects w :
  (∀ m, max_size_bytes cfg = Some m → 0 ≤ default m (target_size_bytes cfg)) →
  w_faults w = [] → total_bytes (uploaded w) ≤ I64_MAX →
  let '(r, objects', w') := run_cycle text_cmp cfg now answer objects w in
  r = Ok () ∧ objects' ⊆ objects ∧
  (∀ p row, w_narinfos w' !! p = Some row → w_narinfos w !! p = Some row) ∧
  (∀ p row, w_narinfos w !! p = Some row → w_narinfos w' !! p = None →
     ni_url (nr_info row) ∉ objects') ∧
  ∃ sel aged q rest,
    selection ((λ days, now - days * DAY) <$> max_age_days cfg) (max_size_bytes cfg)
      (target_size_bytes cfg) (uploaded w) sel aged q rest ∧
    (∀ p row, w_narinfos w !! p = Some row → w_narinfos w' !! p = None →
       p ∈ ca_store_path <$> sel) ∧
    ((∀ c, confirmed (answer c) = true) → uploaded w' ≡ₚ rest ∧
       ∀ m, max_size_bytes cfg = Some m →
         total_bytes (uploaded w') ≤ Z.max m (default m (target_size_bytes cfg))).
Proof.
  intros Hpos Hf Hmax. rewrite run_cycle_eq by done. cbn zeta.
  set (cutoff := (λ days, now - days * DAY) <$> max_age_days cfg).
  destruct (select_spec cutoff (max_size_bytes cfg) (target_size_bytes cfg) w Hpos)
    as (aged & q & rest & Hsel).
  set (sel := select_candidates _ _ _ _ _) in *.
  pose proof (delete_objects_spec answer sel objects) as Hobj.
  destruct (delete_objects answer sel objects) as [deleted objects'].
  destruct Hobj as (Hdel & Hsub & Hurl).
  assert (Hds : ∀ c, c ∈ deleted → c ∈ sel).
  { subst deleted. intros c [Hc _]%list_elem_of_In%filter_In. by apply list_elem_of_In. }
  pose proof (delete_gc_candidates_spec (ca_store_path <$> deleted) w Hf) as Hrows.
  destruct (delete_gc_candidates _ w) as [[n|] w']; [|by destruct Hrows].
  destruct Hrows as [_ Hrows].
  pose proof (λ p row, removed_row w w' deleted p row
    (λ c Hc, selection_uploaded _ _ _ _ _ _ _ _ c Hsel (Hds c Hc)) Hrows) as Hgone.
  split_and!; [done|done|by intros p row [? _]%Hrows| |].
  { intros p row Hp Hn. destruct (Hgone p row Hp Hn) as (c & Hc & _ & <-). by apply Hurl. }
  exists sel, aged, q, rest. split_and!; [done| |].
  { intros p row Hp Hn. destruct (Hgone p row Hp Hn) as (c & Hc & <- & _).
    apply list_elem_of_fmap. eauto. }
  intros Hall. rewrite filter_keeps_all in Hdel by done. subst deleted.
  assert (Hrest : uploaded w' ≡ₚ rest).
  { eapply rest_kept; [exact Hsel|]. by apply uploaded_after_delete. }
  split; [done|]. intros m Hm. rewrite (total_bytes_perm _ _ Hrest).
  by eapply selection_limit.
Qed.
End selection.

(** ** The closures of the runner's own builds ([worker.rs]) *)

(** The row written for a path of the closure. *)
Definition closure_row (sign : string → string) (info : ClosurePathInfo) (url : string) :
    NarInfoData :=
  {| ni_nar_hash := cpi_nar_hash info; ni_nar_size := cpi_nar_size info;
     ni_file_hash := None; ni_file_size := None; ni_compression := "none"; ni_url := url;
     ni_deriver := cpi_deriver info; ni_references := cpi_references info;
     ni_sig := Some (sign (fingerprint (cpi_store_path info) (cpi_nar_hash info)
                            (cpi_nar_size info) (cpi_references info)));
     ni_ca := cpi_ca info |}.

Fixpoint persist_infos (sign : string → string) (build : Uuid) (project : option Uuid)
    (infos : list ClosurePathInfo) : M () :=
  match infos with
  | [] => mret ()
  | info :: infos =>
      match nar_url_for_path info with
      | None => persist_infos sign build project infos
      | Some url =>
          let! _ := mtry (narinfo_cache.upsert (cpi_store_path info)
                            (closure_row sign info url) (Some build) project) in
          persist_infos sign build project infos
      end
  end.

(** [key] is the signing key if signing is enabled and the file exists and is readable;
    [infos] what [nix path-info --recursive] says, if it succeeds. *)
Definition persist_closure_narinfos (key : option (string → string))
    (infos : option (list ClosurePathInfo)) (build : Uuid) (project : option Uuid) : M () :=
  match key, infos with
  | Some sign, Some infos => persist_infos sign build project infos
  | _, _ => mret ()
  end.

(** ** Where the parts of the table disagree *)

Section flaws.
Variable text_cmp : string → string → comparison.

Lemma uploaded_intro w p r h :
  w_narinfos w !! p = Some r → ni_file_hash (nr_info r) = Some h →
  ∃ c, c ∈ uploaded w ∧ ca_store_path c = p ∧ ca_url c = ni_url (nr_info r) ∧
    ca_last_used c = default (nr_created_at r) (nr_last_fetched_at r).
Proof.
  intros Hr Hh.
  assert (is_Some (uploaded_row (p, r))) as [c Hc] by (simpl; rewrite Hh; eauto).
  exists c. assert (ca_store_path c = p ∧ ca_url c = ni_url (nr_info r) ∧
    ca_last_used c = default (nr_created_at r) (nr_last_fetched_at r)) as (<- & ? & ?).
  { simpl in Hc. rewrite Hh in Hc. by injection Hc as <-. }
  split; [|done]. apply uploaded_elem. eauto.
Qed.

(** Without a size limit the selection is the aged rows. *)
Lemma select_aged cutoff target up c :
  c ∈ select_candidates text_cmp cutoff None target up ↔ c ∈ up ∧ is_aged cutoff c = true.
Proof.
  unfold select_candidates. simpl. rewrite app_nil_r, sort_by_perm, list_elem_of_In, filter_In.
  by rewrite <-list_elem_of_In.
Qed.

(** Deleting an aged NAR destroys others with the same content.  The name of an
    object is the hash of the NAR, so that store paths with equal content share one
    object; the cleanup looks at each row alone, deletes the object of an aged row and
    keeps the row of a path that was fetched recently and has lost its object. *)
Theorem shared_object_lost cfg now answer objects w p q rp rq hp hq days :
  w_faults w = [] → total_bytes (uploaded w) ≤ I64_MAX →
  max_size_bytes cfg = None → max_age_days cfg = Some days →
  w_narinfos w !! p = Some rp → w_narinfos w !! q = Some rq →
  ni_file_hash (nr_info rp) = Some hp → ni_file_hash (nr_info rq) = Some hq →
  ni_url (nr_info rp) = ni_url (nr_info rq) →
  default (nr_created_at rp) (nr_last_fetched_at rp) < now - days * DAY →
  now - days * DAY ≤ default (nr_created_at rq) (nr_last_fetched_at rq) →
  (∀ c, confirmed (answer c) = true) →
  let '(r, objects', w') := run_cycle text_cmp cfg now answer objects w in
  r = Ok () ∧ w_narinfos w' !! q = Some rq ∧ ni_url (nr_info rq) ∉ objects'.
Proof.
  intros Hf Hmax Hn Hd Hp Hq Hhp Hhq Hurl Hold Hnew Hall.
  rewrite run_cycle_eq by done. cbn zeta. rewrite Hn, Hd. simpl.
  set (sel := select_candidates _ _ _ _ _).
  pose proof (delete_objects_spec answer sel objects) as Hobj.
  destruct (delete_objects answer sel objects) as [deleted objects'].
  destruct Hobj as (-> & _ & Hgone). rewrite filter_keeps_all in * by done.
  pose proof (delete_gc_candidates_spec (ca_store_path <$> sel) w Hf) as Hrows.
  destruct (delete_gc_candidates _ w) as [[n|] w']; [|by destruct Hrows].
  destruct Hrows as [_ Hrows].
  destruct (uploaded_intro w p rp hp Hp Hhp) as (cp & Hcp & Ep & Eu & El).
  destruct (uploaded_intro w q rq hq Hq Hhq) as (cq & Hcq & Eq & _ & Elq).
  split_and!; [done| |].
  - apply Hrows. split; [done|]. right. intros (c & Ec & Hc)%list_elem_of_fmap.
    apply select_aged in Hc as [Hc Ha]. assert (c = cq) as -> by (apply (uploaded_inj w); congruence || done).
    simpl in Ha. apply Z.ltb_lt in Ha. lia.
  - rewrite <-Hurl, <-Eu. apply Hgone. apply select_aged. split; [done|]. simpl.
    apply Z.ltb_lt. lia.
Qed.
End flaws.

(** What a purge leaves: a row stays unless it is stale, was written first for the
    purged project and no other project uses it. *)
Lemma delete_stale_rows p cutoff w :
  w_faults w = [] →
  let '(r, w') := delete_stale (Some p) cutoff w in
  (∃ l, r = Ok l) ∧
  (∀ path row, w_narinfos w' !! path = Some row ↔
     w_narinfos w !! path = Some row ∧
     ¬ (nr_project_id row = Some p ∧ is_stale cutoff row = true ∧
        ∀ q, q ≠ p → w_narinfo_projects w !! (path, q) = None)) ∧
  (∀ path q o, w_narinfo_projects w' !! (path, q) = Some o ↔
     w_narinfo_projects w !! (path, q) = Some o ∧ is_Some (w_narinfos w' !! path) ∧
     ¬ (q = p ∧ ∃ row, w_narinfos w !! path = Some row ∧ is_stale cutoff row = true)).
Proof.
  intros Hf. unfold delete_stale, query. rewrite Hf. cbn zeta. unfold delete_rows.
  set (owners := w_narinfo_projects (delete_stale_project_owners p cutoff w)).
  assert (Hown : ∀ path q o, owners !! (path, q) = Some o ↔
    w_narinfo_projects w !! (path, q) = Some o ∧
    ¬ (q = p ∧ ∃ row, w_narinfos w !! path = Some row ∧ is_stale cutoff row = true)).
  { intros path q o. unfold owners. cbn. rewrite map_lookup_filter_Some.
    apply and_iff_compat_l. unfold stale_owner. cbn. rewrite andb_false_iff, Z.eqb_neq.
    destruct (w_narinfos w !! path) as [row|]; cycle 1.
    { split; [|auto]. intros _ [_ (row & ? & _)]. done. }
    split.
    - intros [?|Hs] [? (row' & [= ->] & ?)]; congruence.
    - intros Hn. destruct (decide (q = p)) as [->|]; [right|by left].
      apply not_true_is_false. intros E. apply Hn. eauto. }
  assert (Hany : ∀ path row, w_narinfos w !! path = Some row → is_stale cutoff row = true →
    owned_by_any owners path = false ↔ ∀ q, q ≠ p → w_narinfo_projects w !! (path, q) = None).
  { intros path row Hrow Hst. unfold owned_by_any. rewrite <-not_true_iff_false, existsb_exists.
    split.
    - intros Hn q Hq. destruct (w_narinfo_projects w !! (path, q)) as [o|] eqn:E; [|done].
      destruct Hn. exists ((path, q), o).
      rewrite <-list_elem_of_In, elem_of_map_to_list, bool_decide_eq_true, Hown. naive_solver.
    - intros Hall ([[pa q] o] & Hin & Hpa). cbn in Hpa. apply bool_decide_eq_true in Hpa as ->.
      apply list_elem_of_In, elem_of_map_to_list, Hown in Hin as [Hin Hn].
      destruct (decide (q = p)) as [->|Hq]; [naive_solver|]. by rewrite Hall in Hin. }
  cbn. split_and!; [eauto| |].
  - intros path row. rewrite map_lookup_filter_Some. split; intros [Hr Hk]; (split; [done|]).
    + intros (H1 & H2 & H3). change (deletable_for_project p cutoff owners (path, row) = false) in Hk.
      revert Hk. unfold deletable_for_project. cbn [fst snd].
      rewrite bool_decide_true, H2 by done. by rewrite (proj2 (Hany path row Hr H2) H3).
    + change (deletable_for_project p cutoff owners (path, row) = false).
      apply not_true_is_false. unfold deletable_for_project. cbn [fst snd].
      rewrite !andb_true_iff, bool_decide_eq_true, negb_true_iff.
      intros [[H1 H2] H3]. apply Hk. split_and!; [done|done|]. by eapply Hany.
  - intros path q o. rewrite map_lookup_filter_Some. specialize (Hown path q o). cbn in Hown.
    rewrite Hown. cbn. tauto.
Qed.

(** Two projects that share a store path leave it behind.  Each purges its cache
    completely, the one that uploaded the path first and then the other: no project uses
    the path any more, but neither purge has deleted it, no later purge of either will,
    and the first project still has it in its scope. *)
Theorem purge_leaves_shared w p q path row o o' :
  w_faults w = [] → p ≠ q → w_narinfos w !! path = Some row → nr_project_id row = Some p →
  w_narinfo_projects w !! (path, p) = Some o → w_narinfo_projects w !! (path, q) = Some o' →
  (∀ r, r ≠ p → r ≠ q → w_narinfo_projects w !! (path, r) = None) →
  let w1 := (delete_stale (Some p) None w).2 in
  let w2 := (delete_stale (Some q) None w1).2 in
  let w3 := (delete_stale (Some q) None w2).2 in
  (∀ r, w_narinfo_projects w2 !! (path, r) = None) ∧
  w_narinfos w2 !! path = Some row ∧ in_scope (Some p) w2 (path, row) = true ∧
  w_narinfos w3 !! path = Some row.
Proof.
  intros Hf Hpq Hrow Hp Ho Ho' Hno.
  assert (Hf' : ∀ r w, w_faults w = [] → w_faults (delete_stale (Some r) None w).2 = []).
  { intros r u Hu. unfold delete_stale, query. by rewrite Hu. }
  cbn zeta. set (w1 := (delete_stale (Some p) None w).2).
  set (w2 := (delete_stale (Some q) None w1).2). set (w3 := (delete_stale (Some q) None w2).2).
  pose proof (delete_stale_rows p None w Hf) as H1.
  pose proof (delete_stale_rows q None w1 (Hf' _ _ Hf)) as H2.
  pose proof (delete_stale_rows q None w2 (Hf' _ _ (Hf' _ _ Hf))) as H3.
  rewrite (surjective_pairing (delete_stale (Some p) None w)) in H1.
  rewrite (surjective_pairing (delete_stale (Some q) None w1)) in H2.
  rewrite (surjective_pairing (delete_stale (Some q) None w2)) in H3.
  destruct H1 as (_ & Hr1 & Ho1), H2 as (_ & Hr2 & Ho2), H3 as (_ & Hr3 & _).
  fold w1 in Hr1, Ho1. fold w2 in Hr2, Ho2. fold w3 in Hr3.
  assert (E1 : w_narinfos w1 !! path = Some row).
  { apply Hr1. split; [done|]. intros (_ & _ & Hn). by rewrite (Hn q) in Ho' by done. }
  assert (E2 : w_narinfos w2 !! path = Some row) by (apply Hr2; split; [done|naive_solver]).
  split_and!; [|done| |by apply Hr3; split; [done|naive_solver]].
  - intros r. apply eq_None_not_Some. intros [x Hx]. apply Ho2 in Hx as (Hx & _ & Hn).
    apply Ho1 in Hx as (Hx & _ & Hn'). destruct (decide (r = p)) as [->|Hrp].
    { apply Hn'. split; [done|]. by exists row. }
    destruct (decide (r = q)) as [->|Hrq]; [|by rewrite Hno in Hx].
    apply Hn. split; [done|]. by exists row.
  - unfold in_scope. cbn. by rewrite bool_decide_true.
Qed.

(** The narinfo of an uploaded NAR is lost to the cleanup once its path occurs in the
    closure of a build that ran elsewhere: the runner's own row replaces it and clears the
    file hash by which the cleanup knows uploads, so that no later cycle selects the path
    and its object stays in the store for ever. *)
Theorem closure_hides_upload sign build project info url w r h :
  w_faults w = [] → w_narinfos w !! cpi_store_path info = Some r →
  ni_file_hash (nr_info r) = Some h → nar_url_for_path info = Some url →
  (narinfo_cache.upsert (cpi_store_path info) (closure_row sign info url) (Some build)
     project w).1 = Ok () →
  (∃ c, c ∈ uploaded w ∧ ca_store_path c = cpi_store_path info ∧
     ca_url c = ni_url (nr_info r)) ∧
  let w' := (persist_closure_narinfos (Some sign) (Some [info]) build project w).2 in
  (∃ r', w_narinfos w' !! cpi_store_path info = Some r' ∧ ni_url (nr_info r') = url ∧
     ni_file_hash (nr_info r') = None) ∧
  ∀ c, c ∈ uploaded w' → ca_store_path c ≠ cpi_store_path info.
Proof.
  intros Hf Hr Hh Hu Hok. split.
  { destruct (uploaded_intro w _ r h Hr Hh) as (c & ? & ? & ? & _). by exists c. }
  simpl. rewrite Hu.
  assert (Hrow : ∃ r', w_narinfos (narinfo_cache.upsert (cpi_store_path info)
      (closure_row sign info url) (Some build) project w).2 !! cpi_store_path info = Some r' ∧
      nr_info r' = closure_row sign info url).
  { revert Hok. unfold narinfo_cache.upsert, query. rewrite Hf.
    unfold narinfo_cache.upsert_tx. cbn zeta. case_match; [done|]. intros _. eexists. split.
    - destruct project; simpl; by rewrite lookup_insert_eq.
    - unfold narinfo_cache.upsert_row. by rewrite Hr. }
  unfold mbind, mtry. destruct (narinfo_cache.upsert _ _ _ _ _) as [res w1]. simpl in *.
  destruct Hrow as (r' & Hr' & Hi). split.
  - exists r'. by rewrite Hi.
  - intros c (rc & Hrc & Hc)%uploaded_elem E. rewrite E in *. simplify_eq.
    simpl in Hc. by rewrite Hi in Hc.
Qed.

(** ** Witnesses *)

(** Three uploads; [a] and [b] have equal content, [a] was used ten days ago, [b] and
    [c] now. *)
Definition example_row (hash : string) (used : Z) : NarInfo :=
  {| nr_info := {| ni_nar_hash := "sha256:" +:+ hash; ni_nar_size := 60;
                   ni_file_hash := Some ("sha256:" +:+ hash); ni_file_size := Some 50;
                   ni_compression := "zstd"; ni_url := "nar/" +:+ hash +:+ ".nar.zst";
                   ni_deriver := None; ni_references := []; ni_sig := None; ni_ca := None |};
     nr_build_id := None; nr_project_id := None; nr_created_at := 0; nr_updated_at := 0;
     nr_last_fetched_at := Some used |}.

Definition HASH : string := "00000000000000000000000000000000".

Definition cache_world : World :=
  set_w_narinfos
    {[ "/nix/store/" +:+ HASH +:+ "-a" := example_row "x" (90 * DAY);
       "/nix/store/" +:+ HASH +:+ "-b" := example_row "x" (100 * DAY);
       "/nix/store/" +:+ HASH +:+ "-c" := example_row "y" (100 * DAY) ]} example_world.

Definition aged_out : CacheGcConfig :=
  {| max_size_bytes := None; target_size_bytes := None; max_age_days := Some 7;
     cleanup_interval := 3600 |}.

Definition too_large : CacheGcConfig :=
  {| max_size_bytes := Some 120; target_size_bytes := Some 60; max_age_days := None;
     cleanup_interval := 3600 |}.

Definition deleted_answer (_ : Candidate) : DeleteAnswer := {| da_status := Some 204; da_gone := false |}.

Lemma gc_cycle_exact_witness :
  let '(r, objects', w') :=
    run_cycle String.compare too_large (100 * DAY) deleted_answer
      {[ "nar/x.nar.zst"; "nar/y.nar.zst" ]} cache_world in
  r = Ok () ∧ total_bytes (uploaded w') ≤ 120 ∧ objects' ⊆ {[ "nar/x.nar.zst"; "nar/y.nar.zst" ]}.
Proof.
  pose proof (gc_cycle_exact String.compare string_compare_total too_large (100 * DAY)
    deleted_answer {[ "nar/x.nar.zst"; "nar/y.nar.zst" ]} cache_world) as H.
  assert (Hp : ∀ m, max_size_bytes too_large = Some m →
    0 ≤ default m (target_size_bytes too_large)) by (intros m _; by vm_compute).
  specialize (H Hp eq_refl ltac:(by vm_compute)).
  destruct (run_cycle _ _ _ _ _ _) as [[r o] w'].
  destruct H as (-> & Ho & _ & _ & sel & aged & q & rest & _ & _ & Hall).
  split_and!; [done| |done]. destruct (Hall (λ _, eq_refl)) as [_ Hm]. exact (Hm 120 eq_refl).
Defined.

Lemma shared_object_lost_witness :
  let '(r, objects', w') :=
    run_cycle String.compare aged_out (100 * DAY) deleted_answer
      {[ "nar/x.nar.zst"; "nar/y.nar.zst" ]} cache_world in
  r = Ok () ∧ w_narinfos w' !! ("/nix/store/" +:+ HASH +:+ "-b") = Some (example_row "x" (100 * DAY)) ∧
  "nar/x.nar.zst" ∉ objects'.
Proof.
  apply (shared_object_lost String.compare aged_out (100 * DAY) deleted_answer
    {[ "nar/x.nar.zst"; "nar/y.nar.zst" ]} cache_world
    ("/nix/store/" +:+ HASH +:+ "-a") ("/nix/store/" +:+ HASH +:+ "-b")
    (example_row "x" (90 * DAY)) (example_row "x" (100 * DAY)) "sha256:x" "sha256:x" 7);
    by vm_compute.
Defined.

Definition closure_info : ClosurePathInfo :=
  {| cpi_store_path := "/nix/store/" +:+ HASH +:+ "-c"; cpi_nar_hash := "sha256:y";
     cpi_nar_size := 60; cpi_references := []; cpi_deriver := None; cpi_ca := None |}.

Lemma closure_hides_upload_witness :
  let url := "nar/y.nar.zst" in
  (∃ c, c ∈ uploaded cache_world ∧ ca_store_path c = "/nix/store/" +:+ HASH +:+ "-c" ∧
     ca_url c = url) ∧
  ∀ c, c ∈ uploaded (persist_closure_narinfos (Some (λ fp, "key:" +:+ fp)) (Some [closure_info])
                       10 None cache_world).2 →
  ca_store_path c ≠ "/nix/store/" +:+ HASH +:+ "-c".
Proof.
  destruct (closure_hides_upload (λ fp, "key:" +:+ fp) 10 None closure_info
    ("nar/y.nar?hash=" +:+ HASH) cache_world (example_row "y" (100 * DAY)) "sha256:y")
    as [H1 [_ H2]]; [by vm_compute..|]. split; [exact H1|exact H2].
Defined.

(** Projects 3 and 4 share [c]. *)
Definition shared_world : World :=
  set_w_narinfo_projects {[ ("c", 3) := None; ("c", 4) := None ]}
    (set_w_narinfos
       {[ "c" := {| nr_info := nr_info (example_row "y" 0); nr_build_id := None;
                    nr_project_id := Some 3; nr_created_at := 0; nr_updated_at := 0;
                    nr_last_fetched_at := None |} ]} example_world).

Lemma purge_leaves_shared_witness :
  let w2 := (delete_stale (Some 4) None (delete_stale (Some 3) None shared_world).2).2 in
  is_Some (w_narinfos w2 !! "c") ∧ w_narinfo_projects w2 !! ("c", 3) = None.
Proof.
  destruct (purge_leaves_shared shared_world 3 4 "c" _ None None eq_refl ltac:(lia)
    (lookup_singleton_eq _ _) eq_refl eq_refl eq_refl) as (H1 & H2 & _).
  - intros r H3 H4. 
    change (({[ ("c", 3) := None; ("c", 4) := None ]} : gmap (string * Z) (option Uuid)) !! ("c", r) = None).
    by rewrite lookup_insert_ne, lookup_singleton_ne by congruence.
  - split; [by eexists|apply H1].
Defined.
