(* ===== verification/Webhooks.v ===== *)
(** * Pushes and change requests ([crates/server/src/routes/webhooks])

    The globs of branches and tags ([common/src/glob.rs]), the classification of a pushed
    ref, which jobsets it triggers, and the handlers of GitHub, GitLab and the Gitea
    family.  A payload is what the JSON decoder makes of the body, if it accepts it; the
    stored secret is what the configuration row yields after decryption; the MAC is a
    parameter.  [new_id] is the key the database generates for the row of a jobset. *)

From S2P Require Import Prelude Types Float32 Base32 Codecs Db Builds Evaluations.

(** ** Globs *)

(** [inner], on the bytes. *)
Fixpoint glob_inner (pattern : list ascii) : list ascii → bool :=
  match pattern with
  | [] => λ value, match value with [] => true | _ => false end
  | ch :: rest =>
      if decide (ch = "*"%char) then
        fix star (value : list ascii) : bool :=
          glob_inner rest value ||
          match value with [] => false | _ :: value => star value end
      else if decide (ch = "?"%char) then
        λ value, match value with [] => false | _ :: value => glob_inner rest value end
      else
        λ value, match value with
                 | v :: value => bool_decide (v = ch) && glob_inner rest value
                 | [] => false
                 end
  end.

Definition glob_matches (pattern value : string) : bool :=
  glob_inner (str_chars pattern) (str_chars value).

(** What a pattern means. *)
Inductive glob : list ascii → list ascii → Prop :=
  | glob_nil : glob [] []
  | glob_star p u v : glob p v → glob ("*"%char :: p) (u ++ v)
  | glob_any p c v : glob p v → glob ("?"%char :: p) (c :: v)
  | glob_lit p c v : c ≠ "*"%char → c ≠ "?"%char → glob p v → glob (c :: p) (c :: v).

Lemma glob_inner_star p v :
  glob_inner ("*"%char :: p) v =
  glob_inner p v || match v with [] => false | _ :: v => glob_inner ("*"%char :: p) v end.
Proof. by destruct v. Qed.

Lemma glob_star_iff p v :
  (∀ v, glob_inner p v = true ↔ glob p v) →
  glob_inner ("*"%char :: p) v = true ↔ glob ("*"%char :: p) v.
Proof.
  intros IH. split.
  - induction v as [|c v IHv]; rewrite glob_inner_star, orb_true_iff.
    + intros [H|]; [|done]. apply (glob_star p []). by apply IH.
    + intros [H|H]; [apply (glob_star p []); by apply IH|].
      apply IHv in H. inversion H as [|? u w Hw| |]; subst; try done.
      by apply (glob_star p (c :: u)).
  - intros H. inversion H as [|? u w Hw| |]; subst; try done.
    induction u as [|c u IHu]; rewrite glob_inner_star, orb_true_iff.
    + left. by apply IH.
    + right. apply IHu. by constructor.
Qed.

(** ** Refs *)

Inductive PushedRef :=
  | Branch (name : string)
  | Tag (name : string)
  | Other (name : string).

Definition parse_push_ref (git_ref : string) : PushedRef :=
  match strip_prefix "refs/heads/" git_ref with
  | Some b => Branch b
  | None => match strip_prefix "refs/tags/" git_ref with
            | Some t => Tag t
            | None => Other git_ref
            end
  end.

Definition normalize_branch_name (branch : string) : string :=
  default branch (strip_prefix "refs/heads/" branch).

Definition jobset_matches_branch (j : Jobset) (pushed_branch : string) : bool :=
  match j_branch_pattern j with
  | Some pattern => glob_matches pattern pushed_branch
  | None =>
      match normalize_branch_name <$> j_branch j with
      | Some branch => bool_decide (branch = pushed_branch)
      | None => is_none (j_tag_pattern j)
      end
  end.

Definition jobset_matches_tag (j : Jobset) (pushed_tag : string) : bool :=
  match j_tag_pattern j with
  | Some pattern => glob_matches pattern pushed_tag
  | None => false
  end.

Definition jobset_matches_push_ref (j : Jobset) (r : PushedRef) : bool :=
  match r with
  | Branch b => jobset_matches_branch j b
  | Tag t => jobset_matches_tag j t
  | Other _ => false
  end.

Definition jobset_accepts_source_trigger (j : Jobset) : bool :=
  j_enabled j && bool_decide (j_trigger_mode j = JobsetTriggerMode.SourceChange).

Definition NO_COMMIT : string := "0000000000000000000000000000000000000000".

Definition is_deleted_commit (commit : string) : bool :=
  bool_decide (commit = "") || bool_decide (commit = NO_COMMIT).

Definition push_source_scope (r : PushedRef) : string :=
  match r with
  | Branch b => "branch:" +:+ b
  | Tag _ => "tags"
  | Other g => "ref:" +:+ g
  end.

Definition push_source_order (r : PushedRef) (previous_commit : option string) :
    Evals.SourceOrder :=
  match r with
  | Branch _ => match previous_commit with
                | Some p => Evals.After p
                | None => Evals.First
                end
  | Tag _ | Other _ => Evals.Unchecked
  end.

(** ** Triggering *)

Section triggers.
Variable new_id : Uuid → Uuid.

(** One round of the loops: a conflict counts as nothing, an error is logged. *)
Definition enqueue_one (i : Evals.CreateEvaluation) (scope : string)
    (order : Evals.SourceOrder) : M Z :=
  let! r := mtry (Evals.enqueue_source (new_id (Evals.ce_jobset_id i)) i scope order) in
  mret (if is_ok r then 1 else 0).

Definition push_input (jobset : Uuid) (commit : string) : Evals.CreateEvaluation :=
  {| Evals.ce_jobset_id := jobset; Evals.ce_commit_hash := commit; Evals.ce_pr_number := None;
     Evals.ce_pr_head_branch := None; Evals.ce_pr_base_branch := None;
     Evals.ce_pr_action := None |}.

Fixpoint push_loop (jobsets : list Jobset) (commit : string)
    (previous_commit : option string) (r : PushedRef) (triggered : Z) : M Z :=
  match jobsets with
  | [] => mret triggered
  | j :: jobsets =>
      if jobset_accepts_source_trigger j && jobset_matches_push_ref j r then
        let! n := enqueue_one (push_input (j_id j) commit) (push_source_scope r)
                    (push_source_order r previous_commit) in
        push_loop jobsets commit previous_commit r (triggered + n)
      else push_loop jobsets commit previous_commit r triggered
  end.

Definition trigger_push_evaluations (project_id : Uuid) (commit : string)
    (previous_commit : option string) (r : PushedRef) : M Z :=
  let! jobsets := Jobsets.list_all_for_project project_id in
  push_loop jobsets commit previous_commit r 0.

Record ChangeRequestEvaluation := {
  cr_commit : string;
  cr_previous_commit : option string;
  cr_first : bool;
  cr_number : option Z;
  cr_head_branch : option string;
  cr_base_branch : option string;
  cr_action : option string;
}.

Definition change_request_scope (input : ChangeRequestEvaluation) : string :=
  match cr_number input with
  | Some n => "change-request:" +:+ pretty n
  | None => "change-request:" +:+ default "unknown" (cr_head_branch input)
  end.

Definition change_request_order (input : ChangeRequestEvaluation) : Evals.SourceOrder :=
  if cr_first input then Evals.First
  else match cr_previous_commit input with
       | Some p => Evals.After p
       | None => Evals.Unchecked
       end.

Definition change_request_input (jobset : Uuid) (c : ChangeRequestEvaluation) :
    Evals.CreateEvaluation :=
  {| Evals.ce_jobset_id := jobset; Evals.ce_commit_hash := cr_commit c;
     Evals.ce_pr_number := cr_number c; Evals.ce_pr_head_branch := cr_head_branch c;
     Evals.ce_pr_base_branch := cr_base_branch c; Evals.ce_pr_action := cr_action c |}.

Fixpoint change_request_loop (jobsets : list Jobset) (input : ChangeRequestEvaluation)
    (triggered : Z) : M Z :=
  match jobsets with
  | [] => mret triggered
  | j :: jobsets =>
      if jobset_accepts_source_trigger j &&
         jobset_matches_branch j (default "" (cr_base_branch input)) then
        let! n := enqueue_one (change_request_input (j_id j) input)
                    (change_request_scope input) (change_request_order input) in
        change_request_loop jobsets input (triggered + n)
      else change_request_loop jobsets input triggered
  end.

Definition trigger_change_request_evaluations (project_id : Uuid)
    (input : ChangeRequestEvaluation) : M Z :=
  let! jobsets := Jobsets.list_all_for_project project_id in
  change_request_loop jobsets input 0.

(** ** Handlers *)

Record WebhookResponse := {
  wr_status : Z;
  wr_accepted : bool;
  wr_message : string;
}.

Definition respond (status : Z) (accepted : bool) (message : string) : WebhookResponse :=
  {| wr_status := status; wr_accepted := accepted; wr_message := message |}.

Definition webhook_not_configured (forge_name : string) : WebhookResponse :=
  respond 404 false ("No " +:+ forge_name +:+ " webhook configured for this project").

Definition invalid_signature_response : WebhookResponse :=
  respond 401 false "Invalid webhook signature".

Definition branch_deletion_response : WebhookResponse :=
  respond 200 true "Branch deletion event, skipping".

Definition triggered_push_response (triggered : Z) (commit : string) : WebhookResponse :=
  respond 200 true ("Triggered " +:+ pretty triggered +:+ " evaluations for commit " +:+ commit).

(** The fields the push payloads of all forges share. *)
Record PushPayload := {
  pp_git_ref : option string;
  pp_before : option string;
  pp_after : option string;
  pp_checkout_sha : option string;
}.

(** [handle_push] and [process_push], after the body is decoded. *)
Definition process_push (project_id : Uuid) (commit : string) (p : PushPayload) :
    M WebhookResponse :=
  if is_deleted_commit commit then mret branch_deletion_response
  else
    let pushed_ref := match pp_git_ref p with Some r => parse_push_ref r | None => Other "" end in
    let! triggered := trigger_push_evaluations project_id commit (pp_before p) pushed_ref in
    mret (triggered_push_response triggered commit).

Definition handle_push (project_id : Uuid) (body : result string PushPayload) :
    M WebhookResponse :=
  match body with
  | Err e => mfail (Validation ("Invalid payload: " +:+ e))
  | Ok p => process_push project_id (default "" (pp_after p)) p
  end.

Definition gitlab_handle_push (project_id : Uuid) (body : result string PushPayload) :
    M WebhookResponse :=
  match body with
  | Err e => mfail (Validation ("Invalid GitLab push payload: " +:+ e))
  | Ok p =>
      let commit := default "" (match pp_checkout_sha p with
                                | Some c => Some c
                                | None => pp_after p
                                end) in
      process_push project_id commit p
  end.

(** [u64 as i32]. *)
Definition u64_as_i32 (z : Z) : Z :=
  let m := z mod 4294967296 in if m <=? I32_MAX then m else m - 4294967296.

Record GithubPr := {
  gp_head_sha : option string;
  gp_head_ref : option string;
  gp_base_ref : option string;
  gp_draft : option bool;
}.

Record GithubPrPayload := {
  gpp_action : option string;
  gpp_before : option string;
  gpp_number : option Z;
  gpp_pull_request : option GithubPr;
}.

Definition skip (message : string) : M WebhookResponse := mret (respond 200 true message).

Definition handle_pull_request (project_id : Uuid) (body : result string GithubPrPayload) :
    M WebhookResponse :=
  match body with
  | Err e => mfail (Validation ("Invalid GitHub PR payload: " +:+ e))
  | Ok p =>
      let action := default "" (gpp_action p) in
      if negb (bool_decide (action ∈ ["opened"; "synchronize"; "reopened"])) then
        skip ("Ignored PR action: " +:+ action)
      else match gpp_pull_request p with
      | None => skip "No pull request data, skipping"
      | Some pr =>
          if default false (gp_draft pr) then skip "Draft pull request, skipping"
          else
            let commit := default "" (gp_head_sha pr) in
            if bool_decide (commit = "") then skip "No commit in pull request, skipping"
            else
              let! triggered := trigger_change_request_evaluations project_id
                {| cr_commit := commit; cr_previous_commit := gpp_before p;
                   cr_first := bool_decide (action = "opened");
                   cr_number := u64_as_i32 <$> gpp_number p;
                   cr_head_branch := gp_head_ref pr; cr_base_branch := gp_base_ref pr;
                   cr_action := Some action |} in
              skip ("Triggered " +:+ pretty triggered +:+ " evaluations for PR #" +:+
                    pretty (default 0 (gpp_number p)) +:+ " commit " +:+ commit)
      end
  end.

Record GitLabMr := {
  gm_iid : option Z;
  gm_action : option string;
  gm_state : option string;
  gm_source_branch : option string;
  gm_target_branch : option string;
  gm_last_commit : option string;
  gm_oldrev : option string;
  gm_work_in_progress : option bool;
  gm_draft : option bool;
}.

Record GitLabMrPayload := {
  gmp_object_kind : option string;
  gmp_object_attributes : option GitLabMr;
}.

Definition handle_merge_request (project_id : Uuid) (body : result string GitLabMrPayload) :
    M WebhookResponse :=
  match body with
  | Err e => mfail (Validation ("Invalid GitLab MR payload: " +:+ e))
  | Ok p =>
      let kind := default "merge_request" (gmp_object_kind p) in
      if negb (bool_decide (kind = "merge_request")) then
        skip ("Ignored GitLab object kind: " +:+ kind)
      else match gmp_object_attributes p with
      | None => skip "No merge request attributes, skipping"
      | Some a =>
          if default false (gm_work_in_progress a) || default false (gm_draft a) then
            skip "Draft/WIP merge request, skipping"
          else
            let state := default "opened" (gm_state a) in
            if negb (bool_decide (state = "opened")) then skip ("Ignored MR state: " +:+ state)
            else
              let action := default "" (gm_action a) in
              if negb (bool_decide (action ∈ ["open"; "update"; "reopen"])) then
                skip ("Ignored MR action: " +:+ action)
              else
                let commit := default "" (gm_last_commit a) in
                if bool_decide (commit = "") then skip "No commit in merge request, skipping"
                else
                  let number := u64_as_i32 <$> gm_iid a in
                  let! triggered := trigger_change_request_evaluations project_id
                    {| cr_commit := commit; cr_previous_commit := gm_oldrev a;
                       cr_first := bool_decide (action = "open"); cr_number := number;
                       cr_head_branch := gm_source_branch a;
                       cr_base_branch := gm_target_branch a; cr_action := Some action |} in
                  skip ("Triggered " +:+ pretty triggered +:+ " evaluations for MR !" +:+
                        pretty (default 0 number) +:+ " commit " +:+ commit)
      end
  end.

(** *** Authentication *)

Context `{Codecs}.

(** HMAC-SHA256 of a secret and a body ([hmac] crate). *)
Variable hmac_sha256 : string → list Z → list Z.

Definition verify_signature (secret : string) (body : list Z) (signature : string) : bool :=
  let hex_sig := match strip_prefix "sha256=" signature with
                 | Some s => s
                 | None => default signature (strip_prefix "sha1=" signature)
                 end in
  match hex_decode hex_sig with
  | Ok sig_bytes => bool_decide (sig_bytes = hmac_sha256 secret body)
  | Err _ => false
  end.

(** A request: the header values and the body, raw and decoded. *)
Record Request := {
  rq_signature : string;
  rq_event : string;
  rq_body : list Z;
  rq_push : result string PushPayload;
  rq_pull_request : result string GithubPrPayload;
  rq_merge_request : result string GitLabMrPayload;
}.

(** [config]: the configuration row of project and forge, with its secret. *)
Definition github_handle_webhook (project_id : Uuid) (config : option (option string))
    (r : Request) : M WebhookResponse :=
  match config with
  | Some (Some secret) =>
      if negb (verify_signature secret (rq_body r) (rq_signature r)) then
        mret invalid_signature_response
      else if bool_decide (rq_event r = "push") then handle_push project_id (rq_push r)
      else if bool_decide (rq_event r = "pull_request") then
        handle_pull_request project_id (rq_pull_request r)
      else skip ("Ignored GitHub event: " +:+ rq_event r)
  | _ => mret (webhook_not_configured "GitHub")
  end.

(** Gitea and Forgejo: [handle_signed_push]. *)
Definition handle_signed_push (display_name : string) (project_id : Uuid)
    (config : option (option string)) (r : Request) : M WebhookResponse :=
  match config with
  | Some (Some secret) =>
      if negb (verify_signature secret (rq_body r) (rq_signature r)) then
        mret invalid_signature_response
      else handle_push project_id (rq_push r)
  | _ => mret (webhook_not_configured display_name)
  end.

Definition gitlab_handle_webhook (project_id : Uuid) (config : option (option string))
    (r : Request) : M WebhookResponse :=
  match config with
  | Some (Some secret) =>
      if negb (bool_decide (rq_signature r = secret)) then
        mret (respond 401 false "Invalid webhook token")
      else if bool_decide (rq_event r = "Push Hook") then
        gitlab_handle_push project_id (rq_push r)
      else if bool_decide (rq_event r = "Merge Request Hook") then
        handle_merge_request project_id (rq_merge_request r)
      else skip ("Ignored GitLab event: " +:+ rq_event r)
  | _ => mret (webhook_not_configured "GitLab")
  end.

End triggers.

(** ** Properties *)

(** Globs mean what they say: [glob_matches] decides whether the value is the
    pattern with each star replaced by some bytes and each question mark by one. *)
Theorem glob_matches_exact pattern value :
  glob_matches pattern value = true ↔ glob (str_chars pattern) (str_chars value).
Proof.
  unfold glob_matches. generalize (str_chars value) as v. generalize (str_chars pattern) as p.
  induction p as [|c p IH]; intros v.
  { destruct v; simpl; split; try done; [constructor|inversion 1]. }
  destruct (decide (c = "*"%char)) as [->|Hs]; [by apply glob_star_iff|].
  simpl. rewrite decide_False by done.
  destruct (decide (c = "?"%char)) as [->|Hq].
  - destruct v as [|a v]; [by split; [|inversion 1]|]. rewrite IH. split; [by constructor|].
    by inversion 1.
  - destruct v as [|a v]; [by split; [|inversion 1]|].
    rewrite andb_true_iff, bool_decide_eq_true, IH. split.
    + intros [-> ?]. by constructor.
    + by inversion 1.
Qed.

(** A question mark stands for a byte, not for a character. *)
Example glob_byte : glob_matches "v?" "vé" = false ∧ glob_matches "v??" "vé" = true.
Proof. done. Qed.

(** C31. Only authenticated webhooks have an effect: whatever the forge, a request whose
    project has no secret, or whose MAC (for GitLab, token) is not the one of the secret,
    is answered with an error status and leaves the database as it is. *)
Theorem webhook_authenticated `{Codecs} new_id (hmac_sha256 : string → list Z → list Z)
    project config r w :
  (∀ secret, config = Some (Some secret) →
     (∀ s, hex_decode s = Ok (hmac_sha256 secret (rq_body r)) →
        rq_signature r ≠ s ∧ rq_signature r ≠ "sha256=" +:+ s ∧ rq_signature r ≠ "sha1=" +:+ s) ∧
     rq_signature r ≠ secret) →
  ∀ handler, handler ∈ [github_handle_webhook new_id hmac_sha256 project config r;
                        handle_signed_push new_id hmac_sha256 "Gitea" project config r;
                        handle_signed_push new_id hmac_sha256 "Forgejo" project config r;
                        gitlab_handle_webhook new_id project config r] →
  ∃ resp, handler w = (Ok resp, w) ∧ wr_accepted resp = false ∧ wr_status resp ∈ [401; 404].
Proof.
  intros Hno. assert (Hsig : ∀ secret, config = Some (Some secret) →
    verify_signature hmac_sha256 secret (rq_body r) (rq_signature r) = false).
  { intros secret Hc. destruct (Hno secret Hc) as [Hs _]. unfold verify_signature.
    set (hex := match strip_prefix _ _ with Some s => s | None => _ end).
    destruct (hex_decode hex) as [l|] eqn:Hd; [|done]. case_bool_decide as E; [|done]. subst l.
    destruct (Hs hex Hd) as (H1 & H2 & H3). revert H1 H2 H3. unfold hex.
    destruct (strip_prefix "sha256=" (rq_signature r)) as [s|] eqn:E1.
    { apply strip_prefix_some in E1. by intros _ ?. }
    destruct (strip_prefix "sha1=" (rq_signature r)) as [s|] eqn:E2; [|done].
    apply strip_prefix_some in E2. by intros _ _ ?. }
  assert (Htok : ∀ secret, config = Some (Some secret) → rq_signature r ≠ secret)
    by (intros secret Hc; by destruct (Hno secret Hc)).
  intros handler Hin. rewrite !elem_of_cons in Hin.
  unfold github_handle_webhook, handle_signed_push, gitlab_handle_webhook in Hin.
  destruct config as [[secret|]|];
    [rewrite (Hsig secret) in Hin by done; rewrite (bool_decide_false (rq_signature r = secret)) in Hin by auto|..];
    destruct Hin as [->|[->|[->|[->|[]%elem_of_nil]]]];
    (eexists; split; [reflexivity|split; [done|simpl; rewrite !elem_of_cons; auto]]).
Qed.

Definition forged_request : Request :=
  {| rq_signature := "no hex"; rq_event := "push"; rq_body := [];
     rq_push := Err "no body"; rq_pull_request := Err "no body";
     rq_merge_request := Err "no body" |}.

Lemma webhook_authenticated_witness :
  ∃ resp, github_handle_webhook id (λ _ _, sha256 []) 4 (Some (Some "secret")) forged_request
            empty_world = (Ok resp, empty_world) ∧ wr_accepted resp = false.
Proof.
  destruct (webhook_authenticated id (λ _ _, sha256 []) 4 (Some (Some "secret")) forged_request
    empty_world) with (handler := github_handle_webhook id (λ _ _, sha256 []) 4
      (Some (Some "secret")) forged_request) as (resp & Hr & Ha & _).
  - intros secret [= <-]. split; [|done]. intros s Hs. apply hex_decode_bytes in Hs as [Hl _].
    rewrite sha256_length in Hl.
    split_and!; intros E; apply (f_equal str_len) in E; rewrite ?str_len_app, Hl in E; vm_compute in E; done.
  - left.
  - by exists resp.
Defined.
