(* ===== verification/EvalQueue.v ===== *)
(** * The queue of evaluations

    What the statements of [Evaluations] guarantee about the table: the latest-only
    policy, the recovery of orphaned evaluations, and what a push triggers
    ([Webhooks]). *)

From S2P Require Import Prelude Types Float32 Base32 Codecs Db Builds Evaluations Lifecycle Webhooks.

#[local] Set Warnings "-clear-no-such-hyp".

(** ** Rows *)

Definition eval_keys (w : World) : Prop :=
  ∀ i e, w_evaluations w !! i = Some e → e_id e = i.

Lemma existsb_rows {A} (p : A → bool) (t : gmap Z A) :
  existsb p (rows t) = true ↔ ∃ i x, t !! i = Some x ∧ p x = true.
Proof.
  rewrite existsb_exists. setoid_rewrite <-list_elem_of_In. setoid_rewrite elem_of_rows.
  naive_solver.
Qed.

Lemma filter_filter_andb {A} (p q : A → bool) l :
  List.filter p (List.filter q l) = List.filter (λ x, q x && p x) l.
Proof. induction l as [|x l IH]; simpl; [done|]. destruct (q x); simpl; by rewrite IH. Qed.

(** What decides whether an insertion conflicts. *)
Lemma duplicate_spec w jobset commit :
  Evals.duplicate w jobset commit = true ↔
  ∃ i e, w_evaluations w !! i = Some e ∧ e_jobset_id e = jobset ∧ e_commit_hash e = commit ∧
    e_trigger_kind e ≠ EvaluationTriggerKind.Interval.
Proof.
  unfold Evals.duplicate. rewrite existsb_rows. unfold Evals.same_source, Evals.is_interval.
  setoid_rewrite andb_true_iff. setoid_rewrite andb_true_iff.
  setoid_rewrite Z.eqb_eq. setoid_rewrite bool_decide_eq_true.
  setoid_rewrite negb_true_iff. setoid_rewrite bool_decide_eq_false. naive_solver.
Qed.

(** ** The latest-only policy *)

(** The world after an accepted source update. *)
Definition after_source (id : Uuid) (input : Evals.CreateEvaluation)
    (status : EvaluationStatus.t) (scope : string) (order : Evals.SourceOrder) (latest : bool)
    (w : World) : World :=
  let e := Evals.new_evaluation id (w_now w) input status EvaluationTriggerKind.SourceChange
             (Some scope)
             (Evals.base_commit order (w_source_heads w !! (Evals.ce_jobset_id input, scope))) in
  let w := set_w_source_heads
             (<[(Evals.ce_jobset_id input, scope) := Evals.ce_commit_hash input]>
                (w_source_heads w))
             (set_w_evaluations (<[id := e]> (w_evaluations w)) w) in
  if latest
  then Evals.cancel_superseded_builds id (Evals.ce_jobset_id input) scope
         (Evals.supersede_source_evaluations id (Evals.ce_jobset_id input) scope w)
  else w.

Arguments after_source : simpl never.

(** [create_automated] as a decision. *)
Lemma create_automated_no_fault id input status scope order w j :
  w_faults w = [] → w_jobsets w !! Evals.ce_jobset_id input = Some j →
  Evals.create_automated id input status scope order w =
  if j_only_build_latest j &&
     negb (Evals.accepts order (w_source_heads w !! (Evals.ce_jobset_id input, scope)))
  then (Err (Conflict ("Source update for '" +:+ scope +:+
                       "' is older than the current revision")), w)
  else if Evals.duplicate w (Evals.ce_jobset_id input) (Evals.ce_commit_hash input)
  then (Err (Conflict ("Evaluation for commit '" +:+ Evals.ce_commit_hash input +:+
                       "' already exists in this jobset")), w)
  else (Ok (Evals.new_evaluation id (w_now w) input status EvaluationTriggerKind.SourceChange
              (Some scope)
              (Evals.base_commit order
                 (w_source_heads w !! (Evals.ce_jobset_id input, scope)))),
        after_source id input status scope order (j_only_build_latest j) w).
Proof.
  intros Hf Hj. unfold Evals.create_automated, query. rewrite Hf, Hj.
  destruct (j_only_build_latest j && _); [done|].
  unfold Evals.insert_evaluation. simpl. rewrite Hj.
  destruct (Evals.duplicate _ _ _); [done|]. done.
Qed.

Lemma superseded_source_spec by_id jobset scope e :
  Evals.superseded_source by_id jobset scope e = true ↔
  e_jobset_id e = jobset ∧ e_id e ≠ by_id ∧
  e_trigger_kind e = EvaluationTriggerKind.SourceChange ∧ e_source_scope e = Some scope.
Proof.
  unfold Evals.superseded_source.
  rewrite !andb_true_iff, negb_true_iff, Z.eqb_eq, Z.eqb_neq, !bool_decide_eq_true. tauto.
Qed.

Lemma superseded_source_self id jobset scope e :
  e_id e = id → Evals.superseded_source id jobset scope e = false.
Proof. intros <-. unfold Evals.superseded_source. by rewrite Z.eqb_refl, andb_false_r. Qed.

Lemma superseded_source_kept id jobset scope e (c : bool) :
  Evals.superseded_source id jobset scope (if c then Evals.set_superseded id e else e) =
  Evals.superseded_source id jobset scope e.
Proof. destruct c; [|done]. unfold Evals.set_superseded. by destruct (Evals.is_open e). Qed.

(** The evaluations after an accepted update, row by row. *)
Lemma after_source_lookup id input status scope order w i :
  w_evaluations (after_source id input status scope order true w) !! i =
  (λ e, if Evals.superseded_source id (Evals.ce_jobset_id input) scope e &&
           (Evals.is_open e || Evals.has_active_build w (e_id e))
        then Evals.set_superseded id e else e) <$>
  <[id := Evals.new_evaluation id (w_now w) input status EvaluationTriggerKind.SourceChange
            (Some scope)
            (Evals.base_commit order (w_source_heads w !! (Evals.ce_jobset_id input, scope)))]>
    (w_evaluations w) !! i.
Proof. unfold after_source. simpl. by rewrite lookup_fmap. Qed.

Lemma set_superseded_closed by_id e : Evals.is_open (Evals.set_superseded by_id e) = false.
Proof. unfold Evals.set_superseded, Evals.is_open. by destruct (e_status e) eqn:E; simpl; rewrite ?E. Qed.

(** *** What the policy asks for

    In terms of the rows alone: nothing below uses the conditions of the statements. *)

(** The update continues the last revision of its source. *)
Definition continues (order : Evals.SourceOrder) (head : option string) : Prop :=
  match order with
  | Evals.Unchecked => True
  | Evals.First => head = None
  | Evals.After previous => head = None ∨ head = Some previous
  end.

(** The jobset has an evaluation of the commit that is not a periodic one. *)
Definition evaluated (w : World) (jobset : Uuid) (commit : string) : Prop :=
  ∃ i e, w_evaluations w !! i = Some e ∧ e_jobset_id e = jobset ∧ e_commit_hash e = commit ∧
    e_trigger_kind e ≠ EvaluationTriggerKind.Interval.

(** An evaluation of a revision of the source. *)
Definition of_source (jobset : Uuid) (scope : string) (e : Evaluation) : Prop :=
  e_jobset_id e = jobset ∧ e_trigger_kind e = EvaluationTriggerKind.SourceChange ∧
  e_source_scope e = Some scope.

Definition unfinished (e : Evaluation) : Prop :=
  e_status e = EvaluationStatus.Pending ∨ e_status e = EvaluationStatus.Running.

Definition queued_or_running (b : Build) : Prop := b_status b = Pending ∨ b_status b = Running.

Lemma accepts_continues order head : Evals.accepts order head = true ↔ continues order head.
Proof.
  destruct order, head; simpl; rewrite ?bool_decide_eq_true; naive_solver.
Qed.

Lemma is_open_unfinished e : Evals.is_open e = true ↔ unfinished e.
Proof. unfold Evals.is_open, unfinished. destruct (e_status e); naive_solver. Qed.

Lemma active_queued b : Sql.active b = true ↔ queued_or_running b.
Proof.
  unfold Sql.active, Sql.has_status, queued_or_running.
  rewrite orb_true_iff, !bool_decide_eq_true. done.
Qed.

Lemma superseded_of_source id jobset scope e :
  e_id e ≠ id → Evals.superseded_source id jobset scope e = true ↔ of_source jobset scope e.
Proof. intros Hid. rewrite superseded_source_spec. unfold of_source. tauto. Qed.

(** What an accepted update makes of another evaluation [e0] and of a build [b]. *)
Definition replaced_evaluation (id jobset : Uuid) (scope : string) (e0 e1 : Evaluation) : Prop :=
  (of_source jobset scope e0 → unfinished e0 →
     e_status e1 = EvaluationStatus.Cancelled ∧ e_superseded_by e1 = Some id) ∧
  (of_source jobset scope e0 → ¬ unfinished e0 → e_status e1 = e_status e0) ∧
  (¬ of_source jobset scope e0 → e1 = e0).

Definition replaced_build (w : World) (jobset : Uuid) (scope : string) (b b1 : Build) : Prop :=
  let of_replaced := ∃ e0, w_evaluations w !! b_evaluation_id b = Some e0 ∧
                           of_source jobset scope e0 in
  (of_replaced → queued_or_running b → b_status b1 = Cancelled) ∧
  (¬ (of_replaced ∧ queued_or_running b) → b1 = b).

Lemma after_source_evaluation id input status scope order w i e0 :
  eval_keys w → w_evaluations w !! id = None → w_evaluations w !! i = Some e0 →
  ∃ e1, w_evaluations (after_source id input status scope order true w) !! i = Some e1 ∧
    replaced_evaluation id (Evals.ce_jobset_id input) scope e0 e1.
Proof.
  intros Hkeys Hid Hi. assert (e_id e0 ≠ id) by (rewrite (Hkeys i e0 Hi); congruence).
  rewrite after_source_lookup, lookup_insert_ne, Hi by congruence. eexists. split; [done|]. simpl.
  unfold replaced_evaluation. rewrite <-is_open_unfinished.
  pose proof (superseded_of_source id (Evals.ce_jobset_id input) scope e0 ltac:(done)) as Hs.
  unfold Evals.set_superseded.
  destruct (Evals.superseded_source _ _ _ e0), (Evals.is_open e0), (Evals.has_active_build w _);
    naive_solver.
Qed.

Lemma after_source_build id input status scope order w k b :
  eval_keys w → w_evaluations w !! id = None → b_evaluation_id b ≠ id →
  w_builds w !! k = Some b →
  ∃ b1, w_builds (after_source id input status scope order true w) !! k = Some b1 ∧
    replaced_build w (Evals.ce_jobset_id input) scope b b1.
Proof.
  intros Hkeys Hid Hb Hk. unfold after_source. simpl. rewrite lookup_fmap, Hk. eexists.
  split; [done|]. rewrite lookup_fmap, lookup_insert_ne by done.
  unfold replaced_build. rewrite <-active_queued.
  destruct (w_evaluations w !! b_evaluation_id b) as [e0|] eqn:He; simpl; [|naive_solver].
  rewrite superseded_source_kept.
  assert (Hne : e_id e0 ≠ id) by (rewrite (Hkeys _ e0 He); congruence).
  pose proof (superseded_of_source id (Evals.ce_jobset_id input) scope e0 Hne) as Hs.
  destruct (Evals.superseded_source _ _ _ e0), (Sql.active b); naive_solver.
Qed.


(** ** One open evaluation per source *)

(** The operations of server, webhooks and evaluator on the table. *)
Inductive eop :=
  | ECreate (id : Uuid) (input : Evals.CreateEvaluation) (kind : EvaluationTriggerKind.t)
      (status : EvaluationStatus.t)
  | ESource (id : Uuid) (input : Evals.CreateEvaluation) (status : EvaluationStatus.t)
      (scope : string) (order : Evals.SourceOrder)
  | EClaim (id : Uuid)
  | EFinish (id : Uuid) (status : EvaluationStatus.t) (msg : option string)
  | EReject (id : Uuid) (msg : string)
  | ECancel (id : Uuid)
  | ERestart (id : Uuid)
  | ESweep (deadline_secs : Z)
  | EHide (id : Uuid) (hidden : bool)
  | EInputs (id : Uuid) (hash : string)
  | EOneShot (id : Uuid)
  | EChecked (id : Uuid).

Definition eexec (o : eop) (w : World) : World :=
  match o with
  | ECreate id i k s => (Evals.create_with_kind id i k s None w).2
  | ESource id i s scope order => (Evals.create_automated id i s scope order w).2
  | EClaim id => (Evals.try_claim_pending id w).2
  | EFinish id s m => (Evals.finish_running id s m w).2
  | EReject id m => (Evals.update_status id EvaluationStatus.Failed (Some m) w).2
  | ECancel id => (Evals.cancel id w).2
  | ERestart id => (Evals.restart id w).2
  | ESweep d => (Evals.sweep_orphaned d w).2
  | EHide id h => (Evals.set_hidden id h w).2
  | EInputs id h => (Evals.set_inputs_hash id h w).2
  | EOneShot id => (Jobsets.mark_one_shot_complete id w).2
  | EChecked id => (Jobsets.update_last_checked id w).2
  end.

(** A generated key is new. *)
Definition eop_ok (w : World) (o : eop) : Prop :=
  match o with
  | ECreate id _ _ _ | ESource id _ _ _ _ => w_evaluations w !! id = None
  | _ => True
  end.

Definition policies (w : World) : gmap Z bool := j_only_build_latest <$> w_jobsets w.

(** Everything else may happen too, as long as it leaves the evaluations and the
    policies alone: builds, time, faults, other tables. *)
Inductive estep : World → World → Prop :=
  | estep_op w o : eop_ok w o → estep w (eexec o w)
  | estep_env w w' :
      w_evaluations w' = w_evaluations w → policies w' = policies w → estep w w'.

Definition open_source (jobset : Uuid) (scope : string) (e : Evaluation) : Prop :=
  e_jobset_id e = jobset ∧ e_trigger_kind e = EvaluationTriggerKind.SourceChange ∧
  e_source_scope e = Some scope ∧ Evals.is_open e = true.

Definition one_open (w : World) : Prop :=
  ∀ jobset scope i1 i2 e1 e2, policies w !! jobset = Some true →
    w_evaluations w !! i1 = Some e1 → w_evaluations w !! i2 = Some e2 →
    open_source jobset scope e1 → open_source jobset scope e2 → i1 = i2.

Definition einv (w : World) : Prop := eval_keys w ∧ one_open w.

(** A step that opens nothing. *)
Definition opens_nothing (w w' : World) : Prop :=
  policies w' = policies w ∧
  ∀ i e', w_evaluations w' !! i = Some e' → ∃ e, w_evaluations w !! i = Some e ∧
    e_id e' = e_id e ∧ ∀ jobset scope, open_source jobset scope e' → open_source jobset scope e.

Lemma opens_nothing_inv w w' : opens_nothing w w' → einv w → einv w'.
Proof.
  intros [Hp Hn] [Hk Ho]. split.
  - intros i e' (e & He & -> & _)%Hn. by apply Hk.
  - intros jobset scope i1 i2 e1 e2 Hj (e1' & H1 & _ & Ho1)%Hn (e2' & H2 & _ & Ho2)%Hn S1 S2.
    rewrite Hp in Hj. eapply Ho; eauto.
Qed.

Lemma opens_nothing_refl w w' :
  w_evaluations w' = w_evaluations w → policies w' = policies w → opens_nothing w w'.
Proof. intros He Hp. split; [done|]. rewrite He. naive_solver. Qed.

Lemma tables_opens_nothing w w' : same_tables w w' → opens_nothing w w'.
Proof.
  intros (_ & _ & _ & He & Hj). apply opens_nothing_refl; [done|]. unfold policies. by rewrite Hj.
Qed.

Lemma opens_nothing_trans w w' w'' :
  opens_nothing w w' → opens_nothing w' w'' → opens_nothing w w''.
Proof.
  intros [P1 H1] [P2 H2]. split; [congruence|]. intros i e (e1 & He1 & ? & ?)%H2.
  apply H1 in He1 as (e0 & ? & ? & ?). exists e0. split_and!; [done|congruence|auto].
Qed.

(** A statement that fails opens nothing; otherwise what is left is its effect. *)
Ltac by_tables w :=
  match goal with
  | |- context [query ?f w] =>
      let w' := fresh "w'" in let e := fresh "e" in let Ht := fresh "Ht" in
      destruct (query_cases f w) as [(w' & Ht & _ & _ & _ & _ & ->)|(e & w' & Ht & ->)];
      (eapply opens_nothing_trans; [by apply tables_opens_nothing|]);
      [|by apply opens_nothing_refl]
  end.

Ltac inv_tables w :=
  match goal with
  | |- context [query ?f w] =>
      destruct (query_cases f w) as [(w' & Ht & _ & _ & _ & _ & ->)|(e & w' & Ht & ->)];
      (assert (einv w') as [Hk Ho]
         by (by eapply opens_nothing_inv; [apply tables_opens_nothing|]));
      [|by split]
  end.

(** A statement that rewrites one row. *)
Lemma update_opens_nothing id guard f w :
  (∀ w e, guard w e = true → e_id (f w e) = e_id e ∧
     ∀ jobset scope, open_source jobset scope (f w e) → open_source jobset scope e) →
  opens_nothing w (Evals.update id guard f w).2.
Proof.
  intros Hf. unfold Evals.update.
  by_tables w.
  destruct (w_evaluations w' !! id) as [e|] eqn:He; [|by apply opens_nothing_refl].
  destruct (guard w' e) eqn:Hg; [|by apply opens_nothing_refl].
  split; [done|]. simpl. intros i e'. rewrite lookup_insert. case_decide; [|naive_solver].
  subst i. intros [= <-]. exists e. split; [done|]. by apply Hf.
Qed.

(** A row that is closed, or open with the same source as before. *)
Ltac solve_row_opens :=
  apply update_opens_nothing; intros ?w e Hg; split; [done|];
  intros jobset scope; unfold open_source, Evals.is_open, Evals.has_status in *; simpl in *;
  try apply bool_decide_eq_true in Hg; naive_solver (try rewrite Hg; done).

Lemma sweep_opens_nothing d w : opens_nothing w (Evals.sweep_orphaned d w).2.
Proof.
  unfold Evals.sweep_orphaned.
  by_tables w.
  split; [done|]. simpl. intros i e'. rewrite lookup_fmap.
  intros (e & He & ->)%fmap_Some. exists e. split; [done|].
  destruct (Evals.is_orphaned d (w_now w') e) eqn:Ho; [|done]. split; [done|].
  apply andb_true_iff in Ho as [Hr%bool_decide_eq_true _].
  intros jobset scope. unfold open_source, Evals.is_open. rewrite Hr. naive_solver.
Qed.

Lemma restart_opens_nothing id w : opens_nothing w (Evals.restart id w).2.
Proof.
  unfold Evals.restart.
  by_tables w.
  destruct (w_evaluations w' !! id) as [e|] eqn:He; [|by apply opens_nothing_refl].
  destruct (Evals.restartable w' e); [|by apply opens_nothing_refl].
  unfold Evals.reenable_one_shot. simpl. rewrite lookup_insert_eq. split.
  - unfold policies. simpl. apply map_eq. intros k. rewrite !lookup_fmap, lookup_alter.
    case_decide as Hd; [|done]. rewrite <-Hd. destruct (w_jobsets w' !! _) as [j|]; [|done].
    simpl. by case_bool_decide.
  - simpl. intros i e'. rewrite lookup_insert. case_decide; [|naive_solver].
    subst i. intros [= <-]. exists e. split_and!; [done|done|].
    intros jobset scope (_ & Hk & _). simpl in Hk. by destruct (e_trigger_kind e).
Qed.

Lemma jobset_opens_nothing (f : World → Jobset → Jobset) id w :
  (∀ w j, j_only_build_latest (f w j) = j_only_build_latest j) →
  opens_nothing w
    (query (λ w, (Ok (), set_w_jobsets (alter (f w) id (w_jobsets w)) w)) w).2.
Proof.
  intros Hf.
  by_tables w.
  apply opens_nothing_refl; [done|]. unfold policies. simpl. apply map_eq. intros k.
  rewrite !lookup_fmap, lookup_alter. case_decide as Hd; [|done]. rewrite <-Hd.
  destruct (w_jobsets w' !! id); [|done]. simpl. by rewrite Hf.
Qed.

(** An insertion without a source. *)
Lemma create_inv_eval id i k s w :
  w_evaluations w !! id = None → einv w → einv (Evals.create_with_kind id i k s None w).2.
Proof.
  intros Hid Hinv. unfold Evals.create_with_kind.
  inv_tables w.
  destruct Ht as (_ & _ & _ & He & _). rewrite <-He in Hid.
  unfold Evals.insert_evaluation. destruct (negb _ && _); [by split|].
  destruct (w_jobsets w' !! _) as [j|]; [|by split]. split.
  - intros a e. simpl. rewrite lookup_insert. case_decide; [|apply Hk]. subst. by intros [= <-].
  - intros jobset scope i1 i2 e1 e2 Hp. simpl. rewrite !lookup_insert.
    repeat case_decide; subst; intros H1 H2 S1 S2; simplify_eq; try done;
      try (by destruct S1 as (_ & _ & ? & _)); try (by destruct S2 as (_ & _ & ? & _)).
    by eapply Ho.
Qed.

Lemma source_inv_eval id i s scope order w :
  w_evaluations w !! id = None → einv w → einv (Evals.create_automated id i s scope order w).2.
Proof.
  intros Hid Hinv. unfold Evals.create_automated.
  inv_tables w.
  destruct Ht as (_ & _ & _ & He & _). rewrite <-He in Hid. clear He.
  destruct (w_jobsets w' !! Evals.ce_jobset_id i) as [j|] eqn:Hj; [|by split].
  destruct (j_only_build_latest j && _); [by split|].
  unfold Evals.insert_evaluation. destruct (negb _ && _); [by split|]. rewrite Hj. simpl.
  set (e := Evals.new_evaluation _ _ _ _ _ _ _).
  assert (Hnew : ∀ jobset sc e0, open_source jobset sc e0 → e0 = e →
    jobset = Evals.ce_jobset_id i ∧ sc = scope).
  { intros jobset sc e0 (H1 & _ & H2 & _) ->. simpl in *. by simplify_eq. }
  destruct (j_only_build_latest j) eqn:Hlatest; split.
  - intros a e0. simpl. rewrite lookup_fmap. intros (e1 & H1 & ->)%fmap_Some.
    assert (e_id e1 = a) as Ha.
    { revert H1. rewrite lookup_insert. case_decide; [|apply Hk]. subst. by intros [= <-]. }
    case_match; [|done]. unfold Evals.set_superseded. by destruct (Evals.is_open e1).
  - intros jobset sc i1 i2 e1 e2 Hp. simpl. rewrite !lookup_fmap.
    intros (f1 & H1 & ->)%fmap_Some (f2 & H2 & ->)%fmap_Some S1 S2.
    set (w0 := set_w_source_heads _ _) in *.
    set (hit := λ e1, Evals.superseded_source id (Evals.ce_jobset_id i) scope e1 &&
      (Evals.is_open e1 || Evals.has_active_build w0 (e_id e1))) in *.
    assert (Hclosed : ∀ f sc, open_source jobset sc (if hit f then Evals.set_superseded id f else f) →
      hit f = false ∧ open_source jobset sc f).
    { intros f sc' Hs. destruct (hit f); [|done]. destruct Hs as (_ & _ & _ & Hop).
      by rewrite set_superseded_closed in Hop. }
    apply Hclosed in S1 as [N1 S1]. apply Hclosed in S2 as [N2 S2]. clear Hclosed.
    assert (Hother : ∀ k f, k ≠ id → w_evaluations w' !! k = Some f → hit f = false →
      open_source jobset sc f → ¬ (jobset = Evals.ce_jobset_id i ∧ sc = scope)).
    { intros k f Hne Hf Hh (O1 & O2 & O3 & O4) [-> ->]. unfold hit in Hh.
      rewrite O4, orb_true_l, andb_true_r in Hh.
      apply not_true_iff_false in Hh. apply Hh, superseded_source_spec. split_and!; try done.
      by rewrite (Hk k f Hf). }
    destruct (decide (id = i1)) as [<-|E1], (decide (id = i2)) as [<-|E2]; [done| | |].
    + rewrite lookup_insert_eq in H1. rewrite lookup_insert_ne in H2 by done.
      injection H1 as <-. exfalso. eapply (Hother i2 f2); eauto.
    + rewrite lookup_insert_eq in H2. rewrite lookup_insert_ne in H1 by done.
      injection H2 as <-. exfalso. eapply (Hother i1 f1); eauto.
    + rewrite lookup_insert_ne in H1, H2 by done. by eapply Ho.
  - intros a e0. simpl. rewrite lookup_insert. case_decide; [|apply Hk]. subst. by intros [= <-].
  - intros jobset sc i1 i2 e1 e2 Hp H1 H2 S1 S2. simpl in H1, H2.
    assert (Hnot : ∀ f, open_source jobset sc f → f = e → False).
    { intros f Hs Hf. destruct (Hnew _ _ _ Hs Hf) as [-> _]. unfold policies in Hp. simpl in Hp.
      rewrite lookup_fmap, Hj in Hp. simpl in Hp. congruence. }
    destruct (decide (id = i1)) as [<-|E1].
    { rewrite lookup_insert_eq in H1. injection H1 as <-. by destruct (Hnot e S1). }
    destruct (decide (id = i2)) as [<-|E2].
    { rewrite lookup_insert_eq in H2. injection H2 as <-. by destruct (Hnot e S2). }
    rewrite lookup_insert_ne in H1, H2 by done. by eapply Ho.
Qed.

Lemma eexec_inv o w : eop_ok w o → einv w → einv (eexec o w).
Proof.
  intros Hok Hinv. destruct o; cbn [eexec];
    unfold Evals.set_hidden, Evals.update_status, Evals.set_inputs_hash;
    rewrite ?snd_or_not_found, ?snd_bind_unit.
  - by apply create_inv_eval.
  - by apply source_inv_eval.
  - eapply opens_nothing_inv; [|done]. unfold Evals.try_claim_pending. solve_row_opens.
  - eapply opens_nothing_inv; [|done]. unfold Evals.finish_running. solve_row_opens.
  - eapply opens_nothing_inv; [|done]. solve_row_opens.
  - eapply opens_nothing_inv; [|done]. unfold Evals.cancel. solve_row_opens.
  - eapply opens_nothing_inv; [|done]. apply restart_opens_nothing.
  - eapply opens_nothing_inv; [|done]. apply sweep_opens_nothing.
  - eapply opens_nothing_inv; [|done]. solve_row_opens.
  - eapply opens_nothing_inv; [|done]. solve_row_opens.
  - eapply opens_nothing_inv; [|done].
    apply (jobset_opens_nothing (λ w j, if bool_decide (j_state j = JobsetState.OneShot)
      then set_j_updated_at (w_now w) (set_j_enabled false j) else j)). intros w0 j. by case_bool_decide.
  - eapply opens_nothing_inv; [|done].
    by apply (jobset_opens_nothing (λ w j,
      set_j_updated_at (w_now w) (set_j_last_checked_at (Some (w_now w)) j))).
Qed.

(** C17. At most one open evaluation per source.  In a latest-only jobset, whatever server,
    webhooks and any number of evaluators do to the table, in any order and with failing
    statements, no two evaluations of the same source are pending or running at once.  The
    one operation left out is the evaluator taking up a completed evaluation without builds
    again, which does not ask for the policy. *)
Theorem one_open_per_source w w' :
  einv w → rtc estep w w' →
  ∀ jobset j scope i1 i2 e1 e2,
    w_jobsets w' !! jobset = Some j → j_only_build_latest j = true →
    w_evaluations w' !! i1 = Some e1 → w_evaluations w' !! i2 = Some e2 →
    open_source jobset scope e1 → open_source jobset scope e2 → i1 = i2.
Proof.
  intros Hinv Hr. assert (einv w') as [_ Ho].
  { induction Hr as [|w w1 w' Hs _ IH]; [done|]. apply IH.
    destruct Hs as [w o Hok|w w2 He Hp]; [by apply eexec_inv|].
    by eapply opens_nothing_inv; [apply opens_nothing_refl|]. }
  intros jobset j scope i1 i2 e1 e2 Hj Hl. apply (Ho jobset).
  unfold policies. by rewrite lookup_fmap, Hj, <-Hl.
Qed.

(** ** Orphans *)

(** The claim of a running evaluation is dated by its start. *)
Definition claim_time (e : Evaluation) : DateTime := default (e_evaluation_time e) (e_started_at e).

(** An evaluator claims [id] and dies; the next sweep comes after the deadline. *)
Definition crash_round (deadline_secs : Z) (id : Uuid) (w : World) : World :=
  let w := (Evals.try_claim_pending id w).2 in
  (Evals.sweep_orphaned deadline_secs (set_w_now (w_now w + Sql.secs deadline_secs + 1) w)).2.

Lemma sweep_lookup d w i :
  w_faults w = [] →
  w_evaluations (Evals.sweep_orphaned d w).2 !! i =
  (λ e, if Evals.is_orphaned d (w_now w) e then Evals.swept (w_now w) e else e) <$>
    w_evaluations w !! i.
Proof. intros Hf. unfold Evals.sweep_orphaned, query. rewrite Hf. simpl. by rewrite lookup_fmap. Qed.

Lemma crash_round_spec d id w e :
  0 ≤ d → w_faults w = [] → w_evaluations w !! id = Some e →
  let w' := crash_round d id w in
  w_faults w' = [] ∧
  ∃ e', w_evaluations w' !! id = Some e' ∧
    (e_status e = EvaluationStatus.Pending →
       e_orphaned_count e' = e_orphaned_count e + 1 ∧
       e_status e' = if 2 <=? e_orphaned_count e then EvaluationStatus.Failed
                     else EvaluationStatus.Pending) ∧
    (e_status e = EvaluationStatus.Failed → e' = e).
Proof.
  intros Hd Hf He. cbn zeta. unfold crash_round.
  set (w1 := (Evals.try_claim_pending id w).2).
  assert (Hw1 : w_faults w1 = [] ∧ w_evaluations w1 !! id =
    Some (if Evals.has_status EvaluationStatus.Pending e then Evals.claimed (w_now w) e else e) ∧
    w_now w1 = w_now w).
  { unfold w1, Evals.try_claim_pending, Evals.update, query. rewrite Hf, He.
    destruct (Evals.has_status _ e); simpl; [by rewrite lookup_insert_eq|by rewrite He]. }
  clearbody w1. destruct Hw1 as (Hf1 & He1 & Hn1). split.
  { unfold Evals.sweep_orphaned, query. simpl. by rewrite Hf1. }
  rewrite sweep_lookup by done. simpl. rewrite He1. simpl. eexists. split; [done|].
  unfold Evals.has_status. split; intros Hs; rewrite Hs.
  - rewrite bool_decide_true by done. unfold Evals.is_orphaned, Evals.has_status. simpl.
    rewrite Hn1. destruct (Z.ltb_spec (w_now w) (w_now w + Sql.secs d + 1 - Sql.secs d)); [|lia].
    done.
  - rewrite bool_decide_false by done. unfold Evals.is_orphaned, Evals.has_status.
    by rewrite Hs, bool_decide_false by done.
Qed.

(** No evaluation is stuck.  A sweep leaves no evaluation running whose claim is older
    than the deadline; and an evaluation whose evaluator dies every time is queued again
    after each of the first two attempts and failed by the third, and stays failed. *)
Theorem orphans_given_up d id w e n :
  0 ≤ d → w_faults w = [] → w_evaluations w !! id = Some e →
  e_status e = EvaluationStatus.Pending → e_orphaned_count e = 0 →
  (∀ i e', w_evaluations (Evals.sweep_orphaned d w).2 !! i = Some e' →
     e_status e' = EvaluationStatus.Running → w_now w - Sql.secs d ≤ claim_time e') ∧
  ∃ e', w_evaluations (Nat.iter n (crash_round d id) w) !! id = Some e' ∧
    e_status e' = if (n <? 3)%nat then EvaluationStatus.Pending else EvaluationStatus.Failed.
Proof.
  intros Hd Hf He Hs Hc. split.
  { intros i e'. rewrite sweep_lookup by done. intros (e0 & Hi & ->)%fmap_Some.
    destruct (Evals.is_orphaned d (w_now w) e0) eqn:Ho.
    - simpl. by case_match.
    - intros Hr. unfold Evals.is_orphaned, Evals.has_status in Ho.
      rewrite Hr, bool_decide_true in Ho by done. simpl in Ho. by apply Z.ltb_ge in Ho. }
  assert (Hn : w_faults (Nat.iter n (crash_round d id) w) = [] ∧
    ∃ e', w_evaluations (Nat.iter n (crash_round d id) w) !! id = Some e' ∧
    if (n <? 3)%nat then e_status e' = EvaluationStatus.Pending ∧ e_orphaned_count e' = Z.of_nat n
    else e_status e' = EvaluationStatus.Failed).
  { induction n as [|n IH]; [simpl; eauto|]. destruct IH as [Hfn (e1 & He1 & H1)].
    simpl Nat.iter. destruct (crash_round_spec d id _ e1 Hd Hfn He1) as (Hf' & e2 & He2 & Hp & Hfl).
    split; [done|]. exists e2. split; [done|]. destruct (Nat.ltb_spec n 3) as [Hlt|Hge].
    - destruct H1 as [Hs1 Hc1]. destruct (Hp Hs1) as [Hc2 Hs2]. rewrite Hc1 in *.
      destruct (Nat.ltb_spec (S n) 3), (Z.leb_spec 2 (Z.of_nat n)); try lia; split || done; done || lia.
    - destruct (Nat.ltb_spec (S n) 3); [lia|]. by rewrite (Hfl H1). }
  destruct Hn as [_ (e' & He' & H')]. exists e'. split; [done|]. by case_match; [destruct H'|].
Qed.

(** ** What a push triggers *)

Section pushes.
Variable new_id : Uuid → Uuid.

(** A jobset of the project that takes the push. *)
Definition takes_push (w : World) (commit : string) (previous : option string)
    (r : PushedRef) (j : Jobset) : bool :=
  jobset_accepts_source_trigger j && jobset_matches_push_ref j r &&
  (negb (j_only_build_latest j) ||
   Evals.accepts (push_source_order r previous)
     (w_source_heads w !! (j_id j, push_source_scope r))) &&
  negb (Evals.duplicate w (j_id j) commit).

Lemma enqueue_one_spec w j commit previous r :
  w_faults w = [] → w_jobsets w !! j_id j = Some j →
  jobset_accepts_source_trigger j && jobset_matches_push_ref j r = true →
  enqueue_one new_id (push_input (j_id j) commit) (push_source_scope r)
    (push_source_order r previous) w =
  if takes_push w commit previous r j
  then (Ok 1, after_source (new_id (j_id j)) (push_input (j_id j) commit)
                EvaluationStatus.Pending (push_source_scope r) (push_source_order r previous)
                (j_only_build_latest j) w)
  else (Ok 0, w).
Proof.
  intros Hf Hj Hm. unfold takes_push. rewrite Hm. unfold enqueue_one, mbind, mtry, Evals.enqueue_source.
  rewrite (create_automated_no_fault _ _ _ _ _ _ j) by done. simpl.
  destruct (j_only_build_latest j), (Evals.accepts _ _); simpl; try done;
    by destruct (Evals.duplicate _ _ _).
Qed.

(** An accepted push touches the rows of its jobset only. *)
Lemma after_source_tables id i s scope order latest w :
  let w' := after_source id i s scope order latest w in
  w_faults w' = w_faults w ∧ w_jobsets w' = w_jobsets w ∧
  (∀ k sc, k ≠ Evals.ce_jobset_id i → w_source_heads w' !! (k, sc) = w_source_heads w !! (k, sc)).
Proof.
  cbn zeta. unfold after_source. destruct latest; simpl; split_and!; try done;
    intros k sc Hk; by rewrite lookup_insert_ne by congruence.
Qed.

Lemma after_source_rows id i s scope order latest w k e :
  w_evaluations w !! id = None → e_jobset_id e ≠ Evals.ce_jobset_id i →
  w_evaluations (after_source id i s scope order latest w) !! k = Some e ↔
  w_evaluations w !! k = Some e.
Proof.
  intros Hid He. destruct latest; cycle 1.
  { unfold after_source. simpl. rewrite lookup_insert. case_decide as Hd; [|done]. subst k. split.
    - intros [= <-]. done.
    - congruence. }
  rewrite after_source_lookup, lookup_insert. case_decide as Hd.
  { subst k. rewrite Hid. simpl. split; [|done]. intros [= <-]. exfalso.
    by rewrite superseded_source_self in He. }
  destruct (w_evaluations w !! k) as [e0|] eqn:E; [|done]. simpl.
  destruct (Evals.superseded_source _ _ _ e0) eqn:Hs; [|done].
  apply superseded_source_spec in Hs as (Hs & _). simpl. split.
  - intros [= <-]. exfalso. apply He. unfold Evals.set_superseded. destruct (Evals.is_open e0); simpl; [done|].
    by destruct (Evals.has_active_build _ _).
  - intros [= <-]. done.
Qed.

Lemma after_source_new i s scope order latest w id :
  let w' := after_source id i s scope order latest w in
  w_evaluations w' !! id =
  Some (Evals.new_evaluation id (w_now w) i s EvaluationTriggerKind.SourceChange (Some scope)
    (Evals.base_commit order (w_source_heads w !! (Evals.ce_jobset_id i, scope)))).
Proof.
  cbn zeta. destruct latest.
  - rewrite after_source_lookup, lookup_insert_eq. simpl. by rewrite superseded_source_self by done.
  - unfold after_source. simpl. by rewrite lookup_insert_eq.
Qed.

Lemma after_source_duplicate id i s scope order latest w k commit :
  w_evaluations w !! id = None → k ≠ Evals.ce_jobset_id i →
  Evals.duplicate (after_source id i s scope order latest w) k commit = Evals.duplicate w k commit.
Proof.
  intros Hid Hk. apply eq_true_iff_eq. rewrite !duplicate_spec. split.
  - intros (x & e & He & Hj & ? & ?). exists x, e. split_and!; try done.
    apply after_source_rows in He; [done|done|congruence].
  - intros (x & e & He & Hj & ? & ?). exists x, e. split_and!; try done.
    apply after_source_rows; [done|congruence|done].
Qed.

(** What the loop leaves behind. *)
Record pushed (w w' : World) (commit : string) (r : PushedRef) (hit : list Jobset) : Prop := {
  pushed_new j : j ∈ hit → ∃ e, w_evaluations w' !! new_id (j_id j) = Some e ∧
    e_jobset_id e = j_id j ∧ e_commit_hash e = commit ∧
    e_status e = EvaluationStatus.Pending ∧
    e_trigger_kind e = EvaluationTriggerKind.SourceChange ∧
    e_source_scope e = Some (push_source_scope r);
  pushed_rest k e : e_jobset_id e ∉ j_id <$> hit →
    w_evaluations w' !! k = Some e ↔ w_evaluations w !! k = Some e;
}.

Lemma push_loop_spec l commit previous r w n :
  w_faults w = [] → (∀ j, j ∈ l → w_jobsets w !! j_id j = Some j) → NoDup (j_id <$> l) →
  (∀ k, w_evaluations w !! new_id k = None ∨ k ∉ j_id <$> l) → Inj (=) (=) new_id →
  let hit := List.filter (takes_push w commit previous r) l in
  ∃ w', push_loop new_id l commit previous r n w = (Ok (n + Z.of_nat (length hit)), w') ∧
    pushed w w' commit r hit.
Proof.
  intros Hf Hj Hnd Hfresh Hinj. cbn zeta. revert w n Hf Hj Hfresh.
  induction l as [|j l IH]; intros w n Hf Hj Hfresh; simpl.
  { exists w. split; [by rewrite Z.add_0_r|]. split; [by intros j ?%elem_of_nil|done]. }
  rewrite fmap_cons, NoDup_cons in Hnd. destruct Hnd as [Hjl Hnd]. specialize (IH Hnd).
  assert (Hjj : w_jobsets w !! j_id j = Some j) by (apply Hj; left).
  destruct (jobset_accepts_source_trigger j && jobset_matches_push_ref j r) eqn:Hm; cycle 1.
  { assert (Ht : takes_push w commit previous r j = false) by (unfold takes_push; by rewrite Hm).
    rewrite Ht. apply IH; [done|intros; apply Hj; by right|].
    intros k. destruct (Hfresh k); [by left|right; set_solver]. }
  unfold mbind. rewrite enqueue_one_spec by done.
  destruct (takes_push w commit previous r j) eqn:Ht; cycle 1.
  { rewrite Z.add_0_r. apply IH; [done|intros; apply Hj; by right|].
    intros k. destruct (Hfresh k); [by left|right; set_solver]. }
  set (w1 := after_source _ _ _ _ _ _ w).
  assert (Hid : w_evaluations w !! new_id (j_id j) = None) by (destruct (Hfresh (j_id j)); [done|set_solver]).
  destruct (after_source_tables (new_id (j_id j)) (push_input (j_id j) commit)
    EvaluationStatus.Pending (push_source_scope r) (push_source_order r previous)
    (j_only_build_latest j) w) as (Hf1 & Hj1 & Hh1). fold w1 in Hf1, Hj1, Hh1.
  assert (Hsame : List.filter (takes_push w1 commit previous r) l =
                  List.filter (takes_push w commit previous r) l).
  { apply List.filter_ext_in. intros j' Hin%list_elem_of_In. unfold takes_push.
    assert (j_id j' ≠ j_id j) by (intros E; apply Hjl; rewrite <-E; by apply list_elem_of_fmap_2).
    rewrite Hh1 by done. unfold w1. by rewrite after_source_duplicate by done. }
  destruct (IH w1 (n + 1)) as (w' & Hl & [Hnew Hrest]).
  { by rewrite Hf1. }
  { intros j' Hj'. rewrite Hj1. apply Hj. by right. }
  { intros k. destruct (decide (k ∈ j_id <$> l)) as [Hk|]; [|by right]. left.
    destruct (w_evaluations w1 !! new_id k) as [e|] eqn:E; [|done]. exfalso.
    assert (k ≠ j_id j) by (intros ->; done).
    assert (Hnone : w_evaluations w !! new_id k = None) by (destruct (Hfresh k); [done|set_solver]).
    unfold w1 in E. destruct (j_only_build_latest j).
    - rewrite after_source_lookup, lookup_insert_ne, Hnone in E by (intros E'; by apply Hinj in E').
      done.
    - unfold after_source in E. simpl in E.
      rewrite lookup_insert_ne, Hnone in E by (intros E'; by apply Hinj in E'). done. }
  rewrite Hsame in *. exists w'. split.
  { rewrite Hl. simpl length. do 2 f_equal. lia. }
  split.
  - intros j' [->|Hj']%elem_of_cons; [|by apply Hnew].
    eexists. split; [apply Hrest; [|apply after_source_new]|done].
    simpl. intros (j'' & E & Hin)%list_elem_of_fmap. apply Hjl. rewrite E.
    apply list_elem_of_fmap_2. apply list_elem_of_In. apply list_elem_of_In in Hin.
    by apply filter_In in Hin as [? _].
  - intros k e. rewrite fmap_cons, not_elem_of_cons. intros [Hne Hin].
    rewrite (Hrest k e Hin). unfold w1. by apply after_source_rows.
Qed.

(** *** What a push should trigger

    Spelled out on the columns of the jobset, the heads and the rows, independently of
    the conditions of the loop. *)

(** The branches a jobset without a pattern follows: the one it names, with or without
    the prefix of a ref, or every branch if it follows no tags either. *)
Definition follows_branch (j : Jobset) (b : string) : Prop :=
  match j_branch j with
  | Some name => name = "refs/heads/" +:+ b ∨
                 name = b ∧ ¬ (∃ rest, name = "refs/heads/" +:+ rest)
  | None => j_tag_pattern j = None
  end.

Definition follows (j : Jobset) (r : PushedRef) : Prop :=
  match r with
  | Branch b => match j_branch_pattern j with
                | Some p => glob (str_chars p) (str_chars b)
                | None => follows_branch j b
                end
  | Tag t => ∃ p, j_tag_pattern j = Some p ∧ glob (str_chars p) (str_chars t)
  | Other _ => False
  end.

(** The push starts at the last revision of its branch the jobset knows, if any; tags
    have no order. *)
Definition push_continues (w : World) (j : Jobset) (r : PushedRef) (previous : option string) :
    Prop :=
  match r with
  | Branch b =>
      let head := w_source_heads w !! (j_id j, "branch:" +:+ b) in
      head = None ∨ is_some previous = true ∧ head = previous
  | _ => True
  end.

Record should_trigger (w : World) (project : Uuid) (commit : string)
    (previous : option string) (r : PushedRef) (j : Jobset) : Prop := {
  st_project : j_project_id j = project;
  st_enabled : j_enabled j = true;
  st_mode : j_trigger_mode j = JobsetTriggerMode.SourceChange;
  st_follows : follows j r;
  st_new : ¬ evaluated w (j_id j) commit;
  st_continues : j_only_build_latest j = true → push_continues w j r previous;
}.

Lemma matches_follows j r : jobset_matches_push_ref j r = true ↔ follows j r.
Proof.
  destruct r as [b|t|g]; simpl; [| |done].
  - unfold jobset_matches_branch. destruct (j_branch_pattern j) as [p|]; [apply glob_matches_exact|].
    unfold follows_branch. destruct (j_branch j) as [name|]; simpl; cycle 1.
    { by destruct (j_tag_pattern j). }
    rewrite bool_decide_eq_true. unfold normalize_branch_name.
    destruct (strip_prefix "refs/heads/" name) as [rest|] eqn:E; simpl.
    + apply strip_prefix_some in E as ->. split; [intros ->; by left|].
      intros [E|[_ []]]; [|by exists rest].
      apply (f_equal (strip_prefix "refs/heads/")) in E. rewrite !strip_prefix_app in E. congruence.
    + split; [|intros [->|[? _]]; [by rewrite strip_prefix_app in E|done]].
      intros <-. right. split; [done|]. intros (rest & ->). by rewrite strip_prefix_app in E.
  - unfold jobset_matches_tag. destruct (j_tag_pattern j) as [p|]; [|naive_solver].
    rewrite glob_matches_exact. naive_solver.
Qed.

Lemma accepts_push w j r previous :
  Evals.accepts (push_source_order r previous) (w_source_heads w !! (j_id j, push_source_scope r)) =
    true ↔ push_continues w j r previous.
Proof.
  rewrite accepts_continues. destruct r as [b|t|g]; simpl; [|done|done].
  destruct previous; simpl; destruct (w_source_heads w !! _); naive_solver.
Qed.

Lemma takes_push_spec w project commit previous r j :
  (j_project_id j =? project) && takes_push w commit previous r j = true ↔
  should_trigger w project commit previous r j.
Proof.
  unfold takes_push, jobset_accepts_source_trigger.
  rewrite !andb_true_iff, Z.eqb_eq, bool_decide_eq_true, matches_follows, orb_true_iff, accepts_push,
    !negb_true_iff.
  assert (Hd : Evals.duplicate w (j_id j) commit = false ↔ ¬ evaluated w (j_id j) commit).
  { unfold evaluated. rewrite <-duplicate_spec. by destruct (Evals.duplicate _ _ _). }
  rewrite Hd. split.
  - intros (? & ((([? ?] & ?) & Hl) & ?)). split; try done. intros Hlatest.
    destruct Hl as [Hl|]; [congruence|done].
  - intros [? ? ? ? ? Hc]. split_and!; try done.
    destruct (j_only_build_latest j); [right; by apply Hc|by left].
Qed.

End pushes.

(** A fast-forward stalls a branch.  In a latest-only jobset let the head of a branch
    be [a] and let the commit [c] have been evaluated, say as a change request.  Then the
    push that moves the branch from [a] to [c] is refused, and so is, whatever they
    bring, every later push of the branch that does not start at [a] again; the table
    stays as it is. *)
Theorem fast_forward_stalls_branch new_id w j branch a c later :
  w_faults w = [] → w_jobsets w !! j_id j = Some j → j_only_build_latest j = true →
  w_source_heads w !! (j_id j, push_source_scope (Branch branch)) = Some a →
  Evals.duplicate w (j_id j) c = true → a ∉ c :: later →
  Forall (λ push : string * string,
    enqueue_one new_id (push_input (j_id j) push.2) (push_source_scope (Branch branch))
      (push_source_order (Branch branch) (Some push.1)) w = (Ok 0, w))
    (zip (a :: c :: later) (c :: later)).
Proof.
  intros Hf Hj Hl Hh Hd Ha.
  assert (Hone : ∀ p x, Evals.accepts (Evals.After p) (Some a) = false ∨
    Evals.duplicate w (j_id j) x = true →
    enqueue_one new_id (push_input (j_id j) x) (push_source_scope (Branch branch))
      (push_source_order (Branch branch) (Some p)) w = (Ok 0, w)).
  { intros p x Hor. unfold enqueue_one, mbind, mtry, Evals.enqueue_source.
    rewrite (create_automated_no_fault _ _ _ _ _ _ j) by done. simpl in *. rewrite Hl, Hh.
    destruct Hor as [->| ->]; [done|]. by case_bool_decide. }
  change (zip (a :: c :: later) (c :: later)) with ((a, c) :: zip (c :: later) later).
  constructor; [apply Hone; by right|]. apply Forall_forall. intros [p x] Hin.
  apply Hone. left. simpl. apply bool_decide_false. intros <-.
  apply Ha. by apply elem_of_zip_l in Hin.
Qed.

(** ** Witnesses *)

Definition ci_jobset : Jobset :=
  {| j_id := 1; j_project_id := 4; j_name := "ci"; j_nix_expression := "hydraJobs";
     j_enabled := true; j_flake_mode := true; j_check_interval := 60;
     j_trigger_mode := JobsetTriggerMode.SourceChange; j_branch := Some "main";
     j_branch_pattern := None; j_tag_pattern := None; j_scheduling_shares := 100;
     j_created_at := 0; j_updated_at := 0; j_state := JobsetState.Enabled;
     j_last_checked_at := None; j_keep_nr := 3; j_systems := None;
     j_only_build_latest := true; j_path_filters := [] |}.

Definition ci_evaluation (id : Uuid) (commit : string) (status : EvaluationStatus.t) : Evaluation :=
  Evals.new_evaluation id 0 (push_input 1 commit) status EvaluationTriggerKind.SourceChange
    (Some "branch:main") None.

(** Commit [a] is being evaluated, [c] has been as a change request. *)
Definition ci_world : World :=
  set_w_jobsets {[ 1 := ci_jobset ]}
    (set_w_source_heads {[ (1, "branch:main") := "a" ]}
      (set_w_evaluations
         {[ 10 := ci_evaluation 10 "a" EvaluationStatus.Pending;
            11 := set_e_source_scope (Some "change-request:7")
                    (ci_evaluation 11 "c" EvaluationStatus.Completed) ]} empty_world)).

Lemma ci_keys : eval_keys ci_world.
Proof.
  intros i e. unfold ci_world. simpl.
  intros [[<- <-]|[_ [<- <-]%lookup_singleton_Some]]%lookup_insert_Some; done.
Qed.

Lemma ci_inv : einv ci_world.
Proof.
  split; [apply ci_keys|]. intros jobset scope i1 i2 e1 e2 _. unfold ci_world. simpl.
  intros [[<- <-]|[_ [<- <-]%lookup_singleton_Some]]%lookup_insert_Some
    [[<- <-]|[_ [<- <-]%lookup_singleton_Some]]%lookup_insert_Some (_ & _ & _ & O1) (_ & _ & _ & O2);
    done.
Qed.


Lemma one_open_per_source_witness :
  let w' := eexec (ESource 12 (push_input 1 "b") EvaluationStatus.Pending "branch:main"
                     (Evals.After "a")) ci_world in
  match w_evaluations w' !! 10, w_evaluations w' !! 12 with
  | Some e1, Some e2 => e_source_scope e1 = e_source_scope e2 ∧
                        Evals.is_open e1 && Evals.is_open e2 = false
  | _, _ => False
  end.
Proof.
  cbn zeta.
  set (op := ESource 12 (push_input 1 "b") EvaluationStatus.Pending "branch:main" (Evals.After "a")).
  pose proof (one_open_per_source ci_world _ ci_inv (rtc_once _ _ (estep_op ci_world op eq_refl))
    1 ci_jobset "branch:main" 10 12) as H.
  destruct (w_evaluations _ !! 10) as [e1|] eqn:E1; [|by vm_compute in E1].
  destruct (w_evaluations _ !! 12) as [e2|] eqn:E2; [|by vm_compute in E2].
  assert (Hs : e_source_scope e1 = Some "branch:main" ∧ e_source_scope e2 = Some "branch:main" ∧
    e_jobset_id e1 = 1 ∧ e_jobset_id e2 = 1 ∧
    e_trigger_kind e1 = EvaluationTriggerKind.SourceChange ∧
    e_trigger_kind e2 = EvaluationTriggerKind.SourceChange).
  { vm_compute in E1, E2. injection E1 as <-. injection E2 as <-. by vm_compute. }
  destruct Hs as (S1 & S2 & ? & ? & ? & ?). split; [congruence|].
  destruct (Evals.is_open e1) eqn:O1, (Evals.is_open e2) eqn:O2; try reflexivity.
  exfalso. assert (10 = 12); [|lia].
  apply (H e1 e2); [reflexivity|reflexivity|reflexivity|reflexivity|by repeat split|by repeat split].
Defined.

Lemma orphans_given_up_witness :
  e_status <$> w_evaluations (Nat.iter 5 (crash_round 3600 10) ci_world) !! 10 =
    Some EvaluationStatus.Failed.
Proof.
  destruct (orphans_given_up 3600 10 ci_world (ci_evaluation 10 "a" EvaluationStatus.Pending) 5
    ltac:(lia) eq_refl eq_refl eq_refl eq_refl) as [_ (e & He & Hs)].
  rewrite He. simpl. f_equal. exact Hs.
Defined.

Lemma ci_should_trigger :
  should_trigger ci_world 4 "b" (Some "a") (Branch "main") ci_jobset.
Proof.
  split; try reflexivity.
  - right. split; [reflexivity|]. intros (rest & E). discriminate E.
  - intros (i & e & Hi & _ & Hc & _). revert Hi. unfold ci_world. simpl.
    by intros [[<- <-]|[_ [<- <-]%lookup_singleton_Some]]%lookup_insert_Some.
  - intros _. right. split; reflexivity.
Qed.


Lemma fast_forward_stalls_branch_witness :
  Forall (λ push : string * string,
    enqueue_one id (push_input 1 push.2) "branch:main" (Evals.After push.1) ci_world =
      (Ok 0, ci_world)) [("a", "c"); ("c", "d"); ("d", "e")].
Proof.
  apply (fast_forward_stalls_branch id ci_world ci_jobset "main" "a" "c" ["d"; "e"]);
    try reflexivity. apply not_elem_of_cons. split; [done|]. by rewrite !elem_of_cons, elem_of_nil; intros [|[|]].
Defined.
