(* ===== verification/NixJobs.v ===== *)
(** * What the Nix evaluator reports ([crates/evaluator/src/nix.rs])

    Jobs made of the events of the evaluator and of [nix derivation show], the features a
    derivation requires ([crates/nix/src/derivation.rs]), the flake reference that is
    evaluated ([nix/flake_ref.rs]), the URIs a restricted evaluation may fetch
    ([nix/flake_lock.rs]) and the collection of an evaluation ([nix/eval_command.rs]).
    A hash map whose iteration order matters is the list of its entries in that order.
    The [url] crate is a parameter. *)

From S2P Require Import Prelude Types Float32 Db.

(** ** Jobs *)

Record NixMeta := {
  nm_description : option string;
  nm_license : option string;
  nm_homepage : option string;
  nm_maintainers : option string;
}.

Definition NixMeta_default : NixMeta :=
  {| nm_description := None; nm_license := None; nm_homepage := None; nm_maintainers := None |}.

Record NixJob := {
  jb_name : string;
  jb_drv_path : string;
  jb_system : option string;
  jb_outputs : option (list (string * string));
  jb_input_drvs : option (list (string * Json));
  jb_constituents : option (list string);
  jb_meta : NixMeta;
}.

(** The first of the keys that is present, if its value is a text. *)
Fixpoint first_key (keys : list string) (v : Json) : option Json :=
  match keys with
  | [] => None
  | k :: keys => match json_get k v with Some x => Some x | None => first_key keys v end
  end.

Definition first_text (keys : list string) (v : Json) : option string :=
  let* x := first_key keys v in json_str x.

(** [(!parts.is_empty()).then(|| parts.join(", "))]. *)
Definition join_parts (parts : list string) : option string :=
  match parts with [] => None | _ => Some (str_join ", " parts) end.

Fixpoint flatten_license (v : Json) : option string :=
  match v with
  | JStr s => Some s
  | JObj _ => first_text ["fullName"; "spdxId"; "shortName"] v
  | JArr arr =>
      join_parts ((fix go (l : list Json) : list string :=
        match l with
        | [] => []
        | x :: l => match flatten_license x with Some s => s :: go l | None => go l end
        end) arr)
  | _ => None
  end.

Definition maintainer (m : Json) : option string :=
  match m with
  | JStr s => Some s
  | JObj _ => first_text ["github"; "name"; "email"] m
  | _ => None
  end.

Definition flatten_maintainers (v : Json) : option string :=
  let* arr := json_array v in join_parts (omap maintainer arr).

Definition homepage (x : Json) : option string :=
  match x with
  | JStr s => Some s
  | JArr arr => head (omap json_str arr)
  | _ => None
  end.

Definition parse_meta (v : option Json) : NixMeta :=
  match v with
  | Some (JObj _ as map) =>
      {| nm_description := json_get_str "description" map;
         nm_license := obind (json_get "license" map) flatten_license;
         nm_homepage := obind (json_get "homepage" map) homepage;
         nm_maintainers := obind (json_get "maintainers" map) flatten_maintainers |}
  | _ => NixMeta_default
  end.

(** [evix::Derivation]. *)
Record Derivation := {
  dr_attr : string;
  dr_name : string;
  dr_system : string;
  dr_drv_path : string;
  dr_outputs : list (string * option string);
  dr_input_drvs : list (string * Json);
  dr_constituents : option (list string);
  dr_meta : option Json;
}.

(** [(!l.is_empty()).then_some(l)]. *)
Definition non_nil {A} (l : list A) : option (list A) :=
  match l with [] => None | _ => Some l end.

Definition nix_job_from_derivation (drv : Derivation) : NixJob :=
  {| jb_name := if decide (dr_attr drv = "") then dr_name drv else dr_attr drv;
     jb_drv_path := dr_drv_path drv;
     jb_system := if decide (dr_system drv = "") then None else Some (dr_system drv);
     jb_outputs := non_nil (omap (λ kv, (λ p, (kv.1, p)) <$> kv.2) (dr_outputs drv));
     jb_input_drvs := non_nil (dr_input_drvs drv);
     jb_constituents := obind (dr_constituents drv) non_nil;
     jb_meta := parse_meta (dr_meta drv) |}.

(** ** Expressions *)

Definition normalize_flake_expression (expression : string) : string :=
  let expression :=
    match strip_prefix ".#" expression with
    | Some e => e
    | None => default expression (strip_prefix "#" expression)
    end in
  if decide (expression = ".") then "" else expression.

Definition rewrite_nixos_config_expr (expr : string) : option string :=
  match split_by (char_is "."%char) expr with
  | ["nixosConfigurations"; name] =>
      Some ("nixosConfigurations." +:+ name +:+ ".config.system.build.toplevel")
  | _ => None
  end.

Definition is_store_path (value : string) : bool := starts_with "/nix/store/" value.

(** [Path::file_name]: the last component that is not [.]; none for [..]. *)
Definition path_components (p : string) : list string :=
  List.filter (λ c, negb (bool_decide (c = "")) && negb (bool_decide (c = ".")))
    (split_by (char_is "/"%char) p).

Definition file_name (p : string) : option string :=
  match last (path_components p) with
  | Some c => if decide (c = "..") then None else Some c
  | None => None
  end.

(** [flatten_attrs]. *)
Definition child_prefix (prefix key : string) : string :=
  if decide (prefix = "") then key else prefix +:+ "." +:+ key.

Definition attr_drv (v : Json) : option string :=
  match json_get_str "type" v with
  | Some t => if decide (t = "derivation") then first_text ["drvPath"; "drv_path"] v else None
  | None => None
  end.

Fixpoint flatten_attrs (prefix : string) (value : Json) : list (string * string) :=
  match value with
  | JStr s => if is_store_path s then [(prefix, s)] else []
  | JObj map =>
      match attr_drv value with
      | Some drv_path => [(prefix, drv_path)]
      | None =>
          (fix go (l : list (string * Json)) : list (string * string) :=
             match l with
             | [] => []
             | (key, v) :: l => flatten_attrs (child_prefix prefix key) v ++ go l
             end) map
      end
  | _ => []
  end.

(** ** [nix derivation show] *)

(** Newer versions wrap the derivations. *)
Definition shown_derivations (value : Json) : option (list (string * Json)) :=
  match json_get "derivations" value with
  | Some (JObj l) => Some l
  | _ => match value with JObj l => Some l | _ => None end
  end.

Definition store_prefixed (drv_path : string) : string :=
  if starts_with "/nix/store/" drv_path then drv_path else "/nix/store/" +:+ drv_path.

Definition shown_outputs (drv_val : Json) : option (list (string * string)) :=
  match json_get "outputs" drv_val with
  | Some (JObj map) =>
      non_nil (omap (λ kv, (λ p, (kv.1, p)) <$> first_text ["path"; "outPath"] kv.2) map)
  | _ => None
  end.

Definition shown_input_drvs (drv_val : Json) : option (list (string * Json)) :=
  match json_get "inputDrvs" drv_val with Some (JObj l) => Some l | _ => None end.

Record ShownDerivation := {
  sd_drv_path : string;
  sd_system : option string;
  sd_outputs : option (list (string * string));
  sd_input_drvs : option (list (string * Json));
}.

Definition parse_derivation_show (value : Json) : option ShownDerivation :=
  let* derivations := shown_derivations value in
  match derivations with
  | [] => None
  | (drv_path, drv_val) :: _ =>
      Some {| sd_drv_path := store_prefixed drv_path;
              sd_system := json_get_str "system" drv_val;
              sd_outputs := shown_outputs drv_val;
              sd_input_drvs := shown_input_drvs drv_val |}
  end.

(** ** Required features *)

Section features.
(** [serde_json::from_str]. *)
Variable json_from_str : string → option Json.

Definition features_of_structured (sa : Json) : list string :=
  match json_get_array "requiredSystemFeatures" sa with
  | Some arr => List.filter (λ s, negb (bool_decide (s = ""))) (omap json_str arr)
  | None => []
  end.

Definition feature_separators : list string := white_space ++ [":"; ","].

(** [split] at white space, colons and commas, without the empty pieces. *)
Fixpoint split_features (fuel : nat) (acc s : string) : list string :=
  let piece := if decide (acc = "") then [] else [String.rev acc] in
  match fuel, s with
  | S fuel, String a t =>
      match strip_any feature_separators s with
      | Some t => piece ++ split_features fuel "" t
      | None => split_features fuel (String a acc) t
      end
  | _, _ => piece
  end.

Definition features_of_drv (drv : Json) : list string :=
  match drv with
  | JObj _ =>
      match json_get "structuredAttrs" drv with
      | Some sa => features_of_structured sa
      | None =>
          match json_get "env" drv with
          | Some (JObj _ as env) =>
              match json_get_str "__json" env with
              | Some s => match json_from_str s with
                          | Some sa => features_of_structured sa
                          | None => []
                          end
              | None =>
                  match json_get_str "requiredSystemFeatures" env with
                  | Some s => split_features (String.length s) "" s
                  | None => []
                  end
              end
          | _ => []
          end
      end
  | _ => []
  end.

(** A [BTreeSet] of texts, listed. *)
Definition btree_set (l : list string) : list string := dedup (sort_strings l).

Definition drv_required_features (drv : Json) : list string := btree_set (features_of_drv drv).

Definition union_required_features (parsed : Json) : list string :=
  match parsed with
  | JObj _ =>
      btree_set (flat_map (λ kv, features_of_drv kv.2) (default [] (shown_derivations parsed)))
  | _ => []
  end.

End features.

(** ** Evaluating all configurations *)

(** [Path::extension]: what follows the last dot of the file name, if it is not the
    first character. *)
Definition extension (p : string) : option string :=
  let* name := file_name p in
  match rev (split_by (char_is "."%char) name) with
  | ext :: (_ :: _) as before =>
      if decide (before = [""]) then None else Some ext
  | _ => None
  end.

Definition ascii_lower (c : ascii) : ascii :=
  if in_range "A" "Z" c then ascii_of_N (N_of_ascii c + 32) else c.
Definition to_ascii_lowercase (s : string) : string := str_of (ascii_lower <$> str_chars s).

Definition is_store_drv_path (value : string) : bool :=
  is_store_path value &&
  match extension value with
  | Some ext => bool_decide (to_ascii_lowercase ext = "drv")
  | None => false
  end.

(** [evaluate_all_nixos_configs] from the parsed output of [nix eval]; [resolve] is the
    answer of [nix derivation show] for a flake reference. *)
Definition nixos_config_job (flake_ref : string) (resolve : string → option Json)
    (entry : string * string) : option NixJob :=
  let drv_ref := flake_ref +:+ "#nixosConfigurations." +:+ entry.1 +:+
                 ".config.system.build.toplevel" in
  match obind (resolve drv_ref) parse_derivation_show with
  | Some shown =>
      Some {| jb_name := entry.1; jb_drv_path := sd_drv_path shown;
              jb_system := sd_system shown; jb_outputs := sd_outputs shown;
              jb_input_drvs := sd_input_drvs shown; jb_constituents := None;
              jb_meta := NixMeta_default |}
  | None =>
      if is_store_drv_path entry.2
      then Some {| jb_name := entry.1; jb_drv_path := entry.2; jb_system := None;
                   jb_outputs := None; jb_input_drvs := None; jb_constituents := None;
                   jb_meta := NixMeta_default |}
      else None
  end.

Definition nixos_config_jobs (flake_ref : string) (resolve : string → option Json)
    (value : Json) : list NixJob :=
  omap (nixos_config_job flake_ref resolve) (flatten_attrs "" value).

(** ** Collecting an evaluation *)

Record EvalResult := {
  er_jobs : list NixJob;
  er_error_count : Z;
  er_errors : list string;
}.

Definition MAX_REPORTED_ERRORS : nat := 3.
Definition MAX_REPORTED_ERROR_CHARS : nat := 1024.

(** The first [n] characters of a UTF-8 text and the rest: a continuation byte belongs to
    the character before it. *)
Definition is_continuation (c : ascii) : bool :=
  (128 <=? byte_of c) && (byte_of c <? 192).

Fixpoint take_chars (n : nat) (l : list ascii) : list ascii * list ascii :=
  match l with
  | [] => ([], [])
  | c :: rest =>
      if is_continuation c then let (a, b) := take_chars n rest in (c :: a, b)
      else match n with
           | O => ([], l)
           | S n => let (a, b) := take_chars n rest in (c :: a, b)
           end
  end.

Definition reported_error (attr error : string) : string :=
  let (reported, rest) := take_chars MAX_REPORTED_ERROR_CHARS
                            (str_chars (attr +:+ ": " +:+ error)) in
  match rest with [] => str_of reported | _ => str_of reported +:+ "..." end.

Definition empty_evaluation_error (error_count : Z) (errors : list string) : string :=
  if error_count =? 0 then "evaluation discovered no buildable derivations"
  else
    let omitted := Z.max (error_count - Z.of_nat (length errors)) 0 in
    let suffix := if omitted =? 0 then ""
                  else "; " +:+ pretty omitted +:+ " additional attribute error(s) omitted" in
    "evaluation discovered no buildable derivations; evix reported " +:+
    pretty error_count +:+ " attribute error(s): " +:+ str_join "; " errors +:+ suffix.

(** [evix::Event]. *)
Inductive Event :=
  | EDerivation (drv : Derivation)
  | EError (attr error : string)
  | EAttrSet.

(** The stream: events, possibly a fatal error. *)
Fixpoint collect (events : list (result string Event)) (r : EvalResult) :
    result string EvalResult :=
  match events with
  | [] => Ok r
  | Err e :: _ => Err e
  | Ok ev :: events =>
      collect events
        match ev with
        | EDerivation drv =>
            {| er_jobs := er_jobs r ++ [nix_job_from_derivation drv];
               er_error_count := er_error_count r; er_errors := er_errors r |}
        | EError attr error =>
            {| er_jobs := er_jobs r; er_error_count := er_error_count r + 1;
               er_errors := if (length (er_errors r) <? MAX_REPORTED_ERRORS)%nat
                            then er_errors r ++ [reported_error attr error]
                            else er_errors r |}
        | EAttrSet => r
        end
  end.

(** How the race of the stream with timeout and cancellation ends. *)
Inductive Ended := EndStream (events : list (result string Event)) | EndTimeout | EndCancelled.

Definition evix_eval_failure (description details : string) : CiError :=
  NixEval (description +:+ " evix evaluation failed: " +:+ details).

Definition empty_result : EvalResult := {| er_jobs := []; er_error_count := 0; er_errors := [] |}.

Definition run_eval (description timeout : string) (e : Ended) : result CiError EvalResult :=
  match e with
  | EndStream events =>
      match collect events empty_result with
      | Err e => Err (evix_eval_failure description e)
      | Ok r => match er_jobs r with
                | [] => Err (NixEval (empty_evaluation_error (er_error_count r) (er_errors r)))
                | _ => Ok r
                end
      end
  | EndTimeout => Err (Timeout_ ("Nix evaluation timed out after " +:+ timeout))
  | EndCancelled => Err (NixEval "Nix evaluation was cancelled")
  end.

(** Opening the session with fewer workers when the system refuses more. *)
Definition is_resource_exhaustion (error : string) : bool :=
  contains "Resource temporarily unavailable" error || contains "os error 11" error.

Definition retry_workers (workers : Z) : option Z :=
  if 1 <? workers then Some ((workers + 1) / 2) else None.

(** [open] answers for a number of workers; [fuel] bounds the halvings. *)
Fixpoint open_session {S} (fuel : nat) (open : Z → result string S) (description : string)
    (workers : Z) : option (result CiError S) :=
  match fuel with
  | O => None
  | Datatypes.S fuel =>
      match open workers with
      | Ok s => Some (Ok s)
      | Err e =>
          if is_resource_exhaustion e then
            match retry_workers workers with
            | Some n => open_session fuel open description n
            | None => Some (Err (evix_eval_failure description e))
            end
          else Some (Err (evix_eval_failure description e))
      end
  end.
