(* ===== verification/FlakeRefs.v ===== *)
(** * Flake references and the allowlist of restricted evaluation

    [crates/evaluator/src/nix/flake_ref.rs]: which source of a repository is evaluated;
    [nix/flake_lock.rs] and the policy of [nix/eval_command.rs]: which URIs an evaluation
    under [restrict-eval] may fetch.  The [url] crate, the file system and Nix's matcher
    of URIs are parameters. *)

From S2P Require Import Prelude Types Float32 Db NixJobs.

(** ** Lock files *)

Inductive Lockfile :=
  | Flake (root : option string) (nodes : list (string * Json))
  | Pins (entries : list (string * Json))
  | Unknown.

(** [Lockfile::parse], after the JSON parser. *)
Definition parse_lock (root : Json) : Lockfile :=
  match root with
  | JObj entries =>
      match json_get "nodes" root with
      | Some (JObj nodes) => Flake (json_get_str "root" root) nodes
      | _ => if existsb (λ kv, is_some (json_get "type" kv.2)) entries then Pins entries
             else Unknown
      end
  | _ => Unknown
  end.

(** Everything before the first [?] or [#]. *)
Definition without_query (uri : string) : string :=
  default uri (head (split_by (λ c, char_is "?"%char c || char_is "#"%char c) uri)).

(** [uri[..=slash]] for the last slash. *)
Fixpoint up_to_last_slash (s : string) : option string :=
  match s with
  | "" => None
  | String a t =>
      match up_to_last_slash t with
      | Some p => Some (String a p)
      | None => if decide (a = "/"%char) then Some (String a "") else None
      end
  end.

Definition UriPrefixes_from_uri (uri : string) : list string :=
  let uri := without_query uri in
  uri :: match up_to_last_slash uri with Some p => [p] | None => [] end.

(** [LockedSource::allowed_uris]. *)
Definition locked_uris (value : Json) : list string :=
  let kind := default "" (json_get_str "type" value) in
  let url_prefixes scheme :=
    match json_get_str "url" value with
    | Some url => UriPrefixes_from_uri (scheme +:+ url)
    | None => []
    end in
  if bool_decide (kind ∈ ["github"; "gitlab"; "sourcehut"]) then
    match json_get_str "owner" value, json_get_str "repo" value with
    | Some owner, Some repo => [kind +:+ ":" +:+ owner +:+ "/" +:+ repo]
    | _, _ => []
    end
  else if bool_decide (kind ∈ ["tarball"; "file"]) then url_prefixes ""
  else if bool_decide (kind = "git") then url_prefixes "git+"
  else if bool_decide (kind = "mercurial") then url_prefixes "hg+"
  else if bool_decide (kind ∈ ["path"; "indirect"]) then []
  else url_prefixes "".

Definition allowed_uris_from_nodes (nodes : list (string * Json)) (root_name : option string) :
    list string :=
  btree_set (flat_map
    (λ kv, locked_uris (default kv.2 (json_get "locked" kv.2)))
    (List.filter (λ kv, negb (bool_decide (Some kv.1 = root_name))) nodes)).

Definition lock_allowed_uris (l : Lockfile) : list string :=
  match l with
  | Flake root nodes => allowed_uris_from_nodes nodes root
  | Pins entries => allowed_uris_from_nodes entries None
  | Unknown => []
  end.

(** ** The policy of an evaluation *)

(** The fields of [EvaluatorConfig] used here. *)
Record EvalSettings := {
  es_restrict_eval : bool;
  es_allow_ifd : bool;
  es_allowed_uris : list string;
  es_auto_allowed_uris : bool;
  es_require_locked_flake : bool;
}.

(** What reading a file of the checkout gives: its text parsed as JSON, if it can be. *)
Inductive FileRead := FileJson (v : Json) | FileGarbage | FileMissing | FileError (msg : string).

Definition parse_lockfile (v : option Json) : list string :=
  match v with Some v => lock_allowed_uris (parse_lock v) | None => [] end.

Definition lock_derived_allowed_uris (config : EvalSettings) (lock_path : string)
    (flake_lock tack_lock : FileRead) : result CiError (list string) :=
  if negb (es_restrict_eval config) || negb (es_auto_allowed_uris config) then Ok []
  else
    let? uris := match flake_lock with
      | FileJson v => Ok (parse_lockfile (Some v))
      | FileGarbage => Ok (parse_lockfile None)
      | FileMissing =>
          if es_require_locked_flake config
          then Err (NixEval ("No flake.lock at " +:+ lock_path +:+
                 " but require_locked_flake is enabled. Commit a lock file or disable " +:+
                 "require_locked_flake"))
          else Ok []
      | FileError e => Err (NixEval ("Failed to read " +:+ lock_path +:+ ": " +:+ e))
      end in
    Ok (btree_set (uris ++ match tack_lock with
                           | FileJson v => parse_lockfile (Some v)
                           | _ => []
                           end)).

(** A flake reference with the prefixes that make its source fetchable. *)
Record SourceFlakeRef := {
  sf_flake_ref : string;
  sf_allowed_uris : list string;
}.

Definition eval_allowed_uris (config : EvalSettings) (lock_path : string)
    (flake_lock tack_lock : FileRead) (source : SourceFlakeRef) : result CiError (list string) :=
  let? uris := lock_derived_allowed_uris config lock_path flake_lock tack_lock in
  Ok (if es_restrict_eval config then uris ++ sf_allowed_uris source else uris).

Record NixEvalPolicy := {
  pol_restrict_eval : bool;
  pol_allow_ifd : bool;
  pol_allowed_uris : list string;
}.

Definition policy_of (config : EvalSettings) : NixEvalPolicy :=
  {| pol_restrict_eval := es_restrict_eval config; pol_allow_ifd := es_allow_ifd config;
     pol_allowed_uris := es_allowed_uris config |}.

Definition with_extra_allowed_uris (p : NixEvalPolicy) (extra : list string) : NixEvalPolicy :=
  {| pol_restrict_eval := pol_restrict_eval p; pol_allow_ifd := pol_allow_ifd p;
     pol_allowed_uris := btree_set (pol_allowed_uris p ++ extra) |}.

Definition nix_options (p : NixEvalPolicy) : list (string * string) :=
  (if pol_restrict_eval p then [("restrict-eval", "true")] else []) ++
  (if pol_allow_ifd p then [] else [("allow-import-from-derivation", "false")]) ++
  match pol_allowed_uris p with
  | [] => []
  | uris => [("allowed-uris", str_join " " uris)]
  end.

Definition apply_to (p : NixEvalPolicy) : list string :=
  (if pol_restrict_eval p then ["--option"; "restrict-eval"; "true"] else []) ++
  (if pol_allow_ifd p then [] else ["--option"; "allow-import-from-derivation"; "false"]) ++
  match pol_allowed_uris p with
  | [] => []
  | uris => ["--option"; "allowed-uris"; str_join " " uris]
  end.

(** ** Flake references *)

Inductive Scheme := Https | Http | Ssh | OtherScheme (s : string).

Definition Scheme_from_str (s : string) : Scheme :=
  let s := to_ascii_lowercase s in
  match match_str s [("https", Https); ("git+https", Https); ("http", Http);
                     ("git+http", Http); ("ssh", Ssh); ("git+ssh", Ssh); ("git", Ssh)] with
  | Some x => x
  | None => OtherScheme s
  end.

Definition git_prefix (s : Scheme) : string :=
  match s with
  | Https => "git+https"
  | Http => "git+http"
  | Ssh => "git+ssh"
  | OtherScheme s => "git+" +:+ s
  end.

Inductive ParsedRepo :=
  | Local (path : string) (query : list (string * string))
  | Remote (scheme : Scheme) (user : option string) (host path : string)
      (query : list (string * string)).

Definition trim_slashes (s : string) : string :=
  trim_end_matches_str "/" (trim_start_matches_str "/" s).

Definition clean_path (path : string) : string :=
  trim_slashes (default (trim_slashes path) (strip_suffix ".git" (trim_slashes path))).

Definition split_user_host (authority : string) : option string * string :=
  let (user, hostport) := match split_once "@"%char authority with
                          | Some (u, h) => (Some u, h)
                          | None => (None, authority)
                          end in
  (user, to_ascii_lowercase (match split_once ":"%char hostport with
                             | Some (h, _) => h
                             | None => hostport
                             end)).

Definition is_digit (c : ascii) : bool := in_range "0" "9" c.

(** [scp_split]. *)
Definition scp_split (url : string) : option (string * string) :=
  let* p := split_once ":"%char url in
  let (left, right) := p : string * string in
  let before := match split_once "/"%char right with Some (l, _) => l | None => right end in
  if str_all is_digit before && contains "/" right then None
  else if bool_decide (left = "") || bool_decide (right = "") then None
  else Some (left, right).

(** [split_once("://")]. *)
Fixpoint split_scheme (s : string) : option (string * string) :=
  match strip_prefix "://" s with
  | Some t => Some ("", t)
  | None => match s with
            | "" => None
            | String a s => match split_scheme s with
                            | Some (l, r) => Some (String a l, r)
                            | None => None
                            end
            end
  end.

(** What [Url::parse] yields. *)
Record ParsedUrl := {
  pu_scheme : string;
  pu_username : string;
  pu_host : option string;
  pu_port : option Z;
  pu_path : string;
  pu_query_pairs : list (string * string);
}.

Section refs.
Variable url_parse : string → option ParsedUrl.

(** [form_urlencoded::Serializer]. *)
Variable encode_pairs : list (string * string) → string.

(** [Url::from_file_path] of the checkout, made absolute. *)
Variable checkout_url : result CiError string.

Definition parse_repo (url : string) : ParsedRepo :=
  let url := trim url in
  let fallback :=
    match split_scheme url with
    | None =>
        match scp_split url with
        | Some (authority, path) =>
            let (user, host) := split_user_host authority in
            Remote Ssh user host (clean_path path) []
        | None => Local url []
        end
    | Some (scheme, rest) =>
        let (authority, path) := match split_once "/"%char rest with
                                 | Some (a, p) => (a, p)
                                 | None => (rest, "")
                                 end in
        let (user, host) := split_user_host authority in
        Remote (Scheme_from_str scheme) user host (clean_path path) []
    end in
  match url_parse url with
  | Some parsed =>
      if decide (pu_scheme parsed = "file") then Local (pu_path parsed) (pu_query_pairs parsed)
      else match pu_host parsed with
           | Some host =>
               Remote (Scheme_from_str (pu_scheme parsed))
                 (if decide (pu_username parsed = "") then None else Some (pu_username parsed))
                 (to_ascii_lowercase host) (clean_path (pu_path parsed))
                 (pu_query_pairs parsed)
           | None => fallback
           end
  | None => fallback
  end.

Definition not_rev (kv : string * string) : bool := negb (bool_decide (kv.1 = "rev")).

Definition with_pinned_query (base rev : string) (query : list (string * string)) : string :=
  let q := encode_pairs (List.filter not_rev query ++
             if decide (rev = "") then [] else [("rev", rev)]) in
  if decide (q = "") then base else base +:+ "?" +:+ q.

Definition pinned (base rev : string) (query : list (string * string)) : SourceFlakeRef :=
  {| sf_flake_ref := with_pinned_query base rev query;
     sf_allowed_uris := UriPrefixes_from_uri base |}.

Definition forge_ref (forge path rev : string) : SourceFlakeRef :=
  let allowed := forge +:+ ":" +:+ path in
  {| sf_flake_ref := if decide (rev = "") then allowed else allowed +:+ "/" +:+ rev;
     sf_allowed_uris := [allowed] |}.

Definition generic_git_ref (scheme : Scheme) (user : option string) (host path rev : string)
    (query : list (string * string)) : SourceFlakeRef :=
  let userinfo := match scheme, user with
                  | Ssh, Some u => u +:+ "@"
                  | _, _ => ""
                  end in
  pinned (git_prefix scheme +:+ "://" +:+ userinfo +:+ host +:+ "/" +:+ path) rev query.

Definition local_git_ref (rev : string) (query : list (string * string)) :
    result CiError SourceFlakeRef :=
  let? url := checkout_url in Ok (pinned ("git+" +:+ url) rev query).

Definition forges : list (string * string) :=
  [("github.com", "github"); ("gitlab.com", "gitlab"); ("git.sr.ht", "sourcehut")].

Definition forge_query_supported (query : list (string * string)) : bool :=
  forallb (λ kv, bool_decide (kv.1 ∈ ["ref"; "rev"])) query.

Definition into_flake_ref (r : ParsedRepo) (rev : string) : result CiError SourceFlakeRef :=
  match r with
  | Local _ query => local_git_ref rev query
  | Remote scheme user host path query =>
      let segments := length (List.filter (λ s, negb (bool_decide (s = "")))
                                (split_by (char_is "/"%char) path)) in
      Ok match match_str host forges with
         | Some forge =>
             if (segments =? 2)%nat && forge_query_supported query
             then forge_ref forge path rev
             else generic_git_ref scheme user host path rev query
         | None => generic_git_ref scheme user host path rev query
         end
  end.

Definition source_flake_ref (repository_url rev : string) : result CiError SourceFlakeRef :=
  into_flake_ref (parse_repo repository_url) rev.

End refs.

(** ** Properties *)

Lemma btree_set_elem l x : x ∈ btree_set l ↔ x ∈ l.
Proof. unfold btree_set. rewrite dedup_elem. unfold sort_strings. by rewrite sort_by_perm. Qed.

Section pinning.
Context (url_parse : string → option ParsedUrl) (encode_pairs : list (string * string) → string)
  (checkout_url : result CiError string).

(** Every pair is written as a name, an equals sign and a value. *)
Hypothesis encode_nil : ∀ l, encode_pairs l = "" → l = [].

Lemma pinned_spec base rev query :
  rev ≠ "" → sf_flake_ref (pinned encode_pairs base rev query) =
    base +:+ "?" +:+ encode_pairs (List.filter not_rev query ++ [("rev", rev)]).
Proof.
  intros Hr. simpl. unfold with_pinned_query. rewrite (decide_False (P := rev = "")) by done.
  rewrite decide_False; [done|]. by intros [_ ?]%encode_nil%app_nil.
Qed.

(** What is evaluated is the resolved commit, whatever the repository URL asks for: the
    flake reference is a forge shorthand that ends in the commit, or a Git reference whose
    query has the commit as its only revision. *)
Theorem flake_ref_pinned repository_url rev r :
  rev ≠ "" → source_flake_ref url_parse encode_pairs checkout_url repository_url rev = Ok r →
  (∃ forge path, forge ∈ ["github"; "gitlab"; "sourcehut"] ∧
     sf_flake_ref r = forge +:+ ":" +:+ path +:+ "/" +:+ rev) ∨
  (∃ base query, sf_flake_ref r =
       "git+" +:+ base +:+ "?" +:+ encode_pairs (query ++ [("rev", rev)]) ∧
     Forall (λ kv : string * string, kv.1 ≠ "rev") query).
Proof.
  intros Hr. unfold source_flake_ref, into_flake_ref.
  assert (Hq : ∀ query, Forall (λ kv : string * string, kv.1 ≠ "rev") (List.filter not_rev query)).
  { intros query. apply Forall_forall. intros kv. rewrite list_elem_of_In, filter_In.
    unfold not_rev. rewrite negb_true_iff, bool_decide_eq_false. by intros [_ ?]. }
  assert (Hgen : ∀ scheme user host path query, ∃ base query', sf_flake_ref
      (generic_git_ref encode_pairs scheme user host path rev query) =
      "git+" +:+ base +:+ "?" +:+ encode_pairs (query' ++ [("rev", rev)]) ∧
    Forall (λ kv : string * string, kv.1 ≠ "rev") query').
  { intros scheme user host path query. unfold generic_git_ref. rewrite pinned_spec by done.
    destruct scheme; simpl git_prefix; eexists _, _; (split; [|apply Hq]); cbn; reflexivity. }
  destruct (parse_repo _ _) as [p query|scheme user host path query].
  - unfold local_git_ref. destruct checkout_url as [url|]; [|done]. cbn [rbind].
    intros H. injection H as <-. right. exists url, (List.filter not_rev query).
    split; [|apply Hq]. by rewrite pinned_spec.
  - set (segments := length _). clearbody segments.
    destruct (match_str host forges) as [forge|] eqn:Hf; [|intros [= <-]; right; apply Hgen].
    destruct (_ && _); intros [= <-]; [|right; apply Hgen]. left. exists forge, path. split.
    + apply match_str_in in Hf. unfold forges in Hf. rewrite !elem_of_cons, elem_of_nil in Hf.
      destruct Hf as [[= -> ->]|[[= -> ->]|[[= -> ->]|[]]]]; rewrite !elem_of_cons; auto.
    + simpl. rewrite decide_False by done. by rewrite <-!str_app_assoc.
Qed.
End pinning.

(** The port of a repository is lost: the reference that is evaluated is the one of the
    same URL without it. *)
Theorem flake_ref_drops_port encode_pairs checkout_url url rev p port :
  source_flake_ref (λ _, Some p) encode_pairs checkout_url url rev =
  source_flake_ref (λ _, Some {| pu_scheme := pu_scheme p; pu_username := pu_username p;
      pu_host := pu_host p; pu_port := port; pu_path := pu_path p;
      pu_query_pairs := pu_query_pairs p |}) encode_pairs checkout_url url rev.
Proof. done. Qed.

(** A concrete serializer and a parsed URL, for the witnesses. *)
Definition demo_encode (l : list (string * string)) : string :=
  str_join "&" ((λ kv, kv.1 +:+ "=" +:+ kv.2) <$> l).

Definition demo_url : ParsedUrl :=
  {| pu_scheme := "https"; pu_username := ""; pu_host := Some "GitHub.com"; pu_port := None;
     pu_path := "/owner/repo.git"; pu_query_pairs := [("rev", "evil")] |}.

Lemma demo_encode_nil l : demo_encode l = "" → l = [].
Proof.
  destruct l as [|[k v] l]; [done|]. unfold demo_encode. rewrite fmap_cons. simpl.
  by destruct (fmap (M := list) _ l), k.
Qed.

Lemma flake_ref_pinned_witness :
  let r := {| sf_flake_ref := "github:owner/repo/abc";
              sf_allowed_uris := ["github:owner/repo"] |} in
  source_flake_ref (λ _, Some demo_url) demo_encode (Ok "") "" "abc" = Ok r ∧
  ((∃ forge path, forge ∈ ["github"; "gitlab"; "sourcehut"] ∧
      sf_flake_ref r = forge +:+ ":" +:+ path +:+ "/" +:+ "abc") ∨
   ∃ base query, sf_flake_ref r =
      "git+" +:+ base +:+ "?" +:+ demo_encode (query ++ [("rev", "abc")]) ∧
      Forall (λ kv : string * string, kv.1 ≠ "rev") query).
Proof.
  cbn zeta. split; [reflexivity|].
  apply (flake_ref_pinned (λ _, Some demo_url) demo_encode (Ok "") demo_encode_nil "" "abc");
    [done|reflexivity].
Defined.

(** *** The allowlist *)


(** Nix's matcher of a prefix against a URI; a prefix that ends in a slash covers
    everything below it. *)
Section allowlist.
Variable uri_matches : string → string → bool.
Hypothesis slash_prefix : ∀ p rest, uri_matches (p +:+ "/") (p +:+ "/" +:+ rest) = true.

Definition plain_char (c : ascii) : bool := negb (char_is "?"%char c || char_is "#"%char c).

Lemma without_query_plain uri : str_all plain_char uri = true → without_query uri = uri.
Proof.
  unfold without_query. intros H.
  assert (Hs : split_by (λ c, char_is "?"%char c || char_is "#"%char c) uri = [uri]).
  { induction uri as [|c uri IH]; [done|]. unfold str_all in *. simpl in *.
    apply andb_true_iff in H as [Hc H]. unfold plain_char in Hc. apply negb_true_iff in Hc.
    by rewrite Hc, IH. }
  by rewrite Hs.
Qed.

Lemma up_to_last_slash_app dir file :
  existsb (char_is "/"%char) (str_chars file) = false →
  up_to_last_slash (dir +:+ "/" +:+ file) = Some (dir +:+ "/").
Proof.
  intros Hf. assert (Hn : up_to_last_slash file = None).
  { induction file as [|c file IH]; [done|]. simpl in *.
    apply orb_false_iff in Hf as [Hc Hf]. rewrite IH by done.
    unfold char_is in Hc. by apply bool_decide_eq_false in Hc; rewrite decide_False. }
  induction dir as [|c dir IH]; simpl; [by change ("" +:+ file) with file; rewrite Hn|].
  by rewrite IH.
Qed.

(** The allowlist is wider than the lock file.  If a lock file pins a tarball below a
    directory, a restricted evaluation may fetch every URI below that directory, locked
    or not. *)
Theorem allowlist_covers_directory config lock_path dir file other name root rest tack source uris :
  es_restrict_eval config = true → es_auto_allowed_uris config = true →
  str_all plain_char (dir +:+ "/" +:+ file) = true →
  existsb (char_is "/"%char) (str_chars file) = false → root ≠ Some name →
  (name, JObj [("locked", JObj [("type", JStr "tarball");
                                ("url", JStr (dir +:+ "/" +:+ file))])]) ∈ rest →
  eval_allowed_uris config lock_path
    (FileJson (JObj (("nodes", JObj rest) ::
       match root with Some r => [("root", JStr r)] | None => [] end))) tack source = Ok uris →
  ∃ p, p ∈ pol_allowed_uris (with_extra_allowed_uris (policy_of config) uris) ∧
    uri_matches p (dir +:+ "/" +:+ other) = true.
Proof.
  intros Hr Ha Hq Hs Hroot Hin He. exists (dir +:+ "/"). split; [|apply slash_prefix].
  unfold eval_allowed_uris, lock_derived_allowed_uris in He. rewrite Hr, Ha in He.
  cbn [negb orb rbind] in He. injection He as <-. simpl. rewrite !btree_set_elem, !elem_of_app.
  right. left. rewrite btree_set_elem, elem_of_app. left. unfold parse_lockfile, parse_lock.
  simpl.
  set (rt := json_get_str _ _). assert (Hrt : rt = root) by (unfold rt; by destruct root).
  clearbody rt. subst rt. unfold lock_allowed_uris, allowed_uris_from_nodes.
  rewrite btree_set_elem, list_elem_of_In, in_flat_map.
  eexists. split.
  - apply filter_In. split; [by apply list_elem_of_In|]. simpl.
    rewrite bool_decide_false by congruence. done.
  - simpl. unfold locked_uris. simpl. unfold UriPrefixes_from_uri.
    change ("" +:+ (dir +:+ "/" +:+ file)) with (dir +:+ "/" +:+ file).
    rewrite without_query_plain by done. rewrite up_to_last_slash_app by done. simpl. auto.
Qed.
End allowlist.

Lemma allowlist_covers_directory_witness :
  let matches (p uri : string) := starts_with p uri in
  ∃ p, p ∈ ["https://example.org/"; "https://example.org/nixpkgs.tar.gz"] ∧
    matches p "https://example.org/private/secrets" = true.
Proof.
  cbn zeta.
  destruct (allowlist_covers_directory starts_with
    (λ p rest, proj2 (starts_with_true _ _) (ex_intro _ rest (str_app_assoc p "/" rest)))
    {| es_restrict_eval := true; es_allow_ifd := false; es_allowed_uris := [];
       es_auto_allowed_uris := true; es_require_locked_flake := false |} "flake.lock"
    "https://example.org" "nixpkgs.tar.gz" "private/secrets" "nixpkgs" (Some "root")
    [("nixpkgs", JObj [("locked", JObj [("type", JStr "tarball");
        ("url", JStr "https://example.org/nixpkgs.tar.gz")])])] FileMissing
    {| sf_flake_ref := ""; sf_allowed_uris := [] |}
    ["https://example.org/"; "https://example.org/nixpkgs.tar.gz"])
    as (p & Hp & Hm); try reflexivity; [done|by left|].
  exists p. split; [exact Hp|exact Hm].
Defined.
