(* ===== verification/EvalBuilds.v ===== *)
(** * From an evaluation to builds ([crates/evaluator/src/builds.rs])

    The closure of the named jobs over the derivations that still have to be built, the
    dependency edges, the builds and their transaction, and the hash of an evaluation's
    inputs; with the systems an instance builds ([crates/common/src/systems.rs]).  The
    answers of [nix derivation show], [nix-store] and the file system are arguments. *)

From S2P Require Import Prelude Types Float32 Base32 Codecs Db Builds Builders Evaluations NixJobs.

(** ** Systems *)

Inductive EvaluatorSystems :=
  | SysList (l : list string)
  | SysKeyword (s : string).

Definition resolve_allowed_systems (systems : option EvaluatorSystems) :
    M (option (gset string)) :=
  match systems with
  | None => mret None
  | Some (SysList l) => mret (Some (list_to_set l))
  | Some (SysKeyword _) =>
      let! r := mtry (read (λ w, List.filter bs_connected (rows (w_sessions w)))) in
      mret match r with
           | Ok sessions =>
               let systems : gset string := list_to_set (flat_map (λ s, sr_systems (bs_reg s)) sessions) in
               if decide (systems = ∅) then None else Some systems
           | Err _ => None
           end
  end.

Definition restrict_to_jobset (instance : option (gset string)) (jobset : option (list string)) :
    option (gset string) :=
  match instance, jobset with
  | instance, None => instance
  | None, Some l => Some (list_to_set l)
  | Some set, Some l => Some (list_to_set (List.filter (λ s, bool_decide (s ∈ set)) l))
  end.

Definition system_allowed (system : option string) (allowed : option (gset string)) : bool :=
  match system, allowed with
  | Some s, Some allowed => bool_decide (s ∈ allowed)
  | _, _ => true
  end.

(** ** Derivations *)

Record DerivationInfo := {
  di_system : option string;
  di_outputs : option (list (string * string));
  di_input_drvs : option (list (string * Json));
  di_required_features : list string;
}.

Section derivations.
Variable json_from_str : string → option Json.

Definition derivation_info (entry : string * Json) : string * DerivationInfo :=
  (store_prefixed entry.1,
   {| di_system := json_get_str "system" entry.2;
      di_outputs := shown_outputs entry.2;
      di_input_drvs := shown_input_drvs entry.2;
      di_required_features := drv_required_features json_from_str entry.2 |}).

(** Of equal keys the last one stays. *)
Definition parse_derivation_infos (value : Json) : gmap string DerivationInfo :=
  list_to_map (rev (derivation_info <$> default [] (shown_derivations value))).
End derivations.

(** [slice::chunks]; [fuel] bounds the chunks. *)
Fixpoint chunks {A} (fuel n : nat) (l : list A) : list (list A) :=
  match fuel, l with
  | S fuel, _ :: _ => firstn n l :: chunks fuel n (skipn n l)
  | _, _ => []
  end.

Definition output_paths (derivations : gmap string DerivationInfo) : gset string :=
  list_to_set (flat_map (λ d, (default [] (di_outputs d.2)).*2) (map_to_list derivations)).

(** [check]: what [nix-store --check-validity --print-invalid] prints, if it succeeds. *)
Definition invalid_output_paths (check : list string → option string)
    (derivations : gmap string DerivationInfo) : gset string :=
  let paths := elements (output_paths derivations) in
  list_to_set (flat_map
    (λ chunk, match check chunk with Some out => lines out | None => chunk end)
    (chunks (length paths) 1024 paths)).

Definition should_enqueue_derivation (info : DerivationInfo) (invalid : gset string) : bool :=
  match di_outputs info with
  | None => true
  | Some outputs => existsb (λ kv, bool_decide (kv.2 ∈ invalid)) outputs
  end.

Definition dependency_job_name (drv_path : string) : string :=
  DEPENDENCY_JOB_PREFIX +:+
  trim_end_matches_str ".drv" (default drv_path (file_name drv_path)).

Definition dependency_job (drv_path : string) (info : DerivationInfo) : NixJob :=
  {| jb_name := dependency_job_name drv_path; jb_drv_path := drv_path;
     jb_system := di_system info; jb_outputs := di_outputs info;
     jb_input_drvs := di_input_drvs info; jb_constituents := None;
     jb_meta := NixMeta_default |}.

(** [input_drvs.keys()]. *)
Definition drv_keys (o : option (list (string * Json))) : list string := (default [] o).*1.

(** ** The closure *)

Section closure.
Variables (derivations : gmap string DerivationInfo) (invalid : gset string).

(** The loop over the queue; [None] when the fuel is spent. *)
Fixpoint expand_loop (fuel : nat) (queued : list string) (included : gset string)
    (expanded : list NixJob) : option (list NixJob) :=
  match fuel with
  | O => None
  | S fuel =>
      match queued with
      | [] => Some expanded
      | drv_path :: queued =>
          if bool_decide (drv_path ∈ included) then expand_loop fuel queued included expanded
          else match derivations !! drv_path with
          | None => expand_loop fuel queued included expanded
          | Some info =>
              if negb (should_enqueue_derivation info invalid)
              then expand_loop fuel queued included expanded
              else expand_loop fuel (queued ++ drv_keys (di_input_drvs info))
                     ({[ drv_path ]} ∪ included) (expanded ++ [dependency_job drv_path info])
          end
      end
  end.

Definition edges_of (kv : string * DerivationInfo) : nat := length (drv_keys (di_input_drvs kv.2)).

(** The queue holds each edge at most once. *)
Definition expand_fuel (queued : list string) : nat :=
  S (length queued + sum_list_with edges_of (map_to_list derivations)).

Definition expand_derivation_graph (jobs : list NixJob) : option (list NixJob) :=
  if decide (derivations = ∅) then Some jobs
  else
    let queued := flat_map (λ j, drv_keys (jb_input_drvs j)) jobs in
    expand_loop (expand_fuel queued) queued (list_to_set (jb_drv_path <$> jobs)) jobs.

End closure.

(** ** Fixed outputs *)

(** What follows the first occurrence of [pat]. *)
Fixpoint find_after (pat s : string) : option string :=
  match strip_prefix pat s with
  | Some t => Some t
  | None => match s with "" => None | String _ s => find_after pat s end
  end.

Definition QUOTE : ascii := "034"%char.

(** The name of the variable and the start of its value, quoted. *)
Definition fod_marker : string :=
  String QUOTE ("outputHash" +:+ String QUOTE ("," +:+ String QUOTE "")).

Definition detect_fod (content : option string) : bool * option string :=
  match content with
  | None => (false, None)
  | Some content =>
      match find_after fod_marker content with
      | None => (false, None)
      | Some rest =>
          match split_once QUOTE rest with
          | None => (false, None)
          | Some (hash, _) => if decide (hash = "") then (false, None) else (true, Some hash)
          end
      end
  end.

(** ** Dependencies *)

(** One candidate edge. *)
Definition add_edge (build_id : Uuid) (acc : gset (Z * Z) * list (Z * Z)) (dep : option Uuid) :
    gset (Z * Z) * list (Z * Z) :=
  match dep with
  | None => acc
  | Some d =>
      if decide (d = build_id) then acc
      else if decide ((build_id, d) ∈ acc.1) then acc
      else ({[ (build_id, d) ]} ∪ acc.1, acc.2 ++ [(build_id, d)])
  end.

Section pairs.
Variables (drv_to_build name_to_build : gmap string Uuid).

(** The builds a job depends on, in the order the code looks them up. *)
Definition job_targets (job : NixJob) : list (option Uuid) :=
  ((λ drv, drv_to_build !! drv) <$> drv_keys (jb_input_drvs job)) ++
  ((λ name, name_to_build !! name) <$> default [] (jb_constituents job)).

Definition add_job (acc : gset (Z * Z) * list (Z * Z)) (jb : NixJob * Uuid) :
    gset (Z * Z) * list (Z * Z) :=
  foldl (add_edge jb.2) acc (job_targets jb.1).

Definition resolve_dependency_pairs (jobs : list NixJob) (build_ids : list Uuid) :
    list (Z * Z) :=
  (foldl add_job (∅, []) (zip jobs build_ids)).2.
End pairs.

(** ** The transaction *)

(** All statements take effect or none. *)
Definition transaction {A} (m : M A) : M A := λ w,
  match m w with
  | (Ok a, w') => (Ok a, w')
  | (Err e, w') => (Err e, set_w_faults (w_faults w') w)
  end.

Definition outputs_json (o : list (string * string)) : Json :=
  JObj ((λ kv, (kv.1, JStr kv.2)) <$> o).

Section create.
(** The text of a derivation file, and the features read for a derivation that is not
    among the shown ones. *)
Variables (read_drv : string → option string) (read_required_features : string → list string).

(** The key the database generates for the build at a position. *)
Variable new_id : nat → Uuid.

Definition create_build (eval_id : Uuid) (derivations : gmap string DerivationInfo)
    (job : NixJob) : Sql.CreateBuild :=
  let fod := detect_fod (read_drv (jb_drv_path job)) in
  {| Sql.cb_evaluation_id := eval_id; Sql.cb_job_name := jb_name job;
     Sql.cb_drv_path := jb_drv_path job; Sql.cb_system := jb_system job;
     Sql.cb_outputs := outputs_json <$> jb_outputs job;
     Sql.cb_is_aggregate := Some (is_some (jb_constituents job));
     Sql.cb_constituents := (λ c, JArr (JStr <$> c)) <$> jb_constituents job;
     Sql.cb_is_fod := Some fod.1; Sql.cb_fod_hash := fod.2;
     Sql.cb_meta_description := nm_description (jb_meta job);
     Sql.cb_meta_license := nm_license (jb_meta job);
     Sql.cb_meta_homepage := nm_homepage (jb_meta job);
     Sql.cb_meta_maintainers := nm_maintainers (jb_meta job);
     Sql.cb_required_features :=
       match derivations !! jb_drv_path job with
       | Some info => di_required_features info
       | None => read_required_features (jb_drv_path job)
       end |}.

(** The builds inserted so far. *)
Record Inserted := {
  in_drv_to_build : gmap string Uuid;
  in_name_to_build : gmap string Uuid;
  in_build_ids : list Uuid;
}.

Fixpoint insert_builds (inputs : list Sql.CreateBuild) (acc : Inserted) : M Inserted :=
  match inputs with
  | [] => mret acc
  | input :: inputs =>
      let! b := builds.create (new_id (length (in_build_ids acc))) input in
      insert_builds inputs
        {| in_drv_to_build := <[Sql.cb_drv_path input := b_id b]> (in_drv_to_build acc);
           in_name_to_build := <[Sql.cb_job_name input := b_id b]> (in_name_to_build acc);
           in_build_ids := in_build_ids acc ++ [b_id b] |}
  end.

(** [build_dependencies::create_in_transaction]. *)
Definition create_dependency (p : Z * Z) : M () :=
  query (λ w,
    if bool_decide (p ∈ w_deps w)
    then (Err (Conflict ("Dependency from " +:+ pretty p.1 +:+ " to " +:+ pretty p.2 +:+
                         " already exists")), w)
    else (Ok (), set_w_deps (w_deps w ++ [p]) w)).

Fixpoint insert_pairs (l : list (Z * Z)) : M () :=
  match l with
  | [] => mret ()
  | p :: l => create_dependency p ;;! insert_pairs l
  end.

Definition lock_running (id : Uuid) : M bool :=
  read (λ w, match w_evaluations w !! id with
             | Some e => Evals.has_status EvaluationStatus.Running e
             | None => false
             end).

(** [tx.commit()]. *)
Definition commit : M () := query (λ w, (Ok (), w)).

Definition persist (eval_id : Uuid) (jobs : list NixJob) (inputs : list Sql.CreateBuild) :
    M bool :=
  transaction (
    let! locked := lock_running eval_id in
    if negb locked then mret false
    else
      let! acc := insert_builds inputs
        {| in_drv_to_build := ∅; in_name_to_build := ∅; in_build_ids := [] |} in
      insert_pairs (resolve_dependency_pairs (in_drv_to_build acc) (in_name_to_build acc)
                      jobs (in_build_ids acc)) ;;!
      let! finished := Evals.finish_running eval_id EvaluationStatus.Completed None in
      match finished with
      | None => mfail (Internal ("evaluation " +:+ pretty eval_id +:+
                                 " lost its running state while locked"))
      | Some _ => commit ;;! mret true
      end).

(** The jobs a result gives rise to: named and dependencies, of the allowed systems. *)
Definition selected_jobs (derivations : gmap string DerivationInfo) (invalid : gset string)
    (allowed : option (gset string)) (jobs : list NixJob) : option (list NixJob) :=
  let allowed_job j := system_allowed (jb_system j) allowed in
  let* expanded := expand_derivation_graph derivations invalid (List.filter allowed_job jobs) in
  Some (List.filter allowed_job expanded).

(** [derivations] is what [nix derivation show --recursive] lists, empty if it fails. *)
Definition create_builds_from_eval (eval_id : Uuid) (derivations : gmap string DerivationInfo)
    (invalid : gset string) (allowed : option (gset string)) (result : EvalResult) : M bool :=
  match selected_jobs derivations invalid allowed (er_jobs result) with
  | Some jobs => persist eval_id jobs (create_build eval_id derivations <$> jobs)
  | None => mfail (Internal "the expansion did not end")
  end.
End create.

(** ** The hash of the inputs *)

Section inputs_hash.
Context `{Codecs}.

Definition input_text (i : JobsetInput) : string :=
  ji_name i +:+ InputType.as_str (ji_input_type i) +:+ ji_value i +:+ default "" (ji_revision i).

Definition by_name (a b : JobsetInput) : comparison := String.compare (ji_name a) (ji_name b).

Definition compute_inputs_hash (commit_hash : string) (inputs : list JobsetInput) : string :=
  hex_encode (sha256 (as_bytes (commit_hash +:+
    foldr (λ i s, input_text i +:+ s) "" (sort_by by_name inputs)))).
End inputs_hash.
