(* ===== verification/BuildGraph.v ===== *)
(** * The builds of an evaluation

    What [EvalBuilds] guarantees: the closure ends and is exact, the edges are exact and
    free of cycles, an evaluation becomes completed together with all its builds or not at
    all; and what the hash of the inputs does not see. *)

From S2P Require Import Prelude Types Float32 Base32 Codecs Db Builds Builders Evaluations Lifecycle Webhooks EvalQueue NixJobs EvalBuilds.

#[local] Set Warnings "-clear-no-such-hyp".

(** ** The closure *)

Section closure.
Variables (derivations : gmap string DerivationInfo) (invalid : gset string)
  (jobs : list NixJob).

(** A derivation that is known, has an output to build, and is no named job. *)
Definition eligible (d : string) : Prop :=
  (d ∉ (jb_drv_path <$> jobs)) ∧
  ∃ info, derivations !! d = Some info ∧ should_enqueue_derivation info invalid = true.

(** What a set of jobs needs: the eligible inputs of named jobs, and of what is needed. *)
Inductive needed : string → Prop :=
  | needed_by_job j d :
      j ∈ jobs → d ∈ drv_keys (jb_input_drvs j) → eligible d → needed d
  | needed_by_drv d info d' :
      needed d → derivations !! d = Some info → d' ∈ drv_keys (di_input_drvs info) →
      eligible d' → needed d'.

(** An input of a named job or of something needed. *)
Definition input_of_needed (d : string) : Prop :=
  (∃ j, j ∈ jobs ∧ d ∈ drv_keys (jb_input_drvs j)) ∨
  (∃ e info, needed e ∧ derivations !! e = Some info ∧ d ∈ drv_keys (di_input_drvs info)).

Lemma needed_eligible d : needed d → eligible d.
Proof. by destruct 1. Qed.

Lemma input_of_needed_needed d : input_of_needed d → eligible d → needed d.
Proof.
  intros [(j & Hj & Hd)|(e & info & He & Hi & Hd)] Hel;
    [by eapply needed_by_job|by eapply needed_by_drv].
Qed.

(** The state of the loop: [added] has been appended. *)
Record loop_inv (queued : list string) (included : gset string) (added : list string) : Prop := {
  li_included d : d ∈ included ↔ d ∈ (jb_drv_path <$> jobs) ∨ d ∈ added;
  li_nodup : NoDup added;
  li_needed d : d ∈ added → needed d;
  li_queued d : d ∈ queued → input_of_needed d;
  li_jobs j d : j ∈ jobs → d ∈ drv_keys (jb_input_drvs j) →
    d ∈ queued ∨ d ∈ included ∨ ¬ eligible d;
  li_added e info d : e ∈ added → derivations !! e = Some info →
    d ∈ drv_keys (di_input_drvs info) → d ∈ queued ∨ d ∈ included ∨ ¬ eligible d;
}.

Definition job_of (d : string) : list NixJob :=
  match derivations !! d with Some info => [dependency_job d info] | None => [] end.

(** What is left to queue. *)
Definition edges_left (included : gset string) : nat :=
  sum_list_with edges_of (List.filter (λ kv, negb (bool_decide (kv.1 ∈ included)))
                            (map_to_list derivations)).

Lemma sum_filter_cons (l : list (string * DerivationInfo)) (d : string) info (X : gset string) :
  NoDup (l.*1) → (d, info) ∈ l → d ∉ X →
  sum_list_with edges_of (List.filter (λ kv, negb (bool_decide (kv.1 ∈ X))) l) =
  (edges_of (d, info) +
   sum_list_with edges_of (List.filter (λ kv, negb (bool_decide (kv.1 ∈ ({[d]} ∪ X)))) l))%nat.
Proof.
  intros Hnd Hin HX. induction l as [|[k i] l IH]; [by apply elem_of_nil in Hin|].
  rewrite fmap_cons, NoDup_cons in Hnd. destruct Hnd as [Hk Hnd]. simpl.
  apply elem_of_cons in Hin as [[= <- <-]|Hin].
  - rewrite (bool_decide_false (d ∈ X)), (bool_decide_true (d ∈ {[d]} ∪ X)) by set_solver.
    simpl. f_equal. f_equal. apply List.filter_ext_in. intros [k' i'] Hin'%list_elem_of_In.
    simpl. do 2 f_equal. apply bool_decide_ext.
    assert (k' ≠ d) by (intros ->; apply Hk; by apply (list_elem_of_fmap_2 fst _ _ Hin')). set_solver.
  - assert (k ≠ d) by (intros ->; apply Hk; by apply (list_elem_of_fmap_2 fst _ _ Hin)).
    rewrite (bool_decide_ext (k ∈ {[d]} ∪ X) (k ∈ X)) by set_solver.
    specialize (IH Hnd Hin). case_bool_decide; simpl; lia.
Qed.

Lemma edges_left_add d info included :
  derivations !! d = Some info → d ∉ included →
  edges_left included = (length (drv_keys (di_input_drvs info)) +
                         edges_left ({[ d ]} ∪ included))%nat.
Proof.
  intros Hd HX. unfold edges_left.
  apply (sum_filter_cons _ d info); [apply NoDup_fst_map_to_list|by apply elem_of_map_to_list|done].
Qed.

(** The loop ends within its fuel, in a closed state. *)
Lemma expand_loop_ends fuel queued included added expanded :
  loop_inv queued included added → (length queued + edges_left included < fuel)%nat →
  ∃ added' included', loop_inv [] included' (added ++ added') ∧
    expand_loop derivations invalid fuel queued included expanded =
      Some (expanded ++ flat_map job_of added').
Proof.
  revert queued included added expanded.
  induction fuel as [|fuel IH]; intros queued included added expanded Hinv Hfuel; [lia|].
  destruct queued as [|d queued].
  { exists [], included. simpl. by rewrite !app_nil_r. }
  simpl in Hfuel |- *.
  assert (Hskip : d ∈ included ∨ ¬ eligible d → loop_inv queued included added).
  { intros Hd. destruct Hinv as [H1 H2 H3 H4 H5 H6]. split; try done.
    - intros x Hx. apply H4. by right.
    - intros j x Hj Hx. destruct (H5 j x Hj Hx) as [[->|?]%elem_of_cons|?]; tauto.
    - intros e info x He Hi Hx. destruct (H6 e info x He Hi Hx) as [[->|?]%elem_of_cons|?]; tauto. }
  case_bool_decide as Hin; [apply IH; [auto|lia]|].
  destruct (derivations !! d) as [info|] eqn:Hd; cycle 1.
  { apply IH; [|lia]. apply Hskip. right. intros [_ (i & Hi & _)]. congruence. }
  destruct (should_enqueue_derivation info invalid) eqn:Hs; simpl; cycle 1.
  { apply IH; [|lia]. apply Hskip. right. intros [_ (i & Hi & Hs')]. congruence. }
  assert (Hel : eligible d).
  { split; [|by exists info]. intros Hj. apply Hin. by apply Hinv.(li_included _ _ _ ); left. }
  destruct (IH (queued ++ drv_keys (di_input_drvs info)) ({[d]} ∪ included) (added ++ [d])
              (expanded ++ [dependency_job d info])) as (added' & included' & Hinv' & ->).
  - destruct Hinv as [H1 H2 H3 H4 H5 H6].
    assert (Hn : needed d) by (apply input_of_needed_needed; [apply H4; by left|done]).
    split.
    + intros x. rewrite elem_of_union, elem_of_singleton, H1, elem_of_app, elem_of_cons, elem_of_nil.
      tauto.
    + apply NoDup_app. split_and!; [done| |apply NoDup_singleton].
      intros x Hx. rewrite elem_of_cons, elem_of_nil. intros [->|[]]. apply Hin, H1. by right.
    + intros x. rewrite elem_of_app, elem_of_cons, elem_of_nil. intros [?|[->|[]]]; auto.
    + intros x [Hx|Hx]%elem_of_app; [apply H4; by right|]. right. eauto.
    + intros j x Hj Hx. rewrite elem_of_app, elem_of_union, elem_of_singleton.
      destruct (H5 j x Hj Hx) as [[->|?]%elem_of_cons|?]; tauto.
    + intros e i x He Hi Hx. rewrite elem_of_app, elem_of_union, elem_of_singleton.
      rewrite elem_of_app, elem_of_cons, elem_of_nil in He. destruct He as [He|[->|[]]].
      * destruct (H6 e i x He Hi Hx) as [[->|?]%elem_of_cons|?]; tauto.
      * assert (i = info) as -> by congruence. tauto.
  - rewrite length_app. rewrite (edges_left_add d info included) in Hfuel by done. lia.
  - exists (d :: added'), included'. rewrite <-app_assoc in Hinv'. simpl in Hinv'.
    split; [done|]. simpl. unfold job_of at 2. rewrite Hd. by rewrite <-app_assoc.
Qed.

(** C18. The closure ends and is exact: the named jobs come first, followed by one job for
    each derivation they need, directly or through other needed ones, and by nothing
    else. *)
Theorem expansion_exact :
  derivations ≠ ∅ →
  ∃ deps, expand_derivation_graph derivations invalid jobs = Some (jobs ++ flat_map job_of deps) ∧
    NoDup deps ∧ (∀ d, d ∈ deps ↔ needed d) ∧
    jb_drv_path <$> flat_map job_of deps = deps.
Proof.
  intros Hne. unfold expand_derivation_graph. rewrite decide_False by done.
  set (queued := flat_map _ jobs).
  destruct (expand_loop_ends (expand_fuel derivations queued) queued
    (list_to_set (jb_drv_path <$> jobs)) [] jobs) as (deps & included & Hinv & ->).
  - assert (Hq : ∀ d, d ∈ queued ↔ ∃ j, j ∈ jobs ∧ d ∈ drv_keys (jb_input_drvs j)).
    { intros d. unfold queued. rewrite list_elem_of_In, in_flat_map.
      by setoid_rewrite <-list_elem_of_In. }
    split; try (by intros ? ?%elem_of_nil).
    + intros d. rewrite elem_of_list_to_set, elem_of_nil. tauto.
    + constructor.
    + intros d Hd. left. by apply Hq.
    + intros j d Hj Hd. left. apply Hq. eauto.
    + by intros e info d ?%elem_of_nil.
  - unfold expand_fuel, edges_left. apply Nat.lt_succ_r, Nat.add_le_mono_l.
    induction (map_to_list derivations) as [|kv l IH]; simpl; [done|].
    case_bool_decide; simpl; lia.
  - exists deps. simpl in Hinv. destruct Hinv as [H1 H2 H3 H4 H5 H6].
    split_and!; [done|done| |].
    + intros d. split; [apply H3|]. induction 1 as [j d Hj Hd Hel|e info d He IH Hi Hd Hel].
      * destruct (H5 j d Hj Hd) as [?%elem_of_nil|[Hin|?]]; [done| |done].
        apply H1 in Hin as [Hin|?]; [|done]. by destruct Hel.
      * destruct (H6 e info d IH Hi Hd) as [?%elem_of_nil|[Hin|?]]; [done| |done].
        apply H1 in Hin as [Hin|?]; [|done]. by destruct Hel.
    + clear -H3. induction deps as [|d deps IH]; [done|]. simpl.
      destruct (needed_eligible d) as [_ (info & Hi & _)]; [apply H3; by left|].
      unfold job_of at 1. rewrite Hi. simpl. f_equal. apply IH. intros x Hx. apply H3. by right.
Qed.
End closure.

(** ** The edges *)

Definition pairs_ok (acc : gset (Z * Z) * list (Z * Z)) : Prop :=
  NoDup acc.2 ∧ ∀ x, x ∈ acc.1 ↔ x ∈ acc.2.

Lemma add_edges_spec b l acc :
  pairs_ok acc →
  let acc' := foldl (add_edge b) acc l in
  pairs_ok acc' ∧ ∀ x y, (x, y) ∈ acc'.2 ↔ (x, y) ∈ acc.2 ∨ (x = b ∧ y ≠ b ∧ Some y ∈ l).
Proof.
  cbn zeta. revert acc. induction l as [|o l IH]; intros acc Hok; simpl.
  { split; [done|]. intros x y. rewrite elem_of_nil. tauto. }
  set (acc1 := add_edge b acc o).
  assert (H1 : pairs_ok acc1 ∧ ∀ x y, (x, y) ∈ acc1.2 ↔
    (x, y) ∈ acc.2 ∨ (x = b ∧ y ≠ b ∧ Some y = o)).
  { unfold acc1, add_edge. destruct o as [d|]; [|by split; [done|naive_solver]].
    case_decide as Hb; [by split; [done|naive_solver]|]. destruct Hok as [Hnd Hs].
    case_decide as Hin.
    { split; [done|]. apply Hs in Hin. naive_solver. }
    simpl. split; [split|].
    - simpl. apply NoDup_app. split_and!; [done| |apply NoDup_singleton].
      intros x Hx. rewrite elem_of_cons, elem_of_nil. intros [->|[]]. by apply Hin, Hs.
    - simpl. intros x. rewrite elem_of_union, elem_of_singleton, Hs, elem_of_app, elem_of_cons,
        elem_of_nil. tauto.
    - intros x y. rewrite elem_of_app, elem_of_cons, elem_of_nil. naive_solver. }
  destruct H1 as [Hok1 Hx1]. destruct (IH acc1 Hok1) as [Hok' Hx']. split; [done|].
  intros x y. rewrite Hx', Hx1, elem_of_cons. tauto.
Qed.

Section edges.
Variables (drv_to_build name_to_build : gmap string Uuid).

(** The build [b] of [job] depends on [d]. *)
Definition job_edge (job : NixJob) (b d : Uuid) : Prop :=
  d ≠ b ∧ ((∃ drv, drv ∈ drv_keys (jb_input_drvs job) ∧ drv_to_build !! drv = Some d) ∨
           (∃ name, name ∈ default [] (jb_constituents job) ∧ name_to_build !! name = Some d)).

Lemma job_targets_spec job d :
  Some d ∈ job_targets drv_to_build name_to_build job ↔
  (∃ drv, drv ∈ drv_keys (jb_input_drvs job) ∧ drv_to_build !! drv = Some d) ∨
  (∃ name, name ∈ default [] (jb_constituents job) ∧ name_to_build !! name = Some d).
Proof. unfold job_targets. rewrite elem_of_app, !list_elem_of_fmap. naive_solver. Qed.

(** Each job gets exactly its edges, each once, whatever the aliases among the jobs. *)
Lemma dependency_pairs_exact jobs ids :
  let pairs := resolve_dependency_pairs drv_to_build name_to_build jobs ids in
  NoDup pairs ∧
  ∀ b d, (b, d) ∈ pairs ↔ ∃ job, (job, b) ∈ zip jobs ids ∧ job_edge job b d.
Proof.
  cbn zeta. unfold resolve_dependency_pairs. generalize (zip jobs ids) as l. intros l.
  assert (H : ∀ acc, pairs_ok acc →
    let acc' := foldl (add_job drv_to_build name_to_build) acc l in
    pairs_ok acc' ∧ ∀ b d, (b, d) ∈ acc'.2 ↔
      (b, d) ∈ acc.2 ∨ ∃ job, (job, b) ∈ l ∧ job_edge job b d).
  { cbn zeta. induction l as [|[job i] l IH]; intros acc Hok; simpl.
    { split; [done|]. setoid_rewrite elem_of_nil. naive_solver. }
    unfold add_job at 2 4. simpl.
    destruct (add_edges_spec i (job_targets drv_to_build name_to_build job) acc Hok) as [Hok1 H1].
    destruct (IH _ Hok1) as [Hok2 H2]. split; [done|]. intros b d. rewrite H2, H1.
    rewrite job_targets_spec. setoid_rewrite elem_of_cons. unfold job_edge. split.
    - intros [[?|(-> & ? & ?)]|(job' & ? & ?)]; [by left|right..]; eauto 10.
    - intros [?|(job' & [[= -> ->]|?] & ? & ?)]; eauto 10. }
  destruct (H (∅, [])) as [[Hnd _] Hp].
  { split; [constructor|]. intros x. simpl. by rewrite elem_of_nil; set_solver. }
  split; [done|]. intros b d. rewrite Hp. simpl. rewrite elem_of_nil. tauto.
Qed.
End edges.

(** ** The transaction *)

(** What a list maps its keys to: the last position with the key. *)
Section index.
Context {A : Type} (key : A → string) (new_id : nat → Uuid).

Definition index_map (l : list A) : gmap string Uuid :=
  list_to_map (rev (imap (λ k x, (key x, new_id k)) l)).

Lemma index_map_snoc l x : index_map (l ++ [x]) = <[key x := new_id (length l)]> (index_map l).
Proof.
  unfold index_map. rewrite imap_app, rev_app_distr. simpl. by rewrite Nat.add_0_r.
Qed.

Lemma index_map_lookup l s d :
  index_map l !! s = Some d ↔
  ∃ k x, l !! k = Some x ∧ key x = s ∧ d = new_id k ∧
    ∀ m y, l !! m = Some y → key y = s → (m ≤ k)%nat.
Proof.
  induction l as [|x l IH] using rev_ind.
  { unfold index_map. simpl. rewrite lookup_empty. split; [done|]. by intros (k & x & ? & _). }
  rewrite index_map_snoc, lookup_insert. case_decide as Hx.
  - split.
    + intros [= <-]. exists (length l), x. split_and!; [|done|done|].
      { by rewrite lookup_app_r, Nat.sub_diag by lia. }
      intros m y Hm _. apply lookup_lt_Some in Hm. rewrite length_app in Hm. simpl in Hm. lia.
    + intros (k & y & Hk & Hy & -> & Hmax).
      assert (length l ≤ k)%nat.
      { apply (Hmax _ x); [|done]. by rewrite lookup_app_r, Nat.sub_diag by lia. }
      apply lookup_lt_Some in Hk. rewrite length_app in Hk. simpl in Hk. do 2 f_equal. lia.
  - rewrite IH. split; intros (k & y & Hk & Hy & -> & Hmax); exists k, y.
    + split_and!; [by apply lookup_app_l_Some|done|done|].
      intros m z [Hm|[Hm Hz]]%lookup_app_Some Hs; [by eapply Hmax|].
      apply list_lookup_singleton_Some in Hz as [_ <-]. done.
    + apply lookup_app_Some in Hk as [Hk|[_ Hk]].
      * split_and!; [done|done|done|]. intros m z Hm. apply Hmax. by apply lookup_app_l_Some.
      * apply list_lookup_singleton_Some in Hk as [_ <-]. done.
Qed.
End index.

Lemma query_ok {A} (f : World → result CiError A * World) w a w' :
  query f w = (Ok a, w') → ∃ fs, f (set_w_faults fs w) = (Ok a, w').
Proof.
  unfold query. destruct (w_faults w) as [|[] fs] eqn:Hf; [|done|by exists fs].
  intros H. exists []. by destruct w; simpl in *; subst.
Qed.

Lemma mbind_ok_inv {A B} (m : M A) (k : A → M B) w b w' :
  mbind m k w = (Ok b, w') → ∃ a w1, m w = (Ok a, w1) ∧ k a w1 = (Ok b, w').
Proof. unfold mbind. destruct (m w) as [[a|e] w1]; [|done]. eauto. Qed.

Section persisting.
Context (read_drv : string → option string) (read_required_features : string → list string)
  (new_id : nat → Uuid).

Definition new_rows (now : DateTime) (l : list Sql.CreateBuild) : gmap Z Build :=
  list_to_map (rev (imap (λ k i, (new_id k, Sql.new_build (new_id k) now i)) l)).

Definition inserted (l : list Sql.CreateBuild) : Inserted :=
  {| in_drv_to_build := index_map Sql.cb_drv_path new_id l;
     in_name_to_build := index_map Sql.cb_job_name new_id l;
     in_build_ids := new_id <$> seq 0 (length l) |}.

Lemma new_rows_snoc now l i :
  new_rows now (l ++ [i]) =
  <[new_id (length l) := Sql.new_build (new_id (length l)) now i]> (new_rows now l).
Proof.
  unfold new_rows. rewrite imap_app, rev_app_distr. simpl. by rewrite Nat.add_0_r.
Qed.

Lemma inserted_snoc l i :
  inserted (l ++ [i]) =
  {| in_drv_to_build := <[Sql.cb_drv_path i := new_id (length l)]> (in_drv_to_build (inserted l));
     in_name_to_build := <[Sql.cb_job_name i := new_id (length l)]> (in_name_to_build (inserted l));
     in_build_ids := in_build_ids (inserted l) ++ [new_id (length l)] |}.
Proof.
  unfold inserted. rewrite !index_map_snoc, length_app. simpl.
  by rewrite Nat.add_1_r, seq_S, fmap_app.
Qed.

Lemma create_ok id i w b w' :
  builds.create id i w = (Ok b, w') →
  b = Sql.new_build id (w_now w) i ∧
  ∃ fs, w' = set_w_faults fs (set_w_builds (<[id := b]> (w_builds w)) w).
Proof.
  unfold builds.create. intros (o & w1 & Hc & Hk)%mbind_ok_inv.
  unfold Sql.create in Hc. apply query_ok in Hc as [fs Hc]. simpl in Hc.
  destruct (existsb _ _); injection Hc as <- <-; [done|].
  injection Hk as <- <-. split; [done|]. by exists fs.
Qed.

Lemma insert_builds_ok rest l w acc' w' t :
  insert_builds new_id rest (inserted l) w = (Ok acc', w') →
  w_builds w = new_rows (w_now w) l ∪ t →
  acc' = inserted (l ++ rest) ∧
  ∃ fs, w' = set_w_faults fs (set_w_builds (new_rows (w_now w) (l ++ rest) ∪ t) w).
Proof.
  revert l w. induction rest as [|i rest IH]; intros l w H Ht; simpl in H.
  { injection H as <- <-. rewrite app_nil_r. split; [done|]. exists (w_faults w). rewrite <-Ht.
    by destruct w. }
  apply mbind_ok_inv in H as (b & w1 & Hc & H). apply create_ok in Hc as [Hb [fs ->]].
  rewrite length_fmap, length_seq in Hb, H.
  assert (Hid : b_id b = new_id (length l)) by (by rewrite Hb). rewrite Hid in H.
  change (fmap (M := list) new_id (seq 0 (length l))) with (in_build_ids (inserted l)) in H.
  rewrite <-inserted_snoc in H. apply IH in H as [-> [fs' ->]].
  - rewrite <-app_assoc. split; [done|]. by exists fs'.
  - simpl. rewrite new_rows_snoc, Ht, Hb. by rewrite insert_union_l.
Qed.

Lemma insert_pairs_ok l w u w' :
  insert_pairs l w = (Ok u, w') → ∃ fs, w' = set_w_faults fs (set_w_deps (w_deps w ++ l) w).
Proof.
  revert w. induction l as [|p l IH]; intros w H; simpl in H.
  { injection H as <- <-. exists (w_faults w). rewrite app_nil_r. by destruct w. }
  apply mbind_ok_inv in H as ([] & w1 & Hc & H). unfold create_dependency in Hc.
  apply query_ok in Hc as [fs Hc]. simpl in Hc. case_bool_decide; [done|]. injection Hc as <-.
  apply IH in H as [fs' ->]. exists fs'. simpl. by rewrite <-app_assoc.
Qed.

(** A successful transaction, as one assignment to three tables. *)
Lemma persist_ok eval_id jobs inputs w w' :
  persist new_id eval_id jobs inputs w = (Ok true, w') →
  ∃ e fs, w_evaluations w !! eval_id = Some e ∧ e_status e = EvaluationStatus.Running ∧
    w' = set_w_faults fs (set_w_evaluations
           (<[eval_id := Evals.with_status EvaluationStatus.Completed None e]> (w_evaluations w))
           (set_w_deps (w_deps w ++
              resolve_dependency_pairs (index_map Sql.cb_drv_path new_id inputs)
                (index_map Sql.cb_job_name new_id inputs) jobs
                (new_id <$> seq 0 (length inputs)))
             (set_w_builds (new_rows (w_now w) inputs ∪ w_builds w) w))).
Proof.
  unfold persist, transaction. intros H.
  destruct (mbind _ _ w) as [[r|] w1] eqn:Hm; [|done]. injection H as -> ->.
  apply mbind_ok_inv in Hm as (locked & w1 & Hl & H). apply query_ok in Hl as [fs Hl].
  injection Hl as <- <-. simpl in H.
  destruct (match _ with Some e => _ | None => _ end) eqn:Hr; [|done]. simpl in H.
  destruct (w_evaluations w !! eval_id) as [e|] eqn:He; [|done].
  apply bool_decide_eq_true in Hr.
  apply mbind_ok_inv in H as (acc & w2 & Hi & H).
  change {| in_drv_to_build := ∅; in_name_to_build := ∅; in_build_ids := [] |}
    with (inserted []) in Hi.
  apply (insert_builds_ok inputs [] _ _ _ (w_builds w)) in Hi as [-> [fs2 ->]]; cycle 1.
  { unfold new_rows. simpl. by rewrite (left_id_L ∅ (∪)). }
  apply mbind_ok_inv in H as ([] & w3 & Hp & H). apply insert_pairs_ok in Hp as [fs3 ->].
  apply mbind_ok_inv in H as (fin & w4 & Hf & H).
  unfold Evals.finish_running, Evals.update in Hf. apply query_ok in Hf as [fs4 Hf].
  simpl in Hf. rewrite He in Hf. unfold Evals.has_status in Hf.
  rewrite bool_decide_true in Hf by done. injection Hf as <- <-.
  apply mbind_ok_inv in H as ([] & w5 & Hc & H). apply query_ok in Hc as [fs5 Hc].
  injection Hc as <-. injection H as <-.
  exists e, fs5. split_and!; done.
Qed.

Lemma persist_false eval_id jobs inputs w w' :
  persist new_id eval_id jobs inputs w = (Ok false, w') →
  (∀ e, w_evaluations w !! eval_id = Some e → e_status e ≠ EvaluationStatus.Running) ∧
  ∃ fs, w' = set_w_faults fs w.
Proof.
  unfold persist, transaction. intros H.
  destruct (mbind _ _ w) as [[r|] w1] eqn:Hm; [|done]. injection H as -> ->.
  apply mbind_ok_inv in Hm as (locked & w1 & Hl & H). apply query_ok in Hl as [fs Hl].
  injection Hl as <- <-. simpl in H.
  destruct (match _ with Some e => _ | None => _ end) eqn:Hr; simpl in H.
  - apply mbind_ok_inv in H as (acc & w2 & _ & H). apply mbind_ok_inv in H as (u & w3 & _ & H).
    apply mbind_ok_inv in H as ([fin|] & w4 & _ & H); [|done].
    by apply mbind_ok_inv in H as (u' & w5 & _ & H).
  - injection H as <-. split; [|by exists fs]. intros e He. rewrite He in Hr.
    by apply bool_decide_eq_false in Hr.
Qed.

Lemma persist_err eval_id jobs inputs w e w' :
  persist new_id eval_id jobs inputs w = (Err e, w') → ∃ fs, w' = set_w_faults fs w.
Proof.
  unfold persist, transaction. intros H. destruct (mbind _ _ w) as [[r|] w1] eqn:Hm; [done|].
  injection H as _ <-. by exists (w_faults w1).
Qed.

(** [k] is the last position whose job has this derivation. *)
Definition last_with {A B} (key : A → B) (l : list A) (k : nat) (x : A) : Prop :=
  l !! k = Some x ∧ ∀ m y, l !! m = Some y → key y = key x → (m ≤ k)%nat.

(** The job at [i] depends on the one at [k]. *)
Definition depends_at (jobs : list NixJob) (i k : nat) : Prop :=
  i ≠ k ∧ ∃ ji jk, jobs !! i = Some ji ∧ jobs !! k = Some jk ∧
    ((last_with jb_drv_path jobs k jk ∧ jb_drv_path jk ∈ drv_keys (jb_input_drvs ji)) ∨
     (last_with jb_name jobs k jk ∧ jb_name jk ∈ default [] (jb_constituents ji))).

Context `{Hinj : !Inj (=) (=) new_id}.

Lemma new_rows_lookup now l k b :
  new_rows now l !! k = Some b ↔
  ∃ i x, l !! i = Some x ∧ k = new_id i ∧ b = Sql.new_build (new_id i) now x.
Proof.
  induction l as [|x l IH] using rev_ind.
  { unfold new_rows. simpl. rewrite lookup_empty. split; [done|]. by intros (i & x & ? & _). }
  rewrite new_rows_snoc, lookup_insert. case_decide as Hk.
  - subst k. split.
    + intros [= <-]. exists (length l), x. by rewrite lookup_app_r, Nat.sub_diag by lia.
    + intros (i & y & Hi & <-%Hinj & ->).
      rewrite lookup_app_r, Nat.sub_diag in Hi by lia. by injection Hi as <-.
  - rewrite IH. split; intros (i & y & Hi & -> & ->); exists i, y.
    + by split; [apply lookup_app_l_Some|].
    + apply lookup_app_Some in Hi as [Hi|[Hl Hi]]; [done|].
      apply list_lookup_singleton_Some in Hi as [Hi _]. destruct Hk. f_equal. lia.
Qed.

(** The edges of the transaction, by position. *)
Lemma pairs_by_position eval_id derivations jobs b d :
  let inputs := create_build read_drv read_required_features eval_id derivations <$> jobs in
  (b, d) ∈ resolve_dependency_pairs (index_map Sql.cb_drv_path new_id inputs)
    (index_map Sql.cb_job_name new_id inputs) jobs (new_id <$> seq 0 (length inputs)) ↔
  ∃ i k, b = new_id i ∧ d = new_id k ∧ depends_at jobs i k.
Proof.
  cbn zeta. rewrite (proj2 (dependency_pairs_exact _ _ _ _)).
  assert (Hzip : ∀ job, (job, b) ∈ zip jobs (new_id <$> seq 0 (length (create_build read_drv
      read_required_features eval_id derivations <$> jobs))) ↔
    ∃ i, jobs !! i = Some job ∧ b = new_id i).
  { intros job. rewrite length_fmap, list_elem_of_lookup. split.
    - intros [i Hi]. exists i. rewrite lookup_zip_with, list_lookup_fmap in Hi. destruct (jobs !! i) as [j|] eqn:Hj; [|done]. simpl in Hi.
      rewrite lookup_seq_lt in Hi by (by eapply lookup_lt_Some). by injection Hi as -> ->.
    - intros (i & Hj & ->). exists i. rewrite lookup_zip_with, list_lookup_fmap, Hj. simpl.
      by rewrite lookup_seq_lt by (by eapply lookup_lt_Some). }
  assert (Hidx : ∀ (key : Sql.CreateBuild → string) (jkey : NixJob → string) t,
    (∀ j, key (create_build read_drv read_required_features eval_id derivations j) = jkey j) →
    index_map key new_id (create_build read_drv read_required_features eval_id derivations
      <$> jobs) !! t = Some d ↔
    ∃ k jk, last_with jkey jobs k jk ∧ jkey jk = t ∧ d = new_id k).
  { intros key jkey t Hkey. rewrite index_map_lookup. unfold last_with. split.
    - intros (k & x & Hk & <- & -> & Hmax). rewrite list_lookup_fmap in Hk.
      destruct (jobs !! k) as [jk|] eqn:Hj; [|done]. injection Hk as <-. exists k, jk.
      rewrite Hkey. split_and!; try done. intros m y Hm Hy.
      apply (Hmax m (create_build read_drv read_required_features eval_id derivations y));
        [by rewrite list_lookup_fmap, Hm|by rewrite !Hkey].
    - intros (k & jk & [Hk Hmax] & <- & ->).
      exists k, (create_build read_drv read_required_features eval_id derivations jk).
      rewrite list_lookup_fmap, Hk, Hkey. split_and!; try done. intros m y Hm Hy.
      rewrite list_lookup_fmap in Hm. destruct (jobs !! m) as [jm|] eqn:Hj; [|done].
      injection Hm as <-. apply (Hmax m jm Hj). by rewrite <-Hkey. }
  unfold job_edge, depends_at. setoid_rewrite Hzip.
  setoid_rewrite (Hidx Sql.cb_drv_path jb_drv_path); [|done].
  setoid_rewrite (Hidx Sql.cb_job_name jb_name); [|done]. split.
  - intros (ji & (i & Hi & ->) & Hne & [(t & Ht & k & jk & Hk & <- & ->)|
      (t & Ht & k & jk & Hk & <- & ->)]);
      exists i, k; (split_and!; [done|done|by intros ->|]); exists ji, jk;
      (split_and!; [done|apply Hk|auto]).
  - intros (i & k & -> & -> & Hik & ji & jk & Hi & Hk & Hor). exists ji. split; [by exists i|].
    split; [by intros ?%Hinj|]. destruct Hor as [[Hl Hin]|[Hl Hin]]; [left|right]; eauto 10.
Qed.

(** C6. An evaluation is completed together with all its builds, or not at all.  If the
    transaction succeeds, the evaluation was running and is completed, every selected job
    has a new pending build with the data of its derivation, the new dependencies are
    exactly the edges between these builds, and nothing else has changed.  If the
    evaluation was not running any more, or a statement failed, the tables are as
    before. *)
Theorem evaluation_builds_atomic eval_id derivations invalid allowed r w out w' :
  create_builds_from_eval read_drv read_required_features new_id eval_id derivations invalid
    allowed r w = (out, w') →
  match out with
  | Ok true =>
      ∃ jobs e, selected_jobs derivations invalid allowed (er_jobs r) = Some jobs ∧
        w_evaluations w !! eval_id = Some e ∧ e_status e = EvaluationStatus.Running ∧
        w_evaluations w' = <[eval_id := Evals.with_status EvaluationStatus.Completed None e]>
                             (w_evaluations w) ∧
        (∀ i job, jobs !! i = Some job → w_builds w' !! new_id i =
           Some (Sql.new_build (new_id i) (w_now w)
             (create_build read_drv read_required_features eval_id derivations job))) ∧
        (∀ k, (∀ i, (i < length jobs)%nat → k ≠ new_id i) → w_builds w' !! k = w_builds w !! k) ∧
        (∃ pairs, w_deps w' = w_deps w ++ pairs ∧ NoDup pairs ∧
           ∀ b d, (b, d) ∈ pairs ↔
             ∃ i k, b = new_id i ∧ d = new_id k ∧ depends_at jobs i k) ∧
        w' = set_w_faults (w_faults w') (set_w_evaluations (w_evaluations w')
               (set_w_deps (w_deps w') (set_w_builds (w_builds w') w)))
  | Ok false =>
      (∀ e, w_evaluations w !! eval_id = Some e → e_status e ≠ EvaluationStatus.Running) ∧
      w' = set_w_faults (w_faults w') w
  | Err _ => w' = set_w_faults (w_faults w') w
  end.
Proof.
  unfold create_builds_from_eval.
  destruct (selected_jobs _ _ _ _) as [jobs|] eqn:Hs; cycle 1.
  { intros [= <- <-]. by destruct w. }
  intros H. destruct out as [[|]|err].
  - apply persist_ok in H as (e & fs & He & Hr & ->). exists jobs, e. split_and!; try done; simpl.
    + intros i job Hi. apply lookup_union_Some_l, new_rows_lookup.
      exists i, (create_build read_drv read_required_features eval_id derivations job).
      by rewrite list_lookup_fmap, Hi.
    + intros k Hk. apply lookup_union_r. apply eq_None_not_Some. intros [b Hb].
      apply new_rows_lookup in Hb as (i & x & Hi & -> & _). rewrite list_lookup_fmap in Hi.
      apply (Hk i); [|done]. apply fmap_Some in Hi as (j & Hj & _). by eapply lookup_lt_Some.
    + eexists. split; [done|]. split; [apply dependency_pairs_exact|].
      intros b d. apply pairs_by_position.
  - apply persist_false in H as [Hne [fs ->]]. split; [done|]. by destruct w.
  - apply persist_err in H as [fs ->]. by destruct w.
Qed.

(** *** Success *)

Lemma query_no_fault {A} (f : World → result CiError A * World) w :
  w_faults w = [] → query f w = f w.
Proof. intros Hf. unfold query. by rewrite Hf. Qed.

(** No build of the evaluation has one of the names. *)
Definition names_free (eval_id : Uuid) (names : list string) (t : gmap Z Build) : Prop :=
  ∀ k b, t !! k = Some b → b_evaluation_id b = eval_id → b_job_name b ∉ names.

Lemma insert_builds_succeeds eval_id inputs acc w :
  w_faults w = [] → Forall (λ i, Sql.cb_evaluation_id i = eval_id) inputs →
  NoDup (Sql.cb_job_name <$> inputs) →
  names_free eval_id (Sql.cb_job_name <$> inputs) (w_builds w) →
  ∃ acc' w', insert_builds new_id inputs acc w = (Ok acc', w') ∧ w_faults w' = [] ∧
    w_deps w' = w_deps w ∧ w_evaluations w' = w_evaluations w.
Proof.
  revert acc w. induction inputs as [|i inputs IH]; intros acc w Hf He Hnd Hfree.
  { by exists acc, w. }
  rewrite fmap_cons, NoDup_cons in Hnd. destruct Hnd as [Hi Hnd].
  apply Forall_cons in He as [Hei He]. simpl.
  set (b := Sql.new_build (new_id (length (in_build_ids acc))) (w_now w) i).
  assert (Hc : builds.create (new_id (length (in_build_ids acc))) i w =
    (Ok b, set_w_builds (<[new_id (length (in_build_ids acc)) := b]> (w_builds w)) w)).
  { unfold builds.create, Sql.create, mbind. rewrite query_no_fault by done.
    destruct (existsb _ _) eqn:Hx; [|done]. exfalso.
    apply existsb_rows in Hx as (k & b0 & Hk & [He0 Hn]%andb_true_iff).
    apply bool_decide_eq_true in He0, Hn.
    apply (Hfree k b0 Hk); [congruence|]. rewrite Hn, fmap_cons. left. }
  rewrite (mbind_ok _ _ _ _ _ Hc).
  match goal with |- context [insert_builds new_id inputs ?a ?v] =>
    destruct (IH a v) as (acc' & w' & H & Hf' & Hd' & He') end; try done; [|by eauto 6].
  intros k b0. simpl. rewrite lookup_insert. case_decide; [|].
  - intros [= <-] _. simpl. done.
  - intros Hk Hb Hin. apply (Hfree k b0 Hk Hb). rewrite fmap_cons. by right.
Qed.

Lemma insert_pairs_succeeds l w :
  w_faults w = [] → NoDup l → (∀ p, p ∈ l → p ∉ w_deps w) →
  ∃ w', insert_pairs l w = (Ok (), w') ∧ w_faults w' = [] ∧ w_evaluations w' = w_evaluations w.
Proof.
  revert w. induction l as [|p l IH]; intros w Hf Hnd Hfree; [by exists w|].
  rewrite NoDup_cons in Hnd. destruct Hnd as [Hp Hnd]. simpl.
  assert (Hc : create_dependency p w = (Ok (), set_w_deps (w_deps w ++ [p]) w)).
  { unfold create_dependency. rewrite query_no_fault by done.
    by rewrite bool_decide_false by (apply Hfree; left). }
  rewrite (mbind_ok _ _ _ _ _ Hc). destruct (IH (set_w_deps (w_deps w ++ [p]) w)) as (w' & H & ? & ?);
    try done; [|by eauto].
  intros q Hq. simpl. rewrite elem_of_app, elem_of_cons, elem_of_nil.
  intros [?|[->|[]]]; [|done]. apply (Hfree q); [by right|done].
Qed.

Lemma persist_succeeds eval_id jobs derivations w e :
  let inputs := create_build read_drv read_required_features eval_id derivations <$> jobs in
  w_faults w = [] → w_evaluations w !! eval_id = Some e →
  e_status e = EvaluationStatus.Running → NoDup (jb_name <$> jobs) →
  names_free eval_id (jb_name <$> jobs) (w_builds w) →
  (∀ i d, (new_id i, d) ∉ w_deps w) →
  ∃ w', persist new_id eval_id jobs inputs w = (Ok true, w').
Proof.
  cbn zeta. intros Hf He Hr Hnd Hfree Hdeps. set (inputs := _ <$> jobs).
  assert (Hnames : Sql.cb_job_name <$> inputs = jb_name <$> jobs)
    by (unfold inputs; by rewrite <-list_fmap_compose).
  unfold persist, transaction, lock_running.
  rewrite (mbind_ok _ _ _ _ _ (read_no_fault _ _ Hf)), He.
  unfold Evals.has_status. rewrite bool_decide_true by done. simpl.
  destruct (insert_builds_succeeds eval_id inputs (inserted []) w) as (acc & w1 & Hi & Hf1 & Hd1 & He1);
    [done| | by rewrite Hnames|by rewrite Hnames|].
  { apply Forall_fmap, Forall_forall. done. }
  change {| in_drv_to_build := ∅; in_name_to_build := ∅; in_build_ids := [] |} with (inserted []).
  rewrite (mbind_ok _ _ _ _ _ Hi).
  apply (insert_builds_ok inputs [] _ _ _ (w_builds w)) in Hi as [-> _]; cycle 1.
  { unfold new_rows. simpl. by rewrite (left_id_L ∅ (∪)). }
  destruct (insert_pairs_succeeds (resolve_dependency_pairs
    (in_drv_to_build (inserted ([] ++ inputs))) (in_name_to_build (inserted ([] ++ inputs))) jobs
    (in_build_ids (inserted ([] ++ inputs)))) w1) as (w2 & Hp & Hf2 & He2); [done| | |].
  { apply dependency_pairs_exact. }
  { intros [b d] Hbd. rewrite Hd1. apply pairs_by_position in Hbd as (i & k & -> & _). apply Hdeps. }
  rewrite (mbind_ok _ _ _ _ _ Hp). unfold Evals.finish_running, Evals.update.
  unfold mbind at 1. rewrite query_no_fault by done. rewrite He2, He1, He.
  unfold Evals.has_status. rewrite bool_decide_true by done.
  unfold commit, mbind. rewrite query_no_fault by done. by eexists.
Qed.

(** *** Progress *)

Lemma least_of (f : nat → nat) (l : list nat) :
  l ≠ [] → ∃ i, i ∈ l ∧ ∀ k, k ∈ l → (f i ≤ f k)%nat.
Proof.
  induction l as [|x l IH]; [done|]. intros _. destruct l as [|y l].
  { exists x. split; [left|]. intros k [->|?%elem_of_nil]%elem_of_cons; done. }
  destruct IH as (i & Hi & Hmin); [done|]. destruct (decide (f x ≤ f i)%nat) as [Hx|Hx].
  - exists x. split; [left|]. intros k [->|Hk]%elem_of_cons; [done|]. specialize (Hmin k Hk). lia.
  - exists i. split; [by right|]. intros k [->|Hk]%elem_of_cons; [lia|]. by apply Hmin.
Qed.

(** Inputs and constituents come before: what Nix guarantees of derivations. *)
Record ranked (rank : string → nat) (jobs : list NixJob) : Prop := {
  ranked_inputs j d : j ∈ jobs → d ∈ drv_keys (jb_input_drvs j) →
    (rank d < rank (jb_drv_path j))%nat;
  ranked_constituents j c : j ∈ jobs → c ∈ jobs → jb_name c ∈ default [] (jb_constituents j) →
    (rank (jb_drv_path c) < rank (jb_drv_path j))%nat;
}.

Lemma depends_at_ranked rank jobs i k ji jk :
  ranked rank jobs → depends_at jobs i k → jobs !! i = Some ji → jobs !! k = Some jk →
  (rank (jb_drv_path jk) < rank (jb_drv_path ji))%nat.
Proof.
  intros [H1 H2] (_ & ji' & jk' & Hi & Hk & Hor) Hi' Hk'. simplify_eq.
  apply list_elem_of_lookup_2 in Hi, Hk.
  destruct Hor as [[_ Hin]|[_ Hin]]; [by apply H1|by apply H2].
Qed.

(** C29. The builds of an evaluation never wait for each other in a circle.  If the names
    of the selected jobs are new and distinct and the derivations have no cycle, the
    builds are created, and among any of them that are unfinished there is one that
    depends on none of the others. *)
Theorem new_builds_can_start eval_id derivations invalid allowed r jobs rank w e :
  w_faults w = [] → w_evaluations w !! eval_id = Some e →
  e_status e = EvaluationStatus.Running →
  selected_jobs derivations invalid allowed (er_jobs r) = Some jobs →
  NoDup (jb_name <$> jobs) → names_free eval_id (jb_name <$> jobs) (w_builds w) →
  (∀ i d, (new_id i, d) ∉ w_deps w) → ranked rank jobs →
  ∃ w', create_builds_from_eval read_drv read_required_features new_id eval_id derivations
          invalid allowed r w = (Ok true, w') ∧
    ∀ unfinished, unfinished ≠ [] → Forall (λ i, (i < length jobs)%nat) unfinished →
      ∃ i, i ∈ unfinished ∧ ∀ k, k ∈ unfinished → (new_id i, new_id k) ∉ w_deps w'.
Proof.
  intros Hf He Hr Hs Hnd Hfree Hdeps Hrank. unfold create_builds_from_eval. rewrite Hs.
  destruct (persist_succeeds eval_id jobs derivations w e) as [w' Hp]; try done.
  exists w'. split; [done|]. intros l Hl Hlen.
  apply persist_ok in Hp as (e' & fs & _ & _ & ->).
  set (f i := match jobs !! i with Some j => rank (jb_drv_path j) | None => O end).
  destruct (least_of f l Hl) as (i & Hi & Hmin). exists i. split; [done|]. intros k Hk. simpl.
  intros [Hin|Hin]%elem_of_app; [by apply Hdeps in Hin|].
  apply pairs_by_position in Hin as (i' & k' & <-%Hinj & <-%Hinj & Hdep).
  rewrite Forall_forall in Hlen.
  destruct (lookup_lt_is_Some_2 jobs i (Hlen i Hi)) as [ji Hji].
  destruct (lookup_lt_is_Some_2 jobs k (Hlen k Hk)) as [jk Hjk].
  pose proof (depends_at_ranked rank jobs i k ji jk Hrank Hdep Hji Hjk) as Hlt.
  specialize (Hmin k Hk). unfold f in Hmin. rewrite Hji, Hjk in Hmin. lia.
Qed.
End persisting.

(** ** The hash of the inputs *)

Section hash.
Context `{Codecs}.

(** The revision written behind the value. *)
Definition inline_revision (i : JobsetInput) : JobsetInput :=
  {| ji_id := ji_id i; ji_jobset_id := ji_jobset_id i; ji_name := ji_name i;
     ji_input_type := ji_input_type i; ji_value := ji_value i +:+ default "" (ji_revision i);
     ji_revision := None; ji_created_at := ji_created_at i |}.

Lemma sort_by_fmap {A} (cmp : A → A → comparison) (f : A → A) l :
  (∀ x y, cmp (f x) (f y) = cmp x y) → sort_by cmp (f <$> l) = f <$> sort_by cmp l.
Proof.
  intros Hf. assert (Hins : ∀ x l, insert_by cmp (f x) (f <$> l) = f <$> insert_by cmp x l).
  { intros x l'. induction l' as [|y l' IH]; simpl; [done|]. rewrite Hf.
    destruct (cmp x y); [done|done|]. rewrite fmap_cons. f_equal. apply IH. }
  induction l as [|x l IH]; [done|]. rewrite fmap_cons. simpl. by rewrite IH, Hins.
Qed.

(** The hash does not tell a revision from the end of the value. *)
Lemma inputs_hash_inline commit inputs :
  compute_inputs_hash commit (inline_revision <$> inputs) = compute_inputs_hash commit inputs.
Proof.
  unfold compute_inputs_hash. rewrite sort_by_fmap by done. do 4 f_equal.
  induction (sort_by by_name inputs) as [|i l IH]; [done|].
  rewrite fmap_cons. cbn [foldr]. rewrite IH. f_equal. unfold input_text. simpl. rewrite <-!str_app_assoc. do 3 f_equal.
  by rewrite str_app_nil.
Qed.
End hash.

(** ** Witnesses *)

Definition demo_info (inputs : list string) : DerivationInfo :=
  {| di_system := Some "x86_64-linux"; di_outputs := None;
     di_input_drvs := Some ((λ d, (d, JNull)) <$> inputs); di_required_features := [] |}.

(** [app] needs [lib], which needs [cc]; [doc] is known but needed by nothing. *)
Definition demo_derivations : gmap string DerivationInfo :=
  {[ "lib" := demo_info ["cc"]; "cc" := demo_info []; "doc" := demo_info ["cc"] ]}.

Definition demo_job : NixJob :=
  {| jb_name := "app"; jb_drv_path := "app"; jb_system := Some "x86_64-linux";
     jb_outputs := None; jb_input_drvs := Some [("lib", JNull)]; jb_constituents := None;
     jb_meta := NixMeta_default |}.

Definition demo_result : EvalResult :=
  {| er_jobs := [demo_job]; er_error_count := 0; er_errors := [] |}.

Definition demo_jobs : list NixJob :=
  [demo_job; dependency_job "lib" (demo_info ["cc"]); dependency_job "cc" (demo_info [])].

Definition demo_id (i : nat) : Uuid := Z.of_nat i + 100.

#[local] Instance demo_id_inj : Inj (=) (=) demo_id.
Proof. intros i k. unfold demo_id. lia. Qed.

Definition demo_world : World :=
  set_w_evaluations {[ 10 := ci_evaluation 10 "a" EvaluationStatus.Running ]} ci_world.

Lemma expansion_exact_witness :
  ∃ deps, expand_derivation_graph demo_derivations ∅ [demo_job] =
      Some ([demo_job] ++ flat_map (job_of demo_derivations) deps) ∧
    (∀ d, d ∈ deps ↔ needed demo_derivations ∅ [demo_job] d).
Proof.
  destruct (expansion_exact demo_derivations ∅ [demo_job]) as (deps & H1 & _ & H2 & _).
  - intros H. apply (f_equal (.!! "cc")) in H. done.
  - exists deps. split; [exact H1|exact H2].
Defined.

Lemma demo_selected : selected_jobs demo_derivations ∅ None (er_jobs demo_result) = Some demo_jobs.
Proof. vm_compute. reflexivity. Qed.

Lemma demo_created :
  (create_builds_from_eval (λ _, None) (λ _, []) demo_id 10 demo_derivations ∅ None demo_result
     demo_world).1 = Ok true.
Proof. vm_compute. reflexivity. Qed.

Lemma evaluation_builds_atomic_witness :
  ∃ w', create_builds_from_eval (λ _, None) (λ _, []) demo_id 10 demo_derivations ∅ None
      demo_result demo_world = (Ok true, w') ∧
    e_status <$> w_evaluations w' !! 10 = Some EvaluationStatus.Completed ∧
    b_status <$> w_builds w' !! 101 = Some Pending.
Proof.
  pose proof demo_created as Hok.
  destruct (create_builds_from_eval (λ _, None) (λ _, []) demo_id 10 demo_derivations ∅ None
    demo_result demo_world) as [out w'] eqn:E. simpl in Hok. subst out.
  exists w'. split; [reflexivity|].
  destruct (evaluation_builds_atomic (λ _, None) (λ _, []) demo_id 10 demo_derivations ∅ None
    demo_result demo_world (Ok true) w' E) as (jobs & e & Hj & _ & _ & He & Hb & _).
  rewrite demo_selected in Hj. injection Hj as <-.
  split; [by rewrite He|]. specialize (Hb 1%nat _ eq_refl).
  change (demo_id 1) with 101 in Hb. by rewrite Hb.
Defined.

Lemma new_builds_can_start_witness :
  ∃ w', create_builds_from_eval (λ _, None) (λ _, []) demo_id 10 demo_derivations ∅ None
      demo_result demo_world = (Ok true, w') ∧
    ∃ i, i ∈ [0; 1; 2]%nat ∧
      ∀ k, k ∈ [0; 1; 2]%nat → (demo_id i, demo_id k) ∉ w_deps w'.
Proof.
  destruct (new_builds_can_start (λ _, None) (λ _, []) demo_id 10 demo_derivations ∅ None
    demo_result demo_jobs
    (λ d, if decide (d = "app") then 2 else if decide (d = "lib") then 1 else 0)%nat
    demo_world (ci_evaluation 10 "a" EvaluationStatus.Running)) as (w' & Hc & Hs).
  - reflexivity.
  - reflexivity.
  - reflexivity.
  - exact demo_selected.
  - apply (bool_decide_unpack _). vm_compute. exact I.
  - intros k b. unfold demo_world, ci_world. simpl. by rewrite lookup_empty.
  - intros i d. apply not_elem_of_nil.
  - split.
    + intros j d Hj Hd. unfold demo_jobs in Hj. rewrite !elem_of_cons, elem_of_nil in Hj.
      destruct Hj as [->|[->|[->|[]]]]; unfold drv_keys in Hd; simpl in Hd;
        rewrite ?elem_of_cons, ?elem_of_nil in Hd; [destruct Hd as [->|[]]..|done];
        vm_compute; lia.
    + intros j c Hj _. unfold demo_jobs in Hj. rewrite !elem_of_cons, elem_of_nil in Hj.
      destruct Hj as [->|[->|[->|[]]]]; simpl; by rewrite elem_of_nil.
  - exists w'. split; [done|]. apply Hs; [done|]. by repeat constructor.
Defined.
