(* ===== verification/Validate.v ===== *)
(** * Validation of inputs

    [crates/types/src/validation.rs], [crates/nix/src/validate.rs] and [flake.rs],
    [crates/common/src/validate.rs] and [validate/path_filter.rs]: names, commits,
    expressions, jobset inputs, flake references, addresses and jobsets. *)

From S2P Require Import Prelude Types Float32 Db NixJobs FlakeRefs.

(** ** Names and commits *)

Definition is_ascii_alnum (c : ascii) : bool :=
  in_range "0" "9" c || in_range "a" "z" c || in_range "A" "Z" c.

Definition name_char (c : ascii) : bool :=
  is_ascii_alnum c || char_is "_"%char c || char_is "-"%char c.

(** [NAME_RE]. *)
Definition name_re (s : string) : bool :=
  match s with
  | "" => false
  | String c t => is_ascii_alnum c && str_all name_char t
  end.

Definition validate_name (name field : string) : result string () :=
  if bool_decide (name = "") || (255 <? str_len name)
  then Err (field +:+ " must be between 1 and 255 characters")
  else if negb (name_re name)
  then Err (field +:+ " must start with alphanumeric and contain only [a-zA-Z0-9_-]")
  else Ok ().

Definition validate_commit_hash (hash : string) : result string () :=
  if (1 <=? str_len hash) && (str_len hash <=? 64) && str_all is_ascii_hexdigit hash
  then Ok () else Err "commit_hash must be 1-64 hex characters".

Definition cache_schemes : list string := ["http"; "https"; "s3"; "ssh"; "ssh-ng"; "file"].

Definition validate_cache_url (url field : string) : result string () :=
  if bool_decide (trim url = "") then Err (field +:+ " cannot be empty")
  else if 2048 <? str_len url then Err (field +:+ " must be at most 2048 characters")
  else match split_scheme url with
       | Some (scheme, _) =>
           if bool_decide (scheme ∈ cache_schemes) then Ok ()
           else Err (field +:+ " must use http, https, s3, ssh, ssh-ng, or file")
       | None => Err (field +:+ " must use http, https, s3, ssh, ssh-ng, or file")
       end.

(** ** Expressions and inputs *)

Definition NUL : ascii := "000"%char.
Definition has_nul (s : string) : bool := existsb (char_is NUL) (str_chars s).

Definition validate_nix_expression (expr : string) : result string () :=
  if bool_decide (expr = "") then Err "nix_expression cannot be empty"
  else if 1024 <? str_len expr then Err "nix_expression must be at most 1024 characters"
  else if has_nul expr then Err "nix_expression must not contain null bytes"
  else if contains ".." expr
  then Err "nix_expression must not contain path traversal sequences (..)"
  else if starts_with "/" expr then Err "nix_expression must not be an absolute path"
  else Ok ().

Definition DEFAULT_ALLOWED_SCHEMES : list string :=
  ["github:"; "gitlab:"; "sourcehut:"; "git+https://"; "git+ssh://"; "git+http://";
   "https://"; "http://"; "ssh://"; "tarball+https://"; "tarball+http://"].

(** [Ref::parse_with] and [Ref::from_url_with]. *)
Definition Ref_parse_with (value : string) (allowed_schemes : list string) : result string string :=
  let trimmed := trim value in
  if bool_decide (trimmed = "") then Err "flake ref cannot be empty"
  else if 2048 <? str_len trimmed then Err "flake ref must be at most 2048 characters"
  else if has_nul trimmed then Err "flake ref must not contain null bytes"
  else if negb (existsb (λ s, starts_with s trimmed) allowed_schemes)
  then Err ("flake ref scheme not allowed; permitted: " +:+ str_join ", " allowed_schemes)
  else Ok trimmed.

Definition Ref_parse (value : string) : result string string :=
  Ref_parse_with value DEFAULT_ALLOWED_SCHEMES.

Definition Ref_from_url_with (url : string) (allowed_schemes : list string) :
    result string string :=
  let url := trim_end_matches_str "/" (trim url) in
  if contains ":" url && negb (starts_with "http://" url) && negb (starts_with "https://" url)
  then Ref_parse_with url allowed_schemes
  else
    let without_scheme := match strip_prefix "https://" url with
                          | Some s => s
                          | None => default url (strip_prefix "http://" url)
                          end in
    let without_dotgit := trim_end_matches_str ".git" without_scheme in
    match strip_prefix "github.com/" without_dotgit with
    | Some path => Ref_parse_with ("github:" +:+ path) allowed_schemes
    | None =>
        match strip_prefix "gitlab.com/" without_dotgit with
        | Some path => Ref_parse_with ("gitlab:" +:+ path) allowed_schemes
        | None =>
            if starts_with "https://" url || starts_with "http://" url
            then Ref_parse_with ("git+" +:+ url) allowed_schemes
            else Ref_parse_with url allowed_schemes
        end
    end.

Definition Ref_with_revision (r rev : string) : string := r +:+ "?rev=" +:+ rev.

Definition validate_jobset_input (name : string) (input_type : InputType.t) (value : string)
    (revision : option string) : result string () :=
  let? _ := validate_name name "input name" in
  if bool_decide (value = "") then Err "input value cannot be empty"
  else if 2048 <? str_len value then Err "input value must be at most 2048 characters"
  else if has_nul value then Err "input value must not contain null bytes"
  else
    let? _ := match revision with Some rev => validate_commit_hash rev | None => Ok () end in
    match input_type with
    | InputType.Git => let? _ := Ref_parse value in Ok ()
    | InputType.String_ | InputType.Boolean | InputType.Build => Ok ()
    end.

Definition validate_drv_path (path : string) : result string () :=
  if negb (starts_with "/" path) then Err "drv_path must be an absolute path"
  else if negb match extension path with
               | Some ext => bool_decide (to_ascii_lowercase ext = "drv")
               | None => false
               end
  then Err "drv_path must end with .drv"
  else if contains ".." path then Err "drv_path must not contain .."
  else Ok ().

(** ** Path filters *)

Definition path_filter_ok (filter : string) : result string () :=
  if bool_decide (filter = "") || (512 <? str_len filter)
  then Err "path_filters entries must contain 1 to 512 characters"
  else if starts_with "/" filter || has_nul filter || existsb (char_is "\"%char) (str_chars filter) ||
          existsb (λ c, bool_decide (c = "..")) (split_by (char_is "/"%char) filter)
  then Err ("path_filters entries must be relative Git pathspecs without '..' or " +:+
            "backslashes")
  else Ok ().

Fixpoint all_ok {A} (f : A → result string ()) (l : list A) : result string () :=
  match l with
  | [] => Ok ()
  | x :: l => let? _ := f x in all_ok f l
  end.

Definition validate_path_filters (filters : list string) : result string () :=
  if 128 <? zlen filters then Err "path_filters must contain at most 128 entries"
  else all_ok path_filter_ok filters.

Definition validate_path_filter_policy (source_change : bool) (filters : list string) :
    result string () :=
  if negb source_change && negb (bool_decide (filters = []))
  then Err "path_filters requires trigger_mode 'source_change'" else Ok ().

(** ** Jobsets *)

Record CreateJobset := {
  cj_project_id : Uuid;
  cj_name : string;
  cj_nix_expression : string;
  cj_enabled : option bool;
  cj_flake_mode : option bool;
  cj_check_interval : option Z;
  cj_trigger_mode : option JobsetTriggerMode.t;
  cj_branch : option string;
  cj_branch_pattern : option string;
  cj_tag_pattern : option string;
  cj_scheduling_shares : option Z;
  cj_state : option JobsetState.t;
  cj_keep_nr : option Z;
  cj_systems : option (list string);
  cj_only_build_latest : option bool;
  cj_path_filters : option (list string);
}.

Definition validate_check_interval (interval : Z) : result string () :=
  if (10 <=? interval) && (interval <=? 86400) then Ok ()
  else Err "check_interval must be between 10 and 86400".

Definition validate_systems (systems : list string) : result string () :=
  if existsb (λ s, bool_decide (trim s = "")) systems
  then Err "systems entries cannot be empty" else Ok ().

Definition validate_latest_only_policy (trigger_mode : JobsetTriggerMode.t)
    (only_build_latest : bool) : result string () :=
  if only_build_latest && bool_decide (trigger_mode = JobsetTriggerMode.Interval)
  then Err "only_build_latest requires trigger_mode 'source_change'" else Ok ().

(** [impl Validate for CreateJobset]. *)
Definition validate_create_jobset (j : CreateJobset) : result string () :=
  let? _ := validate_name (cj_name j) "name" in
  let? _ := validate_nix_expression (cj_nix_expression j) in
  let? _ := match cj_check_interval j with
            | Some i => validate_check_interval i
            | None => Ok ()
            end in
  let? _ := match cj_systems j with
            | Some [] => Err "systems cannot be empty"
            | Some l => validate_systems l
            | None => Ok ()
            end in
  let trigger_mode := default JobsetTriggerMode.SourceChange (cj_trigger_mode j) in
  let? _ := validate_latest_only_policy trigger_mode (default false (cj_only_build_latest j)) in
  let path_filters := default [] (cj_path_filters j) in
  let? _ := validate_path_filters path_filters in
  validate_path_filter_policy (bool_decide (trigger_mode = JobsetTriggerMode.SourceChange))
    path_filters.

(** ** Addresses *)

(** [std::net::IpAddr]: octets or segments. *)
Inductive IpAddr := V4 (octets : list Z) | V6 (segments : list Z).

Definition digit_val (c : ascii) : Z :=
  if in_range "0" "9" c then byte_of c - 48
  else if in_range "a" "f" c then byte_of c - 87 else byte_of c - 55.

Definition number (base : Z) (s : string) : Z :=
  fold_left (λ n c, n * base + digit_val c) (str_chars s) 0.

(** At most three digits without a leading zero. *)
Definition parse_octet (s : string) : option Z :=
  if bool_decide (s = "") || (3 <? str_len s) || negb (str_all is_digit s) ||
     (starts_with "0" s && (1 <? str_len s)) || (255 <? number 10 s)
  then None else Some (number 10 s).

(** All pieces or nothing. *)
Fixpoint map_option {A B} (f : A → option B) (l : list A) : option (list B) :=
  match l with
  | [] => Some []
  | x :: l => let* y := f x in let* ys := map_option f l in Some (y :: ys)
  end.

Definition parse_v4 (s : string) : option (list Z) :=
  let* l := map_option parse_octet (split_by (char_is "."%char) s) in
  if (length l =? 4)%nat then Some l else None.

Definition parse_group (s : string) : option Z :=
  if bool_decide (s = "") || (4 <? str_len s) || negb (str_all is_ascii_hexdigit s)
  then None else Some (number 16 s).

(** Groups of sixteen bits; the last two may be written as an IPv4 address. *)
Fixpoint parse_groups (pieces : list string) : option (list Z) :=
  match pieces with
  | [] => Some []
  | [s] => match parse_v4 s with
           | Some [a; b; c; d] => Some [a * 256 + b; c * 256 + d]
           | _ => let* g := parse_group s in Some [g]
           end
  | s :: pieces => let* g := parse_group s in
                   let* gs := parse_groups pieces in Some (g :: gs)
  end.

Definition colon_pieces (s : string) : list string :=
  if decide (s = "") then [] else split_by (char_is ":"%char) s.

(** Before and after the first [::]. *)
Fixpoint split_double_colon (s : string) : option (string * string) :=
  match strip_prefix "::" s with
  | Some t => Some ("", t)
  | None => match s with
            | "" => None
            | String a s => match split_double_colon s with
                            | Some (l, r) => Some (String a l, r)
                            | None => None
                            end
            end
  end.

Definition parse_v6 (s : string) : option (list Z) :=
  match split_double_colon s with
  | None => let* l := parse_groups (colon_pieces s) in
            if (length l =? 8)%nat then Some l else None
  | Some (head, tail) =>
      let* h := map_option parse_group (colon_pieces head) in
      let* t := parse_groups (colon_pieces tail) in
      if (length h + length t <=? 7)%nat
      then Some (h ++ repeat 0 (8 - length h - length t) ++ t) else None
  end.

Definition parse_ip (s : string) : option IpAddr :=
  match parse_v4 s with
  | Some l => Some (V4 l)
  | None => V6 <$> parse_v6 s
  end.

Definition is_internal_ipv4 (octets : list Z) : bool :=
  match octets with
  | [a; b; _; _] =>
      (* is_private *)
      (a =? 10) || ((a =? 172) && (16 <=? b) && (b <=? 31)) || ((a =? 192) && (b =? 168)) ||
      (* is_loopback, is_link_local *)
      (a =? 127) || ((a =? 169) && (b =? 254))
  | _ => false
  end.

Definition segment0 (segments : list Z) : Z := default 0 (head segments).

Definition is_unique_local_ipv6 (segments : list Z) : bool :=
  Z.land (segment0 segments) 65024 =? 64512.

Definition is_link_local_ipv6 (segments : list Z) : bool :=
  Z.land (segment0 segments) 65472 =? 65152.

Definition to_ipv4_mapped (segments : list Z) : option (list Z) :=
  match segments with
  | [0; 0; 0; 0; 0; m; x; y] =>
      if m =? 65535 then Some [x / 256; x mod 256; y / 256; y mod 256] else None
  | _ => None
  end.

Definition INTERNAL_HOSTS : list string :=
  ["169.254.169.254"; "metadata.google.internal"; "100.100.100.200"].

Definition is_internal_host (host : string) : bool :=
  let host := trim_end_of ["["; "]"] (trim_start_of ["["; "]"] host) in
  if bool_decide (host ∈ INTERNAL_HOSTS) || bool_decide (host = "localhost") ||
     is_some (strip_suffix ".internal" host) then true
  else match parse_ip host with
       | None => false
       | Some (V4 v4) => is_internal_ipv4 v4
       | Some (V6 v6) =>
           bool_decide (v6 = [0; 0; 0; 0; 0; 0; 0; 1]) || is_unique_local_ipv6 v6 ||
           is_link_local_ipv6 v6 ||
           match to_ipv4_mapped v6 with Some v4 => is_internal_ipv4 v4 | None => false end
       end.

Section urls.
(** The lower-case host of a URL the [url] crate can parse. *)
Variable url_host : string → option string.

Definition targets_internal (url : string) : bool :=
  match url_host url with Some host => is_internal_host host | None => false end.

Definition validate_repository_url (url : string) : result string () :=
  if bool_decide (url = "") then Err "repository_url cannot be empty"
  else if 2048 <? str_len url then Err "repository_url must be at most 2048 characters"
  else if negb (contains "://" url)
  then Err "repository_url must contain a valid URL scheme (e.g. https://)"
  else if targets_internal url
  then Err "repository_url must not target internal or metadata addresses"
  else Ok ().

Definition validate_webhook_url (url : string) : result string () :=
  if bool_decide (url = "") then Err "URL cannot be empty"
  else if 2048 <? str_len url then Err "URL must be at most 2048 characters"
  else match split_scheme url with
       | None => Err "URL must include a scheme"
       | Some (scheme, _) =>
           let scheme := to_ascii_lowercase scheme in
           if negb (bool_decide (scheme ∈ ["http"; "https"]))
           then Err ("URL scheme '" +:+ scheme +:+ "' is not allowed")
           else if targets_internal url
           then Err "URL must not target internal or metadata addresses"
           else Ok ()
       end.

Definition validate_https_webhook_url (url : string) : result string () :=
  let? _ := validate_webhook_url url in
  let scheme := match split_scheme url with Some (s, _) => s | None => url end in
  if bool_decide (to_ascii_lowercase scheme = "https") then Ok ()
  else Err "URL must use https:// for notification delivery".
End urls.

Definition validate_url_scheme (url : string) (allowed_schemes : list string) :
    result string () :=
  let scheme := match split_scheme url with Some (s, _) => s | None => url end in
  if bool_decide (scheme ∈ allowed_schemes) then Ok ()
  else Err ("repository_url scheme '" +:+ scheme +:+ "://' is not allowed. Allowed schemes: " +:+
            str_join ", " ((λ s, s +:+ "://") <$> allowed_schemes)).

(** ** Properties *)

(** Addresses the guard knows, and some it lets through that reach the same machine. *)
Example internal_hosts_known :
  is_internal_host "127.0.0.1" = true ∧ is_internal_host "[::1]" = true ∧
  is_internal_host "10.1.2.3" = true ∧ is_internal_host "::ffff:192.168.0.1" = true ∧
  is_internal_host "fd00::1" = true ∧ is_internal_host "metadata.google.internal" = true ∧
  is_internal_host "8.8.8.8" = false ∧ is_internal_host "2001:db8::1" = false.
Proof. repeat split; vm_compute; reflexivity. Qed.

Example internal_hosts_missed :
  is_internal_host "0.0.0.0" = false ∧ is_internal_host "[::]" = false ∧
  is_internal_host "localhost." = false ∧ is_internal_host "metadata.google.internal." = false ∧
  is_internal_host "::127.0.0.1" = false.
Proof. repeat split; vm_compute; reflexivity. Qed.

Lemma name_re_chars s : name_re s = true → s ≠ "" ∧ str_all name_char s = true.
Proof.
  destruct s as [|c t]; [done|]. simpl. rewrite andb_true_iff. intros [Hc Ht]. split; [done|].
  unfold str_all in *. cbn [str_chars forallb]. rewrite Ht, andb_true_r. unfold name_char.
  by rewrite Hc.
Qed.

Lemma validate_name_chars name field :
  validate_name name field = Ok () → name ≠ "" ∧ str_all name_char name = true ∧ str_len name ≤ 255.
Proof.
  unfold validate_name. case_match eqn:H1; [done|]. case_match eqn:H2; [done|]. intros _.
  apply negb_false_iff, name_re_chars in H2 as [? ?].
  apply orb_false_iff in H1 as [_ Hl%Z.ltb_ge]. done.
Qed.

Lemma split_by_none p s : str_all (λ c, negb (p c)) s = true → split_by p s = [s].
Proof.
  unfold str_all. induction s as [|c s IH]; [done|]. cbn [str_chars forallb split_by].
  rewrite andb_true_iff, negb_true_iff. intros [-> Hs]. by rewrite IH.
Qed.

(** A validated name is one path component: joined to a directory it names a child of
    it, never the directory itself, its parent or a place elsewhere. *)
Theorem validated_name_is_component name field :
  validate_name name field = Ok () → path_components name = [name] ∧ file_name name = Some name.
Proof.
  intros (Hne & Hc & _)%validate_name_chars.
  assert (Hchar : ∀ c, (∀ a, name_char a = true → a ≠ c) → ∀ s, str_all name_char s = true →
    ∀ t u, s ≠ t +:+ String c u).
  { intros c Hcc s Hs t u ->. rewrite str_all_app in Hs. apply andb_true_iff in Hs as [_ Hs].
    unfold str_all in Hs. cbn [str_chars forallb] in Hs. apply andb_true_iff in Hs as [Hx _].
    by apply (Hcc c). }
  assert (Hdot : ∀ a, name_char a = true → a ≠ "."%char) by (by intros a Ha ->).
  assert (Hp : path_components name = [name]).
  { unfold path_components. rewrite split_by_none.
    - simpl. rewrite (bool_decide_false (name = "")) by done.
      rewrite (bool_decide_false (name = ".")); [done|]. intros E.
      apply (Hchar "."%char Hdot name Hc "" ""). by rewrite E.
    - eapply str_all_impl; [|exact Hc]. intros a Ha. unfold char_is.
      rewrite bool_decide_false; [done|]. by intros ->. }
  split; [done|]. unfold file_name. rewrite Hp. simpl. rewrite decide_False; [done|].
  intros E. apply (Hchar "."%char Hdot name Hc "." ""). by rewrite E.
Qed.

Lemma validated_name_is_component_witness :
  path_components "circus-ci_1" = ["circus-ci_1"] ∧ file_name "circus-ci_1" = Some "circus-ci_1".
Proof. apply (validated_name_is_component "circus-ci_1" "name"). reflexivity. Defined.
