(* ===== verification/JobsetConfig.v ===== *)
(** * Jobsets and their inputs

    Creation, update and the upsert of declared jobsets ([common/src/repo/jobsets.rs]), their
    inputs ([repo/jobset_inputs.rs]), and the configuration a repository carries, as the
    evaluator applies it ([evaluator/src/eval_loop.rs], [sync_repo_declarative_config]). *)

From S2P Require Import Prelude Types Float32 Db Builds Evaluations NixJobs FlakeRefs Validate.

(** ** Rows *)

(** [enabled] follows the state if one is given. *)
Definition resolve_enabled (state : option JobsetState.t) (enabled : option bool) : bool :=
  let s := default JobsetState.Enabled state in
  if is_some state then JobsetState.is_evaluable s
  else default (JobsetState.is_evaluable s) enabled.

(** The row the [INSERT] of [create] and [upsert] would make. *)
Definition new_jobset (id : Uuid) (now : DateTime) (i : CreateJobset) : Jobset :=
  {| j_id := id; j_project_id := cj_project_id i; j_name := cj_name i;
     j_nix_expression := cj_nix_expression i;
     j_enabled := resolve_enabled (cj_state i) (cj_enabled i);
     j_flake_mode := default true (cj_flake_mode i);
     j_check_interval := default 60 (cj_check_interval i);
     j_trigger_mode := default JobsetTriggerMode.SourceChange (cj_trigger_mode i);
     j_branch := cj_branch i; j_branch_pattern := cj_branch_pattern i;
     j_tag_pattern := cj_tag_pattern i;
     j_scheduling_shares := default 100 (cj_scheduling_shares i);
     j_created_at := now; j_updated_at := now;
     j_state := default JobsetState.Enabled (cj_state i); j_last_checked_at := None;
     j_keep_nr := default 3 (cj_keep_nr i); j_systems := cj_systems i;
     j_only_build_latest := default false (cj_only_build_latest i);
     j_path_filters := default [] (cj_path_filters i) |}.

(** [ON CONFLICT .. DO UPDATE]: the declared columns of [new], the rest of [old]. *)
Definition redeclared (now : DateTime) (old new : Jobset) : Jobset :=
  {| j_id := j_id old; j_project_id := j_project_id old; j_name := j_name old;
     j_nix_expression := j_nix_expression new; j_enabled := j_enabled new;
     j_flake_mode := j_flake_mode new; j_check_interval := j_check_interval new;
     j_trigger_mode := j_trigger_mode new; j_branch := j_branch new;
     j_branch_pattern := j_branch_pattern new; j_tag_pattern := j_tag_pattern new;
     j_scheduling_shares := j_scheduling_shares new; j_created_at := j_created_at old;
     j_updated_at := now; j_state := j_state new; j_last_checked_at := j_last_checked_at old;
     j_keep_nr := j_keep_nr new; j_systems := j_systems new;
     j_only_build_latest := j_only_build_latest new; j_path_filters := j_path_filters new |}.

(** [UNIQUE (project_id, name)]. *)
Definition named (project : Uuid) (name : string) (j : Jobset) : bool :=
  (j_project_id j =? project) && bool_decide (j_name j = name).

Definition find_named (project : Uuid) (name : string) (w : World) : option Jobset :=
  List.find (named project name) (rows (w_jobsets w)).

Definition validation {A} (r : result string A) : M A :=
  match r with Ok a => mret a | Err e => mfail (Validation e) end.

(** ** [repo/jobsets.rs] *)

Definition create_jobset (id : Uuid) (input : CreateJobset) : M Jobset :=
  validation (validate_create_jobset input) ;;!
  query (λ w,
    match find_named (cj_project_id input) (cj_name input) w,
          w_projects w !! cj_project_id input with
    | Some _, _ => (Err (Conflict ("Jobset '" +:+ cj_name input +:+
                                   "' already exists in this project")), w)
    | None, None => (Err (Database "foreign key violation"), w)
    | None, Some _ =>
        let j := new_jobset id (w_now w) input in
        (Ok j, set_w_jobsets (<[id := j]> (w_jobsets w)) w)
    end).

Definition upsert_jobset (id : Uuid) (input : CreateJobset) : M Jobset :=
  validation (validate_create_jobset input) ;;!
  query (λ w,
    match w_projects w !! cj_project_id input with
    | None => (Err (Database "foreign key violation"), w)
    | Some _ =>
        let new := new_jobset id (w_now w) input in
        let j := match find_named (cj_project_id input) (cj_name input) w with
                 | Some old => redeclared (w_now w) old new
                 | None => new
                 end in
        (Ok j, set_w_jobsets (<[j_id j := j]> (w_jobsets w)) w)
    end).

Record UpdateJobset := {
  uj_name : option string;
  uj_nix_expression : option string;
  uj_enabled : option bool;
  uj_flake_mode : option bool;
  uj_check_interval : option Z;
  uj_trigger_mode : option JobsetTriggerMode.t;
  uj_branch : option string;
  uj_branch_pattern : option string;
  uj_tag_pattern : option string;
  uj_scheduling_shares : option Z;
  uj_state : option JobsetState.t;
  uj_keep_nr : option Z;
  uj_systems : option (list string);
  uj_only_build_latest : option bool;
  uj_path_filters : option (list string);
}.

Definition on_some {A} (f : A → result string ()) (o : option A) : result string () :=
  match o with Some a => f a | None => Ok () end.

(** [impl Validate for UpdateJobset]. *)
Definition validate_update_jobset (j : UpdateJobset) : result string () :=
  let? _ := on_some (λ n, validate_name n "name") (uj_name j) in
  let? _ := on_some validate_nix_expression (uj_nix_expression j) in
  let? _ := on_some validate_check_interval (uj_check_interval j) in
  let? _ := on_some validate_systems (uj_systems j) in
  let? _ := on_some validate_path_filters (uj_path_filters j) in
  match uj_trigger_mode j, uj_only_build_latest j with
  | Some m, Some b => validate_latest_only_policy m b
  | _, _ => Ok ()
  end.

(** [Option::or]. *)
Definition or_else {A} (a b : option A) : option A := match a with Some _ => a | None => b end.

Definition updated_jobset (now : DateTime) (i : UpdateJobset) (j : Jobset) : Jobset :=
  let state := default (j_state j) (uj_state i) in
  {| j_id := j_id j; j_project_id := j_project_id j; j_name := default (j_name j) (uj_name i);
     j_nix_expression := default (j_nix_expression j) (uj_nix_expression i);
     j_enabled := if is_some (uj_state i) then JobsetState.is_evaluable state
                  else default (j_enabled j) (uj_enabled i);
     j_flake_mode := default (j_flake_mode j) (uj_flake_mode i);
     j_check_interval := default (j_check_interval j) (uj_check_interval i);
     j_trigger_mode := default (j_trigger_mode j) (uj_trigger_mode i);
     j_branch := or_else (uj_branch i) (j_branch j);
     j_branch_pattern := or_else (uj_branch_pattern i) (j_branch_pattern j);
     j_tag_pattern := or_else (uj_tag_pattern i) (j_tag_pattern j);
     j_scheduling_shares := default (j_scheduling_shares j) (uj_scheduling_shares i);
     j_created_at := j_created_at j; j_updated_at := now; j_state := state;
     j_last_checked_at := j_last_checked_at j; j_keep_nr := default (j_keep_nr j) (uj_keep_nr i);
     j_systems := match uj_systems i with
                  | None => j_systems j
                  | Some [] => None
                  | Some l => Some l
                  end;
     j_only_build_latest := default (j_only_build_latest j) (uj_only_build_latest i);
     j_path_filters := default (j_path_filters j) (uj_path_filters i) |}.

(** The [UPDATE] writes what the handler has computed from the row it read before. *)
Definition update_jobset (id : Uuid) (input : UpdateJobset) : M Jobset :=
  validation (validate_update_jobset input) ;;!
  let! existing := or_not_found ("Jobset " +:+ pretty id +:+ " not found")
                     (read (λ w, w_jobsets w !! id)) in
  let next := updated_jobset 0 input existing in
  validation (validate_latest_only_policy (j_trigger_mode next) (j_only_build_latest next)) ;;!
  validation (validate_path_filter_policy
                (bool_decide (j_trigger_mode next = JobsetTriggerMode.SourceChange))
                (j_path_filters next)) ;;!
  query (λ w,
    match w_jobsets w !! id with
    | None => (Err (Database "no rows"), w)
    | Some j =>
        if existsb (λ o, named (j_project_id j) (j_name next) o && negb (j_id o =? id))
             (rows (w_jobsets w))
        then (Err (Conflict ("Jobset '" +:+ j_name next +:+
                             "' already exists in this project")), w)
        else let j' := updated_jobset (w_now w) input existing in
             (Ok j', set_w_jobsets (<[id := j']> (w_jobsets w)) w)
    end).

(** ** [repo/jobset_inputs.rs] *)

Record DeclarativeJobsetInput := {
  dji_name : string;
  dji_input_type : InputType.t;
  dji_value : string;
  dji_revision : option string;
}.

Definition new_input (id : Uuid) (now : DateTime) (jobset : Uuid) (d : DeclarativeJobsetInput) :
    JobsetInput :=
  {| ji_id := id; ji_jobset_id := jobset; ji_name := dji_name d;
     ji_input_type := dji_input_type d; ji_value := dji_value d; ji_revision := dji_revision d;
     ji_created_at := now |}.

Definition upsert_input (id jobset : Uuid) (d : DeclarativeJobsetInput) : M JobsetInput :=
  validation (validate_jobset_input (dji_name d) (dji_input_type d) (dji_value d)
                (dji_revision d)) ;;!
  query (λ w,
    match w_jobsets w !! jobset with
    | None => (Err (Database "foreign key violation"), w)
    | Some _ =>
        let i := match w_inputs w !! (jobset, dji_name d) with
                 | Some old => new_input (ji_id old) (ji_created_at old) jobset d
                 | None => new_input id (w_now w) jobset d
                 end in
        (Ok i, set_w_inputs (<[(jobset, dji_name d) := i]> (w_inputs w)) w)
    end).

Definition sync_for_jobset_delete (jobset : Uuid) (names : list string) : M () :=
  query (λ w, (Ok (), set_w_inputs
    (filter (λ kv, ¬ (kv.1.1 = jobset ∧ kv.1.2 ∉ names)) (w_inputs w)) w)).

Section config.
(** The keys the database generates, by name. *)
Variables (new_jobset_id : string → Uuid) (new_input_id : Uuid → string → Uuid).

Fixpoint upsert_inputs (jobset : Uuid) (inputs : list DeclarativeJobsetInput) : M () :=
  match inputs with
  | [] => mret ()
  | d :: inputs => upsert_input (new_input_id jobset (dji_name d)) jobset d ;;!
                   upsert_inputs jobset inputs
  end.

Definition sync_for_jobset (jobset : Uuid) (inputs : list DeclarativeJobsetInput) : M () :=
  sync_for_jobset_delete jobset (dji_name <$> inputs) ;;! upsert_inputs jobset inputs.

(** ** The configuration of a repository *)

Record DeclarativeJobset := {
  dj_name : string;
  dj_nix_expression : string;
  dj_enabled : bool;
  dj_flake_mode : bool;
  dj_check_interval : Z;
  dj_trigger_mode : option string;
  dj_state : option string;
  dj_branch : option string;
  dj_branch_pattern : option string;
  dj_tag_pattern : option string;
  dj_scheduling_shares : Z;
  dj_keep_nr : option Z;
  dj_systems : option (list string);
  dj_only_build_latest : bool;
  dj_path_filters : list string;
  dj_inputs : list DeclarativeJobsetInput;
}.

Definition declared_input (project_id : Uuid) (js : DeclarativeJobset) : CreateJobset :=
  {| cj_project_id := project_id; cj_name := dj_name js;
     cj_nix_expression := dj_nix_expression js; cj_enabled := Some (dj_enabled js);
     cj_flake_mode := Some (dj_flake_mode js); cj_check_interval := Some (dj_check_interval js);
     cj_trigger_mode := JobsetTriggerMode.from_config_str <$> dj_trigger_mode js;
     cj_branch := dj_branch js; cj_branch_pattern := dj_branch_pattern js;
     cj_tag_pattern := dj_tag_pattern js;
     cj_scheduling_shares := Some (dj_scheduling_shares js);
     cj_state := JobsetState.from_config_str <$> dj_state js; cj_keep_nr := dj_keep_nr js;
     cj_systems := dj_systems js; cj_only_build_latest := Some (dj_only_build_latest js);
     cj_path_filters := Some (dj_path_filters js) |}.

(** One declared jobset; errors are logged. *)
Definition sync_declared (project_id : Uuid) (js : DeclarativeJobset) : M () :=
  let! r := mtry (upsert_jobset (new_jobset_id (dj_name js)) (declared_input project_id js)) in
  match r with
  | Ok j =>
      match dj_inputs js with
      | [] => mret ()
      | inputs => let! _ := mtry (sync_for_jobset (j_id j) inputs) in mret ()
      end
  | Err _ => mret ()
  end.

Fixpoint sync_declared_all (project_id : Uuid) (l : list DeclarativeJobset) : M () :=
  match l with
  | [] => mret ()
  | js :: l => sync_declared project_id js ;;! sync_declared_all project_id l
  end.

Definition project_allows_repo_config (project_id : Uuid) : M bool :=
  let! r := mtry (or_not_found ("Project " +:+ pretty project_id +:+ " not found")
                    (read (λ w, w_projects w !! project_id))) in
  mret match r with Ok p => negb (p_managed_declaratively p) | Err _ => false end.

(** [config]: what the checkout declares, if it can be read. *)
Definition sync_repo_declarative_config (config : option (list DeclarativeJobset))
    (project_id : Uuid) : M () :=
  let! allowed := project_allows_repo_config project_id in
  if negb allowed then mret ()
  else match config with
       | None => mret ()
       | Some l => sync_declared_all project_id l
       end.
End config.
