(* ===== verification/Evaluator.v ===== *)
(** * The evaluator ([crates/evaluator/src/eval_loop.rs])

    The cycle: recovery of orphans, pending evaluations, polling of the jobsets that are
    due, discovery of configurations; with [evaluation_state.rs], [path_filter.rs], the
    choice of refs of [git.rs] and the arguments handed to Nix.  Git, Nix and the files of
    a checkout are fields of [Env], indexed by what they are asked; the clock advances
    while Nix runs.  Tasks that the code runs concurrently are run one after the other; the
    interleavings of their statements are the subject of [EvalQueue].  Notifications are
    not modelled. *)

From S2P Require Import Prelude Types Float32 Base32 Codecs Db Builds Evaluations Webhooks NixJobs FlakeRefs EvalBuilds Validate JobsetConfig.

(** ** Refs *)

Inductive RefKind := KBranch | KTag.

Record DiscoveredRef := {
  rf_kind : RefKind;
  rf_name : string;
  rf_commit_hash : string;
  rf_ref_time : Z;
}.

#[global] Instance ref_kind_eq_dec : EqDecision RefKind.
Proof. solve_decision. Defined.

Definition is_kind (k : RefKind) (r : DiscoveredRef) : bool := bool_decide (rf_kind r = k).

(** [Iterator::max_by] of time, then name: the last of equal maxima. *)
Definition tag_order (a b : DiscoveredRef) : comparison :=
  then_with (Z.compare (rf_ref_time a) (rf_ref_time b)) (String.compare (rf_name a) (rf_name b)).

Fixpoint max_tag (l : list DiscoveredRef) (best : option DiscoveredRef) : option DiscoveredRef :=
  match l with
  | [] => best
  | x :: l => max_tag l match best with
                        | None => Some x
                        | Some b => match tag_order b x with Gt => Some b | _ => Some x end
                        end
  end.

Definition retain_newest_tag (refs : list DiscoveredRef) : list DiscoveredRef :=
  List.filter (is_kind KBranch) refs ++
  match max_tag (List.filter (is_kind KTag) refs) None with Some t => [t] | None => [] end.

(** The refs of the repository that match the patterns, branches first, by name. *)
Definition kind_rank (k : RefKind) : Z := match k with KBranch => 0 | KTag => 1 end.

Definition ref_order (a b : DiscoveredRef) : comparison :=
  then_with (Z.compare (kind_rank (rf_kind a)) (kind_rank (rf_kind b)))
    (String.compare (rf_name a) (rf_name b)).

Definition ref_matches (branch_pattern tag_pattern : option string) (r : DiscoveredRef) : bool :=
  match rf_kind r with
  | KBranch => match branch_pattern with
               | Some p => negb (bool_decide (rf_name r = "HEAD")) && glob_matches p (rf_name r)
               | None => false
               end
  | KTag => match tag_pattern with Some p => glob_matches p (rf_name r) | None => false end
  end.

(** [dedup_by]: of neighbours with the same kind and name the first stays. *)
Fixpoint dedup_refs (l : list DiscoveredRef) : list DiscoveredRef :=
  match l with
  | a :: l =>
      match dedup_refs l with
      | b :: rest =>
          if decide (rf_kind a = rf_kind b ∧ rf_name a = rf_name b) then a :: rest
          else a :: b :: rest
      | [] => [a]
      end
  | [] => []
  end.

Definition list_matching_refs (branch_pattern tag_pattern : option string)
    (all : list DiscoveredRef) : list DiscoveredRef :=
  dedup_refs (sort_by ref_order (List.filter (ref_matches branch_pattern tag_pattern) all)).

(** The refs of a remote: names with commit and time. *)
Record RemoteRefs := {
  rr_heads : list (string * (string * Z));
  rr_pulls : list (string * (string * Z));
  rr_merge_requests : list (string * (string * Z));
  rr_tags : list (string * (string * Z));
}.

Definition discovered (kind : RefKind) (prefix : string) (r : string * (string * Z)) :
    DiscoveredRef :=
  {| rf_kind := kind; rf_name := prefix +:+ r.1; rf_commit_hash := r.2.1; rf_ref_time := r.2.2 |}.

(** Where the fetched refspecs put them: change requests are stored among the remote
    branches, below [pr/] and [mr/]. *)
Definition fetched_refs (r : RemoteRefs) : list DiscoveredRef :=
  (discovered KBranch "" <$> rr_heads r) ++
  (discovered KBranch "pr/" <$> rr_pulls r) ++
  (discovered KBranch "mr/" <$> rr_merge_requests r) ++
  (discovered KTag "" <$> rr_tags r).

(** What a poll resolves: a revision of the URL, or a ref. *)
Inductive Target := TRev (rev : string) | TRef (git_ref : string).

Definition source_attribute (query : list (string * string)) (attribute : string) :
    option string :=
  match_str attribute query.

Definition clone_target (query : list (string * string)) (branch : option string)
    (head_shorthand : string) : Target :=
  match source_attribute query "rev" with
  | Some rev => TRev rev
  | None =>
      let branch_name := match branch with
                         | Some b => b
                         | None => default head_shorthand (source_attribute query "ref")
                         end in
      TRef (if starts_with "refs/" branch_name then branch_name
            else "refs/remotes/origin/" +:+ branch_name)
  end.

(** ** Arguments of an evaluation *)

(** [override_inputs] of [evaluate_flake]. *)
Fixpoint override_inputs (inputs : list JobsetInput) :
    result CiError (list (string * string)) :=
  match inputs with
  | [] => Ok []
  | i :: inputs =>
      match ji_input_type i with
      | InputType.Git =>
          match validate_jobset_input (ji_name i) (ji_input_type i) (ji_value i) (ji_revision i) with
          | Err e => Err (NixEval ("Invalid jobset input: " +:+ e))
          | Ok _ => let? rest := override_inputs inputs in Ok ((ji_name i, ji_value i) :: rest)
          end
      | _ => override_inputs inputs
      end
  end.

(** [auto_args] of [evaluate_legacy]. *)
Inductive AutoArg := ArgStr (s : string) | ArgExpr (s : string).

Definition auto_arg (i : JobsetInput) : result CiError (string * AutoArg) :=
  match validate_jobset_input (ji_name i) (ji_input_type i) (ji_value i) (ji_revision i) with
  | Err e => Err (NixEval ("Invalid jobset input: " +:+ e))
  | Ok _ =>
      match ji_input_type i with
      | InputType.String_ | InputType.Git => Ok (ji_name i, ArgStr (ji_value i))
      | InputType.Boolean =>
          if bool_decide (ji_value i = "true") || bool_decide (ji_value i = "false")
          then Ok (ji_name i, ArgExpr (ji_value i))
          else Err (NixEval ("Invalid boolean input '" +:+ ji_name i +:+
                             "': expected true or false"))
      | InputType.Build => Ok (ji_name i, ArgExpr (ji_value i))
      end
  end.

Fixpoint auto_args (inputs : list JobsetInput) : result CiError (list (string * AutoArg)) :=
  match inputs with
  | [] => Ok []
  | i :: inputs => let? a := auto_arg i in let? rest := auto_args inputs in Ok (a :: rest)
  end.

(** ** The environment *)

Record NixRun := {
  nr_result : result CiError EvalResult;
  nr_elapsed : Z;
  nr_derivations : gmap string DerivationInfo;
  nr_invalid : gset string;
}.

Record Env := {
  (** [fetch_and_checkout_commit] *)
  env_checkout : Jobsets.ActiveJobset → string → result CiError ();
  (** [clone_or_fetch]: the commit of the tip *)
  env_tip : Jobsets.ActiveJobset → result CiError string;
  (** the refs of the remote *)
  env_refs : Jobsets.ActiveJobset → result CiError RemoteRefs;
  (** [matching_path_changed] *)
  env_path_changed : string → string → list string → result string bool;
  (** [.circus.toml] of a commit *)
  env_config : Uuid → string → option (list DeclarativeJobset);
  env_nix : Jobsets.ActiveJobset → Evaluation → list JobsetInput → Z → NixRun;
  env_read_drv : string → option string;
  env_features : string → list string;
  (** generated keys *)
  env_eval_id : Uuid → string → Uuid;
  env_build_id : Uuid → nat → Uuid;
  env_jobset_id : string → Uuid;
  env_input_id : Uuid → string → Uuid;
  (** configuration *)
  env_max_eval_time : option Z;
  env_nix_timeout : Z;
  env_git_timeout : Z;
  env_systems : option EvaluatorSystems;
}.

Definition lift {A} (r : result CiError A) : M A :=
  match r with Ok a => mret a | Err e => mfail e end.

(** Time passes. *)
Definition elapse (d : Z) : M () := λ w, (Ok (), set_w_now (w_now w + d) w).
Definition now : M Z := λ w, (Ok (w_now w), w).

(** [count_filtered] for an evaluation. *)
Definition count_builds (eval : Uuid) : M Z :=
  read (λ w, zlen (List.filter (λ b, b_evaluation_id b =? eval) (rows (w_builds w)))).

(** ** Taking up an evaluation ([evaluation_state.rs]) *)

Inductive ExistingEvaluationClaim :=
  | CClaimed (e : Evaluation)
  | CCompleted (build_count : Z)
  | CRunning
  | CCancelled.

Definition claimed_or_running (o : option Evaluation) : ExistingEvaluationClaim :=
  match o with Some e => CClaimed e | None => CRunning end.

Definition claim_existing (existing : Evaluation) : M ExistingEvaluationClaim :=
  match e_status existing with
  | EvaluationStatus.Pending =>
      let! o := Evals.try_claim_pending (e_id existing) in mret (claimed_or_running o)
  | EvaluationStatus.Failed | EvaluationStatus.TimedOut =>
      let! r := Evals.restart (e_id existing) in
      match r with
      | None => mret CRunning
      | Some _ =>
          let! o := Evals.try_claim_pending (e_id existing) in mret (claimed_or_running o)
      end
  | EvaluationStatus.Completed =>
      let! build_count := count_builds (e_id existing) in
      if 0 <? build_count then mret (CCompleted build_count)
      else let! e := Evals.update_status (e_id existing) EvaluationStatus.Running None in
           mret (CClaimed e)
  | EvaluationStatus.Running => mret CRunning
  | EvaluationStatus.Cancelled => mret CCancelled
  end.

Section evaluator.
Context `{Codecs} (env : Env).

(** ** Evaluating a claimed evaluation *)

(** [path_filter::should_evaluate]. *)
Definition should_evaluate (e : Evaluation) (j : Jobsets.ActiveJobset) : bool :=
  match j_path_filters (Jobsets.aj_jobset j) with
  | [] => true
  | filters =>
      match e_source_base_commit e with
      | None => true
      | Some base => match env_path_changed env base (e_commit_hash e) filters with
                     | Ok matches => matches
                     | Err _ => true
                     end
      end
  end.

(** The time left for Nix; a clock that went back counts as no time spent. *)
Definition time_left (t : Z) (e : Evaluation) : Z :=
  match env_max_eval_time env with
  | None => env_nix_timeout env
  | Some limit =>
      Z.min (Z.max (limit - Z.max (t - e_evaluation_time e) 0) 0) (env_nix_timeout env)
  end.

Definition failure_status (t : Z) (e : Evaluation) : EvaluationStatus.t :=
  match env_max_eval_time env with
  | Some limit =>
      if (e_evaluation_time e <=? t) && (limit <=? t - e_evaluation_time e)
      then EvaluationStatus.TimedOut else EvaluationStatus.Failed
  | None => EvaluationStatus.Failed
  end.

Definition run_nix_and_record_builds (j : Jobsets.ActiveJobset) (e : Evaluation)
    (inputs : list JobsetInput) : M () :=
  let! t := now in
  let nix_timeout := time_left t e in
  if is_some (env_max_eval_time env) && (nix_timeout =? 0) then
    let! _ := Evals.finish_running (e_id e) EvaluationStatus.TimedOut
                (Some "Evaluation exceeded max_eval_time") in mret ()
  else
    let run := env_nix env j e inputs nix_timeout in
    elapse (nr_elapsed run) ;;!
    match nr_result run with
    | Ok r =>
        let! instance := resolve_allowed_systems (env_systems env) in
        let allowed := restrict_to_jobset instance (j_systems (Jobsets.aj_jobset j)) in
        let! _ := create_builds_from_eval (env_read_drv env) (env_features env)
                    (env_build_id env (e_id e)) (e_id e) (nr_derivations run) (nr_invalid run)
                    allowed r in
        mret ()
    | Err err =>
        let! t := now in
        let! _ := Evals.finish_running (e_id e) (failure_status t e) (Some (error_text err)) in
        mret ()
    end.

Definition run_path_filtered_evaluation (j : Jobsets.ActiveJobset) (e : Evaluation)
    (inputs : list JobsetInput) : M bool :=
  if should_evaluate e j then
    run_nix_and_record_builds j e inputs ;;! mret true
  else
    let! _ := Evals.finish_running (e_id e) EvaluationStatus.Completed None in mret false.

Definition complete_one_shot (evaluated : bool) (j : Jobsets.ActiveJobset) : M () :=
  if evaluated && bool_decide (j_state (Jobsets.aj_jobset j) = JobsetState.OneShot)
  then let! _ := mtry (Jobsets.mark_one_shot_complete (Jobsets.aj_id j)) in mret ()
  else mret ().

Definition list_inputs (j : Jobsets.ActiveJobset) : M (list JobsetInput) :=
  let! r := mtry (Inputs.list_for_jobset (Jobsets.aj_id j)) in
  mret match r with Ok l => l | Err _ => [] end.

Definition sync_config (j : Jobsets.ActiveJobset) (commit : string) : M () :=
  let project := j_project_id (Jobsets.aj_jobset j) in
  sync_repo_declarative_config (env_jobset_id env) (env_input_id env)
    (env_config env project commit) project.

Definition evaluate_pending_eval (e : Evaluation) (j : Jobsets.ActiveJobset) : M () :=
  let! o := Evals.try_claim_pending (e_id e) in
  match o with
  | None => mret ()
  | Some claimed =>
      lift (env_checkout env j (e_commit_hash claimed)) ;;!
      let! cancelled := Evals.is_cancelled (e_id claimed) in
      if cancelled : bool then mret ()
      else
        let! inputs := list_inputs j in
        let! _ := mtry (Evals.set_inputs_hash (e_id claimed)
                          (compute_inputs_hash (e_commit_hash claimed) inputs)) in
        sync_config j (e_commit_hash claimed) ;;!
        let! evaluated := run_path_filtered_evaluation j claimed inputs in
        complete_one_shot evaluated j
  end.

(** One pending task of the cycle: an error is recorded. *)
Definition pending_task (e : Evaluation) (j : Jobsets.ActiveJobset) : M () :=
  let! r := mtry (evaluate_pending_eval e j) in
  match r with
  | Ok _ => mret ()
  | Err err =>
      let! _ := mtry (Evals.finish_running (e_id e) EvaluationStatus.Failed
                        (Some (error_text err))) in mret ()
  end.

(** ** Polling *)

Definition poll_input (jobset : Uuid) (commit : string) : Evals.CreateEvaluation :=
  push_input jobset commit.

(** [if let Err(e) = update_last_checked(..)]. *)
Definition try_update_last_checked (j : Jobsets.ActiveJobset) : M () :=
  let! _ := mtry (Jobsets.update_last_checked (Jobsets.aj_id j)) in mret ().

Definition is_conflict (e : CiError) : bool :=
  match e with Conflict _ => true | _ => false end.

Definition trigger_is (m : JobsetTriggerMode.t) (j : Jobsets.ActiveJobset) : bool :=
  bool_decide (j_trigger_mode (Jobsets.aj_jobset j) = m).

Definition create_for_poll (j : Jobsets.ActiveJobset) (commit : string) : M Evaluation :=
  let id := env_eval_id env (Jobsets.aj_id j) commit in
  if trigger_is JobsetTriggerMode.Interval j
  then Evals.create_interval id (poll_input (Jobsets.aj_id j) commit)
  else Evals.create_running_source_change id (poll_input (Jobsets.aj_id j) commit)
         ("branch:" +:+ default "HEAD" (j_branch (Jobsets.aj_jobset j))).

Definition create_or_claim_evaluation (j : Jobsets.ActiveJobset) (commit : string) :
    M (option Evaluation) :=
  let! r := mtry (create_for_poll j commit) in
  match r with
  | Ok e => mret (Some e)
  | Err err =>
      if negb (is_conflict err) then mfail err
      else
        let! o := Evals.get_by_jobset_and_commit (Jobsets.aj_id j) commit in
        match o with
        | None => mfail (Internal ("Evaluation conflict but not found: " +:+
                                   pretty (Jobsets.aj_id j) +:+ "/" +:+ commit))
        | Some existing =>
            let! c := claim_existing existing in
            match c with
            | CClaimed e => mret (Some e)
            | CCompleted _ | CRunning => try_update_last_checked j ;;! mret None
            | CCancelled => mret None
            end
        end
  end.

Definition evaluate_single_ref (j : Jobsets.ActiveJobset) : M () :=
  let! commit := lift (env_tip env j) in
  let! inputs := list_inputs j in
  let inputs_hash := compute_inputs_hash commit inputs in
  let! cached :=
    if trigger_is JobsetTriggerMode.SourceChange j
    then mtry (Evals.get_by_inputs_hash (Jobsets.aj_id j) inputs_hash)
    else mret (Ok None) in
  match cached with
  | Ok (Some _) => Jobsets.update_last_checked (Jobsets.aj_id j)
  | _ =>
      let! o := create_or_claim_evaluation j commit in
      match o with
      | None => mret ()
      | Some e =>
          let! _ := mtry (Evals.set_inputs_hash (e_id e) inputs_hash) in
          sync_config j commit ;;!
          let! evaluated := run_path_filtered_evaluation j e inputs in
          try_update_last_checked j ;;!
          complete_one_shot evaluated j
      end
  end.

Definition ref_input (jobset : Uuid) (r : DiscoveredRef) : Evals.CreateEvaluation :=
  {| Evals.ce_jobset_id := jobset; Evals.ce_commit_hash := rf_commit_hash r;
     Evals.ce_pr_number := None;
     Evals.ce_pr_head_branch := match rf_kind r with KBranch => Some (rf_name r) | KTag => None end;
     Evals.ce_pr_base_branch := None;
     Evals.ce_pr_action := match rf_kind r with
                           | KBranch => None
                           | KTag => Some ("tag:" +:+ rf_name r)
                           end |}.

Definition ref_scope (r : DiscoveredRef) : string :=
  match rf_kind r with KBranch => "branch:" +:+ rf_name r | KTag => "tags" end.

Fixpoint evaluate_refs (j : Jobsets.ActiveJobset) (refs : list DiscoveredRef) : M () :=
  match refs with
  | [] => mret ()
  | r :: refs =>
      let! o := mtry (Evals.enqueue_source
                        (env_eval_id env (Jobsets.aj_id j) (rf_commit_hash r))
                        (ref_input (Jobsets.aj_id j) r) (ref_scope r) Evals.Unchecked) in
      match o with
      | Ok e => evaluate_pending_eval e j ;;! evaluate_refs j refs
      | Err err => if is_conflict err then evaluate_refs j refs else mfail err
      end
  end.

Definition evaluate_matching_refs (j : Jobsets.ActiveJobset) : M () :=
  let jb := Jobsets.aj_jobset j in
  let! remote := lift (env_refs env j) in
  let refs := list_matching_refs (j_branch_pattern jb) (j_tag_pattern jb)
                (fetched_refs remote) in
  evaluate_refs j (if j_only_build_latest jb then retain_newest_tag refs else refs) ;;!
  Jobsets.update_last_checked (Jobsets.aj_id j).

Definition evaluate_jobset (j : Jobsets.ActiveJobset) : M () :=
  let! busy := if trigger_is JobsetTriggerMode.Interval j
               then Jobsets.has_unfinished_work (Jobsets.aj_id j) else mret false in
  if busy : bool then Jobsets.update_last_checked (Jobsets.aj_id j)
  else if is_some (j_branch_pattern (Jobsets.aj_jobset j)) ||
          is_some (j_tag_pattern (Jobsets.aj_jobset j))
  then evaluate_matching_refs j
  else evaluate_single_ref j.

(** ** The cycle *)

Definition accepts_pending_evaluation (mode : JobsetTriggerMode.t)
    (kind : EvaluationTriggerKind.t) : bool :=
  JobsetTriggerMode.accepts_source_triggers mode ||
  bool_decide (kind = EvaluationTriggerKind.Interval).

Definition rejected_message : string :=
  "jobset trigger_mode is interval; source/manual pending evaluations are disabled".

Definition active_by_id (active : list Jobsets.ActiveJobset) (id : Uuid) :
    option Jobsets.ActiveJobset :=
  List.find (λ j, Jobsets.aj_id j =? id) active.

(** The loop that sorts out the pending evaluations. *)
Fixpoint classify_pending (active : list Jobsets.ActiveJobset) (pending : list Evaluation) :
    M (list (Evaluation * Jobsets.ActiveJobset)) :=
  match pending with
  | [] => mret []
  | e :: pending =>
      match active_by_id active (e_jobset_id e) with
      | None => classify_pending active pending
      | Some j =>
          if accepts_pending_evaluation (j_trigger_mode (Jobsets.aj_jobset j)) (e_trigger_kind e)
          then let! rest := classify_pending active pending in mret ((e, j) :: rest)
          else
            let! _ := mtry (Evals.update_status (e_id e) EvaluationStatus.Failed
                              (Some rejected_message)) in
            classify_pending active pending
      end
  end.

(** [for_each_concurrent], one task after the other. *)
Fixpoint for_each {A} (f : A → M ()) (l : list A) : M () :=
  match l with
  | [] => mret ()
  | x :: l => f x ;;! for_each f l
  end.

Definition is_due (t : Z) (j : Jobset) : bool :=
  match j_last_checked_at j with
  | None => true
  | Some last => j_check_interval j <=? Z.quot (t - last) (Sql.secs 1)
  end.

Definition ORPHAN_SWEEP_SLACK_SECS : Z := 300.

Definition list_without_jobsets : M (list Project) :=
  read (λ w, List.filter (λ p, negb (existsb (λ j, j_project_id j =? p_id p) (rows (w_jobsets w))))
               (rows (w_projects w))).

(** [clone_or_fetch] of a project without jobsets, and its configuration. *)
Definition discover_projects_without_jobsets
    (discover : Project → result CiError (option (list DeclarativeJobset))) : M () :=
  let! r := mtry list_without_jobsets in
  match r with
  | Err _ => mret ()
  | Ok projects =>
      for_each (λ p, match discover p with
                     | Ok config => sync_repo_declarative_config (env_jobset_id env)
                                      (env_input_id env) config (p_id p)
                     | Err _ => mret ()
                     end) projects
  end.

Definition run_cycle
    (discover : Project → result CiError (option (list DeclarativeJobset))) : M () :=
  let! _ := mtry (Evals.sweep_orphaned
                    ((env_git_timeout env + env_nix_timeout env) / Sql.secs 1 +
                     ORPHAN_SWEEP_SLACK_SECS)) in
  let! active := Jobsets.list_active in
  let! p := mtry Evals.list_pending in
  let! tasks := classify_pending active match p with Ok l => l | Err _ => [] end in
  for_each (λ t, pending_task t.1 t.2) tasks ;;!
  let! t := now in
  let ready := List.filter (λ j,
      negb (existsb (λ t, e_jobset_id t.1 =? Jobsets.aj_id j) tasks) &&
      is_due t (Jobsets.aj_jobset j)) active in
  for_each (λ j, let! _ := mtry (evaluate_jobset j) in mret ()) ready ;;!
  discover_projects_without_jobsets discover.

End evaluator.
