(* ===== verification/EvalCycle.v ===== *)
(** * What the evaluator guarantees, and what it does not

    Properties of the tasks of [Evaluator]: a pending evaluation is always settled; and runs
    that show where polling and the configuration of a repository go wrong. *)

From S2P Require Import Prelude Types Float32 Base32 Codecs Db Frames Builds Builders Evaluations Lifecycle Webhooks EvalQueue NixJobs FlakeRefs EvalBuilds BuildGraph Validate JobsetConfig Evaluator.

#[local] Set Warnings "-clear-no-such-hyp".

(** ** Computations that leave the evaluations alone *)

(** In a world without faults: no fault appears, and the evaluations stay. *)
Definition undisturbed (w w' : World) : Prop :=
  w_faults w = [] → w_faults w' = [] ∧ w_evaluations w' = w_evaluations w.

#[export] Instance undisturbed_preorder : PreOrder undisturbed.
Proof.
  split; [by intros w|]. intros w1 w2 w3 H1 H2 Hf. destruct (H1 Hf) as [Hf2 E1].
  destruct (H2 Hf2) as [? E2]. split; [done|congruence].
Qed.

Definition keeps {A} (m : M A) : Prop := leads undisturbed m.

(** No fault appears. *)
Definition quiet {A} (m : M A) : Prop := ∀ w, w_faults w = [] → w_faults (m w).2 = [].

Create HintDb keeps.

Lemma keeps_ret {A} (a : A) : keeps (mret a).
Proof. done. Qed.
Lemma keeps_fail {A} e : keeps (A := A) (mfail e).
Proof. done. Qed.
Lemma keeps_bind {A B} (m : M A) (k : A → M B) :
  keeps m → (∀ a, keeps (k a)) → keeps (mbind m k).
Proof. apply leads_mbind, _. Qed.
Lemma keeps_try {A} (m : M A) : keeps m → keeps (mtry m).
Proof. apply leads_mtry. Qed.
Lemma keeps_query {A} (f : World → result CiError A * World) :
  (∀ w, w_faults (f w).2 = w_faults w ∧ w_evaluations (f w).2 = w_evaluations w) →
  keeps (query f).
Proof. intros Hf w Hw. rewrite query_no_fault by done. destruct (Hf w) as [-> ->]. done. Qed.
Lemma keeps_read {A} (f : World → A) : keeps (read f).
Proof. by apply keeps_query. Qed.
Lemma keeps_or_not_found {A} msg (m : M (option A)) : keeps m → keeps (or_not_found msg m).
Proof. apply leads_or_not_found, _. Qed.
Lemma keeps_validation {A} (r : result string A) : keeps (validation r).
Proof. by destruct r. Qed.
#[export] Hint Resolve keeps_ret keeps_fail keeps_bind keeps_try keeps_read keeps_or_not_found
  keeps_validation : keeps.

Lemma quiet_ret {A} (a : A) : quiet (mret a).
Proof. by intros w. Qed.
Lemma quiet_fail {A} e : quiet (A := A) (mfail e).
Proof. by intros w. Qed.
Lemma quiet_bind {A B} (m : M A) (k : A → M B) :
  quiet m → (∀ a, quiet (k a)) → quiet (mbind m k).
Proof.
  intros Hm Hk w Hw. unfold mbind. specialize (Hm w Hw).
  destruct (m w) as [[a|e] w1]; simpl in *; [|done]. by apply Hk.
Qed.
Lemma quiet_query {A} (f : World → result CiError A * World) :
  (∀ w, w_faults (f w).2 = w_faults w) → quiet (query f).
Proof. intros Hf w Hw. rewrite query_no_fault by done. by rewrite Hf. Qed.
Lemma quiet_transaction {A} (m : M A) : quiet m → quiet (transaction m).
Proof.
  intros Hm w Hw. specialize (Hm w Hw). unfold transaction.
  by destruct (m w) as [[a|e] w1]; simpl in *.
Qed.

Lemma quiet_create_builds rd rf new_id id drvs invalid allowed r :
  quiet (create_builds_from_eval rd rf new_id id drvs invalid allowed r).
Proof.
  unfold create_builds_from_eval. destruct (selected_jobs _ _ _ _) as [jobs|]; [|apply quiet_fail].
  generalize (create_build rd rf id drvs <$> jobs). intros inputs. unfold persist.
  apply quiet_transaction, quiet_bind; [by apply quiet_query|]. intros locked.
  destruct locked; [|apply quiet_ret]. simpl. apply quiet_bind.
  { generalize {| in_drv_to_build := ∅; in_name_to_build := ∅; in_build_ids := [] |}.
    induction inputs as [|i inputs IH]; intros acc; [apply quiet_ret|]. simpl.
    apply quiet_bind; [|done]. unfold builds.create. apply quiet_bind.
    - apply quiet_query. intros w. by case_match.
    - intros [b|]; [apply quiet_ret|apply quiet_fail]. }
  intros acc. apply quiet_bind.
  { generalize (resolve_dependency_pairs (in_drv_to_build acc) (in_name_to_build acc) jobs
      (in_build_ids acc)). intros l.
    induction l as [|p l IH]; [apply quiet_ret|]. simpl. apply quiet_bind; [|done].
    apply quiet_query. intros w. simpl. by case_match. }
  intros _. apply quiet_bind.
  { apply quiet_query. intros w. repeat case_match; done. }
  intros [e|]; [|apply quiet_fail].
  apply quiet_bind; [by apply quiet_query|intros _; apply quiet_ret].
Qed.

(** The configuration of a repository. *)
Lemma keeps_upsert_jobset id input : keeps (upsert_jobset id input).
Proof.
  apply keeps_bind; [apply keeps_validation|]. intros _. apply keeps_query. intros w. by case_match.
Qed.

Lemma keeps_sync_for_jobset f jobset inputs : keeps (sync_for_jobset f jobset inputs).
Proof.
  apply keeps_bind; [by apply keeps_query|]. intros _.
  induction inputs as [|d inputs IH]; [apply keeps_ret|]. simpl. apply keeps_bind; [|done].
  apply keeps_bind; [apply keeps_validation|]. intros _. apply keeps_query. intros w. by case_match.
Qed.

Lemma keeps_sync_config jid iid config project :
  keeps (sync_repo_declarative_config jid iid config project).
Proof.
  apply keeps_bind; [by unfold project_allows_repo_config; eauto with keeps|].
  intros [|]; [|apply keeps_ret]. simpl. destruct config as [l|]; [|apply keeps_ret].
  induction l as [|js l IH]; [apply keeps_ret|]. simpl. apply keeps_bind; [|done].
  apply keeps_bind; [apply keeps_try, keeps_upsert_jobset|]. intros [j|]; [|apply keeps_ret].
  destruct (dj_inputs js); [apply keeps_ret|].
  apply keeps_bind; [apply keeps_try, keeps_sync_for_jobset|]. intros _. apply keeps_ret.
Qed.

Lemma keeps_resolve_systems s : keeps (resolve_allowed_systems s).
Proof. destruct s as [[l|k]|]; unfold resolve_allowed_systems; auto with keeps. Qed.

(** ** A pending evaluation is settled *)

(** The row of [id] is filed under its key and has one of the statuses. *)
Definition has_row (id : Uuid) (P : EvaluationStatus.t → Prop) (w : World) : Prop :=
  w_faults w = [] ∧ ∃ e, w_evaluations w !! id = Some e ∧ e_id e = id ∧ P (e_status e).

Definition running (id : Uuid) : World → Prop := has_row id (λ s, s = EvaluationStatus.Running).

Definition is_settled (s : EvaluationStatus.t) : Prop :=
  s = EvaluationStatus.Completed ∨ s = EvaluationStatus.Failed ∨ s = EvaluationStatus.TimedOut.

Definition settled (id : Uuid) : World → Prop := has_row id is_settled.

Lemma has_row_keeps {A} (m : M A) id P w : keeps m → has_row id P w → has_row id P (m w).2.
Proof. intros Hm [Hf (e & He & Hp)]. destruct (Hm w Hf) as [H1 H2]. split; [done|]. rewrite H2. eauto. Qed.

(** What a computation that starts with the row running leaves behind: it is settled, or
    still running and an error is reported. *)
Definition settles {A} (id : Uuid) (m : M A) : Prop :=
  ∀ w, running id w →
    settled id (m w).2 ∨ (is_ok (m w).1 = false ∧ running id (m w).2).

Lemma settles_after {A B} id (m : M A) (k : A → M B) :
  keeps m → (∀ a, settles id (k a)) → settles id (mbind m k).
Proof.
  intros Hm Hk w Hr. pose proof (has_row_keeps m id _ w Hm Hr) as Hr1. unfold mbind.
  destruct (m w) as [[a|e] w1]; [by apply Hk|by right].
Qed.

Lemma settles_then {A B} id (m : M A) (k : A → M B) :
  settles id m → (∀ a w, settled id w → settled id (k a w).2) →
  settles id (mbind m k).
Proof.
  intros Hm Hk w Hr. unfold mbind. destruct (Hm w Hr) as [Hs|[He Hs]].
  - destruct (m w) as [[a|e] w1]; simpl in *; [|by left]. left. by apply Hk.
  - by destruct (m w) as [[a|e] w1]; simpl in *; [|right].
Qed.

Lemma eval_update_no_fault id guard f w :
  w_faults w = [] →
  Evals.update id guard f w =
  match w_evaluations w !! id with
  | Some e => if guard w e
              then (Ok (Some (f w e)), set_w_evaluations (<[id := f w e]> (w_evaluations w)) w)
              else (Ok None, w)
  | None => (Ok None, w)
  end.
Proof. intros Hf. unfold Evals.update. by rewrite query_no_fault. Qed.

Lemma finish_settles id s msg : is_settled s → settles id (Evals.finish_running id s msg).
Proof.
  intros Hs w [Hf (e & He & Hi & Hr)]. left. unfold Evals.finish_running.
  rewrite eval_update_no_fault, He by done. unfold Evals.has_status. rewrite bool_decide_true by done.
  simpl. split; [done|]. simpl. rewrite lookup_insert_eq. eauto.
Qed.

Lemma finish_keeps_settled id s msg w :
  settled id w → settled id (Evals.finish_running id s msg w).2.
Proof.
  intros Hw. pose proof Hw as [Hf (e & He & Hi & Hs)]. unfold Evals.finish_running.
  rewrite eval_update_no_fault, He by done. unfold Evals.has_status.
  rewrite bool_decide_false; [done|]. by destruct Hs as [->|[->| ->]].
Qed.

Section tasks.
Context `{Codecs} (env : Env).

Lemma failure_status_settled t e : is_settled (failure_status env t e).
Proof. unfold failure_status, is_settled. repeat case_match; auto. Qed.

Lemma create_builds_settles rd rf new_id id drvs invalid allowed r :
  settles id (create_builds_from_eval rd rf new_id id drvs invalid allowed r).
Proof.
  intros w [Hf (e & He & Hi & Hr)].
  pose proof (quiet_create_builds rd rf new_id id drvs invalid allowed r w Hf) as Hq.
  unfold create_builds_from_eval in *.
  destruct (selected_jobs _ _ _ _) as [jobs|]; cycle 1.
  { right. split; [done|]. by split; [|eauto]. }
  destruct (persist _ _ _ _ w) as [[[|]|err] w'] eqn:E; simpl in *.
  - left. apply persist_ok in E as (e' & fs & He' & _ & ->). split; [done|]. simpl.
    rewrite lookup_insert_eq. assert (e' = e) as -> by congruence.
    eexists. split; [done|]. split; [done|]. by left.
  - apply persist_false in E as [Hn _]. by apply Hn in He.
  - right. split; [done|]. apply persist_err in E as [fs ->]. split; [done|]. simpl. eauto.
Qed.

Lemma keeps_now : keeps now.
Proof. by intros w. Qed.
Lemma keeps_elapse d : keeps (elapse d).
Proof. by intros w. Qed.

Lemma run_nix_settles j e inputs : settles (e_id e) (run_nix_and_record_builds env j e inputs).
Proof.
  unfold run_nix_and_record_builds. apply settles_after; [apply keeps_now|]. intros t.
  destruct (_ && _).
  { apply settles_then; [|done]. apply finish_settles. by right; right. }
  apply settles_after; [apply keeps_elapse|]. intros _.
  destruct (nr_result _) as [r|err].
  - apply settles_after; [apply keeps_resolve_systems|]. intros instance.
    apply settles_then; [apply create_builds_settles|done].
  - apply settles_after; [apply keeps_now|]. intros t'.
    apply settles_then; [|done]. apply finish_settles, failure_status_settled.
Qed.

Lemma run_path_filtered_settles j e inputs :
  settles (e_id e) (run_path_filtered_evaluation env j e inputs).
Proof.
  unfold run_path_filtered_evaluation. destruct (should_evaluate env e j).
  - apply settles_then; [apply run_nix_settles|done].
  - apply settles_then; [|done]. apply finish_settles. by left.
Qed.

Lemma set_inputs_hash_row id hash P w : has_row id P w → has_row id P (Evals.set_inputs_hash id hash w).2.
Proof.
  intros [Hf (e & He & Hi & Hp)]. unfold Evals.set_inputs_hash, mbind.
  rewrite eval_update_no_fault, He by done. simpl. split; [done|]. simpl. rewrite lookup_insert_eq.
  eauto.
Qed.

Lemma complete_one_shot_keeps b j : keeps (complete_one_shot b j).
Proof.
  unfold complete_one_shot. destruct (_ && _); [|apply keeps_ret].
  apply keeps_bind; [|intros; apply keeps_ret]. apply keeps_try. by apply keeps_query.
Qed.

(** After the claim. *)
Lemma claimed_settles (claimed : Evaluation) j :
  settles (e_id claimed)
    (lift (env_checkout env j (e_commit_hash claimed)) ;;!
     let! cancelled := Evals.is_cancelled (e_id claimed) in
     if cancelled : bool then mret ()
     else
       let! inputs := list_inputs j in
       let! _ := mtry (Evals.set_inputs_hash (e_id claimed)
                         (compute_inputs_hash (e_commit_hash claimed) inputs)) in
       sync_config env j (e_commit_hash claimed) ;;!
       let! evaluated := run_path_filtered_evaluation env j claimed inputs in
       complete_one_shot evaluated j).
Proof.
  apply settles_after.
  { destruct (env_checkout _ _ _); [apply keeps_ret|apply keeps_fail]. }
  intros _ w Hr. assert (Hc : Evals.is_cancelled (e_id claimed) w = (Ok false, w)).
  { destruct Hr as [Hf (e & He & _ & Hs)]. unfold Evals.is_cancelled.
    rewrite read_no_fault, He by done. unfold Evals.has_status. by rewrite Hs. }
  rewrite (mbind_ok _ _ _ _ _ Hc). revert w Hr Hc. intros w Hr _. revert w Hr.
  change (settles (e_id claimed)
    (let! inputs := list_inputs j in
     let! _ := mtry (Evals.set_inputs_hash (e_id claimed)
                       (compute_inputs_hash (e_commit_hash claimed) inputs)) in
     sync_config env j (e_commit_hash claimed) ;;!
     let! evaluated := run_path_filtered_evaluation env j claimed inputs in
     complete_one_shot evaluated j)).
  apply settles_after; [unfold list_inputs, Inputs.list_for_jobset; auto with keeps|].
  intros inputs w Hr.
  set (hash := compute_inputs_hash _ _).
  pose proof (set_inputs_hash_row (e_id claimed) hash _ w Hr) as Hr1.
  destruct (Evals.set_inputs_hash (e_id claimed) hash w) as [r w1] eqn:Es. simpl in Hr1.
  rewrite (mbind_ok _ _ _ _ _ (mtry_ok _ _ _ _ Es)).
  refine (settles_after _ (sync_config env j (e_commit_hash claimed))
    (λ _, let! evaluated := run_path_filtered_evaluation env j claimed inputs in
          complete_one_shot evaluated j) _ _ w1 Hr1); [apply keeps_sync_config|]. intros _.
  apply settles_then; [apply run_path_filtered_settles|].
  intros evaluated w2 Hs. by apply has_row_keeps; [apply complete_one_shot_keeps|].
Qed.

(** C7. No pending evaluation is forgotten: whatever Git, Nix, the configuration of the
    checkout and the paths of the change answer, the task of the cycle for a pending
    evaluation ends, and the evaluation is then completed, failed or timed out. *)
Theorem pending_task_settles e j w :
  w_faults w = [] → w_evaluations w !! e_id e = Some e → e_status e = EvaluationStatus.Pending →
  ∃ e', w_evaluations (pending_task env e j w).2 !! e_id e = Some e' ∧
    is_settled (e_status e') ∧ (pending_task env e j w).1 = Ok ().
Proof.
  intros Hf He Hp. set (claimed := Evals.claimed (w_now w) e).
  set (w1 := set_w_evaluations (<[e_id e := claimed]> (w_evaluations w)) w).
  assert (Hc : Evals.try_claim_pending (e_id e) w = (Ok (Some claimed), w1)).
  { unfold Evals.try_claim_pending. rewrite eval_update_no_fault, He by done.
    unfold Evals.has_status. by rewrite bool_decide_true. }
  assert (Hr : running (e_id e) w1).
  { split; [done|]. simpl. rewrite lookup_insert_eq. by exists claimed. }
  pose proof (claimed_settles claimed j w1 Hr) as Hs.
  assert (Hev : settled (e_id e) (evaluate_pending_eval env e j w).2 ∨
    (is_ok (evaluate_pending_eval env e j w).1 = false ∧
     running (e_id e) (evaluate_pending_eval env e j w).2)).
  { unfold evaluate_pending_eval. by rewrite (mbind_ok _ _ _ _ _ Hc). }
  clear Hs. unfold pending_task.
  destruct (evaluate_pending_eval env e j w) as [[[]|err] w2] eqn:Ee; simpl in Hev;
    rewrite (mbind_ok _ _ _ _ _ (mtry_ok _ _ _ _ Ee)).
  - destruct Hev as [[_ (e' & ? & _ & ?)]|[? _]]; [|done]. by exists e'.
  - rename Hev into Hs. unfold mbind, mtry.
    assert (H2 : settled (e_id e)
      (Evals.finish_running (e_id e) EvaluationStatus.Failed (Some (error_text err)) w2).2).
    { destruct Hs as [Hs|[_ Hs]]; [by apply finish_keeps_settled|].
      destruct (finish_settles (e_id e) EvaluationStatus.Failed (Some (error_text err))
        ltac:(by right; left) w2 Hs) as [?|[Hok _]]; [done|].
      destruct Hs as [Hf2 (e2 & He2 & _ & Hs2)]. unfold Evals.finish_running in Hok.
      rewrite eval_update_no_fault, He2 in Hok by done. unfold Evals.has_status in Hok.
      by rewrite bool_decide_true in Hok. }
    destruct (Evals.finish_running _ _ _ w2) as [r w3].
    destruct H2 as [_ (e' & ? & _ & ?)]. by exists e'.
Qed.
End tasks.

(** ** Polling *)

Section polling.
Context `{Codecs} (env : Env).

(** The evaluation has builds. *)
Definition has_builds (w : World) (e : Evaluation) : Prop :=
  ∃ k b, w_builds w !! k = Some b ∧ b_evaluation_id b = e_id e.

Lemma count_builds_pos w e :
  w_faults w = [] → has_builds w e → ∃ n, count_builds (e_id e) w = (Ok n, w) ∧ 0 < n.
Proof.
  intros Hf (k & b & Hb & Hi). unfold count_builds. rewrite read_no_fault by done.
  eexists. split; [done|]. unfold zlen.
  assert (Hin : b ∈ List.filter (λ b, b_evaluation_id b =? e_id e) (rows (w_builds w))).
  { rewrite list_elem_of_In, filter_In, <-list_elem_of_In, elem_of_rows, Z.eqb_eq. eauto. }
  destruct (List.filter _ _); [by apply elem_of_nil in Hin|]. simpl. lia.
Qed.

Lemma get_by_commit_some w jobset commit :
  w_faults w = [] → Evals.duplicate w jobset commit = true →
  ∃ e i, Evals.get_by_jobset_and_commit jobset commit w = (Ok (Some e), w) ∧
    w_evaluations w !! i = Some e ∧ e_jobset_id e = jobset ∧ e_commit_hash e = commit.
Proof.
  intros Hf (i & e & He & Hj & Hc & _)%duplicate_spec.
  unfold Evals.get_by_jobset_and_commit. rewrite read_no_fault by done.
  set (l := List.filter _ _).
  assert (Hl : ∀ x, x ∈ sort_by Evals.source_first l → ∃ k, w_evaluations w !! k = Some x ∧
    e_jobset_id x = jobset ∧ e_commit_hash x = commit).
  { intros x. rewrite sort_by_perm. unfold l.
    rewrite list_elem_of_In, filter_In, <-list_elem_of_In, elem_of_rows.
    unfold Evals.same_source. rewrite andb_true_iff, Z.eqb_eq, bool_decide_eq_true. naive_solver. }
  assert (Hin : e ∈ sort_by Evals.source_first l).
  { rewrite sort_by_perm. unfold l. rewrite list_elem_of_In, filter_In, <-list_elem_of_In, elem_of_rows.
    unfold Evals.same_source. rewrite andb_true_iff, Z.eqb_eq, bool_decide_eq_true. eauto. }
  destruct (sort_by Evals.source_first l) as [|x rest] eqn:E; [by apply elem_of_nil in Hin|].
  destruct (Hl x) as (k & ? & ? & ?); [left|]. by exists x, k.
Qed.

(** The evaluations and builds of a world without faults stay as they are. *)
Definition frozen {A} (m : M A) (w : World) (r : result CiError A) : Prop :=
  (m w).1 = r ∧ w_evaluations (m w).2 = w_evaluations w ∧ w_builds (m w).2 = w_builds w.

Lemma update_last_checked_frozen id w : w_faults w = [] → frozen (Jobsets.update_last_checked id) w (Ok ()).
Proof.
  intros Hf. unfold frozen, Jobsets.update_last_checked. by rewrite query_no_fault.
Qed.

Lemma create_for_poll_conflict j commit jb w :
  w_faults w = [] → w_jobsets w !! Jobsets.aj_id j = Some jb →
  trigger_is JobsetTriggerMode.Interval j = false →
  Evals.duplicate w (Jobsets.aj_id j) commit = true →
  ∃ msg, create_for_poll env j commit w = (Err (Conflict msg), w).
Proof.
  intros Hf Hj Ht Hd. unfold create_for_poll. rewrite Ht. eexists.
  unfold Evals.create_running_source_change.
  rewrite (create_automated_no_fault _ _ _ _ _ _ jb) by done. simpl.
  by rewrite andb_false_r, Hd.
Qed.

(** A change of the inputs alone never reaches Nix.  Once the tip of a jobset that
    follows its source has a completed evaluation with builds, polling it changes no
    evaluation and no build, whatever the inputs of the jobset have become. *)
Theorem changed_inputs_ignored j jb commit w :
  w_faults w = [] → w_jobsets w !! Jobsets.aj_id j = Some jb →
  trigger_is JobsetTriggerMode.Interval j = false →
  env_tip env j = Ok commit → Evals.duplicate w (Jobsets.aj_id j) commit = true →
  (∀ i e, w_evaluations w !! i = Some e → e_jobset_id e = Jobsets.aj_id j →
     e_commit_hash e = commit → e_status e = EvaluationStatus.Completed ∧ has_builds w e) →
  frozen (evaluate_single_ref env j) w (Ok ()).
Proof.
  intros Hf Hj Ht Htip Hd Hall. unfold frozen, evaluate_single_ref.
  rewrite Htip. unfold lift. rewrite (mbind_ok (mret commit) _ commit w w eq_refl).
  unfold list_inputs, Inputs.list_for_jobset.
  match goal with |- context [mbind (mbind (mtry (read ?f)) ?k)] =>
    assert (Hin : mbind (mtry (read f)) k w = (Ok (f w), w)) by
      (rewrite (mbind_ok _ _ _ _ _ (mtry_ok _ _ _ _ (read_no_fault _ _ Hf))); done) end.
  rewrite (mbind_ok _ _ _ _ _ Hin). clear Hin.
  set (hash := compute_inputs_hash _ _).
  assert (Hcached : ∃ o, (if trigger_is JobsetTriggerMode.SourceChange j
    then mtry (Evals.get_by_inputs_hash (Jobsets.aj_id j) hash) else mret (Ok None)) w = (Ok (Ok o), w)).
  { case_match; [|by eexists]. unfold Evals.get_by_inputs_hash.
    rewrite (mtry_ok _ _ _ _ (read_no_fault _ _ Hf)). by eexists. }
  destruct Hcached as [o Ho]. rewrite (mbind_ok _ _ _ _ _ Ho).
  destruct o as [cached|]; [by apply update_last_checked_frozen|].
  destruct (create_for_poll_conflict j commit jb w) as [msg Hc]; [done..|].
  destruct (get_by_commit_some w (Jobsets.aj_id j) commit) as (e & i & Hg & He & Hej & Hec); [done..|].
  destruct (Hall i e He Hej Hec) as [Hs Hb]. destruct (count_builds_pos w e Hf Hb) as (n & Hn & Hpos).
  destruct (update_last_checked_frozen (Jobsets.aj_id j) w Hf) as (Hu1 & Hu2 & Hu3).
  assert (Hcc : ∃ w', create_or_claim_evaluation env j commit w = (Ok None, w') ∧
    w_evaluations w' = w_evaluations w ∧ w_builds w' = w_builds w).
  { unfold create_or_claim_evaluation.
    rewrite (mbind_ok _ _ _ _ _ (mtry_ok _ _ _ _ Hc)). simpl.
    rewrite (mbind_ok _ _ _ _ _ Hg). unfold claim_existing. rewrite Hs.
    rewrite (mbind_ok _ _ (CCompleted n) w w).
    - unfold try_update_last_checked, mbind, mtry.
      destruct (Jobsets.update_last_checked (Jobsets.aj_id j) w) as [r w'] eqn:E. simpl in *.
      exists w'. done.
    - rewrite (mbind_ok _ _ _ _ _ Hn). by rewrite (proj2 (Z.ltb_lt 0 n) Hpos). }
  destruct Hcc as (w' & Hcc & H1 & H2). by rewrite (mbind_ok _ _ _ _ _ Hcc).
Qed.

(** Taking up a completed evaluation without builds again ignores the latest-only
    policy: if another evaluation of the same source is open, both are open afterwards. *)
Theorem reclaim_opens_second jobset scope e1 e2 w :
  w_faults w = [] → e_id e1 ≠ e_id e2 →
  w_evaluations w !! e_id e1 = Some e1 → w_evaluations w !! e_id e2 = Some e2 →
  e_status e1 = EvaluationStatus.Completed → ¬ has_builds w e1 →
  e_jobset_id e1 = jobset → e_trigger_kind e1 = EvaluationTriggerKind.SourceChange →
  e_source_scope e1 = Some scope → open_source jobset scope e2 →
  ∃ e1' w', claim_existing e1 w = (Ok (CClaimed e1'), w') ∧
    w_evaluations w' !! e_id e1 = Some e1' ∧ open_source jobset scope e1' ∧
    w_evaluations w' !! e_id e2 = Some e2.
Proof.
  intros Hf Hne H1 H2 Hs Hnb Hj Hk Hsc Ho. unfold claim_existing. rewrite Hs.
  assert (Hn : count_builds (e_id e1) w = (Ok 0, w)).
  { unfold count_builds. rewrite read_no_fault by done. do 2 f_equal. unfold zlen.
    destruct (List.filter _ _) as [|b l] eqn:E; [done|]. exfalso. apply Hnb.
    assert (Hin : b ∈ List.filter (λ b, b_evaluation_id b =? e_id e1) (rows (w_builds w)))
      by (rewrite E; left).
    rewrite list_elem_of_In, filter_In, <-list_elem_of_In, elem_of_rows, Z.eqb_eq in Hin.
    destruct Hin as [[k Hk'] Hb]. by exists k, b. }
  rewrite (mbind_ok _ _ _ _ _ Hn). simpl.
  unfold Evals.update_status, or_not_found, mbind. rewrite eval_update_no_fault, H1 by done. simpl.
  eexists _, _. split; [done|]. simpl. rewrite lookup_insert_eq. split; [done|].
  split; [|by rewrite lookup_insert_ne]. by split_and!.
Qed.
End polling.

(** ** Refs *)

Lemma dedup_refs_keeps l x :
  x ∈ l → ∃ y, y ∈ dedup_refs l ∧ rf_kind y = rf_kind x ∧ rf_name y = rf_name x.
Proof.
  induction l as [|a l IH]; [by intros ?%elem_of_nil|]. simpl. intros [->|Hx]%elem_of_cons.
  - exists a. split; [|done]. destruct (dedup_refs l); [left|]. case_decide; left.
  - destruct (IH Hx) as (y & Hy & Hk & Hn). destruct (dedup_refs l) as [|b rest]; [by apply elem_of_nil in Hy|].
    case_decide as E; [|exists y; split; [by right|done]].
    apply elem_of_cons in Hy as [->|Hy].
    + exists a. split; [left|]. destruct E. split; congruence.
    + exists y. split; [by right|done].
Qed.

Lemma glob_star_all v : glob_matches "*" v = true.
Proof.
  unfold glob_matches. apply (glob_star_iff []).
  { intros l. destruct l; simpl; split; try done; [constructor|inversion 1]. }
  rewrite <-(app_nil_r (str_chars v)). constructor. constructor.
Qed.

(** A branch pattern sees change requests: with the pattern [*] every pull request of
    the remote, from a fork or not, is among the branches to evaluate. *)
Theorem branch_pattern_sees_pull_requests remote tag_pattern number commit time :
  (number, (commit, time)) ∈ rr_pulls remote →
  ∃ r, r ∈ list_matching_refs (Some "*") tag_pattern (fetched_refs remote) ∧
    rf_kind r = KBranch ∧ rf_name r = "pr/" +:+ number.
Proof.
  intros Hin. unfold list_matching_refs.
  set (x := discovered KBranch "pr/" (number, (commit, time))).
  destruct (dedup_refs_keeps (sort_by ref_order (List.filter (ref_matches (Some "*") tag_pattern)
    (fetched_refs remote))) x) as (y & Hy & Hk & Hn).
  - rewrite sort_by_perm, list_elem_of_In, filter_In, <-list_elem_of_In. split.
    + unfold fetched_refs. rewrite !elem_of_app. right. left. by apply list_elem_of_fmap_2.
    + unfold ref_matches, x, discovered. cbn [rf_kind rf_name].
      rewrite bool_decide_false by done. apply glob_star_all.
  - exists y. by rewrite Hk, Hn.
Qed.

(** ** Inputs *)

Definition drop_revision (i : JobsetInput) : JobsetInput :=
  {| ji_id := ji_id i; ji_jobset_id := ji_jobset_id i; ji_name := ji_name i;
     ji_input_type := ji_input_type i; ji_value := ji_value i; ji_revision := None;
     ji_created_at := ji_created_at i |}.

Lemma validate_input_drop i :
  validate_jobset_input (ji_name i) (ji_input_type i) (ji_value i) (ji_revision i) = Ok () →
  validate_jobset_input (ji_name i) (ji_input_type i) (ji_value i) None = Ok ().
Proof.
  unfold validate_jobset_input. destruct (validate_name _ _); [|done]. simpl.
  repeat (case_match; [done|]). destruct (ji_revision i) as [r|]; [|done].
  simpl. by destruct (validate_commit_hash r).
Qed.

(** The revision of a Git input is never used: a flake is evaluated with the same
    overrides as if no input had a revision. *)
Theorem input_revision_ignored inputs l :
  override_inputs inputs = Ok l → override_inputs (drop_revision <$> inputs) = Ok l.
Proof.
  revert l. induction inputs as [|i inputs IH]; intros l; [done|]. rewrite fmap_cons. simpl.
  destruct (ji_input_type i) eqn:Ht; try apply IH.
  destruct (validate_jobset_input (ji_name i) InputType.Git (ji_value i) (ji_revision i))
    as [[]|] eqn:Hv; [|done].
  rewrite <-Ht in Hv. apply validate_input_drop in Hv. rewrite Ht in Hv. rewrite Hv.
  destruct (override_inputs inputs) as [rest|]; [|done]. simpl. intros [= <-].
  by rewrite (IH rest eq_refl).
Qed.

Lemma input_revision_ignored_witness :
  let i := {| ji_id := 1; ji_jobset_id := 1; ji_name := "nixpkgs"; ji_input_type := InputType.Git;
              ji_value := "github:NixOS/nixpkgs"; ji_revision := Some "abc123";
              ji_created_at := 0 |} in
  override_inputs [i] = Ok [("nixpkgs", "github:NixOS/nixpkgs")] ∧
  override_inputs [drop_revision i] = Ok [("nixpkgs", "github:NixOS/nixpkgs")].
Proof.
  cbn zeta. split; [reflexivity|].
  apply (input_revision_ignored [{| ji_id := 1; ji_jobset_id := 1; ji_name := "nixpkgs";
    ji_input_type := InputType.Git; ji_value := "github:NixOS/nixpkgs";
    ji_revision := Some "abc123"; ji_created_at := 0 |}]). reflexivity.
Defined.

Lemma branch_pattern_sees_pull_requests_witness :
  ∃ r, r ∈ list_matching_refs (Some "*") None (fetched_refs
      {| rr_heads := []; rr_pulls := [("7", ("c", 0))]; rr_merge_requests := []; rr_tags := [] |}) ∧
    rf_kind r = KBranch ∧ rf_name r = "pr/7".
Proof.
  apply (branch_pattern_sees_pull_requests
    {| rr_heads := []; rr_pulls := [("7", ("c", 0))]; rr_merge_requests := []; rr_tags := [] |}
    None "7" "c" 0). left.
Defined.

(** ** The configuration of a repository *)

(** A finished one-shot jobset is revived.  If the repository declares the jobset, the
    next evaluation of any jobset of the project that applies the configuration enables it
    again, and it is polled as before. *)
Theorem one_shot_revived jid iid js old project p w :
  w_faults w = [] → w_projects w !! project = Some p → p_managed_declaratively p = false →
  find_named project (dj_name js) w = Some old →
  j_project_id old = project → j_enabled old = false →
  dj_state js = Some "one_shot" → dj_inputs js = [] →
  validate_create_jobset (declared_input project js) = Ok () →
  let w' := (sync_repo_declarative_config jid iid (Some [js]) project w).2 in
  ∃ j, w_jobsets w' !! j_id old = Some j ∧ j_state j = JobsetState.OneShot ∧
    j_enabled j = true ∧ is_Some (Jobsets.active_row w' j).
Proof.
  intros Hf Hp Hm Hfind Hproj Hen Hst Hin Hv. cbn zeta.
  unfold sync_repo_declarative_config, project_allows_repo_config.
  assert (Ha : (let! r := mtry (or_not_found ("Project " +:+ pretty project +:+ " not found")
      (read (λ w, w_projects w !! project))) in
    mret match r with Ok p => negb (p_managed_declaratively p) | Err _ => false end) w = (Ok true, w)).
  { rewrite (mbind_ok _ _ _ _ _ (get_no_fault _ _ _ Hf)), Hp, Hm. done. }
  rewrite (mbind_ok _ _ _ _ _ Ha). simpl.
  unfold sync_declared, upsert_jobset. rewrite Hv. unfold validation.
  unfold mbind, mtry. simpl. rewrite query_no_fault by done. simpl. rewrite Hp, Hfind.
  rewrite Hin. simpl. rewrite lookup_insert_eq. eexists. split; [done|].
  simpl. unfold resolve_enabled, declared_input. simpl. rewrite Hst. simpl.
  split; [done|]. split; [done|]. unfold Jobsets.active_row. simpl. rewrite Hproj, Hp.
  simpl. by eexists.
Qed.

(** ** Concrete runs *)

Definition cycle_project : Project :=
  {| p_id := 4; p_name := "circus"; p_description := None;
     p_repository_url := "https://example.org/circus"; p_cache_enabled := false;
     p_cache_url := None; p_cache_upstreams := []; p_managed_declaratively := false;
     p_allow_runtime_mutation := None; p_created_at := 0; p_updated_at := 0 |}.

Definition declared (name expression : string) (state : option string) : DeclarativeJobset :=
  {| dj_name := name; dj_nix_expression := expression; dj_enabled := true; dj_flake_mode := true;
     dj_check_interval := 60; dj_trigger_mode := None; dj_state := state; dj_branch := None;
     dj_branch_pattern := None; dj_tag_pattern := None; dj_scheduling_shares := 100;
     dj_keep_nr := None; dj_systems := None; dj_only_build_latest := false;
     dj_path_filters := []; dj_inputs := [] |}.

(** Jobset 1 is [ci]; jobset 2 is the release, a one-shot jobset that has run. *)
Definition release_jobset : Jobset :=
  new_jobset 2 0 (declared_input 4 (declared "release" "release" (Some "one_shot"))).

Definition cycle_world : World :=
  set_w_jobsets {[ 1 := ci_jobset; 2 := set_j_enabled false release_jobset ]}
    (set_w_projects {[ 4 := cycle_project ]} ci_world).

Definition ci_active : Jobsets.ActiveJobset :=
  {| Jobsets.aj_jobset := ci_jobset; Jobsets.aj_project_name := "circus";
     Jobsets.aj_repository_url := "https://example.org/circus" |}.

Definition meta_none : NixMeta := NixMeta_default.

Definition job_named (name drv : string) : NixJob :=
  {| jb_name := name; jb_drv_path := drv; jb_system := Some "x86_64-linux"; jb_outputs := None;
     jb_input_drvs := None; jb_constituents := None; jb_meta := meta_none |}.

(** Nix finds [jobs]; the change request with head [c] declares the release anew. *)
Definition cycle_env (tip : string) (jobs : list NixJob) (config : string → option (list DeclarativeJobset)) : Env :=
  {| env_checkout := λ _ _, Ok (); env_tip := λ _, Ok tip;
     env_refs := λ _, Err (GitError "unreachable"); env_path_changed := λ _ _ _, Ok true;
     env_config := λ _ commit, config commit;
     env_nix := λ _ _ _ _, {| nr_result := Ok {| er_jobs := jobs; er_error_count := 0; er_errors := [] |};
                              nr_elapsed := 1; nr_derivations := ∅; nr_invalid := ∅ |};
     env_read_drv := λ _, None; env_features := λ _, [];
     env_eval_id := λ _ _, 20; env_build_id := λ e n, 100 * e + Z.of_nat n;
     env_jobset_id := λ _, 30; env_input_id := λ _ _, 40;
     env_max_eval_time := None; env_nix_timeout := 600; env_git_timeout := 60; env_systems := None |}.

Definition no_config : string → option (list DeclarativeJobset) := λ _, None.
Definition fork_config : string → option (list DeclarativeJobset) :=
  λ commit, if bool_decide (commit = "f")
            then Some [declared "ci" "attacker" None; declared "release" "attacker" (Some "one_shot")]
            else None.

(** A change request waits with head [f]. *)
Definition fork_evaluation : Evaluation :=
  Evals.new_evaluation 12 0
    {| Evals.ce_jobset_id := 1; Evals.ce_commit_hash := "f"; Evals.ce_pr_number := Some 7;
       Evals.ce_pr_head_branch := Some "patch"; Evals.ce_pr_base_branch := Some "main";
       Evals.ce_pr_action := Some "opened" |} EvaluationStatus.Pending
    EvaluationTriggerKind.SourceChange (Some "change-request:7") None.

Definition fork_world : World :=
  set_w_evaluations (<[12 := fork_evaluation]> (w_evaluations cycle_world)) cycle_world.

Definition configured (w : World) (id : Uuid) : option (string * bool) :=
  (λ j, (j_nix_expression j, j_enabled j)) <$> w_jobsets w !! id.

(** The configuration in the head of a change request is the project's.  Evaluating a
    change request, whoever proposes it, replaces the expressions of the project's jobsets
    by those the head declares, and enables its finished release again. *)
Theorem change_request_reconfigures :
  let w' := (pending_task (cycle_env "a" [] fork_config) fork_evaluation ci_active fork_world).2 in
  configured fork_world 1 = Some ("hydraJobs", true) ∧ configured w' 1 = Some ("attacker", true) ∧
  configured fork_world 2 = Some ("release", false) ∧ configured w' 2 = Some ("attacker", true).
Proof. vm_compute. repeat split. Qed.

(** Two derivations under one job name. *)
Definition twins : list NixJob :=
  [job_named "hello" "/nix/store/a-hello.drv"; job_named "hello" "/nix/store/b-hello.drv"].

Definition status_in (w : World) (id : Uuid) : option EvaluationStatus.t :=
  e_status <$> w_evaluations w !! id.

(** A failed recording of builds leaves a polled evaluation running: two jobs with one
    name fail the evaluation when it was pending, but a poll only returns the error, and the
    row stays running until the sweep of orphans takes it for that of a dead evaluator. *)
Theorem poll_failure_stays_running :
  let env := cycle_env "t" twins no_config in
  let pending := ci_evaluation 10 "a" EvaluationStatus.Pending in
  let w1 := (pending_task env pending ci_active cycle_world).2 in
  let r := evaluate_jobset env ci_active cycle_world in
  status_in w1 10 = Some EvaluationStatus.Failed ∧
  is_ok r.1 = false ∧ status_in r.2 20 = Some EvaluationStatus.Running ∧
  status_in (Evals.sweep_orphaned 660 (set_w_now (w_now r.2 + Sql.secs 600) r.2)).2 20 =
    Some EvaluationStatus.Running.
Proof. vm_compute. repeat split. Qed.

Lemma pending_task_settles_witness :
  status_in (pending_task (cycle_env "t" twins no_config)
    (ci_evaluation 10 "a" EvaluationStatus.Pending) ci_active cycle_world).2 10 =
    Some EvaluationStatus.Failed.
Proof.
  destruct (pending_task_settles (cycle_env "t" twins no_config)
    (ci_evaluation 10 "a" EvaluationStatus.Pending) ci_active cycle_world eq_refl eq_refl eq_refl)
    as (e' & He & _ & _).
  transitivity (e_status <$> Some e'); [exact (f_equal (fmap e_status) He)|].
  vm_compute in He. injection He as <-. reflexivity.
Defined.

(** Commit [c] is evaluated and has a build; then an input appears. *)
Definition changed_world : World :=
  set_w_builds {[ 100 := Sql.new_build 100 0 (create_build (λ _, None) (λ _, []) 11 ∅
                          (job_named "hello" "/nix/store/a-hello.drv")) ]}
    (set_w_inputs {[ (1, "nixpkgs") :=
        {| ji_id := 5; ji_jobset_id := 1; ji_name := "nixpkgs"; ji_input_type := InputType.Git;
           ji_value := "github:NixOS/nixpkgs"; ji_revision := None; ji_created_at := 0 |} ]}
      cycle_world).

Lemma changed_inputs_ignored_witness :
  frozen (evaluate_single_ref (cycle_env "c" twins no_config) ci_active) changed_world (Ok ()).
Proof.
  apply (changed_inputs_ignored (cycle_env "c" twins no_config) ci_active ci_jobset "c"
    changed_world); try reflexivity.
  intros i e. unfold changed_world, cycle_world, ci_world. simpl.
  intros [[<- <-]|[_ [<- <-]%lookup_singleton_Some]]%lookup_insert_Some _ Hc; [done|].
  split; [done|]. exists 100. eexists. split; [vm_compute; reflexivity|reflexivity].
Defined.

(** Commit [b] was evaluated without builds; [a] waits on the same branch. *)
Definition reclaim_world : World :=
  set_w_evaluations {[ 10 := ci_evaluation 10 "a" EvaluationStatus.Pending;
                       9 := ci_evaluation 9 "b" EvaluationStatus.Completed ]} cycle_world.

Lemma reclaim_opens_second_witness :
  ∃ e1' w', claim_existing (ci_evaluation 9 "b" EvaluationStatus.Completed) reclaim_world =
      (Ok (CClaimed e1'), w') ∧
    w_evaluations w' !! 9 = Some e1' ∧ open_source 1 "branch:main" e1' ∧
    w_evaluations w' !! 10 = Some (ci_evaluation 10 "a" EvaluationStatus.Pending).
Proof.
  apply (reclaim_opens_second 1 "branch:main" (ci_evaluation 9 "b" EvaluationStatus.Completed)
    (ci_evaluation 10 "a" EvaluationStatus.Pending) reclaim_world); try reflexivity; try done.
  intros (k & b & Hk & _). vm_compute in Hk. done.
Defined.

Lemma one_shot_revived_witness :
  ∃ j, w_jobsets (sync_repo_declarative_config (λ _, 30) (λ _ _, 40)
      (Some [declared "release" "release" (Some "one_shot")]) 4 cycle_world).2 !! 2 = Some j ∧
    j_enabled j = true.
Proof.
  destruct (one_shot_revived (λ _, 30) (λ _ _, 40) (declared "release" "release" (Some "one_shot"))
    (set_j_enabled false release_jobset) 4 cycle_project cycle_world) as (j & Hj & _ & He & _);
    try (vm_compute; reflexivity).
  exists j. by split.
Defined.
