(* ===== verification/Secrets.v ===== *)
(** * Secrets at rest ([crates/common/src/crypto.rs])

    Secrets are stored as [v1:<nonce>:<ciphertext>], both parts in base-64.  The cipher
    (AES-256-GCM under a key derived from the configured one) and the encoder of the
    base-64 library are the interface [Cipher]; a reference instance shows that its laws
    can hold. *)

From S2P Require Import Prelude Types Float32 Base32 Codecs Db.

Class Cipher `{Codecs} := {
  b64_encode : list Z → string;
  (** [seal_in_place_append_tag] and [open_in_place] under the key derived from a text. *)
  seal : string → list Z → list Z → option (list Z);
  unseal : string → list Z → list Z → option (list Z);
  b64_decode_encode l : Forall is_byte l → b64_decode (b64_encode l) = Ok l;
  (** The standard alphabet has no colon. *)
  b64_encode_colon l :
    Forall is_byte l → existsb (char_is ":"%char) (str_chars (b64_encode l)) = false;
  seal_bytes k n m c : seal k n m = Some c → Forall is_byte c;
  unseal_seal k n m c : seal k n m = Some c → unseal k n c = Some m;
}.

Definition NONCE_LEN : nat := 12.

(** [String::from_utf8]: the well-formed sequences of the Unicode standard. *)
Definition continuation (b : Z) : bool := (128 <=? b) && (b <=? 191).

Fixpoint utf8_valid (l : list Z) : bool :=
  match l with
  | [] => true
  | a :: l1 =>
      if a <=? 127 then utf8_valid l1
      else match l1 with
      | [] => false
      | b :: l2 =>
          if (194 <=? a) && (a <=? 223) then continuation b && utf8_valid l2
          else match l2 with
          | [] => false
          | c :: l3 =>
              if (224 <=? a) && (a <=? 239) then
                ((if a =? 224 then 160 else 128) <=? b) &&
                (b <=? (if a =? 237 then 159 else 191)) && continuation c && utf8_valid l3
              else match l3 with
              | [] => false
              | d :: l4 =>
                  (240 <=? a) && (a <=? 244) && ((if a =? 240 then 144 else 128) <=? b) &&
                  (b <=? (if a =? 244 then 143 else 191)) && continuation c && continuation d &&
                  utf8_valid l4
              end
          end
      end
  end.

Definition from_utf8 (l : list Z) : option string :=
  if utf8_valid l then Some (str_of ((λ b, ascii_of_N (Z.to_N b)) <$> l)) else None.

(** [secret_aead_key]: the configured key, if there is one that is not blank. *)
Definition secret_aead_key (key : option string) : result CiError string :=
  match key with
  | Some k => if bool_decide (trim k = "")
              then Err (Config "server.webhook_secret_encryption_key is required")
              else Ok k
  | None => Err (Config "server.webhook_secret_encryption_key is required")
  end.

Section secrets.
Context `{Cipher}.

(** [nonce]: what the random generator gives. *)
Definition encrypt_secret (nonce : option (list Z)) (secret : string) (key : option string) :
    result CiError string :=
  let? key := secret_aead_key key in
  match nonce with
  | None => Err (Config "Failed to generate secret nonce")
  | Some nonce =>
      match seal key nonce (as_bytes secret) with
      | None => Err (Config "Failed to encrypt secret")
      | Some ciphertext => Ok ("v1:" +:+ b64_encode nonce +:+ ":" +:+ b64_encode ciphertext)
      end
  end.

Definition decrypt_secret (value : string) (key : option string) : result CiError string :=
  match strip_prefix "v1:" value with
  | None => Ok value
  | Some rest =>
      match split_once ":"%char rest with
      | None => Err (Config "Invalid encrypted secret format")
      | Some (nonce, ciphertext) =>
          let? key := secret_aead_key key in
          match b64_decode nonce with
          | Err _ => Err (Config "Invalid secret nonce")
          | Ok nonce =>
              if negb (length nonce =? NONCE_LEN)%nat then Err (Config "Invalid secret nonce")
              else match b64_decode ciphertext with
              | Err _ => Err (Config "Invalid secret ciphertext")
              | Ok ciphertext =>
                  match unseal key nonce ciphertext with
                  | None => Err (Config "Failed to decrypt secret")
                  | Some plaintext =>
                      match from_utf8 plaintext with
                      | None => Err (Config "Secret is not valid UTF-8")
                      | Some s => Ok s
                      end
                  end
              end
          end
      end
  end.
End secrets.

(** ** Properties *)

Lemma from_utf8_as_bytes s : utf8_valid (as_bytes s) = true → from_utf8 (as_bytes s) = Some s.
Proof.
  intros Hu. unfold from_utf8. rewrite Hu. f_equal. rewrite <-(str_of_chars s) at 2. f_equal.
  unfold as_bytes. rewrite <-list_fmap_compose. rewrite <-(list_fmap_id (str_chars s)) at 2.
  apply list_fmap_ext. intros _ c _. simpl. unfold byte_of. rewrite N2Z.id.
  apply Ascii.ascii_N_embedding.
Qed.

Lemma as_bytes_bytes s : Forall is_byte (as_bytes s).
Proof.
  unfold as_bytes. apply Forall_fmap, Forall_true. intros c. unfold is_byte, byte_of. simpl.
  pose proof (Ascii.N_ascii_bounded c). lia.
Qed.

Lemma encrypt_secret_inv `{Cipher} nonce secret key v :
  encrypt_secret nonce secret key = Ok v →
  ∃ k n c, secret_aead_key key = Ok k ∧ nonce = Some n ∧ seal k n (as_bytes secret) = Some c ∧
    v = "v1:" +:+ b64_encode n +:+ ":" +:+ b64_encode c.
Proof.
  unfold encrypt_secret. destruct (secret_aead_key key) as [k|]; [|done]. simpl.
  destruct nonce as [n|]; [|done]. destruct (seal k n _) as [c|] eqn:Hs; [|done].
  intros [= <-]. by exists k, n, c.
Qed.

(** Whatever the secret, also one that looks like a stored one, what is stored of it can be
    read back with the same key. *)
Lemma decrypt_encrypt `{Cipher} nonce secret key v :
  utf8_valid (as_bytes secret) = true →
  (∀ n, nonce = Some n → length n = NONCE_LEN ∧ Forall is_byte n) →
  encrypt_secret nonce secret key = Ok v → decrypt_secret v key = Ok secret.
Proof.
  intros Hu Hn (k & n & c & Hk & Hn' & Hs & ->)%encrypt_secret_inv.
  destruct (Hn n Hn') as [Hl Hb]. unfold decrypt_secret. rewrite strip_prefix_app.
  change (":" +:+ b64_encode c) with (String ":"%char (b64_encode c)).
  rewrite split_once_app by (by apply b64_encode_colon). rewrite Hk. simpl.
  rewrite b64_decode_encode, Hl by done. simpl.
  rewrite b64_decode_encode by (by eapply seal_bytes).
  by rewrite (unseal_seal _ _ _ _ Hs), from_utf8_as_bytes.
Qed.

(** ** A reference instance *)

Definition b64_char (d : Z) : ascii :=
  default "A"%char (str_chars "ABCDEFGHIJKLMNOPQRSTUVWXYZabcdefghijklmnopqrstuvwxyz0123456789+/" !!
    Z.to_nat d).

Fixpoint b64_encode_ref (l : list Z) : string :=
  match l with
  | [] => ""
  | [a] => String (b64_char (a / 4)) (String (b64_char (a mod 4 * 16)) "==")
  | [a; b] => String (b64_char (a / 4)) (String (b64_char (a mod 4 * 16 + b / 16))
                (String (b64_char (b mod 16 * 4)) "="))
  | a :: b :: c :: l =>
      String (b64_char (a / 4)) (String (b64_char (a mod 4 * 16 + b / 16))
        (String (b64_char (b mod 16 * 4 + c / 64)) (String (b64_char (c mod 64))
          (b64_encode_ref l))))
  end.

Lemma b64_char_spec d :
  0 ≤ d < 64 → b64_value (b64_char d) = Some d ∧ b64_char d ≠ ":"%char.
Proof.
  intros Hd. destruct d as [|p|]; [done| |lia].
  do 6 (destruct p as [p|p|]; try done); lia.
Qed.

Ltac b64_step := match goal with
  | |- context [b64_value (b64_char ?d)] =>
      rewrite (proj1 (b64_char_spec d ltac:(lia)))
  end.

Lemma b64_parts a : is_byte a → 0 ≤ a / 4 < 64 ∧ 0 ≤ a mod 4 < 4 ∧ 0 ≤ a / 16 < 16 ∧
  0 ≤ a mod 16 < 16 ∧ 0 ≤ a / 64 < 4 ∧ 0 ≤ a mod 64 < 64 ∧ a = 4 * (a / 4) + a mod 4 ∧
  a = 16 * (a / 16) + a mod 16 ∧ a = 64 * (a / 64) + a mod 64.
Proof.
  unfold is_byte. intros Ha. pose proof (Z.div_mod a 4). pose proof (Z.mod_pos_bound a 4).
  pose proof (Z.div_mod a 16). pose proof (Z.mod_pos_bound a 16).
  pose proof (Z.div_mod a 64). pose proof (Z.mod_pos_bound a 64). lia.
Qed.

Lemma b64_decode_encode_ref l : Forall is_byte l → b64_decode_ref (b64_encode_ref l) = Ok l.
Proof.
  remember (length l) as n eqn:Hn. revert l Hn. induction (lt_wf n) as [n _ IH].
  intros [|a [|b [|c l]]] ->; [done|..]; intros Hl; decompose_Forall_hyps;
    repeat match goal with H : is_byte ?a |- _ => apply b64_parts in H end;
    cbn [b64_encode_ref b64_decode_ref]; repeat b64_step.
  - replace (a mod 4 * 16 mod 16) with 0 by (symmetry; by apply Z.mod_mul).
    rewrite Z.div_mul by done. simpl. do 2 f_equal. lia.
  - replace (b mod 16 * 4 mod 4) with 0 by (symmetry; by apply Z.mod_mul).
    rewrite Z.div_mul by done. simpl.
    rewrite (Z.add_comm (a mod 4 * 16)), Z.div_add, Z.mod_add by lia.
    rewrite (Z.div_small (b / 16)), (Z.mod_small (b / 16)) by lia.
    do 2 f_equal; [lia|f_equal; lia].
  - rewrite (IH (length l) ltac:(simpl; lia) l eq_refl) by done.
    rewrite (Z.add_comm (a mod 4 * 16)), Z.div_add, Z.mod_add by lia.
    rewrite (Z.div_small (b / 16)), (Z.mod_small (b / 16)) by lia.
    rewrite (Z.add_comm (b mod 16 * 4)), Z.div_add, Z.mod_add by lia.
    rewrite (Z.div_small (c / 64)), (Z.mod_small (c / 64)) by lia.
    do 2 f_equal; [lia|f_equal; [lia|f_equal; lia]].
Qed.

Lemma b64_encode_ref_colon l :
  Forall is_byte l → existsb (char_is ":"%char) (str_chars (b64_encode_ref l)) = false.
Proof.
  remember (length l) as n eqn:Hn. revert l Hn. induction (lt_wf n) as [n _ IH].
  assert (Hc : ∀ d, 0 ≤ d < 64 → char_is ":" (b64_char d) = false).
  { intros d Hd. apply bool_decide_eq_false, (b64_char_spec d Hd). }
  intros [|a [|b [|c l]]] ->; [done|..]; intros Hl; decompose_Forall_hyps;
    repeat match goal with H : is_byte ?a |- _ => apply b64_parts in H end;
    cbn [b64_encode_ref str_chars existsb]; rewrite !Hc by lia; [done..|].
  apply (IH (length l)); [simpl; lia|done..].
Qed.

(** A cipher that hides nothing, for the laws. *)
#[export, program] Instance cipher_ref : Cipher := {|
  b64_encode := b64_encode_ref;
  seal := λ _ _ m, if decide (Forall is_byte m) then Some m else None;
  unseal := λ _ _ c, Some c;
|}.
Next Obligation. apply b64_decode_encode_ref. Qed.
Next Obligation. apply b64_encode_ref_colon. Qed.
Next Obligation. intros k n m c. simpl. case_decide; [|done]. by intros [= <-]. Qed.
Next Obligation. intros k n m c. simpl. case_decide; [|done]. by intros [= <-]. Qed.
