(* ===== verification/Notify.v ===== *)
(** * Notifications ([crates/notification])

    The snapshot of a build a channel is given ([event.rs]), the channels with their stored
    form ([channel.rs]), what they send ([channel/delivery.rs]), and the choice of the
    channels of a build ([lib.rs]); with the tables behind them
    ([common/src/repo/notification_configs.rs], [notification_tasks.rs]).

    The network is the argument [Net]: the answer to each request and mail.  The URL parser,
    the JSON printer, the MAC and the texts of UUIDs are parameters.  Of the forms the JSON
    library accepts for an event or an enum, the one [enqueue] writes is modelled. *)

From S2P Require Import Prelude Types Float32 Base32 Codecs Db Builds NixJobs FlakeRefs Validate Secrets.

(** ** Events *)

Record BuildEvent := {
  ev_build_id : Uuid;
  ev_status : BuildStatus;
  ev_job_name : string;
  ev_drv_path : string;
  ev_build_output : option string;
  ev_project_name : string;
  ev_project_url : string;
  ev_commit_hash : string;
}.

Definition from_build (build : Build) (project : Project) (commit_hash : string) : BuildEvent :=
  {| ev_build_id := b_id build; ev_status := b_status build; ev_job_name := b_job_name build;
     ev_drv_path := b_drv_path build; ev_build_output := b_build_output_path build;
     ev_project_name := p_name project; ev_project_url := p_repository_url project;
     ev_commit_hash := commit_hash |}.

Definition is_failure (e : BuildEvent) : bool := negb (is_success (ev_status e)).

Definition event_is_dependency (e : BuildEvent) : bool :=
  starts_with DEPENDENCY_JOB_PREFIX (ev_job_name e).

Definition generic_status (e : BuildEvent) : string :=
  match ev_status e with
  | Succeeded | CachedFailure => "success"
  | Failed | DependencyFailed | FailedWithOutput | Timeout | LogLimitExceeded
  | NarSizeLimitExceeded | NonDeterministic | OomKilled => "failure"
  | Cancelled => "cancelled"
  | Aborted => "aborted"
  | UnsupportedSystem => "skipped"
  | Pending | Running => "pending"
  end.

Definition github_state (e : BuildEvent) : string * string :=
  match ev_status e with
  | Succeeded | CachedFailure => ("success", "Build succeeded")
  | Failed | DependencyFailed | FailedWithOutput | NonDeterministic =>
      ("failure", "Build failed")
  | Running => ("pending", "Build in progress")
  | Pending => ("pending", "Build queued")
  | Cancelled => ("error", "Build cancelled")
  | Aborted => ("error", "Build aborted")
  | Timeout => ("error", "Build timed out")
  | UnsupportedSystem => ("error", "Unsupported system")
  | LogLimitExceeded => ("error", "Log limit exceeded")
  | NarSizeLimitExceeded => ("error", "NAR size limit exceeded")
  | OomKilled => ("failure", "Build failed (OOM)")
  end.

Definition gitlab_state (e : BuildEvent) : string * string :=
  match ev_status e with
  | Succeeded | CachedFailure => ("success", "Build succeeded")
  | Failed | DependencyFailed | FailedWithOutput | NonDeterministic =>
      ("failed", "Build failed")
  | Running => ("running", "Build in progress")
  | Pending => ("pending", "Build queued")
  | Cancelled => ("canceled", "Build cancelled")
  | Aborted => ("canceled", "Build aborted")
  | Timeout => ("failed", "Build timed out")
  | UnsupportedSystem => ("skipped", "Unsupported system")
  | LogLimitExceeded => ("failed", "Log limit exceeded")
  | NarSizeLimitExceeded => ("failed", "NAR size limit exceeded")
  | OomKilled => ("failed", "Build failed (OOM)")
  end.

Definition email_status (e : BuildEvent) : string :=
  match ev_status e with
  | Succeeded | CachedFailure => "SUCCESS"
  | Failed | DependencyFailed | FailedWithOutput | Timeout | LogLimitExceeded
  | NarSizeLimitExceeded | NonDeterministic | OomKilled => "FAILURE"
  | Cancelled => "CANCELLED"
  | Aborted => "ABORTED"
  | UnsupportedSystem => "UNSUPPORTED"
  | Pending | Running => "PENDING"
  end.

(** ** Channels *)

Record WebhookChannel := {
  wc_url : string;
  wc_secret : option string;
  (** a [BTreeMap]: by name *)
  wc_headers : list (string * string);
  wc_on_failure_only : bool;
}.

Record EmailConfig := {
  em_smtp_host : string;
  em_smtp_port : Z;
  em_smtp_user : option string;
  em_smtp_password : option string;
  em_smtp_password_file : option string;
  em_from_address : string;
  em_to_addresses : list string;
  em_tls : bool;
  em_on_failure_only : bool;
}.

Inductive NotificationChannel :=
  | Webhook (c : WebhookChannel)
  | GithubStatus (token : string)
  | GiteaStatus (base_url token : string)
  | GitlabStatus (base_url token : string)
  | Slack (webhook_url : string) (on_failure_only : bool)
  | Email (c : EmailConfig).

Definition notification_type (c : NotificationChannel) : NotificationType.t :=
  match c with
  | Webhook _ => NotificationType.Webhook
  | GithubStatus _ => NotificationType.GithubStatus
  | GiteaStatus _ _ => NotificationType.GiteaStatus
  | GitlabStatus _ _ => NotificationType.GitlabStatus
  | Slack _ _ => NotificationType.Slack
  | Email _ => NotificationType.Email
  end.

Definition is_commit_status (c : NotificationChannel) : bool :=
  match c with GithubStatus _ | GiteaStatus _ _ | GitlabStatus _ _ => true | _ => false end.

Definition applies_to (c : NotificationChannel) (e : BuildEvent) : bool :=
  match c with
  | Webhook c => negb (wc_on_failure_only c) || is_failure e
  | GithubStatus _ | GiteaStatus _ _ | GitlabStatus _ _ => true
  | Slack _ on_failure_only => negb on_failure_only || is_failure e
  | Email c => negb (em_on_failure_only c) || is_failure e
  end.

(** ** Libraries *)

Record Lib := {
  (** [Url::parse], and the lower-case host of it *)
  lib_url_parse : string → option ParsedUrl;
  lib_url_host : string → option string;
  (** [serde_json::to_vec], and the message of a refused value *)
  lib_json_text : Json → list Z;
  lib_serde_error : Json → string;
  (** [Hmac<Sha256>], by key and message *)
  lib_hmac : string → list Z → list Z;
  (** [urlencoding::encode] *)
  lib_urlencode : string → string;
  lib_uuid_text : Uuid → string;
  lib_uuid_parse : string → option Uuid;
}.

(** ** Stored channels *)

(** The fields of a struct: by name, or by position, where the trailing fields that have a
    default may be missing. *)
Definition struct_fields (names : list string) (required : nat) (v : Json) :
    option (list (string * Json)) :=
  match v with
  | JObj l => Some l
  | JArr vs => if (required <=? length vs)%nat && (length vs <=? length names)%nat
               then Some (zip names vs) else None
  | _ => None
  end.

Definition field {A} (f : Json → option A) (k : string) (l : list (string * Json)) : option A :=
  let* v := match_str k l in f v.

Definition field_default {A} (f : Json → option A) (d : A) (k : string)
    (l : list (string * Json)) : option A :=
  match match_str k l with Some v => f v | None => Some d end.

Definition optional {A} (f : Json → option A) (v : Json) : option (option A) :=
  match v with JNull => Some None | v => Some <$> f v end.

Definition text_entry (kv : string * Json) : option (string * string) :=
  let* s := json_str kv.2 in Some (kv.1, s).

Definition text_map (v : Json) : option (list (string * string)) :=
  match v with JObj l => map_option text_entry l | _ => None end.

Definition json_u16 (v : Json) : option Z :=
  match v with JInt z => if (0 <=? z) && (z <=? 65535) then Some z else None | _ => None end.

Definition json_strings (v : Json) : option (list string) :=
  let* l := json_array v in map_option json_str l.

Definition strings_json (l : list string) : Json := JArr (JStr <$> l).

Definition opt_json (o : option string) : Json := match o with Some s => JStr s | None => JNull end.

Definition webhook_of_json (v : Json) : option WebhookChannel :=
  let* l := struct_fields ["url"; "secret"; "headers"; "on_failure_only"] 1 v in
  let* url := field json_str "url" l in
  let* secret := field_default (optional json_str) None "secret" l in
  let* headers := field_default text_map [] "headers" l in
  let* on_failure_only := field_default json_bool false "on_failure_only" l in
  Some {| wc_url := url; wc_secret := secret; wc_headers := headers;
          wc_on_failure_only := on_failure_only |}.

Definition text_map_json (l : list (string * string)) : Json :=
  JObj ((λ kv, (kv.1, JStr kv.2)) <$> l).

Definition webhook_json (c : WebhookChannel) : Json :=
  JObj (match wc_headers c with
        | [] => []
        | l => [("headers", text_map_json l)]
        end ++
        [("on_failure_only", JBool (wc_on_failure_only c))] ++
        match wc_secret c with Some s => [("secret", JStr s)] | None => [] end ++
        [("url", JStr (wc_url c))]).

Definition email_fields : list string :=
  ["smtp_host"; "smtp_port"; "smtp_user"; "smtp_password"; "smtp_password_file";
   "from_address"; "to_addresses"; "tls"; "on_failure_only"].

Definition email_of_json (v : Json) : option EmailConfig :=
  let* l := struct_fields email_fields 9 v in
  let* smtp_host := field json_str "smtp_host" l in
  let* smtp_port := field json_u16 "smtp_port" l in
  let* smtp_user := field_default (optional json_str) None "smtp_user" l in
  let* smtp_password := field_default (optional json_str) None "smtp_password" l in
  let* smtp_password_file := field_default (optional json_str) None "smtp_password_file" l in
  let* from_address := field json_str "from_address" l in
  let* to_addresses := field json_strings "to_addresses" l in
  let* tls := field json_bool "tls" l in
  let* on_failure_only := field json_bool "on_failure_only" l in
  Some {| em_smtp_host := smtp_host; em_smtp_port := smtp_port; em_smtp_user := smtp_user;
          em_smtp_password := smtp_password; em_smtp_password_file := smtp_password_file;
          em_from_address := from_address; em_to_addresses := to_addresses; em_tls := tls;
          em_on_failure_only := on_failure_only |}.

Definition email_json (c : EmailConfig) : Json :=
  JObj [("from_address", JStr (em_from_address c));
        ("on_failure_only", JBool (em_on_failure_only c));
        ("smtp_host", JStr (em_smtp_host c)); ("smtp_password", opt_json (em_smtp_password c));
        ("smtp_password_file", opt_json (em_smtp_password_file c));
        ("smtp_port", JInt (em_smtp_port c)); ("smtp_user", opt_json (em_smtp_user c));
        ("tls", JBool (em_tls c)); ("to_addresses", strings_json (em_to_addresses c))].

(** The shape of each kind, before its secrets are decrypted. *)
Definition channel_of_json (t : NotificationType.t) (v : Json) : option NotificationChannel :=
  match t with
  | NotificationType.Webhook => Webhook <$> webhook_of_json v
  | NotificationType.GithubStatus =>
      let* l := struct_fields ["token"] 1 v in GithubStatus <$> field json_str "token" l
  | NotificationType.GiteaStatus | NotificationType.ForgejoStatus =>
      let* l := struct_fields ["base_url"; "token"] 2 v in
      let* base_url := field json_str "base_url" l in
      GiteaStatus base_url <$> field json_str "token" l
  | NotificationType.GitlabStatus =>
      let* l := struct_fields ["base_url"; "token"] 2 v in
      let* base_url := field json_str "base_url" l in
      GitlabStatus base_url <$> field json_str "token" l
  | NotificationType.Slack =>
      let* l := struct_fields ["webhook_url"; "on_failure_only"] 1 v in
      let* url := field json_str "webhook_url" l in
      Slack url <$> field_default json_bool false "on_failure_only" l
  | NotificationType.Email => Email <$> email_of_json v
  end.

Definition channel_json (c : NotificationChannel) : Json :=
  match c with
  | Webhook c => webhook_json c
  | GithubStatus token => JObj [("token", JStr token)]
  | GiteaStatus base_url token | GitlabStatus base_url token =>
      JObj [("base_url", JStr base_url); ("token", JStr token)]
  | Slack url on_failure_only =>
      JObj [("on_failure_only", JBool on_failure_only); ("webhook_url", JStr url)]
  | Email c => email_json c
  end.

(** [map(..).transpose()] and [collect()]. *)
Definition transpose {E A} (o : option (result E A)) : result E (option A) :=
  match o with None => Ok None | Some (Ok a) => Ok (Some a) | Some (Err e) => Err e end.

Fixpoint map_result {E A B} (f : nat → A → result E B) (i : nat) (l : list A) :
    result E (list B) :=
  match l with
  | [] => Ok []
  | x :: l => let? y := f i x in let? ys := map_result f (S i) l in Ok (y :: ys)
  end.

Section notify.
Context `{Cipher} (lib : Lib).

(** The secret fields of a channel, transformed in the order of the code; the number is the
    position of the secret. *)
Definition map_secrets (f : nat → string → result CiError string) (c : NotificationChannel) :
    result CiError NotificationChannel :=
  match c with
  | Webhook c =>
      let? secret := transpose (f O <$> wc_secret c) in
      let? headers := map_result (λ i (kv : string * string), let? v := f i kv.2 in Ok (kv.1, v)) 1
                        (wc_headers c) in
      Ok (Webhook {| wc_url := wc_url c; wc_secret := secret; wc_headers := headers;
                     wc_on_failure_only := wc_on_failure_only c |})
  | GithubStatus token => let? token := f O token in Ok (GithubStatus token)
  | GiteaStatus base_url token => let? token := f O token in Ok (GiteaStatus base_url token)
  | GitlabStatus base_url token => let? token := f O token in Ok (GitlabStatus base_url token)
  | Slack url on_failure_only => let? url := f O url in Ok (Slack url on_failure_only)
  | Email c =>
      let? password := transpose (f O <$> em_smtp_password c) in
      Ok (Email {| em_smtp_host := em_smtp_host c; em_smtp_port := em_smtp_port c;
                   em_smtp_user := em_smtp_user c; em_smtp_password := password;
                   em_smtp_password_file := em_smtp_password_file c;
                   em_from_address := em_from_address c; em_to_addresses := em_to_addresses c;
                   em_tls := em_tls c; em_on_failure_only := em_on_failure_only c |})
  end.

Definition validate_stored (c : NotificationChannel) : result string () :=
  match c with
  | Webhook c => validate_https_webhook_url (lib_url_host lib) (wc_url c)
  | Slack url _ => validate_https_webhook_url (lib_url_host lib) url
  | _ => Ok ()
  end.

Definition from_stored (t : NotificationType.t) (config : Json) (key : option string) :
    result CiError NotificationChannel :=
  match channel_of_json t config with
  | None => Err (Validation ("invalid " +:+ NotificationType.as_str t +:+
                             " notification config: " +:+ lib_serde_error lib config))
  | Some c =>
      let? c := map_secrets (λ _ s, decrypt_secret s key) c in
      match validate_stored c with Ok _ => Ok c | Err e => Err (Validation e) end
  end.

(** [nonces]: what the random generator gives, by position. *)
Definition to_stored (nonces : nat → option (list Z)) (c : NotificationChannel)
    (key : option string) : result CiError (NotificationType.t * Json) :=
  let? stored := map_secrets (λ i s, encrypt_secret (nonces i) s key) c in
  Ok (notification_type c, channel_json stored).

Definition encrypt_into_stored (nonces : nat → option (list Z)) (t : NotificationType.t)
    (config : Json) (key : option string) : result CiError Json :=
  let? channel := from_stored t config key in
  let? stored := to_stored nonces channel key in Ok stored.2.

(** ** Delivery *)

Record HttpRequest := {
  hr_url : string;
  hr_headers : list (string * string);
  hr_body : Json;
}.

Record Answer := {
  an_code : Z;
  (** as it is displayed *)
  an_status : string;
  an_body : string;
  an_retry_after : option string;
}.

Record Net := {
  (** [send()], or the text of its error *)
  net_http : HttpRequest → result string Answer;
  (** [relay(..)] for a host *)
  net_relay : string → result string ();
  (** [parse::<Mailbox>()] *)
  net_mailbox : string → result string ();
  (** building the mail to an address, and sending it *)
  net_build : string → result string ();
  net_mail : string → result string ();
}.

(** What has left the machine. *)
Inductive Sent := SHttp (r : HttpRequest) | SMail (to subject body : string).

Definition is_2xx (a : Answer) : bool := (200 <=? an_code a) && (an_code a <=? 299).

Definition SIGNATURE_HEADER : string := "X-Circus-Signature".
Definition RESERVED_HEADERS : list string := ["content-type"; SIGNATURE_HEADER].

Definition reserved_header (name : string) : bool :=
  existsb (λ r, bool_decide (to_ascii_lowercase r = to_ascii_lowercase name)) RESERVED_HEADERS.

Definition sign_body (secret : string) (body : list Z) : string :=
  "sha256=" +:+ hex_encode (lib_hmac lib secret body).

Definition webhook_payload (e : BuildEvent) : Json :=
  JObj [("build_drv", JStr (ev_drv_path e)); ("build_id", JStr (lib_uuid_text lib (ev_build_id e)));
        ("build_job", JStr (ev_job_name e));
        ("build_output", JStr (default "" (ev_build_output e)));
        ("build_status", JStr (generic_status e)); ("commit_hash", JStr (ev_commit_hash e));
        ("project_name", JStr (ev_project_name e)); ("project_url", JStr (ev_project_url e))].

Definition webhook_request (c : WebhookChannel) (e : BuildEvent) : HttpRequest :=
  let body := webhook_payload e in
  {| hr_url := wc_url c;
     hr_headers := [("Content-Type", "application/json")] ++
       match wc_secret c with
       | Some s => [(SIGNATURE_HEADER, sign_body s (lib_json_text lib body))]
       | None => []
       end ++ List.filter (λ kv, negb (reserved_header kv.1)) (wc_headers c);
     hr_body := body |}.

(** *** Repositories of forges *)

Record ForgeUrl := { fu_host : string; fu_path : string }.

Definition normalize_repo_path (path : string) : option string :=
  let path := trim_end_matches_str ".git" (trim_start_matches_str "/" path) in
  if decide (path = "") then None else Some path.

Definition ForgeUrl_parse (raw : string) : option ForgeUrl :=
  let raw := trim raw in
  if decide (raw = "") then None
  else match lib_url_parse lib raw with
       | Some url =>
           let* host := pu_host url in
           let* path := normalize_repo_path (pu_path url) in
           Some {| fu_host := to_ascii_lowercase host; fu_path := path |}
       | None =>
           let* p := split_once ":"%char raw in
           let* host := strip_prefix "git@" p.1 in
           let* path := normalize_repo_path p.2 in
           Some {| fu_host := to_ascii_lowercase host; fu_path := path |}
       end.

Definition matches_base (u : ForgeUrl) (base_url : string) : bool :=
  match lib_url_parse lib base_url with
  | Some url => match pu_host url with
                | Some host => bool_decide (to_ascii_lowercase host = fu_host u)
                | None => false
                end
  | None => false
  end.

Definition owner_repo (u : ForgeUrl) : option (string * string) := split_once "/"%char (fu_path u).

Definition parse_github_repo (url : string) : option (string * string) :=
  let* u := ForgeUrl_parse url in
  if decide (fu_host u = "github.com") then owner_repo u else None.

Definition parse_gitea_repo (repo_url base_url : string) : option (string * string) :=
  let* u := ForgeUrl_parse repo_url in
  if matches_base u base_url then owner_repo u else None.

Definition parse_gitlab_project (repo_url base_url : string) : option string :=
  let* u := ForgeUrl_parse repo_url in
  if matches_base u base_url then Some (fu_path u) else None.

(** [state], [description] and the name of the job under [name]. *)
Definition status_body (state : string * string) (name : string) (e : BuildEvent) : Json :=
  if decide (name = "context")
  then JObj [("context", JStr ("circus/" +:+ ev_job_name e)); ("description", JStr state.2);
             ("state", JStr state.1)]
  else JObj [("description", JStr state.2); (name, JStr ("circus/" +:+ ev_job_name e));
             ("state", JStr state.1)].

Definition github_request (token owner repo : string) (e : BuildEvent) : HttpRequest :=
  {| hr_url := "https://api.github.com/repos/" +:+ owner +:+ "/" +:+ repo +:+ "/statuses/" +:+
               ev_commit_hash e;
     hr_headers := [("Authorization", "token " +:+ token); ("User-Agent", "circus");
                    ("Accept", "application/vnd.github+json")];
     hr_body := status_body (github_state e) "context" e |}.

Definition gitea_request (base_url token owner repo : string) (e : BuildEvent) : HttpRequest :=
  {| hr_url := trim_end_matches_str "/" base_url +:+ "/api/v1/repos/" +:+ owner +:+ "/" +:+
               repo +:+ "/statuses/" +:+ ev_commit_hash e;
     hr_headers := [("Authorization", "token " +:+ token)];
     hr_body := status_body (github_state e) "context" e |}.

Definition gitlab_request (base_url token path : string) (e : BuildEvent) : HttpRequest :=
  {| hr_url := trim_end_matches_str "/" base_url +:+ "/api/v4/projects/" +:+
               lib_urlencode lib path +:+ "/statuses/" +:+ ev_commit_hash e;
     hr_headers := [("PRIVATE-TOKEN", token)];
     hr_body := status_body (gitlab_state e) "name" e |}.

Definition NEWLINE : string := String "010"%char "".

Definition slack_request (url : string) (e : BuildEvent) : HttpRequest :=
  let status := generic_status e in
  {| hr_url := url; hr_headers := [];
     hr_body := JObj
       [("blocks", JArr [JObj [("text", JObj [("text", JStr ("*" +:+ ev_job_name e +:+ "* - *" +:+
           status +:+ "*" +:+ NEWLINE +:+ "Project: " +:+ ev_project_name e +:+ " | Commit: `" +:+
           ev_commit_hash e +:+ "`")); ("type", JStr "mrkdwn")]); ("type", JStr "section")]]);
        ("text", JStr ("CI: " +:+ ev_job_name e +:+ " - " +:+ status))] |}.

(** One request: [sent] gives the error of an answer that is not a success. *)
Definition post (net : Net) (failed : string) (refused : Answer → option string) (r : HttpRequest) :
    list Sent * result string () :=
  match net_http net r with
  | Err e => ([SHttp r], Err (failed +:+ ": " +:+ e))
  | Ok a => ([SHttp r], match refused a with Some msg => Err msg | None => Ok () end)
  end.

Definition status_only (what : string) (a : Answer) : option string :=
  if is_2xx a then None else Some (what +:+ an_status a).

Definition status_and_text (what : string) (a : Answer) : option string :=
  if is_2xx a then None else Some (what +:+ an_status a +:+ ": " +:+ an_body a).

Definition slack_refused (a : Answer) : option string :=
  if an_code a =? 429
  then Some ("Slack rate limited; retry-after=" +:+ default "60" (an_retry_after a))
  else status_only "Slack returned status: " a.

(** *** Mail *)

Definition email_subject (e : BuildEvent) : string :=
  "[circus] " +:+ email_status e +:+ " - " +:+ ev_job_name e +:+ " (" +:+ ev_project_name e +:+ ")".

Definition email_body (e : BuildEvent) : string :=
  "Build notification from circus" +:+ NEWLINE +:+ NEWLINE +:+ "Project: " +:+
  ev_project_name e +:+ NEWLINE +:+ "Job: " +:+ ev_job_name e +:+ NEWLINE +:+ "Status: " +:+
  email_status e +:+ NEWLINE +:+ "Derivation: " +:+ ev_drv_path e +:+ NEWLINE +:+ "Output: " +:+
  default "N/A" (ev_build_output e) +:+ NEWLINE +:+ "Build ID: " +:+
  lib_uuid_text lib (ev_build_id e) +:+ NEWLINE.

(** One mail per address that is one; the first that cannot be sent ends the round. *)
Fixpoint send_mails (net : Net) (e : BuildEvent) (to : list string) : list Sent * result string () :=
  match to with
  | [] => ([], Ok ())
  | addr :: to =>
      match net_mailbox net addr with
      | Err _ => send_mails net e to
      | Ok _ =>
          match net_build net addr, net_mail net addr with
          | Err msg, _ => ([], Err ("Failed to build email: " +:+ msg))
          | Ok _, Err msg => ([], Err ("Failed to send email to " +:+ addr +:+ ": " +:+ msg))
          | Ok _, Ok _ => let (sent, r) := send_mails net e to in
                          (SMail addr (email_subject e) (email_body e) :: sent, r)
          end
      end
  end.

Definition deliver_email (net : Net) (c : EmailConfig) (e : BuildEvent) :
    list Sent * result string () :=
  match net_mailbox net (em_from_address c) with
  | Err msg => ([], Err ("Invalid from address '" +:+ em_from_address c +:+ "': " +:+ msg))
  | Ok _ =>
      match (if em_tls c then net_relay net (em_smtp_host c) else Ok ()) with
      | Err msg => ([], Err ("Failed to create SMTP transport: " +:+ msg))
      | Ok _ => send_mails net e (em_to_addresses c)
      end
  end.

Definition deliver (net : Net) (c : NotificationChannel) (e : BuildEvent) :
    list Sent * result string () :=
  match c with
  | Webhook c => post net "Webhook request failed" (status_only "Webhook returned status: ")
                   (webhook_request c e)
  | GithubStatus token =>
      match parse_github_repo (ev_project_url e) with
      | None => ([], Err ("Cannot parse GitHub repo from " +:+ ev_project_url e))
      | Some (owner, repo) =>
          post net "GitHub API request failed" (status_and_text "GitHub API returned ")
            (github_request token owner repo e)
      end
  | GiteaStatus base_url token =>
      match parse_gitea_repo (ev_project_url e) base_url with
      | None => ([], Err ("Cannot parse Gitea repo from " +:+ ev_project_url e))
      | Some (owner, repo) =>
          post net "Gitea API request failed" (status_and_text "Gitea API returned ")
            (gitea_request base_url token owner repo e)
      end
  | GitlabStatus base_url token =>
      match parse_gitlab_project (ev_project_url e) base_url with
      | None => ([], Err ("Cannot parse GitLab project from " +:+ ev_project_url e))
      | Some path =>
          post net "GitLab API request failed" (status_and_text "GitLab API returned ")
            (gitlab_request base_url token path e)
      end
  | Slack url _ => post net "Slack webhook request failed" slack_refused (slack_request url e)
  | Email c => deliver_email net c e
  end.

End notify.

(** ** The rate limit of GitHub *)

Record RateLimitState := { rl_limit : Z; rl_remaining : Z; rl_reset_at : Z }.

Definition calculate_delay (s : RateLimitState) (now : Z) : Z :=
  let seconds_until_reset := Z.max (Z.max (rl_reset_at s - now) 0) 1 in
  let consumed := Z.max (rl_limit s - rl_remaining s) 0 in
  Z.max ((consumed * 5) mod (U64_MAX + 1) / seconds_until_reset) 1.

(** How long [apply_github_rate_limit] sleeps. *)
Definition rate_limit_sleep (s : option RateLimitState) (now : Z) : option Z :=
  match s with
  | Some s => if rl_remaining s <=? 1000 then Some (calculate_delay s now) else None
  | None => None
  end.
