(* ===== verification/NotifyQueue.v ===== *)
(** * The retry queue of notifications

    Which channels a build event reaches ([crates/notification/src/lib.rs], [dispatch]), the
    stored configurations of a project ([repo/notification_configs.rs]), the queue
    ([repo/notification_tasks.rs], [src/queries/notification_tasks.sql]) and the loop that
    works it off ([queue-runner/src/cli.rs], [notification_retry_loop]).  [Sent] values are
    what leaves the machine. *)

From S2P Require Import Prelude Types Float32 Base32 Codecs Db Builds NixJobs FlakeRefs Validate JobsetConfig Secrets Notify.

(** ** [repo/notification_configs.rs] *)

Module notification_configs.

Definition of_project (project_id : Uuid) (w : World) : list NotificationConfig :=
  List.filter (λ c, (nc_project_id c =? project_id) && nc_enabled c)
    ((map_to_list (w_notification_configs w)).*2).

Definition list_for_project (project_id : Uuid) : M (list NotificationConfig) :=
  read (λ w, sort_by (λ a b, Z.compare (nc_created_at b) (nc_created_at a))
               (of_project project_id w)).

Definition config_key (project_id : Uuid) (t : NotificationType.t) : Z * string :=
  (project_id, NotificationType.as_str t).

Definition new_config (id project_id : Uuid) (t : NotificationType.t) (config : Json)
    (enabled : bool) (now : DateTime) : NotificationConfig :=
  {| nc_id := id; nc_project_id := project_id; nc_notification_type := t; nc_config := config;
     nc_enabled := enabled; nc_created_at := now |}.

Definition create (id project_id : Uuid) (t : NotificationType.t) (config : Json) :
    M NotificationConfig :=
  query (λ w,
    match w_notification_configs w !! config_key project_id t, w_projects w !! project_id with
    | Some _, _ => (Err (Conflict ("Notification config '" +:+ NotificationType.as_str t +:+
                                   "' already exists for this project")), w)
    | None, None => (Err (Database "foreign key violation"), w)
    | None, Some _ =>
        let c := new_config id project_id t config true (w_now w) in
        (Ok c, set_w_notification_configs
                 (<[config_key project_id t := c]> (w_notification_configs w)) w)
    end).

Definition delete_for_project (project_id id : Uuid) : M () :=
  query (λ w,
    if existsb (λ c, (nc_project_id c =? project_id) && (nc_id c =? id))
         (map_to_list (w_notification_configs w)).*2
    then (Ok (), set_w_notification_configs
            (filter (λ kv, ¬ (nc_project_id kv.2 = project_id ∧ nc_id kv.2 = id))
               (w_notification_configs w)) w)
    else (Err (NotFound ("Notification config " +:+ pretty id +:+ " not found")), w)).

Definition upsert (id project_id : Uuid) (t : NotificationType.t) (config : Json)
    (enabled : bool) : M NotificationConfig :=
  query (λ w,
    match w_projects w !! project_id with
    | None => (Err (Database "foreign key violation"), w)
    | Some _ =>
        let c := match w_notification_configs w !! config_key project_id t with
                 | Some old => new_config (nc_id old) project_id t config enabled
                                 (nc_created_at old)
                 | None => new_config id project_id t config enabled (w_now w)
                 end in
        (Ok c, set_w_notification_configs
                 (<[config_key project_id t := c]> (w_notification_configs w)) w)
    end).

Record DeclarativeNotification := {
  dn_notification_type : NotificationType.t;
  dn_config : Json;
  dn_enabled : bool;
}.

Definition sync_for_project_delete (project_id : Uuid) (types : list string) : M () :=
  query (λ w, (Ok (), set_w_notification_configs
    (filter (λ kv, ¬ (kv.1.1 = project_id ∧ kv.1.2 ∉ types)) (w_notification_configs w)) w)).

Fixpoint upsert_all (new_id : string → Uuid) (project_id : Uuid)
    (l : list DeclarativeNotification) : M () :=
  match l with
  | [] => mret ()
  | n :: l =>
      upsert (new_id (NotificationType.as_str (dn_notification_type n))) project_id
        (dn_notification_type n) (dn_config n) (dn_enabled n) ;;!
      upsert_all new_id project_id l
  end.

Definition sync_for_project (new_id : string → Uuid) (project_id : Uuid)
    (l : list DeclarativeNotification) : M () :=
  sync_for_project_delete project_id
    ((λ n, NotificationType.as_str (dn_notification_type n)) <$> l) ;;!
  upsert_all new_id project_id l.
End notification_configs.

(** ** [repo/notification_tasks.rs] *)

Module notification_tasks.
Import NotificationTaskStatus.

Definition new_task (id : Uuid) (now : DateTime) (t : NotificationType.t) (payload : Json)
    (max_attempts : Z) : NotificationTask :=
  {| nt_id := id; nt_notification_type := t; nt_payload := payload; nt_status := Pending;
     nt_attempts := 0; nt_max_attempts := max_attempts; nt_next_retry_at := now;
     nt_last_error := None; nt_created_at := now; nt_completed_at := None |}.

Definition create (id : Uuid) (t : NotificationType.t) (payload : Json) (max_attempts : Z) :
    M NotificationTask :=
  query (λ w,
    let task := new_task id (w_now w) t payload max_attempts in
    (Ok task, set_w_notification_tasks (<[id := task]> (w_notification_tasks w)) w)).

Definition due (now : DateTime) (t : NotificationTask) : bool :=
  bool_decide (nt_status t = Pending) && (nt_next_retry_at t <=? now).

Definition by_retry (a b : NotificationTask) : comparison :=
  Z.compare (nt_next_retry_at a) (nt_next_retry_at b).

Definition list_due (limit : nat) (w : World) : list NotificationTask :=
  firstn limit (sort_by by_retry (List.filter (due (w_now w)) (rows (w_notification_tasks w)))).

Definition list_pending (limit : nat) : M (list NotificationTask) := read (list_due limit).

Definition list_recent (limit : nat) : M (list NotificationTask) :=
  read (λ w, firstn limit (sort_by (λ a b, Z.compare (nt_created_at b) (nt_created_at a))
                             (rows (w_notification_tasks w)))).

Definition set_claimed (t : NotificationTask) : NotificationTask :=
  set_nt_status Running (set_nt_attempts (nt_attempts t + 1) t).

Definition claim_pending (limit : nat) : M (list NotificationTask) :=
  query (λ w,
    let claimed := list_due limit w in
    (Ok (set_claimed <$> claimed),
     set_w_notification_tasks
       (foldr (λ t, <[nt_id t := set_claimed t]>) (w_notification_tasks w) claimed) w)).

Definition update (id : Uuid) (f : DateTime → NotificationTask → NotificationTask) : M () :=
  query (λ w, (Ok (), set_w_notification_tasks (alter (f (w_now w)) id (w_notification_tasks w)) w)).

(** No caller: [claim_pending] takes its place. *)
Definition mark_running (id : Uuid) : M () := update id (λ _, set_claimed).

Definition set_completed (now : DateTime) (t : NotificationTask) : NotificationTask :=
  set_nt_status Completed (set_nt_completed_at (Some now) t).

Definition mark_completed (id : Uuid) : M () := update id set_completed.

Definition exhausted (t : NotificationTask) : bool := nt_max_attempts t <=? nt_attempts t.

(** [POWER(2, attempts - 1) || ' seconds']: for a claimed task [attempts] is positive. *)
Definition backoff (t : NotificationTask) : Z := Sql.secs (2 ^ (nt_attempts t - 1)).

Definition set_failed (error : string) (now : DateTime) (t : NotificationTask) :
    NotificationTask :=
  set_nt_status (if exhausted t then Failed else Pending)
    (set_nt_last_error (Some error)
      (set_nt_next_retry_at (if exhausted t then now else now + backoff t)
        (set_nt_completed_at (if exhausted t then Some now else None) t))).

Definition mark_failed_and_retry (id : Uuid) (error : string) : M () :=
  update id (set_failed error).

Definition set_requeued (now : DateTime) (t : NotificationTask) : NotificationTask :=
  set_nt_status Pending (set_nt_attempts 0 (set_nt_next_retry_at now
    (set_nt_last_error None (set_nt_completed_at None t)))).

Definition requeue_failed (id : Uuid) : M NotificationTask :=
  query (λ w,
    match w_notification_tasks w !! id with
    | Some t =>
        if bool_decide (nt_status t = Failed)
        then let t' := set_requeued (w_now w) t in
             (Ok t', set_w_notification_tasks (<[id := t']> (w_notification_tasks w)) w)
        else (Err (Validation "Notification task not found or not failed"), w)
    | None => (Err (Validation "Notification task not found or not failed"), w)
    end).

(** [one()]: a missing row is an error of the database. *)
Definition get (id : Uuid) : M NotificationTask :=
  query (λ w, (match w_notification_tasks w !! id with
               | Some t => Ok t
               | None => Err (Database "row count")
               end, w)).

Definition count (status : t) : M Z :=
  read (λ w, Z.of_nat (length (List.filter (λ t, bool_decide (nt_status t = status))
                                 (rows (w_notification_tasks w))))).
Definition count_pending : M Z := count Pending.
Definition count_failed : M Z := count Failed.

Definition before (now : DateTime) (days : Z) (t : DateTime) : bool :=
  t <? now - Sql.secs (days * 86400).

Definition expired (now : DateTime) (days : Z) (t : NotificationTask) : bool :=
  (bool_decide (nt_status t = Completed) || bool_decide (nt_status t = Failed)) &&
  (match nt_completed_at t with Some c => before now days c | None => false end ||
   before now days (nt_created_at t)).

Definition cleanup_old_tasks (days : Z) : M Z :=
  query (λ w,
    let gone := filter (λ kv, expired (w_now w) days kv.2 = true) (w_notification_tasks w) in
    (Ok (Z.of_nat (size gone)),
     set_w_notification_tasks
       (filter (λ kv, expired (w_now w) days kv.2 = false) (w_notification_tasks w)) w)).
End notification_tasks.

(** ** The payload of a task *)

Definition event_json (lib : Lib) (e : BuildEvent) : Json :=
  JObj [("build_id", JStr (lib_uuid_text lib (ev_build_id e)));
        ("build_output", opt_json (ev_build_output e)); ("commit_hash", JStr (ev_commit_hash e));
        ("drv_path", JStr (ev_drv_path e)); ("job_name", JStr (ev_job_name e));
        ("project_name", JStr (ev_project_name e)); ("project_url", JStr (ev_project_url e));
        ("status", JStr (as_db_str (ev_status e)))].

Definition status_of_json (v : Json) : option BuildStatus :=
  match v with
  | JStr s => match build_status_from_str s with Ok st => Some st | Err _ => None end
  | _ => None
  end.

Definition event_of_json (lib : Lib) (v : Json) : option BuildEvent :=
  match v with
  | JObj l =>
      let* id := field json_str "build_id" l in
      let* build_id := lib_uuid_parse lib id in
      let* status := field status_of_json "status" l in
      let* job_name := field json_str "job_name" l in
      let* drv_path := field json_str "drv_path" l in
      let* build_output := field_default (optional json_str) None "build_output" l in
      let* project_name := field json_str "project_name" l in
      let* project_url := field json_str "project_url" l in
      let* commit_hash := field json_str "commit_hash" l in
      Some {| ev_build_id := build_id; ev_status := status; ev_job_name := job_name;
              ev_drv_path := drv_path; ev_build_output := build_output;
              ev_project_name := project_name; ev_project_url := project_url;
              ev_commit_hash := commit_hash |}
  | _ => None
  end.

Definition task_payload (lib : Lib) (t : NotificationType.t) (stored : Json) (e : BuildEvent) : Json :=
  JObj [("channel", stored); ("event", event_json lib e);
        ("notification_type", JStr (NotificationType.as_str t))].

(** ** The channels of a project *)

Record NotificationsConfig := {
  cf_webhook_url : option string;
  cf_github_token : option string;
  cf_gitea_url : option string;
  cf_gitea_token : option string;
  cf_gitlab_url : option string;
  cf_gitlab_token : option string;
  cf_slack : option (string * bool);
  cf_email : option EmailConfig;
  cf_enable_retry_queue : bool;
  cf_max_retry_attempts : Z;
}.

Definition global_fallback_channels (config : NotificationsConfig) (e : BuildEvent) :
    list NotificationChannel :=
  match cf_webhook_url config with
  | Some url => [Webhook {| wc_url := url; wc_secret := None; wc_headers := [];
                            wc_on_failure_only := false |}]
  | None => []
  end ++
  match cf_github_token config with
  | Some token => if contains "github.com" (ev_project_url e) then [GithubStatus token] else []
  | None => []
  end ++
  match cf_gitea_url config, cf_gitea_token config with
  | Some base_url, Some token => [GiteaStatus base_url token]
  | _, _ => []
  end ++
  match cf_gitlab_url config, cf_gitlab_token config with
  | Some base_url, Some token => [GitlabStatus base_url token]
  | _, _ => []
  end ++
  match cf_slack config with Some (url, only) => [Slack url only] | None => [] end ++
  match cf_email config with Some email => [Email email] | None => [] end.

Definition status_rank (s : BuildStatus) : Z :=
  match s with Pending => 0 | Running => 1 | _ => 2 end.

(** The event is out of date for a build that has the status [current] now. *)
Definition stale (current event : BuildStatus) : bool :=
  if bool_decide (current = event) then false
  else if status_rank event <? status_rank current then true
  else is_finished event && negb (is_finished current).

Section dispatch.
Context `{Cipher} (lib : Lib).

(** The channels of the rows that can be read. *)
Definition stored_channels (key : option string) (rows : list NotificationConfig) :
    list NotificationChannel :=
  omap (λ row, match from_stored lib (nc_notification_type row) (nc_config row) key with
               | Ok c => Some c
               | Err _ => None
               end) rows.

(** [project]: whether there is a pool to read the rows of the project from. *)
Definition resolve_channels (pool : bool) (project : Project) (config : NotificationsConfig)
    (key : option string) (e : BuildEvent) : M (list NotificationChannel) :=
  let! rows := if pool then
                 let! r := mtry (notification_configs.list_for_project (p_id project)) in
                 mret match r with Ok l => l | Err _ => [] end
               else mret [] in
  let channels := stored_channels key rows in
  let configured := notification_type <$> channels in
  mret (channels ++ List.filter (λ c, negb (bool_decide (notification_type c ∈ configured)))
                      (global_fallback_channels config e)).

Definition stale_commit_status_event (e : BuildEvent) : M (result string bool) :=
  let! r := mtry (builds.get (ev_build_id e)) in
  mret match r with
       | Err err => Err ("Failed to load build for notification freshness: " +:+ error_text err)
       | Ok b => Ok (stale (b_status b) (ev_status e))
       end.

Definition enqueue (id : Uuid) (nonces : nat → option (list Z)) (c : NotificationChannel)
    (e : BuildEvent) (max_attempts : Z) (key : option string) : M () :=
  match to_stored nonces c key with
  | Err _ => mret ()
  | Ok (t, stored) =>
      let! _ := mtry (notification_tasks.create id t (task_payload lib t stored e) max_attempts) in
      mret ()
  end.

(** One channel of [dispatch]; an error of a delivery is logged. *)
Definition dispatch_one (net : Net) (id : Uuid) (nonces : nat → option (list Z)) (pool : bool)
    (config : NotificationsConfig) (key : option string) (commit_status_only : bool)
    (e : BuildEvent) (c : NotificationChannel) : M (list Sent) :=
  let use_queue := cf_enable_retry_queue config && pool && is_some key in
  if commit_status_only && negb (is_commit_status c) then mret []
  else if negb (applies_to c e) then mret []
  else if use_queue then
    enqueue id nonces c e (cf_max_retry_attempts config) key ;;! mret []
  else if pool && is_commit_status c then
    let! r := stale_commit_status_event e in
    match r with
    | Ok false => mret (deliver lib net c e).1
    | Ok true | Err _ => mret []
    end
  else mret (deliver lib net c e).1.

Fixpoint dispatch_all (net : Net) (ids : nat → Uuid) (nonces : nat → nat → option (list Z))
    (pool : bool) (config : NotificationsConfig) (key : option string)
    (commit_status_only : bool) (e : BuildEvent) (i : nat) (l : list NotificationChannel) :
    M (list Sent) :=
  match l with
  | [] => mret []
  | c :: l =>
      let! sent := dispatch_one net (ids i) (nonces i) pool config key commit_status_only e c in
      let! rest := dispatch_all net ids nonces pool config key commit_status_only e (S i) l in
      mret (sent ++ rest)
  end.

Definition dispatch (net : Net) (ids : nat → Uuid) (nonces : nat → nat → option (list Z))
    (pool : bool) (build : Build) (project : Project) (commit_hash : string)
    (config : NotificationsConfig) (key : option string) (commit_status_only : bool) :
    M (list Sent) :=
  let e := from_build build project commit_hash in
  if event_is_dependency e then mret []
  else
    let! channels := resolve_channels pool project config key e in
    dispatch_all net ids nonces pool config key commit_status_only e 0 channels.

Definition dispatch_build_finished (net : Net) (ids : nat → Uuid)
    (nonces : nat → nat → option (list Z)) (pool : bool) (build : Build) (project : Project)
    (commit_hash : string) (config : NotificationsConfig) (key : option string) : M (list Sent) :=
  dispatch net ids nonces pool build project commit_hash config key false.

Definition dispatch_build_created (net : Net) (ids : nat → Uuid)
    (nonces : nat → nat → option (list Z)) (build : Build) (project : Project)
    (commit_hash : string) (config : NotificationsConfig) (key : option string) : M (list Sent) :=
  dispatch net ids nonces true build project commit_hash config key true.

Definition dispatch_build_started (net : Net) (ids : nat → Uuid)
    (nonces : nat → nat → option (list Z)) (build : Build) (project : Project)
    (commit_hash : string) (config : NotificationsConfig) (key : option string) : M (list Sent) :=
  dispatch net ids nonces true build project commit_hash config key true.

(** The notifications of one declared project; [nonces] by their position. *)
Definition encrypt_declarative_notifications (nonces : nat → nat → option (list Z))
    (l : list notification_configs.DeclarativeNotification) (key : option string) :
    result CiError (list notification_configs.DeclarativeNotification) :=
  map_result (λ i n,
    let? config := encrypt_into_stored lib (nonces i) (notification_configs.dn_notification_type n)
                     (notification_configs.dn_config n) key in
    Ok {| notification_configs.dn_notification_type := notification_configs.dn_notification_type n;
          notification_configs.dn_config := config;
          notification_configs.dn_enabled := notification_configs.dn_enabled n |}) 0 l.

(** ** The loop *)

Definition process_notification_task (net : Net) (task : NotificationTask) (key : option string) :
    M (list Sent * result string ()) :=
  match json_get "channel" (nt_payload task), json_get "event" (nt_payload task) with
  | Some channel_cfg, Some event =>
      match from_stored lib (nt_notification_type task) channel_cfg key with
      | Err err => mret ([], Err ("Invalid stored notification channel: " +:+ error_text err))
      | Ok channel =>
          match event_of_json lib event with
          | None => mret ([], Err ("Invalid stored build event: " +:+ lib_serde_error lib event))
          | Some e =>
              if event_is_dependency e then mret ([], Ok ())
              else if is_commit_status channel then
                let! r := stale_commit_status_event e in
                match r with
                | Err msg => mret ([], Err msg)
                | Ok true => mret ([], Ok ())
                | Ok false => mret (deliver lib net channel e)
                end
              else mret (deliver lib net channel e)
          end
      end
  | _, _ => mret ([], Err ("Unrecognized notification task payload for type '" +:+
                           NotificationType.as_str (nt_notification_type task) +:+ "'"))
  end.

Fixpoint process_tasks (net : Net) (key : option string) (tasks : list NotificationTask) :
    M (list Sent) :=
  match tasks with
  | [] => mret []
  | task :: tasks =>
      let! o := process_notification_task net task key in
      let! _ := mtry match o.2 with
                     | Ok _ => notification_tasks.mark_completed (nt_id task)
                     | Err err => notification_tasks.mark_failed_and_retry (nt_id task) err
                     end in
      let! rest := process_tasks net key tasks in
      mret (o.1 ++ rest)
  end.

(** One round of [notification_retry_loop]. *)
Definition retry_round (net : Net) (key : option string) : M (list Sent) :=
  let! r := mtry (notification_tasks.claim_pending 10) in
  match r with
  | Ok tasks => process_tasks net key tasks
  | Err _ => mret []
  end.
End dispatch.
