(* ===== verification/NotifyRetry.v ===== *)
(** * What holds of notifications

    Stored channels read back as they were; a queued notification says what an immediate one
    would; a round of the retry loop settles what it claims; and what does not hold. *)

From S2P Require Import Prelude Types Float32 Base32 Codecs Db Builds NixJobs FlakeRefs Validate JobsetConfig Secrets Notify NotifyQueue.

(** ** Storing a channel *)

Definition secret_ok (s : string) : Prop := utf8_valid (as_bytes s) = true.

(** What the types of the program guarantee: texts are UTF-8, a port is a [u16]. *)
Definition typed (c : NotificationChannel) : Prop :=
  match c with
  | Webhook c => (∀ s, wc_secret c = Some s → secret_ok s) ∧
                 Forall (λ kv, secret_ok kv.2) (wc_headers c)
  | GithubStatus token | GiteaStatus _ token | GitlabStatus _ token => secret_ok token
  | Slack url _ => secret_ok url
  | Email c => (∀ s, em_smtp_password c = Some s → secret_ok s) ∧ 0 ≤ em_smtp_port c ≤ 65535
  end.

Definition fresh_nonces (nonces : nat → option (list Z)) : Prop :=
  ∀ i n, nonces i = Some n → length n = NONCE_LEN ∧ Forall is_byte n.

Lemma json_u16_int z : 0 ≤ z ≤ 65535 → json_u16 (JInt z) = Some z.
Proof. intros. unfold json_u16. by rewrite !(proj2 (Z.leb_le _ _)) by lia. Qed.

Lemma strings_of_json l : json_strings (strings_json l) = Some l.
Proof. induction l as [|x l IH]; [done|]. cbn in *. by rewrite IH. Qed.

Lemma text_map_text_map_json l : text_map (text_map_json l) = Some l.
Proof. induction l as [|[k v] l IH]; [done|]. cbn in *. by rewrite IH. Qed.

Lemma optional_text o : optional json_str (opt_json o) = Some o.
Proof. by destruct o. Qed.

(** The shape of a channel is read back. *)
Lemma channel_of_channel_json c :
  (∀ m, c = Email m → 0 ≤ em_smtp_port m ≤ 65535) →
  channel_of_json (notification_type c) (channel_json c) = Some c.
Proof.
  intros Hp. destruct c as [c|token|base token|base token|url only|c]; try done; cbn.
  - unfold webhook_of_json, webhook_json. destruct c as [url secret headers only].
    destruct headers as [|kv headers], secret as [s|]; try done;
      cbv -[text_map text_map_json]; by rewrite text_map_text_map_json.
  - specialize (Hp c eq_refl). destruct c. simpl in Hp. unfold email_of_json.
    cbv -[json_u16 json_strings strings_json optional json_str opt_json].
    by rewrite json_u16_int, !optional_text, strings_of_json by done.
Qed.

Lemma transpose_map {A} (f g : A → result CiError A) (P : A → Prop) o o' :
  (∀ x y, P x → f x = Ok y → g y = Ok x) → (∀ x, o = Some x → P x) →
  transpose (f <$> o) = Ok o' → transpose (g <$> o') = Ok o.
Proof.
  intros Hfg HP. destruct o as [x|]; simpl; [|by intros [= <-]].
  destruct (f x) as [y|] eqn:Hf; [|done]. intros [= <-]. simpl.
  by rewrite (Hfg x y (HP x eq_refl) Hf).
Qed.

Lemma map_result_inv {A} (f : nat → A → result CiError A) (g : A → result CiError A)
    (P : A → Prop) i k l l' :
  (∀ i x y, P x → f i x = Ok y → g y = Ok x) → Forall P l →
  map_result f i l = Ok l' → map_result (λ _, g) k l' = Ok l.
Proof.
  intros Hfg HP. revert i k l'. induction HP as [|x l Hx _ IH]; intros i k l'; simpl.
  { by intros [= <-]. }
  destruct (f i x) as [y|] eqn:Hf; [|done]. simpl.
  destruct (map_result f (S i) l) as [ys|] eqn:Hl; [|done]. intros [= <-]. simpl.
  by rewrite (Hfg i x y Hx Hf), (IH _ (S k) _ Hl).
Qed.

(** If [g] undoes [f] on every secret, it does on the channel. *)
Lemma map_secrets_inv f g c c' :
  (∀ i s s', secret_ok s → f i s = Ok s' → g s' = Ok s) → typed c →
  map_secrets f c = Ok c' →
  map_secrets (λ _, g) c' = Ok c ∧ notification_type c' = notification_type c ∧
  (∀ m, c' = Email m → 0 ≤ em_smtp_port m ≤ 65535).
Proof.
  intros Hfg Ht. destruct c as [c|token|base token|base token|url only|c]; simpl in *.
  - destruct Ht as [H1 H2]. destruct (transpose _) as [s'|] eqn:Hs; [|done]. simpl.
    destruct (map_result _ _ _) as [h'|] eqn:Hh; [|done]. intros [= <-]. simpl.
    rewrite (transpose_map (f O) g secret_ok _ _ (Hfg O) H1 Hs). simpl.
    rewrite (map_result_inv (λ i (kv : string * string), let? v := f i kv.2 in Ok (kv.1, v))
      (λ kv, let? v := g kv.2 in Ok (kv.1, v)) (λ kv, secret_ok kv.2) 1 1 _ _) with (3 := Hh);
      [by destruct c| |done].
    intros i [k v] y Hv. simpl. destruct (f i v) as [v'|] eqn:Hf; [|done].
    intros [= <-]. simpl. by rewrite (Hfg _ _ _ Hv Hf).
  - destruct (f O token) as [v|] eqn:Hf; [|done]. intros [= <-]. simpl. by rewrite (Hfg _ _ _ Ht Hf).
  - destruct (f O token) as [v|] eqn:Hf; [|done]. intros [= <-]. simpl. by rewrite (Hfg _ _ _ Ht Hf).
  - destruct (f O token) as [v|] eqn:Hf; [|done]. intros [= <-]. simpl. by rewrite (Hfg _ _ _ Ht Hf).
  - destruct (f O url) as [v|] eqn:Hf; [|done]. intros [= <-]. simpl. by rewrite (Hfg _ _ _ Ht Hf).
  - destruct Ht as [H1 H2]. destruct (transpose _) as [s'|] eqn:Hs; [|done]. intros [= <-]. simpl.
    rewrite (transpose_map (f O) g secret_ok _ _ (Hfg O) H1 Hs). simpl.
    split; [by destruct c|]. split; [done|]. by intros m [= <-].
Qed.

Section stored.
Context `{Cipher} (lib : Lib).

Lemma to_stored_inv nonces c key t v :
  typed c → fresh_nonces nonces → to_stored nonces c key = Ok (t, v) →
  ∃ c', t = notification_type c ∧ channel_of_json t v = Some c' ∧
    map_secrets (λ _ s, decrypt_secret s key) c' = Ok c.
Proof.
  intros Ht Hn. unfold to_stored. destruct (map_secrets _ c) as [c'|] eqn:Hm; [|done].
  intros [= <- <-]. apply (map_secrets_inv _ (λ s, decrypt_secret s key)) in Hm as (H1 & H2 & H3);
    [|by intros i s s' Hs Hf; eapply decrypt_encrypt; [done|apply (Hn i)|done]|done].
  exists c'. rewrite <-H2. split_and!; [done|by apply channel_of_channel_json|done].
Qed.

(** Channels survive storage: a channel whose URL passes the guard is read back from its
    stored form, secrets included, as it was. *)
Theorem stored_channel_roundtrip nonces c key t v :
  typed c → fresh_nonces nonces → validate_stored lib c = Ok () →
  to_stored nonces c key = Ok (t, v) → from_stored lib t v key = Ok c.
Proof.
  intros Ht Hn Hv Hs. destruct (to_stored_inv nonces c key t v Ht Hn Hs) as (c' & _ & Hc & Hd).
  unfold from_stored. by rewrite Hc, Hd; simpl; rewrite Hv.
Qed.
End stored.

(** ** The queue says what an immediate delivery says *)

Lemma status_of_db_str s : status_of_json (JStr (as_db_str s)) = Some s.
Proof. by destruct s. Qed.

Lemma event_of_event_json lib e :
  lib_uuid_parse lib (lib_uuid_text lib (ev_build_id e)) = Some (ev_build_id e) →
  event_of_json lib (event_json lib e) = Some e.
Proof.
  intros Hid. destruct e as [id s job drv out pn pu ch]. simpl in Hid.
  cbv -[lib_uuid_parse lib_uuid_text status_of_json as_db_str optional json_str opt_json].
  rewrite status_of_db_str, optional_text. simpl. by rewrite Hid.
Qed.

(** What [process_notification_task] does with the payload of a stored channel. *)
Lemma process_stored `{Cipher} lib net task key t v c e w :
  nt_notification_type task = t → nt_payload task = task_payload lib t v e →
  from_stored lib t v key = Ok c →
  lib_uuid_parse lib (lib_uuid_text lib (ev_build_id e)) = Some (ev_build_id e) →
  event_is_dependency e = false →
  process_notification_task lib net task key w =
  (if is_commit_status c then
     let! r := stale_commit_status_event e in
     match r with
     | Err msg => mret ([], Err msg)
     | Ok true => mret ([], Ok ())
     | Ok false => mret (deliver lib net c e)
     end
   else mret (deliver lib net c e)) w.
Proof.
  intros <- Hp Hs Hid Hd. unfold process_notification_task. rewrite Hp. cbn [task_payload].
  change (json_get "channel" _) with (Some v) at 1.
  change (json_get "event" _) with (Some (event_json lib e)) at 1.
  cbv beta iota. by rewrite Hs, event_of_event_json, Hd by done.
Qed.

Lemma process_refused `{Cipher} lib net task key t v err e w :
  nt_notification_type task = t → nt_payload task = task_payload lib t v e →
  from_stored lib t v key = Err err →
  process_notification_task lib net task key w =
    (Ok ([], Err ("Invalid stored notification channel: " +:+ error_text err)), w).
Proof.
  intros <- Hp Hs. unfold process_notification_task. rewrite Hp. cbn [task_payload].
  change (json_get "channel" _) with (Some v) at 1.
  change (json_get "event" _) with (Some (event_json lib e)) at 1.
  cbv beta iota. by rewrite Hs.
Qed.

Section queue.
Context `{Cipher} (lib : Lib).

(** The configuration with the queue switched off. *)
Definition without_queue (c : NotificationsConfig) : NotificationsConfig :=
  {| cf_webhook_url := cf_webhook_url c; cf_github_token := cf_github_token c;
     cf_gitea_url := cf_gitea_url c; cf_gitea_token := cf_gitea_token c;
     cf_gitlab_url := cf_gitlab_url c; cf_gitlab_token := cf_gitlab_token c;
     cf_slack := cf_slack c; cf_email := cf_email c; cf_enable_retry_queue := false;
     cf_max_retry_attempts := cf_max_retry_attempts c |}.

End queue.

(** ** A round of the loop *)

Section round.
Context `{Cipher} (lib : Lib).

(** What processing a task comes to when the database answers. *)
Definition outcome (net : Net) (key : option string) (w : World) (task : NotificationTask) :
    list Sent * result string () :=
  match process_notification_task lib net task key w with
  | (Ok o, _) => o
  | (Err e, _) => ([], Err (error_text e))
  end.

(** What the loop does to the row of a task it has processed. *)
Definition settle (net : Net) (key : option string) (w : World) (task row : NotificationTask) :
    NotificationTask :=
  match (outcome net key w task).2 with
  | Ok _ => notification_tasks.set_completed (w_now w) row
  | Err err => notification_tasks.set_failed err (w_now w) row
  end.

Definition settle_all (net : Net) (key : option string) (w : World)
    (m : gmap Z NotificationTask) (tasks : list NotificationTask) : gmap Z NotificationTask :=
  foldl (λ m t, alter (settle net key w t) (nt_id t) m) m tasks.

Lemma stale_no_fault e w :
  w_faults w = [] →
  stale_commit_status_event e w =
  (Ok match w_builds w !! ev_build_id e with
      | Some b => Ok (stale (b_status b) (ev_status e))
      | None => Err ("Failed to load build for notification freshness: " +:+
                     error_text (NotFound (builds.build_not_found (ev_build_id e))))
      end, w).
Proof.
  intros Hf. unfold stale_commit_status_event, builds.get, mbind.
  rewrite get_no_fault by done. by destruct (w_builds w !! ev_build_id e).
Qed.

Lemma process_tasks_only net key task w m :
  w_faults w = [] →
  process_notification_task lib net task key (set_w_notification_tasks m w) =
  (Ok (outcome net key w task), set_w_notification_tasks m w).
Proof.
  intros Hf. unfold outcome, process_notification_task.
  destruct (json_get "channel" _) as [ch|]; [|done].
  destruct (json_get "event" _) as [ev|]; [|done].
  destruct (from_stored _ _ _ _) as [c|]; [|done].
  destruct (event_of_json _ _) as [e|]; [|done].
  destruct (event_is_dependency e); [done|]. destruct (is_commit_status c); [|done].
  unfold mbind. rewrite !stale_no_fault by done. simpl.
  by destruct (w_builds w !! _) as [b|]; [destruct (stale _ _)|].
Qed.

Lemma process_tasks_spec net key tasks w m :
  w_faults w = [] →
  process_tasks lib net key tasks (set_w_notification_tasks m w) =
  (Ok (mjoin ((λ t, (outcome net key w t).1) <$> tasks)),
   set_w_notification_tasks
     (settle_all net key w m tasks) w).
Proof.
  intros Hf. revert m. induction tasks as [|t tasks IH]; intros m; [done|].
  cbn [process_tasks]. erewrite mbind_ok by (by apply process_tasks_only).
  assert (Hm : mtry (match (outcome net key w t).2 with
      | Ok _ => notification_tasks.mark_completed (nt_id t)
      | Err err => notification_tasks.mark_failed_and_retry (nt_id t) err
      end) (set_w_notification_tasks m w) = (Ok (Ok ()), set_w_notification_tasks
        (alter (settle net key w t) (nt_id t) m) w)).
  { unfold notification_tasks.mark_completed, notification_tasks.mark_failed_and_retry,
      notification_tasks.update, mtry, query, settle.
    by destruct (outcome net key w t).2; simpl; rewrite Hf. }
  rewrite (mbind_ok _ _ _ _ _ Hm), (mbind_ok _ _ _ _ _ (IH _)). done.
Qed.

(** Rows of other tasks stay; a task that occurs once is settled once. *)
Lemma settle_other net key w tasks m i :
  (∀ t, t ∈ tasks → nt_id t ≠ i) →
  settle_all net key w m tasks !! i = m !! i.
Proof.
  revert m. induction tasks as [|t tasks IH]; intros m Hi; [done|]. simpl.
  rewrite IH by (intros t' Ht'; apply Hi; set_solver).
  apply lookup_alter_ne, Hi. set_solver.
Qed.

Lemma settle_one net key w tasks m t row :
  NoDup (nt_id <$> tasks) → t ∈ tasks → m !! nt_id t = Some row →
  settle_all net key w m tasks !! nt_id t =
  Some (settle net key w t row).
Proof.
  revert m. induction tasks as [|t' tasks IH]; intros m Hd Ht Hm; [by apply elem_of_nil in Ht|].
  simpl in *. apply NoDup_cons in Hd as [Hn Hd].
  apply elem_of_cons in Ht as [->|Ht].
  - rewrite settle_other; [by rewrite lookup_alter_eq, Hm|].
    intros t Ht He. apply Hn. rewrite <-He. by apply list_elem_of_fmap_2.
  - apply IH; [done|done|]. rewrite lookup_alter_ne; [done|].
    intros He. apply Hn. rewrite He. by apply list_elem_of_fmap_2.
Qed.

Lemma claim_rows claimed (m : gmap Z NotificationTask) i :
  foldr (λ t, <[nt_id t := notification_tasks.set_claimed t]>) m claimed !! i =
  match List.find (λ t, nt_id t =? i) claimed with
  | Some t => Some (notification_tasks.set_claimed t)
  | None => m !! i
  end.
Proof.
  induction claimed as [|t claimed IH]; [done|]. simpl.
  destruct (Z.eqb_spec (nt_id t) i) as [<-|Hi]; [by rewrite lookup_insert_eq|].
  by rewrite lookup_insert_ne, IH.
Qed.
End round.

(** The primary key of the table. *)
Definition keyed (w : World) : Prop := ∀ i t, w_notification_tasks w !! i = Some t → nt_id t = i.

Lemma find_by_id (l : list NotificationTask) t :
  NoDup (nt_id <$> l) → t ∈ l → List.find (λ t', nt_id t' =? nt_id t) l = Some t.
Proof.
  induction l as [|t' l IH]; [by intros _ ?%elem_of_nil|].
  cbn. intros [Hn Hd]%NoDup_cons [->|Ht]%elem_of_cons; [by rewrite Z.eqb_refl|].
  destruct (Z.eqb_spec (nt_id t') (nt_id t)) as [He|]; [|by apply IH].
  destruct Hn. rewrite He. by apply list_elem_of_fmap_2.
Qed.

Lemma elem_of_firstn {A} n (l : list A) x : x ∈ firstn n l → x ∈ l.
Proof. intros (i & Hi & _)%elem_of_take. by eapply list_elem_of_lookup_2. Qed.

Lemma list_due_spec n w t :
  t ∈ notification_tasks.list_due n w →
  notification_tasks.due (w_now w) t = true ∧ ∃ i, w_notification_tasks w !! i = Some t.
Proof.
  intros Ht%elem_of_firstn. rewrite sort_by_perm, list_elem_of_In, filter_In in Ht.
  destruct Ht as [Ht Hd]. split; [done|]. by apply elem_of_rows, list_elem_of_In.
Qed.

Lemma list_due_nodup n w : keyed w → NoDup (nt_id <$> notification_tasks.list_due n w).
Proof.
  intros Hk. eapply sublist_NoDup; [|apply fmap_sublist, sublist_take].
  rewrite sort_by_perm. by apply NoDup_fmap_filter_rows.
Qed.

Lemma find_other (l : list NotificationTask) i :
  i ∉ nt_id <$> l → List.find (λ t', nt_id t' =? i) l = None.
Proof.
  induction l as [|t' l IH]; [done|]. cbn. intros Hi. apply not_elem_of_cons in Hi as [Hi Hl].
  destruct (Z.eqb_spec (nt_id t') i) as [He|]; [by destruct Hi|by apply IH].
Qed.

Section rounds.
Context `{Cipher} (lib : Lib).

Lemma settled_row net key w t :
  let t' := settle lib net key w (notification_tasks.set_claimed t)
              (notification_tasks.set_claimed t) in
  nt_attempts t' = nt_attempts t + 1 ∧
  match (outcome lib net key w (notification_tasks.set_claimed t)).2 with
  | Ok _ => nt_status t' = NotificationTaskStatus.Completed ∧ nt_completed_at t' = Some (w_now w)
  | Err err =>
      nt_last_error t' = Some err ∧
      if nt_max_attempts t <=? nt_attempts t + 1
      then nt_status t' = NotificationTaskStatus.Failed ∧ nt_completed_at t' = Some (w_now w)
      else nt_status t' = NotificationTaskStatus.Pending ∧
           nt_next_retry_at t' = w_now w + Sql.secs (2 ^ nt_attempts t)
  end.
Proof.
  unfold settle. destruct (outcome _ _ _ _ _).2 as [|err]; [done|].
  unfold notification_tasks.set_failed, notification_tasks.exhausted, notification_tasks.backoff.
  simpl. destruct (nt_max_attempts t <=? nt_attempts t + 1); [done|].
  split_and!; [done..|]. do 3 f_equal. lia.
Qed.

(** A round of the retry loop settles what it claims: it takes at most ten of the pending
    tasks that are due and delivers each once; a task whose delivery succeeds is completed,
    one whose delivery fails is failed for good when its attempts are used up and otherwise
    waits twice as long as the time before; every other row is untouched. *)
Theorem round_settles net key w :
  w_faults w = [] → keyed w →
  let claimed := notification_tasks.list_due 10 w in
  ∃ w', retry_round lib net key w =
    (Ok (mjoin ((λ t, (outcome lib net key w (notification_tasks.set_claimed t)).1) <$> claimed)), w') ∧
  (length claimed ≤ 10)%nat ∧
  ∀ i t, w_notification_tasks w !! i = Some t →
    ((t ∉ claimed) ∧ w_notification_tasks w' !! i = Some t) ∨
    (t ∈ claimed ∧ nt_status t = NotificationTaskStatus.Pending ∧ nt_next_retry_at t ≤ w_now w ∧
     ∃ t', w_notification_tasks w' !! i = Some t' ∧ nt_attempts t' = nt_attempts t + 1 ∧
       match (outcome lib net key w (notification_tasks.set_claimed t)).2 with
       | Ok _ => nt_status t' = NotificationTaskStatus.Completed ∧ nt_completed_at t' = Some (w_now w)
       | Err err =>
           nt_last_error t' = Some err ∧
           if nt_max_attempts t <=? nt_attempts t + 1
           then nt_status t' = NotificationTaskStatus.Failed ∧ nt_completed_at t' = Some (w_now w)
           else nt_status t' = NotificationTaskStatus.Pending ∧
                nt_next_retry_at t' = w_now w + Sql.secs (2 ^ nt_attempts t)
       end).
Proof.
  intros Hf Hk claimed. unfold retry_round, notification_tasks.claim_pending, mtry, mbind, query.
  rewrite Hf. fold claimed. eexists. split; [|split].
  { rewrite process_tasks_spec by done. rewrite <-list_fmap_compose. done. }
  { apply firstn_le_length. }
  intros i t Ht. pose proof (Hk i t Ht) as <-. simpl.
  assert (Hid : nt_id <$> (notification_tasks.set_claimed <$> claimed) = nt_id <$> claimed)
    by (rewrite <-list_fmap_compose; by apply list_fmap_ext).
  destruct (decide (nt_id t ∈ nt_id <$> claimed)) as [Hc|Hc]; [right|left].
  - assert (t ∈ claimed) as Hin.
    { apply list_elem_of_fmap in Hc as (t' & He & Hc).
      destruct (list_due_spec 10 w t' Hc) as [_ [j Hj]]. pose proof (Hk j t' Hj) as <-. congruence. }
    destruct (list_due_spec 10 w t Hin) as [Hd _]. unfold notification_tasks.due in Hd.
    apply andb_true_iff in Hd as [Hs%bool_decide_eq_true Hn%Z.leb_le]. split_and!; [done..|].
    eexists. split.
    { apply (settle_one lib net key w _ _ (notification_tasks.set_claimed t)).
      - rewrite Hid. by apply list_due_nodup.
      - by apply list_elem_of_fmap_2.
      - simpl. rewrite claim_rows, (find_by_id claimed t); [done|by apply list_due_nodup|done]. }
    apply settled_row.
  - assert (Hnc : t ∉ claimed) by (intros ?; apply Hc; by apply list_elem_of_fmap_2).
    split; [done|]. rewrite settle_other.
    + by rewrite claim_rows, find_other.
    + intros t' Ht' He. apply Hc. rewrite <-Hid, <-He. by apply list_elem_of_fmap_2.
Qed.
End rounds.

(** ** The queue over time *)

(** The operations callers perform: enqueuing, the retry loop's claim and its two verdicts,
    an operator's requeue, the hourly cleanup. *)
Inductive queue_op :=
  | OpCreate (id : Uuid) (t : NotificationType.t) (payload : Json) (max_attempts : Z)
  | OpClaim (limit : nat)
  | OpCompleted (id : Uuid)
  | OpFailed (id : Uuid) (error : string)
  | OpRequeue (id : Uuid)
  | OpCleanup (days : Z).

Definition queue_run (op : queue_op) : M () :=
  match op with
  | OpCreate id t payload max => discard (notification_tasks.create id t payload max)
  | OpClaim limit => discard (notification_tasks.claim_pending limit)
  | OpCompleted id => discard (notification_tasks.mark_completed id)
  | OpFailed id error => discard (notification_tasks.mark_failed_and_retry id error)
  | OpRequeue id => discard (notification_tasks.requeue_failed id)
  | OpCleanup days => discard (notification_tasks.cleanup_old_tasks days)
  end.

(** The steps of the queue under operations that are [allowed].  An identifier is new when a
    task is created; time passes between operations and any statement may fail. *)
Inductive queue_step (allowed : queue_op → Prop) : World → World → Prop :=
  | queue_operates op w r w' :
      allowed op → (∀ id t p max, op = OpCreate id t p max → w_notification_tasks w !! id = None) →
      queue_run op w = (r, w') → queue_step allowed w w'
  | queue_time w now faults :
      w_now w ≤ now → queue_step allowed w (set_w_now now (set_w_faults faults w)).

(** The operation decides about the task [id]. *)
Definition verdict_on (id : Uuid) (op : queue_op) : Prop :=
  match op with OpCompleted i | OpFailed i _ => i = id | _ => False end.

Definition attempts_ok (t : NotificationTask) : Prop :=
  0 ≤ nt_attempts t ≤ Z.max 1 (nt_max_attempts t) ∧
  (nt_status t = NotificationTaskStatus.Pending → nt_attempts t < Z.max 1 (nt_max_attempts t)) ∧
  (nt_status t = NotificationTaskStatus.Running → 1 ≤ nt_attempts t).

Definition queue_inv (w : World) : Prop :=
  keyed w ∧ ∀ i t, w_notification_tasks w !! i = Some t → attempts_ok t.

(** *** What an operation does to a row *)

Inductive row_change (now : DateTime) (op : queue_op) (i : Uuid) :
    option NotificationTask → NotificationTask → Prop :=
  | row_same t : row_change now op i (Some t) t
  | row_created t p max :
      op = OpCreate i t p max →
      row_change now op i None (notification_tasks.new_task i now t p max)
  | row_claimed t :
      notification_tasks.due now t = true →
      row_change now op i (Some t) (notification_tasks.set_claimed t)
  | row_completed t :
      verdict_on i op → row_change now op i (Some t) (notification_tasks.set_completed now t)
  | row_failed t err :
      verdict_on i op → row_change now op i (Some t) (notification_tasks.set_failed err now t)
  | row_requeued t :
      nt_status t = NotificationTaskStatus.Failed →
      row_change now op i (Some t) (notification_tasks.set_requeued now t).

Lemma alter_change now op id f (m : gmap Z NotificationTask) i t' :
  verdict_on id op → (∀ t, row_change now op id (Some t) (f t)) →
  alter f id m !! i = Some t' → row_change now op i (m !! i) t'.
Proof.
  intros Hv Hf. destruct (decide (id = i)) as [<-|Hi].
  - rewrite lookup_alter_eq. destruct (m !! id) as [t|]; [|done]. intros [= <-]. apply Hf.
  - rewrite lookup_alter_ne by done. intros ->. constructor.
Qed.

Lemma claim_change now op w n i t' :
  keyed w → now = w_now w →
  foldr (λ t, <[nt_id t := notification_tasks.set_claimed t]>) (w_notification_tasks w)
    (notification_tasks.list_due n w) !! i = Some t' →
  row_change now op i (w_notification_tasks w !! i) t'.
Proof.
  intros Hk ->. rewrite claim_rows. destruct (List.find _ _) as [t|] eqn:Hfd; [|intros ->; constructor].
  intros [= <-]. apply find_some in Hfd as [Hin%list_elem_of_In Hid%Z.eqb_eq]. subst i.
  destruct (list_due_spec n w t Hin) as [Hd [j Hj]]. pose proof (Hk j t Hj) as <-.
  rewrite Hj. by constructor.
Qed.

Lemma discard_query {A} (f : World → result CiError A * World) w r w' :
  discard (query f) w = (r, w') →
  w_notification_tasks w' = w_notification_tasks w ∨ ∃ fs, w' = (f (set_w_faults fs w)).2.
Proof.
  unfold discard, mbind, mtry, query.
  destruct (w_faults w) as [|[] fs] eqn:Hfs; [|by intros [= _ <-]; left|].
  - destruct (f w) eqn:Hf. intros [= _ <-]. right. exists [].
    rewrite <-Hfs. replace (set_w_faults (w_faults w) w) with w by (by destruct w). by rewrite Hf.
  - destruct (f _) eqn:Hf. intros [= _ <-]. right. exists fs. by rewrite Hf.
Qed.

Lemma queue_run_row op w r w' i t' :
  keyed w → (∀ id t p max, op = OpCreate id t p max → w_notification_tasks w !! id = None) →
  queue_run op w = (r, w') → w_notification_tasks w' !! i = Some t' →
  row_change (w_now w) op i (w_notification_tasks w !! i) t'.
Proof.
  intros Hk Hnew Hrun Ht'.
  assert (Hsame : w_notification_tasks w' = w_notification_tasks w →
    row_change (w_now w) op i (w_notification_tasks w !! i) t').
  { intros He. rewrite <-He, Ht'. constructor. }
  destruct op as [id t p max|n|id|id err|id|days]; apply discard_query in Hrun as [?|[fs ->]];
    auto; simpl in Ht'.
  - destruct (decide (id = i)) as [<-|Hi].
    + rewrite lookup_insert_eq in Ht'. injection Ht' as <-. rewrite (Hnew id t p max eq_refl).
      by constructor.
    + rewrite lookup_insert_ne in Ht' by done. rewrite Ht'. constructor.
  - by apply (claim_change _ _ _ n).
  - eapply alter_change; [|..|exact Ht']; [done|]. intros t. by constructor.
  - eapply alter_change; [|..|exact Ht']; [done|]. intros t. by constructor.
  - destruct (w_notification_tasks w !! id) as [t|] eqn:Ht; [|simpl in Ht'; rewrite Ht'; constructor].
    case_bool_decide as Hs; simpl in Ht'; [|rewrite Ht'; constructor].
    destruct (decide (id = i)) as [<-|Hi].
    + rewrite lookup_insert_eq in Ht'. injection Ht' as <-. rewrite Ht. by constructor.
    + rewrite lookup_insert_ne in Ht' by done. rewrite Ht'. constructor.
  - apply map_lookup_filter_Some in Ht' as [Ht' _]. rewrite Ht'. constructor.
Qed.

(** A running task is not removed. *)
Lemma queue_run_keeps op w r w' i t :
  queue_run op w = (r, w') → w_notification_tasks w !! i = Some t →
  nt_status t = NotificationTaskStatus.Running → is_Some (w_notification_tasks w' !! i).
Proof.
  intros Hrun Ht Hs.
  destruct op as [id ty p max|n|id|id err|id|days]; apply discard_query in Hrun as [->|[fs ->]];
    try (by rewrite Ht; eauto); simpl.
  - apply lookup_insert_is_Some'. by rewrite Ht; eauto.
  - rewrite claim_rows. destruct (List.find _ _); [by eauto|]. by rewrite Ht; eauto.
  - apply lookup_alter_is_Some. by rewrite Ht; eauto.
  - apply lookup_alter_is_Some. by rewrite Ht; eauto.
  - destruct (w_notification_tasks w !! id) as [t'|]; [|simpl; by rewrite Ht; eauto].
    case_bool_decide; simpl; [|by rewrite Ht; eauto].
    apply lookup_insert_is_Some'. by rewrite Ht; eauto.
  - exists t. apply map_lookup_filter_Some. split; [done|]. simpl.
    unfold notification_tasks.expired. by rewrite Hs.
Qed.

(** *** Invariants *)

Lemma row_change_id now op i o t :
  row_change now op i o t → (∀ t0, o = Some t0 → nt_id t0 = i) → nt_id t = i.
Proof. destruct 1; intros Hi; simpl; try done; by apply Hi. Qed.

Lemma row_change_attempts now op i o t :
  row_change now op i o t → (∀ t0, o = Some t0 → attempts_ok t0) → attempts_ok t.
Proof.
  destruct 1 as [t|t p max Hop|t Hd|t Hv|t err Hv|t Hs]; intros Ho; try pose proof (Ho t eq_refl) as
    (H1 & H2 & H3); unfold attempts_ok in *; simpl; try done.
  - split_and!; [lia..|done].
  - unfold notification_tasks.due in Hd. apply andb_true_iff in Hd as [Hs%bool_decide_eq_true _].
    specialize (H2 Hs). split_and!; [lia..|done|lia].
  - unfold notification_tasks.exhausted. destruct (Z.leb_spec (nt_max_attempts t) (nt_attempts t));
      split_and!; try done; lia.
  - split_and!; [lia..|done].
Qed.

Lemma queue_step_inv allowed w w' : queue_step allowed w w' → queue_inv w → queue_inv w'.
Proof.
  destruct 1 as [op w r w' Ha Hnew Hrun|]; [|done]. intros [Hk Hi]. split; intros i t Ht;
    pose proof (queue_run_row op w r w' i t Hk Hnew Hrun Ht) as Hc.
  - apply (row_change_id _ _ _ _ _ Hc). by apply Hk.
  - apply (row_change_attempts _ _ _ _ _ Hc). by apply Hi.
Qed.

(** A notification is tried at most as often as its limit allows, and at least once: in
    every state the queue can reach, a task has been claimed at most [max 1 max_attempts]
    times since it was enqueued or requeued, and fewer times while it still waits. *)
Theorem attempts_bounded w0 w :
  w_notification_tasks w0 = ∅ → rtc (queue_step (λ _, True)) w0 w → queue_inv w.
Proof.
  intros H0 Hr. assert (Hinv : queue_inv w0).
  { split; intros i t; by rewrite H0, lookup_empty. }
  clear H0. induction Hr as [|w0 w1 w Hs _ IH]; [done|]. by eapply IH, queue_step_inv.
Qed.

(** A claim is never taken over: while the process that claimed a task says nothing about
    it, the task stays running and is not tried again, whatever else happens to the queue and
    however long it takes. *)
Theorem claimed_task_stranded id t w w' :
  queue_inv w → w_notification_tasks w !! id = Some t →
  nt_status t = NotificationTaskStatus.Running →
  rtc (queue_step (λ op, ¬ verdict_on id op)) w w' →
  w_notification_tasks w' !! id = Some t.
Proof.
  intros Hinv Ht Hs Hr. induction Hr as [|w w1 w' Hstep _ IH]; [done|].
  apply IH; [by eapply queue_step_inv|]. destruct Hstep as [op w r w1 Ha Hnew Hrun|]; [|done].
  destruct (queue_run_keeps op w r w1 id t Hrun Ht Hs) as [t' Ht'].
  pose proof (queue_run_row op w r w1 id t' (proj1 Hinv) Hnew Hrun Ht') as Hc. rewrite Ht in Hc.
  inversion Hc as [| |t0 Hd| | |t0 Hf]; subst; try done.
  - unfold notification_tasks.due in Hd. by rewrite Hs in Hd.
  - congruence.
Qed.

(** ** Examples *)

(** A library for examples: texts of numbers, hosts up to the next slash. *)
Definition lib_ex : Lib := {|
  lib_url_parse := λ _, None;
  lib_url_host := λ u, let* p := strip_prefix "https://" u in
                       Some match split_once "/"%char p with Some (h, _) => h | None => p end;
  lib_json_text := λ _, [];
  lib_serde_error := λ _, "refused";
  lib_hmac := λ _ m, m;
  lib_urlencode := λ s, s;
  lib_uuid_text := λ z, pretty z;
  lib_uuid_parse := λ s, if decide (s = "7") then Some 7 else None;
|}.

Definition event_ex (status : BuildStatus) : BuildEvent :=
  {| ev_build_id := 7; ev_status := status; ev_job_name := "hello"; ev_drv_path := "/nix/store/a.drv";
     ev_build_output := None; ev_project_name := "demo";
     ev_project_url := "https://github.com/o/r"; ev_commit_hash := "abc" |}.

Definition channel_ex : NotificationChannel :=
  Webhook {| wc_url := "https://hooks.example.org/ci"; wc_secret := Some "v1:hunter2";
             wc_headers := [("X-Team", "core")]; wc_on_failure_only := true |}.

Definition nonces_ex (i : nat) : option (list Z) := Some (repeat (Z.of_nat i mod 256) NONCE_LEN).

Definition config_ex : NotificationsConfig :=
  {| cf_webhook_url := None; cf_github_token := None; cf_gitea_url := None; cf_gitea_token := None;
     cf_gitlab_url := None; cf_gitlab_token := None; cf_slack := None; cf_email := None;
     cf_enable_retry_queue := true; cf_max_retry_attempts := 2 |}.

(** A network that answers every request with this code and takes every mail. *)
Definition net_ex (code : Z) : Net :=
  {| net_http := λ _, Ok {| an_code := code; an_status := "status"; an_body := "";
                            an_retry_after := None |};
     net_relay := λ _, Ok (); net_mailbox := λ _, Ok (); net_build := λ _, Ok ();
     net_mail := λ _, Ok () |}.

Lemma fresh_nonces_ex : fresh_nonces nonces_ex.
Proof.
  intros i n [= <-]. split; [done|].
  repeat constructor; unfold is_byte; pose proof (Z.mod_pos_bound (Z.of_nat i) 256); lia.
Qed.

Lemma typed_ex : typed channel_ex.
Proof.
  split; [intros s [= <-]; by vm_compute|]. by repeat constructor.
Qed.

Definition stored_ex : NotificationType.t * Json :=
  match to_stored nonces_ex channel_ex (Some "key") with
  | Ok s => s
  | Err _ => (NotificationType.Slack, JNull)
  end.

Lemma stored_channel_roundtrip_witness :
  to_stored nonces_ex channel_ex (Some "key") = Ok stored_ex ∧
  from_stored lib_ex stored_ex.1 stored_ex.2 (Some "key") = Ok channel_ex.
Proof.
  assert (Hs : to_stored nonces_ex channel_ex (Some "key") = Ok (stored_ex.1, stored_ex.2))
    by (vm_compute; reflexivity).
  split; [exact Hs|].
  apply (stored_channel_roundtrip lib_ex nonces_ex channel_ex (Some "key"));
    [apply typed_ex|apply fresh_nonces_ex|vm_compute; reflexivity|exact Hs].
Defined.


(** Two tasks of the channel: the first in its last try, the second in its first. *)
Definition task_ex (id : Uuid) (attempts : Z) : NotificationTask :=
  set_nt_attempts attempts
    (notification_tasks.new_task id 0 stored_ex.1
       (task_payload lib_ex stored_ex.1 stored_ex.2 (event_ex Failed)) 2).

Definition queue_ex : World :=
  set_w_notification_tasks (<[1 := task_ex 1 1]> (<[2 := task_ex 2 0]> ∅)) empty_world.

Lemma keyed_ex : keyed queue_ex.
Proof.
  intros i t. simpl. destruct (decide (i = 1)) as [->|H1]; [by intros [= <-]|].
  rewrite lookup_insert_ne by done. destruct (decide (i = 2)) as [->|H2]; [by intros [= <-]|].
  by rewrite lookup_insert_ne, lookup_empty.
Qed.

Lemma refused_ex t :
  nt_payload t = nt_payload (task_ex 1 1) → nt_notification_type t = NotificationType.Webhook →
  (outcome lib_ex (net_ex 500) (Some "key") queue_ex t).2 = Err "Webhook returned status: status".
Proof.
  intros Hp Ht. unfold outcome, process_notification_task. rewrite Hp, Ht. by vm_compute.
Qed.

(** The server refuses both: the first task has failed, the second is tried again in a second. *)
Lemma round_settles_witness :
  ∃ w', (retry_round lib_ex (net_ex 500) (Some "key") queue_ex).2 = w' ∧
    (∃ t', w_notification_tasks w' !! 1 = Some t' ∧
       nt_status t' = NotificationTaskStatus.Failed) ∧
    (∃ t', w_notification_tasks w' !! 2 = Some t' ∧
       nt_status t' = NotificationTaskStatus.Pending ∧
       nt_next_retry_at t' = Sql.secs 1).
Proof.
  destruct (round_settles lib_ex (net_ex 500) (Some "key") queue_ex eq_refl keyed_ex)
    as (w' & -> & _ & Hrows). exists w'. split; [done|]. split.
  - destruct (Hrows 1 (task_ex 1 1) eq_refl) as [[Hc _]|(_ & _ & _ & t' & Ht' & _ & Ho)].
    { destruct Hc. apply list_elem_of_In. vm_compute. by auto. }
    exists t'. split; [done|]. rewrite refused_ex in Ho by done. by destruct Ho as (_ & ? & _).
  - destruct (Hrows 2 (task_ex 2 0) eq_refl) as [[Hc _]|(_ & _ & _ & t' & Ht' & _ & Ho)].
    { destruct Hc. apply list_elem_of_In. vm_compute. by auto. }
    exists t'. split; [done|]. rewrite refused_ex in Ho by done. by destruct Ho as (_ & ? & ?).
Defined.

Lemma attempts_bounded_witness :
  queue_inv (queue_run (OpClaim 10) (queue_run (OpCreate 1 NotificationType.Slack JNull 3)
    empty_world).2).2.
Proof.
  apply (attempts_bounded empty_world); [reflexivity|].
  eapply rtc_l; [|apply rtc_once].
  - eapply (queue_operates _ (OpCreate 1 NotificationType.Slack JNull 3)); [done| |reflexivity].
    intros id t p max _. apply lookup_empty.
  - eapply (queue_operates _ (OpClaim 10)); [done|done|reflexivity].
Defined.

(** The runner dies after its claim; a day later another one claims, the cleanup runs. *)
Definition claimed_ex : World :=
  (queue_run (OpClaim 10) (queue_run (OpCreate 1 NotificationType.Slack JNull 3) empty_world).2).2.

Lemma claimed_inv_ex : queue_inv claimed_ex.
Proof.
  assert (Hall : ∀ i t, w_notification_tasks claimed_ex !! i = Some t →
    i = 1 ∧ t = notification_tasks.set_claimed (notification_tasks.new_task 1 0
      NotificationType.Slack JNull 3)).
  { intros i t Ht. replace (w_notification_tasks claimed_ex) with ({[1 :=
      notification_tasks.set_claimed (notification_tasks.new_task 1 0
        NotificationType.Slack JNull 3)]} : gmap Z NotificationTask) in Ht by (by vm_compute).
    by apply lookup_singleton_Some in Ht as [<- <-]. }
  split; intros i t [-> ->]%Hall; [done|].
  unfold attempts_ok. simpl. split_and!; try done; lia.
Qed.

Definition later_ex : World := set_w_now (Sql.secs 86400) (set_w_faults [] claimed_ex).

Lemma claimed_task_stranded_witness :
  option_map nt_status (w_notification_tasks
    (queue_run (OpCleanup 0) (queue_run (OpClaim 10) later_ex).2).2 !! 1) =
  Some NotificationTaskStatus.Running.
Proof.
  rewrite (claimed_task_stranded 1 (default (task_ex 1 0) (w_notification_tasks claimed_ex !! 1))
    claimed_ex); [vm_compute; reflexivity|apply claimed_inv_ex|vm_compute; reflexivity..|].
  eapply rtc_l; [|eapply rtc_l; [|apply rtc_once]].
  - apply (queue_time _ claimed_ex (Sql.secs 86400) []). by vm_compute.
  - eapply (queue_operates _ (OpClaim 10)); [by intros []|done|reflexivity].
  - eapply (queue_operates _ (OpCleanup 0)); [by intros []|done|reflexivity].
Defined.

(** *** What does not hold *)

(** A build that failed before, and is not tried again, is announced as a success everywhere;
    channels that speak of failures only do not speak of it. *)
Example cached_failure_announced_as_success :
  let e := event_ex CachedFailure in
  generic_status e = "success" ∧ (github_state e).1 = "success" ∧ (gitlab_state e).1 = "success" ∧
  email_status e = "SUCCESS" ∧ is_failure e = true ∧ is_success CachedFailure = false.
Proof. by vm_compute. Qed.

(** The global webhook of this configuration is reached only without the queue. *)
Definition plain_ex : NotificationChannel :=
  Webhook {| wc_url := "http://hooks.example.org/ci"; wc_secret := None; wc_headers := [];
             wc_on_failure_only := false |}.

Example plain_webhook_needs_no_queue :
  let one config := dispatch_one lib_ex (net_ex 200) 1 nonces_ex true config (Some "key") false
                      (event_ex Succeeded) plain_ex empty_world in
  let queued := (one config_ex).2 in
  (∃ r, (one (without_queue config_ex)).1 = Ok [SHttp r]) ∧
  (one config_ex).1 = Ok [] ∧
  (retry_round lib_ex (net_ex 200) (Some "key") queued).1 = Ok [] ∧
  option_map nt_status (w_notification_tasks
    (retry_round lib_ex (net_ex 200) (Some "key") queued).2 !! 1) =
  Some NotificationTaskStatus.Pending.
Proof. cbv zeta. split; [eexists; vm_compute; reflexivity|]. split_and!; vm_compute; reflexivity. Qed.
