(* ===== verification/Users.v ===== *)
(** * Accounts, API keys and members

    The validators of accounts ([common/src/validation.rs]), and the repositories
    [repo/users.rs] with its sessions, [repo/api_keys.rs] and [repo/project_members.rs] with
    their statements.

    The password hash (Argon2) is the interface [PasswordHash].  An identifier, a salt or a
    token the program or the database draws at random is an argument.  Every update of a user
    sets [updated_at] (a trigger of migration 0003). *)

From S2P Require Import Prelude Types Float32 Base32 Codecs Db Frames Validate Secrets.

(** ** [validation.rs] *)

Definition invalid_field (field message : string) : CiError := Validation (field +:+ ": " +:+ message).

(** [^[a-zA-Z0-9_-]{3,32}$] *)
Definition USERNAME_REGEX (s : string) : bool :=
  (3 <=? str_len s) && (str_len s <=? 32) && str_all name_char s.

Definition validate_username (username : string) : result CiError () :=
  if bool_decide (username = "") then Err (invalid_field "username" "Username is required")
  else if negb (USERNAME_REGEX username) then
    Err (invalid_field "username" ("Username must be 3-32 characters and contain only letters, " +:+
           "numbers, underscores, and hyphens"))
  else Ok ().

(** [regex]: what the configured expression matches. *)
Definition validate_email (email : string) (regex : option (string → bool)) : result CiError () :=
  if bool_decide (email = "") then Err (invalid_field "email" "Email is required")
  else if 255 <? str_len email then
    Err (invalid_field "email" "Email must be 255 characters or less")
  else match regex with
       | Some re => if re email then Ok () else Err (invalid_field "email" "Invalid email format")
       | None => if existsb (char_is "@"%char) (str_chars email) then Ok ()
                 else Err (invalid_field "email" "Email must contain '@'")
       end.

Definition has_char (p : ascii → bool) (s : string) : bool := existsb p (str_chars s).

(** The characters of the text that are not ASCII consist of bytes that are not. *)
Definition validate_password (password : string) : result CiError () :=
  if str_len password <? 12 then
    Err (invalid_field "password" "Password must be at least 12 characters")
  else if negb (has_char (in_range "A" "Z") password) then
    Err (invalid_field "password" "Password must contain at least one uppercase letter")
  else if negb (has_char (in_range "a" "z") password) then
    Err (invalid_field "password" "Password must contain at least one lowercase letter")
  else if negb (has_char (in_range "0" "9") password) then
    Err (invalid_field "password" "Password must contain at least one number")
  else if negb (has_char (λ c, negb (is_ascii_alnum c)) password) then
    Err (invalid_field "password" "Password must contain at least one special character")
  else Ok ().

(** [char::is_control] of a character of the text: C0, DEL, and C1, which is two bytes. *)
Fixpoint has_control (l : list Z) : bool :=
  match l with
  | [] => false
  | b :: l => (b <? 32) || (b =? 127) ||
              match l with c :: _ => (b =? 194) && (128 <=? c) && (c <=? 159) | [] => false end ||
              has_control l
  end.

Definition validate_full_name (name : string) : result CiError () :=
  if 255 <? str_len name then
    Err (invalid_field "full_name" "Full name must be 255 characters or less")
  else if has_control (as_bytes name) then
    Err (invalid_field "full_name" "Full name cannot contain control characters")
  else Ok ().

Definition job_name_char (c : ascii) : bool :=
  name_char c || char_is "."%char c || char_is "/"%char c.

Definition validate_job_name (name : string) : result CiError () :=
  if bool_decide (name = "") then Err (invalid_field "job_name" "Job name is required")
  else if 255 <? str_len name then
    Err (invalid_field "job_name" "Job name must be 255 characters or less")
  else if negb (str_all job_name_char name) then
    Err (invalid_field "job_name" "Job name contains invalid characters")
  else Ok ().

(** The characters of a UTF-8 text, which a [VARCHAR] counts. *)
Definition char_count (s : string) : Z :=
  zlen (List.filter (λ b, negb (continuation b)) (as_bytes s)).

(** ** Passwords *)

Class PasswordHash := {
  (** Argon2 with a salt; the text of the error *)
  argon2_hash : string → string → result string string;
  (** [PasswordHash::new] *)
  argon2_parse : string → result string ();
  argon2_verify : string → string → bool;
  argon2_hash_parses salt p h : argon2_hash salt p = Ok h → argon2_parse h = Ok ();
  argon2_hash_verifies salt p h : argon2_hash salt p = Ok h → argon2_verify p h = true;
}.

Section passwords.
Context `{PasswordHash}.

Definition hash_password (salt password : string) : result CiError string :=
  match argon2_hash salt password with
  | Ok h => Ok h
  | Err e => Err (Internal ("Password hashing failed: " +:+ e))
  end.

Definition verify_password (password hash : string) : result CiError bool :=
  match argon2_parse hash with
  | Err e => Err (Internal ("Invalid password hash: " +:+ e))
  | Ok _ => Ok (argon2_verify password hash)
  end.
End passwords.

(** [opt()]: more than one row is an error. *)
Definition opt_row {A} (l : list A) : result CiError (option A) :=
  match l with [] => Ok None | [x] => Ok (Some x) | _ => Err (Database "row count") end.

(** ** [repo/users.rs] *)

Module users.

Record CreateUser := {
  cu_username : string;
  cu_email : string;
  cu_full_name : option string;
  cu_password : string;
  cu_role : option GlobalRole.t;
}.

Record UpdateUser := {
  uu_email : option string;
  uu_full_name : option string;
  uu_password : option string;
  uu_role : option GlobalRole.t;
  uu_enabled : option bool;
  uu_public_dashboard : option bool;
}.

Record LoginCredentials := { lc_username : string; lc_password : string }.

(** The row an [INSERT] makes: the columns it does not name have their default. *)
Definition new_user (id : Uuid) (now : DateTime) (username email : string)
    (full_name password_hash : option string) (user_type : UserType.t) (role : GlobalRole.t) : User :=
  {| u_id := id; u_username := username; u_email := email; u_full_name := full_name;
     u_password_hash := password_hash; u_user_type := user_type; u_role := role;
     u_enabled := true; u_email_verified := false; u_public_dashboard := false;
     u_created_at := now; u_updated_at := now; u_last_login_at := None |}.

Definition named (username : string) (w : World) : list User :=
  List.filter (λ u, bool_decide (u_username u = username)) (rows (w_users w)).

Definition with_email (email : string) (w : World) : list User :=
  List.filter (λ u, bool_decide (u_email u = email)) (rows (w_users w)).

(** The insert, under the primary key, the two unique columns and their width. *)
Definition insert (conflict : string) (id : Uuid) (username email : string)
    (full_name password_hash : option string) (user_type : UserType.t) (role : GlobalRole.t) : M User :=
  query (λ w,
    if (255 <? char_count username) || (255 <? char_count email)
    then (Err (Database "value too long for type character varying(255)"), w)
    else match w_users w !! id, named username w, with_email email w with
         | None, [], [] =>
             let u := new_user id (w_now w) username email full_name password_hash user_type role in
             (Ok u, set_w_users (<[id := u]> (w_users w)) w)
         | _, _, _ => (Err (Conflict conflict), w)
         end).

(** An [UPDATE] of the row [id], with the trigger. *)
Definition update_row (id : Uuid) (f : DateTime → User → User) : M () :=
  query (λ w, (Ok (), set_w_users
    (alter (λ u, set_u_updated_at (w_now w) (f (w_now w) u)) id (w_users w)) w)).

Definition get (id : Uuid) : M User :=
  or_not_found ("User " +:+ pretty id +:+ " not found") (read (λ w, w_users w !! id)).

Definition get_by_username (username : string) : M (option User) :=
  query (λ w, (opt_row (named username w), w)).

Definition get_by_email (email : string) : M (option User) :=
  query (λ w, (opt_row (with_email email w), w)).

Definition list (limit offset : nat) : M (list User) :=
  read (λ w, firstn limit (skipn offset
    (sort_by (λ a b, Z.compare (u_created_at b) (u_created_at a)) (rows (w_users w))))).

Definition count : M Z := read (λ w, zlen (rows (w_users w))).

Section repo.
Context `{PasswordHash}.

Definition create (id : Uuid) (salt : string) (data : CreateUser)
    (email_regex : option (string → bool)) : M User :=
  lift (validate_username (cu_username data)) ;;!
  lift (validate_email (cu_email data) email_regex) ;;!
  lift (validate_password (cu_password data)) ;;!
  lift match cu_full_name data with Some name => validate_full_name name | None => Ok () end ;;!
  let role := default GlobalRole.ReadOnly (cu_role data) in
  let! password_hash := lift (hash_password salt (cu_password data)) in
  insert "Username or email already exists" id (cu_username data) (cu_email data)
    (cu_full_name data) (Some password_hash) UserType.Local_ role.

Definition authenticate_fetch (username : string) : M (option User) :=
  query (λ w, (opt_row (List.filter (λ u, u_enabled u) (named username w)), w)).

(** An error of the lookup is not told from a wrong name. *)
Definition authenticate (creds : LoginCredentials) : M User :=
  let! r := mtry (authenticate_fetch (lc_username creds)) in
  match r with
  | Err _ | Ok None => mfail (Unauthorized "Invalid credentials")
  | Ok (Some user) =>
      match u_password_hash user with
      | None => mfail (Unauthorized "OAuth user - use OAuth login")
      | Some hash =>
          let! ok := lift (verify_password (lc_password creds) hash) in
          if ok : bool then
            let! _ := mtry (update_row (u_id user) (λ now, set_u_last_login_at (Some now))) in
            mret user
          else mfail (Unauthorized "Invalid credentials")
      end
  end.

Definition update_email (id : Uuid) (email : string) (email_regex : option (string → bool)) : M User :=
  lift (validate_email email email_regex) ;;!
  query (λ w,
    match w_users w !! id with
    | None => (Err (Database "row count"), w)
    | Some u =>
        if existsb (λ u', negb (u_id u' =? id)) (with_email email w)
        then (Err (Conflict "Email already in use"), w)
        else let u' := set_u_updated_at (w_now w) (set_u_email email u) in
             (Ok u', set_w_users (<[id := u']> (w_users w)) w)
    end).

Definition update_full_name (id : Uuid) (full_name : option string) : M () :=
  lift match full_name with Some name => validate_full_name name | None => Ok () end ;;!
  update_row id (λ _, set_u_full_name full_name).

Definition update_password (id : Uuid) (salt password : string) : M () :=
  lift (validate_password password) ;;!
  let! hash := lift (hash_password salt password) in
  update_row id (λ _, set_u_password_hash (Some hash)).

Definition update_role (id : Uuid) (role : GlobalRole.t) : M () :=
  update_row id (λ _, set_u_role role).

Definition set_enabled (id : Uuid) (enabled : bool) : M () :=
  update_row id (λ _, set_u_enabled enabled).

Definition set_public_dashboard (id : Uuid) (public : bool) : M () :=
  update_row id (λ _, set_u_public_dashboard public).

(** [if let Some(x) = o { f(x).await?; }] *)
Definition when_some {A B} (o : option A) (f : A → M B) : M () :=
  match o with Some a => f a ;;! mret () | None => mret () end.

Definition update (id : Uuid) (salt : string) (data : UpdateUser)
    (email_regex : option (string → bool)) : M User :=
  when_some (uu_email data) (λ e, update_email id e email_regex) ;;!
  when_some (uu_full_name data) (λ n, update_full_name id (Some n)) ;;!
  when_some (uu_password data) (update_password id salt) ;;!
  when_some (uu_role data) (update_role id) ;;!
  when_some (uu_enabled data) (set_enabled id) ;;!
  when_some (uu_public_dashboard data) (set_public_dashboard id) ;;!
  get id.

(** The row, and by the foreign keys its sessions, its memberships, and its name on keys. *)
Definition delete (id : Uuid) : M () :=
  query (λ w,
    match w_users w !! id with
    | None => (Err (NotFound ("User " +:+ pretty id +:+ " not found")), w)
    | Some _ =>
        (Ok (), set_w_users (base.delete id (w_users w))
          (set_w_user_sessions (filter (λ kv, us_user_id kv.2 ≠ id) (w_user_sessions w))
          (set_w_project_members (filter (λ kv, pm_user_id kv.2 ≠ id) (w_project_members w))
          (set_w_api_keys ((λ k, if decide (ak_user_id k = Some id) then set_ak_user_id None k else k)
             <$> w_api_keys w) w))))
    end).

Definition upsert_oauth_user_update_email (id : Uuid) (email : string) : M () :=
  query (λ w,
    if existsb (λ u', negb (u_id u' =? id)) (with_email email w)
    then (Err (Database "unique violation"), w)
    else (Ok (), set_w_users (alter (λ u, set_u_updated_at (w_now w)
            (set_u_last_login_at (Some (w_now w)) (set_u_email email u))) id (w_users w)) w)).

Definition upsert_oauth_user (id : Uuid) (username : string) (email : option string)
    (user_type : UserType.t) (oauth_provider_id : string) (email_regex : option (string → bool)) :
    M User :=
  let unique_username := username +:+ "_" +:+ oauth_provider_id in
  let! existing := get_by_username unique_username in
  match existing with
  | Some user =>
      match email with
      | Some e => lift (validate_email e email_regex) ;;! upsert_oauth_user_update_email (u_id user) e
      | None => update_row (u_id user) (λ now, set_u_last_login_at (Some now))
      end ;;!
      get (u_id user)
  | None =>
      insert "Username or email already in use" id unique_username
        (default (unique_username +:+ "@oauth.local") email) None None user_type GlobalRole.ReadOnly
  end.
End repo.

(** *** Sessions *)

Section sessions.
Context `{Codecs}.

(** [hex::encode(Sha256::digest(token))], also of an API key. *)
Definition token_hash (token : string) : string := hex_encode (sha256 (as_bytes token)).

Definition SESSION_DAYS : Z := 7.

Definition create_session (id : Uuid) (token : string) (now : DateTime) (user_id : Uuid) :
    M (string * Uuid) :=
  query (λ w,
    match w_user_sessions w !! id, w_users w !! user_id with
    | Some _, _ => (Err (Database "unique violation"), w)
    | None, None => (Err (Database "foreign key violation"), w)
    | None, Some _ =>
        let s := {| us_id := id; us_user_id := user_id; us_session_token_hash := token_hash token;
                    us_expires_at := now + SESSION_DAYS * 86400 * 1000000; us_created_at := w_now w;
                    us_last_used_at := None |} in
        (Ok (token, id), set_w_user_sessions (<[id := s]> (w_user_sessions w)) w)
    end).

Definition of_token (hash : string) (w : World) : Datatypes.list UserSession :=
  List.filter (λ s, bool_decide (us_session_token_hash s = hash)) (rows (w_user_sessions w)).

(** The join of the session with its user. *)
Definition session_user (w : World) (s : UserSession) : option User :=
  if w_now w <? us_expires_at s then
    match w_users w !! us_user_id s with
    | Some u => if u_enabled u then Some u else None
    | None => None
    end
  else None.

Definition validate_session_fetch (hash : string) : M (option User) :=
  query (λ w, (opt_row (omap (session_user w) (of_token hash w)), w)).

Definition validate_session_touch (hash : string) : M () :=
  query (λ w, (Ok (), set_w_user_sessions
    ((λ s, if decide (us_session_token_hash s = hash) then set_us_last_used_at (Some (w_now w)) s else s)
       <$> w_user_sessions w) w)).

Definition validate_session (token : string) : M (option User) :=
  let! result := validate_session_fetch (token_hash token) in
  match result with
  | Some _ => let! _ := mtry (validate_session_touch (token_hash token)) in mret result
  | None => mret None
  end.

Definition delete_session (token : string) : M bool :=
  query (λ w,
    (Ok (negb (bool_decide (of_token (token_hash token) w = []))),
     set_w_user_sessions (filter (λ kv, us_session_token_hash kv.2 ≠ token_hash token)
                            (w_user_sessions w)) w)).
End sessions.
End users.

(** ** [repo/api_keys.rs] *)

Module api_keys.

Definition with_hash (hash : string) (w : World) : list ApiKey :=
  List.filter (λ k, bool_decide (ak_key_hash k = hash)) (rows (w_api_keys w)).

Definition new_key (id : Uuid) (now : DateTime) (name key_hash : string) (role : GlobalRole.t) : ApiKey :=
  {| ak_id := id; ak_name := name; ak_key_hash := key_hash; ak_role := role; ak_user_id := None;
     ak_created_at := now; ak_last_used_at := None |}.

Definition create (id : Uuid) (name key_hash : string) (role : GlobalRole.t) : M ApiKey :=
  query (λ w,
    if 255 <? char_count name
    then (Err (Database "value too long for type character varying(255)"), w)
    else match w_api_keys w !! id, with_hash key_hash w with
    | None, [] => let k := new_key id (w_now w) name key_hash role in
                  (Ok k, set_w_api_keys (<[id := k]> (w_api_keys w)) w)
    | _, _ => (Err (Conflict "API key with this hash already exists"), w)
    end).

Definition upsert (id : Uuid) (name key_hash : string) (role : GlobalRole.t) : M ApiKey :=
  query (λ w,
    if 255 <? char_count name
    then (Err (Database "value too long for type character varying(255)"), w)
    else
    match with_hash key_hash w, w_api_keys w !! id with
    | old :: _, _ => let k := set_ak_name name (set_ak_role role old) in
                     (Ok k, set_w_api_keys (<[ak_id k := k]> (w_api_keys w)) w)
    | [], None => let k := new_key id (w_now w) name key_hash role in
                  (Ok k, set_w_api_keys (<[id := k]> (w_api_keys w)) w)
    | [], Some _ => (Err (Database "unique violation"), w)
    end).

Definition get_by_hash (key_hash : string) : M (option ApiKey) :=
  query (λ w, (opt_row (with_hash key_hash w), w)).

Definition list : M (list ApiKey) :=
  read (λ w, sort_by (λ a b, Z.compare (ak_created_at b) (ak_created_at a)) (rows (w_api_keys w))).

Definition delete (id : Uuid) : M () :=
  query (λ w,
    match w_api_keys w !! id with
    | None => (Err (NotFound ("API key " +:+ pretty id +:+ " not found")), w)
    | Some _ => (Ok (), set_w_api_keys (base.delete id (w_api_keys w)) w)
    end).

Definition touch_last_used (id : Uuid) : M () :=
  query (λ w, (Ok (), set_w_api_keys
    (alter (set_ak_last_used_at (Some (w_now w))) id (w_api_keys w)) w)).
End api_keys.

(** ** [repo/project_members.rs] *)

Module project_members.

Definition is_member_row (project_id user_id : Uuid) (m : ProjectMember) : bool :=
  (pm_project_id m =? project_id) && (pm_user_id m =? user_id).

Definition find_row (project_id user_id : Uuid) (w : World) : list ProjectMember :=
  List.filter (is_member_row project_id user_id) (rows (w_project_members w)).

Definition not_found (id : Uuid) : CiError :=
  NotFound ("Project member " +:+ pretty id +:+ " not found").

Definition new_member (id : Uuid) (now : DateTime) (project_id user_id : Uuid)
    (role : ProjectRole.t) : ProjectMember :=
  {| pm_id := id; pm_project_id := project_id; pm_user_id := user_id; pm_role := role;
     pm_created_at := now |}.

(** Both foreign keys hold. *)
Definition references_ok (project_id user_id : Uuid) (w : World) : bool :=
  bool_decide (is_Some (w_projects w !! project_id)) && bool_decide (is_Some (w_users w !! user_id)).

Definition create (id project_id user_id : Uuid) (role : ProjectRole.t) : M ProjectMember :=
  query (λ w,
    match find_row project_id user_id w, w_project_members w !! id with
    | [], None => if references_ok project_id user_id w then
              let m := new_member id (w_now w) project_id user_id role in
              (Ok m, set_w_project_members (<[id := m]> (w_project_members w)) w)
            else (Err (Database "foreign key violation"), w)
    | _, _ => (Err (Conflict "User is already a member of this project"), w)
    end).

Definition get (id : Uuid) : M ProjectMember :=
  or_not_found ("Project member " +:+ pretty id +:+ " not found")
    (read (λ w, w_project_members w !! id)).

Definition get_by_project_and_user (project_id user_id : Uuid) : M (option ProjectMember) :=
  query (λ w, (opt_row (find_row project_id user_id w), w)).

Definition by_creation (a b : ProjectMember) : comparison :=
  Z.compare (pm_created_at a) (pm_created_at b).

Definition list_for_project (project_id : Uuid) : M (list ProjectMember) :=
  read (λ w, sort_by by_creation
    (List.filter (λ m, pm_project_id m =? project_id) (rows (w_project_members w)))).

Definition list_for_user (user_id : Uuid) : M (list ProjectMember) :=
  read (λ w, sort_by by_creation
    (List.filter (λ m, pm_user_id m =? user_id) (rows (w_project_members w)))).

Definition update (id : Uuid) (role : option ProjectRole.t) : M ProjectMember :=
  match role with
  | None => get id
  | Some role =>
      query (λ w,
        match w_project_members w !! id with
        | None => (Err (not_found id), w)
        | Some m => (Ok (set_pm_role role m),
                     set_w_project_members (<[id := set_pm_role role m]> (w_project_members w)) w)
        end)
  end.

Definition delete (id : Uuid) : M () :=
  query (λ w,
    match w_project_members w !! id with
    | None => (Err (not_found id), w)
    | Some _ => (Ok (), set_w_project_members (base.delete id (w_project_members w)) w)
    end).

Definition delete_by_project_and_user (project_id user_id : Uuid) : M () :=
  query (λ w,
    match find_row project_id user_id w with
    | [] => (Err (NotFound "User is not a member of this project"), w)
    | _ => (Ok (), set_w_project_members
              (filter (λ kv, is_member_row project_id user_id kv.2 = false) (w_project_members w)) w)
    end).

Definition check_permission (project_id user_id : Uuid) (required_role : ProjectRole.t) : M bool :=
  let! member := get_by_project_and_user project_id user_id in
  mret match member with
       | Some m => ProjectRole.has_permission (pm_role m) required_role
       | None => false
       end.

Definition upsert (id project_id user_id : Uuid) (role : ProjectRole.t) : M ProjectMember :=
  query (λ w,
    match find_row project_id user_id w, w_project_members w !! id with
    | m :: _, _ => (Ok (set_pm_role role m),
                 set_w_project_members (<[pm_id m := set_pm_role role m]> (w_project_members w)) w)
    | [], Some _ => (Err (Database "unique violation"), w)
    | [], None => if references_ok project_id user_id w then
              let m := new_member id (w_now w) project_id user_id role in
              (Ok m, set_w_project_members (<[id := m]> (w_project_members w)) w)
            else (Err (Database "foreign key violation"), w)
    end).

Record DeclarativeProjectMember := { dm_username : string; dm_role : ProjectRole.t }.

Definition sync_delete_removed (project_id : Uuid) (user_ids : list Uuid) : M () :=
  query (λ w, (Ok (), set_w_project_members
    (filter (λ kv, ¬ (pm_project_id kv.2 = project_id ∧ pm_user_id kv.2 ∉ user_ids))
       (w_project_members w)) w)).

Fixpoint upsert_all (new_id : Uuid → Uuid) (project_id : Uuid) (resolve : string → option Uuid)
    (l : list DeclarativeProjectMember) : M () :=
  match l with
  | [] => mret ()
  | m :: l =>
      match resolve (dm_username m) with
      | Some user_id => upsert (new_id user_id) project_id user_id (dm_role m) ;;! mret ()
      | None => mret ()
      end ;;!
      upsert_all new_id project_id resolve l
  end.

Definition sync_for_project (new_id : Uuid → Uuid) (project_id : Uuid)
    (members : list DeclarativeProjectMember) (resolve : string → option Uuid) : M () :=
  sync_delete_removed project_id (omap (λ m, resolve (dm_username m)) members) ;;!
  upsert_all new_id project_id resolve members.
End project_members.
