(* ===== verification/Auth.v ===== *)
(** * Who may do what: the server's authentication and permissions

    [server/src/auth_middleware.rs], [permissions.rs], [session_cookie.rs], the sessions of
    [state.rs], the status codes of [error.rs], the gates of the dashboard
    ([routes/dashboard/shared.rs]), its login and logout ([routes/dashboard/auth.rs]), OAuth
    and LDAP ([routes/oauth.rs], [routes/ldap.rs]).

    The legacy sessions of API keys live in the memory of the server ([Sessions]); user
    sessions live in the database.  The cookie jar and the MAC are parameters of a request and
    of the server; audit records are not modelled.  [touch_api_key_last_used] runs in a task of
    its own; here it runs at once. *)

From S2P Require Import Prelude Types Float32 Base32 Codecs Db Frames NixJobs FlakeRefs Validate Secrets Users.

(** ** Status codes ([error.rs]) *)

Definition UNAUTHORIZED : Z := 401.
Definition FORBIDDEN : Z := 403.

Definition has_any (l : list string) (s : string) : bool := existsb (λ p, contains p s) l.

(** The status of [ApiError]; lower case is ASCII lower case. *)
Definition api_status (e : CiError) : Z :=
  match e with
  | NotFound _ => 404
  | Validation _ => 400
  | Conflict _ => 409
  | Timeout_ _ => 408
  | Unauthorized _ => UNAUTHORIZED
  | Forbidden _ => FORBIDDEN
  | NixEval msg =>
      if has_any ["no space left on device"; "disk full"; "enospc"; "cannot create directory"; "sqlite"]
           (to_ascii_lowercase msg) then 507 else 422
  | DiskSpace _ => 507
  | Build_ _ => 422
  | Config _ => 500
  | Pool _ => 503
  | Database m => if has_any ["disk"; "space"] m then 507 else 500
  | GitError _ | Serialization _ => 500
  | IoError msg => if has_any ["No space left on device"; "disk full"; "ENOSPC"] msg then 507 else 500
  | Internal msg => if has_any ["disk"; "space"; "storage"] (to_ascii_lowercase msg) then 507 else 500
  end.

(** What a handler answers. *)
Inductive reply (A : Type) := Done (a : A) | Refused (status : Z).
Arguments Done {A} _.
Arguments Refused {A} _.

(** [?] in a handler that returns [Result<_, ApiError>]. *)
Definition api {A} (m : M A) : M (reply A) :=
  let! r := mtry m in
  mret match r with Ok a => Done a | Err e => Refused (api_status e) end.

(** ** [state.rs] and [session_cookie.rs] *)

Record SessionData := {
  sd_api_key : option ApiKey;
  sd_user : option User;
  (** an [Instant], in nanoseconds *)
  sd_created_at : Z;
}.

Definition Sessions := gmap string SessionData.

Definition is_admin_session (s : SessionData) : bool :=
  match sd_user s with
  | Some u => bool_decide (u_role u = GlobalRole.Admin)
  | None => match sd_api_key s with
            | Some k => bool_decide (ak_role k = GlobalRole.Admin)
            | None => false
            end
  end.

Definition has_role (s : SessionData) (role : GlobalRole.t) : bool :=
  is_admin_session s ||
  match sd_user s with
  | Some u => bool_decide (u_role u = role)
  | None => match sd_api_key s with Some k => bool_decide (ak_role k = role) | None => false end
  end.

Definition display_name (s : SessionData) : string :=
  match sd_user s with
  | Some u => u_username u
  | None => match sd_api_key s with Some k => ak_name k | None => "Anonymous" end
  end.

Definition is_user_session (s : SessionData) : bool := is_some (sd_user s).

Definition USER_SESSION_COOKIE : string := "circus_user_session".
Definition API_KEY_SESSION_COOKIE : string := "circus_session".
Definition OAUTH_STATE_COOKIE : string := "circus_oauth_state".

Definition USER_SESSION_MAX_AGE_SECS : Z := 7 * 24 * 60 * 60.
Definition API_KEY_SESSION_MAX_AGE_SECS : Z := 24 * 60 * 60.
Definition OAUTH_STATE_MAX_AGE_SECS : Z := 10 * 60.
Definition API_KEY_SESSION_MAX_AGE : Z := API_KEY_SESSION_MAX_AGE_SECS * 1000000000.

Record ServerConfig := {
  sc_host : string;
  sc_force_secure_cookies : bool;
  sc_require_api_key_for_reads : bool;
  (** the compiled [email_validation_regex] *)
  sc_email_regex : option (string → bool);
}.

Inductive SameSite := Strict | Lax.

Record Cookie := {
  ck_name : string;
  ck_value : string;
  ck_http_only : bool;
  ck_same_site : SameSite;
  ck_secure : bool;
  ck_path : string;
  ck_max_age : Z;
}.

Definition cookie (name value : string) (max_age_secs : Z) (same_site : SameSite) (secure : bool) :
    Cookie :=
  {| ck_name := name; ck_value := value; ck_http_only := true; ck_same_site := same_site;
     ck_secure := secure; ck_path := "/"; ck_max_age := max_age_secs |}.

Definition server_cookie_secure (config : ServerConfig) : bool :=
  sc_force_secure_cookies config ||
  negb (bool_decide (sc_host config ∈ ["127.0.0.1"; "localhost"; "::1"])).

Definition oauth_cookie_secure (config : ServerConfig) (redirect_uri : string) : bool :=
  let is_localhost := starts_with "http://localhost" redirect_uri ||
                      starts_with "http://127.0.0.1" redirect_uri in
  sc_force_secure_cookies config || (negb is_localhost && starts_with "https://" redirect_uri).

Definition user_session_cookie (token : string) (config : ServerConfig) : Cookie :=
  cookie USER_SESSION_COOKIE token USER_SESSION_MAX_AGE_SECS Strict (server_cookie_secure config).

Definition api_key_session_cookie (token : string) (config : ServerConfig) : Cookie :=
  cookie API_KEY_SESSION_COOKIE token API_KEY_SESSION_MAX_AGE_SECS Strict
    (server_cookie_secure config).

Definition oauth_state_cookie (token : string) (config : ServerConfig) (redirect_uri : string) : Cookie :=
  cookie OAUTH_STATE_COOKIE token OAUTH_STATE_MAX_AGE_SECS Lax
    (oauth_cookie_secure config redirect_uri).

Definition oauth_user_session_cookie (token : string) (config : ServerConfig) (redirect_uri : string) :
    Cookie :=
  cookie USER_SESSION_COOKIE token USER_SESSION_MAX_AGE_SECS Lax
    (oauth_cookie_secure config redirect_uri).

Definition clear_cookie (name : string) (config : ServerConfig) : Cookie :=
  cookie name "" 0 Strict (server_cookie_secure config).

Definition clear_oauth_state_cookie (config : ServerConfig) (redirect_uri : string) : Cookie :=
  cookie OAUTH_STATE_COOKIE "" 0 Lax (oauth_cookie_secure config redirect_uri).

(** One sweep of [spawn_session_cleanup]. *)
Definition session_cleanup (now : Z) (sessions : Sessions) : Sessions :=
  filter (λ kv, now - sd_created_at kv.2 < API_KEY_SESSION_MAX_AGE) sessions.

(** ** [permissions.rs] *)

Inductive Permission :=
  | PAdmin | PBumpToFront | PCancelBuild | PRestartJobs | PCreateProjects | PEvalJobset.

Definition permission_role (p : Permission) : GlobalRole.t :=
  match p with
  | PAdmin => GlobalRole.Admin
  | PBumpToFront => GlobalRole.BumpToFront
  | PCancelBuild => GlobalRole.CancelBuild
  | PRestartJobs => GlobalRole.RestartJobs
  | PCreateProjects => GlobalRole.CreateProjects
  | PEvalJobset => GlobalRole.EvalJobset
  end.

(** The extensions of a request the handlers look at. *)
Record Extensions := {
  ex_user : option User;
  ex_api_key : option ApiKey;
  ex_session : option SessionData;
  ex_csrf : option string;
}.

Definition no_extensions : Extensions :=
  {| ex_user := None; ex_api_key := None; ex_session := None; ex_csrf := None |}.

Definition session_role (ex : Extensions) : option GlobalRole.t :=
  match ex_user ex with
  | Some u => Some (u_role u)
  | None => ak_role <$> ex_api_key ex
  end.

Definition role_grants (role : GlobalRole.t) (p : Permission) : bool :=
  bool_decide (role = GlobalRole.Admin) || bool_decide (role = permission_role p).

Definition check (ex : Extensions) (p : Permission) : bool :=
  match session_role ex with Some role => role_grants role p | None => false end.

Definition require (ex : Extensions) (p : Permission) : result Z () :=
  match session_role ex with
  | None => Err UNAUTHORIZED
  | Some role => if role_grants role p then Ok () else Err FORBIDDEN
  end.

Definition require_api (ex : Extensions) (p : Permission) : result CiError () :=
  match require ex p with
  | Ok _ => Ok ()
  | Err s => Err (if s =? FORBIDDEN then Forbidden "Insufficient permissions"
                  else Unauthorized "Authentication required")
  end.

Record UiPermissions := {
  ui_admin : bool;
  ui_bump_to_front : bool;
  ui_cancel_build : bool;
  ui_restart_jobs : bool;
  ui_create_projects : bool;
  ui_eval_jobset : bool;
}.

Definition ui_from_extensions (ex : Extensions) : UiPermissions :=
  {| ui_admin := check ex PAdmin; ui_bump_to_front := check ex PBumpToFront;
     ui_cancel_build := check ex PCancelBuild; ui_restart_jobs := check ex PRestartJobs;
     ui_create_projects := check ex PCreateProjects; ui_eval_jobset := check ex PEvalJobset |}.

(** ** The gates of the dashboard *)

Record DashboardContext := {
  dc_is_admin : bool;
  dc_is_authenticated : bool;
  dc_auth_name : string;
  dc_csrf_token : string;
  dc_permissions : UiPermissions;
  dc_viewer_user_id : option Uuid;
}.

Definition is_authenticated (ex : Extensions) : bool :=
  is_some (ex_user ex) || is_some (ex_api_key ex).

Definition auth_name (ex : Extensions) : string :=
  match ex_user ex with
  | Some u => u_username u
  | None => match ex_api_key ex with Some k => ak_name k | None => "" end
  end.

Definition context_from_extensions (ex : Extensions) : DashboardContext :=
  {| dc_is_admin := check ex PAdmin; dc_is_authenticated := is_authenticated ex;
     dc_auth_name := auth_name ex; dc_csrf_token := default "" (ex_csrf ex);
     dc_permissions := ui_from_extensions ex;
     dc_viewer_user_id := match ex_user ex with
                          | Some u => Some (u_id u)
                          | None => match ex_api_key ex with Some k => ak_user_id k | None => None end
                          end |}.

Definition check_csrf (ctx : DashboardContext) (submitted : string) : result Z () :=
  if bool_decide (dc_csrf_token ctx = "") || negb (bool_decide (dc_csrf_token ctx = submitted))
  then Err FORBIDDEN else Ok ().

Definition require_permission (ctx : DashboardContext) (p : Permission) : result Z () :=
  let granted := match p with
                 | PAdmin => ui_admin (dc_permissions ctx)
                 | PBumpToFront => ui_bump_to_front (dc_permissions ctx)
                 | PCancelBuild => ui_cancel_build (dc_permissions ctx)
                 | PRestartJobs => ui_restart_jobs (dc_permissions ctx)
                 | PCreateProjects => ui_create_projects (dc_permissions ctx)
                 | PEvalJobset => ui_eval_jobset (dc_permissions ctx)
                 end in
  if granted : bool then Ok ()
  else if dc_is_authenticated ctx then Err FORBIDDEN else Err UNAUTHORIZED.

Inductive PageAccessLevel := Public | Authenticated | AdminOnly.

(** What a refused viewer gets. *)
Inductive PageRefusal := RedirectHome | PrivatePage (status : Z).

(** [level]: the access the configuration gives the page. *)
Definition enforce_page_access (level : PageAccessLevel) (ctx : DashboardContext) :
    result PageRefusal () :=
  let allowed := match level with
                 | Public => true
                 | Authenticated => dc_is_authenticated ctx
                 | AdminOnly => dc_is_admin ctx
                 end in
  if allowed : bool then Ok ()
  else if dc_is_authenticated ctx then Err RedirectHome else Err (PrivatePage UNAUTHORIZED).

(** ** [auth_middleware.rs] *)

Inductive Method := GET | HEAD | OPTIONS | POST | PUT | PATCH | DELETE.

Definition is_read (m : Method) : bool :=
  match m with GET | HEAD | OPTIONS => true | POST | PUT | PATCH | DELETE => false end.

Record Request := {
  rq_method : Method;
  (** the headers [authorization] and [x-csrf-token], where they are text *)
  rq_authorization : option string;
  rq_csrf_token : option string;
  (** the cookie jar *)
  rq_cookie : string → option string;
}.

(** The parts of [AppState] that do not change, and the clock of the process. *)
Record Server := {
  sv_config : ServerConfig;
  (** [Hmac<Sha256>] under [csrf_secret] *)
  sv_csrf_mac : list Z → list Z;
  sv_instant : Z;
}.

Section middleware.
Context `{Codecs} (sv : Server).

Definition csrf_token_for (session_id : string) : string :=
  hex_encode (sv_csrf_mac sv (as_bytes session_id)).

Definition valid_csrf_header (rq : Request) (session_id : string) : bool :=
  match rq_csrf_token rq with
  | Some submitted => bool_decide (csrf_token_for session_id = submitted)
  | None => false
  end.

Definition bearer_token (rq : Request) : option string :=
  match rq_authorization rq with Some h => strip_prefix "Bearer " h | None => None end.

Definition resolve_bearer_api_key (token : option string) : M (option ApiKey) :=
  match token with
  | None => mret None
  | Some token =>
      let! r := mtry (api_keys.get_by_hash (users.token_hash token)) in
      match r with
      | Ok (Some k) => let! _ := mtry (api_keys.touch_last_used (ak_id k)) in mret (Some k)
      | Ok None | Err _ => mret None
      end
  end.

Definition resolve_user_session (session_id : option string) : M (option (string * User)) :=
  match session_id with
  | None => mret None
  | Some sid =>
      let! r := mtry (users.validate_session sid) in
      mret match r with Ok (Some u) => Some (sid, u) | Ok None | Err _ => None end
  end.

(** The session, and the sessions that are left: an expired one is removed. *)
Definition resolve_legacy_api_key_session (sessions : Sessions) (session_id : option string) :
    option (string * option ApiKey) * Sessions :=
  match session_id with
  | None => (None, sessions)
  | Some sid =>
      match sessions !! sid with
      | None => (None, sessions)
      | Some s => if sv_instant sv - sd_created_at s <? API_KEY_SESSION_MAX_AGE
                  then (Some (sid, sd_api_key s), sessions)
                  else (None, base.delete sid sessions)
      end
  end.

Record RequestAuth := {
  ra_bearer_api_key : option ApiKey;
  ra_user_session : option (string * User);
  ra_legacy_session : option (string * option ApiKey);
}.

Definition resolve (sessions : Sessions) (rq : Request) : M (RequestAuth * Sessions) :=
  let! bearer := resolve_bearer_api_key (bearer_token rq) in
  let! user := resolve_user_session (rq_cookie rq USER_SESSION_COOKIE) in
  let (legacy, sessions) := resolve_legacy_api_key_session sessions (rq_cookie rq API_KEY_SESSION_COOKIE) in
  mret ({| ra_bearer_api_key := bearer; ra_user_session := user; ra_legacy_session := legacy |},
        sessions).

(** The decision of [require_api_key] once the credentials are resolved: the extensions the
    next handler sees, or the status that ends the request. *)
Definition admit_request (rq : Request) (auth : RequestAuth) : result Z Extensions :=
  match ra_bearer_api_key auth with
  | Some k =>
      Ok {| ex_user := None; ex_api_key := Some k;
            ex_session := Some {| sd_api_key := Some k; sd_user := None; sd_created_at := sv_instant sv |};
            ex_csrf := None |}
  | None =>
      match ra_user_session auth with
      | Some (sid, u) =>
          if negb (is_read (rq_method rq)) && negb (valid_csrf_header rq sid) then Err FORBIDDEN
          else Ok {| ex_user := Some u; ex_api_key := None;
                     ex_session := Some {| sd_api_key := None; sd_user := Some u;
                                           sd_created_at := sv_instant sv |};
                     ex_csrf := None |}
      | None =>
          match ra_legacy_session auth with
          | Some (sid, k) =>
              if negb (is_read (rq_method rq)) && negb (valid_csrf_header rq sid) then Err FORBIDDEN
              else Ok {| ex_user := None; ex_api_key := k; ex_session := None; ex_csrf := None |}
          | None =>
              if is_read (rq_method rq) && negb (sc_require_api_key_for_reads (sv_config sv))
              then Ok no_extensions else Err UNAUTHORIZED
          end
      end
  end.

Definition require_api_key (sessions : Sessions) (rq : Request) : M (result Z Extensions * Sessions) :=
  let! (auth, sessions) := resolve sessions rq in
  mret (admit_request rq auth, sessions).

(** What [extract_session] puts in the extensions: a later insertion replaces an earlier one. *)
Definition session_extensions (auth : RequestAuth) : Extensions :=
  {| ex_user := snd <$> ra_user_session auth;
     ex_api_key := match ra_legacy_session auth with
                   | Some (_, Some k) => Some k
                   | _ => ra_bearer_api_key auth
                   end;
     ex_session := None;
     ex_csrf := match ra_legacy_session auth, ra_user_session auth with
                | Some (sid, _), _ | None, Some (sid, _) => Some (csrf_token_for sid)
                | None, None => None
                end |}.

Definition extract_session (sessions : Sessions) (rq : Request) : M (Extensions * Sessions) :=
  let! (auth, sessions) := resolve sessions rq in
  mret (session_extensions auth, sessions).

(** The extractor [RequireAdmin]. *)
Definition require_admin (ex : Extensions) : result Z ApiKey :=
  let by_key := match ex_api_key ex with
                | None => Err UNAUTHORIZED
                | Some k => if bool_decide (ak_role k = GlobalRole.Admin) then Ok k else Err FORBIDDEN
                end in
  match ex_user ex with
  | Some u =>
      if bool_decide (u_role u = GlobalRole.Admin)
      then Ok {| ak_id := u_id u; ak_name := u_username u; ak_key_hash := ""; ak_role := u_role u;
                 ak_user_id := Some (u_id u); ak_created_at := u_created_at u;
                 ak_last_used_at := u_last_login_at u |}
      else by_key
  | None => by_key
  end.
End middleware.

(** ** Login and logout *)

(** A page, a redirect that sets cookies, or a bare status. *)
Inductive LoginReply :=
  | LoginPage (status : Z) (error : string)
  | LoginRedirect (cookies : list Cookie)
  | LoginStatus (status : Z) (cookies : list Cookie).

Record LoginForm := {
  lf_username : option string;
  lf_api_key : option string;
  lf_password : option string;
}.

Section login.
Context `{Codecs} `{PasswordHash} (sv : Server).

(** [sid], [token]: the identifiers drawn for the session. *)
Definition login_action (sid : Uuid) (token : string) (sessions : Sessions) (form : LoginForm) :
    M (LoginReply * Sessions) :=
  match lf_username form, lf_password form with
  | Some username, Some password =>
      let! r := mtry (users.authenticate {| users.lc_username := username;
                                            users.lc_password := password |}) in
      match r with
      | Ok user =>
          let! now := λ w, (Ok (w_now w), w) in
          let! s := mtry (users.create_session sid token now (u_id user)) in
          mret (match s with
                | Ok (token, _) => LoginRedirect [user_session_cookie token (sv_config sv)]
                | Err _ => LoginStatus 500 []
                end, sessions)
      | Err _ => mret (LoginPage UNAUTHORIZED "Invalid username or password", sessions)
      end
  | _, _ =>
      match lf_api_key form with
      | None => mret (LoginPage 200 "Please provide either username/password or API key", sessions)
      | Some key =>
          let key := trim key in
          if bool_decide (key = "") then mret (LoginPage 200 "API key is required", sessions)
          else
            let! r := mtry (api_keys.get_by_hash (users.token_hash key)) in
            mret match r with
                 | Ok (Some k) =>
                     (LoginRedirect [api_key_session_cookie token (sv_config sv)],
                      <[token := {| sd_api_key := Some k; sd_user := None;
                                    sd_created_at := sv_instant sv |}]> sessions)
                 | Ok None | Err _ => (LoginPage 200 "Invalid API key", sessions)
                 end
      end
  end.

Definition logout_action (sessions : Sessions) (rq : Request) : M (LoginReply * Sessions) :=
  match rq_cookie rq USER_SESSION_COOKIE with
  | Some sid => let! _ := mtry (users.delete_session sid) in mret ()
  | None => mret ()
  end ;;!
  let sessions := match rq_cookie rq API_KEY_SESSION_COOKIE with
                  | Some sid => base.delete sid sessions
                  | None => sessions
                  end in
  mret (LoginRedirect [clear_cookie USER_SESSION_COOKIE (sv_config sv);
                       clear_cookie API_KEY_SESSION_COOKIE (sv_config sv)], sessions).

(** *** OAuth *)

Record GitHubUser := { gu_id : Z; gu_login : string }.
Record GitHubEmail := { ge_email : string; ge_primary : bool; ge_verified : bool }.

(** What GitHub answers: the token exchange, the user and the addresses, or an error text. *)
Record GitHub := {
  gh_exchange : string → result string string;
  gh_user : string → result string GitHubUser;
  gh_emails : string → result string (list GitHubEmail);
}.

Definition primary_email (emails : list GitHubEmail) : option string :=
  ge_email <$> match List.find (λ e, ge_primary e && ge_verified e) emails with
               | Some e => Some e
               | None => List.find ge_verified emails
               end.

Definition internal_of {A} (r : result string A) : result CiError A :=
  match r with Ok a => Ok a | Err e => Err (Internal e) end.

(** [redirect_uri]: that of the configured application, if there is one. *)
Definition github_callback (gh : GitHub) (redirect_uri : option string) (new_id sid : Uuid)
    (token : string) (rq : Request) (code state : string) : M (reply LoginReply) :=
  match redirect_uri with
  | None => mret (Refused (api_status (NotFound "GitHub OAuth not configured")))
  | Some uri =>
      if negb (bool_decide (rq_cookie rq OAUTH_STATE_COOKIE = Some state))
      then mret (Refused (api_status (Unauthorized "Invalid OAuth state")))
      else api (
        let! access := lift (internal_of (gh_exchange gh code)) in
        let! info := lift (internal_of (gh_user gh access)) in
        let! emails := lift (internal_of (gh_emails gh access)) in
        let! user := users.upsert_oauth_user new_id (gu_login info) (primary_email emails)
                       UserType.Github (pretty (gu_id info)) (sc_email_regex (sv_config sv)) in
        let! now := λ w, (Ok (w_now w), w) in
        let! s := users.create_session sid token now (u_id user) in
        mret (LoginStatus 302 [clear_oauth_state_cookie (sv_config sv) uri;
                               oauth_user_session_cookie s.1 (sv_config sv) uri]))
  end.

(** *** LDAP *)

(** [ldap]: the outcome of connecting, and of a bind by name and password, where the
    directory is configured and enabled. *)
Inductive LdapAnswer := LdapDown | LdapBound | LdapRejected.

Definition ldap_login (ldap : option (string → string → LdapAnswer)) (new_id sid : Uuid)
    (token username password : string) : M (reply LoginReply) :=
  if bool_decide (trim username = "") || bool_decide (password = "")
  then mret (Done (LoginStatus 400 []))
  else match ldap with
  | None => mret (Done (LoginStatus 404 []))
  | Some bind =>
      match bind username password with
      | LdapDown => mret (Done (LoginStatus 503 []))
      | LdapRejected => mret (Done (LoginStatus UNAUTHORIZED []))
      | LdapBound => api (
          let! user := users.upsert_oauth_user new_id username None UserType.Ldap "ldap"
                         (sc_email_regex (sv_config sv)) in
          let! now := λ w, (Ok (w_now w), w) in
          let! s := users.create_session sid token now (u_id user) in
          mret (LoginStatus 204 [user_session_cookie s.1 (sv_config sv)]))
      end
  end.
End login.
