(* ===== verification/AuthApi.v ===== *)
(** * The API of accounts and keys

    [server/src/routes/users.rs] and [routes/auth.rs] behind [require_api_key], as
    [api_router] composes them; then what holds of it.  Starred jobs and audit records are not
    modelled. *)

From S2P Require Import Prelude Types Float32 Base32 Codecs Db Frames NixJobs FlakeRefs Validate Secrets Users Auth.

Record UserResponse := {
  ur_id : Uuid;
  ur_username : string;
  ur_email : string;
  ur_full_name : option string;
  ur_user_type : string;
  ur_role : string;
  ur_enabled : bool;
  ur_email_verified : bool;
  ur_public_dashboard : bool;
  ur_created_at : DateTime;
  ur_updated_at : DateTime;
  ur_last_login_at : option DateTime;
}.

(** [format!("{:?}", user_type).to_lowercase()] is the text of the column. *)
Definition user_response (u : User) : UserResponse :=
  {| ur_id := u_id u; ur_username := u_username u; ur_email := u_email u;
     ur_full_name := u_full_name u; ur_user_type := UserType.as_db_str (u_user_type u);
     ur_role := GlobalRole.as_str (u_role u); ur_enabled := u_enabled u;
     ur_email_verified := u_email_verified u; ur_public_dashboard := u_public_dashboard u;
     ur_created_at := u_created_at u; ur_updated_at := u_updated_at u;
     ur_last_login_at := u_last_login_at u |}.

Definition key_response (k : ApiKey) : UserResponse :=
  {| ur_id := ak_id k; ur_username := ak_name k; ur_email := ""; ur_full_name := None;
     ur_user_type := "api_key"; ur_role := GlobalRole.as_str (ak_role k); ur_enabled := true;
     ur_email_verified := true; ur_public_dashboard := false; ur_created_at := ak_created_at k;
     ur_updated_at := ak_created_at k; ur_last_login_at := ak_last_used_at k |}.

Record ApiKeyInfo := {
  ki_id : Uuid;
  ki_name : string;
  ki_role : string;
  ki_created_at : DateTime;
  ki_last_used_at : option DateTime;
}.

Definition api_key_info (k : ApiKey) : ApiKeyInfo :=
  {| ki_id := ak_id k; ki_name := ak_name k; ki_role := GlobalRole.as_str (ak_role k);
     ki_created_at := ak_created_at k; ki_last_used_at := ak_last_used_at k |}.

(** [PaginationParams] ([models.rs]). *)
Definition page_limit (limit : option Z) : Z := Z.min (Z.max (default 50 limit) 1) 200.
Definition page_offset (offset : option Z) : Z := Z.max (default 0 offset) 0.

(** The calls, with what the program draws at random for them. *)
Inductive ApiCall :=
  | ListUsers (limit offset : option Z)
  | CreateUser (id : Uuid) (salt : string) (data : users.CreateUser)
  | GetUser (id : Uuid)
  | UpdateUser (id : Uuid) (salt : string) (data : users.UpdateUser)
  | DeleteUser (id : Uuid)
  | GetMe
  | UpdateMe (data : users.UpdateUser)
  | ChangePassword (salt current new : string)
  | ListApiKeys
  | CreateApiKey (id : Uuid) (random : option string) (name : string) (role : option GlobalRole.t)
  | DeleteApiKey (id : Uuid).

Definition call_method (c : ApiCall) : Method :=
  match c with
  | ListUsers _ _ | GetUser _ | GetMe | ListApiKeys => GET
  | CreateUser _ _ _ | ChangePassword _ _ _ | CreateApiKey _ _ _ _ => POST
  | UpdateUser _ _ _ | UpdateMe _ => PUT
  | DeleteUser _ | DeleteApiKey _ => DELETE
  end.

Inductive ApiResponse :=
  | RUser (u : UserResponse)
  | RUsers (l : list UserResponse)
  | RKeys (l : list ApiKeyInfo)
  | RNewKey (id : Uuid) (name key role : string)
  | RNoContent.

Section handlers.
Context `{Codecs} `{PasswordHash} (sv : Server).

Definition email_regex : option (string → bool) := sc_email_regex (sv_config sv).

(** A handler with the extractor [RequireAdmin]. *)
Definition admin_only (ex : Extensions) (m : M ApiResponse) : M (reply ApiResponse) :=
  match require_admin ex with Err s => mret (Refused s) | Ok _ => api m end.

(** A handler for the user of the session. *)
Definition user_only (ex : Extensions) (f : User → M ApiResponse) : M (reply ApiResponse) :=
  api match ex_user ex with
      | Some u => f u
      | None => mfail (Unauthorized "User authentication required")
      end.

Definition list_users (ex : Extensions) (limit offset : option Z) : M (reply ApiResponse) :=
  admin_only ex (let! l := users.list (Z.to_nat (page_limit limit)) (Z.to_nat (page_offset offset)) in
                 mret (RUsers (user_response <$> l))).

Definition create_user (ex : Extensions) (id : Uuid) (salt : string) (data : users.CreateUser) :
    M (reply ApiResponse) :=
  admin_only ex (let! u := users.create id salt data email_regex in mret (RUser (user_response u))).

Definition get_user (ex : Extensions) (id : Uuid) : M (reply ApiResponse) :=
  admin_only ex (let! u := users.get id in mret (RUser (user_response u))).

Definition update_user (ex : Extensions) (id : Uuid) (salt : string) (data : users.UpdateUser) :
    M (reply ApiResponse) :=
  admin_only ex (let! u := users.update id salt data email_regex in mret (RUser (user_response u))).

Definition delete_user (ex : Extensions) (id : Uuid) : M (reply ApiResponse) :=
  admin_only ex (users.delete id ;;! mret RNoContent).

Definition get_current_user (ex : Extensions) : M (reply ApiResponse) :=
  api match ex_user ex, ex_api_key ex with
      | Some u, _ => mret (RUser (user_response u))
      | None, Some k => mret (RUser (key_response k))
      | None, None => mfail (Unauthorized "Not authenticated")
      end.

(** Of the fields of the request, the password, the role and [enabled] are ignored. *)
Definition update_current_user (ex : Extensions) (data : users.UpdateUser) : M (reply ApiResponse) :=
  user_only ex (λ user,
    users.when_some (users.uu_full_name data) (λ n, users.update_full_name (u_id user) (Some n)) ;;!
    users.when_some (users.uu_email data) (λ e, users.update_email (u_id user) e email_regex) ;;!
    users.when_some (users.uu_public_dashboard data) (users.set_public_dashboard (u_id user)) ;;!
    let! u := users.get (u_id user) in mret (RUser (user_response u))).

Definition change_password (ex : Extensions) (salt current new : string) : M (reply ApiResponse) :=
  user_only ex (λ user,
    match u_password_hash user with
    | None => mfail (Unauthorized "OAuth user - use OAuth login")
    | Some hash =>
        match verify_password current hash with
        | Err e => mfail (Internal (error_text e))
        | Ok false => mfail (Unauthorized "Current password is incorrect")
        | Ok true => users.update_password (u_id user) salt new ;;! mret RNoContent
        end
    end).

Definition list_api_keys (ex : Extensions) : M (reply ApiResponse) :=
  admin_only ex (let! l := api_keys.list in mret (RKeys (api_key_info <$> l))).

(** [random]: the base-64 of the 32 bytes drawn, if there were any. *)
Definition create_api_key (ex : Extensions) (id : Uuid) (random : option string) (name : string)
    (role : option GlobalRole.t) : M (reply ApiResponse) :=
  let role := default GlobalRole.ReadOnly role in
  admin_only ex
    match random with
    | None => mfail (Internal "Failed to generate random API key")
    | Some bytes =>
        let key := "circus_" +:+ bytes in
        let! k := api_keys.create id name (users.token_hash key) role in
        mret (RNewKey (ak_id k) (ak_name k) key (GlobalRole.as_str (ak_role k)))
    end.

Definition delete_api_key (ex : Extensions) (id : Uuid) : M (reply ApiResponse) :=
  admin_only ex (api_keys.delete id ;;! mret RNoContent).

Definition handle (ex : Extensions) (c : ApiCall) : M (reply ApiResponse) :=
  match c with
  | ListUsers limit offset => list_users ex limit offset
  | CreateUser id salt data => create_user ex id salt data
  | GetUser id => get_user ex id
  | UpdateUser id salt data => update_user ex id salt data
  | DeleteUser id => delete_user ex id
  | GetMe => get_current_user ex
  | UpdateMe data => update_current_user ex data
  | ChangePassword salt current new => change_password ex salt current new
  | ListApiKeys => list_api_keys ex
  | CreateApiKey id random name role => create_api_key ex id random name role
  | DeleteApiKey id => delete_api_key ex id
  end.

(** A request to [/api/v1]: the middleware, then the handler. *)
Definition serve (sessions : Sessions) (rq : Request) (c : ApiCall) : M (reply ApiResponse * Sessions) :=
  let! (r, sessions) := require_api_key sv sessions rq in
  match r with
  | Err s => mret (Refused s, sessions)
  | Ok ex => let! a := handle ex c in mret (a, sessions)
  end.
End handlers.
