(* ===== verification/Access.v ===== *)
(** * What holds of authentication and authorisation

    A request is let through only with a credential the server knows; without an
    administrator's credential no account, role or key changes; sessions end when they should,
    and what does not hold. *)

From S2P Require Import Prelude Types Float32 Base32 Codecs Db Frames NixJobs FlakeRefs Validate Secrets Users Auth AuthApi.

Section handlers.
Context (R : World → World → Prop) `{!PreOrder R}.

Lemma leads_when_some {A B} (o : option A) (f : A → M B) :
  (∀ a, o = Some a → leads R (f a)) → leads R (users.when_some o f).
Proof.
  destruct o; simpl; intros Hf; [|by apply leads_mret].
  apply leads_mbind; [done|by apply Hf|]. intros _. by apply leads_mret.
Qed.

Lemma leads_api {A} (m : M A) : leads R m → leads R (api m).
Proof.
  intros Hm. apply leads_mbind; [done|by apply leads_mtry|]. intros r. by apply leads_mret.
Qed.
End handlers.

(** ** Credentials *)

Section access.
Context `{Codecs} (sv : Server).

(** The stored key of the token. *)
Definition stored_key (w : World) (token : string) (k : ApiKey) : Prop :=
  k ∈ rows (w_api_keys w) ∧ ak_key_hash k = users.token_hash token.

(** The enabled user of a session that has not expired. *)
Definition live_session (w : World) (token : string) (u : User) : Prop :=
  ∃ s, s ∈ rows (w_user_sessions w) ∧ us_session_token_hash s = users.token_hash token ∧
    w_now w < us_expires_at s ∧ w_users w !! us_user_id s = Some u ∧ u_enabled u = true.

(** A key a session of this process remembers, less than a day old. *)
Definition remembered (sessions : Sessions) (sid : string) (k : option ApiKey) : Prop :=
  ∃ s, sessions !! sid = Some s ∧ sd_api_key s = k ∧
    sv_instant sv - sd_created_at s < API_KEY_SESSION_MAX_AGE.

(** The browser proves that the page it acts for is one of the server's. *)
Definition proves_origin (rq : Request) (sid : string) : Prop :=
  is_read (rq_method rq) = true ∨ rq_csrf_token rq = Some (csrf_token_for sv sid).

(** What the server may take the request for. *)
Inductive authorised (sessions : Sessions) (rq : Request) (w : World) : Extensions → Prop :=
  | by_bearer token k ex :
      rq_authorization rq = Some ("Bearer " +:+ token) → stored_key w token k →
      ex_user ex = None → ex_api_key ex = Some k → authorised sessions rq w ex
  | by_user_session sid u ex :
      rq_cookie rq USER_SESSION_COOKIE = Some sid → live_session w sid u → proves_origin rq sid →
      ex_user ex = Some u → ex_api_key ex = None → authorised sessions rq w ex
  | by_key_session sid k ex :
      rq_cookie rq API_KEY_SESSION_COOKIE = Some sid → remembered sessions sid k →
      proves_origin rq sid → ex_user ex = None → ex_api_key ex = k → authorised sessions rq w ex
  | anonymous ex :
      is_read (rq_method rq) = true → sc_require_api_key_for_reads (sv_config sv) = false →
      ex_user ex = None → ex_api_key ex = None → authorised sessions rq w ex.

Lemma opt_row_some {A} (l : list A) x : opt_row l = Ok (Some x) → x ∈ l.
Proof. destruct l as [|y [|]]; try done. intros [= ->]. by left. Qed.

Lemma elem_of_filter_rows {A} (p : A → bool) (t : gmap Z A) x :
  x ∈ List.filter p (rows t) ↔ x ∈ rows t ∧ p x = true.
Proof. by rewrite !list_elem_of_In, filter_In. Qed.

(** A statement that only reads: its answer, and the state but for the faults. *)
Lemma query_read_inv {A} (f : World → result CiError A) w r w' :
  (∀ w fs, f (set_w_faults fs w) = f w) →
  query (λ w, (f w, w)) w = (r, w') →
  (∃ fs, w' = set_w_faults fs w) ∧ (r = f w ∨ r = Err (Database "connection")).
Proof.
  intros Hf. unfold query. destruct (w_faults w) as [|[] fs] eqn:Hw; intros [= <- <-].
  - split; [|by left]. exists []. rewrite <-Hw. by destruct w.
  - split; [by exists fs|by right].
  - split; [by exists fs|]. left. apply Hf.
Qed.

Lemma bearer_token_inv rq token :
  bearer_token rq = Some token → rq_authorization rq = Some ("Bearer " +:+ token).
Proof.
  unfold bearer_token. destruct (rq_authorization rq) as [h|]; [|done].
  intros Hp%strip_prefix_some. by subst.
Qed.

Lemma resolve_bearer_sound rq w k w' :
  resolve_bearer_api_key (bearer_token rq) w = (Ok (Some k), w') →
  ∃ token, rq_authorization rq = Some ("Bearer " +:+ token) ∧ stored_key w token k.
Proof.
  destruct (bearer_token rq) as [token|] eqn:Ht; [|done]. simpl. unfold mbind, mtry.
  destruct (api_keys.get_by_hash _ w) as [r w1] eqn:Hg.
  apply (query_read_inv (λ w, opt_row (api_keys.with_hash (users.token_hash token) w))) in Hg
    as [_ Hr]; [|done].
  destruct r as [[k'|]|]; try done. destruct (api_keys.touch_last_used _ _) as [? ?].
  intros [= <- <-]. destruct Hr as [Hr|]; [|done]. symmetry in Hr. apply opt_row_some in Hr.
  apply elem_of_filter_rows in Hr as [Hin Hh%bool_decide_eq_true].
  exists token. split; [by apply bearer_token_inv|done].
Qed.

(** Looking up a key changes nothing a session depends on. *)
Definition same_sessions (w w' : World) : Prop :=
  w_users w' = w_users w ∧ w_user_sessions w' = w_user_sessions w ∧ w_now w' = w_now w.

#[local] Instance same_sessions_preorder : PreOrder same_sessions.
Proof.
  split; [by intros w|]. intros w1 w2 w3 (? & ? & ?) (? & ? & ?). unfold same_sessions. by split_and!; etrans.
Qed.

Lemma resolve_bearer_keeps_sessions token : leads same_sessions (resolve_bearer_api_key token).
Proof.
  destruct token as [token|]; [|by intros w]. simpl. apply leads_mbind; [apply _| |].
  - apply leads_mtry, leads_query; [apply _|by intros w fs|by intros w].
  - intros [[k|]|]; try by intros w. apply leads_mbind; [apply _| |by intros r w].
    apply leads_mtry, leads_query; [apply _|by intros w fs|by intros w].
Qed.

Lemma session_user_some w s u :
  users.session_user w s = Some u →
  w_now w < us_expires_at s ∧ w_users w !! us_user_id s = Some u ∧ u_enabled u = true.
Proof.
  unfold users.session_user. destruct (Z.ltb_spec (w_now w) (us_expires_at s)); [|done].
  destruct (w_users w !! us_user_id s) as [v|]; [|done]. destruct (u_enabled v) eqn:He; [|done].
  by intros [= ->].
Qed.

Lemma validate_session_sound token w u w' :
  users.validate_session token w = (Ok (Some u), w') → live_session w token u.
Proof.
  unfold users.validate_session, mbind.
  destruct (users.validate_session_fetch _ w) as [r w1] eqn:Hf.
  apply (query_read_inv (λ w, opt_row (omap (users.session_user w)
    (users.of_token (users.token_hash token) w)))) in Hf as [_ Hr]; [|done].
  destruct r as [[v|]|]; try done. unfold mtry. destruct (users.validate_session_touch _ _).
  intros [= <- <-]. destruct Hr as [Hr|]; [|done]. symmetry in Hr. apply opt_row_some in Hr.
  apply list_elem_of_omap in Hr as (s & Hs & Hu). exists s.
  apply elem_of_filter_rows in Hs as [Hs Hh%bool_decide_eq_true].
  by apply session_user_some in Hu as (? & ? & ?).
Qed.

Lemma resolve_user_sound o w sid u w' :
  resolve_user_session o w = (Ok (Some (sid, u)), w') → o = Some sid ∧ live_session w sid u.
Proof.
  destruct o as [t|]; [|done]. simpl. unfold mbind, mtry.
  destruct (users.validate_session t w) as [[[v|]|] w1] eqn:Hv; try done.
  intros [= -> -> ->]. split; [done|]. by eapply validate_session_sound.
Qed.

Lemma resolve_legacy_sound sessions o sid k :
  (resolve_legacy_api_key_session sv sessions o).1 = Some (sid, k) →
  o = Some sid ∧ remembered sessions sid k.
Proof.
  destruct o as [t|]; [|done]. simpl. destruct (sessions !! t) as [s|] eqn:Hs; [|done].
  destruct (Z.ltb_spec (sv_instant sv - sd_created_at s) API_KEY_SESSION_MAX_AGE); [|done].
  intros [= -> <-]. split; [done|]. by exists s.
Qed.

(** What is resolved is what the request's credentials stand for. *)
Lemma resolve_sound sessions rq w auth sessions' w' :
  resolve sv sessions rq w = (Ok (auth, sessions'), w') →
  (∀ k, ra_bearer_api_key auth = Some k →
     ∃ token, rq_authorization rq = Some ("Bearer " +:+ token) ∧ stored_key w token k) ∧
  (∀ sid u, ra_user_session auth = Some (sid, u) →
     rq_cookie rq USER_SESSION_COOKIE = Some sid ∧ live_session w sid u) ∧
  (∀ sid k, ra_legacy_session auth = Some (sid, k) →
     rq_cookie rq API_KEY_SESSION_COOKIE = Some sid ∧ remembered sessions sid k).
Proof.
  unfold resolve, mbind. pose proof (resolve_bearer_keeps_sessions (bearer_token rq) w) as Hsame.
  destruct (resolve_bearer_api_key _ w) as [[b|] w1] eqn:Hb; [|done]. simpl in Hsame.
  destruct (resolve_user_session _ w1) as [[u|] w2] eqn:Hu; [|done].
  pose proof (resolve_legacy_sound sessions (rq_cookie rq API_KEY_SESSION_COOKIE)) as Hl.
  destruct (resolve_legacy_api_key_session _ _ _) as [l ss]. intros [= <- <- <-]. simpl.
  split_and!.
  - intros k ->. by eapply resolve_bearer_sound.
  - intros sid v ->. apply resolve_user_sound in Hu as [? Hlive]. split; [done|].
    destruct Hsame as (E1 & E2 & E3). unfold live_session in *. by rewrite E1, E2, E3 in Hlive.
  - intros sid k Hk. by apply Hl.
Qed.

Lemma csrf_ok rq sid :
  negb (is_read (rq_method rq)) && negb (valid_csrf_header sv rq sid) = false → proves_origin rq sid.
Proof.
  unfold proves_origin. destruct (is_read _); [by left|]. simpl. unfold valid_csrf_header.
  destruct (rq_csrf_token rq) as [t|]; [|done]. rewrite negb_false_iff. intros <-%bool_decide_eq_true.
  by right.
Qed.

Lemma require_api_key_sound sessions rq w ex sessions' w' :
  require_api_key sv sessions rq w = (Ok (Ok ex, sessions'), w') → authorised sessions rq w ex.
Proof.
  unfold require_api_key, mbind.
  destruct (resolve sv sessions rq w) as [[[auth ss]|] w1] eqn:Hr; [|done].
  apply resolve_sound in Hr as (Hb & Hu & Hl). intros [= Ha _ _]. revert Ha. unfold admit_request.
  destruct (ra_bearer_api_key auth) as [k|].
  { intros [= <-]. destruct (Hb k eq_refl) as (token & ? & ?). by eapply by_bearer. }
  destruct (ra_user_session auth) as [[sid u]|].
  { case_match eqn:Hc; [done|]. intros [= <-]. destruct (Hu sid u eq_refl) as [? ?].
    eapply by_user_session; [done..|by apply csrf_ok|done|done]. }
  destruct (ra_legacy_session auth) as [[sid k]|].
  { case_match eqn:Hc; [done|]. intros [= <-]. destruct (Hl sid k eq_refl) as [? ?].
    eapply by_key_session; [done..|by apply csrf_ok|done|done]. }
  case_match eqn:Hc; [|done]. intros [= <-]. apply andb_true_iff in Hc as [? Hc%negb_true_iff].
  by apply anonymous.
Qed.
(** ** Without an administrator *)

(** What an account may do, and what of a key is not a time stamp. *)
Definition standing (u : User) : Uuid * string * UserType.t * GlobalRole.t * bool * bool :=
  (u_id u, u_username u, u_user_type u, u_role u, u_enabled u, u_email_verified u).

Definition key_standing (k : ApiKey) : ApiKey := set_ak_last_used_at None k.

(** No account comes, goes or changes its standing, no key comes, goes or changes, and no
    password changes but that of [self]. *)
Definition unprivileged (self : option Uuid) (w w' : World) : Prop :=
  key_standing <$> w_api_keys w' = key_standing <$> w_api_keys w ∧
  standing <$> w_users w' = standing <$> w_users w ∧
  ∀ id, self ≠ Some id → u_password_hash <$> w_users w' !! id = u_password_hash <$> w_users w !! id.

#[local] Instance unprivileged_preorder self : PreOrder (unprivileged self).
Proof.
  split; [by intros w|]. intros w1 w2 w3 (E1 & E2 & E3) (F1 & F2 & F3). split_and!; [by etrans..|].
  intros id Hid. by rewrite F3, E3.
Qed.

Lemma unprivileged_faults self w fs : unprivileged self w (set_w_faults fs w).
Proof. done. Qed.

(** The same tables. *)
Lemma unprivileged_same self w w' :
  w_users w' = w_users w → w_api_keys w' = w_api_keys w → unprivileged self w w'.
Proof. intros E1 E2. unfold unprivileged. by rewrite E1, E2. Qed.

(** A change of one account that leads its standing. *)
Lemma unprivileged_alter self id (f : User → User) w :
  (∀ u, standing (f u) = standing u) →
  (self ≠ Some id → ∀ u, u_password_hash (f u) = u_password_hash u) →
  unprivileged self w (set_w_users (alter f id (w_users w)) w).
Proof.
  intros Hs Hp. split_and!; [done| |].
  - simpl. apply map_eq. intros i. rewrite !lookup_fmap.
    destruct (decide (id = i)) as [<-|]; [|by rewrite lookup_alter_ne].
    rewrite lookup_alter_eq. destruct (w_users w !! id) as [u|]; [|done]. simpl. by rewrite Hs.
  - intros i Hi. simpl. destruct (decide (id = i)) as [<-|]; [|by rewrite lookup_alter_ne].
    rewrite lookup_alter_eq. destruct (w_users w !! id) as [u|]; [|done]. simpl. by rewrite Hp.
Qed.

Lemma keeps_update_row self id f :
  (∀ now u, standing (f now u) = standing u) →
  (self ≠ Some id → ∀ now u, u_password_hash (f now u) = u_password_hash u) →
  leads (unprivileged self) (users.update_row id f).
Proof.
  intros Hs Hp. apply leads_query; [apply _|done|]. intros w. simpl.
  apply unprivileged_alter; [intros u; exact (Hs (w_now w) u)|].
  intros Hself u. exact (Hp Hself (w_now w) u).
Qed.

Lemma keeps_update_email self id email re :
  leads (unprivileged self) (users.update_email id email re).
Proof.
  apply leads_mbind; [apply _|by intros w|]. intros _. apply leads_query; [apply _|done|].
  intros w. destruct (w_users w !! id) as [u|] eqn:Hu; [|done]. case_match; [done|]. simpl.
  set (f u := set_u_updated_at (w_now w) (set_u_email email u)).
  change (set_u_updated_at _ _) with (f u). rewrite <-(alter_as_insert f id _ _ Hu).
  by apply unprivileged_alter.
Qed.

Lemma keeps_touch_key self id : leads (unprivileged self) (api_keys.touch_last_used id).
Proof.
  apply leads_query; [apply _|done|]. intros w. split_and!; [|done..]. simpl.
  apply map_eq. intros i. rewrite !lookup_fmap.
  destruct (decide (id = i)) as [<-|]; [|by rewrite lookup_alter_ne].
  rewrite lookup_alter_eq. by destruct (w_api_keys w !! id).
Qed.

Lemma keeps_resolve self sessions rq : leads (unprivileged self) (resolve sv sessions rq).
Proof.
  apply leads_mbind; [apply _| |intros b; apply leads_mbind; [apply _| |]].
  - destruct (bearer_token rq) as [token|]; [|by intros w].
    apply leads_mbind; [apply _|apply leads_mtry, leads_query; [apply _|done|by intros w]|].
    intros [[k|]|]; try by intros w. apply leads_mbind; [apply _| |by intros r w].
    apply leads_mtry, keeps_touch_key.
  - destruct (rq_cookie rq USER_SESSION_COOKIE) as [sid|]; [|by intros w].
    apply leads_mbind; [apply _| |by intros r w]. apply leads_mtry.
    apply leads_mbind; [apply _|apply leads_query; [apply _|done|by intros w]|].
    intros [u|]; [|by intros w]. apply leads_mbind; [apply _| |by intros r w].
    apply leads_mtry, leads_query; [apply _|done|by intros w].
  - intros u. destruct (resolve_legacy_api_key_session _ _ _). by intros w.
Qed.
(** *** The handlers *)

Context `{PasswordHash}.

(** The caller changes its own password, which it knows. *)
Definition changes_own_password (ex : Extensions) (c : ApiCall) (id : Uuid) : Prop :=
  ∃ u salt current new hash, ex_user ex = Some u ∧ u_id u = id ∧ c = ChangePassword salt current new ∧
    u_password_hash u = Some hash ∧ argon2_verify current hash = true.

Definition self_of (ex : Extensions) (c : ApiCall) : option Uuid :=
  match ex_user ex, c with
  | Some u, ChangePassword _ current _ =>
      match u_password_hash u with
      | Some hash => if argon2_verify current hash then Some (u_id u) else None
      | None => None
      end
  | _, _ => None
  end.

Lemma self_of_spec ex c id : self_of ex c = Some id → changes_own_password ex c id.
Proof.
  unfold self_of. destruct (ex_user ex) as [u|] eqn:Hu; [|done].
  destruct c as [| | | | | | |salt current new| | |]; try done.
  destruct (u_password_hash u) as [hash|] eqn:Hh; [|done].
  destruct (argon2_verify current hash) eqn:Hv; [|done]. intros [= <-].
  by exists u, salt, current, new, hash.
Qed.

Lemma keeps_admin_only self ex (m : M ApiResponse) :
  is_ok (require_admin ex) = false → leads (unprivileged self) (admin_only ex m).
Proof. unfold admin_only. destruct (require_admin ex); [done|]. by intros _ w. Qed.

Lemma keeps_get self id : leads (unprivileged self) (users.get id).
Proof. apply leads_or_not_found; [apply _|]. apply leads_query; [apply _|done|by intros w]. Qed.

Lemma keeps_update_me self ex data : leads (unprivileged self) (update_current_user sv ex data).
Proof.
  apply leads_api; [apply _|]. destruct (ex_user ex) as [u|]; [|by intros w].
  apply leads_mbind; [apply _| |intros _; apply leads_mbind; [apply _| |intros _; apply leads_mbind;
    [apply _| |intros _; apply leads_mbind; [apply _|apply keeps_get|by intros v w]]]];
    apply leads_when_some; try apply _; intros a _.
  - apply leads_mbind; [apply _|by intros w|]. intros _. by apply keeps_update_row.
  - apply keeps_update_email.
  - by apply keeps_update_row.
Qed.

Lemma keeps_change_password ex salt current new :
  leads (unprivileged (self_of ex (ChangePassword salt current new)))
    (change_password ex salt current new).
Proof.
  apply leads_api; [apply _|]. unfold self_of. destruct (ex_user ex) as [u|]; [|by intros w].
  destruct (u_password_hash u) as [hash|]; [|by intros w]. unfold verify_password.
  destruct (argon2_parse hash); [|by intros w].
  destruct (argon2_verify current hash); [|by intros w].
  apply leads_mbind; [apply _| |by intros v w].
  apply leads_mbind; [apply _|by intros w|intros _]. apply leads_mbind; [apply _|by intros w|].
  intros h. by apply keeps_update_row.
Qed.

Lemma keeps_handle ex c :
  is_ok (require_admin ex) = false → leads (unprivileged (self_of ex c)) (handle sv ex c).
Proof.
  intros Ha. destruct c; try by apply keeps_admin_only.
  - apply leads_api; [apply _|]. by destruct (ex_user ex), (ex_api_key ex); intros w.
  - apply keeps_update_me.
  - apply keeps_change_password.
Qed.

(** C20. Nobody raises a privilege without being an administrator: if no credential of the
    request is an administrator's, then whatever it asks of the API of accounts and keys, and
    whichever statements fail, no account appears, disappears, changes its role or is enabled
    or disabled, no key appears, disappears or changes, and no password changes but that of
    the caller, who has proved to know it. *)
Theorem privileges_need_admin sessions rq c w r w' :
  (∀ ex, authorised sessions rq w ex → is_ok (require_admin ex) = false) →
  serve sv sessions rq c w = (r, w') →
  ∃ self, unprivileged self w w' ∧
    ∀ id, self = Some id → ∃ ex, authorised sessions rq w ex ∧ changes_own_password ex c id.
Proof.
  intros Hna. unfold serve, mbind at 1.
  pose proof (λ self, keeps_resolve self sessions rq w) as Hres.
  destruct (require_api_key sv sessions rq w) as [r1 w1] eqn:Hk.
  assert (Hw1 : ∀ self, unprivileged self w w1).
  { intros self. specialize (Hres self). unfold require_api_key, mbind in Hk.
    destruct (resolve sv sessions rq w) as [[[]|] ?]; by injection Hk as <- <-. }
  destruct r1 as [[[ex|s] ss]|e]; [|intros [= <- <-]; by exists None..].
  apply require_api_key_sound in Hk. intros Hs. exists (self_of ex c). split.
  - etransitivity; [apply Hw1|].
    pose proof (keeps_handle ex c (Hna ex Hk) w1) as Hh. unfold mbind in Hs.
    destruct (handle sv ex c w1) as [[a|] w2]; by injection Hs as <- <-.
  - intros id Hid. exists ex. split; [done|]. by apply self_of_spec.
Qed.
End access.

Section admission.
Context `{Codecs} (sv : Server).

(** C19. A request reaches a handler of the API only as what its credentials prove: as the key
    whose token it bears, as the enabled user of a session that has not expired, or as the key
    a recent session remembers, in the last two cases with the token against forged requests
    unless it only reads; without any of these only reads pass, and only if the configuration
    opens them.  This holds whichever statements fail. *)
Theorem admitted_only_with_credentials sessions rq w ex sessions' w' :
  require_api_key sv sessions rq w = (Ok (Ok ex, sessions'), w') → authorised sv sessions rq w ex.
Proof. apply require_api_key_sound. Qed.
End admission.

(** ** Sessions *)

Section sessions.
Context `{Codecs}.

Lemma live_session_validates token w u :
  w_faults w = [] → (length (users.of_token (users.token_hash token) w) ≤ 1)%nat →
  live_session w token u → ∃ w', users.validate_session token w = (Ok (Some u), w').
Proof.
  intros Hf Hone (s & Hs & Hh & Hx & Hu & He).
  assert (Hin : s ∈ users.of_token (users.token_hash token) w).
  { apply elem_of_filter_rows. split; [done|]. by apply bool_decide_eq_true. }
  assert (Hl : users.of_token (users.token_hash token) w = [s]).
  { destruct (users.of_token _ w) as [|a [|b l]]; [by apply elem_of_nil in Hin| |simpl in Hone; lia].
    by apply list_elem_of_singleton in Hin as ->. }
  unfold users.validate_session, users.validate_session_fetch, mbind, query. rewrite Hf, Hl. simpl.
  unfold users.session_user. apply Z.ltb_lt in Hx. rewrite Hx, Hu, He. simpl.
  unfold mtry, users.validate_session_touch, query. rewrite Hf. by eexists.
Qed.

(** A session lets in exactly the user it stands for, while the user is enabled and the
    session has not expired. *)
Theorem session_exact token w u :
  w_faults w = [] → (length (users.of_token (users.token_hash token) w) ≤ 1)%nat →
  (∃ w', users.validate_session token w = (Ok (Some u), w')) ↔ live_session w token u.
Proof.
  intros Hf Hone. split; [by intros [w' Hv]; eapply validate_session_sound|].
  by apply live_session_validates.
Qed.

(** Sessions can be ended: after a logout the token is worth nothing, and no session of an
    account that has been disabled or deleted lets anybody in. *)
Theorem sessions_revocable token id w :
  w_faults w = [] →
  (∀ u, ¬ live_session (users.delete_session token w).2 token u) ∧
  (∀ s u, users.session_user (users.set_enabled id false w).2 s = Some u → us_user_id s ≠ id) ∧
  (∀ s u, users.session_user (users.delete id w).2 s = Some u → us_user_id s ≠ id).
Proof.
  intros Hf. split_and!.
  - intros u (s & Hs & Hh & _). revert Hs. unfold users.delete_session, query. rewrite Hf. simpl.
    rewrite elem_of_rows. intros [i [_ Hi]%map_lookup_filter_Some]. by destruct Hi.
  - intros s u (_ & Hu & He)%session_user_some <-. revert Hu.
    unfold users.set_enabled, users.update_row, query. rewrite Hf. simpl. rewrite lookup_alter_eq.
    destruct (w_users w !! us_user_id s); [|done]. by intros [= <-].
  - intros s u (_ & Hu & He)%session_user_some <-. revert Hu. unfold users.delete, query.
    rewrite Hf. destruct (w_users w !! us_user_id s) eqn:Hu; simpl; [by rewrite lookup_delete_eq|].
    by rewrite Hu.
Qed.
End sessions.

(** The gates of the pages and the checks of the API agree: the context a page is rendered
    with grants exactly the permissions the handlers require, and refuses with the same
    status. *)
Theorem dashboard_gates_agree ex p : require_permission (context_from_extensions ex) p = require ex p.
Proof.
  transitivity (if check ex p then Ok () else
                if is_authenticated ex then Err FORBIDDEN else Err UNAUTHORIZED); [by destruct p|].
  unfold check, require, session_role, is_authenticated.
  by destruct (ex_user ex) as [u|], (ex_api_key ex) as [k|].
Qed.

(** ** What does not hold *)

Section flaws.
Context `{Codecs} (sv : Server).

(** A session opened with an API key never looks at the table of keys again: for a day it
    lets its holder in as the key, whatever has become of the key. *)
Theorem key_session_outlives_key sessions sid s k rq w :
  bearer_token rq = None → rq_cookie rq USER_SESSION_COOKIE = None →
  rq_cookie rq API_KEY_SESSION_COOKIE = Some sid → sessions !! sid = Some s →
  sd_api_key s = Some k → sv_instant sv - sd_created_at s < API_KEY_SESSION_MAX_AGE →
  rq_csrf_token rq = Some (csrf_token_for sv sid) →
  ∃ ex, require_api_key sv sessions rq w = (Ok (Ok ex, sessions), w) ∧ ex_api_key ex = Some k ∧
    (ak_role k = GlobalRole.Admin → require_admin ex = Ok k).
Proof.
  intros Hb Hu Hl Hs Hk Ha Hc. unfold require_api_key, resolve, mbind. rewrite Hb, Hu, Hl. simpl.
  rewrite Hs. apply Z.ltb_lt in Ha. rewrite Ha. simpl. unfold admit_request. simpl.
  unfold valid_csrf_header. rewrite Hc, bool_decide_eq_true_2 by done. rewrite andb_false_r, Hk.
  eexists. split; [done|]. split; [done|]. intros Hr. unfold require_admin. simpl. by rewrite Hr.
Qed.

(** A browser that holds a session of either kind is locked out of the API: the pages carry
    the token of the key's session, the API wants that of the user's. *)
Theorem two_sessions_lock_out rq auth sid u sid' k :
  is_read (rq_method rq) = false → ra_bearer_api_key auth = None →
  ra_user_session auth = Some (sid, u) → ra_legacy_session auth = Some (sid', k) →
  csrf_token_for sv sid ≠ csrf_token_for sv sid' →
  rq_csrf_token rq = ex_csrf (session_extensions sv auth) →
  admit_request sv rq auth = Err FORBIDDEN.
Proof.
  intros Hr Hb Hu Hl Hne Hc. unfold admit_request. rewrite Hb, Hu, Hr. simpl.
  unfold session_extensions in Hc. rewrite Hl in Hc. simpl in Hc. unfold valid_csrf_header.
  by rewrite Hc, bool_decide_eq_false_2.
Qed.
End flaws.
