(* ===== verification/Accounts.v ===== *)
(** * Accounts over time

    The invariant of the tables of accounts, sessions, keys and members under any sequence of
    the repository functions, with failing statements; logging in with the password an
    account was created with; the declared members of a project. *)

From S2P Require Import Prelude Types Float32 Base32 Codecs Db Frames Tables NixJobs FlakeRefs Validate Secrets Users Auth AuthApi Access.

(** ** The invariant *)

Record accounts_ok (w : World) : Prop := {
  ao_users_keyed : keyed_by u_id (w_users w);
  ao_usernames : unique_on u_username (w_users w);
  ao_emails : unique_on u_email (w_users w);
  ao_keys_keyed : keyed_by ak_id (w_api_keys w);
  ao_hashes : unique_on ak_key_hash (w_api_keys w);
  ao_members_keyed : keyed_by pm_id (w_project_members w);
  ao_members : unique_on (λ m, (pm_project_id m, pm_user_id m)) (w_project_members w);
  ao_sessions_fk : ∀ i s, w_user_sessions w !! i = Some s → is_Some (w_users w !! us_user_id s);
  ao_members_fk : ∀ i m, w_project_members w !! i = Some m → is_Some (w_users w !! pm_user_id m);
}.

Definition preserves (w w' : World) : Prop := accounts_ok w → accounts_ok w'.

#[export] Instance preserves_preorder : PreOrder preserves.
Proof. split; [by intros w H|]. intros w1 w2 w3 H1 H2 H. by apply H2, H1. Qed.

Lemma preserves_faults w fs : preserves w (set_w_faults fs w).
Proof. intros H. by destruct H; split. Qed.

Ltac kept_query := apply leads_query; [apply _|apply preserves_faults|].

(** The steps of a sequence, one by one. *)
Ltac kept_seq t := apply leads_mbind; [apply _|t|intros ?].

(** No row has the value, if none is found. *)
Lemma filter_rows_nil {A} (p : A → bool) (t : gmap Z A) i x :
  List.filter p (rows t) = [] → t !! i = Some x → p x = false.
Proof.
  intros Hn Hx. destruct (p x) eqn:Hp; [|done].
  assert (x ∈ List.filter p (rows t)) as Hin; [|rewrite Hn in Hin; by apply elem_of_nil in Hin].
  apply elem_of_filter_rows. split; [|done]. apply elem_of_rows. by eauto.
Qed.

(** *** Statements on accounts *)

(** An update that leads the identity of the row. *)
Lemma preserves_alter_user w id f :
  (∀ u, u_id (f u) = u_id u ∧ u_username (f u) = u_username u ∧ u_email (f u) = u_email u) →
  preserves w (set_w_users (alter f id (w_users w)) w).
Proof.
  intros Hf [H1 H2 H3 H4 H5 H6 H7 H8 H9].
  assert (Hs : ∀ i, is_Some (w_users w !! i) → is_Some (alter f id (w_users w) !! i))
    by (intros i; by rewrite lookup_alter_is_Some).
  split; simpl; eauto with tables.
  - apply keyed_alter; [done|]. apply Hf.
  - apply unique_alter; [done|]. apply Hf.
  - apply unique_alter; [done|]. apply Hf.
Qed.

Lemma kept_update_row id f :
  (∀ now u, u_id (f now u) = u_id u ∧ u_username (f now u) = u_username u ∧
            u_email (f now u) = u_email u) →
  leads preserves (users.update_row id f).
Proof.
  intros Hf. kept_query. intros w. apply preserves_alter_user. intros u. exact (Hf (w_now w) u).
Qed.

(** A row that is new, or replaces the row of its identifier, under a name and an address no
    other row has. *)
Lemma preserves_insert_user w u :
  (∀ j v, w_users w !! j = Some v → u_username v = u_username u → j = u_id u) →
  (∀ j v, w_users w !! j = Some v → u_email v = u_email u → j = u_id u) →
  preserves w (set_w_users (<[u_id u := u]> (w_users w)) w).
Proof.
  intros Hn He [H1 H2 H3 H4 H5 H6 H7 H8 H9].
  assert (Hs : ∀ i, is_Some (w_users w !! i) → is_Some (<[u_id u := u]> (w_users w) !! i)).
  { intros i Hi. apply lookup_insert_is_Some'. by right. }
  split; simpl; eauto with tables; by apply unique_insert.
Qed.

Lemma kept_insert conflict id username email full_name hash ty role :
  leads preserves (users.insert conflict id username email full_name hash ty role).
Proof.
  kept_query. intros w. case_match; [by intros ?|].
  destruct (w_users w !! id) eqn:Hid; [by intros ?|].
  destruct (users.named username w) eqn:Hn; [|by intros ?].
  destruct (users.with_email email w) eqn:He; [|by intros ?].
  apply (preserves_insert_user w (users.new_user _ _ _ _ _ _ _ _)); simpl; intros j v Hv Hx.
  - pose proof (filter_rows_nil _ _ _ _ Hn Hv) as Hf. by apply bool_decide_eq_false in Hf.
  - pose proof (filter_rows_nil _ _ _ _ He Hv) as Hf. by apply bool_decide_eq_false in Hf.
Qed.

(** No other row has the address. *)
Lemma email_free w id email j v :
  keyed_by u_id (w_users w) →
  existsb (λ u, negb (u_id u =? id)) (users.with_email email w) = false →
  w_users w !! j = Some v → u_email v = email → j = id.
Proof.
  intros Hk Hx Hv He. destruct (decide (j = id)) as [|Hne]; [done|].
  enough (existsb (λ u, negb (u_id u =? id)) (users.with_email email w) = true) by congruence.
  apply existsb_exists. exists v. split.
  - apply list_elem_of_In, elem_of_filter_rows. split; [apply elem_of_rows; by eauto|].
    by apply bool_decide_eq_true.
  - rewrite (Hk _ _ Hv). by destruct (Z.eqb_spec j id).
Qed.

Lemma kept_update_email id email re : leads preserves (users.update_email id email re).
Proof.
  apply leads_mbind; [apply _|by intros w H|]. intros _. kept_query. intros w H.
  destruct (w_users w !! id) as [u|] eqn:Hu; [|done]. case_match eqn:Hx; [done|].
  pose proof (ao_users_keyed _ H id u Hu) as Hid. subst id.
  apply (preserves_insert_user w (set_u_updated_at (w_now w) (set_u_email email u))); [..|done];
    simpl; intros j v Hv E.
  - by eapply ao_usernames.
  - eapply email_free; [apply H|done..].
Qed.

Lemma kept_oauth_email id email : leads preserves (users.upsert_oauth_user_update_email id email).
Proof.
  kept_query. intros w H. case_match eqn:Hx; [done|]. simpl.
  destruct (w_users w !! id) as [u|] eqn:Hu.
  - set (f u := set_u_updated_at _ _). rewrite (alter_as_insert f id u) by done.
    pose proof (ao_users_keyed _ H id u Hu) as Hid. subst id.
    apply (preserves_insert_user w (f u)); [..|done]; simpl; intros j v Hv E.
    + by eapply ao_usernames.
    + eapply email_free; [apply H|done..].
  - replace (alter _ id (w_users w)) with (w_users w); [by destruct w|].
    apply map_eq. intros i. destruct (decide (id = i)) as [<-|]; [|by rewrite lookup_alter_ne].
    by rewrite lookup_alter_eq, Hu.
Qed.

Lemma kept_delete_user id : leads preserves (users.delete id).
Proof.
  kept_query. intros w. destruct (w_users w !! id) as [u|]; [|by intros ?].
  intros [H1 H2 H3 H4 H5 H6 H7 H8 H9].
  assert (Hkey : ∀ k, ak_id (if decide (ak_user_id k = Some id) then set_ak_user_id None k else k) = ak_id k ∧
    ak_key_hash (if decide (ak_user_id k = Some id) then set_ak_user_id None k else k) = ak_key_hash k)
    by (intros k; by case_decide).
  split; simpl; eauto with tables.
  - apply keyed_fmap; [done|]. apply Hkey.
  - apply unique_fmap; [done|]. apply Hkey.
  - intros i s [Hs Hi]%map_lookup_filter_Some. simpl in Hi. rewrite lookup_delete_ne by done. by eapply H8.
  - intros i m [Hm Hi]%map_lookup_filter_Some. simpl in Hi. rewrite lookup_delete_ne by done. by eapply H9.
Qed.

(** *** Statements on sessions and keys *)

Lemma preserves_sessions w t :
  (accounts_ok w → ∀ i s, t !! i = Some s → is_Some (w_users w !! us_user_id s)) →
  preserves w (set_w_user_sessions t w).
Proof. intros Ht H. specialize (Ht H). by destruct H; split. Qed.

Lemma preserves_keys w t :
  (accounts_ok w → keyed_by ak_id t ∧ unique_on ak_key_hash t) → preserves w (set_w_api_keys t w).
Proof. intros Ht H. destruct (Ht H). by destruct H; split. Qed.

Lemma preserves_members w t :
  (accounts_ok w → keyed_by pm_id t ∧ unique_on (λ m, (pm_project_id m, pm_user_id m)) t ∧
     ∀ i m, t !! i = Some m → is_Some (w_users w !! pm_user_id m)) →
  preserves w (set_w_project_members t w).
Proof. intros Ht H. destruct (Ht H) as (? & ? & ?). by destruct H; split. Qed.

Section repository.
Context `{Codecs} `{PasswordHash}.

Lemma kept_create_session id token now user_id :
  leads preserves (users.create_session id token now user_id).
Proof.
  kept_query. intros w. destruct (w_user_sessions w !! id); [by intros ?|].
  destruct (w_users w !! user_id) eqn:Hu; [|by intros ?]. apply preserves_sessions.
  intros Hok i s. rewrite lookup_insert_Some. intros [[<- <-]|[_ Hs]]; [simpl; by rewrite Hu|].
  by eapply ao_sessions_fk.
Qed.

Lemma kept_validate_session token : leads preserves (users.validate_session token).
Proof.
  apply leads_mbind; [apply _|by kept_query; intros w ?|]. intros [u|]; [|by intros w ?].
  apply leads_mbind; [apply _| |by intros r w ?]. apply leads_mtry. kept_query.
  intros w. apply preserves_sessions. intros Hok i s' (s & <- & Hs)%lookup_fmap_Some.
  pose proof (ao_sessions_fk _ Hok i s Hs). by case_decide.
Qed.

Lemma kept_delete_session token : leads preserves (users.delete_session token).
Proof.
  kept_query. intros w. apply preserves_sessions. intros Hok i s [Hs _]%map_lookup_filter_Some.
  by eapply ao_sessions_fk.
Qed.

Lemma kept_authenticate creds : leads preserves (users.authenticate creds).
Proof.
  apply leads_mbind; [apply _|by apply leads_mtry; kept_query; intros w ?|].
  intros [[u|]|]; try by intros w ?. destruct (u_password_hash u) as [hash|]; [|by intros w ?].
  apply leads_mbind; [apply _|by intros w ?|]. intros []; [|by intros w ?].
  apply leads_mbind; [apply _| |by intros r w ?]. apply leads_mtry. by apply kept_update_row.
Qed.

Lemma kept_create id salt data re : leads preserves (users.create id salt data re).
Proof.
  unfold users.create.
  do 5 kept_seq ltac:(by intros w ?). apply kept_insert.
Qed.

Lemma kept_get id : leads preserves (users.get id).
Proof. apply leads_or_not_found; [apply _|]. by kept_query; intros w ?. Qed.

Lemma kept_update id salt data re : leads preserves (users.update id salt data re).
Proof.
  assert (Hrow : ∀ A (o : option A) f,
    (∀ a now u, u_id (f a now u) = u_id u ∧ u_username (f a now u) = u_username u ∧
                u_email (f a now u) = u_email u) →
    leads preserves (users.when_some o (λ a, users.update_row id (f a)))).
  { intros A o f Hf. apply leads_when_some; [apply _|]. intros a _. by apply kept_update_row. }
  unfold users.update.
  kept_seq ltac:(apply leads_when_some; [apply _|intros e _; apply kept_update_email]).
  kept_seq ltac:(apply leads_when_some; [apply _|intros n _; kept_seq ltac:(by intros w ?);
    by apply kept_update_row]).
  kept_seq ltac:(apply leads_when_some; [apply _|intros q _; do 2 kept_seq ltac:(by intros w ?);
    by apply kept_update_row]).
  kept_seq ltac:(by apply Hrow). kept_seq ltac:(by apply Hrow). kept_seq ltac:(by apply Hrow).
  apply kept_get.
Qed.

Lemma kept_upsert_oauth id username email ty pid re :
  leads preserves (users.upsert_oauth_user id username email ty pid re).
Proof.
  apply leads_mbind; [apply _|by kept_query; intros w ?|]. intros [u|]; [|apply kept_insert].
  apply leads_mbind; [apply _| |intros _; apply kept_get]. destruct email as [e|].
  - apply leads_mbind; [apply _|by intros w ?|intros _]. apply kept_oauth_email.
  - by apply kept_update_row.
Qed.

Lemma kept_key_create id name hash role : leads preserves (api_keys.create id name hash role).
Proof.
  kept_query. intros w. case_match; [by intros ?|]. destruct (w_api_keys w !! id); [by intros ?|].
  destruct (api_keys.with_hash hash w) eqn:Hn; [|by intros ?]. apply preserves_keys. intros Hok. split.
  - apply keyed_insert; [apply Hok|done].
  - apply unique_insert; [apply Hok|]. intros j y Hy E.
    pose proof (filter_rows_nil _ _ _ _ Hn Hy) as Hf. by apply bool_decide_eq_false in Hf.
Qed.

Lemma kept_key_upsert id name hash role : leads preserves (api_keys.upsert id name hash role).
Proof.
  kept_query. intros w. case_match; [by intros ?|].
  destruct (api_keys.with_hash hash w) as [|old l] eqn:Hn.
  - destruct (w_api_keys w !! id); [by intros ?|]. apply preserves_keys. intros Hok. split.
    + apply keyed_insert; [apply Hok|done].
    + apply unique_insert; [apply Hok|]. intros j y Hy E.
      pose proof (filter_rows_nil _ _ _ _ Hn Hy) as Hf. by apply bool_decide_eq_false in Hf.
  - assert (Hin : old ∈ api_keys.with_hash hash w) by (rewrite Hn; by left).
    apply elem_of_filter_rows in Hin as [[i Hi]%elem_of_rows Hh%bool_decide_eq_true].
    apply preserves_keys. intros Hok. pose proof (ao_keys_keyed _ Hok _ _ Hi) as Hid. simpl. split.
    + apply keyed_insert; [apply Hok|done].
    + apply unique_insert; [apply Hok|]. simpl. intros j y Hy E. rewrite Hid.
      by eapply (ao_hashes _ Hok).
Qed.

Lemma kept_key_delete id : leads preserves (api_keys.delete id).
Proof.
  kept_query. intros w. destruct (w_api_keys w !! id); [|by intros ?]. apply preserves_keys.
  intros Hok. split; [apply keyed_delete, Hok|apply unique_delete, Hok].
Qed.

Lemma kept_key_touch id : leads preserves (api_keys.touch_last_used id).
Proof.
  kept_query. intros w. apply preserves_keys. intros Hok.
  split; [apply keyed_alter; [apply Hok|done]|apply unique_alter; [apply Hok|done]].
Qed.
End repository.

(** *** Statements on members *)

Lemma member_row_spec p u m :
  project_members.is_member_row p u m = true ↔ pm_project_id m = p ∧ pm_user_id m = u.
Proof. unfold project_members.is_member_row. by rewrite andb_true_iff, !Z.eqb_eq. Qed.

Lemma no_member w p u j m :
  project_members.find_row p u w = [] → w_project_members w !! j = Some m →
  (pm_project_id m, pm_user_id m) ≠ (p, u).
Proof.
  intros Hn Hm [= E1 E2]. pose proof (filter_rows_nil _ _ _ _ Hn Hm) as Hf.
  enough (project_members.is_member_row p u m = true) by congruence. by apply member_row_spec.
Qed.

Lemma preserves_new_member w id p u role :
  project_members.find_row p u w = [] → project_members.references_ok p u w = true →
  preserves w (set_w_project_members
    (<[id := project_members.new_member id (w_now w) p u role]> (w_project_members w)) w).
Proof.
  intros Hn Hr. apply preserves_members. intros Hok. split_and!.
  - apply keyed_insert; [apply Hok|done].
  - apply unique_insert; [apply Hok|]. intros j m Hm E. by destruct (no_member w p u j m).
  - intros i m. rewrite lookup_insert_Some. intros [[<- <-]|[_ Hm]]; [|by eapply ao_members_fk].
    unfold project_members.references_ok in Hr. by apply andb_true_iff in Hr as [_ Hr%bool_decide_eq_true].
Qed.

Lemma preserves_member_role w i m role :
  w_project_members w !! i = Some m →
  preserves w (set_w_project_members (<[i := set_pm_role role m]> (w_project_members w)) w).
Proof.
  intros Hm. apply preserves_members. intros Hok. split_and!.
  - apply keyed_insert; [apply Hok|]. simpl. by apply (ao_members_keyed _ Hok).
  - apply unique_insert; [apply Hok|]. intros j y Hy E. by eapply (ao_members _ Hok).
  - intros j y. rewrite lookup_insert_Some. intros [[<- <-]|[_ Hy]];
      [exact (ao_members_fk _ Hok i m Hm)|by eapply ao_members_fk].
Qed.

Lemma preserves_fewer_members w t :
  t ⊆ w_project_members w → preserves w (set_w_project_members t w).
Proof.
  intros Ht. apply preserves_members. intros Hok.
  assert (Hl : ∀ i m, t !! i = Some m → w_project_members w !! i = Some m)
    by (intros i m Hm; by apply (lookup_weaken _ _ _ _ Hm)).
  split_and!.
  - intros i m Hm%Hl. by apply (ao_members_keyed _ Hok).
  - intros i j x y Hx%Hl Hy%Hl. by eapply (ao_members _ Hok).
  - intros i m Hm%Hl. by eapply (ao_members_fk _ Hok).
Qed.

Lemma kept_member_create id p u role : leads preserves (project_members.create id p u role).
Proof.
  kept_query. intros w. destruct (project_members.find_row p u w) eqn:Hn; [|by intros ?].
  destruct (w_project_members w !! id); [by intros ?|].
  destruct (project_members.references_ok p u w) eqn:Hr; [|by intros ?]. by apply preserves_new_member.
Qed.

Lemma kept_member_upsert id p u role : leads preserves (project_members.upsert id p u role).
Proof.
  kept_query. intros w. destruct (project_members.find_row p u w) as [|m l] eqn:Hn.
  - destruct (w_project_members w !! id); [by intros ?|].
    destruct (project_members.references_ok p u w) eqn:Hr; [|by intros ?]. by apply preserves_new_member.
  - intros Hok. assert (Hin : m ∈ project_members.find_row p u w) by (rewrite Hn; by left).
    apply elem_of_filter_rows in Hin as [[i Hi]%elem_of_rows _]. simpl.
    rewrite (ao_members_keyed _ Hok _ _ Hi). by apply preserves_member_role.
Qed.

Lemma kept_member_update id role : leads preserves (project_members.update id role).
Proof.
  destruct role as [role|]; simpl.
  - kept_query. intros w. destruct (w_project_members w !! id) as [m|] eqn:Hm; [|by intros ?].
    by apply preserves_member_role.
  - apply leads_or_not_found; [apply _|]. by kept_query; intros w ?.
Qed.

Lemma kept_member_delete id : leads preserves (project_members.delete id).
Proof.
  kept_query. intros w. destruct (w_project_members w !! id); [|by intros ?].
  apply preserves_fewer_members, delete_subseteq.
Qed.

Lemma kept_member_delete_by p u : leads preserves (project_members.delete_by_project_and_user p u).
Proof.
  kept_query. intros w. destruct (project_members.find_row p u w); [by intros ?|].
  apply preserves_fewer_members, map_filter_subseteq.
Qed.

Lemma kept_member_sync new_id p members resolve :
  leads preserves (project_members.sync_for_project new_id p members resolve).
Proof.
  kept_seq ltac:(kept_query; intros w; apply preserves_fewer_members, map_filter_subseteq).
  induction members as [|m members IH]; simpl; [by intros w ?|]. kept_seq idtac; [|done].
  destruct (resolve _); [|by intros w ?]. kept_seq ltac:(apply kept_member_upsert). by intros w ?.
Qed.

(** ** Any sequence of operations *)

Inductive account_op :=
  | OpCreateUser (id : Uuid) (salt : string) (data : users.CreateUser)
  | OpUpdateUser (id : Uuid) (salt : string) (data : users.UpdateUser)
  | OpDeleteUser (id : Uuid)
  | OpOauthUser (id : Uuid) (username : string) (email : option string) (ty : UserType.t) (pid : string)
  | OpAuthenticate (creds : users.LoginCredentials)
  | OpCreateSession (id : Uuid) (token : string) (now : DateTime) (user_id : Uuid)
  | OpValidateSession (token : string)
  | OpDeleteSession (token : string)
  | OpCreateKey (id : Uuid) (name hash : string) (role : GlobalRole.t)
  | OpUpsertKey (id : Uuid) (name hash : string) (role : GlobalRole.t)
  | OpDeleteKey (id : Uuid)
  | OpTouchKey (id : Uuid)
  | OpCreateMember (id p u : Uuid) (role : ProjectRole.t)
  | OpUpdateMember (id : Uuid) (role : option ProjectRole.t)
  | OpDeleteMember (id : Uuid)
  | OpRemoveMember (p u : Uuid)
  | OpSyncMembers (new_id : Uuid → Uuid) (p : Uuid)
      (members : list project_members.DeclarativeProjectMember) (resolve : string → option Uuid).

Section runs.
Context `{Codecs} `{PasswordHash} (re : option (string → bool)).

Definition account_run (op : account_op) : M () :=
  match op with
  | OpCreateUser id salt data => discard (users.create id salt data re)
  | OpUpdateUser id salt data => discard (users.update id salt data re)
  | OpDeleteUser id => discard (users.delete id)
  | OpOauthUser id username email ty pid =>
      discard (users.upsert_oauth_user id username email ty pid re)
  | OpAuthenticate creds => discard (users.authenticate creds)
  | OpCreateSession id token now user_id => discard (users.create_session id token now user_id)
  | OpValidateSession token => discard (users.validate_session token)
  | OpDeleteSession token => discard (users.delete_session token)
  | OpCreateKey id name hash role => discard (api_keys.create id name hash role)
  | OpUpsertKey id name hash role => discard (api_keys.upsert id name hash role)
  | OpDeleteKey id => discard (api_keys.delete id)
  | OpTouchKey id => discard (api_keys.touch_last_used id)
  | OpCreateMember id p u role => discard (project_members.create id p u role)
  | OpUpdateMember id role => discard (project_members.update id role)
  | OpDeleteMember id => discard (project_members.delete id)
  | OpRemoveMember p u => discard (project_members.delete_by_project_and_user p u)
  | OpSyncMembers new_id p members resolve =>
      discard (project_members.sync_for_project new_id p members resolve)
  end.

Inductive account_step : World → World → Prop :=
  | account_operates op w : account_step w (account_run op w).2
  | account_time w now faults :
      w_now w ≤ now → account_step w (set_w_now now (set_w_faults faults w)).

Lemma leads_discard {A} (m : M A) : leads preserves m → leads preserves (discard m).
Proof. intros Hm. kept_seq ltac:(by apply leads_mtry). by intros w ?. Qed.

Lemma account_run_ok op w : accounts_ok w → accounts_ok (account_run op w).2.
Proof.
  revert w. change (leads preserves (account_run op)). destruct op; apply leads_discard;
    auto using kept_create, kept_update, kept_delete_user, kept_upsert_oauth, kept_authenticate,
      kept_create_session, kept_validate_session, kept_delete_session, kept_key_create,
      kept_key_upsert, kept_key_delete, kept_key_touch, kept_member_create, kept_member_update,
      kept_member_delete, kept_member_delete_by, kept_member_sync.
Qed.

(** Under any sequence of the operations on accounts, with failing statements, no two
    accounts share a name or an address, no two keys a hash, no user is twice a member of a
    project, and sessions and memberships belong to accounts that exist. *)
Theorem accounts_invariant w0 w :
  accounts_ok w0 → rtc account_step w0 w → accounts_ok w.
Proof.
  intros Hok. induction 1 as [|w0 w1 w Hs _ IH]; [done|]. apply IH.
  destruct Hs as [op w0|w0 now faults Hn]; [by apply account_run_ok|]. by destruct Hok; split.
Qed.
End runs.

(** ** Logging in *)

Section logging_in.
Context `{PasswordHash}.

(** The rows that match, with a new one. *)
Lemma filter_rows_insert {A} (p : A → bool) (t : gmap Z A) i x :
  t !! i = None → List.filter p (rows t) = [] → p x = true →
  List.filter p (rows (<[i := x]> t)) = [x].
Proof.
  intros Hi Hn Hp. apply Permutation_singleton_r. unfold rows.
  etransitivity; [apply filter_perm, fmap_Permutation, map_to_list_insert; done|].
  change (snd <$> ((i, x) :: map_to_list t)) with (x :: rows t). cbn [List.filter].
  by rewrite Hp, Hn.
Qed.

Lemma insert_ok conflict id username email full_name hash ty role w u w' :
  w_faults w = [] →
  users.insert conflict id username email full_name hash ty role w = (Ok u, w') →
  u = users.new_user id (w_now w) username email full_name hash ty role ∧
  w' = set_w_users (<[id := u]> (w_users w)) w ∧
  w_users w !! id = None ∧ users.named username w = [].
Proof.
  intros Hf. unfold users.insert, query. rewrite Hf. case_match; [done|].
  destruct (w_users w !! id) eqn:Hid; [done|]. destruct (users.named username w) eqn:Hn; [|done].
  destruct (users.with_email email w); [|done]. by intros [= <- <-].
Qed.

Lemma user_create_ok id salt data re w u w' :
  w_faults w = [] → users.create id salt data re w = (Ok u, w') →
  ∃ hash, argon2_hash salt (users.cu_password data) = Ok hash ∧ u_password_hash u = Some hash ∧
    u_username u = users.cu_username data ∧ u_id u = id ∧ u_enabled u = true ∧
    w' = set_w_users (<[id := u]> (w_users w)) w ∧
    w_users w !! id = None ∧ users.named (users.cu_username data) w = [].
Proof.
  intros Hf. unfold users.create, mbind, lift.
  destruct (validate_username _); [|done]. destruct (validate_email _ _); [|done].
  destruct (validate_password _); [|done].
  destruct (match users.cu_full_name data with Some n => validate_full_name n | None => Ok () end); [|done].
  unfold hash_password. destruct (argon2_hash _ _) as [hash|] eqn:Hh; [|done].
  intros (-> & -> & Hi & Hn)%insert_ok; [|done]. by exists hash.
Qed.

(** Whoever knows the password an account was created with can log in, and nobody who
    does not; once the account is disabled, nobody can. *)
Theorem login_after_create id salt data re password w u w' :
  w_faults w = [] → users.create id salt data re w = (Ok u, w') →
  (users.authenticate {| users.lc_username := users.cu_username data;
                         users.lc_password := users.cu_password data |} w').1 = Ok u ∧
  (argon2_verify password (default "" (u_password_hash u)) = false →
   (users.authenticate {| users.lc_username := users.cu_username data;
                          users.lc_password := password |} w').1 =
   Err (Unauthorized "Invalid credentials")) ∧
  (users.authenticate {| users.lc_username := users.cu_username data;
                         users.lc_password := users.cu_password data |}
     (users.set_enabled id false w').2).1 = Err (Unauthorized "Invalid credentials").
Proof.
  intros Hf (hash & Hh & Hp & Hu & Hid & He & -> & Hi & Hn)%user_create_ok; [|done].
  pose proof (argon2_hash_parses _ _ _ Hh) as Hparse. pose proof (argon2_hash_verifies _ _ _ Hh) as Hv.
  assert (Hname : ∀ v w', u_username v = u_username u → w_users w' = <[id := v]> (w_users w) →
    users.named (users.cu_username data) w' = [v]).
  { intros v w' Hvu Hw'. unfold users.named. rewrite Hw'. apply filter_rows_insert; [done..|].
    apply bool_decide_eq_true. congruence. }
  unfold users.authenticate, users.authenticate_fetch, mbind, mtry, query, verify_password, lift.
  simpl. rewrite Hf. split_and!.
  - rewrite (Hname u) by done. simpl. rewrite He. simpl. rewrite Hp, Hparse, Hv. simpl.
    unfold users.update_row, query. simpl. by rewrite Hf.
  - rewrite (Hname u) by done. simpl. rewrite He. simpl. rewrite Hp, Hparse. simpl. by intros ->.
  - unfold users.set_enabled, users.update_row, query. simpl. rewrite Hf. simpl. rewrite Hf.
    rewrite (Hname (set_u_updated_at (w_now w) (set_u_enabled false u))); [done|done|].
    simpl. by rewrite alter_insert_eq.
Qed.
End logging_in.

(** ** Examples *)

(** A hash that hides nothing and takes no salt. *)
#[export, program] Instance password_hash_ref : PasswordHash := {|
  argon2_hash := λ _ p, Ok ("$" +:+ p);
  argon2_parse := λ _, Ok ();
  argon2_verify := λ p h, bool_decide (h = "$" +:+ p);
|}.
Next Obligation. done. Qed.
Next Obligation. intros salt p h [= <-]. by apply bool_decide_eq_true. Qed.

Definition server_ex : Server :=
  {| sv_config := {| sc_host := "ci.example.org"; sc_force_secure_cookies := false;
                     sc_require_api_key_for_reads := true; sc_email_regex := None |};
     sv_csrf_mac := λ m, m; sv_instant := 1000000000 |}.

Definition request_ex (m : Method) (auth csrf : option string) (cookies : list (string * string)) :
    Request :=
  {| rq_method := m; rq_authorization := auth; rq_csrf_token := csrf;
     rq_cookie := λ name, match_str name cookies |}.

Definition alice_data : users.CreateUser :=
  {| users.cu_username := "alice"; users.cu_email := "alice@example.org"; users.cu_full_name := None;
     users.cu_password := "Correct-Horse-7"; users.cu_role := Some GlobalRole.CancelBuild |}.

(** Alice has an account and a session, an administrator has a key. *)
Definition accounts_ex : World :=
  (account_run None (OpCreateKey 9 "root" (users.token_hash "circus_root") GlobalRole.Admin)
  (account_run None (OpCreateSession 3 "sesame" 0 1)
  (account_run None (OpCreateUser 1 "salt" alice_data) empty_world).2).2).2.

Definition alice_ex : User :=
  users.new_user 1 0 "alice" "alice@example.org" None (Some "$Correct-Horse-7") UserType.Local_
    GlobalRole.CancelBuild.

Lemma empty_accounts_ok : accounts_ok empty_world.
Proof. split; intros i; intros; simplify_map_eq. Qed.

Lemma accounts_invariant_witness : accounts_ok accounts_ex.
Proof.
  apply (accounts_invariant None empty_world); [apply empty_accounts_ok|].
  eapply rtc_l; [|eapply rtc_l; [|apply rtc_once]]; apply account_operates.
Defined.

Lemma login_after_create_witness :
  (users.authenticate {| users.lc_username := "alice"; users.lc_password := "Correct-Horse-7" |}
     (users.create 1 "salt" alice_data None empty_world).2).1 = Ok alice_ex ∧
  (users.authenticate {| users.lc_username := "alice"; users.lc_password := "guess" |}
     (users.create 1 "salt" alice_data None empty_world).2).1 =
  Err (Unauthorized "Invalid credentials").
Proof.
  destruct (login_after_create 1 "salt" alice_data None "guess" empty_world alice_ex
    (users.create 1 "salt" alice_data None empty_world).2) as (H1 & H2 & _);
    [reflexivity|vm_compute; reflexivity|].
  split; [exact H1|apply H2; vm_compute; reflexivity].
Defined.

Lemma alice_session : live_session accounts_ex "sesame" alice_ex.
Proof.
  exists {| us_id := 3; us_user_id := 1; us_session_token_hash := users.token_hash "sesame";
            us_expires_at := 604800000000; us_created_at := 0; us_last_used_at := None |}.
  split_and!; [|done|done|by vm_compute|done].
  apply elem_of_rows. exists 3. by vm_compute.
Qed.

Lemma session_exact_witness :
  ∃ w', users.validate_session "sesame" accounts_ex = (Ok (Some alice_ex), w').
Proof.
  apply (session_exact "sesame" accounts_ex alice_ex); [reflexivity|vm_compute; lia|].
  apply alice_session.
Defined.

Lemma sessions_revocable_witness :
  (users.validate_session "sesame" (users.delete_session "sesame" accounts_ex).2).1 = Ok None ∧
  ¬ live_session (users.delete_session "sesame" accounts_ex).2 "sesame" alice_ex.
Proof.
  split; [vm_compute; reflexivity|].
  apply (proj1 (sessions_revocable "sesame" 1 accounts_ex eq_refl)).
Defined.

(** Alice cancels a build from the dashboard: the token her page carries lets her in. *)
Definition alice_request : Request :=
  request_ex POST None (Some (csrf_token_for server_ex "sesame")) [(USER_SESSION_COOKIE, "sesame")].

Lemma admitted_only_with_credentials_witness :
  ∃ ex, ex_user ex = Some alice_ex ∧ authorised server_ex ∅ alice_request accounts_ex ex.
Proof.
  destruct (require_api_key server_ex ∅ alice_request accounts_ex) as [[[[ex|s] ss]|e] w'] eqn:Hr;
    try (by vm_compute in Hr).
  exists ex. split; [by vm_compute in Hr; injection Hr as <-|].
  by apply (admitted_only_with_credentials server_ex ∅ alice_request accounts_ex ex _ w' Hr).
Defined.

Lemma alice_no_admin ex :
  authorised server_ex ∅ alice_request accounts_ex ex → is_ok (require_admin ex) = false.
Proof.
  destruct 1 as [token k ex Hb|sid u ex Hc Hl _ Hu Hk|sid k ex Hc|ex Hr]; try done.
  - unfold require_admin. rewrite Hu, Hk. injection Hc as <-.
    assert (u = alice_ex) as ->; [|done].
    destruct (live_session_validates "sesame" accounts_ex u eq_refl) as [w' Hv];
      [vm_compute; lia|done|]. by vm_compute in Hv; injection Hv as <-.
Qed.

Definition promote_alice : users.UpdateUser :=
  {| users.uu_email := None; users.uu_full_name := Some "Alice"; users.uu_password := None;
     users.uu_role := Some GlobalRole.Admin; users.uu_enabled := None;
     users.uu_public_dashboard := None |}.

(** Alice asks for the role of an administrator, and stays what she is. *)
Lemma privileges_need_admin_witness :
  let w' := (serve server_ex ∅ alice_request (UpdateMe promote_alice) accounts_ex).2 in
  (u_full_name <$> w_users w' !! 1) = Some (Some "Alice") ∧
  ∃ self, unprivileged self accounts_ex w' ∧
    ∀ id, self = Some id → ∃ ex, authorised server_ex ∅ alice_request accounts_ex ex ∧
      changes_own_password ex (UpdateMe promote_alice) id.
Proof.
  cbv zeta. split; [vm_compute; reflexivity|].
  eapply (privileges_need_admin server_ex ∅ alice_request (UpdateMe promote_alice) accounts_ex
    (serve server_ex ∅ alice_request (UpdateMe promote_alice) accounts_ex).1);
    [apply alice_no_admin|apply surjective_pairing].
Defined.

(** *** What does not hold *)

Definition root_key : ApiKey :=
  api_keys.new_key 9 0 "root" (users.token_hash "circus_root") GlobalRole.Admin.

Definition remembered_ex : SessionData :=
  {| sd_api_key := Some root_key; sd_user := None; sd_created_at := 1000000000 |}.

Definition browser_ex : Request :=
  request_ex POST None (Some (csrf_token_for server_ex "tok")) [(API_KEY_SESSION_COOKIE, "tok")].

(** The administrator's key is deleted; the browser that had logged in with it goes on. *)
Lemma key_session_outlives_key_witness :
  (login_action server_ex 5 "tok" ∅
     {| lf_username := None; lf_api_key := Some "circus_root"; lf_password := None |} accounts_ex).1 =
  Ok (LoginRedirect [api_key_session_cookie "tok" (sv_config server_ex)], <["tok" := remembered_ex]> ∅) ∧
  let w := (api_keys.delete 9 accounts_ex).2 in
  w_api_keys w = ∅ ∧
  ∃ ex, require_api_key server_ex (<["tok" := remembered_ex]> ∅) browser_ex w =
      (Ok (Ok ex, <["tok" := remembered_ex]> ∅), w) ∧
    ex_api_key ex = Some root_key ∧ (ak_role root_key = GlobalRole.Admin → require_admin ex = Ok root_key).
Proof.
  split; [vm_compute; reflexivity|]. cbv zeta. split; [vm_compute; reflexivity|].
  apply (key_session_outlives_key server_ex (<["tok" := remembered_ex]> ∅) "tok" remembered_ex root_key
    browser_ex); try (vm_compute; reflexivity).
Defined.

Lemma two_sessions_lock_out_witness :
  let auth := {| ra_bearer_api_key := None; ra_user_session := Some ("sesame", alice_ex);
                 ra_legacy_session := Some ("tok", Some root_key) |} in
  let token := ex_csrf (session_extensions server_ex auth) in
  is_some token = true ∧ admit_request server_ex (request_ex POST None token []) auth = Err FORBIDDEN.
Proof.
  cbv zeta. split; [reflexivity|].
  eapply (two_sessions_lock_out server_ex); try reflexivity. by vm_compute.
Defined.

(** A local account whose name ends like that of an account of GitHub is opened by GitHub. *)
Example github_opens_local_account :
  let w := (users.create 1 "salt" {| users.cu_username := "bob_5"; users.cu_email := "bob@example.org";
              users.cu_full_name := None; users.cu_password := "Correct-Horse-7";
              users.cu_role := Some GlobalRole.Admin |} None empty_world).2 in
  match users.upsert_oauth_user 2 "bob" (Some "mallory@example.org") UserType.Github "5" None w with
  | (Ok u, _) => u_id u = 1 ∧ u_role u = GlobalRole.Admin ∧ u_email u = "mallory@example.org"
  | _ => False
  end.
Proof. by vm_compute. Qed.

(** A new password leaves the sessions opened with the old one. *)
Example sessions_survive_password_change :
  match users.validate_session "sesame" (users.update_password 1 "salt" "Another-Horse-8" accounts_ex).2 with
  | (Ok (Some u), _) => u_id u = 1
  | _ => False
  end.
Proof. by vm_compute. Qed.

(** An update that fails half way leaves its first half. *)
Example update_not_atomic :
  match users.update 1 "salt" {| users.uu_email := Some "new@example.org"; users.uu_full_name := None;
    users.uu_password := Some "weak"; users.uu_role := None; users.uu_enabled := Some false;
    users.uu_public_dashboard := None |} None accounts_ex with
  | (Err _, w') => (u_email <$> w_users w' !! 1) = Some "new@example.org" ∧
                   (u_enabled <$> w_users w' !! 1) = Some true
  | _ => False
  end.
Proof. by vm_compute. Qed.
