(* ===== verification/AgentBuild.v ===== *)
(** * The agent: running one build

    [crates/agent/src/build.rs], with [crates/proto/src/nix_log.rs]: the agent spawns
    [nix-store --realise], forwards what it prints to the runner's log sink in batches and
    decides the outcome.  [run_command] is one loop over the events of [tokio::select!]; an
    iteration is a [turn], whose record holds what the clock, the reader tasks, the child
    and the sink do during it.  A turn in which [select!] could not have taken the branch
    it names is impossible, and [turn] says so.  Instants and durations are in nanoseconds. *)

From S2P Require Import Prelude Types Float32 Base32 Codecs StorePath Pool Db Builders Sinks NixJobs.

(** ** The lines of [--log-format internal-json] *)

Module nix_log.
Definition BUILD_LOG_LINE : Z := 101.
Definition POST_BUILD_LOG_LINE : Z := 107.

Inductive LogLine :=
  | Message (level : Z) (text : string)
  | Output (text : string).

Definition is_envelope (line : string) : bool := starts_with "@nix " line.

(** [json_from_str] is [serde_json::from_str]. *)
Definition parse_line (json_from_str : string → option Json) (line : string) : option LogLine :=
  let* rest := strip_prefix "@nix " line in
  let* v := json_from_str (trim rest) in
  let* action := json_get_str "action" v in
  if bool_decide (action = "msg") then
    let* msg := match json_get "msg" v with Some m => Some m | None => json_get "raw_msg" v end in
    let* text := json_str msg in
    Some (Message (default 3 (json_get_i64 "level" v)) text)
  else if bool_decide (action = "result") then
    match json_get_i64 "type" v with
    | Some ty =>
        if (ty =? BUILD_LOG_LINE) || (ty =? POST_BUILD_LOG_LINE) then
          let* fields := json_get_array "fields" v in
          let* first := head fields in
          let* text := json_str first in Some (Output text)
        else None
    | None => None
    end
  else None.
End nix_log.

(** ** Data *)

Definition MAX_LOG_BATCH_BYTES : Z := 262144.
Definition MAX_LOG_BATCH_LINES : Z := 4096.

Record Tunables := {
  drain_grace : Z;
  write_timeout : Z;
  reap_timeout : Z;
}.

Definition SEC : Z := 1000000000.
Definition MILLI : Z := 1000000.

Definition tunables_default : Tunables :=
  {| drain_grace := 300 * SEC; write_timeout := 60 * SEC; reap_timeout := 30 * SEC |}.

Record BuildOptions := {
  bo_drv_path : string;
  bo_max_log_size : Z;
  bo_max_silent_time : Z;
  bo_build_timeout : Z;
  bo_cores : Z;
  bo_extra_args : list string;
  bo_cache_substituter : string;
  bo_cache_public_key : string;
  bo_rootless : bool;
}.

Record ResolvedOutput := {
  ro_name : string;
  ro_path : string;
}.

Record LocalResult := {
  lr_outcome : ResultSink.BuildOutcome;
  lr_exit_code : Z;
  lr_build_time_ms : Z;
  lr_upload_time_ms : Z;
  lr_outputs : list ResolvedOutput;
  lr_error_message : string;
}.

(** [std::process::ExitStatus]: a process exits with a code or dies of a signal. *)
Inductive ExitStatus := Exited (code : Z) | Signalled (signal : Z).

#[global] Instance exit_status_eq_dec : EqDecision ExitStatus.
Proof. solve_decision. Defined.

Definition exit_success (s : ExitStatus) : bool := bool_decide (s = Exited 0).
Definition exit_code (s : ExitStatus) : option Z :=
  match s with Exited c => Some c | Signalled _ => None end.
Definition exit_signal (s : ExitStatus) : option Z :=
  match s with Exited _ => None | Signalled n => Some n end.

(** ** The rootless helper ([sandbox.rs])

    In rootless mode the child is the helper, which waits for the sandboxed process and
    exits with a code in its place. *)
Inductive WaitStatus := WExited (code : Z) | WSignaled (signal : Z) | WOther.

Definition parent_handshake_code (w : WaitStatus) : Z :=
  match w with
  | WExited code => code
  | WSignaled sig => 128 + sig
  | WOther => 127
  end.

Inductive Event :=
  | Line (l : option (result string string))
  | ChildExited (s : result string ExitStatus)
  | SilentTimeout
  | DeadlineTimeout
  | Cancelled.

(** ** Helpers *)

Definition build_command (opts : BuildOptions) : list string :=
  ["--realise"; "--log-format"; "internal-json"; bo_drv_path opts] ++
  (if is_empty (bo_cache_substituter opts) then []
   else ["--option"; "extra-substituters"; bo_cache_substituter opts] ++
        (if is_empty (bo_cache_public_key opts) then []
         else ["--option"; "extra-trusted-public-keys"; bo_cache_public_key opts])) ++
  (if 0 <? bo_cores opts then ["--option"; "cores"; pretty (bo_cores opts)] else []) ++
  bo_extra_args opts.

Definition remaining_silent (max_silent : Z) (last_output now : Instant) : option Z :=
  if max_silent =? 0 then None
  else Some (Z.max (Z.max (max_silent - (now - last_output)) 0) MILLI).

Definition summary_max : nat := 4096.

(** [s.char_indices().nth_back(n)] and the text from there on, [s] read from its end. *)
Fixpoint nth_back_from (n : nat) (rev tail : list ascii) : option (list ascii) :=
  match rev with
  | [] => None
  | c :: rev =>
      if is_continuation c then nth_back_from n rev (c :: tail)
      else match n with
           | O => Some (c :: tail)
           | S n => nth_back_from n rev (c :: tail)
           end
  end.

(** The ellipsis is three bytes of UTF-8. *)
Definition ELLIPSIS : string := of_bytes [226; 128; 166]%N.

(** The last ten messages, in their order. *)
Definition summarize_failure (msgs : list string) : string :=
  let tail := reverse (take 10 (reverse msgs)) in
  let s := str_join (String NL "") tail in
  match nth_back_from (summary_max - 1) (reverse (str_chars s)) [] with
  | Some cut => ELLIPSIS +:+ str_of cut
  | None => s
  end.

(** [serde_json]'s objects in key order; [show] is the parsed output of
    [nix derivation show] when the command succeeds. *)
Definition json_object (j : Json) : option (list (string * Json)) :=
  match j with JObj l => Some l | _ => None end.

Fixpoint keyed_outputs (l : list (string * Json)) : option (list (string * string)) :=
  match l with
  | [] => Some []
  | (name, info) :: l =>
      let* o := json_object info in
      let* p := match_str "path" o in
      let* path := json_str p in
      let* rest := keyed_outputs l in
      Some ((name, path) :: rest)
  end.

(** The [BTreeMap] the outputs go through sorts them by name. *)
Definition query_outputs_via_show (show : option Json) : option (list ResolvedOutput) :=
  let* v := show in
  let* top := json_object v in
  let* first := head top in
  let* drv := json_object first.2 in
  let* os := match_str "outputs" drv in
  let* outputs := json_object os in
  let* keyed := keyed_outputs outputs in
  Some ((λ '(n, p), {| ro_name := n; ro_path := p |}) <$>
        sort_by (λ a b, String.compare a.1 b.1) keyed).

Fixpoint listed_outputs (i : Z) (ls : list string) : list ResolvedOutput :=
  match ls with
  | [] => []
  | l :: ls =>
      let p := trim l in
      let rest := listed_outputs (i + 1) ls in
      if is_empty p then rest
      else {| ro_name := if i =? 0 then "out" else "out" +:+ pretty i; ro_path := p |} :: rest
  end.

(** [listing]: what [nix-store --query --outputs] prints when it succeeds. *)
Definition query_outputs (show : option Json) (listing : option string) : list ResolvedOutput :=
  match query_outputs_via_show show with
  | Some parsed => parsed
  | None => match listing with Some text => listed_outputs 0 (lines text) | None => [] end
  end.

(** ** The supervision loop *)

(** The local variables of [run_command]; [rc_queue] is what the channel of the reader
    tasks holds and [rc_writes] what was handed to [forward_chunk]. *)
Record Run := {
  rc_bytes_sent : Z;
  rc_error : string;
  rc_log_size_exceeded : bool;
  rc_sink_failed : bool;
  rc_log_truncated : bool;
  rc_aborted : bool;
  rc_timed_out : bool;
  rc_killed : bool;
  rc_status : option ExitStatus;
  rc_drain : option Instant;
  rc_last_output : Instant;
  rc_recent : list string;
  rc_queue : list (result string string);
  rc_writes : list (list Z);
}.

Definition set_bytes_sent (x : Z) (s : Run) : Run :=
  {| rc_bytes_sent := x; rc_error := rc_error s; rc_log_size_exceeded :=
     rc_log_size_exceeded s; rc_sink_failed := rc_sink_failed s; rc_log_truncated :=
     rc_log_truncated s; rc_aborted := rc_aborted s; rc_timed_out := rc_timed_out s;
     rc_killed := rc_killed s; rc_status := rc_status s; rc_drain := rc_drain s;
     rc_last_output := rc_last_output s; rc_recent := rc_recent s; rc_queue := rc_queue s;
     rc_writes := rc_writes s |}.
Definition set_error (x : string) (s : Run) : Run :=
  {| rc_bytes_sent := rc_bytes_sent s; rc_error := x; rc_log_size_exceeded :=
     rc_log_size_exceeded s; rc_sink_failed := rc_sink_failed s; rc_log_truncated :=
     rc_log_truncated s; rc_aborted := rc_aborted s; rc_timed_out := rc_timed_out s;
     rc_killed := rc_killed s; rc_status := rc_status s; rc_drain := rc_drain s;
     rc_last_output := rc_last_output s; rc_recent := rc_recent s; rc_queue := rc_queue s;
     rc_writes := rc_writes s |}.
Definition set_log_size_exceeded (x : bool) (s : Run) : Run :=
  {| rc_bytes_sent := rc_bytes_sent s; rc_error := rc_error s; rc_log_size_exceeded :=
     x; rc_sink_failed := rc_sink_failed s; rc_log_truncated := rc_log_truncated s;
     rc_aborted := rc_aborted s; rc_timed_out := rc_timed_out s; rc_killed := rc_killed s;
     rc_status := rc_status s; rc_drain := rc_drain s; rc_last_output := rc_last_output s;
     rc_recent := rc_recent s; rc_queue := rc_queue s; rc_writes := rc_writes s |}.
Definition set_sink_failed (x : bool) (s : Run) : Run :=
  {| rc_bytes_sent := rc_bytes_sent s; rc_error := rc_error s; rc_log_size_exceeded :=
     rc_log_size_exceeded s; rc_sink_failed := x; rc_log_truncated := rc_log_truncated s;
     rc_aborted := rc_aborted s; rc_timed_out := rc_timed_out s; rc_killed := rc_killed s;
     rc_status := rc_status s; rc_drain := rc_drain s; rc_last_output := rc_last_output s;
     rc_recent := rc_recent s; rc_queue := rc_queue s; rc_writes := rc_writes s |}.
Definition set_log_truncated (x : bool) (s : Run) : Run :=
  {| rc_bytes_sent := rc_bytes_sent s; rc_error := rc_error s; rc_log_size_exceeded :=
     rc_log_size_exceeded s; rc_sink_failed := rc_sink_failed s; rc_log_truncated := x;
     rc_aborted := rc_aborted s; rc_timed_out := rc_timed_out s; rc_killed := rc_killed s;
     rc_status := rc_status s; rc_drain := rc_drain s; rc_last_output := rc_last_output s;
     rc_recent := rc_recent s; rc_queue := rc_queue s; rc_writes := rc_writes s |}.
Definition set_aborted (x : bool) (s : Run) : Run :=
  {| rc_bytes_sent := rc_bytes_sent s; rc_error := rc_error s; rc_log_size_exceeded :=
     rc_log_size_exceeded s; rc_sink_failed := rc_sink_failed s; rc_log_truncated :=
     rc_log_truncated s; rc_aborted := x; rc_timed_out := rc_timed_out s; rc_killed :=
     rc_killed s; rc_status := rc_status s; rc_drain := rc_drain s; rc_last_output :=
     rc_last_output s; rc_recent := rc_recent s; rc_queue := rc_queue s; rc_writes :=
     rc_writes s |}.
Definition set_timed_out (x : bool) (s : Run) : Run :=
  {| rc_bytes_sent := rc_bytes_sent s; rc_error := rc_error s; rc_log_size_exceeded :=
     rc_log_size_exceeded s; rc_sink_failed := rc_sink_failed s; rc_log_truncated :=
     rc_log_truncated s; rc_aborted := rc_aborted s; rc_timed_out := x; rc_killed :=
     rc_killed s; rc_status := rc_status s; rc_drain := rc_drain s; rc_last_output :=
     rc_last_output s; rc_recent := rc_recent s; rc_queue := rc_queue s; rc_writes :=
     rc_writes s |}.
Definition set_killed (x : bool) (s : Run) : Run :=
  {| rc_bytes_sent := rc_bytes_sent s; rc_error := rc_error s; rc_log_size_exceeded :=
     rc_log_size_exceeded s; rc_sink_failed := rc_sink_failed s; rc_log_truncated :=
     rc_log_truncated s; rc_aborted := rc_aborted s; rc_timed_out := rc_timed_out s;
     rc_killed := x; rc_status := rc_status s; rc_drain := rc_drain s; rc_last_output :=
     rc_last_output s; rc_recent := rc_recent s; rc_queue := rc_queue s; rc_writes :=
     rc_writes s |}.
Definition set_status (x : option ExitStatus) (s : Run) : Run :=
  {| rc_bytes_sent := rc_bytes_sent s; rc_error := rc_error s; rc_log_size_exceeded :=
     rc_log_size_exceeded s; rc_sink_failed := rc_sink_failed s; rc_log_truncated :=
     rc_log_truncated s; rc_aborted := rc_aborted s; rc_timed_out := rc_timed_out s;
     rc_killed := rc_killed s; rc_status := x; rc_drain := rc_drain s; rc_last_output :=
     rc_last_output s; rc_recent := rc_recent s; rc_queue := rc_queue s; rc_writes :=
     rc_writes s |}.
Definition set_drain (x : option Instant) (s : Run) : Run :=
  {| rc_bytes_sent := rc_bytes_sent s; rc_error := rc_error s; rc_log_size_exceeded :=
     rc_log_size_exceeded s; rc_sink_failed := rc_sink_failed s; rc_log_truncated :=
     rc_log_truncated s; rc_aborted := rc_aborted s; rc_timed_out := rc_timed_out s;
     rc_killed := rc_killed s; rc_status := rc_status s; rc_drain := x; rc_last_output :=
     rc_last_output s; rc_recent := rc_recent s; rc_queue := rc_queue s; rc_writes :=
     rc_writes s |}.
Definition set_last_output (x : Instant) (s : Run) : Run :=
  {| rc_bytes_sent := rc_bytes_sent s; rc_error := rc_error s; rc_log_size_exceeded :=
     rc_log_size_exceeded s; rc_sink_failed := rc_sink_failed s; rc_log_truncated :=
     rc_log_truncated s; rc_aborted := rc_aborted s; rc_timed_out := rc_timed_out s;
     rc_killed := rc_killed s; rc_status := rc_status s; rc_drain := rc_drain s;
     rc_last_output := x; rc_recent := rc_recent s; rc_queue := rc_queue s; rc_writes :=
     rc_writes s |}.
Definition set_recent (x : list string) (s : Run) : Run :=
  {| rc_bytes_sent := rc_bytes_sent s; rc_error := rc_error s; rc_log_size_exceeded :=
     rc_log_size_exceeded s; rc_sink_failed := rc_sink_failed s; rc_log_truncated :=
     rc_log_truncated s; rc_aborted := rc_aborted s; rc_timed_out := rc_timed_out s;
     rc_killed := rc_killed s; rc_status := rc_status s; rc_drain := rc_drain s;
     rc_last_output := rc_last_output s; rc_recent := x; rc_queue := rc_queue s; rc_writes
     := rc_writes s |}.
Definition set_queue (x : list (result string string)) (s : Run) : Run :=
  {| rc_bytes_sent := rc_bytes_sent s; rc_error := rc_error s; rc_log_size_exceeded :=
     rc_log_size_exceeded s; rc_sink_failed := rc_sink_failed s; rc_log_truncated :=
     rc_log_truncated s; rc_aborted := rc_aborted s; rc_timed_out := rc_timed_out s;
     rc_killed := rc_killed s; rc_status := rc_status s; rc_drain := rc_drain s;
     rc_last_output := rc_last_output s; rc_recent := rc_recent s; rc_queue := x; rc_writes
     := rc_writes s |}.
Definition set_writes (x : list (list Z)) (s : Run) : Run :=
  {| rc_bytes_sent := rc_bytes_sent s; rc_error := rc_error s; rc_log_size_exceeded :=
     rc_log_size_exceeded s; rc_sink_failed := rc_sink_failed s; rc_log_truncated :=
     rc_log_truncated s; rc_aborted := rc_aborted s; rc_timed_out := rc_timed_out s;
     rc_killed := rc_killed s; rc_status := rc_status s; rc_drain := rc_drain s;
     rc_last_output := rc_last_output s; rc_recent := rc_recent s; rc_queue := rc_queue s;
     rc_writes := x |}.

Definition run_start (now : Instant) : Run :=
  {| rc_bytes_sent := 0; rc_error := ""; rc_log_size_exceeded := false;
     rc_sink_failed := false; rc_log_truncated := false; rc_aborted := false;
     rc_timed_out := false; rc_killed := false; rc_status := None; rc_drain := None;
     rc_last_output := now; rc_recent := []; rc_queue := []; rc_writes := [] |}.

(** [start_kill], with the message that says why. *)
Definition kill (error : string) (s : Run) : Run := set_killed true (set_error error s).

Definition observe_exit (try_wait : option ExitStatus) (now : Instant) (grace : Z) (s : Run) :
    bool * Run :=
  let s := match rc_status s, try_wait with
           | None, Some st => set_status (Some st) (set_drain (Some (now + grace)) s)
           | _, _ => s
           end in
  (is_some (rc_status s), s).

(** The branch [select!] takes. *)
Inductive Select :=
  | SelLine
  | SelExited (s : result string ExitStatus)
  | SelSilent
  | SelDeadline
  | SelCancelled.

Inductive WriteAnswer :=
  | Written
  | WriteError (e : string)
  | WriteCancelled.

(** What happens during an iteration: the lines that reach the channel until it is read;
    the clock at the top of the loop and when [select!] returns; the branch; what
    [try_wait] answers the first time it is asked; how the write of the batch ends and
    when; the clock at the check of the deadline, what [try_wait] answers there, and the
    clock after it. *)
Record Turn := {
  t_arrived : list (result string string);
  t_start : Instant;
  t_now : Instant;
  t_select : Select;
  t_try_wait : option ExitStatus;
  t_write : WriteAnswer;
  t_written : Instant;
  t_check : Instant;
  t_try_wait_late : option ExitStatus;
  t_late : Instant;
}.

Inductive Step :=
  | Continue (s : Run)
  | Break (s : Run)
  | Raise (e : string).

Section run_command.
Variable json_from_str : string → option Json.
Variable opts : BuildOptions.
Variable tun : Tunables.
Variable overall_deadline : option Instant.

Definition phase_deadline (s : Run) : option Instant :=
  if is_none (rc_status s) then overall_deadline else rc_drain s.

Definition deadline_timeout (now : Instant) (s : Run) : option Z :=
  let* deadline := phase_deadline s in Some (Z.max (Z.max (deadline - now) 0) MILLI).

(** The timers of [select!]: a branch is taken when its guard holds and its time is up. *)
Definition due (start now : Instant) (d : option Z) : bool :=
  match d with Some d => start + d <=? now | None => false end.

Definition can_select (t : Turn) (s : Run) : bool :=
  let pre_exit := is_none (rc_status s) in
  match t_select t with
  | SelLine | SelCancelled => true
  | SelExited _ => pre_exit
  | SelSilent =>
      pre_exit && due (t_start t) (t_now t)
                    (remaining_silent (bo_max_silent_time opts) (rc_last_output s) (t_start t))
  | SelDeadline => due (t_start t) (t_now t) (deadline_timeout (t_start t) s)
  end.

(** [line_rx.recv()] gives [None] once the channel is closed and empty. *)
Definition event_of (sel : Select) (s : Run) : Event * Run :=
  match sel with
  | SelLine =>
      match rc_queue s with
      | l :: q => (Line (Some l), set_queue q s)
      | [] => (Line None, s)
      end
  | SelExited st => (ChildExited st, s)
  | SelSilent => (SilentTimeout, s)
  | SelDeadline => (DeadlineTimeout, s)
  | SelCancelled => (Cancelled, s)
  end.

Definition note_message (line : string) (s : Run) : Run :=
  match nix_log.parse_line json_from_str line with
  | Some (nix_log.Message _ text) =>
      let recent := if (length (rc_recent s) =? 32)%nat then tail (rc_recent s)
                    else rc_recent s in
      set_recent (recent ++ [text]) s
  | _ => s
  end.

(** One line of a batch: it goes into the batch while the log has room. *)
Definition take_line (line : string) (s : Run) (batch : list Z) (batch_lines : Z) :
    Run * list Z * Z :=
  if rc_log_size_exceeded s || rc_log_truncated s || rc_sink_failed s
  then (s, batch, batch_lines)
  else if bo_max_log_size opts <? u64_saturating_add (rc_bytes_sent s) (str_len line + 1) then
    (if is_none (rc_status s)
     then set_log_size_exceeded true (kill "max-log-size exceeded" s)
     else set_log_truncated true s, batch, batch_lines)
  else
    (set_bytes_sent (u64_saturating_add (rc_bytes_sent s) (str_len line + 1)) s,
     (match batch with [] => [] | _ => batch ++ [10] end) ++ as_bytes line,
     batch_lines + 1).

(** The inner loop, with [try_recv] on the channel. *)
Fixpoint fill (line : string) (queue : list (result string string)) (s : Run)
    (batch : list Z) (batch_lines : Z) : Run * list Z * option string :=
  let '(s, batch, batch_lines) := take_line line (note_message line s) batch batch_lines in
  if (MAX_LOG_BATCH_BYTES <=? zlen batch) || (MAX_LOG_BATCH_LINES <=? batch_lines)
  then (set_queue queue s, batch, None)
  else match queue with
       | Ok l :: queue => fill l queue s batch batch_lines
       | Err e :: queue => (set_queue queue s, batch, Some e)
       | [] => (set_queue [] s, batch, None)
       end.

(** The write of a batch; [None] when the cancelled branch is not there to be taken. *)
Definition write_batch (t : Turn) (s : Run) (batch : list Z) : option Step :=
  match batch with
  | [] => Some (Continue s)
  | _ =>
      let s := set_writes (rc_writes s ++ [batch]) s in
      match t_write t with
      | Written => Some (Continue s)
      | WriteError _ =>
          let '(exited, s) := observe_exit (t_try_wait t) (t_written t) (drain_grace tun) s in
          if exited then Some (Break (set_log_truncated true s))
          else Some (Continue (set_killed true (set_sink_failed true s)))
      | WriteCancelled =>
          if is_some (rc_status s) then None
          else
            let '(exited, s) := observe_exit (t_try_wait t) (t_written t) (drain_grace tun) s in
            if exited then Some (Break (set_log_truncated true s))
            else Some (Break (set_aborted true (kill "aborted by runner" s)))
      end
  end.

(** The end of an iteration that handled lines. *)
Definition check_deadline (t : Turn) (s : Run) : Step :=
  match phase_deadline s with
  | None => Continue s
  | Some deadline =>
      if t_check t <? deadline then Continue s
      else
        let was_pre_exit := is_none (rc_status s) in
        let '(exited, s) :=
          if was_pre_exit
          then observe_exit (t_try_wait_late t) (t_check t) (drain_grace tun) s
          else (false, s) in
        if exited && match rc_drain s with Some d => t_late t <? d | None => false end
        then Continue s
        else if is_none (rc_status s)
        then Break (set_timed_out true (kill "build-timeout exceeded" s))
        else Break (set_log_truncated true s)
  end.

(** What an event without a line does, or the line it brings. *)
Inductive Handled := Done (st : Step) | First (line : string) (s : Run).

Definition handle_event (t : Turn) (ev : Event) (s : Run) : Handled :=
  let observe := observe_exit (t_try_wait t) (t_now t) (drain_grace tun) in
  match ev with
  | ChildExited (Err e) => Done (Raise e)
  | ChildExited (Ok st) =>
      Done (Continue (if is_none (rc_status s)
                      then set_status (Some st)
                             (set_drain (Some (t_now t + drain_grace tun)) s)
                      else s))
  | SilentTimeout =>
      let '(exited, s) := observe s in
      Done (if exited then Continue s else Break (kill "max-silent-time exceeded" s))
  | DeadlineTimeout =>
      let '(exited, s) := if is_none (rc_status s) then observe s else (false, s) in
      Done (if exited then Continue s
            else if is_none (rc_status s)
            then Break (set_timed_out true (kill "build-timeout exceeded" s))
            else Break (set_log_truncated true s))
  | Cancelled =>
      let '(exited, s) := observe s in
      Done (Break (if exited then set_log_truncated true s
                   else set_aborted true (kill "aborted by runner" s)))
  | Line None => Done (Break s)
  | Line (Some (Err e)) => Done (Break (set_error e s))
  | Line (Some (Ok l)) => First l s
  end.

(** The part of an iteration after a line has come. *)
Definition handle_lines (t : Turn) (line : string) (s : Run) : option Step :=
  let '(s, batch, pending_read_err) :=
    fill line (rc_queue s) (set_last_output (t_now t) s) [] 0 in
  let* st := write_batch t s batch in
  Some match st with
       | Continue s =>
           match pending_read_err with
           | Some e => Break (set_error e s)
           | None => check_deadline t s
           end
       | st => st
       end.

Definition turn (t : Turn) (s : Run) : option Step :=
  let s := set_queue (rc_queue s ++ t_arrived t) s in
  if can_select t s then
    let '(ev, s) := event_of (t_select t) s in
    match handle_event t ev s with
    | Done st => Some st
    | First line s => handle_lines t line s
    end
  else None.

(** The loop, on a record of its iterations: there is none after the one that ends it. *)
Inductive Ended :=
  | Going (s : Run)
  | Broke (s : Run)
  | Raised (e : string)
  | Impossible.

Fixpoint loop (ts : list Turn) (s : Run) : Ended :=
  match ts with
  | [] => Going s
  | t :: ts =>
      match turn t s with
      | None => Impossible
      | Some (Continue s) => loop ts s
      | Some (Break s) => match ts with [] => Broke s | _ => Impossible end
      | Some (Raise e) => match ts with [] => Raised e | _ => Impossible end
      end
  end.

(** ** After the loop *)

(** What waiting for the child gives within the time allowed for it. *)
Inductive Wait := Waited (s : ExitStatus) | WaitError (e : string) | WaitTimeout.

(** The status the outcome is decided on; [None] in front: with no deadline the wait does
    not time out. *)
Definition final_status (w : Wait) (s : Run) : option (result string (option ExitStatus * Run)) :=
  match rc_status s with
  | Some st => Some (Ok (Some st, s))
  | None =>
      match w with
      | Waited st => Some (Ok (Some st, s))
      | WaitError e => Some (Err e)
      | WaitTimeout =>
          if rc_killed s then Some (Ok (None, s))
          else match overall_deadline with
               | Some _ =>
                   Some (Ok (None, set_timed_out true (set_error "build-timeout exceeded" s)))
               | None => None
               end
      end
  end.

Definition TRUNCATED : string := "[circus-agent] log truncated".

Definition push_message (old new : string) : string :=
  if is_empty old then new else old +:+ String NL "" +:+ new.

(** The note that the log is cut short. *)
Definition note_truncated (s : Run) : Run :=
  if rc_log_truncated s then
    set_error (push_message (rc_error s) "log drain timed out after child exit; log truncated")
      (set_writes (rc_writes s ++ [as_bytes TRUNCATED]) s)
  else s.

Definition oom_killed (status : ExitStatus) (s : Run) : bool :=
  negb (rc_killed s) && negb (rc_aborted s) && negb (rc_timed_out s) &&
  bool_decide (exit_signal status = Some 9).

Definition succeeded (status : ExitStatus) (s : Run) : bool :=
  exit_success status && negb (rc_log_size_exceeded s) && negb (rc_sink_failed s) &&
  negb (rc_aborted s) && negb (rc_timed_out s) && negb (oom_killed status s).

Definition outcome_of (status : option ExitStatus) (s : Run) : ResultSink.BuildOutcome :=
  match status with
  | None =>
      if rc_timed_out s then ResultSink.TimedOut
      else if rc_aborted s then ResultSink.Aborted
      else ResultSink.BuildFailure
  | Some st =>
      if succeeded st s then ResultSink.Success
      else if rc_timed_out s then ResultSink.TimedOut
      else if rc_aborted s then ResultSink.Aborted
      else if oom_killed st s then ResultSink.OomKilled
      else ResultSink.BuildFailure
  end.

(** The result; [outputs] is what [query_outputs] finds. *)
Definition local_result (elapsed_ms : Z) (outputs : list ResolvedOutput)
    (status : option ExitStatus) (s : Run) : LocalResult :=
  match status with
  | None =>
      {| lr_outcome := outcome_of None s; lr_exit_code := -1; lr_build_time_ms := elapsed_ms;
         lr_upload_time_ms := 0; lr_outputs := []; lr_error_message := rc_error s |}
  | Some st =>
      let success := succeeded st s in
      {| lr_outcome := outcome_of (Some st) s;
         lr_exit_code := default (-1) (exit_code st);
         lr_build_time_ms := elapsed_ms; lr_upload_time_ms := 0;
         lr_outputs := if success then outputs else [];
         lr_error_message :=
           if negb success && is_empty (rc_error s) then summarize_failure (rc_recent s)
           else rc_error s |}
  end.

(** The end of [run_command]: the log is closed on the way. *)
Definition finish (w : Wait) (elapsed_ms : Z) (outputs : list ResolvedOutput) (s : Run) :
    option (result string (LocalResult * Run)) :=
  match final_status w s with
  | None => None
  | Some (Err e) => Some (Err e)
  | Some (Ok (status, s)) =>
      let s := note_truncated s in Some (Ok (local_result elapsed_ms outputs status s, s))
  end.
End run_command.

Definition overall_deadline_of (opts : BuildOptions) (now : Instant) : option Instant :=
  if bo_build_timeout opts =? 0 then None else Some (now + bo_build_timeout opts).

(** What happens to a supervised child: whether it can be spawned, the start of the clock,
    the iterations, the last wait, the time it took and the outputs found. *)
Record Life := {
  l_spawn : result string ();
  l_start : Instant;
  l_turns : list Turn;
  l_wait : Wait;
  l_elapsed_ms : Z;
  l_show : option Json;
  l_listing : option string;
}.

(** [None]: the loop is still going, or the record is not one of a real run. *)
Definition run_command (json_from_str : string → option Json) (opts : BuildOptions)
    (tun : Tunables) (l : Life) : option (result string (LocalResult * Run)) :=
  match l_spawn l with
  | Err e => Some (Err e)
  | Ok _ =>
      let deadline := overall_deadline_of opts (l_start l) in
      match loop json_from_str opts tun deadline (l_turns l) (run_start (l_start l)) with
      | Broke s =>
          finish deadline (l_wait l) (l_elapsed_ms l)
            (query_outputs (l_show l) (l_listing l)) s
      | Raised e => Some (Err e)
      | Going _ | Impossible => None
      end
  end.
