(* ===== verification/AgentLog.v ===== *)
(** * The log of an agent build, from the child to the runner's disk

    [AgentBuild] puts the lines of the child into batches and hands them to the log sink;
    [Sinks.LogSink] appends what it is handed to a file.  Together they keep, line by line,
    the longest prefix of the child's output that fits the limit. *)

From S2P Require Import Prelude Types Float32 Base32 Codecs StorePath Pool Db Builders Sinks NixJobs AgentBuild.

(** ** Specification *)

(** The longest prefix of the lines that fits, each line counted with its newline. *)
Fixpoint fits (max used : Z) (ls : list string) : list string :=
  match ls with
  | [] => []
  | l :: ls =>
      if max <? used + (str_len l + 1) then []
      else l :: fits max (used + (str_len l + 1)) ls
  end.

Definition size (ls : list string) : Z := zlen (LogSink.text_of (as_bytes <$> ls)).

Definition text (ls : list string) : list Z := LogSink.text_of (as_bytes <$> ls).

(** The longest line that, with the rest of its batch, is within the sink's limit. *)
Definition MAX_LINE : Z := limits.MAX_LOG_CHUNK_BYTES - MAX_LOG_BATCH_BYTES.

Definition plain (l : result string string) : Prop :=
  match l with Ok l => 0 < str_len l ≤ MAX_LINE | Err _ => True end.

Definition arrived (ts : list Turn) : list (result string string) := concat (t_arrived <$> ts).

(** ** Sizes *)

Lemma as_bytes_len s : zlen (as_bytes s) = str_len s.
Proof.
  unfold as_bytes, zlen. rewrite length_fmap.
  induction s as [|c s IH]; [done|]. cbn [str_chars str_len length]. lia.
Qed.

Lemma text_of_app a b : LogSink.text_of (a ++ b) = LogSink.text_of a ++ LogSink.text_of b.
Proof. unfold LogSink.text_of. by rewrite fmap_app, concat_app. Qed.

Lemma text_of_one c : LogSink.text_of [c] = c ++ [10].
Proof. unfold LogSink.text_of. simpl. by rewrite app_nil_r. Qed.

Lemma text_snoc ls l : text (ls ++ [l]) = text ls ++ as_bytes l ++ [10].
Proof. unfold text. rewrite fmap_app, text_of_app. f_equal. apply text_of_one. Qed.

Lemma size_cons l ls : size (l :: ls) = str_len l + 1 + size ls.
Proof.
  unfold size. rewrite fmap_cons, LogSink.text_of_cons, !zlen_app, as_bytes_len.
  change (zlen [10]) with 1. lia.
Qed.

Lemma size_nonneg ls : 0 ≤ size ls.
Proof. apply zlen_nonneg. Qed.

Lemma size_app a b : size (a ++ b) = size a + size b.
Proof. unfold size. by rewrite fmap_app, text_of_app, zlen_app. Qed.

Lemma fits_size max used ls : used ≤ max → used + size (fits max used ls) ≤ max.
Proof.
  revert used. induction ls as [|l ls IH]; intros used Hu; simpl; [change (size []) with 0; lia|].
  destruct (Z.ltb_spec max (used + (str_len l + 1))); [change (size []) with 0; lia|].
  rewrite size_cons. specialize (IH (used + (str_len l + 1)) ltac:(lia)). lia.
Qed.

(** A prefix that fits is taken whole and the rest is judged by what is left. *)
Lemma fits_app max used a b :
  fits max used a = a → fits max used (a ++ b) = a ++ fits max (used + size a) b.
Proof.
  revert used. induction a as [|l a IH]; intros used Ha; simpl in *.
  { by rewrite Z.add_0_r. }
  destruct (Z.ltb_spec max (used + (str_len l + 1))); [done|].
  injection Ha as Ha. by rewrite IH, size_cons, !Z.add_assoc by done.
Qed.

(** Once a line does not fit nothing after it counts. *)
Lemma fits_stop max used a b : fits max used a ≠ a → fits max used (a ++ b) = fits max used a.
Proof.
  revert used. induction a as [|l a IH]; intros used Ha; simpl in *; [done|].
  destruct (Z.ltb_spec max (used + (str_len l + 1))); [done|].
  f_equal. apply IH. congruence.
Qed.

(** ** Batches *)

Section batches.
Context (jfs : string → option Json) (opts : BuildOptions).
Let max := bo_max_log_size opts.
Hypothesis max_range : 0 ≤ max < U64_MAX.

Definition stopped (s : Run) : bool := rc_log_size_exceeded s || rc_log_truncated s.

(** The writes so far and the open batch hold what fits of the lines [ls]. *)
Record logged (ls : list string) (s : Run) (batch : list Z) : Prop := {
  logged_text : LogSink.text_of (rc_writes s ++ (if batch is [] then [] else [batch])) =
                text (fits max 0 ls);
  logged_sent : rc_bytes_sent s = size (fits max 0 ls);
  logged_all : stopped s = false → fits max 0 ls = ls;
  logged_cut : stopped s = true → fits max 0 ls ≠ ls;
  logged_sink : rc_sink_failed s = false;
  logged_small : Forall (λ c, zlen c ≤ limits.MAX_LOG_CHUNK_BYTES) (rc_writes s);
}.

Lemma note_message_same line s :
  let s' := note_message jfs line s in
  rc_writes s' = rc_writes s ∧ rc_bytes_sent s' = rc_bytes_sent s ∧ stopped s' = stopped s ∧
  rc_sink_failed s' = rc_sink_failed s ∧ rc_status s' = rc_status s.
Proof. unfold note_message. by destruct (nix_log.parse_line jfs line) as [[]|]. Qed.

Lemma note_message_logged line ls s batch :
  logged ls s batch → logged ls (note_message jfs line s) batch.
Proof.
  destruct (note_message_same line s) as (E1 & E2 & E3 & E4 & _).
  intros []. split; by rewrite ?E1, ?E2, ?E3, ?E4.
Qed.

Lemma set_queue_logged q ls s batch : logged ls s batch → logged ls (set_queue q s) batch.
Proof. by intros []. Qed.

Lemma set_last_output_logged i ls s batch :
  logged ls s batch → logged ls (set_last_output i s) batch.
Proof. by intros []. Qed.

Lemma take_line_logged line ls s batch n s' batch' n' :
  0 < str_len line → logged ls s batch → take_line opts line s batch n = (s', batch', n') →
  logged (ls ++ [line]) s' batch'.
Proof.
  intros Hl [Ht Hs Hall Hcut Hsf Hsm]. unfold take_line. rewrite Hsf, orb_false_r.
  fold (stopped s). fold max. destruct (stopped s) eqn:Hst.
  { intros [= -> -> ->]. pose proof (Hcut eq_refl) as Hc.
    assert (Hf : fits max 0 (ls ++ [line]) = fits max 0 ls) by by apply fits_stop.
    split; rewrite ?Hf; try done; [by rewrite Hst|]. intros _ E.
    apply (f_equal length) in E. rewrite length_app in E. simpl in E.
    assert (length (fits max 0 ls) ≤ length ls)%nat; [|lia].
    clear. generalize 0. induction ls as [|l ls IH]; intros z; simpl; [lia|].
    case_match; simpl; [lia|]. specialize (IH (z + (str_len l + 1))). lia. }
  specialize (Hall eq_refl). rewrite Hall in Ht, Hs. rewrite Hs.
  assert (Hf : fits max 0 (ls ++ [line]) = ls ++ fits max (size ls) [line]).
  { rewrite fits_app by done. done. }
  simpl in Hf. rewrite LogSink.saturating_limit by lia.
  destruct (Z.ltb_spec max (size ls + (str_len line + 1))) as [Hgt|Hle].
  - rewrite app_nil_r in Hf. intros [= <- <- <-].
    assert (Hne : ls ≠ ls ++ [line]).
    { intros E%(f_equal length). rewrite length_app in E. simpl in E. lia. }
    unfold stopped in Hst. apply orb_false_iff in Hst as [Hx Hy].
    destruct (is_none (rc_status s)); split; unfold stopped; simpl; rewrite ?Hf, ?Hx, ?Hy; done.
  - intros [= <- <- <-].
    split; unfold stopped in *; simpl; rewrite ?Hf; try done.
    + rewrite text_snoc.
      destruct batch as [|b batch]; simpl.
      * rewrite app_nil_r in Ht. destruct (as_bytes line) as [|b l] eqn:E.
        { apply (f_equal zlen) in E. rewrite as_bytes_len in E. change (zlen []) with 0 in E. lia. }
        by rewrite text_of_app, text_of_one, Ht.
      * rewrite text_of_app, text_of_one in Ht |- *. rewrite <-Ht. simpl.
        rewrite <-!app_assoc. simpl. rewrite <-!app_assoc. done.
    + rewrite size_app, size_cons. change (size []) with 0. unfold u64_saturating_add.
      rewrite Z.min_l by lia. lia.
    + by rewrite Hst.
Qed.

Lemma take_line_len line s batch n s' batch' n' :
  str_len line ≤ MAX_LINE → zlen batch < MAX_LOG_BATCH_BYTES →
  take_line opts line s batch n = (s', batch', n') → zlen batch' ≤ limits.MAX_LOG_CHUNK_BYTES.
Proof.
  intros Hl Hb. pose proof (str_len_nonneg line).
  unfold take_line, MAX_LINE, limits.MAX_LOG_CHUNK_BYTES, MAX_LOG_BATCH_BYTES in *.
  destruct (_ || _ || _); [intros [= <- <- <-]; lia|].
  destruct (_ <? _); [intros [= <- <- <-]; lia|]. intros [= <- <- <-].
  rewrite zlen_app, as_bytes_len.
  destruct batch; [change (zlen []) with 0|rewrite zlen_app; change (zlen [10]) with 1]; lia.
Qed.

(** The inner loop takes a stretch of the channel into the batch. *)
Lemma fill_logged line queue ls s batch n s' batch' pending :
  Forall plain (Ok line :: queue) → zlen batch < MAX_LOG_BATCH_BYTES → logged ls s batch →
  fill jfs opts line queue s batch n = (s', batch', pending) →
  ∃ more rest, queue = (Ok <$> more) ++ rest ∧ logged (ls ++ line :: more) s' batch' ∧
    zlen batch' ≤ limits.MAX_LOG_CHUNK_BYTES ∧
    rest = match pending with Some e => Err e :: rc_queue s' | None => rc_queue s' end.
Proof.
  revert line ls s batch n. induction queue as [|[l|e] queue IH];
    intros line ls s batch n Hp Hb Hg; simpl;
    destruct (take_line opts line (note_message jfs line s) batch n) as [[s1 b1] n1] eqn:E;
    pose proof (Forall_inv Hp) as Hl; simpl in Hl;
    pose proof (take_line_logged _ _ _ _ _ _ _ _ (proj1 Hl)
                  (note_message_logged line _ _ _ Hg) E) as Hg1;
    pose proof (take_line_len _ _ _ _ _ _ _ (proj2 Hl) Hb E) as Hb1;
    destruct (Z.leb_spec MAX_LOG_BATCH_BYTES (zlen b1)) as [|Hlt]; simpl;
    try (destruct (MAX_LOG_BATCH_LINES <=? n1); simpl).
  all: try (intros [= <- <- <-]; exists []; eexists; simpl; split_and!;
            [reflexivity|by apply set_queue_logged|done|done]).
  intros Hf. apply Forall_inv_tail in Hp. destruct (IH _ _ _ _ _ Hp Hlt Hg1 Hf)
    as (more & rest & -> & Hg2 & Hb2 & ->).
  exists (l :: more). eexists. split_and!; [reflexivity| |done|done].
  by rewrite <-app_assoc in Hg2.
Qed.

Context (tun : Tunables) (deadline : option Instant).

(** The state at the top of the loop, after the lines [ls]. *)
Definition log_inv (seen : list (result string string)) (s : Run) : Prop :=
  ∃ ls, seen = (Ok <$> ls) ++ rc_queue s ∧ logged ls s [].

(** What a batch that was written adds. *)
Lemma batch_logged ls s batch :
  zlen batch ≤ limits.MAX_LOG_CHUNK_BYTES → logged ls s batch → batch ≠ [] →
  logged ls (set_writes (rc_writes s ++ [batch]) s) [].
Proof.
  intros Hb [Ht Hs Hall Hcut Hsf Hsm] Hne. split; simpl; try done.
  - rewrite app_nil_r, <-Ht. by destruct batch.
  - apply Forall_app_2; [done|]. by repeat constructor.
Qed.

(** The lines that are in the log when the loop ends; a read error may have been taken from
    the channel after them. *)
Definition log_end (seen : list (result string string)) (s : Run) : Prop :=
  ∃ ls rest, seen = (Ok <$> ls) ++ rest ∧
    (rest = rc_queue s ∨ ∃ e, rest = Err e :: rc_queue s) ∧
    LogSink.text_of (rc_writes s) = text (fits max 0 ls) ∧
    Forall (λ c, zlen c ≤ limits.MAX_LOG_CHUNK_BYTES) (rc_writes s).

Definition log_step (seen : list (result string string)) (st : option Step) : Prop :=
  match st with
  | Some (Continue s) => log_inv seen s
  | Some (Break s) => log_end seen s
  | _ => True
  end.

Lemma logged_end ls s : logged ls s [] →
  LogSink.text_of (rc_writes s) = text (fits max 0 ls) ∧
  Forall (λ c, zlen c ≤ limits.MAX_LOG_CHUNK_BYTES) (rc_writes s).
Proof. intros []. rewrite app_nil_r in *. done. Qed.

(** States that differ in nothing the log depends on. *)
Definition log_same (s s' : Run) : Prop :=
  rc_queue s' = rc_queue s ∧ rc_writes s' = rc_writes s ∧ rc_bytes_sent s' = rc_bytes_sent s ∧
  stopped s' = stopped s ∧ rc_sink_failed s' = rc_sink_failed s.

Lemma log_inv_same seen s s' : log_same s s' → log_inv seen s → log_inv seen s'.
Proof.
  intros (E1 & E2 & E3 & E4 & E5) (ls & -> & []). exists ls. rewrite E1. split; [done|].
  split; by rewrite ?E2, ?E3, ?E4, ?E5.
Qed.

Lemma log_inv_end seen s s' :
  rc_queue s' = rc_queue s → rc_writes s' = rc_writes s → log_inv seen s → log_end seen s'.
Proof.
  intros E1 E2 (ls & -> & Hg%logged_end). exists ls, (rc_queue s). rewrite E1, E2. auto.
Qed.

Lemma observe_exit_same w now grace s : log_same s (observe_exit w now grace s).2.
Proof. unfold observe_exit. simpl. by destruct (rc_status s), w. Qed.

Lemma check_deadline_log seen t s :
  log_inv seen s → log_step seen (Some (check_deadline tun deadline t s)).
Proof.
  intros Hi. unfold check_deadline. destruct (phase_deadline deadline s) as [d|]; [|done].
  destruct (t_check t <? d); [done|].
  pose proof (observe_exit_same (t_try_wait_late t) (t_check t) (drain_grace tun) s) as Ho.
  destruct (is_none (rc_status s)).
  - destruct (observe_exit _ _ _ s) as [ex s1]. simpl in Ho.
    pose proof (log_inv_same _ _ _ Ho Hi) as Hi1.
    destruct (ex && _); [done|]. destruct (is_none (rc_status s1)); simpl;
      by eapply log_inv_end; [..|exact Hi1].
  - destruct (is_none (rc_status s)); simpl; by eapply log_inv_end; [..|exact Hi].
Qed.

Lemma handle_lines_log ls line q t s :
  t_write t = Written → Forall plain (Ok line :: q) → rc_queue s = q → logged ls s [] →
  log_step ((Ok <$> ls) ++ Ok line :: q) (handle_lines jfs opts tun deadline t line s).
Proof.
  intros Hw Hp Hq Hg. unfold handle_lines. rewrite Hq.
  destruct (fill jfs opts line q _ [] 0) as [[s1 batch] pending] eqn:Hf.
  apply (fill_logged _ _ ls) in Hf as (more & rest & -> & Hg1 & Hb & ->);
    [|done|done|by apply set_last_output_logged].
  assert (∃ s2, write_batch tun t s1 batch = Some (Continue s2) ∧ logged (ls ++ line :: more) s2 [] ∧
                rc_queue s2 = rc_queue s1) as (s2 & -> & Hg2 & Hq2).
  { unfold write_batch. rewrite Hw. destruct batch as [|b batch]; [by eexists|].
    eexists. split_and!; [done| |done]. by apply batch_logged. }
  replace ((Ok <$> ls) ++ Ok line :: (Ok <$> more) ++ _) with
    ((Ok <$> (ls ++ line :: more)) ++
     match pending with Some e => Err e :: rc_queue s1 | None => rc_queue s1 end)
    by (rewrite fmap_app, fmap_cons, <-app_assoc; done).
  cbn [obind]. destruct pending as [e|].
  - apply logged_end in Hg2 as [? ?]. exists (ls ++ line :: more). eexists. simpl.
    rewrite Hq2. split_and!; eauto.
  - apply check_deadline_log. exists (ls ++ line :: more). by rewrite Hq2.
Qed.

Lemma handle_event_log seen t ev s :
  (∀ l, ev ≠ Line l) → log_inv seen s →
  match handle_event tun t ev s with Done st => log_step seen (Some st) | First _ _ => True end.
Proof.
  intros Hev Hi. destruct ev as [l|[st|e]| | |]; [by destruct (Hev l)| |done|..]; cbn [handle_event].
  { destruct (is_none (rc_status s)); [|done]. eapply log_inv_same; [|done]. done. }
  all: pose proof (observe_exit_same (t_try_wait t) (t_now t) (drain_grace tun) s) as Ho.
  all: try (destruct (is_none (rc_status s)) eqn:En;
            [|rewrite En; by eapply log_inv_end; [..|exact Hi]]).
  all: destruct (observe_exit _ _ _ s) as [[] s1]; cbn [snd] in *;
    pose proof (log_inv_same _ _ _ Ho Hi) as Hi1; try done;
    try destruct (is_none (rc_status s1)); by eapply log_inv_end; [..|exact Hi1].
Qed.

(** Only a line brings a line. *)
Lemma handle_event_done t ev s l s' :
  handle_event tun t ev s = First l s' → ev = Line (Some (Ok l)) ∧ s' = s.
Proof.
  destruct ev as [[[l'|e]|]|[st|e]| | |]; simpl; repeat case_match; intros; by simplify_eq.
Qed.

Lemma turn_log t seen s :
  t_write t = Written → Forall plain (seen ++ t_arrived t) → log_inv seen s →
  log_step (seen ++ t_arrived t) (turn jfs opts tun deadline t s).
Proof.
  intros Hw Hp (ls & -> & Hg). unfold turn.
  set (s1 := set_queue (rc_queue s ++ t_arrived t) s).
  rewrite <-app_assoc in Hp |- *. change (rc_queue s ++ t_arrived t) with (rc_queue s1) in Hp |- *.
  assert (Hg1 : logged ls s1 []) by by apply set_queue_logged.
  assert (Hi : log_inv ((Ok <$> ls) ++ rc_queue s1) s1) by by exists ls.
  clearbody s1. destruct (can_select _ _ _ _); [|done].
  destruct (t_select t) as [|st| | |]; cbn [event_of].
  2: pose proof (handle_event_log _ t (ChildExited st) s1 ltac:(done) Hi).
  3: pose proof (handle_event_log _ t SilentTimeout s1 ltac:(done) Hi).
  4: pose proof (handle_event_log _ t DeadlineTimeout s1 ltac:(done) Hi).
  5: pose proof (handle_event_log _ t Cancelled s1 ltac:(done) Hi).
  2-5: destruct (handle_event _ _ _ _) eqn:Eh; [done|by apply handle_event_done in Eh as [? _]].
  destruct (rc_queue s1) as [|[l|e] q] eqn:Hq; simpl.
  - by eapply log_inv_end; [..|exact Hi]; rewrite ?Hq.
  - apply Forall_app in Hp as [_ Hp]. apply handle_lines_log; try done. by apply set_queue_logged.
  - apply logged_end in Hg1 as [? ?]. exists ls. eexists. simpl. split_and!; eauto.
Qed.

Lemma loop_log ts seen s s' :
  Forall (λ t, t_write t = Written) ts → Forall plain (seen ++ arrived ts) → log_inv seen s →
  loop jfs opts tun deadline ts s = Broke s' → log_end (seen ++ arrived ts) s'.
Proof.
  revert seen s. induction ts as [|t ts IH]; intros seen s Hw Hp Hi; [done|]. cbn [loop].
  inversion Hw as [|?? Hwt Hws]; subst.
  assert (E : seen ++ arrived (t :: ts) = (seen ++ t_arrived t) ++ arrived ts).
  { unfold arrived. simpl. by rewrite app_assoc. }
  rewrite E in Hp |- *. pose proof Hp as Hp'. apply Forall_app in Hp as [Hp1 _].
  pose proof (turn_log t seen s Hwt Hp1 Hi) as Ht.
  destruct (turn _ _ _ _ t s) as [[s1|s1|e]|]; simpl in Ht; [eauto| |by destruct ts..].
  destruct ts; [|done]. intros [= <-]. unfold arrived. simpl. by rewrite app_nil_r.
Qed.
End batches.

(** ** The runner's side *)

Lemma spec_lines_all max used ws :
  Forall (λ c, zlen c ≤ limits.MAX_LOG_CHUNK_BYTES) ws →
  used + zlen (LogSink.text_of ws) ≤ max →
  LogSink.spec_lines max used (LogSink.CWrite LogSink.io_fine <$> ws) = ws.
Proof.
  revert used. induction ws as [|c ws IH]; intros used Hs Hm; [done|]. simpl.
  inversion Hs as [|?? Hc Hs']; subst. rewrite LogSink.text_of_cons, !zlen_app in Hm.
  change (zlen [10]) with 1 in Hm. pose proof (zlen_nonneg (LogSink.text_of ws)).
  destruct (Z.ltb_spec limits.MAX_LOG_CHUNK_BYTES (zlen c)); [lia|].
  destruct (Z.ltb_spec max (used + zlen c + 1)); [lia|]. simpl. f_equal. apply IH; [done|lia].
Qed.

(** The writes of a run, as calls on the sink the runner made for the build. *)
Definition sink_calls (s : Run) : list LogSink.Call := LogSink.CWrite LogSink.io_fine <$> rc_writes s.

Lemma sink_takes_all path max before s ls :
  0 ≤ max < U64_MAX → LogSink.text_of (rc_writes s) = text (fits max 0 ls) →
  Forall (λ c, zlen c ≤ limits.MAX_LOG_CHUNK_BYTES) (rc_writes s) →
  let '(rs, k) := LogSink.run path max (sink_calls s) (LogSink.new before) in
  LogSink.accepted (sink_calls s) rs = rc_writes s ∧
  LogSink.disk k = before ++ text (fits max 0 ls).
Proof.
  intros Hmax Ht Hs.
  assert (Hall : LogSink.spec_lines max 0 (sink_calls s) = rc_writes s).
  { apply spec_lines_all; [done|]. rewrite Ht. apply (fits_size max 0 ls). lia. }
  pose proof (LogSink.run_lines path max (sink_calls s) (LogSink.new before) Hmax) as H.
  simpl in H. rewrite Hall in H.
  destruct (LogSink.run path max (sink_calls s) (LogSink.new before)) as [rs k].
  destruct H as (H1 & _ & _ & H4); [split; simpl; lia|done| |].
  { unfold sink_calls. apply Forall_fmap, Forall_true. done. }
  split; [done|]. by rewrite H1, Ht.
Qed.

(** C12. The log of a build, end to end.  The agent's reader tasks hand it lines; whatever
    the interleaving of lines, exits, timers and cancellations, as long as the sink answers
    its writes, no line is blank and none is longer than 768 KiB, every batch the agent
    sends is accepted by the runner's sink (made with the same limit) and the runner's file
    holds, line by line and in order, the longest prefix of the lines the agent has read
    that fits the limit.  What the agent has not read is what the channel still holds
    when the loop ends, after the read error that may have ended it. *)
Theorem agent_log_exact jfs opts tun deadline start ts s path before :
  0 ≤ bo_max_log_size opts < U64_MAX →
  Forall (λ t, t_write t = Written) ts → Forall plain (arrived ts) →
  loop jfs opts tun deadline ts (run_start start) = Broke s →
  ∃ ls rest, arrived ts = (Ok <$> ls) ++ rest ∧
    (rest = rc_queue s ∨ ∃ e, rest = Err e :: rc_queue s) ∧
    let '(rs, k) := LogSink.run path (bo_max_log_size opts) (sink_calls s) (LogSink.new before) in
    LogSink.accepted (sink_calls s) rs = rc_writes s ∧
    LogSink.disk k = before ++ text (fits (bo_max_log_size opts) 0 ls).
Proof.
  intros Hmax Hw Hp Hl.
  destruct (loop_log jfs opts Hmax tun deadline ts [] (run_start start) s Hw Hp)
    as (ls & rest & Ha & Hr & Ht & Hs); [|done|].
  { exists []. split; [done|]. by split. }
  exists ls, rest. split_and!; [done|done|]. by apply sink_takes_all.
Qed.

(** ** Examples *)

Definition example_opts : BuildOptions :=
  {| bo_drv_path := "/nix/store/x.drv"; bo_max_log_size := 10; bo_max_silent_time := 0;
     bo_build_timeout := 0; bo_cores := 0; bo_extra_args := []; bo_cache_substituter := "";
     bo_cache_public_key := ""; bo_rootless := false |}.

Definition quiet_turn (sel : Select) (lines : list (result string string)) : Turn :=
  {| t_arrived := lines; t_start := 0; t_now := 0; t_select := sel; t_try_wait := None;
     t_write := Written; t_written := 0; t_check := 0; t_try_wait_late := None; t_late := 0 |}.

Definition example_turns : list Turn :=
  [quiet_turn SelLine [Ok "abc"; Ok "de"]; quiet_turn SelLine [Ok "f"; Ok "ghi"; Ok "j"];
   quiet_turn (SelExited (Ok (Exited 0))) []; quiet_turn SelLine []].

(** Ten bytes hold three lines; the next one does not fit, and the child is killed. *)
Lemma agent_log_exact_witness :
  ∃ s, loop (λ _, None) example_opts tunables_default None example_turns (run_start 0) = Broke s ∧
  rc_log_size_exceeded s = true ∧
  ∃ ls rest, arrived example_turns = (Ok <$> ls) ++ rest ∧
    (rest = rc_queue s ∨ ∃ e, rest = Err e :: rc_queue s) ∧
    let '(rs, k) := LogSink.run "/log" 10 (sink_calls s) (LogSink.new [7]) in
    LogSink.accepted (sink_calls s) rs = rc_writes s ∧
    LogSink.disk k = [7] ++ text (fits 10 0 ls).
Proof.
  eexists. split; [vm_compute; reflexivity|]. split; [reflexivity|].
  apply (agent_log_exact (λ _, None) example_opts tunables_default None 0 example_turns _
           "/log" [7]); [done|by repeat constructor| |vm_compute; reflexivity].
  repeat constructor; simpl; unfold MAX_LINE, limits.MAX_LOG_CHUNK_BYTES, MAX_LOG_BATCH_BYTES; lia.
Defined.

(** Blank lines are kept or lost with the batch they come in: the one that opens a batch
    leaves no trace. *)
Example blank_line_depends_on_batch :
  let log ts := match loop (λ _, None) example_opts tunables_default None ts (run_start 0) with
                | Broke s => Some (LogSink.text_of (rc_writes s))
                | _ => None
                end in
  log [quiet_turn SelLine [Ok "a"; Ok ""; Ok "b"]; quiet_turn SelLine []] =
    Some (text ["a"; ""; "b"]) ∧
  log [quiet_turn SelLine [Ok "a"]; quiet_turn SelLine [Ok ""; Ok "b"]; quiet_turn SelLine []] =
    Some (text ["a"; "b"]).
Proof. split; vm_compute; reflexivity. Qed.

(** A line of more than a megabyte is one chunk, which the sink refuses: the agent kills
    the child for it. *)
Lemma long_line_kills jfs opts tun t s line path max io k e :
  limits.MAX_LOG_CHUNK_BYTES < str_len line →
  rc_bytes_sent s + (str_len line + 1) ≤ bo_max_log_size opts < U64_MAX →
  stopped s = false → rc_sink_failed s = false → rc_status s = None → rc_queue s = [Ok line] →
  t_arrived t = [] → t_select t = SelLine → t_try_wait t = None → t_write t = WriteError e →
  is_ok (LogSink.write path max io (as_bytes line) k).1 = false ∧
  ∃ s', turn jfs opts tun None t s = Some (Continue s') ∧
    rc_writes s' = rc_writes s ++ [as_bytes line] ∧ rc_killed s' = true ∧
    rc_sink_failed s' = true.
Proof.
  intros Hlen Hroom Hst Hsf Hc Hq Ha Hsel Htw Hw. split.
  { unfold LogSink.write. rewrite as_bytes_len.
    by destruct (Z.ltb_spec limits.MAX_LOG_CHUNK_BYTES (str_len line)); [|lia]. }
  unfold turn, can_select. rewrite Hsel, Ha, Hq. cbn [event_of rc_queue set_queue app handle_event].
  unfold handle_lines. cbn [fill rc_queue set_queue].
  unfold take_line.
  set (s1 := note_message jfs line _).
  pose proof (note_message_same jfs line (set_last_output (t_now t) (set_queue [] (set_queue [Ok line] s))))
    as (E1 & E2 & E3 & E4 & E5).
  fold s1 in E1, E2, E3, E4, E5. cbn in E1, E2, E4, E5.
  fold (stopped s1). rewrite E3, E4. unfold stopped in *. cbn.
  rewrite Hst, Hsf, E2. cbn. rewrite LogSink.saturating_limit by lia.
  destruct (Z.ltb_spec (bo_max_log_size opts) (rc_bytes_sent s + (str_len line + 1))); [lia|].
  destruct (as_bytes line) as [|b l] eqn:Eb.
  { apply (f_equal zlen) in Eb. rewrite as_bytes_len in Eb. change (zlen []) with 0 in Eb.
    unfold limits.MAX_LOG_CHUNK_BYTES in Hlen. lia. }
  destruct (MAX_LOG_BATCH_BYTES <=? zlen (b :: l)); simpl; rewrite Hw; unfold observe_exit;
    simpl; rewrite Htw, E5, Hc; simpl; unfold check_deadline, phase_deadline; simpl;
    rewrite ?E5, ?Hc; simpl; eexists; (split_and!; [rewrite ?E5, ?Hc; reflexivity|..]);
    simpl; by rewrite ?E1.
Qed.
