(* ===== verification/AgentOutcome.v ===== *)
(** * What an agent reports about a build

    The outcome [AgentBuild.run_command] decides: it follows from the child's own exit
    unless the agent stopped the child, and the agent stops a child only for a reason that
    the record of the run shows. *)

From S2P Require Import Prelude Types Float32 Base32 Codecs StorePath Pool Db Builders Sinks NixJobs AgentBuild AgentLog.

(** ** Specification *)

(** The outcome of a child nobody interfered with. *)
Definition natural (st : ExitStatus) : ResultSink.BuildOutcome :=
  match st with
  | Exited 0 => ResultSink.Success
  | Signalled 9 => ResultSink.OomKilled
  | _ => ResultSink.BuildFailure
  end.

Definition calm (s : Run) : Prop :=
  rc_killed s = false ∧ rc_log_size_exceeded s = false ∧ rc_sink_failed s = false ∧
  rc_aborted s = false ∧ rc_timed_out s = false.

(** What shows that the agent had to stop the child, in the iterations [ts]. *)
Definition cancelled_in (ts : list Turn) : Prop :=
  ∃ t, t ∈ ts ∧ (t_select t = SelCancelled ∨ t_write t = WriteCancelled).

Definition overdue_in (deadline : option Instant) (ts : list Turn) : Prop :=
  ∃ t d, t ∈ ts ∧ deadline = Some d ∧ (d ≤ t_now t ∨ d ≤ t_check t).

Definition write_failed_in (ts : list Turn) : Prop := ∃ t e, t ∈ ts ∧ t_write t = WriteError e.

Definition silent_in (max_silent last_output : Z) (ts : list Turn) : Prop :=
  ∃ t, t ∈ ts ∧ t_select t = SelSilent ∧ max_silent ≠ 0 ∧ last_output + max_silent ≤ t_now t.

Definition too_long (max : Z) (s : Run) (ts : list Turn) : Prop :=
  ∃ l, Ok l ∈ arrived ts ∧ max < u64_saturating_add (rc_bytes_sent s) (str_len l + 1).

Record justified (opts : BuildOptions) (deadline : option Instant) (ts : list Turn) (s : Run) :
    Prop := {
  j_aborted : rc_aborted s = true → cancelled_in ts;
  j_timed_out : rc_timed_out s = true → overdue_in deadline ts;
  j_sink : rc_sink_failed s = true → write_failed_in ts;
  j_size : rc_log_size_exceeded s = true → too_long (bo_max_log_size opts) s ts;
  j_killed : rc_killed s = true →
    rc_aborted s = true ∨ rc_timed_out s = true ∨ rc_sink_failed s = true ∨
    rc_log_size_exceeded s = true ∨
    silent_in (bo_max_silent_time opts) (rc_last_output s) ts;
  j_flags : rc_aborted s = true ∨ rc_timed_out s = true ∨ rc_sink_failed s = true ∨
    rc_log_size_exceeded s = true → rc_killed s = true;
}.

(** Between two iterations: the loop goes on with a killed child only to drain its log. *)
Record going (opts : BuildOptions) (ts : list Turn) (s : Run) : Prop := {
  g_aborted : rc_aborted s = false;
  g_timed_out : rc_timed_out s = false;
  g_sink : rc_sink_failed s = true → write_failed_in ts;
  g_size : rc_log_size_exceeded s = true → too_long (bo_max_log_size opts) s ts;
  g_killed : rc_killed s = rc_sink_failed s || rc_log_size_exceeded s;
  g_queue : ∀ x, x ∈ rc_queue s → x ∈ arrived ts;
}.

(** ** The inner loop *)

Section supervise.
Context (jfs : string → option Json) (opts : BuildOptions) (tun : Tunables).
Context (deadline : option Instant).
Let max := bo_max_log_size opts.

(** What the inner loop leaves alone. *)
Definition undisturbed (s s' : Run) : Prop :=
  rc_status s' = rc_status s ∧ rc_drain s' = rc_drain s ∧ rc_sink_failed s' = rc_sink_failed s ∧
  rc_aborted s' = rc_aborted s ∧ rc_timed_out s' = rc_timed_out s ∧
  rc_last_output s' = rc_last_output s.

(** It touches the rest only by finding the log full, with the child not known to have
    ended. *)
Definition filled (ls : list (result string string)) (s s' : Run) : Prop :=
  undisturbed s s' ∧
  (rc_killed s' = rc_killed s ∧ rc_log_size_exceeded s' = rc_log_size_exceeded s ∧
     (rc_log_size_exceeded s = true → rc_bytes_sent s' = rc_bytes_sent s) ∨
   rc_status s = None ∧ rc_killed s' = true ∧ rc_log_size_exceeded s' = true ∧
     ∃ l, Ok l ∈ ls ∧ max < u64_saturating_add (rc_bytes_sent s') (str_len l + 1)).

Lemma note_message_quiet line s :
  let s' := note_message jfs line s in
  undisturbed s s' ∧ rc_killed s' = rc_killed s ∧ rc_bytes_sent s' = rc_bytes_sent s ∧
  rc_log_size_exceeded s' = rc_log_size_exceeded s ∧ rc_error s' = rc_error s.
Proof. unfold note_message. by destruct (nix_log.parse_line jfs line) as [[]|]. Qed.

Lemma take_line_filled line s batch n s' batch' n' :
  take_line opts line s batch n = (s', batch', n') → filled [Ok line] s s'.
Proof.
  unfold take_line. fold max.
  destruct (rc_log_size_exceeded s || rc_log_truncated s || rc_sink_failed s) eqn:Ef.
  { intros [= <- <- <-]. split; [done|]. by left. }
  apply orb_false_iff in Ef as [[Ex _]%orb_false_iff _].
  destruct (Z.ltb_spec max (u64_saturating_add (rc_bytes_sent s) (str_len line + 1))).
  - intros [= <- <- <-]. destruct (rc_status s) eqn:Es; simpl.
    + split; [done|]. left. done.
    + split; [done|]. right. split_and!; try done. exists line. split; [set_solver|done].
  - intros [= <- <- <-]. split; [done|]. left. simpl. rewrite Ex. done.
Qed.

Lemma filled_trans l ls s1 s2 s3 :
  filled l s1 s2 → filled ls s2 s3 → filled (l ++ ls) s1 s3.
Proof.
  intros [(A1 & A2 & A3 & A4 & A5 & A6) HA] [(B1 & B2 & B3 & B4 & B5 & B6) HB].
  split; [unfold undisturbed; split_and!; congruence|].
  destruct HA as [(K1 & X1 & Y1)|(S1 & K1 & X1 & m & Hm & Hlt)],
    HB as [(K2 & X2 & Y2)|(S2 & K2 & X2 & m' & Hm' & Hlt')].
  - left. split_and!; [congruence..|]. intros Hx. rewrite Y2, Y1; congruence.
  - right. split_and!; [congruence..|]. exists m'. split; [set_solver|done].
  - right. split_and!; [done|congruence..|]. exists m. rewrite (Y2 X1). split; [set_solver|done].
  - right. split_and!; [done..|]. exists m'. split; [set_solver|done].
Qed.

Lemma fill_filled line queue s batch n s' batch' pending :
  fill jfs opts line queue s batch n = (s', batch', pending) →
  ∃ more, (more ++ rc_queue s' = Ok line :: queue ∨
           ∃ e, more ++ Err e :: rc_queue s' = Ok line :: queue) ∧ filled more s s'.
Proof.
  revert line s batch n. induction queue as [|[l|e] queue IH]; intros line s batch n; simpl;
    destruct (take_line opts line (note_message jfs line s) batch n) as [[s1 b1] n1] eqn:E;
    apply take_line_filled in E;
    assert (H1 : filled [Ok line] s s1)
      by (change [Ok line] with ([] ++ [Ok line : result string string]);
          eapply filled_trans; [|exact E];
          destruct (note_message_quiet line s) as (U & K & B & X & _); split; [exact U|];
          left; by split_and!);
    destruct (_ || _).
  all: try (intros [= <- <- <-]; exists [Ok line]; split; [simpl; eauto|exact H1]).
  intros Hf. destruct (IH _ _ _ _ Hf) as (more & Hq & H2).
  exists (Ok line :: more). split.
  - destruct Hq as [<-|[e <-]]; [by left|right; by exists e].
  - change (Ok line :: more) with ([Ok line] ++ more). by eapply filled_trans.
Qed.

(** ** Iterations *)

(** The states an iteration may leave behind. *)
Definition leaves (P Q : Run → Prop) (st : option Step) : Prop :=
  match st with Some (Continue s) => P s | Some (Break s) => Q s | _ => True end.

Definition same_flags (s s' : Run) : Prop :=
  rc_aborted s' = rc_aborted s ∧ rc_timed_out s' = rc_timed_out s ∧
  rc_sink_failed s' = rc_sink_failed s ∧ rc_log_size_exceeded s' = rc_log_size_exceeded s ∧
  rc_killed s' = rc_killed s ∧ rc_bytes_sent s' = rc_bytes_sent s ∧ rc_queue s' = rc_queue s.

Lemma too_long_same ts s s' :
  rc_bytes_sent s' = rc_bytes_sent s → too_long max s ts → too_long max s' ts.
Proof. unfold too_long. by intros ->. Qed.

Lemma going_same ts s s' : same_flags s s' → going opts ts s → going opts ts s'.
Proof.
  intros (E1 & E2 & E3 & E4 & E5 & E6 & E7) []. split; rewrite ?E1, ?E2, ?E3, ?E4, ?E5, ?E7; try done.
  intros. by eapply too_long_same; [|auto].
Qed.

Lemma going_justified ts s s' : same_flags s s' → going opts ts s → justified opts deadline ts s'.
Proof.
  intros (E1 & E2 & E3 & E4 & E5 & E6 & E7) [G1 G2 G3 G4 G5 G6].
  split; rewrite ?E1, ?E2, ?E3, ?E4, ?E5, ?G1, ?G2; try done.
  - intros. by eapply too_long_same; [|auto].
  - rewrite G5. intros [?|?]%orb_true_iff; auto.
  - rewrite G5. intros [?|[?|[->| ->]]]; [done|done|done|by rewrite orb_true_r].
Qed.

(** The three ways to stop the loop and the child. *)
Lemma kill_aborted ts s e :
  cancelled_in ts → going opts ts s → justified opts deadline ts (set_aborted true (kill e s)).
Proof. intros Hc []. split; simpl; try done; [congruence|auto]. Qed.

Lemma kill_timed_out ts s e :
  overdue_in deadline ts → going opts ts s →
  justified opts deadline ts (set_timed_out true (kill e s)).
Proof. intros Hc []. split; simpl; try done; [congruence|auto]. Qed.

Lemma kill_silent ts s :
  silent_in (bo_max_silent_time opts) (rc_last_output s) ts → going opts ts s →
  justified opts deadline ts (kill "max-silent-time exceeded" s).
Proof.
  intros Hc []. split; simpl; try done; [congruence|congruence|]. intros _. do 4 right. done.
Qed.

Lemma observe_exit_flags w now grace s : same_flags s (observe_exit w now grace s).2.
Proof. unfold observe_exit. simpl. by destruct (rc_status s), w. Qed.

Lemma observe_exit_last w now grace s :
  rc_last_output (observe_exit w now grace s).2 = rc_last_output s.
Proof. unfold observe_exit. simpl. by destruct (rc_status s), w. Qed.

Lemma check_deadline_going ts t s :
  t ∈ ts → going opts ts s →
  leaves (going opts ts) (justified opts deadline ts) (Some (check_deadline tun deadline t s)).
Proof.
  intros Ht Hg. unfold check_deadline. destruct (phase_deadline deadline s) as [d|] eqn:Ed; [|done].
  destruct (Z.ltb_spec (t_check t) d); [done|].
  pose proof (observe_exit_flags (t_try_wait_late t) (t_check t) (drain_grace tun) s) as Ho.
  destruct (is_none (rc_status s)) eqn:En.
  - assert (Hd : overdue_in deadline ts).
    { unfold phase_deadline in Ed. rewrite En in Ed. by exists t, d; eauto. }
    destruct (observe_exit _ _ _ s) as [ex s1]. cbn [snd] in Ho.
    pose proof (going_same _ _ _ Ho Hg) as Hg1.
    destruct (ex && _); [done|]. destruct (is_none (rc_status s1)); simpl.
    + by apply kill_timed_out.
    + by eapply going_justified; [|exact Hg1].
  - simpl. rewrite En. by eapply going_justified; [|exact Hg].
Qed.

Lemma filled_going ts ls s s' :
  filled ls s s' → (∀ x, x ∈ ls → x ∈ arrived ts) → (∀ x, x ∈ rc_queue s' → x ∈ arrived ts) →
  going opts ts s → going opts ts s'.
Proof.
  intros [(A1 & A2 & A3 & A4 & A5 & A6) HA] Hls Hq [G1 G2 G3 G4 G5 G6].
  split; rewrite ?A3, ?A4, ?A5; try done.
  - destruct HA as [(K & X & Y)|(_ & _ & _ & l & Hl & Hlt)].
    + rewrite X. intros Hx. eapply too_long_same; [|by apply G4]. auto.
    + intros _. exists l. auto.
  - destruct HA as [(-> & -> & _)|(_ & -> & -> & _)]; [done|by rewrite orb_true_r].
Qed.

Lemma write_batch_going ts t s batch :
  t ∈ ts → going opts ts s →
  leaves (going opts ts) (justified opts deadline ts) (write_batch tun t s batch).
Proof.
  intros Ht Hg. unfold write_batch. destruct batch as [|b batch]; [done|].
  set (s1 := set_writes _ s).
  assert (Hg1 : going opts ts s1) by by eapply going_same; [|exact Hg]. clearbody s1.
  pose proof (observe_exit_flags (t_try_wait t) (t_written t) (drain_grace tun) s1) as Ho.
  destruct (observe_exit _ _ _ s1) as [ex s2]. cbn [snd] in Ho.
  pose proof (going_same _ _ _ Ho Hg1) as Hg2.
  destruct (t_write t) as [|e|] eqn:Ew; [done|..].
  - destruct ex; simpl; [by eapply going_justified; [|exact Hg2]|].
    destruct Hg2. split; simpl; try done. intros _. by exists t, e.
  - destruct (is_some (rc_status s1)); [done|].
    destruct ex; simpl; [by eapply going_justified; [|exact Hg2]|].
    apply kill_aborted; [|done]. exists t. auto.
Qed.

Lemma handle_lines_going ts t line s :
  t ∈ ts → Ok line ∈ arrived ts → going opts ts s →
  leaves (going opts ts) (justified opts deadline ts) (handle_lines jfs opts tun deadline t line s).
Proof.
  intros Ht Hline Hg. unfold handle_lines.
  assert (Hg0 : going opts ts (set_last_output (t_now t) s)) by by eapply going_same; [|exact Hg].
  destruct (fill jfs opts line (rc_queue s) _ [] 0) as [[s1 batch] pending] eqn:Hf.
  apply fill_filled in Hf as (more & Hq & Hfill).
  assert (Hin : ∀ x, x ∈ Ok line :: rc_queue s → x ∈ arrived ts).
  { intros x [->|Hx]%elem_of_cons; [done|]. by apply (g_queue _ _ _ Hg). }
  apply (filled_going ts) in Hfill; [|..|done].
  2,3: intros x Hx; apply Hin; destruct Hq as [<-|[e <-]];
    rewrite elem_of_app, ?elem_of_cons; auto.
  pose proof (write_batch_going ts t s1 batch Ht Hfill) as Hw.
  destruct (write_batch tun t s1 batch) as [[s2|s2|e]|]; simpl in *; try done.
  destruct pending; simpl; [by eapply going_justified; [|exact Hw]|].
  by apply check_deadline_going.
Qed.

Lemma due_overdue t d : due (t_start t) (t_now t) (Some d) = true → t_start t + d ≤ t_now t.
Proof. apply Z.leb_le. Qed.

Lemma handle_event_going ts t s :
  t ∈ ts → can_select opts deadline t s = true → going opts ts s →
  match handle_event tun t (event_of (t_select t) s).1 (event_of (t_select t) s).2 with
  | Done st => leaves (going opts ts) (justified opts deadline ts) (Some st)
  | First l s' => Ok l ∈ arrived ts ∧ going opts ts s'
  end.
Proof.
  intros Ht Hsel Hg.
  pose proof (observe_exit_flags (t_try_wait t) (t_now t) (drain_grace tun) s) as Ho.
  pose proof (observe_exit_last (t_try_wait t) (t_now t) (drain_grace tun) s) as Hlast.
  unfold can_select in Hsel.
  destruct (t_select t) as [|[st|e]| | |] eqn:Es; cbn [event_of fst snd handle_event].
  - destruct (rc_queue s) as [|[l|e] q] eqn:Hq; simpl.
    + by eapply going_justified; [|exact Hg].
    + split; [apply (g_queue _ _ _ Hg); rewrite Hq; set_solver|]. destruct Hg; split; try done.
      intros x Hx. apply g_queue0. rewrite Hq. set_solver.
    + apply (going_justified _ (set_queue q s)); [done|]. destruct Hg; split; try done.
      intros x Hx. apply g_queue0. rewrite Hq. set_solver.
  - destruct (is_none (rc_status s)); [by eapply going_same; [|exact Hg]|done].
  - done.
  - apply andb_true_iff in Hsel as [_ Hdue]. unfold remaining_silent in Hdue.
    destruct (Z.eqb_spec (bo_max_silent_time opts) 0); [done|]. apply due_overdue in Hdue.
    destruct (observe_exit _ _ _ s) as [ex s1]. cbn [snd] in *.
    pose proof (going_same _ _ _ Ho Hg) as Hg1. destruct ex; simpl; [done|].
    apply kill_silent; [|done]. exists t. split_and!; try done. rewrite Hlast. lia.
  - destruct (is_none (rc_status s)) eqn:En.
    + assert (Hd : overdue_in deadline ts).
      { unfold deadline_timeout, phase_deadline in Hsel. rewrite En in Hsel.
        destruct deadline as [d|] eqn:Ed; [|done]. apply due_overdue in Hsel.
        exists t, d. split_and!; [done..|]. left. lia. }
      destruct (observe_exit _ _ _ s) as [ex s1]. cbn [snd] in *.
      pose proof (going_same _ _ _ Ho Hg) as Hg1. destruct ex; [done|].
      destruct (is_none (rc_status s1)); simpl; [by apply kill_timed_out|].
      by eapply going_justified; [|exact Hg1].
    + rewrite En. by eapply going_justified; [|exact Hg].
  - destruct (observe_exit _ _ _ s) as [ex s1]. cbn [snd] in *.
    pose proof (going_same _ _ _ Ho Hg) as Hg1.
    destruct ex; simpl; [by eapply going_justified; [|exact Hg1]|].
    apply kill_aborted; [|done]. exists t. auto.
Qed.

Lemma going_more ts t s :
  going opts ts s →
  going opts (ts ++ [t]) (set_queue (rc_queue s ++ t_arrived t) s).
Proof.
  assert (Ha : arrived (ts ++ [t]) = arrived ts ++ t_arrived t).
  { unfold arrived. rewrite fmap_app, concat_app. simpl. by rewrite app_nil_r. }
  intros []. split; simpl; try done.
  - intros (t' & e & ? & ?)%g_sink0. exists t', e. split; [set_solver|done].
  - intros (l & ? & ?)%g_size0. exists l. rewrite Ha, elem_of_app. auto.
  - intros x. rewrite Ha, !elem_of_app. intros [?|?]; auto.
Qed.

Lemma turn_going ts t s :
  going opts ts s →
  leaves (going opts (ts ++ [t])) (justified opts deadline (ts ++ [t]))
    (turn jfs opts tun deadline t s).
Proof.
  intros Hg%(going_more _ t). unfold turn.
  assert (Ht : t ∈ ts ++ [t]) by set_solver.
  destruct (can_select _ _ _ _) eqn:Hsel; [|done].
  pose proof (handle_event_going _ t _ Ht Hsel Hg) as He.
  destruct (event_of _ _) as [ev s1]. cbn [fst snd] in He.
  destruct (handle_event tun t ev s1); [done|]. destruct He. by apply handle_lines_going.
Qed.

Lemma loop_justified ts seen s s' :
  going opts seen s → loop jfs opts tun deadline ts s = Broke s' →
  justified opts deadline (seen ++ ts) s'.
Proof.
  revert seen s. induction ts as [|t ts IH]; intros seen s Hg; [done|]. cbn [loop].
  pose proof (turn_going seen t s Hg) as Ht.
  destruct (turn _ _ _ _ t s) as [[s1|s1|e]|]; simpl in Ht.
  - intros Hl. change (t :: ts) with ([t] ++ ts). rewrite app_assoc. by eapply IH.
  - destruct ts; [|done]. by intros [= <-].
  - by destruct ts.
  - done.
Qed.

Lemma start_going start : going opts [] (run_start start).
Proof. by split. Qed.

(** ** After the exit has been seen *)

Definition seen (st : ExitStatus) (s : Run) : Prop := rc_status s = Some st ∧ calm s.

Lemma observe_seen w now grace st s :
  rc_status s = Some st → observe_exit w now grace s = (true, s).
Proof. intros Hs. unfold observe_exit. by rewrite Hs; simpl; rewrite Hs. Qed.

Lemma handle_lines_seen st t line s :
  seen st s → leaves (seen st) (seen st) (handle_lines jfs opts tun deadline t line s).
Proof.
  intros [Hs (C1 & C2 & C3 & C4 & C5)]. unfold handle_lines.
  destruct (fill jfs opts line (rc_queue s) _ [] 0) as [[s1 batch] pending] eqn:Hf.
  apply fill_filled in Hf as (more & _ & (A1 & A2 & A3 & A4 & A5 & A6) & HA). simpl in *.
  destruct HA as [(K & X & _)|(? & _)]; [|congruence].
  assert (H1 : seen st s1) by (repeat split; congruence). clear - H1.
  assert (Hw : leaves (seen st) (seen st) (write_batch tun t s1 batch)).
  { unfold write_batch. destruct batch; [done|]. destruct H1 as [Hs Hc].
    destruct (t_write t); [done| |].
    - rewrite (observe_seen _ _ _ st) by done. done.
    - simpl. by rewrite Hs. }
  destruct (write_batch tun t s1 batch) as [[s2|s2|e]|]; simpl in *; try done.
  destruct pending; [done|]. unfold check_deadline. destruct (phase_deadline deadline s2); [|done].
  destruct (_ <? _); [done|]. destruct Hw as [Hs Hc]. rewrite Hs. simpl. by rewrite Hs.
Qed.

Lemma turn_seen st t s :
  seen st s → leaves (seen st) (seen st) (turn jfs opts tun deadline t s).
Proof.
  intros Hseen. unfold turn. set (s1 := set_queue _ s).
  assert (H1 : seen st s1) by done. clearbody s1. destruct (can_select _ _ _ _); [|done].
  destruct (t_select t) as [|[ex|e]| | |]; cbn [event_of handle_event].
  - destruct (rc_queue s1) as [|[l|e] q]; [done| |done]. by apply handle_lines_seen.
  - destruct (is_none (rc_status s1)) eqn:En; [|done]. destruct H1 as [Hs _]. by rewrite Hs in En.
  - done.
  - rewrite (observe_seen _ _ _ st) by apply H1. done.
  - destruct H1 as [Hs Hc]. rewrite Hs. simpl. rewrite Hs. done.
  - rewrite (observe_seen _ _ _ st) by apply H1. done.
Qed.

Lemma loop_seen st ts s s' :
  seen st s → loop jfs opts tun deadline ts s = Broke s' → seen st s'.
Proof.
  revert s. induction ts as [|t ts IH]; intros s Hs; [done|]. cbn [loop].
  pose proof (turn_seen st t s Hs) as Ht.
  destruct (turn _ _ _ _ t s) as [[s1|s1|e]|]; simpl in Ht; [eauto| |by destruct ts|done].
  destruct ts; [|done]. by intros [= <-].
Qed.

Lemma loop_going ts before s s' :
  going opts before s → loop jfs opts tun deadline ts s = Going s' →
  going opts (before ++ ts) s'.
Proof.
  revert before s. induction ts as [|t ts IH]; intros before s Hg; cbn [loop].
  { intros [= <-]. by rewrite app_nil_r. }
  pose proof (turn_going before t s Hg) as Ht.
  destruct (turn _ _ _ _ t s) as [[s1|s1|e]|]; simpl in Ht; [|by destruct ts..|done].
  intros Hl. change (t :: ts) with ([t] ++ ts). rewrite app_assoc. by eapply IH.
Qed.

Lemma going_calm ts s : going opts ts s → rc_killed s = false → calm s.
Proof.
  intros [] Hk. rewrite Hk in g_killed0. symmetry in g_killed0.
  apply orb_false_iff in g_killed0 as [? ?]. done.
Qed.

Lemma natural_outcome st s : calm s → outcome_of (Some st) s = natural st.
Proof.
  intros (C1 & C2 & C3 & C4 & C5). unfold outcome_of, succeeded, oom_killed.
  rewrite C1, C2, C3, C4, C5. simpl. unfold exit_success.
  destruct st as [c|n]; simpl.
  - destruct (decide (c = 0)) as [->|]; [done|]. rewrite bool_decide_false by congruence.
    by destruct c.
  - destruct (decide (n = 9)) as [->|]; [done|].
    rewrite (bool_decide_false (Some n = Some 9)) by congruence.
    destruct n as [|p|p]; try done. by do 4 (destruct p as [p|p|]; try done).
Qed.
End supervise.

(** ** What is reported *)

(** The status the outcome is decided on. *)
Definition known_status (w : Wait) (s : Run) : option ExitStatus :=
  match rc_status s with
  | Some st => Some st
  | None => match w with Waited st => Some st | _ => None end
  end.

(** Each outcome says what happened. *)
Definition outcome_true (opts : BuildOptions) (l : Life) (s : Run)
    (o : ResultSink.BuildOutcome) : Prop :=
  let status := known_status (l_wait l) s in
  let deadline := overall_deadline_of opts (l_start l) in
  let ts := l_turns l in
  let silent := silent_in (bo_max_silent_time opts) (rc_last_output s) ts in
  match o with
  | ResultSink.Success => status = Some (Exited 0) ∧ (rc_killed s = true → silent)
  | ResultSink.OomKilled => status = Some (Signalled 9) ∧ rc_killed s = false
  | ResultSink.Aborted => cancelled_in ts
  | ResultSink.TimedOut => overdue_in deadline ts ∨ l_wait l = WaitTimeout ∧ is_Some deadline
  | ResultSink.BuildFailure =>
      (∃ st, status = Some st ∧ st ≠ Exited 0) ∨ write_failed_in ts ∨
      too_long (bo_max_log_size opts) s ts ∨ silent
  | _ => False
  end.

Lemma outcome_none_true opts l s :
  justified opts (overall_deadline_of opts (l_start l)) (l_turns l) s →
  rc_killed s = true → outcome_true opts l s (outcome_of None s).
Proof.
  intros [J1 J2 J3 J4 J5 J6] Hk. unfold outcome_of.
  destruct (rc_timed_out s) eqn:Et; [left; auto|]. destruct (rc_aborted s) eqn:Ea; [by apply J1|].
  right. destruct (J5 Hk) as [?|[?|[?|[?|?]]]]; [done|done|auto..].
Qed.

Lemma outcome_some_true opts l st s :
  justified opts (overall_deadline_of opts (l_start l)) (l_turns l) s →
  known_status (l_wait l) s = Some st → outcome_true opts l s (outcome_of (Some st) s).
Proof.
  intros [J1 J2 J3 J4 J5 J6] Hst. unfold outcome_of, outcome_true. rewrite Hst.
  destruct (succeeded st s) eqn:Es.
  - unfold succeeded in Es. rewrite !andb_true_iff, !negb_true_iff in Es.
    destruct Es as [[[[[Hs X] S] A] T] _].
    split; [f_equal; by apply bool_decide_eq_true in Hs|].
    intros Hk. destruct (J5 Hk) as [?|[?|[?|[?|?]]]]; congruence.
  - destruct (rc_timed_out s) eqn:Et; [left; auto|].
    destruct (rc_aborted s) eqn:Ea; [by apply J1|].
    destruct (oom_killed st s) eqn:Eo.
    + unfold oom_killed in Eo. rewrite !andb_true_iff, !negb_true_iff in Eo.
      destruct Eo as [[[Hk _] _] H9]. split; [|done]. apply bool_decide_eq_true in H9.
      destruct st; simpl in *; congruence.
    + unfold succeeded, exit_success in Es. rewrite Et, Ea, Eo in Es. simpl in Es.
      rewrite !andb_true_r in Es.
      destruct (decide (st = Exited 0)); [|left; by exists st].
      rewrite bool_decide_true in Es by done. simpl in Es.
      apply andb_false_iff in Es as [Es|Es]; apply negb_false_iff in Es; right; auto.
Qed.

(** The note on a truncated log changes the message and the log only. *)
Lemma note_truncated_same opts deadline ts s :
  justified opts deadline ts s → justified opts deadline ts (note_truncated s).
Proof. unfold note_truncated. by destruct (rc_log_truncated s); [intros []|]. Qed.

Lemma note_truncated_known w s : known_status w (note_truncated s) = known_status w s.
Proof. unfold note_truncated. by destruct (rc_log_truncated s). Qed.

Lemma note_truncated_calm s : calm s → calm (note_truncated s).
Proof. unfold note_truncated. by destruct (rc_log_truncated s). Qed.

(** The run of a child as the loop, then the end. *)
Lemma run_command_inv jfs opts tun l r s :
  run_command jfs opts tun l = Some (Ok (r, s)) →
  let deadline := overall_deadline_of opts (l_start l) in
  ∃ s0, justified opts deadline (l_turns l) s0 ∧
    finish deadline (l_wait l) (l_elapsed_ms l) (query_outputs (l_show l) (l_listing l)) s0 =
      Some (Ok (r, s)).
Proof.
  intros Hr deadline. unfold run_command in Hr. destruct (l_spawn l); [|done].
  fold deadline in Hr.
  destruct (loop _ _ _ _ _ _) as [?|s0|?|] eqn:El; try done. exists s0. split; [|done].
  by apply (loop_justified _ _ _ _ _ []) in El; [|apply start_going].
Qed.

Lemma final_status_inv deadline w s status s' :
  final_status deadline w s = Some (Ok (status, s')) →
  (s' = s ∧ status = known_status w s ∧ (status = None → rc_killed s = true)) ∨
  (status = None ∧ w = WaitTimeout ∧ is_Some deadline ∧
   s' = set_timed_out true (set_error "build-timeout exceeded" s) ∧ rc_status s = None).
Proof.
  unfold final_status, known_status. destruct (rc_status s); [intros [= <- <-]; by left|].
  destruct w; [intros [= <- <-]; by left|done|].
  destruct (rc_killed s); [intros [= <- <-]; by left|].
  destruct deadline; [|done]. intros [= <- <-]. right. eauto.
Qed.

(** The claim below, for the proofs that build on it. *)
Lemma outcome_core jfs opts tun l r s :
  run_command jfs opts tun l = Some (Ok (r, s)) →
  outcome_true opts l s (lr_outcome r) ∧
  (rc_killed s = false → ∀ st, known_status (l_wait l) s = Some st → lr_outcome r = natural st) ∧
  lr_exit_code r = default (-1) (known_status (l_wait l) s ≫= exit_code) ∧
  (lr_outputs r ≠ [] → lr_outcome r = ResultSink.Success).
Proof.
  intros (s0 & Hj & Hf)%run_command_inv. unfold finish in Hf.
  destruct (final_status _ _ s0) as [[[status s1]|]|] eqn:Ef; [|done..].
  injection Hf as <- <-.
  apply final_status_inv in Ef as [(-> & Hst & Hk)|(-> & Hw & Hd & -> & Hs)].
  - apply note_truncated_same in Hj. rewrite <-(note_truncated_known _ s0) in Hst.
    assert (Hk' : status = None → rc_killed (note_truncated s0) = true).
    { intros ->. unfold note_truncated. destruct (rc_log_truncated s0); simpl; auto. }
    clear Hk. generalize dependent (note_truncated s0). intros s1 Hj Hst Hk.
    rewrite <-Hst. destruct status as [st|]; simpl.
    + split_and!; [by apply outcome_some_true| |done|].
      * intros Hn st' [= <-]. apply natural_outcome.
        destruct Hj as [J1 J2 J3 J4 J5 J6]. unfold calm.
        destruct (rc_aborted s1), (rc_timed_out s1), (rc_sink_failed s1), (rc_log_size_exceeded s1);
          split_and!; try done; rewrite J6 in Hn; auto; done.
      * unfold outcome_of. by destruct (succeeded st s1).
    + split_and!; [apply outcome_none_true; auto|done..].
  - assert (Hn : known_status (l_wait l) (note_truncated (set_timed_out true
      (set_error "build-timeout exceeded" s0))) = None).
    { rewrite note_truncated_known, Hw. unfold known_status. simpl. by rewrite Hs. }
    rewrite Hn. simpl. split_and!; [|done..]. unfold outcome_of.
    replace (rc_timed_out (note_truncated _)) with true
      by (unfold note_truncated; by destruct (rc_log_truncated _)).
    right. done.
Qed.

(** C11. Every outcome an agent reports is true.  Success: the child exited with 0, and if
    it had been killed it was for its silence, which it broke by ending.  OomKilled: it died
    of SIGKILL and the agent had not sent it.  Aborted: a cancellation reached the loop.
    TimedOut: the deadline had passed.  A failure: the child failed, the log sink did, a line
    did not fit the log, or the child had printed nothing for the allowed time.  A child the
    agent left alone is reported by its own exit, the exit code is always the child's, and
    outputs are reported with success only. *)
Theorem outcome_justified jfs opts tun l r s :
  run_command jfs opts tun l = Some (Ok (r, s)) →
  outcome_true opts l s (lr_outcome r) ∧
  (rc_killed s = false → ∀ st, known_status (l_wait l) s = Some st → lr_outcome r = natural st) ∧
  lr_exit_code r = default (-1) (known_status (l_wait l) s ≫= exit_code) ∧
  (lr_outputs r ≠ [] → lr_outcome r = ResultSink.Success).
Proof. apply outcome_core. Qed.

(** An exit that has been seen decides the outcome: once the loop has taken note that a
    child it has not killed ended, nothing that happens afterwards - a cancellation, a
    deadline, a failing or stalled log sink, a full log - changes what is reported. *)
Theorem seen_exit_decides jfs opts tun deadline start ts1 ts2 s1 s2 st :
  loop jfs opts tun deadline ts1 (run_start start) = Going s1 →
  rc_status s1 = Some st → rc_killed s1 = false →
  loop jfs opts tun deadline ts2 s1 = Broke s2 →
  ∀ w ms outs, ∃ r s3, finish deadline w ms outs s2 = Some (Ok (r, s3)) ∧
    lr_outcome r = natural st ∧ lr_exit_code r = default (-1) (exit_code st) ∧
    lr_outputs r = (if bool_decide (st = Exited 0) then outs else []).
Proof.
  intros H1 Hs Hk H2 w ms outs.
  apply (loop_going _ _ _ _ _ []) in H1; [|apply start_going].
  destruct (loop_seen jfs opts tun deadline st ts2 s1 s2) as [Hs2 Hc2]; [|done|].
  { split; [done|]. by eapply going_calm. }
  unfold finish, final_status. rewrite Hs2. apply note_truncated_calm in Hc2.
  do 2 eexists. split; [done|]. simpl. pose proof (natural_outcome st _ Hc2) as Hn.
  split_and!; [done|done|]. unfold outcome_of in Hn.
  destruct Hc2 as (_ & C2 & C3 & C4 & C5). unfold succeeded, exit_success in *.
  rewrite C2, C3, C4, C5 in *. simpl in *. rewrite !andb_true_r in *.
  case_bool_decide as E; simpl in *; [|done]. subst st. simpl in *.
  unfold oom_killed in *. simpl in *. by rewrite andb_false_r.
Qed.

(** ** Examples *)

Definition example_life (ts : list Turn) (w : Wait) : Life :=
  {| l_spawn := Ok (); l_start := 0; l_turns := ts; l_wait := w; l_elapsed_ms := 5;
     l_show := None; l_listing := Some "/nix/store/o" |}.

(** The log overflows, the child is killed and a cancellation comes before it is reaped. *)
Definition killed_life : Life :=
  example_life [quiet_turn SelLine [Ok "abcdefghijkl"]; quiet_turn SelCancelled []]
    (Waited (Signalled 9)).

Lemma outcome_justified_witness :
  ∃ r s, run_command (λ _, None) example_opts tunables_default killed_life = Some (Ok (r, s)) ∧
  lr_outcome r = ResultSink.Aborted ∧ outcome_true example_opts killed_life s (lr_outcome r).
Proof.
  do 2 eexists. split; [vm_compute; reflexivity|]. split; [reflexivity|].
  apply (outcome_justified (λ _, None) example_opts tunables_default killed_life).
  vm_compute; reflexivity.
Defined.

(** The child has ended well; the cancellation that follows only cuts its log. *)
Lemma seen_exit_decides_witness :
  ∃ s1 s2,
    loop (λ _, None) example_opts tunables_default None [quiet_turn (SelExited (Ok (Exited 0))) []]
      (run_start 0) = Going s1 ∧
    loop (λ _, None) example_opts tunables_default None [quiet_turn SelCancelled [Ok "x"]] s1 =
      Broke s2 ∧
    ∃ r s3, finish None WaitTimeout 5 [] s2 = Some (Ok (r, s3)) ∧
      lr_outcome r = ResultSink.Success ∧ lr_exit_code r = 0 ∧ lr_outputs r = [].
Proof.
  do 2 eexists. split; [vm_compute; reflexivity|]. split; [vm_compute; reflexivity|].
  eapply (seen_exit_decides (λ _, None) example_opts tunables_default None 0
            [quiet_turn (SelExited (Ok (Exited 0))) []] [quiet_turn SelCancelled [Ok "x"]] _ _
            (Exited 0)); vm_compute; reflexivity.
Defined.

(** A line the reader cannot decode ends the supervision: the rest of the log is lost, and
    neither the silence limit nor a cancellation is looked at any more; the build succeeds
    with the read error as its message. *)
Example read_error_still_succeeds :
  match run_command (λ _, None) example_opts tunables_default
          (example_life [quiet_turn SelLine [Err "stderr read: not UTF-8"; Ok "later"]]
             (Waited (Exited 0))) with
  | Some (Ok (r, s)) =>
      lr_outcome r = ResultSink.Success ∧ lr_error_message r = "stderr read: not UTF-8" ∧
      rc_writes s = []
  | _ => False
  end.
Proof. vm_compute. auto. Qed.

(** In rootless mode a build killed for memory comes back as an exit code: it is reported
    as an ordinary failure. *)
Example rootless_oom_is_failure :
  natural (Signalled 9) = ResultSink.OomKilled ∧
  natural (Exited (parent_handshake_code (WSignaled 9))) = ResultSink.BuildFailure.
Proof. done. Qed.

(** A summary of exactly the maximal length is marked as cut. *)
Lemma summary_marks_full s :
  Forall (λ c, is_continuation c = false) (str_chars s) →
  length (str_chars s) = summary_max →
  summarize_failure [s] = ELLIPSIS +:+ s.
Proof.
  intros Ha Hn. unfold summarize_failure. cbn [reverse take rev_append app str_join].
  change (str_join (String NL "") (reverse (take 10 (reverse [s])))) with s.
  assert (H : ∀ l tail n, Forall (λ c, is_continuation c = false) l → length l = S n →
    nth_back_from n l tail = Some (rev_append l tail)).
  { induction l as [|c l IH]; intros tail n Hl Hlen; [done|].
    inversion Hl as [|?? Hc Hl']; subst. simpl in *. rewrite Hc.
    destruct n as [|n]; [destruct l; [done|simpl in Hlen; lia]|].
    rewrite IH; [done|done|lia]. }
  rewrite H.
  - f_equal. rewrite rev_append_rev, app_nil_r. unfold reverse. rewrite rev_append_rev, app_nil_r.
    rewrite rev_involutive. apply str_of_chars.
  - apply Forall_reverse. done.
  - rewrite length_reverse, Hn. done.
Qed.
