(* ===== verification/AgentJobs.v ===== *)
(** * The agent: its jobs and its life

    [crates/agent/src/session.rs]: the [Builder] capability an agent gives the runner
    ([assign], [abort], [shutdown]), the counters an ephemeral agent lives by ([Lifecycle],
    [ephemeral_monitor], [drain_inflight]) and the end of a build task.  The agent runs on
    one thread and none of these handlers awaits between its first check and its last
    update, so a handler is a step and the steps of the build tasks interleave with them. *)

From S2P Require Import Prelude Types Float32 Base32 Codecs StorePath Pool Db Builders Sinks NixJobs AgentBuild.

(** ** The life of an ephemeral agent *)

Record Lifecycle := {
  lc_completed : Z;
  lc_accepted : Z;
  lc_max_builds : option Z;
  lc_draining : bool;
  lc_last_active : Instant;
}.

Definition lifecycle_new (max_builds : option Z) (now : Instant) : Lifecycle :=
  {| lc_completed := 0; lc_accepted := 0; lc_max_builds := max_builds; lc_draining := false;
     lc_last_active := now |}.

Definition set_draining (l : Lifecycle) : Lifecycle :=
  {| lc_completed := lc_completed l; lc_accepted := lc_accepted l;
     lc_max_builds := lc_max_builds l; lc_draining := true; lc_last_active := lc_last_active l |}.

Definition set_accepted (n : Z) (l : Lifecycle) : Lifecycle :=
  {| lc_completed := lc_completed l; lc_accepted := n; lc_max_builds := lc_max_builds l;
     lc_draining := lc_draining l; lc_last_active := lc_last_active l |}.

Definition touch (now : Instant) (l : Lifecycle) : Lifecycle :=
  {| lc_completed := lc_completed l; lc_accepted := lc_accepted l;
     lc_max_builds := lc_max_builds l; lc_draining := lc_draining l; lc_last_active := now |}.

Definition is_draining (l : Lifecycle) : bool := lc_draining l.

(** [fetch_add] and [fetch_sub] wrap. *)
Definition reserve_build (l : Lifecycle) : bool * Lifecycle :=
  if is_draining l then (false, l)
  else match lc_max_builds l with
       | None => (true, l)
       | Some max =>
           let prev := lc_accepted l in
           let l := set_accepted (wrap_u32 (prev + 1)) l in
           if max <=? prev then
             (false, set_draining (set_accepted (wrap_u32 (lc_accepted l - 1)) l))
           else (true, if max <=? prev + 1 then set_draining l else l)
       end.

(** ** The state of an agent *)

(** A build task is known by its cancellation token.  [ag_counter] is [JOB_COUNTER], which
    outlives the session; [ag_tasks] are the tasks [spawn_local] has started and
    [ag_cancelled] the tokens that were signalled. *)
Record Agent := {
  ag_counter : Z;
  ag_max_jobs : Z;
  ag_running : gmap Z Z;
  ag_lifecycle : option Lifecycle;
  ag_tasks : gmap Z Z;
  ag_cancelled : gset Z;
}.

(** [BuilderImpl::new], in a process that still runs [counter] builds. *)
Definition builder_new (counter max_jobs : Z) (lifecycle : option Lifecycle) : Agent :=
  {| ag_counter := counter; ag_max_jobs := max_jobs; ag_running := ∅;
     ag_lifecycle := lifecycle; ag_tasks := ∅; ag_cancelled := ∅ |}.

Definition set_lifecycle (l : option Lifecycle) (a : Agent) : Agent :=
  {| ag_counter := ag_counter a; ag_max_jobs := ag_max_jobs a; ag_running := ag_running a;
     ag_lifecycle := l; ag_tasks := ag_tasks a; ag_cancelled := ag_cancelled a |}.

(** The entry, the counter, the activity and the task of an accepted build. *)
Definition accept (tok : Z) (build_id : Uuid) (now : Instant) (a : Agent) : Agent :=
  {| ag_counter := wrap_u32 (ag_counter a + 1); ag_max_jobs := ag_max_jobs a;
     ag_running := <[build_id := tok]> (ag_running a);
     ag_lifecycle := touch now <$> ag_lifecycle a;
     ag_tasks := <[tok := build_id]> (ag_tasks a); ag_cancelled := ag_cancelled a |}.

(** [assign]; [build_id] is [None] for a text that is no UUID, [tok] the fresh token. *)
Definition assign (tok : Z) (build_id : option Uuid) (now : Instant) (a : Agent) :
    result string () * Agent :=
  match build_id with
  | None => (Err "bad build_id", a)
  | Some id =>
      if match ag_lifecycle a with Some l => is_draining l | None => false end then
        (Err "agent draining; not accepting new builds", a)
      else if ag_max_jobs a <=? wrap_u32 (Z.of_nat (size (ag_running a))) then
        (Err "agent at max_jobs; refusing assignment", a)
      else if is_some (ag_running a !! id) then (Err "build_id is already running", a)
      else match ag_lifecycle a with
           | Some l =>
               let '(reserved, l) := reserve_build l in
               let a := set_lifecycle (Some l) a in
               if reserved then (Ok (), accept tok id now a)
               else (Err "agent reached max_builds; draining", a)
           | None => (Ok (), accept tok id now a)
           end
  end.

(** The end of a build task, after its report: what follows the last [await]. *)
Definition task_done (tok : Z) (now : Instant) (a : Agent) : Agent :=
  match ag_tasks a !! tok with
  | None => a
  | Some id =>
      {| ag_counter := wrap_u32 (ag_counter a - 1); ag_max_jobs := ag_max_jobs a;
         ag_running := delete id (ag_running a);
         ag_lifecycle :=
           (λ l, touch now {| lc_completed := wrap_u32 (lc_completed l + 1);
                              lc_accepted := lc_accepted l; lc_max_builds := lc_max_builds l;
                              lc_draining := lc_draining l;
                              lc_last_active := lc_last_active l |}) <$> ag_lifecycle a;
         ag_tasks := delete tok (ag_tasks a); ag_cancelled := ag_cancelled a |}
  end.

Definition cancel_tokens (toks : gset Z) (a : Agent) : Agent :=
  {| ag_counter := ag_counter a; ag_max_jobs := ag_max_jobs a; ag_running := ag_running a;
     ag_lifecycle := ag_lifecycle a; ag_tasks := ag_tasks a;
     ag_cancelled := toks ∪ ag_cancelled a |}.

Definition abort (build_id : option Uuid) (a : Agent) : Agent :=
  match build_id with
  | None => a
  | Some id => match ag_running a !! id with
               | Some tok => cancel_tokens {[tok]} a
               | None => a
               end
  end.

(** [shutdown] empties the table and signals what was in it. *)
Definition shutdown (a : Agent) : Agent :=
  let a' := cancel_tokens (map_img (ag_running a)) a in
  {| ag_counter := ag_counter a'; ag_max_jobs := ag_max_jobs a'; ag_running := ∅;
     ag_lifecycle := ag_lifecycle a'; ag_tasks := ag_tasks a'; ag_cancelled := ag_cancelled a' |}.

(** ** The monitor *)

Record EphemeralConfig := {
  ec_max_builds : option Z;
  ec_max_lifetime_secs : option Z;
  ec_max_idle_secs : Z;
  ec_unique_name : bool;
}.

Definition ephemeral_default : EphemeralConfig :=
  {| ec_max_builds := None; ec_max_lifetime_secs := Some 21600; ec_max_idle_secs := 120;
     ec_unique_name := true |}.

Inductive Quit := QuitLifetime | QuitBuilds | QuitIdle.

(** One tick of [ephemeral_monitor], [start] its first instant. *)
Definition monitor_check (eph : EphemeralConfig) (start now : Instant) (counter : Z)
    (l : Lifecycle) : option Quit :=
  if match ec_max_lifetime_secs eph with Some m => m * SEC <=? now - start | None => false end
  then Some QuitLifetime
  else if 0 <? counter then None
  else if match ec_max_builds eph with Some m => m <=? lc_completed l | None => false end
  then Some QuitBuilds
  else if ec_max_idle_secs eph * SEC <=? now - lc_last_active l then Some QuitIdle
  else None.

(** A tick that ends the loop sets [draining] before [quit] is signalled. *)
Definition monitor_tick (eph : EphemeralConfig) (start now : Instant) (a : Agent) :
    option Quit * Agent :=
  match ag_lifecycle a with
  | None => (None, a)
  | Some l =>
      match monitor_check eph start now (ag_counter a) l with
      | Some q => (Some q, set_lifecycle (Some (set_draining l)) a)
      | None => (None, a)
      end
  end.

(** A tick of [drain_inflight], which waits for the running builds for five minutes. *)
Inductive Drain := Drained | DrainExpired | DrainWait.

Definition DRAIN_GRACE : Z := 300 * SEC.

Definition drain_tick (deadline now : Instant) (counter : Z) : Drain :=
  if counter =? 0 then Drained else if deadline <=? now then DrainExpired else DrainWait.

(** ** Runs *)

(** The steps of a session; a token is new when it is handed out.  [full] adds
    [shutdown]. *)
Inductive job_step (full : bool) : Agent → Agent → Prop :=
  | js_assign a tok id now :
      ag_tasks a !! tok = None → tok ∉ ag_cancelled a →
      job_step full a (assign tok id now a).2
  | js_done a tok now : job_step full a (task_done tok now a)
  | js_abort a id : job_step full a (abort id a)
  | js_tick a eph start now : job_step full a (monitor_tick eph start now a).2
  | js_shutdown a : full = true → job_step full a (shutdown a).

(** The counters of a life with a limit on the number of builds. *)
Definition life_ok (running : Z) (l : Lifecycle) : Prop :=
  ∀ m, lc_max_builds l = Some m →
    0 ≤ lc_completed l ∧ lc_accepted l = lc_completed l + running ∧
    lc_accepted l ≤ m ∧ is_u32 m ∧ (lc_accepted l = m → m ≠ 0 → lc_draining l = true).

(** The tables are each other's inverse and the counters count them. *)
Record table_ok (base max_jobs : Z) (a : Agent) : Prop := {
  jo_table id tok : ag_running a !! id = Some tok ↔ ag_tasks a !! tok = Some id;
  jo_size : size (ag_tasks a) = size (ag_running a);
  jo_counter : ag_counter a = base + Z.of_nat (size (ag_tasks a));
  jo_jobs : ag_max_jobs a = max_jobs;
  jo_bound : Z.of_nat (size (ag_tasks a)) ≤ max_jobs;
}.

Definition jobs_ok (base max_jobs : Z) (a : Agent) : Prop :=
  table_ok base max_jobs a ∧
  ∀ l, ag_lifecycle a = Some l → life_ok (Z.of_nat (size (ag_tasks a))) l.

(** The builds of earlier sessions, those of this one and the limits are [u32]s. *)
Definition in_range (base max_jobs : Z) (lc : option Lifecycle) : Prop :=
  0 ≤ base ∧ 0 ≤ max_jobs ∧ base + max_jobs ≤ U32_MAX ∧
  ∀ l m, lc = Some l → lc_max_builds l = Some m → is_u32 m.

Lemma wrap_u32_id z : is_u32 z → wrap_u32 z = z.
Proof. unfold is_u32, U32_MAX, wrap_u32. intros. apply Z.mod_small. lia. Qed.

Section jobs.
Context (base max_jobs : Z).
Hypothesis range : 0 ≤ base ∧ 0 ≤ max_jobs ∧ base + max_jobs ≤ U32_MAX.

Lemma jobs_new lc : 
  in_range base max_jobs lc →
  (∀ l, lc = Some l → lc_accepted l = 0 ∧ lc_completed l = 0) →
  jobs_ok base max_jobs (builder_new base max_jobs lc).
Proof.
  intros (_ & _ & _ & Hm) Hl.
  split; [split|]; simpl; rewrite ?map_size_empty; try done; [lia..|].
  intros l -> m Hlm. destruct (Hl l eq_refl) as [-> ->].
  specialize (Hm l m eq_refl Hlm). unfold is_u32 in *. split_and!; try done; lia.
Qed.

(** A build that is taken on: its token and its identifier are new to the tables. *)
Lemma jobs_accept tok id now a :
  table_ok base max_jobs a → ag_tasks a !! tok = None → ag_running a !! id = None →
  Z.of_nat (size (ag_tasks a)) < max_jobs →
  (∀ l, ag_lifecycle a = Some l → life_ok (Z.of_nat (size (ag_tasks a)) + 1) l) →
  jobs_ok base max_jobs (accept tok id now a).
Proof.
  intros [Ht Hs Hc Hj Hb] Htok Hid Hlt Hl.
  split; [split|]; simpl; rewrite ?map_size_insert_None by done; try done; [|lia| |lia|].
  - intros i t. rewrite !lookup_insert_Some. split.
    + intros [[<- <-]|[Hne Hr]]; [by left|]. right. apply Ht in Hr. split; congruence.
    + intros [[<- <-]|[Hne Hr]]; [by left|]. right. apply Ht in Hr. split; congruence.
  - rewrite wrap_u32_id; unfold is_u32; lia.
  - intros l (l' & El & ->)%fmap_Some.
    replace (Z.of_nat (S (size (ag_tasks a)))) with (Z.of_nat (size (ag_tasks a)) + 1) by lia.
    apply (Hl l' El).
Qed.

Lemma jobs_lifecycle l a :
  jobs_ok base max_jobs a → life_ok (Z.of_nat (size (ag_tasks a))) l →
  jobs_ok base max_jobs (set_lifecycle (Some l) a).
Proof. intros [[] _] Hl. split; [by split|]. by intros ? [= <-]. Qed.

(** A life that is not draining has room under its limit. *)
Lemma reserve_build_ok n l :
  0 ≤ n → life_ok n l → lc_draining l = false → lc_max_builds l ≠ Some 0 →
  ∃ l', reserve_build l = (true, l') ∧ life_ok (n + 1) l'.
Proof.
  intros Hn Hl Hd Hz. unfold reserve_build, is_draining. rewrite Hd.
  destruct (lc_max_builds l) as [m|] eqn:Em.
  - destruct (Hl m Em) as (H0 & Ha & Hle & Hu & Hdr). unfold is_u32 in Hu.
    assert (m ≠ 0) by congruence.
    destruct (Z.leb_spec m (lc_accepted l)) as [Hge|Hlt].
    { assert (lc_accepted l = m) by lia. rewrite Hdr in Hd by lia. done. }
    assert (Hw : wrap_u32 (lc_accepted l + 1) = lc_accepted l + 1).
    { apply wrap_u32_id. unfold is_u32. lia. }
    eexists. split; [done|]. destruct (Z.leb_spec m (lc_accepted l + 1)); intros m' Hm';
      simpl in *; rewrite Hw in *; simplify_eq; unfold is_u32; split_and!; try done; lia.
  - eexists. split; [done|]. intros m' Hm'. congruence.
Qed.

(** When an agent takes a build on. *)
Definition would_accept (build_id : option Uuid) (a : Agent) : Prop :=
  ∃ id, build_id = Some id ∧
    (∀ l, ag_lifecycle a = Some l → lc_draining l = false ∧ lc_max_builds l ≠ Some 0) ∧
    Z.of_nat (size (ag_tasks a)) < max_jobs ∧
    ∀ tok, ag_tasks a !! tok ≠ Some id.

Lemma running_none a id :
  table_ok base max_jobs a → ag_running a !! id = None ↔ ∀ tok, ag_tasks a !! tok ≠ Some id.
Proof.
  intros Ha. split.
  - intros Hn tok Ht. apply (jo_table _ _ _ Ha) in Ht. congruence.
  - intros Hn. destruct (ag_running a !! id) as [tok|] eqn:E; [|done].
    apply (jo_table _ _ _ Ha) in E. by destruct (Hn tok).
Qed.

(** A refusal leaves the tables alone; only the one for a limit of no builds drains. *)
Lemma reserve_zero n l :
  life_ok n l → lc_draining l = false → lc_max_builds l = Some 0 → 0 ≤ n →
  ∃ l', reserve_build l = (false, l') ∧ life_ok n l'.
Proof.
  intros Hl Hd Hz Hn. destruct (Hl 0 Hz) as (H0 & Ha & Hle & Hu & _).
  assert (E : lc_accepted l = 0) by lia. unfold reserve_build, is_draining. rewrite Hd, Hz, E.
  simpl. eexists. split; [done|]. intros m Hm. simpl in *. rewrite Hz in Hm. simplify_eq.
  change (wrap_u32 (wrap_u32 (0 + 1) - 1)) with 0. split_and!; try done; lia.
Qed.

Lemma assign_spec tok id now a :
  jobs_ok base max_jobs a → ag_tasks a !! tok = None →
  let '(r, a') := assign tok id now a in
  (is_ok r = true ↔ would_accept id a) ∧ jobs_ok base max_jobs a' ∧
  (if is_ok r then ∃ i, id = Some i ∧ ag_tasks a' = <[tok := i]> (ag_tasks a)
   else ag_tasks a' = ag_tasks a).
Proof.
  intros [Ha Hlife] Htok. assert (Hall : jobs_ok base max_jobs a) by done.
  pose proof (jo_size _ _ _ Ha) as Hs. pose proof (jo_bound _ _ _ Ha) as Hb.
  unfold assign, would_accept. destruct id as [id|].
  2: { split_and!; [|done|done]. split; [done|]. by intros (? & ? & _). }
  rewrite (jo_jobs _ _ _ Ha), <-Hs, (wrap_u32_id (Z.of_nat _)) by (unfold is_u32; lia).
  destruct (ag_lifecycle a) as [l|] eqn:El; unfold is_draining.
  - pose proof (Hlife l eq_refl) as Hl.
    destruct (lc_draining l) eqn:Ed.
    { split_and!; [|done|done]. split; [done|]. intros (? & _ & H & _).
      destruct (H l eq_refl). congruence. }
    destruct (Z.leb_spec max_jobs (Z.of_nat (size (ag_tasks a)))).
    { split_and!; [|done|done]. split; [done|]. intros (? & _ & _ & ? & _). lia. }
    destruct (ag_running a !! id) as [t|] eqn:Er; simpl.
    { split_and!; [|done|done]. split; [done|]. intros (i & [= <-] & _ & _ & Hn).
      apply (running_none _ _ Ha) in Hn. congruence. }
    destruct (decide (lc_max_builds l = Some 0)) as [Hz|Hz].
    + destruct (reserve_zero _ l Hl Ed Hz (Nat2Z.is_nonneg _)) as (l' & -> & Hl').
      split_and!; [|by apply jobs_lifecycle|done]. split; [done|].
      intros (? & _ & H' & _). by destruct (H' l eq_refl).
    + destruct (reserve_build_ok _ l (Nat2Z.is_nonneg _) Hl Ed Hz) as (l' & -> & Hl').
      split_and!; [| |by exists id].
      * split; [|done]. intros _. exists id. split_and!; [done| |done|by apply running_none].
        by intros ? [= <-].
      * apply jobs_accept; simpl; try done; [by destruct Ha; split|]. by intros ? [= <-].
  - destruct (Z.leb_spec max_jobs (Z.of_nat (size (ag_tasks a)))).
    { split_and!; [|done|done]. split; [done|]. intros (? & _ & _ & ? & _). lia. }
    destruct (ag_running a !! id) as [t|] eqn:Er; simpl.
    { split_and!; [|done|done]. split; [done|]. intros (i & [= <-] & _ & _ & Hn).
      apply (running_none _ _ Ha) in Hn. congruence. }
    split_and!; [|apply jobs_accept; try done; by rewrite El|by exists id].
    split; [|done]. intros _. exists id. split_and!; [done..|by apply running_none].
Qed.

Lemma done_ok tok now a : jobs_ok base max_jobs a → jobs_ok base max_jobs (task_done tok now a).
Proof.
  intros [Ha Hl]. unfold task_done. destruct (ag_tasks a !! tok) as [id|] eqn:Et; [|done].
  destruct Ha as [Ht Hs Hc Hj Hb]. pose proof (proj2 (Ht id tok) Et) as Hr.
  assert (Hd : size (delete tok (ag_tasks a)) = pred (size (ag_tasks a)))
    by (apply map_size_delete_Some; eauto).
  assert (Hd' : size (delete id (ag_running a)) = pred (size (ag_running a)))
    by (apply map_size_delete_Some; eauto).
  assert (0 < size (ag_tasks a))%nat.
  { destruct (size (ag_tasks a)) eqn:E; [|lia]. apply map_size_empty_inv in E.
    rewrite E in Et. by rewrite lookup_empty in Et. }
  split; [split|]; simpl; rewrite ?Hd, ?Hd'; try done; [|lia| |lia|].
  - intros i t. rewrite !lookup_delete_Some. split.
    + intros [Hne Hi]. apply Ht in Hi. split; congruence.
    + intros [Hne Hi]. apply Ht in Hi. split; [|done]. congruence.
  - rewrite wrap_u32_id; unfold is_u32; lia.
  - intros l (l' & El & ->)%fmap_Some m Hm. simpl in *.
    destruct (Hl l' El m Hm) as (H0 & Hacc & Hle & Hu & Hdr). unfold is_u32 in *.
    rewrite wrap_u32_id by (unfold is_u32; lia). split_and!; try done; lia.
Qed.

Lemma step_ok a a' : job_step false a a' → jobs_ok base max_jobs a → jobs_ok base max_jobs a'.
Proof.
  intros Hstep Ha. destruct Hstep as [a tok id now Ht Hc|a tok now|a id|a eph start now|a Hf].
  - pose proof (assign_spec tok id now a Ha Ht) as H.
    destruct (assign tok id now a) as [r a']. by destruct H as (_ & ? & _).
  - by apply done_ok.
  - unfold abort. destruct id as [id|]; [|done].
    destruct (ag_running a !! id); [|done]. destruct Ha as [[] ?]. by split; [split|].
  - unfold monitor_tick. destruct (ag_lifecycle a) as [l|] eqn:El; [|done].
    destruct (monitor_check _ _ _ _ _); [|done]. apply jobs_lifecycle; [done|].
    destruct Ha as [_ Hl]. intros m Hm. destruct (Hl l El m Hm) as (? & ? & ? & ? & ?). done.
  - done.
Qed.

Lemma steps_ok a a' :
  rtc (job_step false) a a' → jobs_ok base max_jobs a → jobs_ok base max_jobs a'.
Proof. induction 1; [done|]. intros Ha. eauto using step_ok. Qed.

(** Leaving because all the builds of a life are done. *)
Lemma quit_builds eph start now a l :
  jobs_ok base max_jobs a → base = 0 → ag_lifecycle a = Some l →
  ec_max_builds eph = lc_max_builds l →
  monitor_check eph start now (ag_counter a) l = Some QuitBuilds →
  ag_tasks a = ∅ ∧ lc_max_builds l = Some (lc_completed l) ∧ lc_accepted l = lc_completed l.
Proof.
  intros [[Ht Hs Hc Hj Hb] Hl] -> El Em. unfold monitor_check. rewrite Em.
  destruct (match ec_max_lifetime_secs eph with Some m => _ | None => false end); [done|].
  destruct (Z.ltb_spec 0 (ag_counter a)); [done|].
  assert (E : size (ag_tasks a) = 0%nat) by lia.
  destruct (lc_max_builds l) as [m|] eqn:Hm; [|by destruct (_ <=? _)].
  destruct (Z.leb_spec m (lc_completed l)); [|by destruct (_ <=? _)]. intros _.
  destruct (Hl l El m Hm) as (_ & Hacc & Hle & _). rewrite E in Hacc.
  split; [by apply map_size_empty_inv|]. assert (m = lc_completed l) by lia. subst m.
  split; [done|]. lia.
Qed.
End jobs.

(** C13. The jobs of an agent session.  Whatever the order of assignments, aborts, ends of
    builds and ticks of the monitor, the table [abort] uses is exactly the set of running
    builds, each under its own token, the job counter of the heartbeats counts them (with
    the [base] builds an earlier session left behind) and there are never more than
    [max_jobs]; a build is accepted if and only if the agent is not draining, has a free
    slot and is not already running it.  With a limit on builds, what was accepted is what
    was completed and what is running, never more than the limit, and the monitor reports
    the limit as reached only when exactly that many builds are done and none is running. *)
Theorem agent_jobs_exact base max_jobs max_builds born a :
  let lc := (λ m, lifecycle_new m born) <$> max_builds in
  in_range base max_jobs lc →
  rtc (job_step false) (builder_new base max_jobs lc) a →
  (∀ id tok, ag_running a !! id = Some tok ↔ ag_tasks a !! tok = Some id) ∧
  ag_counter a = base + Z.of_nat (size (ag_tasks a)) ∧
  Z.of_nat (size (ag_tasks a)) ≤ max_jobs ∧
  (∀ tok id now, ag_tasks a !! tok = None →
     is_ok (assign tok id now a).1 = true ↔ would_accept max_jobs id a) ∧
  (∀ l, ag_lifecycle a = Some l → life_ok (Z.of_nat (size (ag_tasks a))) l ∧
     ∀ eph start now, base = 0 → ec_max_builds eph = lc_max_builds l →
       monitor_check eph start now (ag_counter a) l = Some QuitBuilds →
       ag_tasks a = ∅ ∧ lc_max_builds l = Some (lc_completed l) ∧
       lc_accepted l = lc_completed l).
Proof.
  intros lc Hrange Hrun. destruct Hrange as (R1 & R2 & R3 & R4).
  assert (range : 0 ≤ base ∧ 0 ≤ max_jobs ∧ base + max_jobs ≤ U32_MAX) by done.
  assert (Ha : jobs_ok base max_jobs a).
  { eapply steps_ok; [done|done|]. apply jobs_new; [done|done|].
    intros l (m & _ & ->)%fmap_Some. done. }
  pose proof Ha as [[Ht _ Hc _ Hb] Hl]. split_and!; [done|done|done| |].
  - intros tok id now Htok. pose proof (assign_spec base max_jobs range tok id now a Ha Htok) as H.
    destruct (assign tok id now a) as [r a']. by destruct H.
  - intros l El. split; [by apply Hl|]. intros. by eapply quit_builds.
Qed.

(** ** Examples *)

Definition once : Agent := builder_new 0 2 (Some (lifecycle_new (Some 1) 0)).

Definition once_done : Agent := task_done 5 20 (assign 5 (Some 7) 10 once).2.

(** An agent for one build takes it, refuses the next and leaves when it is done. *)
Lemma agent_jobs_exact_witness :
  rtc (job_step false) once once_done ∧
  (assign 6 (Some 8) 15 once_done).1 = Err "agent draining; not accepting new builds" ∧
  ag_tasks once_done = ∅ ∧ ag_counter once_done = 0.
Proof.
  assert (Hr : rtc (job_step false) once once_done).
  { eapply rtc_l; [apply (js_assign false once 5 (Some 7) 10); [done|set_solver]|].
    apply rtc_once. apply js_done. }
  pose proof (agent_jobs_exact 0 2 (Some (Some 1)) 0 once_done) as H.
  destruct H as (_ & Hc & _ & _ & Hl); [|exact Hr|].
  { split_and!; [done..|]. intros l m [= <-] [= <-]. done. }
  split; [done|]. split; [done|].
  destruct (Hl _ eq_refl) as [_ Hq].
  destruct (Hq {| ec_max_builds := Some 1; ec_max_lifetime_secs := None; ec_max_idle_secs := 120;
                  ec_unique_name := true |} 0 30) as [He _]; [done..|].
  split; [done|]. vm_compute. done.
Defined.

(** [shutdown] frees the slots of builds that are still running: the same build is taken
    on again, and when the first one ends, the second can no longer be aborted. *)
Example shutdown_admits_twice :
  let a := (assign 1 (Some 7) 0 (builder_new 0 1 None)).2 in
  let '(r, a) := assign 2 (Some 7) 0 (shutdown a) in
  r = Ok () ∧ size (ag_tasks a) = 2%nat ∧
  let a := task_done 1 0 a in
  ag_tasks a !! 2 = Some 7 ∧ abort (Some 7) a = a ∧ (2 ∉ ag_cancelled a).
Proof. vm_compute. by split_and!. Qed.

(** The table is made anew for every connection, the builds of the old one go on: the
    process can run more builds than its maximum. *)
Example reconnect_exceeds_max_jobs :
  let '(r, a) := assign 2 (Some 8) 0 (builder_new 1 1 None) in
  r = Ok () ∧ ag_max_jobs a = 1 ∧ ag_counter a = 2.
Proof. done. Qed.
