(* ===== verification/AgentTask.v ===== *)
(** * The agent: what a build task does around the build

    [crates/agent/src/build.rs] ([run]), [sandbox.rs] (how the helper is called),
    [drv_sink.rs], [upload.rs], the body of the task [assign] spawns and
    [export_outputs_to_sink] and [report_result] ([session.rs]), and the identity an agent
    presents ([fill_info], [unique_ephemeral_name] of [cli.rs]).  Nix, S3 and the RPC are
    parameters: what they answer is an argument. *)

From S2P Require Import Prelude Types Float32 Base32 Codecs StorePath S3 Pool Db Builds Builders Dispatch Sinks Oidc UploadVerify Rpc NixJobs AgentBuild.

(** ** The sandbox helper *)

Module sandbox.
Definition HELPER_ARG : string := "--circus-sandbox".

(** The arguments [helper_command] gives to the agent's own executable. *)
Definition helper_args (program : string) (args : list string) : list string :=
  [HELPER_ARG; "--"; program] ++ args.

(** [maybe_run_helper]: the command the arguments of the process ask it to wrap. *)
Definition maybe_run_helper (argv : list string) : result string (option (string * list string)) :=
  match tail argv with
  | a :: rest =>
      if negb (bool_decide (a = HELPER_ARG)) then Ok None
      else match rest with
           | "--" :: program :: args => Ok (Some (program, args))
           | _ => Err "sandbox helper missing command"
           end
  | [] => Ok None
  end.
End sandbox.

(** ** Getting the derivation *)

Inductive Prep := PFetchRpc | PCopy (args : list string).

Definition fetch_drv_from_cache (opts : BuildOptions) : list string :=
  ["--extra-experimental-features"; "nix-command"; "copy"; "--no-check-sigs"; "--derivation";
   "--from"; bo_cache_substituter opts; bo_drv_path opts].

(** The steps of [run] before the build: [valid] is what [drv_is_valid] finds, [rpc] how the
    fetch from the runner ends. *)
Definition prepare (valid : bool) (rpc : result string ()) (opts : BuildOptions) : list Prep :=
  if valid then []
  else PFetchRpc ::
       (if is_ok rpc || is_empty (bo_cache_substituter opts) then []
        else [PCopy (fetch_drv_from_cache opts)]).

(** [command]: whether the command can be put together. *)
Definition run (json_from_str : string → option Json) (valid : bool) (rpc : result string ())
    (command : result string ()) (opts : BuildOptions) (l : Life) :
    list Prep * option (result string (LocalResult * Run)) :=
  (prepare valid rpc opts,
   match command with
   | Err e => Some (Err e)
   | Ok _ => run_command json_from_str opts tunables_default l
   end).

(** ** The sink for the derivation's closure

    [DrvSinkImpl] is the agent's counterpart of the runner's [OutputSink]: the state and the
    bounds are the same, the messages differ. *)

Module DrvSink.
Import OutputSink.

Definition write (drv_path : string) (io : Io) (chunk : list Z) (s : OutState) :
    result string () * OutState :=
  if limits.MAX_NAR_CHUNK_BYTES <? zlen chunk then
    (Err ("drv chunk too large: " +:+ pretty (zlen chunk) +:+ " > " +:+
          pretty limits.MAX_NAR_CHUNK_BYTES), s)
  else if out_closed s then (Err "drv sink is closed", s)
  else
    let s := {| child := child s; out_closed := out_closed s;
                total := u64_saturating_add (total s) (zlen chunk); fed := fed s |} in
    if limits.MAX_IMPORT_TOTAL_BYTES <? total s then
      (Err ("drv closure exceeds " +:+ pretty limits.MAX_IMPORT_TOTAL_BYTES +:+
            " bytes for " +:+ drv_path), s)
    else if child s then feed io chunk s
    else match io_spawn io with
         | Some e => (Err ("spawn nix-store --import: " +:+ e), s)
         | None => feed io chunk s
         end.

Definition close (drv_path : string) (status : result string (bool * string)) (s : OutState) :
    result string () * OutState :=
  let s' := {| child := false; out_closed := true; total := total s; fed := fed s |} in
  if negb (child s) then (Ok (), s')
  else match status with
       | Err e => (Err ("wait for nix-store --import: " +:+ e), s')
       | Ok (success, text) =>
           if success then (Ok (), s')
           else (Err ("nix-store --import failed for " +:+ drv_path +:+ " (" +:+ text +:+ ")"), s')
       end.

Definition call (drv_path : string) (c : Call) (s : OutState) : result string () * OutState :=
  match c with
  | OWrite io chunk => write drv_path io chunk s
  | OClose status => close drv_path status s
  end.
End DrvSink.

(** ** Uploads *)

Record PathMetadata := {
  pm_store_path : string;
  pm_nar_hash : string;
  pm_nar_size : Z;
  pm_references : list string;
  pm_deriver : option string;
  pm_ca : option string;
}.

Record UploadStats := {
  us_successes : list string;
  us_failures : list (string * string);
  us_elapsed_ms : Z;
}.

Record PresignSlot := {
  ps_nar_url : string;
  ps_nar_path : string;
  ps_error : string;
}.

Record UploadedBytes := {
  ub_file_hash : string;
  ub_file_size : Z;
}.

Definition json_u64 (j : Json) : option Z :=
  match j with JInt z => if (0 <=? z) && (z <=? U64_MAX) then Some z else None | _ => None end.

(** The object of [nix path-info --json] for one path, in either of its shapes. *)
Definition path_info_object (v : Json) : result string (list (string * Json)) :=
  match v with
  | JObj o =>
      match (let* first := head o in json_object first.2) with
      | Some obj => Ok obj
      | None => Err "empty path-info object"
      end
  | JArr arr =>
      match (let* first := head arr in json_object first) with
      | Some obj => Ok obj
      | None => Err "empty path-info array"
      end
  | _ => Err "unexpected path-info shape"
  end.

Definition path_metadata (store_path : string) (v : Json) : result string PathMetadata :=
  let? obj := path_info_object v in
  let text k := let* j := match_str k obj in json_str j in
  match text "narHash" with
  | None => Err "missing narHash"
  | Some nar_hash =>
      Ok {| pm_store_path := store_path; pm_nar_hash := nar_hash;
            pm_nar_size := default 0 (let* j := match_str "narSize" obj in json_u64 j);
            pm_references :=
              default [] (let* j := match_str "references" obj in
                          let* arr := json_array j in Some (omap json_str arr));
            pm_deriver := text "deriver"; pm_ca := text "ca" |}
  end.

(** What [nix path-info] answers: whether it runs, its exit and what it prints. *)
Record PathInfo := {
  pi_run : result string (bool * string);
  pi_json : option Json;
}.

Definition query_path_info (answer : PathInfo) (store_path : string) : result string PathMetadata :=
  match pi_run answer with
  | Err e => Err e
  | Ok (false, status) => Err ("nix path-info exited with " +:+ status)
  | Ok (true, _) =>
      match pi_json answer with
      | None => Err "parse path-info json"
      | Some v => path_metadata store_path v
      end
  end.

(** The compressors [upload_one] has. *)
Definition encoder_of (compression : string) : option Decoder :=
  match_str compression
    [("zstd", DZstd); ("xz", DXz); ("gzip", DGzip); ("none", DPlain); ("", DPlain)].

(** What happens during a [PUT]: whether [nix-store --dump] can be started, the pieces of
    the compressed dump the body is made of, the status of the response with its text, the
    end of the dump, and whether the body is gone by then. *)
Record Put := {
  pt_spawn : result string ();
  pt_pieces : Decoder → list (list Z);
  pt_response : result string (Z * string);
  pt_dump : result string (bool * string);
  pt_body_dropped : bool;
}.

(** [StatusCode::is_success]. *)
Definition status_success (status : Z) : bool := (200 <=? status) && (status <? 300).

Section upload.
Context `{Hasher}.

Definition upload_one (slot : PresignSlot) (compression : string) (p : Put) :
    result string UploadedBytes :=
  let? _ := pt_spawn p in
  match encoder_of compression with
  | None => Err ("unsupported compression: " +:+ compression)
  | Some enc =>
      match pt_response p with
      | Err _ => Err ("PUT " +:+ ps_nar_url slot)
      | Ok (status, body) =>
          if negb (status_success status) then
            Err ("S3 PUT returned " +:+ pretty status +:+ ": " +:+ body)
          else
            let? (success, text) := pt_dump p in
            if negb success then Err ("nix-store --dump exited with " +:+ text)
            else if negb (pt_body_dropped p) then Err "hasher Arc still has live readers"
            else
              let '(h, n) := hash_file (pt_pieces p enc) in
              Ok {| ub_file_hash := "sha256:" +:+ hex_encode (hasher_finalize h);
                    ub_file_size := n |}
      end
  end.

(** The narinfo [notify_complete] sends. *)
Definition upload_info (meta : PathMetadata) (slot : PresignSlot) (u : UploadedBytes)
    (compression : string) : UploadInfo :=
  {| ui_store_path := pm_store_path meta; ui_nar_hash := pm_nar_hash meta;
     ui_nar_size := pm_nar_size meta; ui_file_hash := ub_file_hash u;
     ui_file_size := ub_file_size u; ui_compression := compression;
     ui_url := ps_nar_path slot; ui_deriver := default "" (pm_deriver meta);
     ui_references := pm_references meta; ui_ca := default "" (pm_ca meta) |}.

(** [request_presigned]: as many answers as requests, or none. *)
Definition request_presigned (answer : list UrlRequest → result string (list PresignSlot))
    (metadata : list PathMetadata) : result string (list PresignSlot) :=
  let? slots := answer ((λ m, {| ur_store_path := pm_store_path m; ur_nar_hash := pm_nar_hash m;
                                 ur_nar_size := pm_nar_size m |}) <$> metadata) in
  if negb (zlen slots =? zlen metadata) then
    Err ("presign response length mismatch: expected " +:+ pretty (zlen metadata) +:+
         ", got " +:+ pretty (zlen slots))
  else Ok slots.

(** What the world answers to the agent during an upload. *)
Record UploadWorld := {
  uw_path_info : string → PathInfo;
  uw_presign : list UrlRequest → result string (list PresignSlot);
  uw_http : result string ();
  uw_put : PathMetadata → PresignSlot → Put;
  uw_notify : UploadInfo → result string ();
  uw_elapsed_ms : Z;
}.

Section world.
Variable w : UploadWorld.

(** The first loop: a path whose metadata cannot be had is a failure. *)
Fixpoint path_infos (outputs : list ResolvedOutput) :
    list PathMetadata * list (string * string) :=
  match outputs with
  | [] => ([], [])
  | o :: outputs =>
      let '(ms, fs) := path_infos outputs in
      match query_path_info (uw_path_info w (ro_path o)) (ro_path o) with
      | Ok m => (m :: ms, fs)
      | Err e => (ms, (ro_path o, "path-info: " +:+ e) :: fs)
      end
  end.

(** One turn of the second loop. *)
Definition upload_path (compression : string) (meta : PathMetadata) (slot : PresignSlot) :
    result string () :=
  if negb (is_empty (ps_error slot)) then Err (ps_error slot)
  else match upload_one slot compression (uw_put w meta slot) with
       | Err e => Err ("upload: " +:+ e)
       | Ok u =>
           match uw_notify w (upload_info meta slot u compression) with
           | Err e => Err ("notify: " +:+ e)
           | Ok _ => Ok ()
           end
       end.

Fixpoint upload_loop (compression : string) (l : list (PathMetadata * PresignSlot)) :
    list string * list (string * string) :=
  match l with
  | [] => ([], [])
  | (meta, slot) :: l =>
      let r := upload_path compression meta slot in
      let '(ok, fs) := upload_loop compression l in
      match r with
      | Ok _ => (pm_store_path meta :: ok, fs)
      | Err e => (ok, (pm_store_path meta, e) :: fs)
      end
  end.

Definition upload_all (compression : string) (outputs : list ResolvedOutput) :
    result string UploadStats :=
  let stats ok fs := Ok {| us_successes := ok; us_failures := fs;
                           us_elapsed_ms := uw_elapsed_ms w |} in
  let '(metadata, failures) := path_infos outputs in
  match metadata with
  | [] => stats [] failures
  | _ =>
      match request_presigned (uw_presign w) metadata with
      | Err e =>
          stats [] (failures ++ ((λ m, (pm_store_path m, "presign: " +:+ e)) <$> metadata))
      | Ok slots =>
          match uw_http w with
          | Err _ => Err "build reqwest client"
          | Ok _ =>
              let '(ok, fs) := upload_loop compression (zip metadata slots) in
              stats ok (failures ++ fs)
          end
      end
  end.
End world.

(** ** The body of the task *)

(** The presigned upload of a successful build. *)
Definition after_upload (fail_on_error : bool) (up : result string UploadStats)
    (r : LocalResult) : LocalResult :=
  let failed (broken : bool) ms msg :=
    {| lr_outcome := if broken && fail_on_error then ResultSink.UploadFailure else lr_outcome r;
       lr_exit_code := if broken && fail_on_error then 1 else lr_exit_code r;
       lr_build_time_ms := lr_build_time_ms r; lr_upload_time_ms := ms;
       lr_outputs := lr_outputs r; lr_error_message := msg |} in
  match up with
  | Ok stats =>
      match us_failures stats with
      | [] => failed false (us_elapsed_ms stats) (lr_error_message r)
      | fs =>
          failed true (us_elapsed_ms stats)
            (push_message (lr_error_message r)
               (trim_end_of white_space
                  ("upload failures: " +:+
                   str_join "" ((λ '(path, why), "[" +:+ path +:+ " -> " +:+ why +:+ "] ") <$> fs))))
      end
  | Err e => failed true (lr_upload_time_ms r) (push_message (lr_error_message r) ("upload: " +:+ e))
  end.

Definition wants_outputs (r : LocalResult) : bool :=
  bool_decide (lr_outcome r = ResultSink.Success) &&
  match lr_outputs r with [] => false | _ => true end.

(** [presign]: the compression the runner asks for, [None] without uploads. *)
Definition upload_stage (presign : option string) (fail_on_error : bool) (w : UploadWorld)
    (outcome : result string LocalResult) : result string LocalResult :=
  match presign, outcome with
  | Some compression, Ok r =>
      if wants_outputs r then Ok (after_upload fail_on_error (upload_all w compression (lr_outputs r)) r)
      else outcome
  | _, _ => outcome
  end.

(** The message of [report_result]. *)
Record Reported := {
  rp_outcome : ResultSink.BuildOutcome;
  rp_exit_code : Z;
  rp_build_time_ms : Z;
  rp_upload_time_ms : Z;
  rp_error_message : string;
  rp_outputs : list ResolvedOutput;
}.

Definition report_result (outcome : result string LocalResult) : Reported :=
  match outcome with
  | Ok r =>
      {| rp_outcome := lr_outcome r; rp_exit_code := lr_exit_code r;
         rp_build_time_ms := lr_build_time_ms r; rp_upload_time_ms := lr_upload_time_ms r;
         rp_error_message := lr_error_message r; rp_outputs := lr_outputs r |}
  | Err e =>
      {| rp_outcome := ResultSink.PreparingFailure; rp_exit_code := -1; rp_build_time_ms := 0;
         rp_upload_time_ms := 0; rp_error_message := e; rp_outputs := [] |}
  end.

(** From the end of the build to the report. *)
Definition task_report (presign : option string) (fail_on_error : bool) (w : UploadWorld)
    (outcome : result string (LocalResult * Run)) : Reported :=
  report_result (upload_stage presign fail_on_error w
    match outcome with Ok (r, _) => Ok r | Err e => Err e end).
End upload.

(** *** [export_outputs_to_sink]

    [reads] are the results of reading [nix-store --export], an empty one being its end,
    each with what the runner's file and child do when it is forwarded. *)

Fixpoint export_loop (build_id : string) (reads : list (result string (list Z) * OutputSink.Io))
    (s : OutputSink.OutState) : option string * OutputSink.OutState :=
  match reads with
  | [] | (Ok [], _) :: _ => (None, s)
  | (Err e, _) :: _ => (Some ("read nix-store --export: " +:+ e), s)
  | (Ok chunk, io) :: reads =>
      match OutputSink.write build_id io chunk s with
      | (Err e, s) => (Some ("stream output closure: " +:+ e), s)
      | (Ok _, s) => export_loop build_id reads s
      end
  end.

(** [closure] is what [query_requisites] finds, [exit] the end of the export and [import]
    that of the runner's import. *)
Definition export_outputs_to_sink (build_id : string) (closure : result string (list string))
    (reads : list (result string (list Z) * OutputSink.Io))
    (exit import : result string (bool * string)) (s : OutputSink.OutState) :
    result string () * OutputSink.OutState :=
  match closure with
  | Err e => (Err e, s)
  | Ok [] => (Ok (), s)
  | Ok _ =>
      let '(stream_err, s) := export_loop build_id reads s in
      let '(close_res, s) := OutputSink.close build_id import s in
      (match stream_err with
       | Some e => Err e
       | None =>
           let? (success, text) := exit in
           if negb success then Err ("nix-store --export exited with " +:+ text)
           else match close_res with
                | Ok _ => Ok ()
                | Err e => Err ("runner failed to import output closure: " +:+ e)
                end
       end, s)
  end.

(** The lines [nix-store --query --requisites] prints that are not empty. *)
Definition query_requisites (answer : result string (bool * string)) (stdout : string) :
    result string (list string) :=
  match answer with
  | Err _ => Err "nix-store --query --requisites"
  | Ok (false, text) => Err ("nix-store --query --requisites exited with " +:+ text)
  | Ok (true, _) => Ok (base.filter (λ l, is_empty l = false) (lines stdout))
  end.

(** ** The agent's identity *)

Record AgentConfig := {
  ac_name : string;
  ac_auth_token : string;
  ac_systems : list string;
  ac_supported_features : list string;
  ac_mandatory_features : list string;
  ac_max_jobs : Z;
  ac_cores : Z;
  ac_speed_factor : f32;
  ac_ephemeral : bool;
}.

Definition fill_info (hostname machine_id : string) (cpus : Z) (c : AgentConfig) : AgentInfo :=
  {| ai_machine_id := machine_id; ai_name := ac_name c; ai_hostname := hostname;
     ai_proto_version := PROTO_VERSION; ai_auth_token := ac_auth_token c;
     ai_systems := ac_systems c; ai_supported_features := ac_supported_features c;
     ai_mandatory_features := ac_mandatory_features c; ai_speed_factor := ac_speed_factor c;
     ai_cpu_count := wrap_u32 cpus; ai_max_jobs := ac_max_jobs c;
     ai_ephemeral := ac_ephemeral c |}.

Definition verify_runner_version (proto : string) : result string () :=
  if bool_decide (proto = PROTO_VERSION) then Ok ()
  else Err ("proto mismatch: runner=" +:+ proto +:+ " agent=" +:+ PROTO_VERSION).

(** [while !base.is_char_boundary(end) { end -= 1; }] *)
Fixpoint floor_boundary (l : list ascii) (end_ : nat) : nat :=
  match end_ with
  | O => O
  | S n => match l !! end_ with
           | Some c => if is_continuation c then floor_boundary l n else end_
           | None => end_
           end
  end.

Definition NAME_MAX : Z := 128.

(** [short] is the first eight characters of the machine id. *)
Definition unique_suffix (run_id run_attempt : option string) (short : string) : string :=
  match run_id, run_attempt with
  | Some run, Some attempt => "-gh" +:+ run +:+ "." +:+ attempt +:+ "-" +:+ short
  | Some run, None => "-gh" +:+ run +:+ "-" +:+ short
  | None, _ => "-" +:+ short
  end.

Definition unique_ephemeral_name (base suffix : string) : string :=
  let available := u32_saturating_sub NAME_MAX (str_len suffix) in
  let chars := str_chars base in
  (if available <? str_len base
   then str_of (take (floor_boundary chars (Z.to_nat available)) chars) else base) +:+ suffix.
