(* ===== verification/AgentReport.v ===== *)
(** * From the child of an agent to the runner's decision

    What [AgentTask] does with the result of a build, against the runner's side of the
    same exchanges ([Sinks], [UploadVerify], [Rpc]). *)

From S2P Require Import Prelude Types Float32 Base32 Codecs StorePath S3 Pool Db Builds Builders Dispatch Sinks Oidc UploadVerify Rpc NixJobs AgentBuild AgentLog AgentOutcome AgentTask.

(** ** The sandbox helper *)

(** The helper unpacks what [helper_command] packs, and nothing else is taken for it. *)
Lemma helper_roundtrip exe program args :
  sandbox.maybe_run_helper (exe :: sandbox.helper_args program args) = Ok (Some (program, args)).
Proof. done. Qed.

Lemma helper_only argv program args :
  sandbox.maybe_run_helper argv = Ok (Some (program, args)) →
  ∃ exe, argv = exe :: sandbox.helper_args program args.
Proof.
  unfold sandbox.maybe_run_helper. destruct argv as [|exe [|a rest]]; [done..|]. simpl.
  case_bool_decide as Ha; simpl; [|done]. subst a.
  destruct rest as [|d [|p rest]]; [done|by repeat case_match|].
  destruct (decide (d = "--")) as [->|Hd]; [intros [= <- <-]; by exists exe|].
  repeat case_match; by simplify_eq.
Qed.

(** ** The sink for derivations *)

Lemma drv_call_same drv_path build_id c s :
  (DrvSink.call drv_path c s).2 = (OutputSink.call build_id c s).2.
Proof.
  destruct c as [io chunk|status]; simpl.
  - unfold DrvSink.write, OutputSink.write. by repeat case_match.
  - unfold DrvSink.close, OutputSink.close. by repeat case_match.
Qed.

(** Whatever the runner sends, an agent imports at most 64 GiB of a derivation's closure. *)
Lemma drv_import_bounded drv_path cs :
  zlen (OutputSink.fed (foldl (λ s c, (DrvSink.call drv_path c s).2) OutputSink.new cs)) ≤
  limits.MAX_IMPORT_TOTAL_BYTES.
Proof.
  assert (E : ∀ s, foldl (λ s c, (DrvSink.call drv_path c s).2) s cs = OutputSink.run drv_path cs s).
  { unfold OutputSink.run. induction cs as [|c cs IH]; intros s; [done|]. simpl.
    by rewrite (drv_call_same _ drv_path), IH. }
  rewrite E. apply OutputSink.import_bounded.
Qed.

(** ** The export of the outputs *)

(** What the export prints, up to its end. *)
Fixpoint exported (reads : list (result string (list Z) * OutputSink.Io)) : option (list Z) :=
  match reads with
  | [] | (Ok [], _) :: _ => Some []
  | (Err _, _) :: _ => None
  | (Ok chunk, _) :: reads => let* rest := exported reads in Some (chunk ++ rest)
  end.

Lemma write_ok_feeds build_id io chunk s s' :
  chunk ≠ [] → OutputSink.write build_id io chunk s = (Ok (), s') →
  OutputSink.fed s' = OutputSink.fed s ++ chunk ∧ OutputSink.child s' = true.
Proof.
  intros Hc. unfold OutputSink.write, OutputSink.feed. repeat case_match; simpl; intros [= <-]; done.
Qed.

Lemma export_loop_ok build_id reads s s' :
  export_loop build_id reads s = (None, s') →
  ∃ out, exported reads = Some out ∧ OutputSink.fed s' = OutputSink.fed s ++ out ∧
    (out ≠ [] ∨ OutputSink.child s = true → OutputSink.child s' = true).
Proof.
  revert s. induction reads as [|[[[|b chunk]|e] io] reads IH]; intros s; simpl.
  1,2: intros [= <-]; exists []; rewrite app_nil_r; split_and!; [done|done|by intros []].
  - destruct (OutputSink.write build_id io (b :: chunk) s) as [[u|e] s1] eqn:E; [|done].
    destruct u. apply write_ok_feeds in E as [Hf Hc]; [|done].
    intros (out & -> & Hf' & Hc')%IH. simpl. exists (b :: chunk ++ out).
    rewrite Hf', Hf, <-app_assoc. split_and!; [done|done|]. intros _. auto.
  - done.
Qed.

Lemma close_spec build_id status s c s' :
  OutputSink.close build_id status s = (c, s') →
  OutputSink.out_closed s' = true ∧ OutputSink.fed s' = OutputSink.fed s ∧
  (c = Ok () → OutputSink.child s = true → ∃ t, status = Ok (true, t)).
Proof.
  unfold OutputSink.close. destruct (OutputSink.child s); simpl; [|by intros [= <- <-]].
  destruct status as [[[] t]|e]; intros [= <- <-]; simpl; split_and!; eauto; done.
Qed.

(** A transfer of outputs that is reported to have worked did: the agent's export ended
    well, every byte it printed was handed to the runner's import in order, and if there
    were any, the import ended well too.  In every other case an error is returned, and the
    sink is closed all the same. *)
Theorem export_complete build_id p ps reads exit import r s :
  export_outputs_to_sink build_id (Ok (p :: ps)) reads exit import OutputSink.new = (r, s) →
  OutputSink.out_closed s = true ∧
  (r = Ok () →
   ∃ out text, exported reads = Some out ∧ OutputSink.fed s = out ∧ exit = Ok (true, text) ∧
     (out ≠ [] → ∃ t, import = Ok (true, t))).
Proof.
  unfold export_outputs_to_sink.
  destruct (export_loop build_id reads OutputSink.new) as [err s1] eqn:E.
  destruct (OutputSink.close build_id import s1) as [c s2] eqn:Ec. intros [= Hr <-].
  apply close_spec in Ec as (Hcl & Hfed & Himp). split; [done|]. intros ->.
  destruct err as [e|]; [done|].
  apply export_loop_ok in E as (out & Hx & Hf & Hc). simpl in Hf, Hc.
  destruct exit as [[[] text]|e]; simpl in Hr; [|done..]. destruct c as [[]|]; [|done].
  exists out, text. rewrite Hfed. split_and!; auto.
Qed.

(** ** Uploads *)

(** What the runner makes of a report. *)
Definition runner_learns (rep : Reported) : DispatchResult :=
  ResultSink.dispatch_result
    (Some (ResultSink.kind_of (Some (rp_outcome rep)) (Some (rp_error_message rep)))).

Section uploads.
Context `{Hasher}.

Lemma path_info_path answer path m :
  query_path_info answer path = Ok m → pm_store_path m = path.
Proof.
  unfold query_path_info. destruct (pi_run answer) as [[[] t]|e]; [|done..].
  destruct (pi_json answer) as [v|]; [|done]. unfold path_metadata.
  destruct (path_info_object v) as [obj|]; simpl; [|done].
  destruct (match_str "narHash" obj) as [j|]; simpl; [|done].
  destruct (json_str j); [|done]. by intros [= <-].
Qed.

Lemma path_infos_split w outputs :
  let '(ms, fs) := path_infos w outputs in
  (ro_path <$> outputs) ≡ₚ (pm_store_path <$> ms) ++ fs.*1.
Proof.
  induction outputs as [|o outputs IH]; [constructor|]. simpl.
  destruct (path_infos w outputs) as [ms fs].
  destruct (query_path_info _ _) as [m|e] eqn:E; simpl.
  - apply path_info_path in E. rewrite E. by constructor.
  - rewrite IH. by apply Permutation_middle.
Qed.

Lemma upload_loop_split w compression l :
  let '(ok, fs) := upload_loop w compression l in
  (pm_store_path <$> l.*1) ≡ₚ ok ++ fs.*1.
Proof.
  induction l as [|[m slot] l IH]; [constructor|]. simpl.
  destruct (upload_loop w compression l) as [ok fs].
  destruct (upload_path w compression m slot); simpl.
  - by constructor.
  - rewrite IH. by apply Permutation_middle.
Qed.

Lemma request_presigned_length answer ms slots :
  request_presigned answer ms = Ok slots → length slots = length ms.
Proof.
  unfold request_presigned, rbind. destruct (answer _) as [l|]; [|done].
  destruct (Z.eqb_spec (zlen l) (zlen ms)); simpl; [|done]. intros [= <-].
  unfold zlen in *. lia.
Qed.

(** An upload accounts for every output: each path a build has produced is reported
    exactly once, as uploaded or as failed with a reason, whatever [nix], the runner and the
    object store answer. *)
Theorem upload_accounts_for_all w compression outputs stats :
  upload_all w compression outputs = Ok stats →
  (ro_path <$> outputs) ≡ₚ us_successes stats ++ (us_failures stats).*1.
Proof.
  unfold upload_all. pose proof (path_infos_split w outputs) as Hp.
  destruct (path_infos w outputs) as [ms fs].
  destruct (decide (ms = [])) as [->|Hne]; [intros [= <-]; done|].
  destruct ms as [|m0 ms0] eqn:Em; [done|]. rewrite <-Em in *. clear Hne.
  destruct (request_presigned _ ms) as [slots|e] eqn:Er.
  - destruct (uw_http w); [|done]. apply request_presigned_length in Er.
    pose proof (upload_loop_split w compression (zip ms slots)) as Hl.
    destruct (upload_loop w compression (zip ms slots)) as [ok fs'].
    intros [= <-]. simpl. rewrite Hp, fmap_app, fst_zip in * by lia.
    rewrite Hl, <-!app_assoc. apply Permutation_app_head. apply Permutation_app_comm.
  - intros [= <-]. simpl. rewrite Hp, fmap_app, <-list_fmap_compose.
    change (fst ∘ _) with pm_store_path. apply Permutation_app_comm.
Qed.

(** The runner can decode what the agent encodes. *)
Lemma encoder_decoder compression enc :
  encoder_of compression = Some enc → decoder_of compression = Some enc.
Proof. unfold encoder_of, decoder_of. simpl. repeat case_match; intros; by simplify_eq. Qed.

Lemma hex_names d : length d = 32%nat → Forall is_byte d → names ("sha256:" +:+ hex_encode d) d.
Proof.
  intros Hl Hb. destruct (hex_encode_digits d Hb) as [Hlen Hall].
  unfold names, parse_sha256_hash. simpl.
  change ("" +:+ hex_encode d) with (hex_encode d). rewrite Hlen, Hl, Hall. simpl. by rewrite hex_decode_encode.
Qed.

Lemma upload_one_inv slot compression p u :
  upload_one slot compression p = Ok u →
  ∃ enc, encoder_of compression = Some enc ∧
    ub_file_hash u = "sha256:" +:+ hex_encode (sha256 (concat (pt_pieces p enc))) ∧
    ub_file_size u = wrap_u64 (zlen (concat (pt_pieces p enc))).
Proof.
  unfold upload_one. destruct (pt_spawn p); simpl; [|done].
  destruct (encoder_of compression) as [enc|]; [|done].
  destruct (pt_response p) as [[status body]|]; [|done].
  destruct (status_success status); simpl; [|done].
  destruct (pt_dump p) as [[[] t]|]; simpl; [|done..].
  destruct (pt_body_dropped p); simpl; [|done].
  pose proof (hash_file_spec (pt_pieces p enc)) as Hh.
  destruct (hash_file (pt_pieces p enc)) as [h n]. destruct Hh as [Hh ->].
  intros [= <-]. exists enc. simpl. by rewrite Hh.
Qed.

(** C14. What an agent uploads the runner accepts.  If an upload returns, the object store
    gives back what it was sent and decompression undoes compression, and [nix path-info]
    told the agent the hash and the size of the NAR, then the runner's verification of the
    agent's declaration succeeds, and records the size and the digest of that NAR and the
    file hash the agent declared. *)
Theorem agent_upload_verifies http response meta slot compression p u get_url enc nar :
  upload_one slot compression p = Ok u → encoder_of compression = Some enc →
  http get_url = Ok response →
  concat (raw (response enc)) = concat (pt_pieces p enc) →
  nar_of (reads (response enc)) = Some nar →
  names (pm_nar_hash meta) (sha256 nar) → pm_nar_size meta = zlen nar → zlen nar ≤ U64_MAX →
  ∃ v, verify http (verify_request (upload_info meta slot u compression) get_url) = Ok v ∧
    names (un_nar_hash v) (sha256 nar) ∧ un_nar_size v = pm_nar_size meta ∧
    un_file_hash v = ub_file_hash u ∧ un_file_size v = ub_file_size u.
Proof.
  intros (enc' & He' & Hfh & Hfs)%upload_one_inv He Hg Hraw Hnar Hn Hsz Hmax.
  assert (enc' = enc) as -> by congruence. clear He'.
  pose proof (sha256_length (concat (pt_pieces p enc))) as Hl.
  pose proof (sha256_bytes (concat (pt_pieces p enc))) as Hb.
  destruct (canonical_bytes_parse (sha256 nar) (sha256_length _) (sha256_bytes _))
    as (text & Hc & Hp & _).
  exists {| un_nar_hash := text; un_nar_size := pm_nar_size meta; un_file_hash := ub_file_hash u;
       un_file_size := ub_file_size u |}. split; [|done].
  apply verify_whole. exists response, enc, nar. simpl.
  split_and!; [done|by apply encoder_decoder|done|].
  apply compare_upload_ok; [apply sha256_length|apply sha256_bytes|]. simpl. rewrite Hraw.
  split_and!; try done; unfold saturated; try lia.
  - rewrite Hfh. simpl. intros t [= <-]. by apply hex_names.
  - rewrite Hfs. destruct (0 <? _); [|done]. by intros n [= <-].
Qed.

(** An upload changes the outcome of a success only, and only to a failed upload. *)
Lemma upload_stage_cases presign fail w outcome :
  upload_stage presign fail w outcome = outcome ∨
  ∃ r c, outcome = Ok r ∧ presign = Some c ∧ wants_outputs r = true ∧
    upload_stage presign fail w outcome = Ok (after_upload fail (upload_all w c (lr_outputs r)) r).
Proof.
  unfold upload_stage. destruct presign as [c|]; [|by left]. destruct outcome as [r|e]; [|by left].
  destruct (wants_outputs r) eqn:E; [|by left]. right. by exists r, c.
Qed.

(** Whether every output went up. *)
Definition all_uploaded (up : result string UploadStats) : Prop :=
  ∃ stats, up = Ok stats ∧ us_failures stats = [].

Lemma after_upload_outcome fail up r :
  lr_outputs (after_upload fail up r) = lr_outputs r ∧
  (lr_outcome (after_upload fail up r) = lr_outcome r ∧
   lr_exit_code (after_upload fail up r) = lr_exit_code r ∧
   (fail = true → all_uploaded up) ∨
   fail = true ∧ lr_outcome (after_upload fail up r) = ResultSink.UploadFailure).
Proof.
  unfold after_upload. destruct up as [stats|e].
  - destruct (us_failures stats) eqn:E; simpl; [split; [done|]; left; split_and!; try done; by exists stats|].
    destruct fail; simpl; [auto|]. split; [done|]. by left.
  - destruct fail; simpl; [auto|]. split; [done|]. by left.
Qed.

Lemma learns_outcome rep :
  match runner_learns rep with
  | DSucceeded _ => rp_outcome rep = ResultSink.Success
  | DTimedOut => rp_outcome rep = ResultSink.TimedOut
  | DAborted => rp_outcome rep = ResultSink.Aborted
  | DOomKilled _ => rp_outcome rep = ResultSink.OomKilled
  | DFailed _ => rp_outcome rep ∉ [ResultSink.Success; ResultSink.TimedOut; ResultSink.Aborted;
                                   ResultSink.OomKilled]
  | DDisconnected => False
  end.
Proof.
  unfold runner_learns. destruct (rp_outcome rep); simpl; try done;
    intros Hin; by repeat (apply elem_of_cons in Hin as [Hin|Hin]; [done|]);
    apply elem_of_nil in Hin.
Qed.

(** The outcome of the report, when it is not a failure, is the outcome of the build. *)
Lemma task_report_outcome presign fail w outcome o :
  o ≠ ResultSink.UploadFailure → o ≠ ResultSink.PreparingFailure →
  rp_outcome (task_report presign fail w outcome) = o →
  ∃ r s, outcome = Ok (r, s) ∧ lr_outcome r = o ∧
    rp_exit_code (task_report presign fail w outcome) = lr_exit_code r ∧
    rp_outputs (task_report presign fail w outcome) = lr_outputs r ∧
    (fail = true → ∀ c, presign = Some c → wants_outputs r = true →
       all_uploaded (upload_all w c (lr_outputs r))).
Proof.
  intros Hu Hp. unfold task_report. destruct outcome as [[r s]|e]; simpl.
  2: { unfold upload_stage. destruct presign; simpl; congruence. }
  unfold upload_stage. destruct presign as [c|]; simpl; [|intros <-; by exists r, s].
  destruct (wants_outputs r) eqn:Ew; simpl; [|intros <-; exists r, s; split_and!; congruence].
  destruct (after_upload_outcome fail (upload_all w c (lr_outputs r)) r) as [Ho Hc].
  intros Ho'. destruct Hc as [(Hc & He & Hall)|(_ & Hc)]; [|congruence].
  exists r, s. split_and!; try congruence. intros Hf c' [= <-] _. by apply Hall.
Qed.

(** C10. What the runner learns about a build is what happened on the agent.  A success is
    learnt only for a child that exited with 0, with that exit code and the outputs found -
    and, if the runner asked that failed uploads fail the build, with every output uploaded;
    an out-of-memory kill only for a child that died of SIGKILL without the agent's doing;
    an abort only after a cancellation; a timeout only past the deadline.  The report of a
    task is never taken for a disconnected agent. *)
Theorem runner_learns_truth jfs valid rpc cmd opts l prep outcome presign fail w :
  run jfs valid rpc cmd opts l = (prep, Some outcome) →
  let rep := task_report presign fail w outcome in
  match runner_learns rep with
  | DSucceeded _ => ∃ r s, outcome = Ok (r, s) ∧
      known_status (l_wait l) s = Some (Exited 0) ∧ rp_exit_code rep = 0 ∧
      rp_outputs rep = lr_outputs r ∧
      (fail = true → ∀ c, presign = Some c → wants_outputs r = true →
         all_uploaded (upload_all w c (lr_outputs r)))
  | DOomKilled _ => ∃ r s, outcome = Ok (r, s) ∧
      known_status (l_wait l) s = Some (Signalled 9) ∧ rc_killed s = false
  | DAborted => cancelled_in (l_turns l)
  | DTimedOut => overdue_in (overall_deadline_of opts (l_start l)) (l_turns l) ∨
      l_wait l = WaitTimeout ∧ is_Some (overall_deadline_of opts (l_start l))
  | DFailed _ => True
  | DDisconnected => False
  end.
Proof.
  intros Hrun rep. assert (Hr : ∀ r s, outcome = Ok (r, s) →
    outcome_true opts l s (lr_outcome r) ∧
    lr_exit_code r = default (-1) (known_status (l_wait l) s ≫= exit_code)).
  { intros r s ->. unfold run in Hrun. destruct cmd; injection Hrun as _ Hrun; [|done].
    apply outcome_core in Hrun as (? & _ & ? & _). done. }
  pose proof (learns_outcome rep) as Hl.
  destruct (runner_learns rep) as [m|m| | |m|]; try done;
    (apply task_report_outcome in Hl as (r & s & -> & Ho & He & Hout & Hall); [|done..]);
    destruct (Hr r s eq_refl) as [Ht Hx]; rewrite Ho in Ht; simpl in Ht.
  all: try done; try (destruct Ht as [Hk Hs]; exists r, s; done).
  destruct Ht as [Hk Hs]. exists r, s. split_and!; try done. unfold rep. by rewrite He, Hx, Hk.
Qed.
End uploads.

(** ** Names of ephemeral agents *)

Lemma floor_boundary_le l n : (floor_boundary l n ≤ n)%nat.
Proof.
  induction n as [|n IH]; [done|]. cbn [floor_boundary].
  destruct (l !! S n) as [c|]; [|done]. destruct (is_continuation c); [|done]. lia.
Qed.

(** The cut does not fall inside a character. *)
Lemma floor_boundary_start l n c :
  l !! floor_boundary l n = Some c → floor_boundary l n ≠ 0%nat → is_continuation c = false.
Proof.
  induction n as [|n IH]; [done|]. cbn [floor_boundary].
  destruct (l !! S n) as [c'|] eqn:E.
  - destruct (is_continuation c') eqn:Ec; [done|]. intros Hc _. congruence.
  - congruence.
Qed.

Lemma str_len_of l : str_len (str_of l) = zlen l.
Proof.
  unfold zlen. induction l as [|c l IH]; [done|]. cbn [str_of str_len length]. rewrite IH. lia.
Qed.

(** The name of an ephemeral agent ends in its suffix, keeps the beginning of the configured
    name and stays within what the runner admits, unless the suffix alone is longer. *)
Lemma unique_name_bounded base suffix :
  str_len (unique_ephemeral_name base suffix) ≤ Z.max limits.MAX_AGENT_NAME_LEN (str_len suffix) ∧
  ∃ n, unique_ephemeral_name base suffix = str_of (take n (str_chars base)) +:+ suffix ∧
    (str_len base + str_len suffix ≤ limits.MAX_AGENT_NAME_LEN →
     unique_ephemeral_name base suffix = base +:+ suffix).
Proof.
  unfold unique_ephemeral_name, u32_saturating_sub, NAME_MAX, limits.MAX_AGENT_NAME_LEN.
  pose proof (str_len_nonneg suffix). pose proof (str_len_nonneg base).
  destruct (Z.ltb_spec (Z.max (128 - str_len suffix) 0) (str_len base)); rewrite str_len_app.
  - pose proof (floor_boundary_le (str_chars base) (Z.to_nat (Z.max (128 - str_len suffix) 0))).
    split; [|eexists; split; [done|lia]]. rewrite str_len_of. unfold zlen.
    rewrite length_take. lia.
  - split; [lia|]. exists (length (str_chars base)). split; [|done].
    by rewrite firstn_all, str_of_chars.
Qed.

(** A run identifier of GitHub makes a name that is short enough. *)
Lemma unique_name_admitted base run attempt short :
  str_len run ≤ 32 → str_len attempt ≤ 8 → str_len short = 8 →
  str_len (unique_ephemeral_name base (unique_suffix (Some run) (Some attempt) short)) ≤
  limits.MAX_AGENT_NAME_LEN.
Proof.
  intros Hr Ha Hs.
  destruct (unique_name_bounded base (unique_suffix (Some run) (Some attempt) short)) as [H _].
  unfold unique_suffix in *. rewrite !str_len_app in H.
  unfold limits.MAX_AGENT_NAME_LEN in *. cbn [str_len] in H. lia.
Qed.

(** ** Witnesses *)

Definition io_ok : OutputSink.Io := {| OutputSink.io_spawn := None; OutputSink.io_write := None |}.

Lemma export_complete_witness :
  ∃ s, export_outputs_to_sink "b" (Ok ["/nix/store/o"]) [(Ok [1; 2], io_ok); (Ok [3], io_ok)]
    (Ok (true, "exit status: 0")) (Ok (true, "exit status: 0")) OutputSink.new = (Ok (), s) ∧
  OutputSink.out_closed s = true ∧ OutputSink.fed s = [1; 2; 3].
Proof.
  eexists. split; [vm_compute; reflexivity|].
  edestruct (export_complete "b" "/nix/store/o" [] [(Ok [1; 2], io_ok); (Ok [3], io_ok)]
    (Ok (true, "exit status: 0")) (Ok (true, "exit status: 0")) (Ok ())) as [Hc _];
    [vm_compute; reflexivity|].
  split; [exact Hc|reflexivity].
Defined.

(** One output whose metadata is unknown and one the object store takes. *)
Definition example_put : Put :=
  {| pt_spawn := Ok (); pt_pieces := λ _, [[9; 9]; []; [9]]; pt_response := Ok (200, "");
     pt_dump := Ok (true, "exit status: 0"); pt_body_dropped := true |}.

Definition example_slot : PresignSlot :=
  {| ps_nar_url := "https://bucket/nar/x"; ps_nar_path := "nar/x"; ps_error := "" |}.

Definition example_upload_world : UploadWorld :=
  {| uw_path_info := λ p,
       {| pi_run := Ok (true, ""); pi_json :=
            if bool_decide (p = "/nix/store/o")
            then Some (JObj [(p, JObj [("narHash", JStr (vr_nar_hash example_request));
                                       ("narSize", JInt 3)])])
            else None |};
     uw_presign := λ reqs, Ok ((λ _, example_slot) <$> reqs);
     uw_http := Ok (); uw_put := λ _ _, example_put; uw_notify := λ _, Ok ();
     uw_elapsed_ms := 1 |}.

Definition example_outputs : list ResolvedOutput :=
  [{| ro_name := "doc"; ro_path := "/nix/store/d" |}; {| ro_name := "out"; ro_path := "/nix/store/o" |}].

Lemma upload_accounts_for_all_witness :
  ∃ stats, @upload_all codecs_ref hasher_ref example_upload_world "zstd" example_outputs = Ok stats ∧
    us_successes stats = ["/nix/store/o"] ∧
    ["/nix/store/d"; "/nix/store/o"] ≡ₚ us_successes stats ++ (us_failures stats).*1.
Proof.
  eexists. split; [vm_compute; reflexivity|]. split; [reflexivity|].
  apply (@upload_accounts_for_all codecs_ref hasher_ref example_upload_world "zstd" example_outputs).
  vm_compute; reflexivity.
Defined.

Definition example_meta : PathMetadata :=
  {| pm_store_path := "/nix/store/o"; pm_nar_hash := vr_nar_hash example_request; pm_nar_size := 3;
     pm_references := []; pm_deriver := None; pm_ca := None |}.

Lemma agent_upload_verifies_witness :
  ∃ u, @upload_one codecs_ref hasher_ref example_slot "zstd" example_put = Ok u ∧
  ∃ v, @verify codecs_ref hasher_ref example_http
         (verify_request (upload_info example_meta example_slot u "zstd") "https://bucket/nar/x") = Ok v ∧
    un_nar_size v = 3 ∧ un_file_size v = ub_file_size u.
Proof.
  eexists. split; [vm_compute; reflexivity|].
  edestruct (@agent_upload_verifies codecs_ref hasher_ref example_http
    (λ _, {| raw := [[9; 9]; []; [9]]; reads := [Ok [1]; Ok [2; 3]; Ok []] |})
    example_meta example_slot "zstd" example_put) as (v & Hv & _ & Hn & _ & Hs);
    [vm_compute; reflexivity..|vm_compute; discriminate|].
  exists v. split; [exact Hv|]. split; [exact Hn|exact Hs].
Defined.

Definition good_life : Life :=
  example_life [quiet_turn (SelExited (Ok (Exited 0))) []; quiet_turn SelLine []] WaitTimeout.

Lemma runner_learns_truth_witness :
  ∃ outcome, run (λ _, None) false (Err "gone") (Ok ()) example_opts good_life =
    ([PFetchRpc], Some outcome) ∧
  runner_learns (@task_report codecs_ref hasher_ref None true example_upload_world outcome) =
    DSucceeded None ∧
  ∃ r s, outcome = Ok (r, s) ∧ known_status WaitTimeout s = Some (Exited 0).
Proof.
  eexists. split; [vm_compute; reflexivity|]. split; [reflexivity|].
  pose proof (@runner_learns_truth codecs_ref hasher_ref (λ _, None) false (Err "gone") (Ok ())
    example_opts good_life [PFetchRpc] _ None true example_upload_world eq_refl) as Ht.
  hnf in Ht. destruct Ht as (r & s & E & Hk & _). exists r, s. split; [exact E|exact Hk].
Defined.
