(* ===== verification/CacheRoutes.v ===== *)
(** * The public binary cache

    [crates/server/src/routes/cache.rs] with [crates/common/src/repo/cache.rs] and
    [queries/cache.sql]: which narinfos and NARs the server gives to anybody who asks, for
    the whole installation ([Global]) or for a project.  The local Nix store, its database
    and the library that formats its entries, the presigner and Ed25519 are parameters; the
    rows of [build_products], which no modelled operation changes, are one too. *)

From S2P Require Import Prelude Types Float32 Base32 Codecs StorePath S3 Pool Db Frames Builds Builders Dispatch Oidc UploadVerify Rpc CacheGc NixJobs.

(** ** Rows *)

Inductive CacheScope := Global | Project_ (id : Uuid).

Definition scope_project (s : CacheScope) : option Uuid :=
  match s with Global => None | Project_ id => Some id end.

Record CacheSettings := {
  cs_scope : CacheScope;
  cs_enabled : bool;
  cs_name : string;
}.

(** [ORDER BY updated_at DESC LIMIT 1]. *)
Definition latest (l : list (string * NarInfo)) : option (string * NarInfo) :=
  head (sort_by (λ a b, Z.compare (nr_updated_at b.2) (nr_updated_at a.2)) l).

Definition find_narinfo (p : string → NarInfo → bool) (w : World) : option (string * NarInfo) :=
  latest (List.filter (λ kr, p kr.1 kr.2) (map_to_list (w_narinfos w))).

Module narinfo_lookup.
(** The [LIKE] pattern ends in its only wildcard.  The text of the error leaves out the
    project: every caller drops it. *)
Definition get_by_hash_part (hash : string) (pid : option Uuid) : M (string * NarInfo) :=
  or_not_found ("narinfo for hash " +:+ hash)
    (read (λ w, find_narinfo (λ path r,
       starts_with ("/nix/store/" +:+ hash +:+ "-") path && in_scope pid w (path, r)) w)).

Definition get_by_url (url : string) (pid : option Uuid) : M (string * NarInfo) :=
  or_not_found ("narinfo for URL " +:+ url)
    (read (λ w, find_narinfo (λ path r,
       bool_decide (ni_url (nr_info r) = url) && in_scope pid w (path, r)) w)).
End narinfo_lookup.

(** [btrim]: spaces only. *)
Definition btrim_empty (s : string) : bool := str_all (char_is " "%char) s.

(** The joins from a build to its project, with the clause on the project. *)
Definition build_in (pid : option Uuid) (b : Build) (w : World) : bool :=
  match Sql.jobset_of w b with
  | None => false
  | Some j => match pid with None => true | Some p => j_project_id j =? p end
  end.

(** A row of [build_products]: its build and its path. *)
Definition Products : Type := list (Z * string).

Module cache.
Section statements.
Variable products : Products.

(** Some build of the scope with [p], or a product at [path] of one with [q]. *)
Definition some_build (pid : option Uuid) (p : Build → bool) (w : World) : bool :=
  existsb (λ b, p b && build_in pid b w) (rows (w_builds w)).

Definition some_product (pid : option Uuid) (path : string) (q : Build → bool) (w : World) : bool :=
  existsb (λ bp, bool_decide (bp.2 = path) &&
                 match w_builds w !! bp.1 with
                 | Some b => q b && build_in pid b w
                 | None => false
                 end) products.

Definition has_circus_build_product (path : string) (pid : option Uuid) : M bool :=
  read (λ w, some_product pid path (λ _, true) w ||
             some_build pid (λ b, bool_decide (b_build_output_path b = Some path)) w).

Definition has_circus_signed_build_product (path : string) (pid : option Uuid) : M bool :=
  read (λ w, some_product pid path b_signed w ||
             some_build pid (λ b, bool_decide (b_build_output_path b = Some path) && b_signed b) w).

Definition has_circus_derivation_path (path : string) (pid : option Uuid) : M bool :=
  read (λ w, some_build pid (λ b, bool_decide (b_drv_path b = path)) w).

Definition has_circus_derivation_path_any (paths : list string) (pid : option Uuid) : M bool :=
  read (λ w, some_build pid (λ b, str_in (b_drv_path b) paths) w).

(** The narinfo of a path, when its signature is not blank. *)
Definition signed_persisted_narinfo (path : string) (pid : option Uuid) : M (option NarInfo) :=
  read (λ w, let* r := w_narinfos w !! path in
             let* s := ni_sig (nr_info r) in
             if negb (btrim_empty s) && in_scope pid w (path, r) then Some r else None).
End statements.
End cache.

(** ** The local store *)

(** A row of [ValidPaths] with the paths it refers to. *)
Record ValidPath := {
  vp_path : string;
  vp_references : list string;
}.

(** What the server uses of a parsed row. *)
Record ValidPathInfo := {
  vi_path : string;
  vi_nar_hash : string;
  vi_nar_size : Z;
  vi_signatures : list string;
  vi_ca : option string;
}.

(** The keys and parameters of the server: the public key and Ed25519, the settings, the
    store's database when it can be opened, how its rows are parsed and formatted, the
    presigner and the file system. *)
Record CacheServer := {
  cv_key : option Z;
  cv_ed25519 : Z → list Z → list Z → bool;
  cv_enabled : bool;
  cv_store_dir : string;
  cv_db : option (list ValidPath);
  cv_db_fails : bool;
  cv_parse : ValidPath → option ValidPathInfo;
  cv_format : ValidPathInfo → string → string;
  cv_presign : option (string → string);
  cv_header_ok : string → bool;
  cv_exists : string → bool;
  cv_products : Products;
  cv_uuid_text : Uuid → string;
}.

Section routes.
Context `{Codecs}.
Variable sv : CacheServer.

Definition cache_key (s : CacheScope) (hash : string) : string :=
  match s with
  | Global => "global:" +:+ hash
  | Project_ id => "project:" +:+ cv_uuid_text sv id +:+ ":" +:+ hash
  end.

Definition global_settings : CacheSettings :=
  {| cs_scope := Global; cs_enabled := cv_enabled sv; cs_name := "global" |}.

Definition project_cache_settings (name : string) : M CacheSettings :=
  let! p := or_not_found ("Project '" +:+ name +:+ "' not found")
              (read (λ w, List.find (λ p, bool_decide (p_name p = name)) (rows (w_projects w)))) in
  mret {| cs_scope := Project_ (p_id p); cs_enabled := p_cache_enabled p; cs_name := name |}.

(** ** Signatures ([binary-cache/src/signature]) *)

Record Signature := { sg_name : string; sg_bytes : list Z }.

Definition parse_raw_signature (s : string) : option (list Z) :=
  match b64_decode s with
  | Ok bytes => if zlen bytes =? 64 then Some bytes else None
  | Err _ => None
  end.

Definition parse_signature (s : string) : option Signature :=
  let* (name, text) := split_once ":"%char s in
  let* bytes := parse_raw_signature text in
  Some {| sg_name := name; sg_bytes := bytes |}.

(** [PublicKey::verify] does not look at the name. *)
Definition verify_signature (key : Z) (data : string) (s : Signature) : bool :=
  cv_ed25519 sv key (as_bytes data) (sg_bytes s).

Definition narinfo_signature_verifies (path : string) (d : NarInfoData) (key : Z) : bool :=
  match (let* s := ni_sig d in parse_signature s) with
  | None => false
  | Some s =>
      verify_signature key (fingerprint path (ni_nar_hash d) (ni_nar_size d) (ni_references d)) s
  end.

Definition narinfo_has_signature (d : NarInfoData) : bool :=
  match ni_sig d with Some s => negb (is_empty (trim s)) | None => false end.

Definition persisted_row_is_trusted (path : string) (d : NarInfoData) : bool :=
  match cv_key sv with
  | None => narinfo_has_signature d
  | Some key => narinfo_signature_verifies path d key
  end.

(** ** Gates *)

(** [Path::file_stem] is not empty when there is an extension. *)
Definition narinfo_row_uses_local_nar_route (d : NarInfoData) : bool :=
  if negb (bool_decide (ni_compression d = "none")) then false
  else match strip_prefix "nar/" (ni_url d) with
       | None => false
       | Some path =>
           match split_once "?"%char path with
           | None => false
           | Some (object, query) =>
               match extension object with
               | Some ext => bool_decide (to_ascii_lowercase ext = "nar")
               | None => false
               end &&
               existsb (λ part, match strip_prefix "hash=" part with
                                | Some h => NixHash.is_valid h
                                | None => false
                                end) (split_by (char_is "&"%char) query)
           end
       end.

(** The first valid path from the prefix on, in the order of the database, if it has the
    prefix and can be parsed.  The digests of 20 bytes are the texts [NixHash.is_valid]
    accepts ([StorePathHash::decode_digest]), and a digest is printed as it was read. *)
Definition query_binary_cache_path_info (hash : string) (db : list ValidPath) :
    result CiError (option ValidPathInfo) :=
  if negb (NixHash.is_valid hash) then Ok None
  else if cv_db_fails sv then Err (Internal "local Nix store DB query failed")
  else
    let prefix := cv_store_dir sv +:+ "/" +:+ hash in
    Ok (let* row := head (List.filter (λ v, bool_decide (String.compare (vp_path v) prefix ≠ Lt))
                            (sort_by (λ a b, String.compare (vp_path a) (vp_path b)) db)) in
        if starts_with prefix (vp_path row) then cv_parse sv row else None).

(** SQLite's [LIKE '%.drv'] ignores case. *)
Definition like_drv (path : string) : bool :=
  is_some (strip_suffix ".drv" (to_ascii_lowercase path)).

Definition has_circus_derivation_direct_reference (db : list ValidPath) (path : string)
    (pid : option Uuid) : M bool :=
  if cv_db_fails sv then mfail (Internal "local Nix store DB query failed")
  else
    match vp_path <$> List.filter (λ v, str_in path (vp_references v) && like_drv (vp_path v)) db with
    | [] => mret false
    | referrers => cache.has_circus_derivation_path_any referrers pid
    end.

Definition has_signed_persisted_narinfo (path : string) (pid : option Uuid) : M bool :=
  let! row := cache.signed_persisted_narinfo path pid in
  mret match cv_key sv, row with
       | None, _ => is_some row
       | Some key, Some r => narinfo_signature_verifies path (nr_info r) key
       | Some _, None => false
       end.

Definition is_drv (path : string) : bool :=
  match extension path with
  | Some ext => bool_decide (to_ascii_lowercase ext = "drv")
  | None => false
  end.

Definition is_servable_binary_cache_path (db : list ValidPath) (info : ValidPathInfo)
    (scope : CacheScope) : M bool :=
  let path := vi_path info in
  let pid := scope_project scope in
  let! signed := has_signed_persisted_narinfo path pid in
  if signed then mret true
  else
    let! drv := if is_drv path then cache.has_circus_derivation_path path pid else mret false in
    if drv then mret true
    else if is_some (vi_ca info) then
      let! product := cache.has_circus_build_product (cv_products sv) path pid in
      if product then mret true else has_circus_derivation_direct_reference db path pid
    else match vi_signatures info with
         | [] => mret false
         | _ => cache.has_circus_signed_build_product (cv_products sv) path pid
         end.

Definition local_narinfo_row_is_servable (hash : string) (scope : CacheScope) : M bool :=
  match cv_db sv with
  | None => mret false
  | Some db =>
      let! info := lift (query_binary_cache_path_info hash db) in
      match info with
      | None => mret false
      | Some info => is_servable_binary_cache_path db info scope
      end
  end.

(** ** What is served *)

Definition store_path_name (path : string) : string :=
  match List.find (λ part, negb (is_empty part)) (reverse (split_by (char_is "/"%char) path)) with
  | Some part => part
  | None => path
  end.

Definition field (key value : string) : string := key +:+ ": " +:+ value +:+ String NL "".

Definition opt_field (key : string) (value : option string) : string :=
  match value with Some v => field key v | None => "" end.

Definition render_narinfo_row (path : string) (d : NarInfoData) : string :=
  field "StorePath" path +:+ field "URL" (ni_url d) +:+
  field "Compression" (ni_compression d) +:+ opt_field "FileHash" (ni_file_hash d) +:+
  opt_field "FileSize" (pretty <$> ni_file_size d) +:+ field "NarHash" (ni_nar_hash d) +:+
  field "NarSize" (pretty (ni_nar_size d)) +:+
  field "References" (str_join " " (store_path_name <$> ni_references d)) +:+
  opt_field "Deriver" (store_path_name <$> ni_deriver d) +:+ opt_field "CA" (ni_ca d) +:+
  opt_field "Sig" (ni_sig d).

(** The responses; the last two stamp the path as fetched. *)
Inductive Response :=
  | NotFound404
  | Text (body : string)
  | NarinfoText (body : string)
  | RedirectNar (location path : string)
  | StreamNar (path : string) (nar_size : Z).

(** The in-memory cache of narinfos. *)
Definition Narinfos : Type := gmap string string.

Definition narinfo_for_settings (st : CacheSettings) (name : string) (c : Narinfos) :
    M (Response * Narinfos) :=
  if negb (cs_enabled st) then mret (NotFound404, c)
  else
    let hash := default name (strip_suffix ".narinfo" name) in
    if negb (NixHash.is_valid hash) then mret (NotFound404, c)
    else
      let key := cache_key (cs_scope st) hash in
      match c !! key with
      | Some cached => mret (NarinfoText cached, c)
      | None =>
          let! row := mtry (narinfo_lookup.get_by_hash_part hash (scope_project (cs_scope st))) in
          let from_store :=
            match cv_db sv with
            | None => mret (NotFound404, c)
            | Some db =>
                let! info := lift (query_binary_cache_path_info hash db) in
                match info with
                | None => mret (NotFound404, c)
                | Some info =>
                    let! ok := is_servable_binary_cache_path db info (cs_scope st) in
                    if ok then
                      let text := cv_format sv info hash in
                      mret (NarinfoText text, <[key := text]> c)
                    else mret (NotFound404, c)
                end
            end in
          match row with
          | Ok (path, r) =>
              if persisted_row_is_trusted path (nr_info r) then
                let local := narinfo_row_uses_local_nar_route (nr_info r) in
                let! servable :=
                  if local then local_narinfo_row_is_servable hash (cs_scope st) else mret true in
                if servable then
                  let body := render_narinfo_row path (nr_info r) in
                  mret (NarinfoText body, if local then c else <[key := body]> c)
                else mret (NotFound404, c)
              else from_store
          | Err _ => from_store
          end
      end.

Definition MAX_NAR_OBJECT_NAME_LEN : Z := 512.

Definition is_valid_nar_object_name (name : string) : bool :=
  negb (is_empty name) && (str_len name <=? MAX_NAR_OBJECT_NAME_LEN) && contains ".nar" name &&
  str_all (λ c, in_range "A" "Z" c || in_range "a" "z" c || in_range "0" "9" c ||
                char_is "-"%char c || char_is "_"%char c || char_is "."%char c) name.

Definition redirect_uploaded_nar (object : string) (scope : CacheScope) : M (option Response) :=
  if negb (is_valid_nar_object_name object) then mret None
  else
    let! row := mtry (narinfo_lookup.get_by_url ("nar/" +:+ object) (scope_project scope)) in
    match row with
    | Ok (path, r) =>
        if negb (narinfo_has_signature (nr_info r)) then mret (Some NotFound404)
        else match cv_presign sv with
             | None => mret (Some NotFound404)
             | Some presign =>
                 let location := presign (ni_url (nr_info r)) in
                 mret (Some (if cv_header_ok sv location then RedirectNar location path
                             else NotFound404))
             end
    | Err (NotFound _) => mret None
    | Err e => mfail e
    end.

Definition store_path_hash_part (path : string) : option string :=
  let* (hash, _) := split_once "-"%char (store_path_name path) in Some hash.

Definition nar_hash_part (nar_hash : string) : option string := strip_prefix "sha256:" nar_hash.

Definition persisted_local_nar_row_matches (path : string) (d : NarInfoData)
    (output_hash nar_hash : string) : bool :=
  narinfo_has_signature d && bool_decide (ni_compression d = "none") &&
  bool_decide (store_path_hash_part path = Some output_hash) &&
  bool_decide (nar_hash_part (ni_nar_hash d) = Some nar_hash).

Definition serve_persisted_local_nar (object output_hash nar_hash : string) (scope : CacheScope) :
    M (option Response) :=
  if negb (is_valid_nar_object_name object) then mret None
  else
    let! row := mtry (narinfo_lookup.get_by_url
                        ("nar/" +:+ object +:+ "?hash=" +:+ output_hash) (scope_project scope)) in
    match row with
    | Ok (path, r) =>
        mret (Some (if persisted_local_nar_row_matches path (nr_info r) output_hash nar_hash &&
                       cv_exists sv path
                    then StreamNar path (Z.max (ni_nar_size (nr_info r)) 0)
                    else NotFound404))
    | Err (NotFound _) => mret None
    | Err e => mfail e
    end.

(** The NAR of a path of the local store. *)
Definition serve_store_nar (output_hash : string) (expected : option string) (scope : CacheScope) :
    M Response :=
  match cv_db sv with
  | None => mret NotFound404
  | Some db =>
      let! info := lift (query_binary_cache_path_info output_hash db) in
      match info with
      | None => mret NotFound404
      | Some info =>
          let! ok := is_servable_binary_cache_path db info scope in
          if negb ok then mret NotFound404
          else if match expected with
                  | Some stripped => negb (bool_decide (stripped = vi_nar_hash info))
                  | None => false
                  end then mret NotFound404
          else mret (StreamNar (vi_path info) (vi_nar_size info))
      end
  end.

Definition serve_nar_for_settings (st : CacheSettings) (name : string) (query_hash : option string) :
    M Response :=
  if negb (cs_enabled st) then mret NotFound404
  else
    let! redirect := redirect_uploaded_nar name (cs_scope st) in
    match redirect with
    | Some r => mret r
    | None =>
        match strip_suffix ".nar" name with
        | None => mret NotFound404
        | Some stripped =>
            let output_hash := default stripped query_hash in
            if negb (NixHash.is_valid output_hash) then mret NotFound404
            else
              let! local :=
                match query_hash with
                | Some h => serve_persisted_local_nar name h stripped (cs_scope st)
                | None => mret None
                end in
              match local with
              | Some r => mret r
              | None =>
                  serve_store_nar output_hash
                    (match query_hash with Some _ => Some stripped | None => None end)
                    (cs_scope st)
              end
        end
    end.

Definition cache_info_for_settings (st : CacheSettings) : Response :=
  if negb (cs_enabled st) then NotFound404
  else Text ("StoreDir: " +:+ cv_store_dir sv +:+ String NL "WantMassQuery: 1" +:+
             String NL "Priority: 30" +:+ String NL "").
End routes.
