(* ===== verification/CacheServe.v ===== *)
(** * What the public cache gives out

    Everything the server hands to anybody who asks has its grounds in the scope that was
    asked ([serves_only_ours]), an upload the runner has accepted is available at once
    ([upload_is_served]), and what a narinfo looks like to a client ([narinfo_lines_exact],
    [narinfo_line_injected]). *)

From S2P Require Import Prelude Types Float32 Base32 Codecs StorePath S3 Pool Db Frames Builds Lifecycle Builders Dispatch Oidc UploadVerify Rpc CacheGc NixJobs BuildGraph CacheRoutes.

(** ** Texts *)

Lemma rev_app_chars s t : String.rev_app s t = str_of (reverse (str_chars s)) +:+ t.
Proof.
  revert t. induction s as [|c s IH]; intros t; [done|]. simpl. rewrite IH, reverse_cons.
  assert (Ho : ∀ l, str_of (l ++ [c]) = str_of l +:+ String c "").
  { intros l. by induction l as [|x l IHl]; [|simpl; rewrite IHl]. }
  by rewrite Ho, <-str_app_assoc.
Qed.

Lemma rev_chars s : str_chars (String.rev s) = reverse (str_chars s).
Proof. unfold String.rev. by rewrite rev_app_chars, str_app_nil, str_chars_of. Qed.

Lemma chars_inj s t : str_chars s = str_chars t → s = t.
Proof. intros Hst. by rewrite <-(str_of_chars s), Hst, str_of_chars. Qed.

Lemma strip_suffix_some p s t : strip_suffix p s = Some t → s = t +:+ p.
Proof.
  unfold strip_suffix. destruct (strip_prefix _ _) as [r|] eqn:Hr; [|done]. intros [= <-].
  apply strip_prefix_some, (f_equal str_chars), (f_equal reverse) in Hr.
  rewrite str_chars_app, !rev_chars, reverse_app, !reverse_involutive in Hr.
  apply chars_inj. by rewrite str_chars_app, rev_chars.
Qed.

(** ** Grounds *)

Section grounds.
Context `{Codecs}.
Variable sv : CacheServer.

Definition of_scope (scope : CacheScope) (project : Uuid) : Prop :=
  match scope with Global => True | Project_ p => project = p end.

(** A build whose project is in the scope. *)
Definition built (w : World) (scope : CacheScope) (b : Build) : Prop :=
  ∃ id j, w_builds w !! id = Some b ∧ Sql.jobset_of w b = Some j ∧ of_scope scope (j_project_id j).

(** [path] is an output or a product of such a build. *)
Definition produced (w : World) (scope : CacheScope) (path : string) (b : Build) : Prop :=
  built w scope b ∧
  (b_build_output_path b = Some path ∨
   ∃ id, (id, path) ∈ cv_products sv ∧ w_builds w !! id = Some b).

(** A narinfo of the scope with a signature, which is the server's if it knows its key. *)
Definition signed_row (w : World) (scope : CacheScope) (path : string) (r : NarInfo) : Prop :=
  w_narinfos w !! path = Some r ∧ in_scope (scope_project scope) w (path, r) = true ∧
  is_Some (ni_sig (nr_info r)) ∧
  ∀ key, cv_key sv = Some key → narinfo_signature_verifies sv path (nr_info r) key = true.

(** Why a path of the local store may be given out. *)
Inductive ours (w : World) (db : list ValidPath) (scope : CacheScope) (info : ValidPathInfo) : Prop :=
  | ours_narinfo r : signed_row w scope (vi_path info) r → ours w db scope info
  | ours_derivation b :
      built w scope b → b_drv_path b = vi_path info → ours w db scope info
  | ours_product b :
      is_Some (vi_ca info) → produced w scope (vi_path info) b → ours w db scope info
  | ours_input b v :
      is_Some (vi_ca info) → built w scope b → v ∈ db → vp_path v = b_drv_path b →
      vi_path info ∈ vp_references v → ours w db scope info
  | ours_signed b :
      vi_ca info = None → vi_signatures info ≠ [] → produced w scope (vi_path info) b →
      b_signed b = true → ours w db scope info.

(** The entry of the store a hash stands for, with its grounds. *)
Definition store_entry (w : World) (scope : CacheScope) (hash : string) (info : ValidPathInfo) : Prop :=
  ∃ db, cv_db sv = Some db ∧ query_binary_cache_path_info sv hash db = Ok (Some info) ∧
        ours w db scope info.

(** Why a text may be given out as the narinfo of a hash. *)
Inductive narinfo_ours (w : World) (scope : CacheScope) (hash text : string) : Prop :=
  | narinfo_of_row path r :
      signed_row w scope path r → starts_with ("/nix/store/" +:+ hash +:+ "-") path = true →
      (narinfo_row_uses_local_nar_route (nr_info r) = true →
       ∃ info, store_entry w scope hash info) →
      text = render_narinfo_row path (nr_info r) → narinfo_ours w scope hash text
  | narinfo_of_store info :
      store_entry w scope hash info → text = cv_format sv info hash →
      narinfo_ours w scope hash text.

(** Why a NAR may be given out under a name. *)
Definition nar_ours (w : World) (scope : CacheScope) (name : string) (rsp : Response) : Prop :=
  match rsp with
  | NotFound404 => True
  | RedirectNar location path =>
      ∃ r, w_narinfos w !! path = Some r ∧ in_scope (scope_project scope) w (path, r) = true ∧
           narinfo_has_signature (nr_info r) = true ∧ ni_url (nr_info r) = "nar/" +:+ name
  | StreamNar path size =>
      (∃ r stripped, w_narinfos w !! path = Some r ∧
                     in_scope (scope_project scope) w (path, r) = true ∧
                     narinfo_has_signature (nr_info r) = true ∧ name = stripped +:+ ".nar" ∧
                     ni_nar_hash (nr_info r) = "sha256:" +:+ stripped) ∨
      (∃ hash info, store_entry w scope hash info ∧ vi_path info = path ∧ vi_nar_size info = size)
  | Text _ | NarinfoText _ => False
  end.

(** ** The gates *)

Lemma built_in_spec w scope id b :
  w_builds w !! id = Some b → build_in (scope_project scope) b w = true → built w scope b.
Proof.
  unfold build_in. intros Hb. destruct (Sql.jobset_of w b) as [j|] eqn:Hj; [|done].
  intros Hs. exists id, j. split_and!; [done..|]. destruct scope; [done|]. simpl in *. lia.
Qed.

Lemma some_build_spec w scope p :
  cache.some_build (scope_project scope) p w = true → ∃ b, built w scope b ∧ p b = true.
Proof.
  unfold cache.some_build. rewrite existsb_exists. intros (b & Hb & [Hp Hs]%andb_true_iff).
  apply list_elem_of_In, elem_of_rows in Hb as [id Hb].
  exists b. split; [|done]. by eapply built_in_spec.
Qed.

Lemma some_product_spec w scope path q :
  cache.some_product (cv_products sv) (scope_project scope) path q w = true →
  ∃ b, produced w scope path b ∧ q b = true.
Proof.
  unfold cache.some_product. rewrite existsb_exists.
  intros ([id p] & Hp%list_elem_of_In & [Hpath Hb]%andb_true_iff). simpl in *.
  apply bool_decide_eq_true in Hpath as ->.
  destruct (w_builds w !! id) as [b|] eqn:Hid; [|done]. apply andb_true_iff in Hb as [Hq Hs].
  exists b. split; [|done]. split; [by eapply built_in_spec|]. right. by exists id.
Qed.

Lemma product_reads scope path :
  observes (cache.has_circus_build_product (cv_products sv) path (scope_project scope))
    (λ w ok, ok = true → ∃ b, produced w scope path b).
Proof.
  apply reads_read; [intros ? ? HH; exact HH|]. intros w Hok. apply orb_true_iff in Hok as [Hp|Hb].
  - apply some_product_spec in Hp as (b & Hp & _). by exists b.
  - apply some_build_spec in Hb as (b & Hb & Ho%bool_decide_eq_true). exists b. split; [done|].
    by left.
Qed.

Lemma signed_product_reads scope path :
  observes (cache.has_circus_signed_build_product (cv_products sv) path (scope_project scope))
    (λ w ok, ok = true → ∃ b, produced w scope path b ∧ b_signed b = true).
Proof.
  apply reads_read; [intros ? ? HH; exact HH|]. intros w Hok. apply orb_true_iff in Hok as [Hp|Hb].
  - by apply some_product_spec in Hp.
  - apply some_build_spec in Hb as (b & Hb & [Ho%bool_decide_eq_true Hs]%andb_true_iff).
    exists b. split; [|done]. split; [done|]. by left.
Qed.

Lemma derivation_reads scope path :
  observes (cache.has_circus_derivation_path path (scope_project scope))
    (λ w ok, ok = true → ∃ b, built w scope b ∧ b_drv_path b = path).
Proof.
  apply reads_read; [intros ? ? HH; exact HH|]. intros w Hb. apply some_build_spec in Hb as (b & Hb & Hp).
  exists b. split; [done|]. by apply bool_decide_eq_true in Hp.
Qed.

Lemma direct_reference_reads db scope path :
  observes (has_circus_derivation_direct_reference sv db path (scope_project scope))
    (λ w ok, ok = true → ∃ b v, built w scope b ∧ v ∈ db ∧ vp_path v = b_drv_path b ∧
                                path ∈ vp_references v).
Proof.
  unfold has_circus_derivation_direct_reference. destruct (cv_db_fails sv).
  { by apply (reads_answer (Err _)). }
  destruct (vp_path <$> _) as [|x l] eqn:Hl; [by apply reads_mret|].
  apply reads_read; [intros ? ? HH; exact HH|]. intros w Hb. apply some_build_spec in Hb as (b & Hb & Hp).
  assert (Hin : b_drv_path b ∈ x :: l) by (by apply Names.str_in_iff in Hp).
  rewrite <-Hl in Hin. apply list_elem_of_fmap in Hin as (v & Hv & Hin).
  apply list_elem_of_In, filter_In in Hin as [Hdb [Hr _]%andb_true_iff].
  exists b, v. rewrite list_elem_of_In. split_and!; [done..|]. by apply Names.str_in_iff in Hr.
Qed.

Lemma signed_narinfo_reads scope path :
  observes (has_signed_persisted_narinfo sv path (scope_project scope))
    (λ w ok, ok = true → ∃ r, signed_row w scope path r).
Proof.
  unfold has_signed_persisted_narinfo.
  eapply (reads_mbind _ _
    (λ w o, ∀ r, o = Some r → w_narinfos w !! path = Some r ∧
       in_scope (scope_project scope) w (path, r) = true ∧ is_Some (ni_sig (nr_info r))));
    [|tables| |tables].
  - apply reads_read; [intros ? ? HH; exact HH|]. intros w r. unfold obind.
    destruct (w_narinfos w !! path) as [r'|]; [|done].
    destruct (ni_sig (nr_info r')) as [sig|] eqn:Hsig; [|done].
    destruct (_ && _) eqn:Hs; [|done]. intros [= <-]. apply andb_true_iff in Hs as [_ Hs].
    rewrite Hsig. eauto.
  - intros [r|]; apply reads_mret; intros w Hrow Hok; [|by destruct (cv_key sv)].
    destruct (Hrow r eq_refl) as (? & ? & ?). exists r. split_and!; [done..|].
    intros key Hkey. by rewrite Hkey in Hok.
Qed.

Lemma ours_blind db scope info : blind (λ w, ours w db scope info).
Proof.
  intros fs w [r Hr|b H1 H2|b H1 H2|b v H1 H2 H3 H4 H5|b H1 H2 H3 H4].
  - exact (ours_narinfo w db scope info r Hr).
  - exact (ours_derivation w db scope info b H1 H2).
  - exact (ours_product w db scope info b H1 H2).
  - exact (ours_input w db scope info b v H1 H2 H3 H4 H5).
  - exact (ours_signed w db scope info b H1 H2 H3 H4).
Qed.

(** The gate of the local store is sound. *)
Lemma servable_reads db info scope :
  observes (is_servable_binary_cache_path sv db info scope)
    (λ w ok, ok = true → ours w db scope info).
Proof.
  assert (Hblind : ∀ b, blind (λ w, b = true → ours w db scope info)).
  { intros b fs w Hok Hb. by apply (ours_blind db scope info fs), Hok. }
  unfold is_servable_binary_cache_path.
  eapply reads_mbind; [apply signed_narinfo_reads|done| |tables]. intros [].
  { apply reads_mret. intros w Hs _. destruct (Hs eq_refl) as [r Hr]. by eapply ours_narinfo. }
  eapply (reads_mbind _ _
    (λ w ok, ok = true → ∃ b, built w scope b ∧ b_drv_path b = vi_path info)).
  - destruct (is_drv _); [apply derivation_reads|by apply reads_mret].
  - intros b fs w Hok _. apply (Hblind b fs). intros Hb. by apply Hok.
  - intros [].
    { apply reads_mret. intros w Hd _ _. destruct (Hd eq_refl) as (b & ? & ?).
      by eapply ours_derivation. }
    destruct (is_some (vi_ca info)) eqn:Hca.
    + assert (is_Some (vi_ca info)) as Hsome by (destruct (vi_ca info); [by eexists|done]).
      eapply reads_mbind; [apply product_reads| | |tables].
      { intros b fs w Hok _ _. apply (Hblind b fs). intros Hb. by apply Hok. }
      intros [].
      * apply reads_mret. intros w Hp _ _ _. destruct (Hp eq_refl) as [b Hb].
        by eapply ours_product.
      * eapply reads_weaken; [apply direct_reference_reads|]. intros w ok Hd _ _ _ ->.
        destruct (Hd eq_refl) as (b & v & ? & ? & ? & ?). by eapply ours_input.
    + destruct (vi_signatures info) as [|x l] eqn:Hl; [by apply reads_mret|].
      eapply reads_weaken; [apply signed_product_reads|]. intros w ok Hd _ _ ->.
      destruct (Hd eq_refl) as (b & ? & ?). eapply ours_signed; [|by rewrite Hl|done..].
      by destruct (vi_ca info).
  - tables.
Qed.

(** ** The routes *)

Lemma find_narinfo_spec p w path r :
  find_narinfo p w = Some (path, r) → w_narinfos w !! path = Some r ∧ p path r = true.
Proof.
  unfold find_narinfo, latest. set (l := sort_by _ _). intros Hh.
  assert (Hin : (path, r) ∈ l) by (by destruct l; simplify_eq/=; left).
  unfold l in Hin. rewrite sort_by_perm, list_elem_of_In, filter_In, <-list_elem_of_In in Hin.
  destruct Hin as [Hin Hp]. by apply elem_of_map_to_list in Hin.
Qed.

Lemma lookup_reads msg p :
  (∀ fs w path r, p (set_w_faults fs w) path r = p w path r) →
  observes (or_not_found msg (read (λ w, find_narinfo (p w) w)))
    (λ w kr, w_narinfos w !! kr.1 = Some kr.2 ∧ p w kr.1 kr.2 = true).
Proof.
  intros Hp. unfold or_not_found.
  eapply (reads_mbind _ _ (λ w o, ∀ path r, o = Some (path, r) →
            w_narinfos w !! path = Some r ∧ p w path r = true)).
  - apply reads_read; [|intros w path r; apply find_narinfo_spec].
    intros fs w Hw path r Ho. destruct (Hw path r Ho). by rewrite Hp in *.
  - intros [path r] fs w. simpl. by rewrite Hp.
  - intros [[path r]|]; [|by apply (reads_answer (Err _))]. apply reads_mret. intros w Ho.
    by apply Ho.
  - intros o fs w Ho path r Hs. rewrite <-(Hp fs). by apply Ho.
Qed.

Lemma trusted_signed path d :
  persisted_row_is_trusted sv path d = true →
  is_Some (ni_sig d) ∧
  ∀ key, cv_key sv = Some key → narinfo_signature_verifies sv path d key = true.
Proof.
  unfold persisted_row_is_trusted, narinfo_has_signature, narinfo_signature_verifies, obind.
  destruct (cv_key sv) as [key|]; destruct (ni_sig d); try done.
  intros Hv. split; [by eexists|]. by intros ? [= <-].
Qed.

Lemma store_entry_blind scope hash info : blind (λ w, store_entry w scope hash info).
Proof.
  intros fs w (db & Hdb & Hq & Ho). exists db. split_and!; [done..|]. by eapply ours_blind.
Qed.

Lemma narinfo_blind scope hash text : blind (λ w, narinfo_ours w scope hash text).
Proof.
  intros fs w [path r Hr Hs Hl Ht|info He Ht].
  - apply (narinfo_of_row w scope hash text path r Hr Hs); [|done]. intros Hlocal.
    destruct (Hl Hlocal) as [info Hi]. exists info. by eapply store_entry_blind.
  - apply (narinfo_of_store w scope hash text info); [|done]. by eapply store_entry_blind.
Qed.

(** The pattern of every use of the local store. *)
Lemma entry_reads {A} hash (none : A) (k : list ValidPath → ValidPathInfo → M A)
    (Q : World → A → Prop) :
  (∀ w, Q w none) → (∀ a, blind (λ w, Q w a)) →
  (∀ db info, cv_db sv = Some db → query_binary_cache_path_info sv hash db = Ok (Some info) →
              observes (k db info) Q) →
  observes (match cv_db sv with
         | None => mret none
         | Some db =>
             let! info := lift (query_binary_cache_path_info sv hash db) in
             match info with None => mret none | Some info => k db info end
         end) Q.
Proof.
  intros Hn HQ Hk. destruct (cv_db sv) as [db|] eqn:Hdb; [|by apply reads_mret].
  destruct (query_binary_cache_path_info sv hash db) as [[info|]|e] eqn:Hq.
  - exact (Hk db info eq_refl Hq).
  - by apply (reads_mret none).
  - by apply (reads_answer (Err e)).
Qed.

Lemma local_servable_reads hash scope :
  observes (local_narinfo_row_is_servable sv hash scope)
    (λ w ok, ok = true → ∃ info, store_entry w scope hash info).
Proof.
  apply entry_reads; [done|..].
  - intros ok fs w Hok Ht. destruct (Hok Ht) as [info Hi]. exists info.
    by eapply store_entry_blind.
  - intros db info Hdb Hq. eapply reads_weaken; [apply servable_reads|].
    intros w ok Ho Ht. exists info, db. auto.
Qed.

Definition hash_of (name : string) : string := default name (strip_suffix ".narinfo" name).

(** What a request for a narinfo answers, and how the cache in memory changes. *)
Definition narinfo_answer (st : CacheSettings) (name : string) (c : Narinfos) (w : World)
    (a : Response * Narinfos) : Prop :=
  let key := cache_key sv (cs_scope st) (hash_of name) in
  a = (NotFound404, c) ∨
  ∃ text, cs_enabled st = true ∧ NixHash.is_valid (hash_of name) = true ∧
    a.1 = NarinfoText text ∧
    ((c !! key = Some text ∧ a.2 = c) ∨
     (narinfo_ours w (cs_scope st) (hash_of name) text ∧ (a.2 = c ∨ a.2 = <[key := text]> c))).

Lemma narinfo_answer_blind st name c a : blind (λ w, narinfo_answer st name c w a).
Proof.
  intros fs w [->|(text & H1 & H2 & H3 & [H4|[H4 H5]])]; [by left|right..]; exists text;
    split_and!; auto. right. split; [|done]. by eapply narinfo_blind.
Qed.

Lemma from_store_reads st name c :
  cs_enabled st = true → NixHash.is_valid (hash_of name) = true →
  observes (match cv_db sv with
         | None => mret (NotFound404, c)
         | Some db =>
             let! info := lift (query_binary_cache_path_info sv (hash_of name) db) in
             match info with
             | None => mret (NotFound404, c)
             | Some info =>
                 let! ok := is_servable_binary_cache_path sv db info (cs_scope st) in
                 if ok then
                   let text := cv_format sv info (hash_of name) in
                   mret (NarinfoText text,
                         <[cache_key sv (cs_scope st) (hash_of name) := text]> c)
                 else mret (NotFound404, c)
             end
         end) (narinfo_answer st name c).
Proof.
  intros Hen Hv. apply entry_reads; [by left|apply narinfo_answer_blind|]. intros db info Hdb Hq.
  eapply reads_mbind; [apply servable_reads|apply narinfo_answer_blind| |].
  - intros []; apply reads_mret; intros w Ho; [|by left]. right.
    exists (cv_format sv info (hash_of name)). split_and!; [done..|]. right. split; [|by right].
    eapply narinfo_of_store; [|done]. exists db. auto.
  - intros ok fs w Ho Ht. by apply (ours_blind db (cs_scope st) info fs), Ho.
Qed.

Lemma narinfo_reads st name c : observes (narinfo_for_settings sv st name c) (narinfo_answer st name c).
Proof.
  unfold narinfo_for_settings. fold (hash_of name).
  destruct (cs_enabled st) eqn:Hen; simpl; [|by apply reads_mret; left].
  destruct (NixHash.is_valid (hash_of name)) eqn:Hv; simpl; [|by apply reads_mret; left].
  destruct (c !! _) as [text|] eqn:Hc.
  { apply reads_mret. intros w. right. exists text. eauto 10. }
  eapply reads_mbind.
  - apply reads_mtry, (lookup_reads _ (λ w path r,
      starts_with ("/nix/store/" +:+ hash_of name +:+ "-") path &&
      in_scope (scope_project (cs_scope st)) w (path, r))). done.
  - apply narinfo_answer_blind.
  - intros [[path r]|e].
    2: eapply reads_weaken; [by apply from_store_reads|done].
    destruct (persisted_row_is_trusted _ _ _) eqn:Ht.
    2: eapply reads_weaken; [by apply from_store_reads|done].
    apply trusted_signed in Ht as [Hsome Hver].
    eapply (reads_mbind _ _ (λ w ok, ok = true →
              narinfo_row_uses_local_nar_route (nr_info r) = true →
              ∃ info, store_entry w (cs_scope st) (hash_of name) info)).
    + destruct (narinfo_row_uses_local_nar_route _); [|by apply reads_mret].
      eapply reads_weaken; [apply local_servable_reads|]. auto.
    + intros a fs w Ha Hr. apply (narinfo_answer_blind st name c a fs), Ha. exact Hr.
    + intros []; apply reads_mret; intros w Hl Hrow; [|by left].
      destruct (Hrow _ eq_refl) as [Hlook [Hp Hs]%andb_true_iff]. right.
      exists (render_narinfo_row path (nr_info r)). split_and!; [done..|]. right.
      split; [|by destruct (narinfo_row_uses_local_nar_route _); [left|right]].
      by apply (narinfo_of_row w (cs_scope st) (hash_of name) _ path r); auto.
    + intros ok fs w Hok H1 H2. destruct (Hok H1 H2) as [info Hi]. exists info.
      by eapply store_entry_blind.
  - intros a fs w Hr b Hb. exact (Hr b Hb).
Qed.

(** *** NARs *)

Lemma nar_blind scope name rsp : blind (λ w, nar_ours w scope name rsp).
Proof.
  intros fs w. destruct rsp as [| | |location path|path size]; try done.
  intros [Hr|(hash & info & Hi & Hp)]; [by left|]. right. exists hash, info.
  split; [by eapply store_entry_blind|done].
Qed.

Lemma by_url_reads url scope :
  observes (mtry (narinfo_lookup.get_by_url url (scope_project scope)))
    (λ w a, ∀ kr, a = Ok kr → w_narinfos w !! kr.1 = Some kr.2 ∧
       in_scope (scope_project scope) w (kr.1, kr.2) = true ∧ ni_url (nr_info kr.2) = url).
Proof.
  eapply reads_weaken.
  - apply reads_mtry, (lookup_reads _ (λ w path r,
      bool_decide (ni_url (nr_info r) = url) && in_scope (scope_project scope) w (path, r))). done.
  - intros w a Ha kr Hkr. destruct (Ha kr Hkr) as [Hl [Hu%bool_decide_eq_true Hs]%andb_true_iff].
    auto.
Qed.

Lemma redirect_reads object scope :
  observes (redirect_uploaded_nar sv object scope)
    (λ w o, ∀ rsp, o = Some rsp → nar_ours w scope object rsp).
Proof.
  unfold redirect_uploaded_nar. destruct (negb _); [by apply reads_mret|].
  eapply reads_mbind; [apply by_url_reads| | |tables].
  - intros o fs w Ho rsp Hr. by apply (nar_blind scope object rsp fs), Ho.
  - intros [[path r]|[]]; try (by apply (reads_answer (Err _))); try (by apply reads_mret).
    destruct (narinfo_has_signature _) eqn:Hsig; simpl;
      [|by apply reads_mret; intros w _ ? [= <-]].
    destruct (cv_presign sv) as [presign|]; apply reads_mret; intros w Hrow rsp [= <-]; [|done].
    destruct (cv_header_ok sv _); [|done]. destruct (Hrow _ eq_refl) as (? & ? & ?).
    exists r. auto.
Qed.

Lemma persisted_reads object hash stripped scope :
  object = stripped +:+ ".nar" →
  observes (serve_persisted_local_nar sv object hash stripped scope)
    (λ w o, ∀ rsp, o = Some rsp → nar_ours w scope object rsp).
Proof.
  intros Ho. unfold serve_persisted_local_nar. destruct (negb _); [by apply reads_mret|].
  eapply reads_mbind; [apply by_url_reads| | |tables].
  - intros o fs w Hs rsp Hr. by apply (nar_blind scope object rsp fs), Hs.
  - intros [[path r]|[]]; try (by apply (reads_answer (Err _))); try (by apply reads_mret).
    apply reads_mret. intros w Hrow rsp [= <-].
    destruct (persisted_local_nar_row_matches _ _ _ _ && _) eqn:Hm; [|done].
    unfold persisted_local_nar_row_matches in Hm. rewrite !andb_true_iff in Hm.
    destruct Hm as [[[[Hsig _] _] Hn%bool_decide_eq_true] _]. unfold nar_hash_part in Hn.
    apply strip_prefix_some in Hn. destruct (Hrow _ eq_refl) as (? & ? & ?).
    left. exists r, stripped. auto.
Qed.

Lemma store_nar_reads hash expected scope name :
  observes (serve_store_nar sv hash expected scope) (λ w rsp, nar_ours w scope name rsp).
Proof.
  apply entry_reads; [done|apply nar_blind|]. intros db info Hdb Hq.
  eapply reads_mbind; [apply servable_reads|apply nar_blind| |].
  - intros []; simpl; [|by apply reads_mret].
    destruct (match expected with Some _ => _ | None => _ end); apply reads_mret; [done|].
    intros w Ho. right. exists hash, info. split; [|done]. exists db. auto.
  - intros ok fs w Ho Ht. by apply (ours_blind db scope info fs), Ho.
Qed.

Lemma nar_reads st name q :
  observes (serve_nar_for_settings sv st name q)
    (λ w rsp, nar_ours w (cs_scope st) name rsp ∧ (cs_enabled st = false → rsp = NotFound404)).
Proof.
  unfold serve_nar_for_settings. destruct (cs_enabled st) eqn:Hen; simpl;
    [|by apply reads_mret].
  apply reads_weaken with (P := λ w rsp, nar_ours w (cs_scope st) name rsp); [|done].
  eapply reads_mbind; [apply redirect_reads|apply nar_blind| |].
  2: { intros o fs w Ho rsp Hr. by apply (nar_blind (cs_scope st) name rsp fs), Ho. }
  intros [rsp|]; [by apply reads_mret; auto|].
  destruct (strip_suffix ".nar" name) as [stripped|] eqn:Hs; [|by apply reads_mret].
  destruct (negb _); [by apply reads_mret|].
  eapply reads_weaken; [|intros w rsp Hr _; exact Hr].
  eapply (reads_mbind _ _ (λ w o, ∀ rsp, o = Some rsp → nar_ours w (cs_scope st) name rsp));
    [|apply nar_blind| |].
  - destruct q as [h|]; [|by apply reads_mret]. apply persisted_reads.
    by apply strip_suffix_some.
  - intros [rsp|]; [by apply reads_mret; auto|].
    eapply reads_weaken; [apply (store_nar_reads _ _ _ name)|]. intros w a Ha _. exact Ha.
  - intros o fs w Ho rsp Hr. by apply (nar_blind (cs_scope st) name rsp fs), Ho.
Qed.

(** ** The server over time

    The states of the database the server has seen, the last one first, and its cache: a
    request for a narinfo, a change of the database by anybody, an entry that expires. *)

Inductive serving : list World → Narinfos → Prop :=
  | serving_start w : serving [w] ∅
  | serving_change w ws c : serving ws c → serving (w :: ws) c
  | serving_expire k ws c : serving ws c → serving ws (base.delete k c)
  | serving_ask st name rsp c' w' w ws c :
      serving (w :: ws) c → narinfo_for_settings sv st name c w = (Ok (rsp, c'), w') →
      serving (w' :: w :: ws) c'.

(** The keys of the cache tell scopes and hashes apart. *)
Lemma cache_key_inj (Huuid : Inj (=) (=) (cv_uuid_text sv)) s h s' h' :
  NixHash.is_valid h = true → NixHash.is_valid h' = true →
  cache_key sv s h = cache_key sv s' h' → s = s' ∧ h = h'.
Proof.
  intros [Hl%Z.eqb_eq _]%andb_true_iff [Hl'%Z.eqb_eq _]%andb_true_iff.
  rewrite str_len_chars in Hl, Hl'.
  destruct s as [|u], s' as [|u']; simpl; try discriminate; intros [= Hk]; [done|].
  apply (f_equal str_chars) in Hk. rewrite !str_chars_app in Hk. simpl in Hk.
  apply app_inj_2 in Hk as [Hu Hh]; [|simpl; lia].
  apply chars_inj, Huuid in Hu as ->. simpl in Hh. injection Hh as Hh. by apply chars_inj in Hh as ->.
Qed.

Definition cached_ours (ws : list World) (c : Narinfos) : Prop :=
  ∀ s h text, NixHash.is_valid h = true → c !! cache_key sv s h = Some text →
    ∃ w, w ∈ ws ∧ narinfo_ours w s h text.

Lemma cached_ours_ask (Huuid : Inj (=) (=) (cv_uuid_text sv)) st name c w rsp c' w' ws :
  cached_ours (w :: ws) c → narinfo_for_settings sv st name c w = (Ok (rsp, c'), w') →
  cached_ours (w :: ws) c' ∧
  ∀ text, rsp = NarinfoText text →
    cs_enabled st = true ∧ NixHash.is_valid (hash_of name) = true ∧
    ∃ v, v ∈ w :: ws ∧ narinfo_ours v (cs_scope st) (hash_of name) text.
Proof.
  intros Hc Hask. apply (reads_ok _ _ _ _ _ (narinfo_reads st name c)) in Hask.
  destruct Hask as [Heq|(text & Hen & Hv & Hrsp & Ha)]; [by injection Heq as -> ->|].
  simpl in *. subst rsp.
  destruct Ha as [[Hhit Hsame] | [Ho Hc']].
  - subst. split; [done|]. intros ? [= <-]. split_and!; [done..|]. by apply Hc.
  - split.
    + destruct Hc' as [-> | ->]; [done|]. intros s h t Hvh.
      intros [[Hk <-]|[_ Ht]]%lookup_insert_Some; [|by apply Hc].
      apply cache_key_inj in Hk as [<- <-]; [|done..]. exists w. split; [by left|done].
    + intros ? [= <-]. split_and!; [done..|]. exists w. split; [by left|done].
Qed.

Lemma serving_cached (Huuid : Inj (=) (=) (cv_uuid_text sv)) ws c :
  serving ws c → cached_ours ws c.
Proof.
  assert (Hmore : ∀ w ws c, cached_ours ws c → cached_ours (w :: ws) c).
  { intros w ws' c' Hc s h text Hv Hl. destruct (Hc s h text Hv Hl) as (v & ? & ?).
    exists v. split; [by right|done]. }
  induction 1 as [w|w ws c _ IH|k ws c _ IH|st name rsp c' w' w ws c _ IH Hask].
  - by intros s h text _.
  - by apply Hmore.
  - intros s h text Hv [_ Hl]%lookup_delete_Some. by apply IH.
  - apply Hmore. by eapply cached_ours_ask.
Qed.

(** C15. Whatever the public cache gives out has its grounds in the scope that was asked,
    whoever asks, in whatever order and whichever statements fail.  A narinfo text is given
    out only where the cache is enabled, for a well-formed hash, and only if at this moment
    or at an earlier one since the start of the server it was the rendering of a narinfo of
    this scope with a signature - one that verifies under the server's key if it has one -
    or the entry of a local path that is ours in this scope: with such a narinfo, the
    derivation of one of its builds, content-addressed and produced by one of its builds or
    a direct input of one of their derivations, or produced by a signed build.  A cached text of one scope
    never leaves another.  A NAR is streamed or redirected only on the same grounds or for a
    narinfo of the scope with a signature, under the name it has there. *)
Theorem serves_only_ours ws c st name q w :
  Inj (=) (=) (cv_uuid_text sv) → serving (w :: ws) c →
  (∀ text c' w', narinfo_for_settings sv st name c w = (Ok (NarinfoText text, c'), w') →
     cs_enabled st = true ∧ NixHash.is_valid (hash_of name) = true ∧
     ∃ v, v ∈ w :: ws ∧ narinfo_ours v (cs_scope st) (hash_of name) text) ∧
  (∀ rsp w', serve_nar_for_settings sv st name q w = (Ok rsp, w') →
     nar_ours w (cs_scope st) name rsp ∧ (cs_enabled st = false → rsp = NotFound404)).
Proof.
  intros Huuid Hs%serving_cached; [|done]. split.
  - intros text c' w' Hask. eapply cached_ours_ask in Hask as [_ Hask]; [|done..].
    by apply Hask.
  - intros rsp w' Hq. by apply (reads_ok _ _ _ _ _ (nar_reads st name q)) in Hq.
Qed.
End grounds.

(** ** From an upload to the cache *)

Lemma head_sort_by {A} (cmp : A → A → comparison) x l :
  x ∈ l → (∀ y, y ∈ l → y = x ∨ (cmp x y = Lt ∧ cmp y x = Gt)) → head (sort_by cmp l) = Some x.
Proof.
  induction l as [|a l IH]; [by intros ?%elem_of_nil|]. intros Hin Hall. simpl.
  apply elem_of_cons in Hin as [->|Hin].
  - destruct (sort_by cmp l) as [|y t] eqn:E; [done|].
    assert (Hy : y ∈ l) by (rewrite <-(sort_by_perm cmp l), E; left).
    destruct (Hall y ltac:(by right)) as [->|[Hlt _]]; simpl; [by destruct (cmp a a)|by rewrite Hlt].
  - assert (Hh : head (sort_by cmp l) = Some x) by (apply IH; [done|intros y ?; apply Hall; by right]).
    destruct (sort_by cmp l) as [|y t]; [done|]. injection Hh as ->. simpl.
    destruct (Hall a ltac:(left)) as [->|[_ Hgt]]; [by destruct (cmp x x)|by rewrite Hgt].
Qed.

(** Of the rows that match, the newest is found. *)
Lemma find_narinfo_newest p w path r :
  w_narinfos w !! path = Some r → p path r = true →
  (∀ path' r', w_narinfos w !! path' = Some r' → path' ≠ path → p path' r' = true →
     nr_updated_at r' < nr_updated_at r) →
  find_narinfo p w = Some (path, r).
Proof.
  intros Hr Hp Hnew. unfold find_narinfo, latest.
  assert (Hin : ∀ x, x ∈ List.filter (λ kr : string * NarInfo, p kr.1 kr.2)
      (map_to_list (w_narinfos w)) ↔ w_narinfos w !! x.1 = Some x.2 ∧ p x.1 x.2 = true).
  { intros [k x]. by rewrite list_elem_of_In, filter_In, <-list_elem_of_In, elem_of_map_to_list. }
  apply head_sort_by; [by apply Hin|]. intros [k x] [Hk Hpx]%Hin. simpl in *.
  destruct (decide (k = path)) as [->|Hne]; [left; congruence|right].
  specialize (Hnew k x Hk Hne Hpx). split; [apply Z.compare_lt_iff|apply Z.compare_gt_iff]; lia.
Qed.

Lemma or_not_found_some {A} msg (f : World → option A) w a :
  w_faults w = [] → f w = Some a → or_not_found msg (read f) w = (Ok a, w).
Proof. intros Hf Ha. unfold or_not_found, mbind, read, query. by rewrite Hf, Ha. Qed.

Lemma split_once_absent p c s : str_all p s = true → p c = false → split_once c s = None.
Proof.
  unfold str_all. induction s as [|a s IH]; [done|]. simpl. intros [Ha Hs]%andb_true_iff Hc.
  rewrite (IH Hs Hc). destruct (decide _); [congruence|done].
Qed.

(** An object name leads nowhere else: no separator, no query. *)
Lemma object_name_plain name :
  is_valid_nar_object_name name = true →
  split_once "?"%char name = None ∧ split_once "/"%char name = None.
Proof.
  unfold is_valid_nar_object_name. intros [_ Hall]%andb_true_iff.
  split; by eapply split_once_absent.
Qed.

Section upload.
Context `{Codecs, Hasher, Server}.
Variable sv : CacheServer.

(** The runner's signatures are not blank and, where the server checks them, made with the
    key whose public half it has: what Ed25519 and the textual form of signatures promise. *)
Definition signs_for (sign : string → string) : Prop :=
  ∀ data, is_empty (trim (sign data)) = false ∧
    ∀ key, cv_key sv = Some key →
      ∃ sg, parse_signature (sign data) = Some sg ∧ verify_signature sv key data sg = true.

(** The row the runner persists is trusted and served from the object store. *)
Lemma uploaded_row_trusted sign info verified :
  signing_key cfg = Some (Ok sign) → signs_for sign →
  persisted_row_is_trusted sv (ui_store_path info) (narinfo_row info verified) = true ∧
  narinfo_has_signature (narinfo_row info verified) = true.
Proof.
  intros Hs Hsf. destruct (Hsf (fingerprint (ui_store_path info) (un_nar_hash verified)
    (as_i64 (un_nar_size verified)) (ui_references info))) as (He & Hv).
  assert (Hsig : narinfo_has_signature (narinfo_row info verified) = true).
  { unfold narinfo_has_signature. simpl. unfold signature. by rewrite Hs, He. }
  split; [|done]. unfold persisted_row_is_trusted. destruct (cv_key sv) as [key|] eqn:Hk; [|done].
  destruct (Hv key eq_refl) as (sg & Hp & Hver).
  unfold narinfo_signature_verifies, obind. simpl. unfold signature. by rewrite Hs, Hp.
Qed.

Lemma uploaded_row_not_local info verified object :
  ui_url info = "nar/" +:+ object → is_valid_nar_object_name object = true →
  narinfo_row_uses_local_nar_route (narinfo_row info verified) = false.
Proof.
  intros Hu [Hq _]%object_name_plain. unfold narinfo_row_uses_local_nar_route.
  change (ni_url (narinfo_row info verified)) with (ui_url info). rewrite Hu, strip_prefix_app, Hq.
  by destruct (negb _).
Qed.

Lemma persisted_in_scope path d build project w w' scope :
  narinfo_cache.upsert path d (Some build) project w = (Ok (), w') →
  (∀ p, scope = Project_ p → project = Some p) →
  ∃ r, w_narinfos w' !! path = Some r ∧ nr_info r = d ∧ nr_updated_at r = w_now w ∧
       (∀ path', path' ≠ path → w_narinfos w' !! path' = w_narinfos w !! path') ∧
       in_scope (scope_project scope) w' (path, r) = true.
Proof.
  intros [fs Hu]%query_ok Hscope. unfold narinfo_cache.upsert_tx in Hu.
  set (row := narinfo_cache.upsert_row _ _ _ _ _) in Hu.
  assert (Hd : nr_info row = d ∧ nr_updated_at row = w_now w).
  { unfold row, narinfo_cache.upsert_row. by destruct (_ !! path). }
  destruct Hd as [Hd Hnow].
  destruct (negb _); [done|]. injection Hu as <-. exists row.
  split_and!; [by destruct project; simpl; apply lookup_insert_eq|done|done| |].
  { intros path' Hne. by destruct project; simpl; rewrite lookup_insert_ne. }
  destruct scope as [|p]; [done|]. rewrite (Hscope p eq_refl). simpl.
  apply orb_true_iff. right. apply bool_decide_eq_true.
  unfold narinfo_cache.upsert_project_owner. rewrite lookup_insert_eq. by eexists.
Qed.

(** The narinfo of an upload as a client reads it: the fields the runner verified, with
    its own signature over them. *)
Definition uploaded_text (sign : string → string) (info : UploadInfo) (v : UploadedNar) : string :=
  let size := as_i64 (un_nar_size v) in
  let nonempty s := if bool_decide (s = "") then None else Some s in
  field "StorePath" (ui_store_path info) +:+ field "URL" (ui_url info) +:+
  field "Compression" (ui_compression info) +:+ field "FileHash" (un_file_hash v) +:+
  (if bool_decide (ui_compression info = "none") then ""
   else field "FileSize" (pretty (as_i64 (un_file_size v)))) +:+ field "NarHash" (un_nar_hash v) +:+
  field "NarSize" (pretty size) +:+
  field "References" (str_join " " (store_path_name <$> ui_references info)) +:+
  opt_field "Deriver" (store_path_name <$> nonempty (ui_deriver info)) +:+
  opt_field "CA" (nonempty (ui_ca info)) +:+
  field "Sig" (sign ("1;" +:+ ui_store_path info +:+ ";" +:+ un_nar_hash v +:+ ";" +:+
                     pretty size +:+ ";" +:+
                     str_join "," (sort_by String.compare (ui_references info)))).

Lemma uploaded_text_row sign info v :
  signing_key cfg = Some (Ok sign) →
  render_narinfo_row (ui_store_path info) (narinfo_row info v) = uploaded_text sign info v.
Proof.
  intros Hs. unfold uploaded_text, render_narinfo_row. simpl. unfold signature, fingerprint.
  rewrite Hs. simpl. by case_bool_decide.
Qed.

(** C16. An upload the runner has accepted is in the public cache.  Let the last statement
    of its notification succeed, other narinfos of the same hash or URL be older than that,
    the runner sign with the key the server checks, if it checks one, and the presigner give
    a URL that can be a header.  Then the caches of the whole installation and of the project of the
    build, where enabled, answer a request for the NAR with a redirect to the object, and
    a request for the narinfo of the path's hash with the fields the runner verified under
    its signature, which the server remembers; unless it still remembers an answer it gave
    for the hash before, which it then repeats. *)
Theorem upload_is_served tid s s' c key_ info verified project sign hash name object st mem presign :
  tasks s !! tid = Some (TPersist c key_ (narinfo_row info verified) project) →
  key_.2 = ui_store_path info → notify_persist tid s = (Ok (), s') → w_faults (world s') = [] →
  (∀ path r, w_narinfos (world s) !! path = Some r → path ≠ ui_store_path info →
     starts_with ("/nix/store/" +:+ hash +:+ "-") path = true ∨ ni_url (nr_info r) = ui_url info →
     nr_updated_at r < w_now (world s)) →
  signing_key cfg = Some (Ok sign) → signs_for sign →
  cv_presign sv = Some presign → cv_header_ok sv (presign (ui_url info)) = true →
  ui_url info = "nar/" +:+ object → is_valid_nar_object_name object = true →
  hash_of name = hash → NixHash.is_valid hash = true →
  starts_with ("/nix/store/" +:+ hash +:+ "-") (ui_store_path info) = true →
  cs_enabled st = true → (∀ p, cs_scope st = Project_ p → project = Some p) →
  let text := uploaded_text sign info verified in
  narinfo_for_settings sv st name mem (world s') =
    (Ok (match mem !! cache_key sv (cs_scope st) hash with
         | Some remembered => (NarinfoText remembered, mem)
         | None => (NarinfoText text, <[cache_key sv (cs_scope st) hash := text]> mem)
         end), world s') ∧
  serve_nar_for_settings sv st object None (world s') =
    (Ok (RedirectNar (presign (ui_url info)) (ui_store_path info)), world s').
Proof.
  intros Htask Hkey Hnotify Hf Hold Hsign Hsf Hpre Hhdr Hurl Hobj Hname Hvalid Hstart Hen Hscope text.
  unfold text. rewrite <-(uploaded_text_row sign info verified Hsign).
  assert (Hrow : ∃ r, w_narinfos (world s') !! ui_store_path info = Some r ∧
            nr_info r = narinfo_row info verified ∧
            (∀ path' r', w_narinfos (world s') !! path' = Some r' → path' ≠ ui_store_path info →
               starts_with ("/nix/store/" +:+ hash +:+ "-") path' = true ∨
                 ni_url (nr_info r') = ui_url info → nr_updated_at r' < nr_updated_at r) ∧
            in_scope (scope_project (cs_scope st)) (world s') (ui_store_path info, r) = true).
  { unfold notify_persist, on_world in Hnotify. rewrite Htask in Hnotify.
    destruct (narinfo_cache.upsert _ _ _ _ _) as [[[]|e] w'] eqn:Hu; [|done].
    injection Hnotify as <-. rewrite Hkey in Hu. simpl.
    eapply persisted_in_scope in Hu as (r & Hr & Hd & Hnow & Hrest & Hs); [|done].
    exists r. split_and!; try done. intros path' r' Hr' Hne Hm. rewrite Hrest in Hr' by done.
    rewrite Hnow. by eapply Hold. }
  destruct Hrow as (r & Hr & Hd & Hnew & Hs).
  destruct (uploaded_row_trusted sign info verified Hsign Hsf) as [Htrust Hsig].
  split.
  - unfold narinfo_for_settings. fold (hash_of name). rewrite Hname, Hen, Hvalid. simpl.
    destruct (mem !! cache_key sv (cs_scope st) hash); [done|].
    unfold mbind at 1, mtry, narinfo_lookup.get_by_hash_part.
    erewrite or_not_found_some; [|done|].
    2: { apply find_narinfo_newest; [done|by rewrite Hstart, Hs|].
         intros path' r' Hr' Hne [Hp _]%andb_true_iff. eapply Hnew; eauto. }
    simpl. rewrite Hd, Htrust, (uploaded_row_not_local info verified object Hurl Hobj). done.
  - unfold serve_nar_for_settings. rewrite Hen. simpl. unfold redirect_uploaded_nar. rewrite Hobj.
    simpl. unfold mbind, mtry, narinfo_lookup.get_by_url.
    erewrite or_not_found_some; [|done|].
    2: { apply find_narinfo_newest; [done|rewrite Hd, Hs; simpl; by rewrite bool_decide_eq_true_2|].
         intros path' r' Hr' Hne [Hp%bool_decide_eq_true _]%andb_true_iff. eapply Hnew; [done..|].
         right. by rewrite Hp, Hurl. }
    simpl. rewrite Hd, Hsig, Hpre. simpl. by rewrite Hhdr.
Qed.
End upload.

(** ** What a client reads *)

Definition lf : ascii → bool := char_is NL.
Definition one_line (s : string) : bool := str_all (λ c, negb (lf c)) s.

(** The fields of a narinfo in the order of the text. *)
Definition narinfo_fields (path : string) (d : NarInfoData) : list (string * string) :=
  let opt k v := match v with Some v => [(k, v)] | None => [] end in
  [("StorePath", path); ("URL", ni_url d); ("Compression", ni_compression d)] ++
  opt "FileHash" (ni_file_hash d) ++ opt "FileSize" (pretty <$> ni_file_size d) ++
  [("NarHash", ni_nar_hash d); ("NarSize", pretty (ni_nar_size d));
   ("References", str_join " " (store_path_name <$> ni_references d))] ++
  opt "Deriver" (store_path_name <$> ni_deriver d) ++ opt "CA" (ni_ca d) ++ opt "Sig" (ni_sig d).

Definition line_of (kv : string * string) : string := kv.1 +:+ ": " +:+ kv.2.

Lemma split_by_line s t : one_line s = true → split_by lf (s +:+ String NL t) = s :: split_by lf t.
Proof.
  unfold one_line, str_all. induction s as [|c s IH]; simpl; [done|].
  intros [Hc%negb_true_iff Hs]%andb_true_iff. rewrite (IH Hs), Hc. done.
Qed.

Definition print_fields (l : list (string * string)) : string :=
  foldr (λ kv s, field kv.1 kv.2 +:+ s) "" l.

Lemma print_fields_app l l' : print_fields (l ++ l') = print_fields l +:+ print_fields l'.
Proof. induction l as [|kv l IH]; [done|]. simpl. by rewrite IH, str_app_assoc. Qed.

Lemma render_is_fields path d : render_narinfo_row path d = print_fields (narinfo_fields path d).
Proof.
  unfold narinfo_fields, render_narinfo_row. rewrite !print_fields_app.
  destruct (ni_file_hash d), (ni_file_size d), (ni_deriver d), (ni_ca d), (ni_sig d);
    cbn [print_fields foldr fst snd opt_field fmap option_fmap option_map];
    rewrite ?str_app_nil, <-?str_app_assoc; reflexivity.
Qed.

Lemma print_fields_lines l :
  Forall (λ kv, one_line (line_of kv) = true) l →
  split_by lf (print_fields l) = (line_of <$> l) ++ [""].
Proof.
  induction 1 as [|[k v] l Hkv _ IH]; [done|].
  change (split_by lf (field k v +:+ print_fields l) = line_of (k, v) :: ((line_of <$> l) ++ [""])).
  rewrite <-IH, <-(split_by_line _ _ Hkv).
  f_equal. unfold field, line_of. simpl. by rewrite <-!str_app_assoc.
Qed.

(** A client reads a served narinfo as the row it was made of: where no field contains a
    line break, the lines of the text are the fields in order, each with its key, and
    nothing else. *)
Theorem narinfo_lines_exact path d :
  Forall (λ kv, one_line kv.2 = true) (narinfo_fields path d) →
  split_by lf (render_narinfo_row path d) = (line_of <$> narinfo_fields path d) ++ [""].
Proof.
  intros Hall. rewrite render_is_fields. apply print_fields_lines.
  assert (Hkeys : Forall (λ kv, one_line kv.1 = true) (narinfo_fields path d)).
  { unfold narinfo_fields.
    destruct (ni_file_hash d), (ni_file_size d), (ni_deriver d), (ni_ca d), (ni_sig d);
      simpl; repeat constructor. }
  rewrite Forall_forall in *. intros kv Hin. specialize (Hall kv Hin). specialize (Hkeys kv Hin).
  unfold line_of, one_line in *. by rewrite !str_all_app, Hkeys, Hall.
Qed.

Definition with_ca (ca : string) (i : UploadInfo) : UploadInfo :=
  {| ui_store_path := ui_store_path i; ui_nar_hash := ui_nar_hash i; ui_nar_size := ui_nar_size i;
     ui_file_hash := ui_file_hash i; ui_file_size := ui_file_size i;
     ui_compression := ui_compression i; ui_url := ui_url i; ui_deriver := ui_deriver i;
     ui_references := ui_references i; ui_ca := ca |}.

Lemma split_by_app_line s t :
  ∃ l x, split_by lf s = l ++ [x] ∧ split_by lf (s +:+ String NL t) = l ++ x :: split_by lf t.
Proof.
  induction s as [|c s (l & x & IH1 & IH2)]; [by exists [], ""|]. simpl. rewrite IH1, IH2.
  destruct (lf c); [by exists ("" :: l), x|].
  destruct l as [|y l]; [by exists [], (String c x)|by exists (String c y :: l), x].
Qed.

(** An agent can add lines to a narinfo it uploads: the content address it declares is
    neither checked, nor compared with the presigned upload, nor covered by the signature,
    and is written as it is, so any line after a line break in it is a line of the narinfo
    the server gives out. *)
Theorem narinfo_line_injected `{Hasher, Server} info verified e line :
  check_upload_info info = Ok () → matches_presigned e info = true → one_line line = true →
  let info' := with_ca ("text:x" +:+ String NL line) info in
  check_upload_info info' = Ok () ∧ matches_presigned e info' = true ∧
  signature info' verified = signature info verified ∧
  line ∈ split_by lf (render_narinfo_row (ui_store_path info') (narinfo_row info' verified)).
Proof.
  intros Hc Hm Hl info'. split_and!; [done..|]. rewrite render_is_fields. unfold narinfo_fields.
  rewrite !app_assoc, (print_fields_app _ (match ni_sig _ with Some _ => _ | None => _ end)).
  set (sig := match ni_sig _ with Some _ => _ | None => _ end).
  rewrite print_fields_app. set (front := print_fields _). clearbody front sig.
  match goal with |- _ ∈ split_by lf ?s =>
    replace s with ((front +:+ "CA: text:x") +:+ String NL (line +:+ String NL (print_fields sig)))
  end.
  2: { change (ni_ca (narinfo_row info' verified)) with (Some ("text:x" +:+ String NL line)).
       cbn [print_fields foldr fst snd]. unfold field. by rewrite <-!str_app_assoc. }
  destruct (split_by_app_line (front +:+ "CA: text:x") (line +:+ String NL (print_fields sig)))
    as (l & x & _ & ->).
  rewrite split_by_line by done. set_solver.
Qed.

(** ** Witnesses *)

Definition HASH_EX : string := "00000000000000000000000000000000".
Definition PATH_EX : string := "/nix/store/" +:+ HASH_EX +:+ "-hello".
Definition SIG_EX : string :=
  "k:AAAAAAAAAAAAAAAAAAAAAAAAAAAAAAAAAAAAAAAAAAAAAAAAAAAAAAAAAAAAAAAAAAAAAAAAAAAAAAAAAAAAAA==".

(** A server without a store of its own; signatures of key 1 are zeros. *)
Definition cache_server_ex : CacheServer :=
  {| cv_key := Some 1; cv_ed25519 := λ key _ sg, (key =? 1) && forallb (Z.eqb 0) sg;
     cv_enabled := true; cv_store_dir := "/nix/store"; cv_db := None; cv_db_fails := false;
     cv_parse := λ _, None; cv_format := λ _ _, ""; cv_presign := Some (λ k, "https://s3/" +:+ k);
     cv_header_ok := λ _, true; cv_exists := λ _, false; cv_products := [];
     cv_uuid_text := pretty |}.

Definition cache_rpc_ex : Server :=
  {| uuid_parse := λ _, None; DecodingKey := (); decode_header := λ _, Err "";
     from_rsa_components := λ _ _, Err ""; jwt_decode := λ _ _ _, Err "";
     url_origin := λ _, None; presign_put := λ _ k, k; presign_get := λ _ k, k;
     drv_outputs := λ _, Ok [];
     cfg := {| token_hashes := []; pin_cn := false; presigner := None; upload_compression := "zstd";
               signing_key := Some (Ok (λ _, SIG_EX)); oidc := None |} |}.

#[local] Existing Instance hasher_ref.
#[local] Existing Instance cache_rpc_ex.

Definition upload_info_ex : UploadInfo :=
  {| ui_store_path := PATH_EX; ui_nar_hash := "sha256:0"; ui_nar_size := 3; ui_file_hash := "";
     ui_file_size := 0; ui_compression := "zstd"; ui_url := "nar/x.nar.zst"; ui_deriver := "";
     ui_references := []; ui_ca := "" |}.

Definition verified_ex : UploadedNar :=
  {| un_nar_hash := "sha256:0"; un_nar_size := 3; un_file_hash := "sha256:1"; un_file_size := 2 |}.

Definition uploading_ex : sys :=
  {| world := example_world; heap := ∅; pool := ∅; uploads := ∅; conns := ∅;
     tasks := {[ 5 := TPersist 1 (7, 10, PATH_EX) (narinfo_row upload_info_ex verified_ex) None ]};
     jwks_cache := empty_cache; bucket := λ _, Err "" |}.

Definition uploaded_ex : sys := (notify_persist 5 uploading_ex).2.

Definition served_text_ex : string :=
  render_narinfo_row PATH_EX (narinfo_row upload_info_ex verified_ex).

(** The upload of a path to an installation whose keys match, asked by a server that
    remembers nothing. *)
Lemma upload_is_served_witness :
  narinfo_for_settings cache_server_ex (global_settings cache_server_ex) (HASH_EX +:+ ".narinfo") ∅
    (world uploaded_ex) =
    (Ok (NarinfoText served_text_ex, {[ "global:" +:+ HASH_EX := served_text_ex ]}),
     world uploaded_ex) ∧
  serve_nar_for_settings cache_server_ex (global_settings cache_server_ex) "x.nar.zst" None
    (world uploaded_ex) =
    (Ok (RedirectNar "https://s3/nar/x.nar.zst" PATH_EX), world uploaded_ex).
Proof.
  destruct (upload_is_served cache_server_ex 5 uploading_ex uploaded_ex 1 (7, 10, PATH_EX)
    upload_info_ex verified_ex None (λ _, SIG_EX) HASH_EX (HASH_EX +:+ ".narinfo") "x.nar.zst"
    (global_settings cache_server_ex) ∅ (λ k, "https://s3/" +:+ k)) as [Hinfo Hnar];
    try (vm_compute; reflexivity); try reflexivity.
  - intros path r Hr. vm_compute in Hr. discriminate Hr.
  - intros data. split; [vm_compute; reflexivity|]. intros key [= <-].
    exists {| sg_name := "k"; sg_bytes := replicate 64 0 |}. split; vm_compute; reflexivity.
  - intros p Hp. discriminate Hp.
  - split; [|exact Hnar]. rewrite Hinfo. vm_compute. reflexivity.
Defined.

(** The same server asked after the upload. *)
Lemma serves_only_ours_witness :
  ∃ v, v ∈ [world uploaded_ex] ∧
       narinfo_ours cache_server_ex v Global HASH_EX served_text_ex.
Proof.
  refine (proj2 (proj2 (proj1 (serves_only_ours cache_server_ex [] ∅
    (global_settings cache_server_ex) HASH_EX None (world uploaded_ex) _ _) served_text_ex
    {[ "global:" +:+ HASH_EX := served_text_ex ]} (world uploaded_ex) _))).
  - apply serving_start.
  - vm_compute. reflexivity.
Defined.

Lemma narinfo_lines_exact_witness :
  split_by lf served_text_ex =
  (line_of <$> narinfo_fields PATH_EX (narinfo_row upload_info_ex verified_ex)) ++ [""].
Proof.
  apply (narinfo_lines_exact PATH_EX (narinfo_row upload_info_ex verified_ex)).
  repeat constructor.
Defined.

(** A second signature, of the agent's choice. *)
Lemma narinfo_line_injected_witness :
  "Sig: evil" ∈ split_by lf
    (render_narinfo_row PATH_EX
       (narinfo_row (with_ca ("text:x" +:+ String NL "Sig: evil") upload_info_ex) verified_ex)).
Proof.
  refine (proj2 (proj2 (proj2 (narinfo_line_injected upload_info_ex verified_ex
    {| eu_nar_hash := "sha256:0"; eu_nar_size := 3; eu_compression := "zstd";
       eu_nar_path := "nar/x.nar.zst" |} "Sig: evil" _ _ _)))); vm_compute; reflexivity.
Defined.
