(* ===== verification/Projects.v ===== *)
(** * Projects, webhook configurations and channels

    [common/src/repo/projects.rs], [repo/webhook_configs.rs] and [repo/channels.rs] with
    their statements, the statements on jobsets and inputs only the server uses
    ([repo/jobsets.rs], [repo/jobset_inputs.rs]), and what the foreign keys of the schema
    ([migrations/0001_tables.sql] and later) take along when a project or a jobset goes.
    Ids the database or the random generator draws are arguments. *)

From S2P Require Import Prelude Types Float32 Base32 Codecs StorePath Db Builds Evaluations NixJobs FlakeRefs Validate JobsetConfig Secrets.

(** ** Validation ([common/src/validate.rs]) *)

Record CreateProject := {
  cp_name : string;
  cp_description : option string;
  cp_repository_url : string;
  cp_cache_enabled : bool;
  cp_cache_url : option string;
  cp_cache_upstreams : list (string * option string);
}.

Record UpdateProject := {
  up_name : option string;
  up_description : option string;
  up_repository_url : option string;
  up_cache_enabled : option bool;
  up_cache_url : option string;
  up_cache_upstreams : option (list (string * option string));
}.

Definition validate_description (desc : string) : result string () :=
  if 4096 <? str_len desc then Err "description must be at most 4096 characters" else Ok ().

Definition validate_binary_cache_upstream (upstream : string * option string) (field : string) :
    result string () :=
  let? _ := validate_cache_url upstream.1 (field +:+ ".url") in
  match upstream.2 with
  | Some key => if is_empty (trim key) then Err (field +:+ ".public_key cannot be empty") else Ok ()
  | None => Ok ()
  end.

Fixpoint validate_upstreams (l : list (string * option string)) : result string () :=
  match l with
  | [] => Ok ()
  | u :: l => let? _ := validate_binary_cache_upstream u "cache_upstreams" in validate_upstreams l
  end.

(** The lower-case host of a URL the [url] crate can parse. *)
Class UrlHost := url_host : string → option string.

Definition validate_create_project `{UrlHost} (p : CreateProject) : result string () :=
  let? _ := validate_name (cp_name p) "name" in
  let? _ := validate_repository_url url_host (cp_repository_url p) in
  let? _ := on_some validate_description (cp_description p) in
  let? _ := on_some (λ u, validate_cache_url u "cache_url") (cp_cache_url p) in
  validate_upstreams (cp_cache_upstreams p).

Definition validate_update_project `{UrlHost} (p : UpdateProject) : result string () :=
  let? _ := on_some (λ n, validate_name n "name") (up_name p) in
  let? _ := on_some (validate_repository_url url_host) (up_repository_url p) in
  let? _ := on_some validate_description (up_description p) in
  let? _ := on_some (λ u, validate_cache_url u "cache_url") (up_cache_url p) in
  on_some validate_upstreams (up_cache_upstreams p).

(** ** Deletion

    [ON DELETE CASCADE] from projects and jobsets down; [ON DELETE SET NULL] of narinfos and
    superseded evaluations; a channel that stays must not point at an evaluation that goes. *)

Definition gone_of {A} (p : A → bool) (t : gmap Z A) : gset Z :=
  dom (filter (λ kv, p kv.2 = true) t).

(** [WHERE id = :id]. *)
Definition gone_id {A} (id : Uuid) (t : gmap Z A) : gset Z :=
  if is_some (t !! id) then {[id]} else ∅.

Definition evaluations_of (js : gset Z) (w : World) : gset Z :=
  gone_of (λ e, bool_decide (e_jobset_id e ∈ js)) (w_evaluations w).

Definition builds_of (es : gset Z) (w : World) : gset Z :=
  gone_of (λ b, bool_decide (b_evaluation_id b ∈ es)) (w_builds w).

Definition set_superseded_by (v : option Uuid) (r : Evaluation) : Evaluation :=
  {| e_id := e_id r; e_jobset_id := e_jobset_id r; e_commit_hash := e_commit_hash r;
     e_evaluation_time := e_evaluation_time r; e_status := e_status r;
     e_error_message := e_error_message r; e_inputs_hash := e_inputs_hash r;
     e_trigger_kind := e_trigger_kind r; e_hidden := e_hidden r; e_pr_number := e_pr_number r;
     e_pr_head_branch := e_pr_head_branch r; e_pr_base_branch := e_pr_base_branch r;
     e_pr_action := e_pr_action r; e_source_scope := e_source_scope r; e_superseded_by := v;
     e_source_base_commit := e_source_base_commit r; e_started_at := e_started_at r;
     e_orphaned_count := e_orphaned_count r |}.

(** What the deletion of builds leaves: as [BuildSql.delete_for_evaluation], for a set. *)
Definition without_builds (bs : gset Z) (w : World) : World :=
  set_w_builds (filter (λ kb, kb.1 ∉ bs) (w_builds w))
    (set_w_deps (List.filter (λ d, negb (bool_decide (d.1 ∈ bs) || bool_decide (d.2 ∈ bs)))
                   (w_deps w))
      (set_w_outputs (filter (λ kv, kv.1.1 ∉ bs) (w_outputs w))
        (set_w_narinfos (BuildSql.forget_builds_row bs <$> w_narinfos w)
          (set_w_narinfo_projects (BuildSql.forget_builds bs <$> w_narinfo_projects w) w)))).

Definition without_jobsets (js : gset Z) (w : World) : World :=
  let es := evaluations_of js w in
  let w := without_builds (builds_of es w) w in
  set_w_jobsets (filter (λ kj, kj.1 ∉ js) (w_jobsets w))
    (set_w_evaluations
       ((λ e, set_superseded_by (BuildSql.forget_builds es (e_superseded_by e)) e) <$>
          filter (λ ke, ke.1 ∉ es) (w_evaluations w))
      (set_w_source_heads (filter (λ kv, kv.1.1 ∉ js) (w_source_heads w))
        (set_w_inputs (filter (λ kv, kv.1.1 ∉ js) (w_inputs w))
          (set_w_channels (filter (λ kc, ch_jobset_id kc.2 ∉ js) (w_channels w)) w)))).

Definition forget_project (ps : gset Z) (r : NarInfo) : NarInfo :=
  {| nr_info := nr_info r; nr_build_id := nr_build_id r;
     nr_project_id := BuildSql.forget_builds ps (nr_project_id r);
     nr_created_at := nr_created_at r; nr_updated_at := nr_updated_at r;
     nr_last_fetched_at := nr_last_fetched_at r |}.

Definition without_projects (ps : gset Z) (w : World) : World :=
  let w := without_jobsets (gone_of (λ j, bool_decide (j_project_id j ∈ ps)) (w_jobsets w)) w in
  set_w_projects (filter (λ kp, kp.1 ∉ ps) (w_projects w))
    (set_w_webhook_configs (filter (λ kc, wc_project_id kc.2 ∉ ps) (w_webhook_configs w))
      (set_w_notification_configs (filter (λ kv, kv.1.1 ∉ ps) (w_notification_configs w))
        (set_w_channels (filter (λ kc, ch_project_id kc.2 ∉ ps) (w_channels w))
          (set_w_project_members (filter (λ km, pm_project_id km.2 ∉ ps) (w_project_members w))
            (set_w_narinfos (forget_project ps <$> w_narinfos w)
              (set_w_narinfo_projects (filter (λ ko, ko.1.2 ∉ ps) (w_narinfo_projects w)) w)))))).

(** A channel of [w] points at an evaluation [w] does not have. *)
Definition dangling (w : World) : bool :=
  existsb (λ c, match ch_current_evaluation_id c with
                | Some e => is_none (w_evaluations w !! e)
                | None => false
                end) (rows (w_channels w)).

(** The statement, with the rows it counts. *)
Definition delete_checked (n : Z) (w' w : World) : result CiError Z * World :=
  if dangling w' then (Err (Database "foreign key violation"), w) else (Ok n, w').

Definition zsize (s : gset Z) : Z := Z.of_nat (size s).

(** ** [repo/projects.rs] *)

Module projects.

Definition new_project (id : Uuid) (now : DateTime) (i : CreateProject) (managed : bool)
    (allow : option bool) : Project :=
  {| p_id := id; p_name := cp_name i; p_description := cp_description i;
     p_repository_url := cp_repository_url i; p_cache_enabled := cp_cache_enabled i;
     p_cache_url := cp_cache_url i; p_cache_upstreams := cp_cache_upstreams i;
     p_managed_declaratively := managed; p_allow_runtime_mutation := allow;
     p_created_at := now; p_updated_at := now |}.

(** [ON CONFLICT (name) DO UPDATE]: the columns of [new], with the trigger on [updated_at]. *)
Definition reupserted (now : DateTime) (old new : Project) (managed : bool) (allow : option bool) :
    Project :=
  {| p_id := p_id old; p_name := p_name old; p_description := p_description new;
     p_repository_url := p_repository_url new; p_cache_enabled := p_cache_enabled new;
     p_cache_url := p_cache_url new; p_cache_upstreams := p_cache_upstreams new;
     p_managed_declaratively := managed; p_allow_runtime_mutation := allow;
     p_created_at := p_created_at old; p_updated_at := now |}.

(** [UNIQUE (name)]. *)
Definition find_name (name : string) (w : World) : option Project :=
  List.find (λ p, bool_decide (p_name p = name)) (rows (w_projects w)).

Definition put (p : Project) (w : World) : World :=
  set_w_projects (<[p_id p := p]> (w_projects w)) w.

Section statements.
Context `{UrlHost}.

Definition create (id : Uuid) (input : CreateProject) : M Project :=
  validation (validate_create_project input) ;;!
  query (λ w,
    match find_name (cp_name input) w with
    | Some _ => (Err (Conflict ("Project '" +:+ cp_name input +:+ "' already exists")), w)
    | None => let p := new_project id (w_now w) input false None in (Ok p, put p w)
    end).

Definition get (id : Uuid) : M Project :=
  or_not_found ("Project " +:+ pretty id +:+ " not found") (read (λ w, w_projects w !! id)).

Definition get_by_name (name : string) : M Project :=
  or_not_found ("Project '" +:+ name +:+ "' not found") (read (find_name name)).

Definition updated (now : DateTime) (i : UpdateProject) (p : Project) : Project :=
  {| p_id := p_id p; p_name := default (p_name p) (up_name i);
     p_description := or_else (up_description i) (p_description p);
     p_repository_url := default (p_repository_url p) (up_repository_url i);
     p_cache_enabled := default (p_cache_enabled p) (up_cache_enabled i);
     p_cache_url := or_else (up_cache_url i) (p_cache_url p);
     p_cache_upstreams := default (p_cache_upstreams p) (up_cache_upstreams i);
     p_managed_declaratively := p_managed_declaratively p;
     p_allow_runtime_mutation := p_allow_runtime_mutation p;
     p_created_at := p_created_at p; p_updated_at := now |}.

(** The [UPDATE] writes what was computed from the row read before; the two columns it does
    not name are those of the row it finds. *)
Definition update (id : Uuid) (input : UpdateProject) : M Project :=
  validation (validate_update_project input) ;;!
  let! existing := get id in
  let name := default (p_name existing) (up_name input) in
  query (λ w,
    match w_projects w !! id with
    | None => (Err (Database "no rows"), w)
    | Some p =>
        if existsb (λ o, bool_decide (p_name o = name) && negb (p_id o =? id)) (rows (w_projects w))
        then (Err (Conflict ("Project '" +:+ name +:+ "' already exists")), w)
        else
          let next := updated (w_now w) input existing in
          let p' := {| p_id := p_id p; p_name := p_name next; p_description := p_description next;
                       p_repository_url := p_repository_url next;
                       p_cache_enabled := p_cache_enabled next; p_cache_url := p_cache_url next;
                       p_cache_upstreams := p_cache_upstreams next;
                       p_managed_declaratively := p_managed_declaratively p;
                       p_allow_runtime_mutation := p_allow_runtime_mutation p;
                       p_created_at := p_created_at p; p_updated_at := w_now w |} in
          (Ok p', set_w_projects (<[id := p']> (w_projects w)) w)
    end).

(** The two upserts; [declared] is the policy of a declared project. *)
Definition upsert_with (declared : option (option bool)) (id : Uuid) (input : CreateProject) :
    M Project :=
  validation (validate_create_project input) ;;!
  query (λ w,
    let managed := is_some declared in
    let new := new_project id (w_now w) input managed (mjoin declared) in
    let p := match find_name (cp_name input) w with
             | Some old =>
                 reupserted (w_now w) old new (managed || p_managed_declaratively old)
                   (if managed then mjoin declared else p_allow_runtime_mutation old)
             | None => new
             end in
    (Ok p, put p w)).

Definition upsert (id : Uuid) (input : CreateProject) : M Project := upsert_with None id input.

Definition upsert_declarative (id : Uuid) (input : CreateProject) (allow : option bool) : M Project :=
  upsert_with (Some allow) id input.

Definition undeclared (allow_default : bool) (names : list string) (p : Project) : bool :=
  p_managed_declaratively p && negb (default allow_default (p_allow_runtime_mutation p)) &&
  negb (bool_decide (p_name p ∈ names)).

Definition delete_declarative_except (names : list string) (allow_default : bool) : M Z :=
  query (λ w,
    let gone := gone_of (undeclared allow_default names) (w_projects w) in
    delete_checked (zsize gone) (without_projects gone w) w).

Definition delete (id : Uuid) : M () :=
  let! affected := query (λ w,
    let gone := gone_id id (w_projects w) in
    delete_checked (zsize gone) (without_projects gone w) w) in
  if affected =? 0 then mfail (NotFound ("Project " +:+ pretty id +:+ " not found")) else mret ().
End statements.
End projects.

(** ** Jobsets and inputs, the rest *)

Definition delete_jobset (id : Uuid) : M () :=
  let! affected := query (λ w,
    let gone := gone_id id (w_jobsets w) in
    delete_checked (zsize gone) (without_jobsets gone w) w) in
  if affected =? 0 then mfail (NotFound ("Jobset " +:+ pretty id +:+ " not found")) else mret ().

Definition delete_jobsets_except (project : Uuid) (names : list string) : M Z :=
  query (λ w,
    let gone := gone_of (λ j, (j_project_id j =? project) && negb (bool_decide (j_name j ∈ names)))
                  (w_jobsets w) in
    delete_checked (zsize gone) (without_jobsets gone w) w).

Definition create_input (id jobset : Uuid) (d : DeclarativeJobsetInput) : M JobsetInput :=
  validation (validate_jobset_input (dji_name d) (dji_input_type d) (dji_value d)
                (dji_revision d)) ;;!
  query (λ w,
    match w_inputs w !! (jobset, dji_name d), w_jobsets w !! jobset with
    | Some _, _ => (Err (Conflict ("Input '" +:+ dji_name d +:+ "' already exists in this jobset")), w)
    | None, None => (Err (Database "foreign key violation"), w)
    | None, Some _ =>
        let i := new_input id (w_now w) jobset d in
        (Ok i, set_w_inputs (<[(jobset, dji_name d) := i]> (w_inputs w)) w)
    end).

Definition delete_inputs (p : (Uuid * string) * JobsetInput → bool) (id : Uuid) : M () :=
  let! affected := query (λ w,
    (Ok (Z.of_nat (size (filter (λ kv, p kv = true) (w_inputs w)))),
     set_w_inputs (filter (λ kv, p kv = false) (w_inputs w)) w)) in
  if affected =? 0 then mfail (NotFound ("Jobset input " +:+ pretty id +:+ " not found"))
  else mret ().

Definition delete_input (id : Uuid) : M () := delete_inputs (λ kv, ji_id kv.2 =? id) id.

Definition delete_input_for_jobset (jobset id : Uuid) : M () :=
  delete_inputs (λ kv, (ji_id kv.2 =? id) && (kv.1.1 =? jobset)) id.

(** ** [repo/webhook_configs.rs] *)

Module webhook_configs.

Record CreateWebhookConfig := {
  cw_project_id : Uuid;
  cw_forge_type : ForgeType.t;
}.

Record DeclarativeWebhook := {
  dw_forge_type : ForgeType.t;
  dw_secret : option string;
  dw_secret_file : option string;
  dw_enabled : bool;
}.

(** [secret_hash VARCHAR(128)]: the texts stored are ASCII. *)
Definition MAX_SECRET_HASH : Z := 128.

Definition too_long (secret : option string) : bool :=
  match secret with Some s => MAX_SECRET_HASH <? str_len s | None => false end.

Definition find (project : Uuid) (forge : ForgeType.t) (w : World) : option WebhookConfig :=
  List.find (λ c, (wc_project_id c =? project) && bool_decide (wc_forge_type c = forge))
    (rows (w_webhook_configs w)).

Definition put (c : WebhookConfig) (w : World) : World :=
  set_w_webhook_configs (<[wc_id c := c]> (w_webhook_configs w)) w.

Section statements.
Context `{Cipher}.

(** [transpose] over [encrypt_webhook_secret]. *)
Definition encrypt_opt (nonce : option (list Z)) (secret : option string) (key : option string) :
    result CiError (option string) :=
  match secret with
  | None => Ok None
  | Some s => let? v := encrypt_secret nonce s key in Ok (Some v)
  end.

(** What the table refuses, whichever statement writes it. *)
Definition refused (project : Uuid) (secret : option string) (w : World) : option CiError :=
  if too_long secret then Some (Database "value too long for type character varying(128)")
  else match w_projects w !! project with
       | None => Some (Database "foreign key violation")
       | Some _ => None
       end.

Definition create (id : Uuid) (nonce : option (list Z)) (input : CreateWebhookConfig)
    (secret : option string) (key : option string) : M WebhookConfig :=
  match encrypt_opt nonce secret key with
  | Err e => mfail e
  | Ok stored =>
      query (λ w,
        if too_long stored then (Err (Database "value too long for type character varying(128)"), w)
        else match find (cw_project_id input) (cw_forge_type input) w with
        | Some _ =>
            (Err (Conflict ("Webhook config for forge '" +:+ ForgeType.as_str (cw_forge_type input) +:+
                            "' already exists for this project")), w)
        | None =>
            match refused (cw_project_id input) stored w with
            | Some e => (Err e, w)
            | None =>
                let c := {| wc_id := id; wc_project_id := cw_project_id input;
                            wc_forge_type := cw_forge_type input; wc_secret_hash := stored;
                            wc_enabled := true; wc_created_at := w_now w |} in
                (Ok c, put c w)
            end
        end)
  end.

Definition get (id : Uuid) : M WebhookConfig :=
  or_not_found ("Webhook config " +:+ pretty id +:+ " not found")
    (read (λ w, w_webhook_configs w !! id)).

Definition with_secret (v : option string) (c : WebhookConfig) : WebhookConfig :=
  {| wc_id := wc_id c; wc_project_id := wc_project_id c; wc_forge_type := wc_forge_type c;
     wc_secret_hash := v; wc_enabled := wc_enabled c; wc_created_at := wc_created_at c |}.

Definition get_by_project_and_forge (project : Uuid) (forge : ForgeType.t) (key : option string) :
    M (option WebhookConfig) :=
  let! o := read (λ w, let* c := find project forge w in if wc_enabled c then Some c else None) in
  match o with
  | None => mret None
  | Some c =>
      match wc_secret_hash c with
      | None => mret (Some c)
      | Some stored =>
          match decrypt_secret stored key with
          | Ok s => mret (Some (with_secret (Some s) c))
          | Err e => mfail e
          end
      end
  end.

Definition delete (id : Uuid) : M () :=
  let! affected := query (λ w,
    (Ok (if is_some (w_webhook_configs w !! id) then 1 else 0),
     set_w_webhook_configs (base.delete id (w_webhook_configs w)) w)) in
  if affected =? 0 then mfail (NotFound ("Webhook config " +:+ pretty id +:+ " not found"))
  else mret ().

(** A secret that is not given keeps the one that is stored. *)
Definition upsert (id : Uuid) (nonce : option (list Z)) (project : Uuid) (forge : ForgeType.t)
    (secret : option string) (enabled : bool) (key : option string) : M WebhookConfig :=
  match encrypt_opt nonce secret key with
  | Err e => mfail e
  | Ok stored =>
      query (λ w,
        match refused project stored w with
        | Some e => (Err e, w)
        | None =>
            let c := match find project forge w with
                     | Some old =>
                         {| wc_id := wc_id old; wc_project_id := project; wc_forge_type := forge;
                            wc_secret_hash := or_else stored (wc_secret_hash old);
                            wc_enabled := enabled; wc_created_at := wc_created_at old |}
                     | None =>
                         {| wc_id := id; wc_project_id := project; wc_forge_type := forge;
                            wc_secret_hash := stored; wc_enabled := enabled;
                            wc_created_at := w_now w |}
                     end in
            (Ok c, put c w)
        end)
  end.

Definition sync_for_project_delete (project : Uuid) (forges : list ForgeType.t) : M () :=
  query (λ w, (Ok (), set_w_webhook_configs
    (filter (λ kc, ¬ (wc_project_id kc.2 = project ∧ wc_forge_type kc.2 ∉ forges))
       (w_webhook_configs w)) w)).

(** Ids and nonces by forge. *)
Fixpoint upsert_all (new_id : ForgeType.t → Uuid) (nonce : ForgeType.t → option (list Z))
    (project : Uuid) (resolve : DeclarativeWebhook → option string) (key : option string)
    (l : list DeclarativeWebhook) : M () :=
  match l with
  | [] => mret ()
  | wh :: l =>
      upsert (new_id (dw_forge_type wh)) (nonce (dw_forge_type wh)) project (dw_forge_type wh)
        (resolve wh) (dw_enabled wh) key ;;!
      upsert_all new_id nonce project resolve key l
  end.

Definition sync_for_project (new_id : ForgeType.t → Uuid) (nonce : ForgeType.t → option (list Z))
    (project : Uuid) (l : list DeclarativeWebhook) (resolve : DeclarativeWebhook → option string)
    (key : option string) : M () :=
  sync_for_project_delete project (dw_forge_type <$> l) ;;!
  upsert_all new_id nonce project resolve key l.
End statements.
End webhook_configs.

(** ** [repo/channels.rs] *)

Module channels.

Record CreateChannel := {
  cc_project_id : Uuid;
  cc_name : string;
  cc_jobset_id : Uuid;
}.

Record DeclarativeChannel := { dc_name : string; dc_jobset_name : string }.

Definition validate_create_channel (i : CreateChannel) : result string () :=
  validate_name (cc_name i) "name".

Definition find (project : Uuid) (name : string) (w : World) : option Channel :=
  List.find (λ c, (ch_project_id c =? project) && bool_decide (ch_name c = name))
    (rows (w_channels w)).

Definition put (c : Channel) (w : World) : World :=
  set_w_channels (<[ch_id c := c]> (w_channels w)) w.

Definition new_channel (id : Uuid) (now : DateTime) (project : Uuid) (name : string) (jobset : Uuid) :
    Channel :=
  {| ch_id := id; ch_project_id := project; ch_name := name; ch_jobset_id := jobset;
     ch_current_evaluation_id := None; ch_created_at := now; ch_updated_at := now |}.

(** Both foreign keys hold. *)
Definition has_owners (project jobset : Uuid) (w : World) : bool :=
  is_some (w_projects w !! project) && is_some (w_jobsets w !! jobset).

Definition create (id : Uuid) (input : CreateChannel) : M Channel :=
  query (λ w,
    if is_some (find (cc_project_id input) (cc_name input) w)
    then (Err (Conflict ("Channel '" +:+ cc_name input +:+ "' already exists for this project")), w)
    else if negb (has_owners (cc_project_id input) (cc_jobset_id input) w)
    then (Err (Database "foreign key violation"), w)
    else let c := new_channel id (w_now w) (cc_project_id input) (cc_name input)
                    (cc_jobset_id input) in
         (Ok c, put c w)).

Definition get (id : Uuid) : M Channel :=
  or_not_found ("Channel " +:+ pretty id +:+ " not found") (read (λ w, w_channels w !! id)).

(** [ORDER BY created_at DESC, id DESC LIMIT 1]. *)
Definition get_by_name (name : string) : M Channel :=
  or_not_found ("Channel '" +:+ name +:+ "' not found")
    (read (λ w, head (sort_by (λ a b, then_with (Z.compare (ch_created_at b) (ch_created_at a))
                                        (Z.compare (ch_id b) (ch_id a)))
                        (List.filter (λ c, bool_decide (ch_name c = name))
                           (rows (w_channels w)))))).

Definition promoted (now : DateTime) (e : Uuid) (c : Channel) : Channel :=
  {| ch_id := ch_id c; ch_project_id := ch_project_id c; ch_name := ch_name c;
     ch_jobset_id := ch_jobset_id c; ch_current_evaluation_id := Some e;
     ch_created_at := ch_created_at c; ch_updated_at := now |}.

Definition promote (channel evaluation : Uuid) : M Channel :=
  let! o := query (λ w,
    match w_channels w !! channel with
    | None => (Ok None, w)
    | Some c =>
        match w_evaluations w !! evaluation with
        | None => (Err (Database "foreign key violation"), w)
        | Some _ =>
            let c' := promoted (w_now w) evaluation c in
            (Ok (Some c'), set_w_channels (<[channel := c']> (w_channels w)) w)
        end
    end) in
  match o with
  | Some c => mret c
  | None => mfail (NotFound ("Channel " +:+ pretty channel +:+ " not found"))
  end.

Definition delete (id : Uuid) : M () :=
  let! affected := query (λ w,
    (Ok (if is_some (w_channels w !! id) then 1 else 0),
     set_w_channels (base.delete id (w_channels w)) w)) in
  if affected =? 0 then mfail (NotFound ("Channel " +:+ pretty id +:+ " not found")) else mret ().

(** The current evaluation stays. *)
Definition upsert (id project : Uuid) (name : string) (jobset : Uuid) : M Channel :=
  query (λ w,
    if negb (has_owners project jobset w) then (Err (Database "foreign key violation"), w)
    else
      let c := match find project name w with
               | Some old =>
                   {| ch_id := ch_id old; ch_project_id := project; ch_name := name;
                      ch_jobset_id := jobset;
                      ch_current_evaluation_id := ch_current_evaluation_id old;
                      ch_created_at := ch_created_at old; ch_updated_at := ch_updated_at old |}
               | None => new_channel id (w_now w) project name jobset
               end in
      (Ok c, put c w)).

Definition sync_for_project_delete (project : Uuid) (names : list string) : M () :=
  query (λ w, (Ok (), set_w_channels
    (filter (λ kc, ¬ (ch_project_id kc.2 = project ∧ ch_name kc.2 ∉ names)) (w_channels w)) w)).

Fixpoint upsert_all (new_id : string → Uuid) (project : Uuid) (resolve : string → option Uuid)
    (l : list DeclarativeChannel) : M () :=
  match l with
  | [] => mret ()
  | c :: l =>
      match resolve (dc_jobset_name c) with
      | Some jobset => upsert (new_id (dc_name c)) project (dc_name c) jobset ;;! mret ()
      | None => mret ()
      end ;;!
      upsert_all new_id project resolve l
  end.

Definition sync_for_project (new_id : string → Uuid) (project : Uuid) (l : list DeclarativeChannel)
    (resolve : string → option Uuid) : M () :=
  sync_for_project_delete project (dc_name <$> l) ;;! upsert_all new_id project resolve l.

(** *** Promotion of a finished evaluation *)

Definition evaluation_builds (evaluation : Uuid) (w : World) : list Build :=
  List.filter (λ b, b_evaluation_id b =? evaluation) (rows (w_builds w)).

(** [COUNT( * )] and [COUNT( * ) FILTER (WHERE status = 'succeeded')]. *)
Definition auto_promote_count (evaluation : Uuid) : M (Z * Z) :=
  read (λ w, let l := evaluation_builds evaluation w in
             (zlen l, zlen (List.filter (Sql.has_status Succeeded) l))).

Definition auto_promote_channels (jobset : Uuid) : M (list Channel) :=
  read (λ w, List.filter (λ c, ch_jobset_id c =? jobset) (rows (w_channels w))).

(** A failed promotion is logged. *)
Fixpoint promote_all (l : list Channel) (evaluation : Uuid) : M () :=
  match l with
  | [] => mret ()
  | c :: l => let! _ := mtry (promote (ch_id c) evaluation) in promote_all l evaluation
  end.

Definition auto_promote_if_complete (jobset evaluation : Uuid) : M () :=
  let! (total, completed) := auto_promote_count evaluation in
  if (total =? 0) || negb (total =? completed) then mret ()
  else let! l := auto_promote_channels jobset in promote_all l evaluation.
End channels.
