(* ===== verification/ProjectApi.v ===== *)
(** * The API of projects, jobsets, builds, evaluations and channels

    The handlers of [crates/server/src/routes/]{[projects], [jobsets], [builds],
    [evaluations], [channels]}[.rs] that change something, with their permissions and the
    gate of declarative projects ([routes/declarative.rs]), and the comparison of two
    evaluations.  The audit records are not kept; probing a repository runs Nix. *)

From S2P Require Import Prelude Types Float32 Base32 Codecs StorePath Db Frames Builds Evaluations NixJobs FlakeRefs Validate JobsetConfig Secrets Users Auth Projects.

Record ApiConfig := {
  ac_allowed_url_schemes : list string;
  ac_allow_runtime_mutation : bool;
  ac_webhook_key : option string;
}.

(** ** Bodies and answers *)

Record CreateJobsetBody := {
  jb_name : string;
  jb_nix_expression : string;
  jb_enabled : option bool;
  jb_flake_mode : option bool;
  jb_check_interval : option Z;
  jb_trigger_mode : option JobsetTriggerMode.t;
  jb_branch : option string;
  jb_branch_pattern : option string;
  jb_tag_pattern : option string;
  jb_scheduling_shares : option Z;
  jb_state : option JobsetState.t;
  jb_systems : option (list string);
  jb_only_build_latest : option bool;
  jb_path_filters : option (list string);
}.

Record SetupJobsetInput := {
  sj_name : string;
  sj_nix_expression : string;
  sj_systems : option (list string);
}.

Record SetupProjectRequest := {
  sp_repository_url : string;
  sp_name : string;
  sp_description : option string;
  sp_jobsets : list SetupJobsetInput;
}.

(** Without the secret. *)
Record WebhookConfigResponse := {
  wr_id : Uuid;
  wr_project_id : Uuid;
  wr_forge_type : string;
  wr_enabled : bool;
  wr_created_at : DateTime;
}.

Definition webhook_response (c : WebhookConfig) : WebhookConfigResponse :=
  {| wr_id := wc_id c; wr_project_id := wc_project_id c;
     wr_forge_type := ForgeType.as_str (wc_forge_type c); wr_enabled := wc_enabled c;
     wr_created_at := wc_created_at c |}.

Inductive Answer :=
  | AProject (p : Project)
  | AJobset (j : Jobset)
  | AInput (i : JobsetInput)
  | ABuild (b : Build)
  | ABuilds (l : list Build)
  | AEvaluation (e : Evaluation)
  | AWebhook (c : WebhookConfigResponse)
  | AChannel (c : Channel)
  | ASetup (p : Project) (l : list Jobset)
  | ADeleted.

(** ** Gates *)

(** The extractor [RequireAdmin]. *)
Definition as_admin (ex : Extensions) (m : M Answer) : M (reply Answer) :=
  match require_admin ex with Err s => mret (Refused s) | Ok _ => api m end.

(** [permissions::require_api] at the start of a handler. *)
Definition with_permission (ex : Extensions) (p : Permission) (m : M Answer) : M (reply Answer) :=
  api (lift (require_api ex p) ;;! m).

Section handlers.
Context `{UrlHost, Cipher}.
Variable cf : ApiConfig.

Definition project_is_mutable (p : Project) : bool :=
  negb (p_managed_declaratively p) ||
  default (ac_allow_runtime_mutation cf) (p_allow_runtime_mutation p).

Definition require_project_mutable (id : Uuid) : M Project :=
  let! p := projects.get id in
  if negb (project_is_mutable p)
  then mfail (Conflict "Project is managed by declarative configuration")
  else mret p.

Definition require_jobset_mutable (id : Uuid) : M Jobset :=
  let! j := jobsets.get id in
  require_project_mutable (j_project_id j) ;;! mret j.

(** ** [routes/projects.rs] *)

Definition create_project (ex : Extensions) (id : Uuid) (input : CreateProject) : M (reply Answer) :=
  with_permission ex PCreateProjects
    (validation (validate_create_project input) ;;!
     validation (validate_url_scheme (cp_repository_url input) (ac_allowed_url_schemes cf)) ;;!
     let! p := projects.create id input in mret (AProject p)).

Definition update_project (ex : Extensions) (id : Uuid) (input : UpdateProject) : M (reply Answer) :=
  as_admin ex
    (require_project_mutable id ;;!
     validation (validate_update_project input) ;;!
     validation (on_some (λ url, validate_url_scheme url (ac_allowed_url_schemes cf))
                   (up_repository_url input)) ;;!
     let! p := projects.update id input in mret (AProject p)).

Definition delete_project (ex : Extensions) (id : Uuid) : M (reply Answer) :=
  as_admin ex (require_project_mutable id ;;! projects.delete id ;;! mret ADeleted).

Definition jobset_of_body (project_id : Uuid) (b : CreateJobsetBody) : CreateJobset :=
  {| cj_project_id := project_id; cj_name := jb_name b; cj_nix_expression := jb_nix_expression b;
     cj_enabled := jb_enabled b; cj_flake_mode := jb_flake_mode b;
     cj_check_interval := jb_check_interval b; cj_trigger_mode := jb_trigger_mode b;
     cj_branch := jb_branch b; cj_branch_pattern := jb_branch_pattern b;
     cj_tag_pattern := jb_tag_pattern b; cj_scheduling_shares := jb_scheduling_shares b;
     cj_state := jb_state b; cj_keep_nr := None; cj_systems := jb_systems b;
     cj_only_build_latest := jb_only_build_latest b; cj_path_filters := jb_path_filters b |}.

Definition create_project_jobset (ex : Extensions) (id project_id : Uuid) (b : CreateJobsetBody) :
    M (reply Answer) :=
  with_permission ex PCreateProjects
    (require_project_mutable project_id ;;!
     let input := jobset_of_body project_id b in
     validation (validate_create_jobset input) ;;!
     let! j := create_jobset id input in mret (AJobset j)).

Definition setup_input (project_id : Uuid) (i : SetupJobsetInput) : CreateJobset :=
  {| cj_project_id := project_id; cj_name := sj_name i; cj_nix_expression := sj_nix_expression i;
     cj_enabled := Some true; cj_flake_mode := Some true; cj_check_interval := None;
     cj_trigger_mode := None; cj_branch := None; cj_branch_pattern := None; cj_tag_pattern := None;
     cj_scheduling_shares := None; cj_state := None; cj_keep_nr := None; cj_systems := sj_systems i;
     cj_only_build_latest := None; cj_path_filters := None |}.

(** Ids by name. *)
Fixpoint setup_jobsets (new_id : string → Uuid) (project_id : Uuid) (l : list SetupJobsetInput) :
    M (list Jobset) :=
  match l with
  | [] => mret []
  | i :: l =>
      let input := setup_input project_id i in
      validation (validate_create_jobset input) ;;!
      let! j := create_jobset (new_id (sj_name i)) input in
      let! js := setup_jobsets new_id project_id l in mret (j :: js)
  end.

Definition setup_create (body : SetupProjectRequest) : CreateProject :=
  {| cp_name := sp_name body; cp_description := sp_description body;
     cp_repository_url := sp_repository_url body; cp_cache_enabled := true; cp_cache_url := None;
     cp_cache_upstreams := [] |}.

(** No transaction: each statement on its own. *)
Definition setup_project (ex : Extensions) (id : Uuid) (new_id : string → Uuid)
    (body : SetupProjectRequest) : M (reply Answer) :=
  with_permission ex PCreateProjects
    (let input := setup_create body in
     validation (validate_create_project input) ;;!
     validation (validate_url_scheme (cp_repository_url input) (ac_allowed_url_schemes cf)) ;;!
     let! p := projects.create id input in
     let! js := setup_jobsets new_id (p_id p) (sp_jobsets body) in
     mret (ASetup p js)).

Definition create_project_webhook (ex : Extensions) (id : Uuid) (nonce : option (list Z))
    (project_id : Uuid) (forge : ForgeType.t) (secret : string) : M (reply Answer) :=
  with_permission ex PCreateProjects
    (require_project_mutable project_id ;;!
     if is_empty (trim secret) then mfail (Validation "Webhook secret is required")
     else
       let input := {| webhook_configs.cw_project_id := project_id;
                       webhook_configs.cw_forge_type := forge |} in
       let! c := webhook_configs.create id nonce input (Some secret) (ac_webhook_key cf) in
       mret (AWebhook (webhook_response c))).

Definition delete_project_webhook (ex : Extensions) (project_id id : Uuid) : M (reply Answer) :=
  as_admin ex
    (let! c := webhook_configs.get id in
     if negb (wc_project_id c =? project_id)
     then mfail (NotFound "Webhook not found for this project")
     else require_project_mutable project_id ;;! webhook_configs.delete id ;;! mret ADeleted).

(** ** [routes/jobsets.rs]: the project of the path is not looked at *)

Definition update_jobset_route (ex : Extensions) (id : Uuid) (input : UpdateJobset) : M (reply Answer) :=
  as_admin ex
    (require_jobset_mutable id ;;!
     validation (validate_update_jobset input) ;;!
     let! j := update_jobset id input in mret (AJobset j)).

Definition delete_jobset_route (ex : Extensions) (id : Uuid) : M (reply Answer) :=
  as_admin ex (require_jobset_mutable id ;;! delete_jobset id ;;! mret ADeleted).

Definition create_jobset_input (ex : Extensions) (id jobset : Uuid) (d : DeclarativeJobsetInput) :
    M (reply Answer) :=
  as_admin ex
    (require_jobset_mutable jobset ;;! let! i := create_input id jobset d in mret (AInput i)).

Definition delete_jobset_input (ex : Extensions) (jobset id : Uuid) : M (reply Answer) :=
  as_admin ex (require_jobset_mutable jobset ;;! delete_input_for_jobset jobset id ;;! mret ADeleted).

(** ** [routes/builds.rs] *)

Definition cancel_build (ex : Extensions) (id : Uuid) : M (reply Answer) :=
  with_permission ex PCancelBuild
    (let! l := builds.cancel_cascade id in
     match l with
     | None | Some [] => mfail (NotFound "Build not found or not in a cancellable state")
     | Some l => mret (ABuilds l)
     end).

Definition restart_build (ex : Extensions) (id : Uuid) : M (reply Answer) :=
  with_permission ex PRestartJobs (let! b := builds.restart id in mret (ABuild b)).

Definition bump_build (ex : Extensions) (id : Uuid) : M (reply Answer) :=
  with_permission ex PBumpToFront
    (let! o := builds.bump_priority id 10 in
     match o with
     | Some b => mret (ABuild b)
     | None => mfail (Validation "Build not found or no longer pending")
     end).

Definition set_keep_flag (ex : Extensions) (id : Uuid) (value : bool) : M (reply Answer) :=
  as_admin ex (let! b := builds.set_keep id value in mret (ABuild b)).

(** ** [routes/evaluations.rs] *)

Definition trigger_evaluation (ex : Extensions) (id : Uuid) (input : Evals.CreateEvaluation) :
    M (reply Answer) :=
  with_permission ex PEvalJobset
    (validation (validate_commit_hash (Evals.ce_commit_hash input)) ;;!
     let! j := jobsets.get (Evals.ce_jobset_id input) in
     if negb (bool_decide (j_trigger_mode j = JobsetTriggerMode.SourceChange))
     then mfail (Validation
            "manual evaluation triggers are disabled for interval-mode jobsets")
     else let! e := Evals.create_manual id input in mret (AEvaluation e)).

(** ** [routes/channels.rs] *)

(** The new channel catches up with the jobset, if its last evaluation is complete. *)
Definition create_channel (ex : Extensions) (id : Uuid) (input : channels.CreateChannel) :
    M (reply Answer) :=
  as_admin ex
    (require_project_mutable (channels.cc_project_id input) ;;!
     validation (channels.validate_create_channel input) ;;!
     let jobset := channels.cc_jobset_id input in
     let! c := channels.create id input in
     let! latest := mtry (Evals.get_latest jobset) in
     match latest with
     | Ok (Some e) =>
         if bool_decide (e_status e = EvaluationStatus.Completed)
         then let! _ := mtry (channels.auto_promote_if_complete jobset (e_id e)) in mret ()
         else mret ()
     | _ => mret ()
     end ;;!
     let! c := channels.get (ch_id c) in mret (AChannel c)).

Definition delete_channel (ex : Extensions) (id : Uuid) : M (reply Answer) :=
  as_admin ex
    (let! c := channels.get id in
     require_project_mutable (ch_project_id c) ;;! channels.delete id ;;! mret ADeleted).

Definition promote_channel (ex : Extensions) (channel evaluation : Uuid) : M (reply Answer) :=
  as_admin ex (let! c := channels.promote channel evaluation in mret (AChannel c)).

(** ** The API *)

Inductive Call :=
  | CreateProjectCall (id : Uuid) (input : CreateProject)
  | UpdateProjectCall (id : Uuid) (input : UpdateProject)
  | DeleteProjectCall (id : Uuid)
  | CreateJobsetCall (id project : Uuid) (b : CreateJobsetBody)
  | SetupProjectCall (id : Uuid) (new_id : string → Uuid) (body : SetupProjectRequest)
  | CreateWebhookCall (id : Uuid) (nonce : option (list Z)) (project : Uuid) (forge : ForgeType.t)
      (secret : string)
  | DeleteWebhookCall (project id : Uuid)
  | UpdateJobsetCall (id : Uuid) (input : UpdateJobset)
  | DeleteJobsetCall (id : Uuid)
  | CreateInputCall (id jobset : Uuid) (d : DeclarativeJobsetInput)
  | DeleteInputCall (jobset id : Uuid)
  | CancelBuildCall (id : Uuid)
  | RestartBuildCall (id : Uuid)
  | BumpBuildCall (id : Uuid)
  | KeepBuildCall (id : Uuid) (value : bool)
  | TriggerCall (id : Uuid) (input : Evals.CreateEvaluation)
  | CreateChannelCall (id : Uuid) (input : channels.CreateChannel)
  | DeleteChannelCall (id : Uuid)
  | PromoteChannelCall (channel evaluation : Uuid).

Definition handle (ex : Extensions) (c : Call) : M (reply Answer) :=
  match c with
  | CreateProjectCall id input => create_project ex id input
  | UpdateProjectCall id input => update_project ex id input
  | DeleteProjectCall id => delete_project ex id
  | CreateJobsetCall id project b => create_project_jobset ex id project b
  | SetupProjectCall id new_id body => setup_project ex id new_id body
  | CreateWebhookCall id nonce project forge secret =>
      create_project_webhook ex id nonce project forge secret
  | DeleteWebhookCall project id => delete_project_webhook ex project id
  | UpdateJobsetCall id input => update_jobset_route ex id input
  | DeleteJobsetCall id => delete_jobset_route ex id
  | CreateInputCall id jobset d => create_jobset_input ex id jobset d
  | DeleteInputCall jobset id => delete_jobset_input ex jobset id
  | CancelBuildCall id => cancel_build ex id
  | RestartBuildCall id => restart_build ex id
  | BumpBuildCall id => bump_build ex id
  | KeepBuildCall id value => set_keep_flag ex id value
  | TriggerCall id input => trigger_evaluation ex id input
  | CreateChannelCall id input => create_channel ex id input
  | DeleteChannelCall id => delete_channel ex id
  | PromoteChannelCall channel evaluation => promote_channel ex channel evaluation
  end.
End handlers.

(** ** Comparing evaluations *)

Record JobDiff := {
  jd_job_name : string;
  jd_system : option string;
  jd_drv_path : string;
  jd_status : BuildStatus;
}.

Record JobChange := {
  jc_job_name : string;
  jc_system : option string;
  jc_old_drv : string;
  jc_new_drv : string;
  jc_old_status : BuildStatus;
  jc_new_status : BuildStatus;
}.

Record EvalComparison := {
  cmp_from_id : Uuid;
  cmp_to_id : Uuid;
  cmp_new_jobs : list JobDiff;
  cmp_removed_jobs : list JobDiff;
  cmp_changed_jobs : list JobChange;
  cmp_unchanged_count : Z;
}.

(** Collecting into a [HashMap]: the last build of a name stays.  The order in which a
    [HashMap] is traversed is not specified. *)
Definition by_job_name (l : list Build) : gmap string Build :=
  foldl (λ m b, <[b_job_name b := b]> m) ∅ l.

Definition job_diff (kb : string * Build) : JobDiff :=
  {| jd_job_name := kb.1; jd_system := b_system kb.2; jd_drv_path := b_drv_path kb.2;
     jd_status := b_status kb.2 |}.

Definition job_change (to : gmap string Build) (kb : string * Build) : option JobChange :=
  let* t := to !! kb.1 in
  if bool_decide (b_drv_path kb.2 = b_drv_path t) then None
  else Some {| jc_job_name := kb.1; jc_system := b_system t; jc_old_drv := b_drv_path kb.2;
               jc_new_drv := b_drv_path t; jc_old_status := b_status kb.2;
               jc_new_status := b_status t |}.

Definition unchanged (to : gmap string Build) (kb : string * Build) : bool :=
  match to !! kb.1 with Some t => bool_decide (b_drv_path kb.2 = b_drv_path t) | None => false end.

Definition compare_builds (from_id to_id : Uuid) (from_builds to_builds : list Build) :
    EvalComparison :=
  let from := by_job_name from_builds in
  let to := by_job_name to_builds in
  {| cmp_from_id := from_id; cmp_to_id := to_id;
     cmp_new_jobs := job_diff <$> List.filter (λ kb, is_none (from !! kb.1)) (map_to_list to);
     cmp_removed_jobs := job_diff <$> List.filter (λ kb, is_none (to !! kb.1)) (map_to_list from);
     cmp_changed_jobs := omap (job_change to) (map_to_list from);
     cmp_unchanged_count := zlen (List.filter (unchanged to) (map_to_list from)) |}.

(** [ORDER BY created_at DESC]. *)
Definition list_for_evaluation (id : Uuid) : M (list Build) :=
  read (λ w, sort_by (λ a b, Z.compare (bi_created_at (b_info b)) (bi_created_at (b_info a)))
               (List.filter (λ b, b_evaluation_id b =? id) (rows (w_builds w)))).

Definition compare_evaluations (id to : Uuid) : M EvalComparison :=
  evaluations.get id ;;! evaluations.get to ;;!
  let! from_builds := list_for_evaluation id in
  let! to_builds := list_for_evaluation to in
  mret (compare_builds id to from_builds to_builds).
