(* ===== verification/ProjectAccess.v ===== *)
(** * Who may change projects, and what nobody may

    Guarantees of [ProjectApi]: a call without the permission it needs changes nothing
    ([api_needs_permission]); a project the declarative configuration owns cannot be changed
    through the API at all ([declared_project_untouched]); comparing evaluations
    ([comparison_exact]). *)

From S2P Require Import Prelude Types Float32 Base32 Codecs StorePath Db Frames Builds Evaluations NixJobs FlakeRefs Validate JobsetConfig Secrets Users Auth BuildGraph Projects ProjectApi.

#[local] Set Warnings "-clear-no-such-hyp".

(** ** Permissions *)

(** The permission each call needs. *)
Definition needed (c : Call) : Permission :=
  match c with
  | CreateProjectCall _ _ | CreateJobsetCall _ _ _ | SetupProjectCall _ _ _
  | CreateWebhookCall _ _ _ _ _ => PCreateProjects
  | CancelBuildCall _ => PCancelBuild
  | RestartBuildCall _ => PRestartJobs
  | BumpBuildCall _ => PBumpToFront
  | TriggerCall _ _ => PEvalJobset
  | UpdateProjectCall _ _ | DeleteProjectCall _ | DeleteWebhookCall _ _ | UpdateJobsetCall _ _
  | DeleteJobsetCall _ | CreateInputCall _ _ _ | DeleteInputCall _ _ | KeepBuildCall _ _
  | CreateChannelCall _ _ | DeleteChannelCall _ | PromoteChannelCall _ _ => PAdmin
  end.

(** What one may be by one's credentials: the user of the session, or the key. *)
Definition holds_role (ex : Extensions) (r : GlobalRole.t) : Prop :=
  (∃ u, ex_user ex = Some u ∧ u_role u = r) ∨ (∃ k, ex_api_key ex = Some k ∧ ak_role k = r).

Definition entitled (ex : Extensions) (p : Permission) : Prop :=
  holds_role ex GlobalRole.Admin ∨ holds_role ex (permission_role p).

Lemma as_admin_refuses ex m w :
  ¬ entitled ex PAdmin → ∃ s, as_admin ex m w = (Ok (Refused s), w) ∧ s ∈ [UNAUTHORIZED; FORBIDDEN].
Proof.
  intros Hno. unfold as_admin, require_admin.
  assert (Hk : ∀ k, ex_api_key ex = Some k → ak_role k ≠ GlobalRole.Admin).
  { intros k Hk Hr. apply Hno. left. right. by exists k. }
  assert (Hu : ∀ u, ex_user ex = Some u → u_role u ≠ GlobalRole.Admin).
  { intros u Hu Hr. apply Hno. left. left. by exists u. }
  destruct (ex_user ex) as [u|]; [rewrite bool_decide_eq_false_2 by (by apply Hu)|];
    (destruct (ex_api_key ex) as [k|]; [rewrite bool_decide_eq_false_2 by (by apply Hk)|]);
    eexists; (split; [reflexivity|set_solver]).
Qed.

Lemma with_permission_refuses ex p m w :
  ¬ entitled ex p →
  ∃ s, with_permission ex p m w = (Ok (Refused s), w) ∧ s ∈ [UNAUTHORIZED; FORBIDDEN].
Proof.
  intros Hno. unfold with_permission, api, mtry, mbind, lift, require_api, require.
  destruct (session_role ex) as [r|] eqn:Hr.
  - assert (role_grants r p = false) as ->; [|eexists; split; [reflexivity|set_solver]].
    assert (Hh : holds_role ex r).
    { unfold session_role in Hr. destruct (ex_user ex) as [u|] eqn:Hu.
      - left. exists u. by simplify_eq.
      - destruct (ex_api_key ex) as [k|] eqn:Hk; [|done]. right. exists k. by simplify_eq/=. }
    unfold role_grants. apply orb_false_iff.
    split; apply bool_decide_eq_false_2; intros ->; apply Hno; [by left|by right].
  - eexists. split; [reflexivity|set_solver].
Qed.

(** C24. A call of the API of projects, jobsets, builds, evaluations and channels by someone
    whose account or key has neither the administrator's role nor the role the call needs is
    answered with 401 or 403, reads nothing and changes nothing. *)
Theorem api_needs_permission `{UrlHost, Cipher} cf ex c w :
  ¬ entitled ex (needed c) →
  ∃ s, handle cf ex c w = (Ok (Refused s), w) ∧ s ∈ [UNAUTHORIZED; FORBIDDEN].
Proof.
  intros Hno. destruct c; (apply as_admin_refuses || apply with_permission_refuses); exact Hno.
Qed.

(** ** Declared projects *)

(** What belongs to a project.  A channel is compared in the columns the configuration
    declares and in those that identify it; the evaluation it points at, and the time of
    that, are not declared, and [promote_channel] changes them for every project. *)
Definition jobs_of (p : Uuid) (w : World) : gset Z :=
  dom (filter (λ kj, j_project_id kj.2 = p) (w_jobsets w)).

Definition pinned (c : Channel) : Uuid * Uuid * string * Uuid * DateTime :=
  (ch_id c, ch_project_id c, ch_name c, ch_jobset_id c, ch_created_at c).

Definition same_part (p : Uuid) (w w' : World) : Prop :=
  w_projects w' !! p = w_projects w !! p ∧
  filter (λ kj, j_project_id kj.2 = p) (w_jobsets w') =
    filter (λ kj, j_project_id kj.2 = p) (w_jobsets w) ∧
  filter (λ kv, kv.1.1 ∈ jobs_of p w') (w_inputs w') =
    filter (λ kv, kv.1.1 ∈ jobs_of p w) (w_inputs w) ∧
  filter (λ kc, wc_project_id kc.2 = p) (w_webhook_configs w') =
    filter (λ kc, wc_project_id kc.2 = p) (w_webhook_configs w) ∧
  pinned <$> filter (λ kc, ch_project_id kc.2 = p) (w_channels w') =
    pinned <$> filter (λ kc, ch_project_id kc.2 = p) (w_channels w).

(** The channels of the project track its own jobsets. *)
Definition own_channels (p : Uuid) (w : World) : Prop :=
  ∀ k c, w_channels w !! k = Some c → ch_project_id c = p → ch_jobset_id c ∈ jobs_of p w.

(** The configuration manages the project, and neither it nor, if it leaves that open, the
    installation releases it. *)
Definition declared (cf : ApiConfig) (p : Uuid) (w : World) : Prop :=
  ∃ pr, w_projects w !! p = Some pr ∧ p_managed_declaratively pr = true ∧
    (p_allow_runtime_mutation pr = Some false ∨
     p_allow_runtime_mutation pr = None ∧ ac_allow_runtime_mutation cf = false).

Section declared.
Context (cf : ApiConfig) (p : Uuid).

Definition keeps_part (w w' : World) : Prop :=
  declared cf p w → own_channels p w → own_channels p w' ∧ same_part p w w'.

Lemma same_part_declared w w' : same_part p w w' → declared cf p w → declared cf p w'.
Proof. intros (Hp & _) (pr & Hpr & Hm). exists pr. by rewrite Hp. Qed.

#[local] Instance keeps_part_preorder : PreOrder keeps_part.
Proof.
  split; [by intros w|]. intros w1 w2 w3 H12 H23 Hd Ho.
  destruct (H12 Hd Ho) as [Ho2 S12]. destruct (H23 (same_part_declared _ _ S12 Hd) Ho2) as [Ho3 S23].
  split; [done|]. destruct S12 as (?&?&?&?&?), S23 as (?&?&?&?&?). split_and!; by etrans.
Qed.

Lemma keeps_part_faults w fs : keeps_part w (set_w_faults fs w).
Proof. done. Qed.

(** A read that decides what follows; [F] is known of the tables. *)
Lemma guarded {A B} (m : M A) (k : A → M B) (P : World → A → Prop) (F : World → Prop) w :
  observes m P → (∀ a, blind (λ w, P w a)) → blind F → F w →
  (∀ a w, P w a → F w → keeps_part w (k a w).2) → keeps_part w (mbind m k w).2.
Proof.
  apply guarded_by; [apply _|apply keeps_part_faults].
Qed.

Lemma validated {A B} (r : result string A) (m : M B) w :
  keeps_part w (m w).2 → keeps_part w ((validation r ;;! m) w).2.
Proof. intros Hm. unfold mbind, validation. by destruct r. Qed.

Lemma queried {A} (f : World → result CiError A * World) (F : World → Prop) w :
  blind F → F w → (∀ w, F w → keeps_part w (f w).2) → keeps_part w (query f w).2.
Proof.
  apply queried_by; [apply _|apply keeps_part_faults].
Qed.

Lemma followed {A B} (m : M A) (k : A → M B) w :
  keeps_part w (m w).2 → (∀ a, leads keeps_part (k a)) → keeps_part w (mbind m k w).2.
Proof.
  intros Hm Hk. unfold mbind. destruct (m w) as [[a|e] w1]; [|done]. etransitivity; [done|]. apply Hk.
Qed.

Lemma project_gate_observes id :
  observes (require_project_mutable cf id)
    (λ w pr, w_projects w !! id = Some pr ∧ project_is_mutable cf pr = true).
Proof.
  eapply (reads_mbind _ _ (λ w pr, w_projects w !! id = Some pr)); [|tables| |tables].
  - eapply (reads_mbind _ _ (λ w o, o = w_projects w !! id)); [|tables| |tables].
    + apply reads_read; [|done]. intros ? ? HH; exact HH.
    + intros [pr|]; [by apply reads_mret|by apply (reads_answer (Err _))].
  - intros pr. destruct (project_is_mutable cf pr) eqn:Hm; simpl.
    + by apply reads_mret.
    + by apply (reads_answer (Err _)).
Qed.

Lemma jobset_gate_observes id :
  observes (require_jobset_mutable cf id)
    (λ w j, w_jobsets w !! id = Some j ∧
            ∃ pr, w_projects w !! j_project_id j = Some pr ∧ project_is_mutable cf pr = true).
Proof.
  eapply (reads_mbind _ _ (λ w j, w_jobsets w !! id = Some j)); [|tables| |tables].
  - eapply (reads_mbind _ _ (λ w o, o = w_jobsets w !! id)); [|tables| |tables].
    + apply reads_read; [|done]. intros ? ? HH; exact HH.
    + intros [j|]; [by apply reads_mret|by apply (reads_answer (Err _))].
  - intros j. eapply reads_mbind; [apply project_gate_observes|tables| |tables].
    intros pr. apply reads_mret. intros w [? ?] ?. split; [done|]. by exists pr.
Qed.

Lemma declared_not_mutable w pr : declared cf p w → w_projects w !! p = Some pr →
  project_is_mutable cf pr = true → False.
Proof.
  intros (pr' & Hp & Hm & Ha) Hp'. rewrite Hp in Hp'. injection Hp' as ->.
  unfold project_is_mutable. rewrite Hm. simpl. by destruct Ha as [->|[-> ->]].
Qed.

(** *** Changes elsewhere *)

(** The tables of projects stay. *)
Definition aside (w w' : World) : Prop :=
  w_projects w' = w_projects w ∧ w_jobsets w' = w_jobsets w ∧ w_inputs w' = w_inputs w ∧
  w_webhook_configs w' = w_webhook_configs w ∧ w_channels w' = w_channels w.

#[local] Instance aside_preorder : PreOrder aside.
Proof.
  split; [by intros w|].
  intros w1 w2 w3 (?&?&?&?&?) (?&?&?&?&?). split_and!; by etrans.
Qed.

Lemma aside_keeps w w' : aside w w' → keeps_part w w'.
Proof.
  intros (E1 & E2 & E3 & E4 & E5) Hd Ho. unfold same_part, own_channels, jobs_of.
  by rewrite E1, E2, E3, E4, E5.
Qed.

Lemma leads_aside {A} (m : M A) : leads aside m → leads keeps_part m.
Proof. intros Hm w. apply aside_keeps, Hm. Qed.

Lemma other_project t w :
  t !! p = w_projects w !! p → keeps_part w (set_w_projects t w).
Proof. intros Ht Hd Ho. by split_and!. Qed.

Lemma other_jobsets t w :
  filter (λ kj, j_project_id kj.2 = p) t = filter (λ kj, j_project_id kj.2 = p) (w_jobsets w) →
  keeps_part w (set_w_jobsets t w).
Proof.
  intros Ht Hd Ho. assert (Hj : jobs_of p (set_w_jobsets t w) = jobs_of p w).
  { unfold jobs_of. simpl. by rewrite Ht. }
  split; [unfold own_channels; by rewrite Hj|]. split_and!; [done|done| |done..]. by rewrite Hj.
Qed.

Lemma other_jobset k j w :
  j_project_id j ≠ p → (∀ j', w_jobsets w !! k = Some j' → j_project_id j' ≠ p) →
  keeps_part w (set_w_jobsets (<[k := j]> (w_jobsets w)) w).
Proof. intros Hj Hk. apply other_jobsets. by apply map_filter_insert_not'. Qed.

Lemma other_inputs t w :
  filter (λ kv, kv.1.1 ∈ jobs_of p w) t = filter (λ kv, kv.1.1 ∈ jobs_of p w) (w_inputs w) →
  keeps_part w (set_w_inputs t w).
Proof. intros Ht Hd Ho. by split_and!. Qed.

Lemma other_webhooks t w :
  filter (λ kc, wc_project_id kc.2 = p) t = filter (λ kc, wc_project_id kc.2 = p) (w_webhook_configs w) →
  keeps_part w (set_w_webhook_configs t w).
Proof. intros Ht Hd Ho. by split_and!. Qed.

Lemma other_channels t w :
  filter (λ kc, ch_project_id kc.2 = p) t = filter (λ kc, ch_project_id kc.2 = p) (w_channels w) →
  keeps_part w (set_w_channels t w).
Proof.
  intros Ht Hd Ho. split; [|split_and!; [done..|]; simpl; by rewrite Ht].
  intros k c Hk Hc. simpl in Hk. apply (Ho k c); [|done].
  assert (Hf : filter (λ kc, ch_project_id kc.2 = p) t !! k = Some c)
    by (by apply map_lookup_filter_Some).
  rewrite Ht in Hf. by apply map_lookup_filter_Some in Hf as [? _].
Qed.

(** A channel may point elsewhere. *)
Lemma repointed k c c' w :
  w_channels w !! k = Some c → pinned c' = pinned c →
  keeps_part w (set_w_channels (<[k := c']> (w_channels w)) w).
Proof.
  intros Hk Hpin Hd Ho. injection Hpin as Hid Hproj Hname Hjob Hat. split.
  - intros i x. simpl. rewrite lookup_insert_Some. intros [[<- <-]|[_ Hi]] Hx; [|by apply (Ho i)].
    rewrite Hjob. apply (Ho k); [done|congruence].
  - split_and!; [done..|]. simpl. apply map_eq. intros i. rewrite !lookup_fmap, !map_lookup_filter.
    destruct (decide (k = i)) as [<-|]; [|by rewrite lookup_insert_ne].
    rewrite lookup_insert_eq, Hk. simpl. rewrite Hproj.
    destruct (decide (ch_project_id c = p)); [|by rewrite !option_guard_False by done].
    rewrite !option_guard_True by done. simpl. unfold pinned. congruence.
Qed.

Lemma filter_filter_out {K A} `{Countable K} (P Q : K * A → Prop) `{!∀ x, Decision (P x)}
    `{!∀ x, Decision (Q x)} (m : gmap K A) :
  (∀ i x, m !! i = Some x → P (i, x) → Q (i, x)) → filter P (filter Q m) = filter P m.
Proof.
  intros HPQ. rewrite map_filter_filter. apply map_filter_ext. intros i x Hi. naive_solver.
Qed.

Lemma in_jobs_of k w : k ∈ jobs_of p w ↔ ∃ j, w_jobsets w !! k = Some j ∧ j_project_id j = p.
Proof.
  unfold jobs_of. rewrite elem_of_dom. split.
  - intros [j [Hj Hp]%map_lookup_filter_Some]. by exists j.
  - intros (j & Hj & Hp). exists j. by apply map_lookup_filter_Some.
Qed.

Lemma delete_jobsets_keeps js w :
  (∀ k, k ∈ jobs_of p w → k ∉ js) → keeps_part w (without_jobsets js w).
Proof.
  intros Hjs Hd Ho.
  assert (Hsame : filter (λ kj, j_project_id kj.2 = p) (w_jobsets (without_jobsets js w)) =
                  filter (λ kj, j_project_id kj.2 = p) (w_jobsets w)).
  { apply filter_filter_out. intros k j Hk Hp. apply Hjs, in_jobs_of. by exists j. }
  assert (Hj : jobs_of p (without_jobsets js w) = jobs_of p w).
  { unfold jobs_of. by rewrite Hsame. }
  split.
  - intros k c Hk Hc. rewrite Hj. apply map_lookup_filter_Some in Hk as [Hk _]. by apply (Ho k).
  - split_and!; [done|done| |done|].
    + rewrite Hj. apply filter_filter_out. intros [k n] i _. simpl. by apply Hjs.
    + f_equal. apply filter_filter_out. intros k c Hk Hc. simpl. apply Hjs. by apply (Ho k c).
Qed.

Lemma delete_projects_keeps ps w : p ∉ ps → keeps_part w (without_projects ps w).
Proof.
  intros Hps. unfold without_projects.
  set (js := gone_of _ (w_jobsets w)).
  assert (Hjs : ∀ k, k ∈ jobs_of p w → k ∉ js).
  { intros k (j & Hj & Hp)%in_jobs_of Hk. unfold js, gone_of in Hk.
    apply elem_of_dom in Hk as [j' [Hj' Hp']%map_lookup_filter_Some]. simpl in Hp'.
    apply bool_decide_eq_true in Hp'. congruence. }
  etransitivity; [apply (delete_jobsets_keeps js w Hjs)|]. generalize (without_jobsets js w).
  clear w js Hjs. intros w Hd Ho. split.
  - intros k c Hk Hc. apply map_lookup_filter_Some in Hk as [Hk _]. by apply (Ho k c).
  - split_and!; simpl.
    + rewrite map_lookup_filter. destruct (w_projects w !! p); [|done]. simpl.
      by rewrite option_guard_True.
    + done.
    + done.
    + apply filter_filter_out. intros k c _ Hc. simpl in *. by rewrite Hc.
    + f_equal. apply filter_filter_out. intros k c _ Hc. simpl in *. by rewrite Hc.
Qed.

Lemma delete_checked_keeps n w' w : keeps_part w w' → keeps_part w (delete_checked n w' w).2.
Proof. intros Hk. unfold delete_checked. by destruct (dangling w'). Qed.

(** *** Repository functions *)

Lemma create_project_keeps `{UrlHost} id input : id ≠ p → leads keeps_part (projects.create id input).
Proof.
  intros Hid w. apply validated, leads_query; [apply _|done|]. clear w. intros w.
  destruct (projects.find_name _ w); [done|]. apply other_project. by apply lookup_insert_ne.
Qed.

Lemma update_project_keeps `{UrlHost} id input : id ≠ p → leads keeps_part (projects.update id input).
Proof.
  intros Hid w. apply validated. revert w.
  apply leads_mbind; [apply _|apply leads_or_not_found, leads_read; apply _ || done|].
  intros pr. apply leads_query; [apply _|done|]. intros w.
  destruct (w_projects w !! id); [|done]. destruct (existsb _ _); [done|].
  apply other_project. by apply lookup_insert_ne.
Qed.

Lemma create_jobset_keeps id input w :
  cj_project_id input ≠ p → (∀ j, w_jobsets w !! id = Some j → j_project_id j ≠ p) →
  keeps_part w (create_jobset id input w).2.
Proof.
  intros Hp Hid. apply validated.
  apply (queried _ (λ w, ∀ j, w_jobsets w !! id = Some j → j_project_id j ≠ p)); [|done|].
  { intros fs w' Hw. exact Hw. }
  clear w Hid. intros w Hid.
  destruct (find_named (cj_project_id input) (cj_name input) w); [done|].
  destruct (w_projects w !! cj_project_id input); [|done]. by apply other_jobset.
Qed.

(** A jobset of another project. *)
Definition elsewhere (id : Uuid) (w : World) : Prop :=
  ∀ j, w_jobsets w !! id = Some j → j_project_id j ≠ p.

Lemma elsewhere_blind id : blind (elsewhere id).
Proof. intros fs w Hw. exact Hw. Qed.

Lemma elsewhere_out id w : elsewhere id w → id ∉ jobs_of p w.
Proof. intros He (j & Hj & Hp)%in_jobs_of. by apply (He j). Qed.

Lemma update_jobset_keeps id input w :
  elsewhere id w → keeps_part w (update_jobset id input w).2.
Proof.
  intros He. apply validated.
  apply (guarded _ _ (λ w j, w_jobsets w !! id = Some j) (elsewhere id));
    [|tables|apply elsewhere_blind|done|].
  { by apply get_reads. }
  clear w He. intros j w Hj He. pose proof (He j Hj) as Hne. apply validated, validated.
  apply (queried _ (elsewhere id)); [apply elsewhere_blind|done|]. clear w Hj He. intros w He.
  destruct (w_jobsets w !! id) as [j'|] eqn:Hj'; [|done]. destruct (existsb _ _); [done|].
  apply other_jobset; [done|by intros j'' ?; apply He].
Qed.

Lemma delete_jobset_keeps id w : elsewhere id w → keeps_part w (delete_jobset id w).2.
Proof.
  intros He. apply followed; [|by intros a w'; destruct (a =? 0)].
  apply (queried _ (elsewhere id)); [apply elsewhere_blind|done|]. clear w He. intros w He.
  apply delete_checked_keeps, delete_jobsets_keeps. intros k Hk Hg. unfold gone_id in Hg.
  destruct (is_some _); [|by apply not_elem_of_empty in Hg]. apply elem_of_singleton in Hg as ->.
  by apply (elsewhere_out id w).
Qed.

Lemma delete_project_keeps `{UrlHost} id : id ≠ p → leads keeps_part (projects.delete id).
Proof.
  intros Hid w. apply followed; [|by intros a w'; destruct (a =? 0)].
  apply leads_query; [apply _|done|]. clear w. intros w.
  apply delete_checked_keeps, delete_projects_keeps. unfold gone_id.
  destruct (is_some _); set_solver.
Qed.

Lemma create_input_keeps id jobset d w :
  elsewhere jobset w → keeps_part w (create_input id jobset d w).2.
Proof.
  intros He. apply validated. apply (queried _ (elsewhere jobset)); [apply elsewhere_blind|done|].
  clear w He. intros w He. destruct (w_inputs w !! _); [done|].
  destruct (w_jobsets w !! jobset); [|done]. apply other_inputs, map_filter_insert_not.
  intros i. by apply elsewhere_out.
Qed.

Lemma delete_input_keeps jobset id w :
  elsewhere jobset w → keeps_part w (delete_input_for_jobset jobset id w).2.
Proof.
  intros He. apply followed; [|by intros a w'; destruct (a =? 0)].
  apply (queried _ (elsewhere jobset)); [apply elsewhere_blind|done|]. clear w He. intros w He.
  apply other_inputs, filter_filter_out. intros [k n] i _ Hk. simpl in *.
  apply andb_false_iff. right. apply Z.eqb_neq. intros ->. by apply (elsewhere_out jobset w).
Qed.

Lemma create_webhook_keeps `{Cipher} id nonce input secret key w :
  webhook_configs.cw_project_id input ≠ p → w_webhook_configs w !! id = None →
  keeps_part w (webhook_configs.create id nonce input secret key w).2.
Proof.
  intros Hp Hid. unfold webhook_configs.create.
  destruct (webhook_configs.encrypt_opt _ _ _) as [stored|]; [|done].
  apply (queried _ (λ w, w_webhook_configs w !! id = None)); [|done|].
  { intros fs w' Hw. exact Hw. }
  clear w Hid. intros w Hid. destruct (webhook_configs.too_long _); [done|].
  destruct (webhook_configs.find _ _ w); [done|]. destruct (webhook_configs.refused _ _ w); [done|].
  apply other_webhooks, map_filter_insert_not'; [done|]. intros c Hc. simpl in Hc. congruence.
Qed.

Lemma delete_webhook_keeps id c w :
  w_webhook_configs w !! id = Some c → wc_project_id c ≠ p →
  keeps_part w (webhook_configs.delete id w).2.
Proof.
  intros Hc Hp. apply followed; [|by intros a w'; destruct (a =? 0)].
  apply (queried _ (λ w, w_webhook_configs w !! id = Some c)); [|done|].
  { intros fs w' Hw. exact Hw. }
  clear w Hc. intros w Hc. apply other_webhooks. apply map_filter_delete_not. intros c' Hc'.
  simpl. congruence.
Qed.

Lemma create_channel_keeps id input w :
  channels.cc_project_id input ≠ p → w_channels w !! id = None →
  keeps_part w (channels.create id input w).2.
Proof.
  intros Hp Hid. apply (queried _ (λ w, w_channels w !! id = None)); [|done|].
  { intros fs w' Hw. exact Hw. }
  clear w Hid. intros w Hid. destruct (is_some _); [done|]. destruct (negb _); [done|].
  apply other_channels, map_filter_insert_not'; [done|]. intros c Hc. simpl in Hc. congruence.
Qed.

Lemma delete_channel_keeps id c w :
  w_channels w !! id = Some c → ch_project_id c ≠ p → keeps_part w (channels.delete id w).2.
Proof.
  intros Hc Hp. apply followed; [|by intros a w'; destruct (a =? 0)].
  apply (queried _ (λ w, w_channels w !! id = Some c)); [|done|].
  { intros fs w' Hw. exact Hw. }
  clear w Hc. intros w Hc. apply other_channels, map_filter_delete_not. intros c' Hc'.
  simpl. congruence.
Qed.

Lemma promote_keeps channel evaluation : leads keeps_part (channels.promote channel evaluation).
Proof.
  apply leads_mbind; [apply _| |by intros [c|] w]. apply leads_query; [apply _|done|]. intros w.
  destruct (w_channels w !! channel) as [c|] eqn:Hc; [|done].
  destruct (w_evaluations w !! evaluation); [|done]. by apply (repointed channel c).
Qed.

Lemma auto_promote_keeps jobset evaluation :
  leads keeps_part (channels.auto_promote_if_complete jobset evaluation).
Proof.
  apply leads_mbind; [apply _|apply leads_read; [apply _|done]|]. intros [total completed].
  destruct (_ || _); [by intros w|].
  apply leads_mbind; [apply _|apply leads_read; [apply _|done]|]. intros l.
  induction l as [|c l IH]; [by intros w|]. apply leads_mbind; [apply _| |by intros _].
  apply leads_mtry, promote_keeps.
Qed.

(** *** Builds and evaluations *)

Lemma aside_faults w fs : aside w (set_w_faults fs w).
Proof. done. Qed.

Lemma update_aside id guard f : leads aside (Sql.update id guard f).
Proof.
  apply leads_query; [apply _|done|]. intros w. destruct (w_builds w !! id) as [b|]; [|done].
  destruct (guard b); [|done]. by destruct (f b).
Qed.

Lemma cancel_aside id : leads aside (builds.cancel id).
Proof.
  apply leads_or_not_found; [apply _|]. intros w. apply (update_aside id Sql.active).
Qed.

Lemma cancel_cascade_aside id : leads aside (builds.cancel_cascade id).
Proof.
  assert (Hdeps : ∀ deps stack acc, leads aside (builds.cancel_dependents deps stack acc)).
  { induction deps as [|d deps IH]; intros stack acc; [by intros w|].
    apply leads_mbind; [apply _|apply leads_mtry, cancel_aside|]. intros [b|e]; apply IH. }
  assert (Hloop : ∀ fuel stack acc, leads aside (builds.cancel_loop fuel stack acc)).
  { induction fuel as [|fuel IH]; intros [|b stack] acc; try (by intros w). simpl.
    apply leads_mbind; [apply _|apply leads_read; [apply _|done]|]. intros deps.
    apply leads_mbind; [apply _|apply Hdeps|]. intros [stack' acc']. apply IH. }
  intros w. unfold builds.cancel_cascade. generalize (S (builds.active_count w)). intros n. revert w.
  apply leads_mbind; [apply _|apply leads_mtry, cancel_aside|]. intros r. apply Hloop.
Qed.

Lemma restart_aside id : leads aside (builds.restart id).
Proof.
  apply leads_mbind; [apply _|apply leads_or_not_found, update_aside; apply _|]. intros b.
  apply leads_mbind; [apply _| |by intros r w]. apply leads_mtry, leads_query; [apply _|done|].
  by intros w.
Qed.

Lemma create_manual_aside id input : leads aside (Evals.create_manual id input).
Proof.
  apply leads_query; [apply _|done|]. intros w. unfold Evals.insert_evaluation.
  destruct (_ && _); [done|]. by destruct (w_jobsets w !! _).
Qed.

(** *** The API *)

(** The ids that are drawn are new. *)
Definition fresh_ids (c : Call) (w : World) : Prop :=
  match c with
  | CreateProjectCall id _ => w_projects w !! id = None
  | CreateJobsetCall id _ _ => w_jobsets w !! id = None
  | SetupProjectCall id new_id _ =>
      w_projects w !! id = None ∧ ∀ name, w_jobsets w !! new_id name = None
  | CreateWebhookCall id _ _ _ _ => w_webhook_configs w !! id = None
  | CreateChannelCall id _ => w_channels w !! id = None
  | _ => True
  end.

Lemma api_keeps (m : M Answer) w : keeps_part w (m w).2 → keeps_part w (api m w).2.
Proof. unfold api, mbind, mtry. by destruct (m w). Qed.

Lemma as_admin_keeps ex (m : M Answer) w : keeps_part w (m w).2 → keeps_part w (as_admin ex m w).2.
Proof. intros Hm. unfold as_admin. destruct (require_admin ex); [by apply api_keeps|done]. Qed.

Lemma with_permission_keeps ex q (m : M Answer) w :
  keeps_part w (m w).2 → keeps_part w (with_permission ex q m w).2.
Proof.
  intros Hm. apply api_keeps. unfold mbind, lift. by destruct (require_api ex q).
Qed.

Lemma create_jobset_row id input w j w1 :
  create_jobset id input w = (Ok j, w1) →
  w_jobsets w1 = <[id := j]> (w_jobsets w) ∧ j_project_id j = cj_project_id input.
Proof.
  unfold create_jobset, mbind, validation. destruct (validate_create_jobset input); [|done].
  intros [fs Hq]%query_ok. destruct (find_named _ _ _); [done|].
  destruct (w_projects (set_w_faults fs w) !! _); [|done]. by injection Hq as <- <-.
Qed.

Lemma setup_jobsets_keeps new_id project l w :
  project ≠ p → (∀ name, elsewhere (new_id name) w) →
  keeps_part w (setup_jobsets new_id project l w).2.
Proof.
  intros Hp. revert w. induction l as [|i l IH]; intros w He; [done|]. cbn [setup_jobsets]. apply validated.
  pose proof (create_jobset_keeps (new_id (sj_name i)) (setup_input project i) w Hp
                (He (sj_name i))) as Hk.
  unfold mbind. destruct (create_jobset _ _ w) as [[j|e] w1] eqn:Hc; [|done]. simpl in Hk.
  apply create_jobset_row in Hc as [Hj Hproj].
  assert (He1 : ∀ name, elsewhere (new_id name) w1).
  { intros name j' Hl. rewrite Hj, lookup_insert_Some in Hl.
    destruct Hl as [[_ <-]|[_ Hl]]; [by rewrite Hproj|by apply (He name)]. }
  specialize (IH w1 He1). destruct (setup_jobsets new_id project l w1) as [[js|e] w2];
    (etransitivity; [exact Hk|exact IH]).
Qed.

Lemma setup_keeps `{UrlHost} id new_id input l w :
  id ≠ p → (∀ name, w_jobsets w !! new_id name = None) →
  keeps_part w ((let! pr := projects.create id input in
                 let! js := setup_jobsets new_id (p_id pr) l in mret (ASetup pr js)) w).2.
Proof.
  intros Hid Hj. pose proof (create_project_keeps id input Hid w) as Hk. unfold mbind.
  destruct (projects.create id input w) as [[pr|e] w1] eqn:Hc; [|done]. simpl in Hk.
  assert (Hpr : p_id pr = id ∧ w_jobsets w1 = w_jobsets w).
  { unfold projects.create, mbind, validation in Hc.
    destruct (validate_create_project input); [|done].
    apply query_ok in Hc as [fs Hc]. destruct (projects.find_name _ _); [done|].
    by injection Hc as <- <-. }
  destruct Hpr as [-> Hj1]. etransitivity; [exact Hk|].
  assert (Hs : keeps_part w1 (setup_jobsets new_id id l w1).2).
  { apply setup_jobsets_keeps; [done|]. intros name j Hl. by rewrite Hj1, Hj in Hl. }
  by destruct (setup_jobsets new_id id l w1) as [[js|e] w2].
Qed.

(** Behind the gates another project is meant. *)
Lemma behind_project_gate {B} id (m : M B) (F : World → Prop) w :
  blind F → F w → (id ≠ p → ∀ w, F w → keeps_part w (m w).2) →
  keeps_part w ((require_project_mutable cf id ;;! m) w).2.
Proof.
  intros HF Hw Hm. eapply (guarded _ _ _ F); [apply project_gate_observes|tables|done|done|].
  clear w Hw. intros pr w [Hpr Hmut] Hw Hd. refine (Hm _ w Hw Hd). intros ->.
  by eapply declared_not_mutable.
Qed.

Lemma behind_jobset_gate {B} id (m : M B) w :
  (∀ w, elsewhere id w → keeps_part w (m w).2) →
  keeps_part w ((require_jobset_mutable cf id ;;! m) w).2.
Proof.
  intros Hm. eapply (guarded _ _ _ (λ _, True)); [apply jobset_gate_observes|tables|done|done|].
  clear w. intros j w (Hj & pr & Hpr & Hmut) _ Hd. refine (Hm w _ Hd). intros j' Hj' Hp.
  rewrite Hj in Hj'. injection Hj' as <-. rewrite Hp in Hpr. by eapply declared_not_mutable.
Qed.

Lemma handle_keeps `{UrlHost, Cipher} ex c w :
  declared cf p w → fresh_ids c w → keeps_part w (handle cf ex c w).2.
Proof.
  intros Hd Hf.
  assert (Hnew : ∀ id, w_projects w !! id = None → id ≠ p).
  { intros id Hid ->. destruct Hd as (pr & Hpr & _). congruence. }
  destruct c; simpl in *;
    first [apply as_admin_keeps | apply with_permission_keeps].
  - apply validated, validated, followed; [|by intros a w']. by apply create_project_keeps, Hnew.
  - apply (behind_project_gate _ _ (λ _, True)); [done..|]. intros Hid w' _.
    apply validated, validated, followed; [|by intros a w'']. by apply update_project_keeps.
  - apply (behind_project_gate _ _ (λ _, True)); [done..|]. intros Hid w' _.
    apply followed; [by apply delete_project_keeps|by intros a w''].
  - apply (behind_project_gate _ _ (elsewhere id)); [apply elsewhere_blind| |].
    + intros j Hj. congruence.
    + intros Hid w' He. apply validated, followed; [by apply create_jobset_keeps|by intros a w''].
  - destruct Hf as [Hp Hj]. apply validated, validated. by apply setup_keeps; [apply Hnew|].
  - apply (behind_project_gate _ _ (λ w, w_webhook_configs w !! id = None)); [tables|done|].
    intros Hid w' He. destruct (is_empty _); [done|].
    apply followed; [by apply create_webhook_keeps|by intros a w''].
  - apply (guarded _ _ (λ w c, w_webhook_configs w !! id = Some c) (λ _, True));
      [by apply get_reads|tables|done..|].
    intros c w' Hc _. destruct (wc_project_id c =? project) eqn:Hpr; simpl; [|done].
    apply Z.eqb_eq in Hpr.
    apply (behind_project_gate _ _ (λ w, w_webhook_configs w !! id = Some c)); [tables|done|].
    intros Hid w'' Hc'. apply followed; [|by intros a v]. apply (delete_webhook_keeps id c); congruence.
  - apply behind_jobset_gate. intros w' He.
    apply validated, followed; [by apply update_jobset_keeps|by intros a w''].
  - apply behind_jobset_gate. intros w' He.
    apply followed; [by apply delete_jobset_keeps|by intros a w''].
  - apply behind_jobset_gate. intros w' He.
    apply followed; [by apply create_input_keeps|by intros a w''].
  - apply behind_jobset_gate. intros w' He.
    apply followed; [by apply delete_input_keeps|by intros a w''].
  - apply leads_aside, leads_mbind; [apply _|apply cancel_cascade_aside|]. by intros [[|]|] w'.
  - apply leads_aside, leads_mbind; [apply _|apply restart_aside|]. by intros b w'.
  - apply leads_aside, leads_mbind; [apply _|apply update_aside|]. by intros [b|] w'.
  - apply leads_aside, leads_mbind; [apply _|apply leads_or_not_found, update_aside; apply _|].
    by intros b w'.
  - apply validated, leads_aside, leads_mbind;
      [apply _|apply leads_or_not_found, leads_read; apply _ || done|].
    intros j. destruct (negb _); [by intros w'|].
    apply leads_mbind; [apply _|apply create_manual_aside|]. by intros e w'.
  - apply (behind_project_gate _ _ (λ w, w_channels w !! id = None)); [tables|done|].
    intros Hid w' He. apply validated, followed; [by apply create_channel_keeps|]. intros ch.
    apply leads_mbind; [apply _|apply leads_mtry, leads_read; [apply _|done]|]. intros latest.
    apply leads_mbind; [apply _| |intros _; apply leads_mbind; [apply _| |by intros x v]].
    + destruct latest as [[e|]|]; try by intros v. destruct (bool_decide _); [|by intros v].
      apply leads_mbind; [apply _|apply leads_mtry, auto_promote_keeps|by intros x v].
    + apply leads_or_not_found, leads_read; apply _ || done.
  - apply (guarded _ _ (λ w c, w_channels w !! id = Some c) (λ _, True));
      [by apply get_reads|tables|done..|].
    intros c w' Hc _.
    apply (behind_project_gate _ _ (λ w, w_channels w !! id = Some c)); [tables|done|].
    intros Hid w'' Hc'. apply followed; [|by intros a v]. by apply (delete_channel_keeps id c).
  - apply followed; [apply promote_keeps|]. by intros ch w'.
Qed.
End declared.

Section untouched.
Context `{UrlHost, Cipher}.

(** Any number of calls, whoever makes them and whichever statements fail. *)
Definition api_step (cf : ApiConfig) (w w' : World) : Prop :=
  ∃ ex c, fresh_ids c w ∧ w' = (handle cf ex c w).2.

(** C23. A project that the declarative configuration manages and does not release for
    changes at run time cannot be changed through the API by anybody, an administrator
    included: after any calls, whichever of their statements fail, its row, its jobsets and
    their inputs, its webhook configurations and its channels with the jobsets they track
    are what they were, also where the rows of other projects are deleted with everything
    below them.  Not part of it are the evaluation a channel points at and its time of
    change, which a promotion sets for this project as for any other.  The project's
    channels are assumed to track its own jobsets (one that tracks a jobset of another
    project is deleted with it), and drawn ids to be new. *)
Theorem declared_project_untouched cf p w w' :
  declared cf p w → own_channels p w → rtc (api_step cf) w w' →
  declared cf p w' ∧ own_channels p w' ∧ same_part p w w'.
Proof.
  intros Hd Ho. induction 1 as [w|w1 w2 w3 (ex & c & Hf & ->) _ IH]; [by split_and!|].
  destruct (handle_keeps cf p ex c w1 Hd Hf Hd Ho) as [Ho2 Hs2].
  destruct (IH (same_part_declared cf p _ _ Hs2 Hd) Ho2) as (Hd3 & Ho3 & Hs3).
  split_and!; [done..|]. by destruct (keeps_part_preorder cf p) as [_ Htrans];
    destruct (Htrans _ _ _ (λ _ _, conj Ho2 Hs2) (λ _ _, conj Ho3 Hs3) Hd Ho).
Qed.
End untouched.

(** ** Comparing evaluations *)

(** The build of a job in a list: the last one. *)
Definition build_of (l : list Build) (name : string) : option Build :=
  last (List.filter (λ b, bool_decide (b_job_name b = name)) l).

Lemma by_job_name_lookup l name : by_job_name l !! name = build_of l name.
Proof.
  unfold by_job_name, build_of. induction l as [|b l IH] using rev_ind; [done|].
  rewrite foldl_snoc, List.filter_app, last_app. simpl.
  destruct (decide (b_job_name b = name)) as [<-|Hne].
  - rewrite lookup_insert_eq, bool_decide_eq_true_2 by done. done.
  - rewrite lookup_insert_ne, bool_decide_eq_false_2 by done. simpl. rewrite IH.
    by destruct (last _).
Qed.

Lemma diff_elem (p : string → bool) (m : gmap string Build) d :
  d ∈ job_diff <$> List.filter (λ kb, p kb.1) (map_to_list m) ↔
  ∃ b, m !! jd_job_name d = Some b ∧ p (jd_job_name d) = true ∧ d = job_diff (jd_job_name d, b).
Proof.
  rewrite list_elem_of_fmap. split.
  - intros ([n b] & -> & Hin). rewrite list_elem_of_In, filter_In, <-list_elem_of_In in Hin.
    destruct Hin as [Hin Hp]. apply elem_of_map_to_list in Hin. by exists b.
  - intros (b & Hb & Hp & ->). exists (jd_job_name d, b). split; [done|].
    rewrite list_elem_of_In, filter_In, <-list_elem_of_In, elem_of_map_to_list. done.
Qed.

(** Each job is removed, changed or unchanged. *)
Lemma sorted_jobs (to : gmap string Build) (l : list (string * Build)) :
  zlen (List.filter (λ kb, is_none (to !! kb.1)) l) + zlen (omap (job_change to) l) +
  zlen (List.filter (unchanged to) l) = zlen l.
Proof.
  induction l as [|[n b] l IH]; [done|]. unfold zlen in *.
  assert (Ho : omap (job_change to) ((n, b) :: l) =
    match job_change to (n, b) with
    | Some y => y :: omap (job_change to) l
    | None => omap (job_change to) l
    end) by done.
  rewrite Ho. cbn [List.filter fst]. unfold job_change at 1, unchanged at 1, is_none at 1, obind.
  cbn [fst snd]. destruct (to !! n) as [t|]; cbn [is_some negb]; [|cbn [length]; lia].
  destruct (bool_decide _); cbn [length]; lia.
Qed.

(** Comparing two evaluations sorts their jobs completely: a job is new exactly if it is
    a job of the second only, removed exactly if of the first only, changed exactly if of
    both with different derivations, and shown with the build that stands for it in its
    evaluation, the last one listed; and the jobs of the first evaluation are the removed, the
    changed and the counted unchanged ones. *)
Theorem comparison_exact from_id to_id from to :
  let r := compare_builds from_id to_id from to in
  (∀ d, d ∈ cmp_new_jobs r ↔ ∃ b, build_of to (jd_job_name d) = Some b ∧
          build_of from (jd_job_name d) = None ∧ d = job_diff (jd_job_name d, b)) ∧
  (∀ d, d ∈ cmp_removed_jobs r ↔ ∃ b, build_of from (jd_job_name d) = Some b ∧
          build_of to (jd_job_name d) = None ∧ d = job_diff (jd_job_name d, b)) ∧
  (∀ x, x ∈ cmp_changed_jobs r ↔
     ∃ b t, build_of from (jc_job_name x) = Some b ∧ build_of to (jc_job_name x) = Some t ∧
       b_drv_path b ≠ b_drv_path t ∧
       x = {| jc_job_name := jc_job_name x; jc_system := b_system t; jc_old_drv := b_drv_path b;
              jc_new_drv := b_drv_path t; jc_old_status := b_status b;
              jc_new_status := b_status t |}) ∧
  zlen (cmp_removed_jobs r) + zlen (cmp_changed_jobs r) + cmp_unchanged_count r =
    Z.of_nat (size (by_job_name from)).
Proof.
  assert (Hnone : ∀ l n, is_none (by_job_name l !! n) = true ↔ build_of l n = None).
  { intros l n. rewrite by_job_name_lookup. unfold is_none. by destruct (build_of l n). }
  simpl. split_and!.
  - intros d. rewrite (diff_elem (λ n, is_none (by_job_name from !! n))).
    setoid_rewrite Hnone. by setoid_rewrite by_job_name_lookup.
  - intros d. rewrite (diff_elem (λ n, is_none (by_job_name to !! n))).
    setoid_rewrite Hnone. by setoid_rewrite by_job_name_lookup.
  - intros x. rewrite list_elem_of_omap. unfold job_change, obind. split.
    + intros ([n b] & Hb & Hx). apply elem_of_map_to_list in Hb.
      rewrite by_job_name_lookup in Hb, Hx. simpl in Hx.
      destruct (build_of to n) as [t|] eqn:Ht; [|done]. case_bool_decide; [done|].
      injection Hx as <-. by exists b, t.
    + intros (b & t & Hb & Ht & Hne & Hx). exists (jc_job_name x, b).
      rewrite elem_of_map_to_list, !by_job_name_lookup. split; [done|]. simpl.
      rewrite Ht, bool_decide_eq_false_2 by done. f_equal. symmetry. exact Hx.
  - rewrite <-length_map_to_list. unfold zlen at 1. rewrite (length_fmap job_diff).
    apply sorted_jobs.
Qed.

(** ** Examples *)

#[local] Instance example_host : UrlHost := λ _, Some "example.org".

Definition project_ex (id : Uuid) (declaratively : bool) : Project :=
  {| p_id := id; p_name := "p"; p_description := None;
     p_repository_url := "https://example.org/p"; p_cache_enabled := false;
     p_cache_url := None; p_cache_upstreams := []; p_managed_declaratively := declaratively;
     p_allow_runtime_mutation := None; p_created_at := 0; p_updated_at := 0 |}.

(** Project 1 is declared, project 2 is not. *)
Definition two_projects : World :=
  set_w_projects {[1 := project_ex 1 true; 2 := project_ex 2 false]} empty_world.

Definition locked_config : ApiConfig :=
  {| ac_allowed_url_schemes := ["https"]; ac_allow_runtime_mutation := false;
     ac_webhook_key := None |}.

Definition key_holder (r : GlobalRole.t) : Extensions :=
  {| ex_user := None; ex_session := None; ex_csrf := None;
     ex_api_key := Some {| ak_id := 7; ak_name := "k"; ak_key_hash := "h"; ak_role := r; ak_user_id := None;
                           ak_created_at := 0; ak_last_used_at := None |} |}.

Lemma api_needs_permission_witness :
  ∃ s, handle locked_config (key_holder GlobalRole.CancelBuild) (DeleteProjectCall 2) two_projects =
         (Ok (Refused s), two_projects) ∧ s ∈ [UNAUTHORIZED; FORBIDDEN].
Proof.
  apply api_needs_permission.
  intros [[(u & Hu & _)|(k & Hk & Hr)]|[(u & Hu & _)|(k & Hk & Hr)]]; simplify_eq/=.
Defined.

(** An administrator deletes the other project and tries to delete the declared one. *)
Lemma declared_project_untouched_witness :
  let w1 := (handle locked_config (key_holder GlobalRole.Admin) (DeleteProjectCall 2) two_projects).2 in
  let w2 := (handle locked_config (key_holder GlobalRole.Admin) (DeleteProjectCall 1) w1).2 in
  w_projects w2 !! 2 = None ∧ same_part 1 two_projects w2.
Proof.
  intros w1 w2. split; [vm_compute; reflexivity|].
  apply (declared_project_untouched locked_config 1 two_projects w2).
  - exists (project_ex 1 true). split_and!; [done..|by right].
  - intros k c Hc. done.
  - apply rtc_l with w1; [|apply rtc_once].
    + by exists (key_holder GlobalRole.Admin), (DeleteProjectCall 2).
    + by exists (key_holder GlobalRole.Admin), (DeleteProjectCall 1).
Defined.
