(* ===== verification/Bootstrap.v ===== *)
(** * Bootstrap from the declarative configuration

    [crates/common/src/bootstrap.rs]: at its start the server writes the configured projects
    with their jobsets, inputs, notifications, webhooks, channels and members, the API keys,
    the users and the remote builders into the tables, and removes what belongs to projects
    it manages and is no longer configured.  What the file system answers is an interface;
    ids, nonces and salts are drawn by an argument. *)

From S2P Require Import Prelude Types Float32 Base32 Codecs StorePath Db Frames Builds Builders NixJobs FlakeRefs Validate JobsetConfig Secrets Notify NotifyQueue Users Projects.

(** ** The configuration *)

Record DeclarativeProject := {
  dp_name : string;
  dp_repository_url : string;
  dp_description : option string;
  dp_allow_runtime_mutation : option bool;
  dp_cache_enabled : bool;
  dp_cache_url : option string;
  dp_cache_upstreams : list (string * option string);
  dp_jobsets : list DeclarativeJobset;
  dp_notifications : list notification_configs.DeclarativeNotification;
  dp_webhooks : list webhook_configs.DeclarativeWebhook;
  dp_channels : list channels.DeclarativeChannel;
  dp_members : list project_members.DeclarativeProjectMember;
}.

Record DeclarativeApiKey := {
  da_name : string;
  da_key : option string;
  da_key_file : option string;
  da_role : GlobalRole.t;
}.

Record DeclarativeUser := {
  du_username : string;
  du_email : string;
  du_full_name : option string;
  du_password : option string;
  du_password_file : option string;
  du_role : GlobalRole.t;
  du_enabled : bool;
}.

Record DeclarativeConfig := {
  dc_allow_runtime_mutation : bool;
  dc_projects : list DeclarativeProject;
  dc_api_keys : list DeclarativeApiKey;
  dc_users : list DeclarativeUser;
  dc_remote_builders : list RemoteBuilderParams;
}.

(** What is drawn, by what it is drawn for. *)
Record Drawn := {
  dr_project : string → Uuid;
  dr_jobset : Uuid → string → Uuid;
  dr_input : Uuid → string → Uuid;
  dr_notification : Uuid → string → Uuid;
  dr_webhook : Uuid → ForgeType.t → Uuid;
  dr_nonce : Uuid → ForgeType.t → option (list Z);
  dr_channel : Uuid → string → Uuid;
  dr_member : Uuid → Uuid → Uuid;
  dr_key : string → Uuid;
  dr_user : string → Uuid;
  dr_salt : string → string;
}.

(** [shellexpand::full] and [std::fs::read_to_string]; [None] is an error. *)
Class Files := {
  shell_expand : string → option string;
  read_to_string : string → option string;
}.

Definition resolve_secret `{Files} (inline file : option string) : option string :=
  match inline with
  | Some s => Some s
  | None =>
      let* f := file in
      trim <$> read_to_string (default f (shell_expand f))
  end.

Definition resolve_webhook_secret `{Files} (wh : webhook_configs.DeclarativeWebhook) :
    option string :=
  resolve_secret (webhook_configs.dw_secret wh) (webhook_configs.dw_secret_file wh).

Definition should_reconcile (authoritative is_empty : bool) : bool := authoritative || negb is_empty.

Definition is_nil {A} (l : list A) : bool := match l with [] => true | _ => false end.

(** [if] without [else]. *)
Definition when (b : bool) (m : M ()) : M () := if b then m else mret ().

(** [for]: the first error ends it. *)
Fixpoint for_each {A} (f : A → M ()) (l : list A) : M () :=
  match l with
  | [] => mret ()
  | x :: l => f x ;;! for_each f l
  end.

(** [repo::jobsets::list_for_project], by names. *)
Definition JOBSETS_LISTED : nat := 1000.

Definition jobset_map (project : Uuid) : M (gmap string Uuid) :=
  read (λ w,
    foldl (λ m j, <[j_name j := j_id j]> m) ∅
      (firstn JOBSETS_LISTED
         (sort_by (λ a b, Z.compare (j_created_at b) (j_created_at a))
            (List.filter (λ j, j_project_id j =? project) (rows (w_jobsets w)))))).

Definition USERS_LISTED : nat := 100 * 100.

Definition user_map (l : list User) : gmap string Uuid :=
  foldl (λ m u, <[u_username u := u_id u]> m) ∅ l.

Section bootstrap.
Context `{UrlHost, Files, Cipher, PasswordHash}.
Variable dr : Drawn.

(** ** Projects *)

Definition declared_project (d : DeclarativeProject) : CreateProject :=
  {| cp_name := dp_name d; cp_description := dp_description d;
     cp_repository_url := dp_repository_url d; cp_cache_enabled := dp_cache_enabled d;
     cp_cache_url := dp_cache_url d; cp_cache_upstreams := dp_cache_upstreams d |}.

Definition bootstrap_jobset (authoritative : bool) (project : Uuid) (js : DeclarativeJobset) : M () :=
  let! j := upsert_jobset (dr_jobset dr project (dj_name js)) (declared_input project js) in
  when (should_reconcile authoritative (is_nil (dj_inputs js)))
    (sync_for_jobset (dr_input dr) (j_id j) (dj_inputs js)).

Definition sync_declarative_project (d : DeclarativeProject) (allow_runtime_mutation : bool)
    (key : option string) : M () :=
  let authoritative := negb allow_runtime_mutation in
  let! p := projects.upsert_declarative (dr_project dr (dp_name d)) (declared_project d)
              (dp_allow_runtime_mutation d) in
  for_each (bootstrap_jobset authoritative (p_id p)) (dp_jobsets d) ;;!
  when authoritative
    (let! _ := delete_jobsets_except (p_id p) (dj_name <$> dp_jobsets d) in mret ()) ;;!
  let! jobsets := jobset_map (p_id p) in
  when (should_reconcile authoritative (is_nil (dp_notifications d)))
    (notification_configs.sync_for_project (dr_notification dr (p_id p)) (p_id p)
       (dp_notifications d)) ;;!
  when (should_reconcile authoritative (is_nil (dp_webhooks d)))
    (webhook_configs.sync_for_project (dr_webhook dr (p_id p)) (dr_nonce dr (p_id p)) (p_id p)
       (dp_webhooks d) resolve_webhook_secret key) ;;!
  when (should_reconcile authoritative (is_nil (dp_channels d)))
    (channels.sync_for_project (dr_channel dr (p_id p)) (p_id p) (dp_channels d)
       (λ name, jobsets !! name)).

(** What a project, or else the installation, allows at run time. *)
Definition allows (cfg : DeclarativeConfig) (d : DeclarativeProject) : bool :=
  default (dc_allow_runtime_mutation cfg) (dp_allow_runtime_mutation d).

Definition sync_declarative_projects (cfg : DeclarativeConfig) (key : option string) : M () :=
  for_each (λ d, sync_declarative_project d (allows cfg d) key) (dc_projects cfg) ;;!
  let! _ := projects.delete_declarative_except (dp_name <$> dc_projects cfg)
              (dc_allow_runtime_mutation cfg) in
  mret ().

Definition sync_project_members (cfg : DeclarativeConfig) : M () :=
  let! l := users.list USERS_LISTED 0 in
  let known := user_map l in
  for_each (λ d,
    when (should_reconcile (negb (allows cfg d)) (is_nil (dp_members d)))
      (let! p := projects.get_by_name (dp_name d) in
       project_members.sync_for_project (dr_member dr (p_id p)) (p_id p) (dp_members d)
         (λ username, known !! username)))
    (dc_projects cfg).

(** ** Keys, users and builders *)

Definition sync_api_key (d : DeclarativeApiKey) : M () :=
  match resolve_secret (da_key d) (da_key_file d) with
  | None => mret ()
  | Some key =>
      let key_hash := users.token_hash key in
      let! _ := api_keys.upsert (dr_key dr key_hash) (da_name d) key_hash (da_role d) in mret ()
  end.

Definition user_update (d : DeclarativeUser) (password : option string) : users.UpdateUser :=
  {| users.uu_email := Some (du_email d); users.uu_full_name := du_full_name d;
     users.uu_password := password; users.uu_role := Some (du_role d);
     users.uu_enabled := Some (du_enabled d); users.uu_public_dashboard := None |}.

Definition user_create (d : DeclarativeUser) (password : string) : users.CreateUser :=
  {| users.cu_username := du_username d; users.cu_email := du_email d;
     users.cu_full_name := du_full_name d; users.cu_password := password;
     users.cu_role := Some (du_role d) |}.

(** Only the look-up can fail; what fails later is logged. *)
Definition sync_user (d : DeclarativeUser) : M () :=
  let password := resolve_secret (du_password d) (du_password_file d) in
  let! existing := users.get_by_username (du_username d) in
  match existing, password with
  | Some u, _ =>
      let! _ := mtry (users.update (u_id u) (dr_salt dr (du_username d)) (user_update d password) None) in
      mret ()
  | None, Some password =>
      let! r := mtry (users.create (dr_user dr (du_username d)) (dr_salt dr (du_username d))
                        (user_create d password) None) in
      match r with
      | Ok u =>
          when (negb (du_enabled d)) (let! _ := mtry (users.set_enabled (u_id u) false) in mret ())
      | Err _ => mret ()
      end
  | None, None => mret ()
  end.

Definition sync_remote_builders (cfg : DeclarativeConfig) : M () :=
  when (negb (is_nil (dc_remote_builders cfg))) (remote_builders.sync_all (dc_remote_builders cfg)).

(** The notification is a statement of its own, whose failure is logged. *)
Definition notify_evaluator : M () := let! _ := mtry (read (λ _, ())) in mret ().

Definition run (cfg : DeclarativeConfig) (key : option string) : M () :=
  sync_declarative_projects cfg key ;;!
  for_each sync_api_key (dc_api_keys cfg) ;;!
  for_each sync_user (dc_users cfg) ;;!
  sync_remote_builders cfg ;;!
  sync_project_members cfg ;;!
  notify_evaluator.
End bootstrap.
