(* ===== verification/Schema.v ===== *)
(** * The schema of the database

    The constraints of the tables of projects and of everything below them ([schema_ok]):
    rows under their identifiers, unique names, references to rows that exist.  They hold
    after every call of the API and every bootstrap, whatever fails on the way; the cascades
    of a deletion are where that is not obvious. *)

From S2P Require Import Prelude Types Float32 Base32 Codecs StorePath Db Frames Tables Builds Evaluations Builders NixJobs FlakeRefs Validate JobsetConfig Secrets Notify NotifyQueue Users Auth AuthApi Access Accounts BuildGraph Projects ProjectApi ProjectAccess Bootstrap.

#[local] Set Warnings "-clear-no-such-hyp".

(** ** The constraints *)

(** All but what a channel points at, which a deletion checks at its end. *)
Record linked (w : World) : Prop := {
  sc_projects : keyed_by p_id (w_projects w);
  sc_project_names : unique_on p_name (w_projects w);
  sc_jobsets : keyed_by j_id (w_jobsets w);
  sc_jobset_names : unique_on (λ j, (j_project_id j, j_name j)) (w_jobsets w);
  sc_jobset_project : refers (λ _ j, Some (j_project_id j)) (w_jobsets w) (w_projects w);
  sc_input_jobset : refers (λ k _, Some k.1) (w_inputs w) (w_jobsets w);
  sc_head_jobset : refers (λ k _, Some k.1) (w_source_heads w) (w_jobsets w);
  sc_evaluation_jobset : refers (λ _ e, Some (e_jobset_id e)) (w_evaluations w) (w_jobsets w);
  sc_superseded_by : refers (λ _ e, e_superseded_by e) (w_evaluations w) (w_evaluations w);
  sc_build_evaluation : refers (λ _ b, Some (b_evaluation_id b)) (w_builds w) (w_evaluations w);
  sc_output_build : refers (λ k _, Some k.1) (w_outputs w) (w_builds w);
  sc_dependencies : ∀ a b, (a, b) ∈ w_deps w → is_Some (w_builds w !! a) ∧ is_Some (w_builds w !! b);
  sc_webhooks : keyed_by wc_id (w_webhook_configs w);
  sc_webhook_forges : unique_on (λ c, (wc_project_id c, wc_forge_type c)) (w_webhook_configs w);
  sc_webhook_project : refers (λ _ c, Some (wc_project_id c)) (w_webhook_configs w) (w_projects w);
  sc_notification_project : refers (λ k _, Some k.1) (w_notification_configs w) (w_projects w);
  sc_channels : keyed_by ch_id (w_channels w);
  sc_channel_names : unique_on (λ c, (ch_project_id c, ch_name c)) (w_channels w);
  sc_channel_project : refers (λ _ c, Some (ch_project_id c)) (w_channels w) (w_projects w);
  sc_channel_jobset : refers (λ _ c, Some (ch_jobset_id c)) (w_channels w) (w_jobsets w);
  sc_member_project : refers (λ _ m, Some (pm_project_id m)) (w_project_members w) (w_projects w);
  sc_narinfo_build : refers (λ _ r, nr_build_id r) (w_narinfos w) (w_builds w);
  sc_narinfo_project : refers (λ _ r, nr_project_id r) (w_narinfos w) (w_projects w);
  sc_owner_build : refers (λ _ o, o) (w_narinfo_projects w) (w_builds w);
  sc_owner_project : refers (λ k _, Some k.2) (w_narinfo_projects w) (w_projects w);
}.

Definition pointed (w : World) : Prop :=
  refers (λ _ c, ch_current_evaluation_id c) (w_channels w) (w_evaluations w).

Definition schema_ok (w : World) : Prop := linked w ∧ pointed w.

Definition typed (w w' : World) : Prop := schema_ok w → schema_ok w'.

#[local] Instance typed_preorder : PreOrder typed.
Proof. split; [by intros w H|]. intros w1 w2 w3 H1 H2 H. by apply H2, H1. Qed.

Lemma typed_faults w fs : typed w (set_w_faults fs w).
Proof. by intros [[] ?]; split; [split|]. Qed.

(** ** Deletion *)

Lemma forget_some (gone : gset Z) o i :
  BuildSql.forget_builds gone o = Some i → o = Some i ∧ i ∉ gone.
Proof.
  unfold BuildSql.forget_builds. destruct o as [j|]; [|done]. by case_bool_decide; intros [= ->].
Qed.

Lemma gone_of_spec {A} (p : A → bool) (t : gmap Z A) i :
  i ∈ gone_of p t ↔ ∃ x, t !! i = Some x ∧ p x = true.
Proof.
  unfold gone_of. rewrite elem_of_dom. unfold is_Some. setoid_rewrite map_lookup_filter_Some.
  simpl. naive_solver.
Qed.

Lemma without_builds_linked bs w : linked w → linked (without_builds bs w).
Proof.
  intros []. split; simpl; try done.
  - by apply refers_filter.
  - apply refers_cascade; [done|]. intros k x i Hk [= <-]. done.
  - intros a b. rewrite list_elem_of_In, filter_In, <-list_elem_of_In. simpl. intros [Hin Hd].
    apply negb_true_iff, orb_false_iff in Hd as [Ha%bool_decide_eq_false Hb%bool_decide_eq_false].
    destruct (sc_dependencies0 a b Hin) as [[x Hx] [y Hy]].
    split; [exists x|exists y]; by apply map_lookup_filter_Some.
  - apply refers_forget; [done|]. intros k r i. apply forget_some.
  - by apply refers_fmap.
  - apply refers_forget; [done|]. intros k o i. apply forget_some.
  - intros k o i (x & _ & Hx)%lookup_fmap_Some. by apply sc_owner_project0 with x.
Qed.

(** What an evaluation that stays may refer to. *)
Lemma kept_evaluation (es : gset Z) (t : gmap Z Evaluation) i :
  is_Some (t !! i) → i ∉ es →
  is_Some (((λ e, set_superseded_by (BuildSql.forget_builds es (e_superseded_by e)) e) <$>
     filter (λ ke, ke.1 ∉ es) t) !! i).
Proof.
  intros [e He] Hi. rewrite lookup_fmap, fmap_is_Some. exists e. by apply map_lookup_filter_Some.
Qed.

(** The tables that refer to jobsets and evaluations, once the builds are gone. *)
Lemma rest_without_jobsets (js es : gset Z) w :
  linked w → (∀ i e, w_evaluations w !! i = Some e → e_jobset_id e ∈ js → i ∈ es) →
  (∀ k b, w_builds w !! k = Some b → b_evaluation_id b ∉ es) →
  linked (set_w_jobsets (filter (λ kj, kj.1 ∉ js) (w_jobsets w))
    (set_w_evaluations
       ((λ e, set_superseded_by (BuildSql.forget_builds es (e_superseded_by e)) e) <$>
          filter (λ ke, ke.1 ∉ es) (w_evaluations w))
      (set_w_source_heads (filter (λ kv, kv.1.1 ∉ js) (w_source_heads w))
        (set_w_inputs (filter (λ kv, kv.1.1 ∉ js) (w_inputs w))
          (set_w_channels (filter (λ kc, ch_jobset_id kc.2 ∉ js) (w_channels w)) w))))).
Proof.
  intros [] Hes Hbs. split; simpl; try done; auto with tables.
  - apply refers_cascade; [done|]. by intros k x i Hk [= <-].
  - apply refers_cascade; [done|]. by intros k x i Hk [= <-].
  - intros k y i (e & <- & [He Hk]%map_lookup_filter_Some)%lookup_fmap_Some [= <-].
    destruct (sc_evaluation_jobset0 k e _ He eq_refl) as [j Hj]. exists j.
    apply map_lookup_filter_Some. split; [done|]. intros Hin. by apply Hk, (Hes k e).
  - intros k y i (e & <- & [He Hk]%map_lookup_filter_Some)%lookup_fmap_Some [Hi Hn]%forget_some.
    by apply kept_evaluation; [apply (sc_superseded_by0 k e)|].
  - intros k b i Hb [= <-].
    by apply kept_evaluation; [apply (sc_build_evaluation0 k b)|apply (Hbs k)].
  - apply refers_cascade; [done|]. by intros k x i Hk [= <-].
Qed.

Lemma without_jobsets_linked js w : linked w → linked (without_jobsets js w).
Proof.
  intros Hw. apply rest_without_jobsets; [by apply without_builds_linked|..].
  - intros i e He Hj. apply gone_of_spec. exists e. by rewrite bool_decide_eq_true.
  - intros k b [Hb Hk]%map_lookup_filter_Some Hin. apply Hk, gone_of_spec. exists b.
    by rewrite bool_decide_eq_true.
Qed.

(** The tables that refer to projects only. *)
Lemma rest_without_projects ps w :
  linked w → (∀ k j, w_jobsets w !! k = Some j → j_project_id j ∉ ps) →
  linked (set_w_projects (filter (λ kp, kp.1 ∉ ps) (w_projects w))
    (set_w_webhook_configs (filter (λ kc, wc_project_id kc.2 ∉ ps) (w_webhook_configs w))
      (set_w_notification_configs (filter (λ kv, kv.1.1 ∉ ps) (w_notification_configs w))
        (set_w_channels (filter (λ kc, ch_project_id kc.2 ∉ ps) (w_channels w))
          (set_w_project_members (filter (λ km, pm_project_id km.2 ∉ ps) (w_project_members w))
            (set_w_narinfos (forget_project ps <$> w_narinfos w)
              (set_w_narinfo_projects (filter (λ ko, ko.1.2 ∉ ps) (w_narinfo_projects w)) w))))))).
Proof.
  intros [] Hj. split; simpl; try done; auto with tables.
  - intros k j i Hk [= <-]. destruct (sc_jobset_project0 k j (j_project_id j) Hk eq_refl) as [p Hp].
    exists p. apply map_lookup_filter_Some. split; [done|]. by apply (Hj k).
  - apply refers_cascade; [done|]. by intros k x i Hk [= <-].
  - apply refers_cascade; [done|]. by intros k x i Hk [= <-].
  - apply refers_cascade; [done|]. by intros k x i Hk [= <-].
  - apply refers_cascade; [done|]. by intros k x i Hk [= <-].
  - by apply refers_fmap.
  - apply refers_forget; [done|]. intros k r i. apply forget_some.
  - apply refers_cascade; [done|]. by intros k x i Hk [= <-].
Qed.

(** A jobset that stays belongs to a project that stays. *)
Lemma without_projects_linked ps w : linked w → linked (without_projects ps w).
Proof.
  intros Hw. apply rest_without_projects; [by apply without_jobsets_linked|].
  intros k j [Hj Hk]%map_lookup_filter_Some Hin. apply Hk, gone_of_spec. exists j.
  by rewrite bool_decide_eq_true.
Qed.

Lemma not_dangling w : dangling w = false → pointed w.
Proof.
  intros Hd k c i Hc Hi. destruct (w_evaluations w !! i) eqn:He; [done|]. exfalso.
  assert (Ht : dangling w = true); [|congruence]. apply existsb_exists. exists c.
  split; [apply list_elem_of_In, elem_of_rows; by exists k|]. by rewrite Hi, He.
Qed.

Lemma delete_checked_typed n w w' :
  (linked w → linked w') → typed w (delete_checked n w' w).2.
Proof.
  intros Hl [Hw Hp]. unfold delete_checked. destruct (dangling w') eqn:Hd; [done|].
  split; [by apply Hl|by apply not_dangling].
Qed.

(** ** Rows *)

Lemma put_project k pr w :
  p_id pr = k → (∀ i x, w_projects w !! i = Some x → p_name x = p_name pr → i = k) →
  typed w (set_w_projects (<[k := pr]> (w_projects w)) w).
Proof.
  intros Hk Hn [[] ?]. split; [split|done]; simpl; try done; auto with tables.
  by apply unique_insert.
Qed.

Lemma put_jobset k j w :
  j_id j = k → is_Some (w_projects w !! j_project_id j) →
  (∀ i x, w_jobsets w !! i = Some x → j_project_id x = j_project_id j → j_name x = j_name j → i = k) →
  typed w (set_w_jobsets (<[k := j]> (w_jobsets w)) w).
Proof.
  intros Hk Hp Hn [[] ?]. split; [split|done]; simpl; try done; auto with tables.
  - apply unique_insert; [done|]. intros i x Hx [= ? ?]. by apply (Hn i x).
  - apply refers_insert; [done|]. by intros i [= <-].
Qed.

Lemma put_input k i w :
  is_Some (w_jobsets w !! k.1) → typed w (set_w_inputs (<[k := i]> (w_inputs w)) w).
Proof.
  intros Hj [[] ?]. split; [split|done]; simpl; try done.
  apply refers_insert; [done|]. by intros x [= <-].
Qed.

Lemma put_notification k c w :
  is_Some (w_projects w !! k.1) →
  typed w (set_w_notification_configs (<[k := c]> (w_notification_configs w)) w).
Proof.
  intros Hj [[] ?]. split; [split|done]; simpl; try done.
  apply refers_insert; [done|]. by intros x [= <-].
Qed.

Lemma put_webhook k c w :
  wc_id c = k → is_Some (w_projects w !! wc_project_id c) →
  (∀ i x, w_webhook_configs w !! i = Some x → wc_project_id x = wc_project_id c →
          wc_forge_type x = wc_forge_type c → i = k) →
  typed w (set_w_webhook_configs (<[k := c]> (w_webhook_configs w)) w).
Proof.
  intros Hk Hp Hn [[] ?]. split; [split|done]; simpl; try done; auto with tables.
  - apply unique_insert; [done|]. intros i x Hx [= ? ?]. by apply (Hn i x).
  - apply refers_insert; [done|]. by intros i [= <-].
Qed.

Lemma put_channel k c w :
  ch_id c = k → is_Some (w_projects w !! ch_project_id c) → is_Some (w_jobsets w !! ch_jobset_id c) →
  (∀ e, ch_current_evaluation_id c = Some e → is_Some (w_evaluations w !! e)) →
  (∀ i x, w_channels w !! i = Some x → ch_project_id x = ch_project_id c →
          ch_name x = ch_name c → i = k) →
  typed w (set_w_channels (<[k := c]> (w_channels w)) w).
Proof.
  intros Hk Hp Hj He Hn [[] ?]. split; [split|]; simpl; try done; auto with tables.
  - apply unique_insert; [done|]. intros i x Hx [= ? ?]. by apply (Hn i x).
  - apply refers_insert; [done|]. by intros i [= <-].
  - apply refers_insert; [done|]. by intros i [= <-].
  - by apply refers_insert.
Qed.

Lemma put_member k m w :
  is_Some (w_projects w !! pm_project_id m) →
  typed w (set_w_project_members (<[k := m]> (w_project_members w)) w).
Proof.
  intros Hp [[] ?]. split; [split|done]; simpl; try done.
  apply refers_insert; [done|]. by intros i [= <-].
Qed.

Lemma put_evaluation k e w :
  is_Some (w_jobsets w !! e_jobset_id e) → e_superseded_by e = None →
  typed w (set_w_evaluations (<[k := e]> (w_evaluations w)) w).
Proof.
  intros Hj Hs [[] ?]. split; [split|]; simpl; try done; auto with tables.
  - apply refers_insert; [done|]. by intros i [= <-].
  - apply refers_insert; [auto with tables|]. intros i Hi. congruence.
  - apply refers_inserted. done.
Qed.

Lemma put_build k b b' w :
  w_builds w !! k = Some b → b_evaluation_id b' = b_evaluation_id b →
  typed w (set_w_builds (<[k := b']> (w_builds w)) w).
Proof.
  intros Hk He [[] ?]. split; [split|done]; simpl; try done; auto with tables.
  - apply refers_insert; [done|]. intros i [= <-]. rewrite He. by apply (sc_build_evaluation0 k b).
  - intros a c Hin. destruct (sc_dependencies0 a c Hin). rewrite !lookup_insert_is_Some'. auto.
Qed.

(** Rows that nothing refers to may go. *)
Lemma fewer_inputs P `{∀ kv, Decision (P kv)} w :
  typed w (set_w_inputs (filter P (w_inputs w)) w).
Proof. intros [[] ?]. split; [split|done]; simpl; try done; auto with tables. Qed.

Lemma fewer_notifications P `{∀ kv, Decision (P kv)} w :
  typed w (set_w_notification_configs (filter P (w_notification_configs w)) w).
Proof. intros [[] ?]. split; [split|done]; simpl; try done; auto with tables. Qed.

Lemma fewer_members P `{∀ kv, Decision (P kv)} w :
  typed w (set_w_project_members (filter P (w_project_members w)) w).
Proof. intros [[] ?]. split; [split|done]; simpl; try done; auto with tables. Qed.

Lemma fewer_webhooks P `{∀ kv, Decision (P kv)} w :
  typed w (set_w_webhook_configs (filter P (w_webhook_configs w)) w).
Proof. intros [[] ?]. split; [split|done]; simpl; try done; auto with tables. Qed.

Lemma fewer_channels P `{∀ kv, Decision (P kv)} w :
  typed w (set_w_channels (filter P (w_channels w)) w).
Proof. intros [[] ?]. split; [split|]; simpl; try done; auto with tables. by apply refers_filter. Qed.

Lemma delete_webhook k w : typed w (set_w_webhook_configs (delete k (w_webhook_configs w)) w).
Proof. intros [[] ?]. split; [split|done]; simpl; try done; auto with tables. Qed.

Lemma delete_channel_row k w : typed w (set_w_channels (delete k (w_channels w)) w).
Proof. intros [[] ?]. split; [split|]; simpl; try done; auto with tables. by apply refers_delete. Qed.

(** ** Statements *)

Ltac typed_query := apply leads_query; [apply _|apply typed_faults|].
Ltac typed_seq t := apply leads_mbind; [apply _|t|intros ?].
Ltac typed_read := apply leads_read; [apply _|apply typed_faults].
Ltac typed_done := let w := fresh in intros w; reflexivity.

Lemma typed_validation {A} (r : result string A) : leads typed (validation r).
Proof. destruct r; typed_done. Qed.

Lemma typed_create_project `{UrlHost} id input : leads typed (projects.create id input).
Proof.
  typed_seq ltac:(apply typed_validation). typed_query. intros w.
  destruct (projects.find_name _ _) eqn:Hf; [reflexivity|]. apply put_project; [done|].
  intros i x Hx Hn. pose proof (find_rows_none _ _ i x Hf Hx) as Hb. by rewrite bool_decide_eq_false in Hb.
Qed.

Lemma typed_update_project `{UrlHost} id input : leads typed (projects.update id input).
Proof.
  typed_seq ltac:(apply typed_validation).
  typed_seq ltac:(apply leads_or_not_found; [apply _|typed_read]). typed_query. intros w.
  destruct (w_projects w !! id) as [pr|] eqn:Hp; [|reflexivity].
  destruct (existsb _ _) eqn:He; [reflexivity|]. intros Hw. pose proof (sc_projects _ (proj1 Hw)) as Hk.
  revert Hw. apply put_project; [simpl; by apply Hk|]. intros i x Hx Hn. simpl in Hn.
  destruct (decide (p_id x = id)) as [Hi|Hi]; [by rewrite <-(Hk i x Hx)|]. exfalso.
  apply not_true_iff_false in He. apply He, existsb_exists. exists x.
  split; [apply list_elem_of_In, elem_of_rows; by exists i|].
  apply andb_true_iff. split; [by apply bool_decide_eq_true|]. by apply negb_true_iff, Z.eqb_neq.
Qed.

Lemma typed_upsert_project `{UrlHost} d id input : leads typed (projects.upsert_with d id input).
Proof.
  typed_seq ltac:(apply typed_validation). typed_query. intros w Hw.
  pose proof (sc_projects _ (proj1 Hw)) as Hk. pose proof (sc_project_names _ (proj1 Hw)) as Hu.
  revert Hw. destruct (projects.find_name _ _) as [old|] eqn:Hf.
  - apply (find_rows_some _ p_id) in Hf as [Ho Hn%bool_decide_eq_true]; [|done].
    apply put_project; [done|]. simpl. intros i x Hx Hn'. by apply (Hu i (p_id old) x old).
  - apply put_project; [done|]. intros i x Hx Hn.
    pose proof (find_rows_none _ _ i x Hf Hx) as Hb. by rewrite bool_decide_eq_false in Hb.
Qed.

Lemma typed_delete_project id : leads typed (projects.delete id).
Proof.
  typed_seq ltac:(typed_query; intros w; apply delete_checked_typed, without_projects_linked).
  destruct (_ =? _); typed_done.
Qed.

Lemma typed_delete_declarative names b : leads typed (projects.delete_declarative_except names b).
Proof. typed_query. intros w. apply delete_checked_typed, without_projects_linked. Qed.

(** No other jobset of the project has the name. *)
Lemma find_named_none project name w i x :
  find_named project name w = None → w_jobsets w !! i = Some x →
  j_project_id x = project → j_name x = name → False.
Proof.
  intros Hf Hx Hp Hn. pose proof (find_rows_none _ _ i x Hf Hx) as Hb. unfold named in Hb.
  apply andb_false_iff in Hb as [Hb|Hb]; [by apply Z.eqb_neq in Hb|by apply bool_decide_eq_false in Hb].
Qed.

Lemma find_named_some project name w j :
  keyed_by j_id (w_jobsets w) → find_named project name w = Some j →
  w_jobsets w !! j_id j = Some j ∧ j_project_id j = project ∧ j_name j = name.
Proof.
  intros Hk Hf. apply (find_rows_some _ j_id) in Hf as [Hj Hn]; [|done].
  apply andb_true_iff in Hn as [Hp%Z.eqb_eq Hn%bool_decide_eq_true]. done.
Qed.

Lemma typed_create_jobset id input : leads typed (create_jobset id input).
Proof.
  typed_seq ltac:(apply typed_validation). typed_query. intros w.
  destruct (find_named _ _ w) eqn:Hf; [reflexivity|].
  destruct (w_projects w !! _) eqn:Hp; [|reflexivity]. apply put_jobset; [done|simpl; by rewrite Hp|].
  intros i x Hx Hxp Hxn. exfalso. by eapply find_named_none.
Qed.

Lemma typed_upsert_jobset id input : leads typed (upsert_jobset id input).
Proof.
  typed_seq ltac:(apply typed_validation). typed_query. intros w.
  destruct (w_projects w !! _) eqn:Hp; [|reflexivity]. intros Hw.
  pose proof (sc_jobsets _ (proj1 Hw)) as Hk. pose proof (sc_jobset_names _ (proj1 Hw)) as Hu.
  revert Hw. destruct (find_named _ _ w) as [old|] eqn:Hf.
  - apply find_named_some in Hf as (Ho & Hop & Hon); [|done].
    apply put_jobset; [done|simpl; by rewrite Hop, Hp|]. intros i x Hx Hxp Hxn.
    apply (Hu i (j_id old) x old); [done..|]. by rewrite Hxp, Hxn.
  - apply put_jobset; [done|simpl; by rewrite Hp|]. intros i x Hx Hxp Hxn. exfalso.
    by eapply find_named_none.
Qed.

Lemma validated_typed {A B} (r : result string A) (m : M B) w :
  typed w (m w).2 → typed w ((validation r ;;! m) w).2.
Proof. intros Hm. unfold mbind, validation. by destruct r. Qed.

Lemma typed_update_jobset id input : leads typed (update_jobset id input).
Proof.
  intros w. apply validated_typed.
  apply (guarded_by typed typed_faults _ _ (λ w j, w_jobsets w !! id = Some j) (λ _, True));
    [by apply get_reads|tables|done..|]. clear w. intros ex w Hex _.
  apply validated_typed, validated_typed.
  apply (queried_by typed typed_faults _ (λ w, w_jobsets w !! id = Some ex)); [tables|done|].
  clear w Hex. intros w Hj. rewrite Hj. destruct (existsb _ _) eqn:He; [reflexivity|]. intros Hw.
  pose proof (sc_jobsets _ (proj1 Hw)) as Hk.
  pose proof (sc_jobset_project _ (proj1 Hw) id ex _ Hj eq_refl) as Hp.
  revert Hw. apply put_jobset; [simpl; by apply Hk|done|]. simpl. intros i x Hx Hxp Hxn.
  destruct (decide (j_id x = id)) as [Hi|Hi]; [by rewrite <-(Hk i x Hx)|]. exfalso.
  apply not_true_iff_false in He. apply He, existsb_exists. exists x.
  split; [apply list_elem_of_In, elem_of_rows; by exists i|]. unfold named.
  apply andb_true_iff. split; [|by apply negb_true_iff, Z.eqb_neq].
  apply andb_true_iff. split; [by apply Z.eqb_eq|by apply bool_decide_eq_true].
Qed.

Lemma typed_delete_jobset id : leads typed (delete_jobset id).
Proof.
  typed_seq ltac:(typed_query; intros w; apply delete_checked_typed, without_jobsets_linked).
  destruct (_ =? _); typed_done.
Qed.

Lemma typed_delete_jobsets_except project names : leads typed (delete_jobsets_except project names).
Proof. typed_query. intros w. apply delete_checked_typed, without_jobsets_linked. Qed.

Lemma typed_create_input id jobset d : leads typed (create_input id jobset d).
Proof.
  typed_seq ltac:(apply typed_validation). typed_query. intros w.
  destruct (w_inputs w !! _); [reflexivity|]. destruct (w_jobsets w !! jobset) eqn:Hj; [|reflexivity].
  apply put_input. simpl. by rewrite Hj.
Qed.

Lemma typed_upsert_input id jobset d : leads typed (upsert_input id jobset d).
Proof.
  typed_seq ltac:(apply typed_validation). typed_query. intros w.
  destruct (w_jobsets w !! jobset) eqn:Hj; [|reflexivity]. apply put_input. simpl. by rewrite Hj.
Qed.

Lemma typed_delete_inputs p id : leads typed (delete_inputs p id).
Proof.
  typed_seq ltac:(typed_query; intros w; apply fewer_inputs). destruct (_ =? _); typed_done.
Qed.

Lemma typed_sync_for_jobset new_id jobset l : leads typed (sync_for_jobset new_id jobset l).
Proof.
  typed_seq ltac:(typed_query; intros w; apply fewer_inputs).
  induction l as [|d l IH]; [typed_done|]. typed_seq ltac:(apply typed_upsert_input). exact IH.
Qed.

Lemma typed_sync_notifications new_id project l :
  leads typed (notification_configs.sync_for_project new_id project l).
Proof.
  typed_seq ltac:(typed_query; intros w; apply fewer_notifications).
  induction l as [|d l IH]; [typed_done|]. typed_seq idtac; [|exact IH].
  typed_query. intros w. destruct (w_projects w !! project) eqn:Hp; [|reflexivity].
  apply put_notification. simpl. by rewrite Hp.
Qed.

(** *** Webhook configurations *)

Lemma find_webhook_some project forge w c :
  keyed_by wc_id (w_webhook_configs w) → webhook_configs.find project forge w = Some c →
  w_webhook_configs w !! wc_id c = Some c ∧ wc_project_id c = project ∧ wc_forge_type c = forge.
Proof.
  intros Hk Hf. apply (find_rows_some _ wc_id) in Hf as [Hj Hn]; [|done].
  apply andb_true_iff in Hn as [Hp%Z.eqb_eq Hn%bool_decide_eq_true]. done.
Qed.

Lemma find_webhook_none project forge w i x :
  webhook_configs.find project forge w = None → w_webhook_configs w !! i = Some x →
  wc_project_id x = project → wc_forge_type x = forge → False.
Proof.
  intros Hf Hx Hp Hn. pose proof (find_rows_none _ _ i x Hf Hx) as Hb. simpl in Hb.
  apply andb_false_iff in Hb as [Hb|Hb]; [by apply Z.eqb_neq in Hb|by apply bool_decide_eq_false in Hb].
Qed.

Lemma not_refused project stored w :
  webhook_configs.refused project stored w = None → is_Some (w_projects w !! project).
Proof.
  unfold webhook_configs.refused. destruct (_ : bool); [done|]. by destruct (w_projects w !! project).
Qed.

Lemma typed_create_webhook `{Cipher} id nonce input secret key :
  leads typed (webhook_configs.create id nonce input secret key).
Proof.
  unfold webhook_configs.create. destruct (webhook_configs.encrypt_opt _ _ _); [|typed_done].
  typed_query. intros w. destruct (webhook_configs.too_long _); [reflexivity|].
  destruct (webhook_configs.find _ _ w) eqn:Hf; [reflexivity|].
  destruct (webhook_configs.refused _ _ w) eqn:Hr; [reflexivity|]. apply not_refused in Hr.
  apply put_webhook; [done..|]. simpl. intros i x Hx Hp Hn. exfalso. by eapply find_webhook_none.
Qed.

Lemma typed_upsert_webhook `{Cipher} id nonce project forge secret enabled key :
  leads typed (webhook_configs.upsert id nonce project forge secret enabled key).
Proof.
  unfold webhook_configs.upsert. destruct (webhook_configs.encrypt_opt _ _ _); [|typed_done].
  typed_query. intros w. destruct (webhook_configs.refused _ _ w) eqn:Hr; [reflexivity|].
  apply not_refused in Hr. intros Hw. pose proof (sc_webhooks _ (proj1 Hw)) as Hk.
  pose proof (sc_webhook_forges _ (proj1 Hw)) as Hu. revert Hw.
  destruct (webhook_configs.find _ _ w) as [old|] eqn:Hf.
  - apply find_webhook_some in Hf as (Ho & Hop & Hon); [|done].
    apply put_webhook; [done..|]. simpl. intros i x Hx Hp Hn.
    apply (Hu i (wc_id old) x old); [done..|]. by rewrite Hp, Hn, Hop, Hon.
  - apply put_webhook; [done..|]. simpl. intros i x Hx Hp Hn. exfalso. by eapply find_webhook_none.
Qed.

Lemma typed_delete_webhook id : leads typed (webhook_configs.delete id).
Proof.
  typed_seq ltac:(typed_query; intros w; apply delete_webhook). destruct (_ =? _); typed_done.
Qed.

Lemma typed_sync_webhooks `{Cipher} new_id nonce project l resolve key :
  leads typed (webhook_configs.sync_for_project new_id nonce project l resolve key).
Proof.
  typed_seq ltac:(typed_query; intros w; apply fewer_webhooks).
  induction l as [|d l IH]; [typed_done|]. typed_seq ltac:(apply typed_upsert_webhook). exact IH.
Qed.

(** *** Channels *)

Lemma find_channel_some project name w c :
  keyed_by ch_id (w_channels w) → channels.find project name w = Some c →
  w_channels w !! ch_id c = Some c ∧ ch_project_id c = project ∧ ch_name c = name.
Proof.
  intros Hk Hf. apply (find_rows_some _ ch_id) in Hf as [Hj Hn]; [|done].
  apply andb_true_iff in Hn as [Hp%Z.eqb_eq Hn%bool_decide_eq_true]. done.
Qed.

Lemma find_channel_none project name w i x :
  channels.find project name w = None → w_channels w !! i = Some x →
  ch_project_id x = project → ch_name x = name → False.
Proof.
  intros Hf Hx Hp Hn. pose proof (find_rows_none _ _ i x Hf Hx) as Hb. simpl in Hb.
  apply andb_false_iff in Hb as [Hb|Hb]; [by apply Z.eqb_neq in Hb|by apply bool_decide_eq_false in Hb].
Qed.

Lemma has_owners_spec project jobset w :
  channels.has_owners project jobset w = true →
  is_Some (w_projects w !! project) ∧ is_Some (w_jobsets w !! jobset).
Proof.
  unfold channels.has_owners. intros [Hp Hj]%andb_true_iff.
  by destruct (w_projects w !! project), (w_jobsets w !! jobset).
Qed.

Lemma typed_create_channel id input : leads typed (channels.create id input).
Proof.
  typed_query. intros w. destruct (channels.find _ _ w) eqn:Hf; simpl; [reflexivity|].
  destruct (channels.has_owners _ _ w) eqn:Ho; simpl; [|reflexivity].
  apply has_owners_spec in Ho as [Hp Hj].
  apply put_channel; [done..|]. simpl. intros i x Hx Hxp Hn. exfalso. by eapply find_channel_none.
Qed.

Lemma typed_upsert_channel id project name jobset :
  leads typed (channels.upsert id project name jobset).
Proof.
  typed_query. intros w. destruct (channels.has_owners _ _ w) eqn:Ho; simpl; [|reflexivity].
  apply has_owners_spec in Ho as [Hp Hj]. intros Hw.
  pose proof (sc_channels _ (proj1 Hw)) as Hk. pose proof (sc_channel_names _ (proj1 Hw)) as Hu.
  pose proof (proj2 Hw) as He. revert Hw. destruct (channels.find _ _ w) as [old|] eqn:Hf.
  - apply find_channel_some in Hf as (Ho & Hop & Hon); [|done].
    apply put_channel; [done..| |]; simpl.
    + intros e. by apply (He (ch_id old) old).
    + intros i x Hx Hxp Hn. apply (Hu i (ch_id old) x old); [done..|]. by rewrite Hxp, Hn, Hop, Hon.
  - apply put_channel; [done..|]. simpl. intros i x Hx Hxp Hn. exfalso. by eapply find_channel_none.
Qed.

Lemma typed_promote channel evaluation : leads typed (channels.promote channel evaluation).
Proof.
  apply leads_mbind; [apply _| |by intros [c|] w]. typed_query. intros w.
  destruct (w_channels w !! channel) as [c|] eqn:Hc; [|reflexivity].
  destruct (w_evaluations w !! evaluation) eqn:He; [|reflexivity]. intros Hw.
  pose proof (sc_channels _ (proj1 Hw)) as Hk. pose proof (sc_channel_names _ (proj1 Hw)) as Hu.
  pose proof (sc_channel_project _ (proj1 Hw) channel c _ Hc eq_refl) as Hp.
  pose proof (sc_channel_jobset _ (proj1 Hw) channel c _ Hc eq_refl) as Hj.
  revert Hw. apply put_channel; [simpl; by apply Hk|done..| |]; simpl.
  - intros ev [= <-]. by rewrite He.
  - intros i x Hx Hxp Hn. apply (Hu i channel x c); [done..|]. by rewrite Hxp, Hn.
Qed.

Lemma typed_delete_channel id : leads typed (channels.delete id).
Proof.
  typed_seq ltac:(typed_query; intros w; apply delete_channel_row). destruct (_ =? _); typed_done.
Qed.

Lemma typed_sync_channels new_id project l resolve :
  leads typed (channels.sync_for_project new_id project l resolve).
Proof.
  typed_seq ltac:(typed_query; intros w; apply fewer_channels).
  induction l as [|d l IH]; [typed_done|]. typed_seq idtac; [|exact IH].
  destruct (resolve _); [|typed_done]. typed_seq ltac:(apply typed_upsert_channel). typed_done.
Qed.

Lemma typed_auto_promote jobset evaluation :
  leads typed (channels.auto_promote_if_complete jobset evaluation).
Proof.
  apply leads_mbind; [apply _|typed_read|]. intros [total completed].
  destruct (_ || _); [typed_done|]. apply leads_mbind; [apply _|typed_read|]. intros l.
  induction l as [|c l IH]; [typed_done|].
  typed_seq ltac:(apply leads_mtry, typed_promote). exact IH.
Qed.

(** *** Members *)

Lemma typed_upsert_member id project user role :
  leads typed (project_members.upsert id project user role).
Proof.
  typed_query. intros w. destruct (project_members.find_row project user w) as [|m l] eqn:Hf.
  - destruct (w_project_members w !! id); [reflexivity|].
    destruct (project_members.references_ok _ _ w) eqn:Hr; [|reflexivity]. apply put_member. simpl.
    unfold project_members.references_ok in Hr. by destruct (w_projects w !! project).
  - intros Hw. assert (Hm : m ∈ rows (w_project_members w)).
    { assert (m ∈ project_members.find_row project user w) as Hin by (rewrite Hf; left).
      unfold project_members.find_row in Hin. apply list_elem_of_In, filter_In in Hin as [Hin _].
      by apply list_elem_of_In. }
    apply elem_of_rows in Hm as [i Hm].
    pose proof (sc_member_project _ (proj1 Hw) i m _ Hm eq_refl) as Hp. revert Hw. by apply put_member.
Qed.

Lemma typed_sync_members new_id project l resolve :
  leads typed (project_members.sync_for_project new_id project l resolve).
Proof.
  typed_seq ltac:(typed_query; intros w; apply fewer_members).
  induction l as [|m l IH]; [typed_done|]. typed_seq idtac; [|exact IH].
  destruct (resolve _); [|typed_done]. typed_seq ltac:(apply typed_upsert_member). typed_done.
Qed.

(** *** Builds and evaluations *)

Lemma typed_update id guard f :
  (∀ b b', f b = Some b' → b_evaluation_id b' = b_evaluation_id b) → leads typed (Sql.update id guard f).
Proof.
  intros Hf. typed_query. intros w. destruct (w_builds w !! id) as [b|] eqn:Hb; [|reflexivity].
  destruct (guard b); [|reflexivity]. destruct (f b) as [b'|] eqn:Hb'; [|reflexivity].
  apply (put_build id b); [done|]. by apply Hf.
Qed.

Lemma typed_cancel id : leads typed (builds.cancel id).
Proof.
  apply leads_or_not_found; [apply _|]. intros w. apply typed_update. by intros b b' [= <-].
Qed.

Lemma typed_cancel_cascade id : leads typed (builds.cancel_cascade id).
Proof.
  assert (Hdeps : ∀ deps stack acc, leads typed (builds.cancel_dependents deps stack acc)).
  { induction deps as [|d deps IH]; intros stack acc; [typed_done|].
    apply leads_mbind; [apply _|apply leads_mtry, typed_cancel|]. intros [b|e]; apply IH. }
  assert (Hloop : ∀ fuel stack acc, leads typed (builds.cancel_loop fuel stack acc)).
  { induction fuel as [|fuel IH]; intros [|b stack] acc; try typed_done. simpl.
    apply leads_mbind; [apply _|typed_read|]. intros deps.
    apply leads_mbind; [apply _|apply Hdeps|]. intros [stack' acc']. apply IH. }
  intros w. unfold builds.cancel_cascade. generalize (S (builds.active_count w)). intros n. revert w.
  apply leads_mbind; [apply _|apply leads_mtry, typed_cancel|]. intros r. apply Hloop.
Qed.

Lemma typed_restart id : leads typed (builds.restart id).
Proof.
  apply leads_mbind; [apply _|apply leads_or_not_found, typed_update; [apply _|]|].
  - intros b b'. destruct (Sql.i32_ok _); [|done]. by intros [= <-].
  - intros b. apply leads_mbind; [apply _| |intros ?; typed_done]. apply leads_mtry. typed_query.
    intros w [[] ?]. by split; [split|].
Qed.

Lemma typed_create_manual id input : leads typed (Evals.create_manual id input).
Proof.
  typed_query. intros w. unfold Evals.insert_evaluation. destruct (_ && _); [reflexivity|].
  destruct (w_jobsets w !! _) eqn:Hj; [|reflexivity]. apply put_evaluation; [simpl; by rewrite Hj|done].
Qed.

(** ** The API *)

Lemma typed_api (m : M Answer) : leads typed m → leads typed (api m).
Proof.
  intros Hm w. specialize (Hm w). unfold api, mbind, mtry. by destruct (m w).
Qed.

Lemma typed_as_admin ex (m : M Answer) : leads typed m → leads typed (as_admin ex m).
Proof. intros Hm. unfold as_admin. destruct (require_admin ex); [by apply typed_api|typed_done]. Qed.

Lemma typed_with_permission ex q (m : M Answer) : leads typed m → leads typed (with_permission ex q m).
Proof. intros Hm. apply typed_api. typed_seq ltac:(apply leads_lift, _). exact Hm. Qed.

Lemma typed_project_gate cf id : leads typed (require_project_mutable cf id).
Proof.
  typed_seq ltac:(apply leads_or_not_found; [apply _|typed_read]). destruct (negb _); typed_done.
Qed.

Lemma typed_jobset_gate cf id : leads typed (require_jobset_mutable cf id).
Proof.
  typed_seq ltac:(apply leads_or_not_found; [apply _|typed_read]).
  typed_seq ltac:(apply typed_project_gate). typed_done.
Qed.

Lemma typed_setup_jobsets new_id project l : leads typed (setup_jobsets new_id project l).
Proof.
  induction l as [|i l IH]; [typed_done|]. typed_seq ltac:(apply typed_validation).
  typed_seq ltac:(apply typed_create_jobset). typed_seq ltac:(exact IH). typed_done.
Qed.

Lemma typed_delete_for_jobset jobset id : leads typed (delete_input_for_jobset jobset id).
Proof. apply typed_delete_inputs. Qed.

Lemma typed_bump id delta : leads typed (builds.bump_priority id delta).
Proof. apply typed_update. intros b b'. destruct (Sql.i32_ok _); [|done]. by intros [= <-]. Qed.

Lemma typed_set_keep id value : leads typed (builds.set_keep id value).
Proof. apply leads_or_not_found; [apply _|]. apply typed_update. by intros b b' [= <-]. Qed.

Create HintDb typed.
#[local] Hint Resolve typed_validation typed_project_gate typed_jobset_gate typed_create_project
  typed_update_project typed_delete_project typed_create_jobset typed_update_jobset
  typed_delete_jobset typed_create_input typed_delete_inputs typed_create_webhook
  typed_delete_webhook typed_create_channel typed_delete_channel typed_promote typed_auto_promote
  typed_cancel_cascade typed_restart typed_create_manual typed_setup_jobsets typed_delete_for_jobset typed_bump typed_set_keep : typed.

Lemma typed_get_row {A} msg (f : World → option A) : leads typed (or_not_found msg (read f)).
Proof. apply leads_or_not_found; [apply _|typed_read]. Qed.
#[local] Hint Resolve typed_get_row : typed.

(** One computation after the other. *)
Ltac typed_steps :=
  repeat first [solve [auto with typed]|apply typed_get_row|apply leads_mbind; [apply _|auto with typed|intros ?]];
  try typed_done.

Lemma typed_handle `{UrlHost, Cipher} cf ex c : leads typed (handle cf ex c).
Proof.
  destruct c; simpl; first [apply typed_as_admin|apply typed_with_permission]; typed_steps.
  - destruct (is_empty _); typed_steps.
  - destruct (negb _); typed_steps.
  - destruct a as [[|]|]; typed_done.
  - destruct a; typed_done.
  - destruct (negb _); typed_steps.
  - apply leads_mtry. typed_read.
  - destruct a2 as [[e|]|]; try typed_done. destruct (bool_decide _); [|typed_done].
    typed_seq ltac:(apply leads_mtry, typed_auto_promote). typed_done.
Qed.

(** ** Accounts, keys and builders *)

(** The tables of the schema stay; those of accounts, keys and builders may change. *)
Definition beside (w w' : World) : Prop :=
  (w_projects w', w_jobsets w', w_inputs w', w_source_heads w', w_evaluations w', w_builds w',
   w_outputs w', w_deps w', w_webhook_configs w', w_notification_configs w', w_channels w',
   w_project_members w', w_narinfos w', w_narinfo_projects w') =
  (w_projects w, w_jobsets w, w_inputs w, w_source_heads w, w_evaluations w, w_builds w,
   w_outputs w, w_deps w, w_webhook_configs w, w_notification_configs w, w_channels w,
   w_project_members w, w_narinfos w, w_narinfo_projects w).

#[export] Instance beside_preorder : PreOrder beside.
Proof. split; [by intros w|]. intros w1 w2 w3 H1 H2. unfold beside in *. congruence. Qed.

Lemma beside_typed w w' : beside w w' → typed w w'.
Proof.
  intros H [Hl Hp]. injection H as E1 E2 E3 E4 E5 E6 E7 E8 E9 E10 E11 E12 E13 E14.
  split; [|unfold pointed; by rewrite E11, E5]. destruct Hl.
  split; rewrite ?E1, ?E2, ?E3, ?E4, ?E5, ?E6, ?E7, ?E8, ?E9, ?E10, ?E11, ?E12, ?E13, ?E14; done.
Qed.

Ltac beside_query := apply leads_query; [apply _|done|].
Ltac beside_seq t := apply leads_mbind; [apply _|t|intros ?].
Ltac beside_done := let w := fresh in intros w; reflexivity.

Lemma beside_update_row id f : leads beside (users.update_row id f).
Proof. by beside_query. Qed.

Lemma beside_update_email id e re : leads beside (users.update_email id e re).
Proof.
  beside_seq ltac:(apply leads_lift, _). beside_query. intros w.
  destruct (w_users w !! id); [|done]. by destruct (existsb _ _).
Qed.

Lemma beside_get_user id : leads beside (users.get id).
Proof. apply leads_or_not_found; [apply _|]. by beside_query. Qed.

Lemma beside_update_user `{PasswordHash} id salt data re : leads beside (users.update id salt data re).
Proof.
  unfold users.update, users.update_full_name, users.update_password.
  repeat (apply leads_mbind; [apply _|apply leads_when_some; [apply _|intros a _]|intros _]).
  - apply beside_update_email.
  - beside_seq ltac:(apply leads_lift, _). apply beside_update_row.
  - do 2 beside_seq ltac:(apply leads_lift, _). apply beside_update_row.
  - apply beside_update_row.
  - apply beside_update_row.
  - apply beside_update_row.
  - apply beside_get_user.
Qed.

Lemma beside_create_user `{PasswordHash} id salt data re : leads beside (users.create id salt data re).
Proof.
  unfold users.create. do 5 beside_seq ltac:(apply leads_lift, _). beside_query. intros w.
  destruct (_ || _); [done|]. destruct (w_users w !! id); [done|].
  destruct (users.named _ w); [|done]. by destruct (users.with_email _ w).
Qed.

Lemma beside_upsert_key id name hash role : leads beside (api_keys.upsert id name hash role).
Proof.
  beside_query. intros w. destruct (_ <? _); [done|]. destruct (api_keys.with_hash hash w); [|done].
  by destruct (w_api_keys w !! id).
Qed.

Lemma beside_sync_builders l : leads beside (remote_builders.sync_all l).
Proof.
  beside_seq idtac; [beside_query; intros w; cbv zeta; by destruct (existsb _ _)|].
  induction l as [|p l IH]; [beside_done|]. beside_seq ltac:(by beside_query). exact IH.
Qed.

(** ** The bootstrap *)

Lemma leads_for_each R `{!PreOrder R} {A} (f : A → M ()) l :
  (∀ x, x ∈ l → leads R (f x)) → leads R (for_each f l).
Proof.
  induction l as [|x l IH]; intros Hf; simpl; [by apply leads_mret|].
  apply leads_mbind; [done|apply Hf; left|]. intros _. apply IH. intros y Hy. apply Hf. by right.
Qed.

Lemma leads_when R `{!PreOrder R} b (m : M ()) : leads R m → leads R (when b m).
Proof. intros Hm. unfold when. destruct b; [done|by apply leads_mret]. Qed.

Section bootstrap.
Context `{UrlHost, Files, Cipher, PasswordHash}.
Variable dr : Drawn.

Lemma beside_sync_user d : leads beside (sync_user dr d).
Proof.
  beside_seq ltac:(by beside_query). destruct a as [u|].
  - beside_seq ltac:(apply leads_mtry, beside_update_user). beside_done.
  - destruct (resolve_secret _ _); [|beside_done].
    beside_seq ltac:(apply leads_mtry, beside_create_user). destruct a as [u|e]; [|beside_done].
    apply leads_when; [apply _|]. beside_seq ltac:(apply leads_mtry, beside_update_row). beside_done.
Qed.

Lemma beside_sync_key d : leads beside (sync_api_key dr d).
Proof.
  unfold sync_api_key. destruct (resolve_secret _ _); [|beside_done].
  beside_seq ltac:(apply beside_upsert_key). beside_done.
Qed.

Lemma leads_typed {A} (m : M A) : leads beside m → leads typed m.
Proof. intros Hm w. by apply beside_typed. Qed.

Lemma typed_bootstrap_jobset b project js : leads typed (bootstrap_jobset dr b project js).
Proof.
  typed_seq ltac:(apply typed_upsert_jobset). apply leads_when; [apply _|].
  apply typed_sync_for_jobset.
Qed.

Lemma typed_sync_project d allow key : leads typed (sync_declarative_project dr d allow key).
Proof.
  typed_seq ltac:(apply typed_upsert_project).
  typed_seq ltac:(apply leads_for_each; [apply _|intros js _; apply typed_bootstrap_jobset]).
  typed_seq ltac:(apply leads_when; [apply _|]; typed_seq ltac:(apply typed_delete_jobsets_except);
                  typed_done).
  typed_seq typed_read.
  typed_seq ltac:(apply leads_when; [apply _|]; apply typed_sync_notifications).
  typed_seq ltac:(apply leads_when; [apply _|]; apply typed_sync_webhooks).
  apply leads_when; [apply _|]. apply typed_sync_channels.
Qed.

Lemma typed_run cfg key : leads typed (run dr cfg key).
Proof.
  typed_seq idtac.
  { typed_seq ltac:(apply leads_for_each; [apply _|intros d _; apply typed_sync_project]).
    typed_seq ltac:(apply typed_delete_declarative). typed_done. }
  typed_seq ltac:(apply leads_for_each; [apply _|intros d _; apply leads_typed, beside_sync_key]).
  typed_seq ltac:(apply leads_for_each; [apply _|intros d _; apply leads_typed, beside_sync_user]).
  typed_seq ltac:(apply leads_when; [apply _|]; apply leads_typed, beside_sync_builders).
  typed_seq idtac; [|typed_seq ltac:(apply leads_mtry; typed_read); typed_done].
  typed_seq typed_read. apply leads_for_each; [apply _|]. intros d _. apply leads_when; [apply _|].
  typed_seq ltac:(apply typed_get_row). apply typed_sync_members.
Qed.

(** ** The schema over time *)

(** Calls of the API and restarts of the server, whatever they draw. *)
Definition server_step (cf : ApiConfig) (cfg : DeclarativeConfig) (key : option string)
    (w w' : World) : Prop :=
  (∃ ex c, w' = (handle cf ex c w).2) ∨ w' = (run dr cfg key w).2.

(** C22. The constraints of the schema hold after any calls of the API, by anybody, and any
    bootstraps of the server, whichever of their statements fail: identifiers and names are
    unique, and no jobset, input, evaluation, build, output, dependency, webhook,
    notification, channel, member or narinfo refers to a row that is not there, also where
    rows have been deleted with everything below them. *)
Theorem schema_invariant cf cfg key w w' :
  schema_ok w → rtc (server_step cf cfg key) w w' → schema_ok w'.
Proof.
  intros Hw Hrun. induction Hrun as [|w1 w2 w3 [Hs|Hs] _ IH]; [done|..]; apply IH.
  - destruct Hs as (ex & c & ->). by apply typed_handle.
  - rewrite Hs. by apply typed_run.
Qed.
End bootstrap.

(** ** Examples *)

Definition host_ref : UrlHost := λ _, Some "example.org".

(** A file system with one file. *)
Definition files_ref : Files := {|
  shell_expand := λ s, Some s;
  read_to_string := λ f, if bool_decide (f = "/secret") then Some " hunter2 " else None |}.

(** Draws that never collide. *)
Definition draw {A} `{Countable A} (a : A) : Uuid := Z.pos (encode a).

Lemma draw_inj {A} `{Countable A} (a b : A) : draw a = draw b → a = b.
Proof. intros [= E]. by apply encode_inj. Qed.

Definition draw_pair {A} `{Countable A} (p : Uuid) (a : A) : Uuid := draw (p, a).

Lemma draw_pair_inj {A} `{Countable A} p (a : A) q b : draw_pair p a = draw_pair q b → p = q ∧ a = b.
Proof. intros [= -> ->]%draw_inj. done. Qed.

Definition drawn_ref : Drawn := {|
  dr_project := draw; dr_jobset := draw_pair; dr_input := draw_pair; dr_notification := draw_pair;
  dr_webhook := λ p f, draw_pair p (ForgeType.as_str f); dr_nonce := λ _ _, None;
  dr_channel := draw_pair; dr_member := draw_pair; dr_key := draw; dr_user := draw;
  dr_salt := λ s, s |}.

Definition jobset_decl (name : string) : DeclarativeJobset :=
  {| dj_name := name; dj_nix_expression := "packages"; dj_enabled := true; dj_flake_mode := true;
     dj_check_interval := 60; dj_trigger_mode := None; dj_state := None; dj_branch := None;
     dj_branch_pattern := None; dj_tag_pattern := None; dj_scheduling_shares := 100;
     dj_keep_nr := None; dj_systems := None; dj_only_build_latest := false; dj_path_filters := [];
     dj_inputs := [] |}.

Definition project_decl (name : string) (jobsets : list string) : DeclarativeProject :=
  {| dp_name := name; dp_repository_url := "https://example.org/p"; dp_description := None;
     dp_allow_runtime_mutation := None; dp_cache_enabled := false; dp_cache_url := None;
     dp_cache_upstreams := []; dp_jobsets := jobset_decl <$> jobsets; dp_notifications := [];
     dp_webhooks := [];
     dp_channels := [{| channels.dc_name := "stable"; channels.dc_jobset_name := "main" |}];
     dp_members := [] |}.

Definition config_of (l : list DeclarativeProject) : DeclarativeConfig :=
  {| dc_allow_runtime_mutation := false; dc_projects := l; dc_api_keys := []; dc_users := [];
     dc_remote_builders := [] |}.

Definition boot (l : list DeclarativeProject) (w : World) : World :=
  (@run host_ref files_ref _ cipher_ref password_hash_ref drawn_ref (config_of l) None w).2.

Lemma empty_schema_ok : schema_ok empty_world.
Proof. split; [split|]; try (by intros i x); try (by intros i j x). by intros a b Hin%elem_of_nil. Qed.

(** The server starts with a declared project; an administrator sets up another one and
    deletes it; the server starts again. *)
Lemma schema_invariant_witness :
  let l := [project_decl "nix" ["main"]] in
  let ex := key_holder GlobalRole.Admin in
  let body := {| sp_repository_url := "https://example.org/q"; sp_name := "q";
                 sp_description := None;
                 sp_jobsets := [{| sj_name := "x"; sj_nix_expression := "packages";
                                   sj_systems := None |}] |} in
  let hnd c w := (@handle host_ref _ cipher_ref locked_config ex c w).2 in
  let w1 := boot l empty_world in
  let w2 := hnd (SetupProjectCall 2 (λ _, 3) body) w1 in
  let w3 := boot l (hnd (DeleteProjectCall 2) w2) in
  (size (w_projects w2), size (w_jobsets w2), size (w_channels w2)) = (2, 2, 1)%nat ∧
  (size (w_projects w3), size (w_jobsets w3), size (w_channels w3)) = (1, 1, 1)%nat ∧
  schema_ok w3.
Proof.
  intros l ex body hnd w1 w2 w3. split_and!; [vm_compute; reflexivity..|].
  apply (@schema_invariant host_ref files_ref _ cipher_ref password_hash_ref drawn_ref
           locked_config (config_of l) None empty_world); [apply empty_schema_ok|].
  apply rtc_l with w1; [by right|]. apply rtc_l with w2; [by left; exists ex; eexists|].
  apply rtc_l with (hnd (DeleteProjectCall 2) w2); [by left; exists ex; eexists|].
  apply rtc_once. by right.
Defined.
