(* ===== verification/Reconcile.v ===== *)
(** * What a bootstrap leaves

    After the bootstrap of a project without an error the tables say of it what its
    declaration says ([project_reconciled]), and a bootstrap leaves no project that was once
    declared and is no longer. *)

From S2P Require Import Prelude Types Float32 Base32 Codecs StorePath Db Frames Tables Builds Evaluations Builders NixJobs FlakeRefs Validate JobsetConfig Secrets Notify NotifyQueue Users Auth AuthApi Access Accounts BuildGraph Projects ProjectApi ProjectAccess Bootstrap Schema.

(** ** Keeping tables *)

Definition same {T} (f : World → T) (w w' : World) : Prop := f w' = f w.

#[export] Instance same_preorder {T} (f : World → T) : PreOrder (same f).
Proof. split; [by intros w|]. intros w1 w2 w3 H1 H2. unfold same in *. congruence. Qed.

Lemma same_query {T A} (f : World → T) (g : World → result CiError A * World) :
  (∀ w fs, f (set_w_faults fs w) = f w) → (∀ w, f (g w).2 = f w) → leads (same f) (query g).
Proof. intros Hf Hg. apply leads_query; [apply _|intros w fs; apply Hf|exact Hg]. Qed.

Lemma leads_ok {R : World → World → Prop} {A} (m : M A) w a w' :
  leads R m → m w = (Ok a, w') → R w w'.
Proof. intros Hm Hw. specialize (Hm w). by rewrite Hw in Hm. Qed.

(** The tables whose identifiers are drawn. *)
Definition shelf (w : World) := (w_projects w, w_jobsets w, w_webhook_configs w, w_channels w).

Lemma validation_ok {A B} (r : result string A) (m : M B) w b w' :
  (validation r ;;! m) w = (Ok b, w') → m w = (Ok b, w').
Proof. unfold mbind, validation. by destruct r. Qed.

(** ** Inputs *)

(** The columns of an input, one by one. *)
Definition declares_input (jobset : Uuid) (d : DeclarativeJobsetInput) (i : JobsetInput) : Prop :=
  ji_jobset_id i = jobset ∧ ji_name i = dji_name d ∧ ji_input_type i = dji_input_type d ∧
  ji_value i = dji_value d ∧ ji_revision i = dji_revision d.

(** The inputs of a jobset are those declared. *)
Definition inputs_exact (jobset : Uuid) (l : list DeclarativeJobsetInput) (w : World) : Prop :=
  (∀ n i, w_inputs w !! (jobset, n) = Some i → n ∈ dji_name <$> l) ∧
  ∀ d, d ∈ l → ∃ i, w_inputs w !! (jobset, dji_name d) = Some i ∧ declares_input jobset d i.

(** Only inputs of the jobset change, and of the names [l] gives. *)
Definition inputs_aside (jobset : Uuid) (names : list string) (w w' : World) : Prop :=
  (shelf w', w_notification_configs w') = (shelf w, w_notification_configs w) ∧
  ∀ k n, ¬ (k = jobset ∧ n ∈ names) → w_inputs w' !! (k, n) = w_inputs w !! (k, n).

Lemma upsert_input_ok id jobset d w i w' :
  upsert_input id jobset d w = (Ok i, w') →
  inputs_aside jobset [dji_name d] w w' ∧ w_inputs w' !! (jobset, dji_name d) = Some i ∧ declares_input jobset d i.
Proof.
  intros Hu%validation_ok. apply query_ok in Hu as [fs Hu]. simpl in Hu.
  destruct (w_jobsets w !! jobset); [|done]. injection Hu as <- <-. split_and!.
  - split; [done|]. intros k n Hn. simpl. apply lookup_insert_ne. intros [= <- <-]. apply Hn.
    split; [done|]. by left.
  - simpl. apply lookup_insert_eq.
  - by destruct (w_inputs w !! _).
Qed.

Lemma upsert_inputs_ok new_id jobset l w w' :
  NoDup (dji_name <$> l) → upsert_inputs new_id jobset l w = (Ok (), w') →
  inputs_aside jobset (dji_name <$> l) w w' ∧
  ∀ d, d ∈ l → ∃ i, w_inputs w' !! (jobset, dji_name d) = Some i ∧ declares_input jobset d i.
Proof.
  revert w. induction l as [|d l IH]; intros w Hnd Hw; simpl in Hw.
  { injection Hw as <-. split; [done|]. by intros d ?%elem_of_nil. }
  apply mbind_ok_inv in Hw as (i & w1 & Hi & Hw). apply upsert_input_ok in Hi as ([H1 H1'] & Hi & Hid).
  rewrite fmap_cons in Hnd. apply NoDup_cons in Hnd as [Hd Hnd].
  destruct (IH w1 Hnd Hw) as ([H2 H2'] & Hl). split.
  - split; [by rewrite H2|]. intros k n Hn. rewrite fmap_cons in Hn. rewrite H2', H1'; [done|..].
    + intros [-> [= ->]%list_elem_of_singleton]. apply Hn. split; [done|left].
    + intros [-> Hin]. apply Hn. split; [done|by right].
  - intros d' [->|Hin]%elem_of_cons; [|by apply Hl].
    exists i. split; [|done]. rewrite H2'; [done|]. by intros [_ ?].
Qed.

Lemma sync_for_jobset_ok new_id jobset l w w' :
  NoDup (dji_name <$> l) → sync_for_jobset new_id jobset l w = (Ok (), w') →
  (shelf w', w_notification_configs w') = (shelf w, w_notification_configs w) ∧
  (∀ k n, k ≠ jobset → w_inputs w' !! (k, n) = w_inputs w !! (k, n)) ∧ inputs_exact jobset l w'.
Proof.
  intros Hnd Hw. apply mbind_ok_inv in Hw as ([] & w1 & Hd & Hw).
  apply query_ok in Hd as [fs [= <-]]. apply upsert_inputs_ok in Hw as ([H1 H1'] & Hl); [|done].
  simpl in *. split_and!; [done|..].
  - intros k n Hk. rewrite H1' by (by intros [-> _]). rewrite map_lookup_filter.
    destruct (w_inputs w !! (k, n)); simpl; [|done]. by rewrite option_guard_True by (by intros [-> _]).
  - split; [|done]. intros n i Hi. destruct (decide (n ∈ dji_name <$> l)) as [|Hn]; [done|]. exfalso.
    rewrite H1' in Hi by (by intros [_ ?]). apply map_lookup_filter_Some in Hi as [_ Hi].
    by apply Hi.
Qed.

(** ** Draws *)

(** What is drawn for one row is not drawn for another, and not the identifier of another. *)
Record apart (dr : Drawn) (w : World) : Prop := {
  ap_project : ∀ n n', dr_project dr n = dr_project dr n' → n = n';
  ap_jobset : ∀ p n p' n', dr_jobset dr p n = dr_jobset dr p' n' → p = p' ∧ n = n';
  ap_webhook : ∀ p n p' n', dr_webhook dr p n = dr_webhook dr p' n' → p = p' ∧ n = n';
  ap_channel : ∀ p n p' n', dr_channel dr p n = dr_channel dr p' n' → p = p' ∧ n = n';
  ap_project_row : ∀ n x, w_projects w !! dr_project dr n = Some x → p_name x = n;
  ap_jobset_row : ∀ p n x, w_jobsets w !! dr_jobset dr p n = Some x →
    j_project_id x = p ∧ j_name x = n;
  ap_webhook_row : ∀ p n x, w_webhook_configs w !! dr_webhook dr p n = Some x →
    wc_project_id x = p ∧ wc_forge_type x = n;
  ap_channel_row : ∀ p n x, w_channels w !! dr_channel dr p n = Some x →
    ch_project_id x = p ∧ ch_name x = n;
}.

Lemma apart_same dr w w' : shelf w' = shelf w → apart dr w → apart dr w'.
Proof. intros [= E1 E2 E3 E4] []. by split; rewrite ?E1, ?E2, ?E3, ?E4. Qed.

(** What a bootstrap has to bring in line: everything of a project that may not be changed at
    run time, and what is declared of the others. *)
Definition due {A} (authoritative : bool) (l : list A) : Prop := authoritative = true ∨ l ≠ [].

Lemma due_reconciled {A} b (l : list A) : due b l → should_reconcile b (is_nil l) = true.
Proof. unfold due, should_reconcile. destruct b, l; naive_solver. Qed.

(** ** Jobsets *)

(** The columns of a jobset, one by one.  An unknown state counts as enabled, an unknown
    trigger mode as source changes; a state that is given decides whether it is enabled. *)
Record jobset_columns (js : DeclarativeJobset) (j : Jobset) : Prop := {
  jc_nix_expression : j_nix_expression j = dj_nix_expression js;
  jc_enabled : j_enabled j = match dj_state js with
                             | Some s => negb (bool_decide (s = "disabled"))
                             | None => dj_enabled js
                             end;
  jc_state : j_state j =
    match dj_state js with
    | Some s => if decide (s = "disabled") then JobsetState.Disabled
                else if decide (s = "one_shot") then JobsetState.OneShot
                else if decide (s = "one_at_a_time") then JobsetState.OneAtATime
                else JobsetState.Enabled
    | None => JobsetState.Enabled
    end;
  jc_flake_mode : j_flake_mode j = dj_flake_mode js;
  jc_check_interval : j_check_interval j = dj_check_interval js;
  jc_trigger_mode : j_trigger_mode j =
    if decide (dj_trigger_mode js = Some "interval") then JobsetTriggerMode.Interval
    else JobsetTriggerMode.SourceChange;
  jc_branch : j_branch j = dj_branch js;
  jc_branch_pattern : j_branch_pattern j = dj_branch_pattern js;
  jc_tag_pattern : j_tag_pattern j = dj_tag_pattern js;
  jc_scheduling_shares : j_scheduling_shares j = dj_scheduling_shares js;
  jc_keep_nr : j_keep_nr j = match dj_keep_nr js with Some n => n | None => 3 end;
  jc_systems : j_systems j = dj_systems js;
  jc_only_build_latest : j_only_build_latest j = dj_only_build_latest js;
  jc_path_filters : j_path_filters j = dj_path_filters js;
}.

Definition declares_jobset (project : Uuid) (js : DeclarativeJobset) (j : Jobset) : Prop :=
  j_project_id j = project ∧ j_name j = dj_name js ∧ jobset_columns js j.

Lemma state_of_config s :
  JobsetState.from_config_str s =
    (if decide (s = "disabled") then JobsetState.Disabled
     else if decide (s = "one_shot") then JobsetState.OneShot
     else if decide (s = "one_at_a_time") then JobsetState.OneAtATime
     else JobsetState.Enabled).
Proof.
  unfold JobsetState.from_config_str. simpl. by repeat case_decide.
Qed.

Lemma trigger_of_config o :
  default JobsetTriggerMode.SourceChange (JobsetTriggerMode.from_config_str <$> o) =
    (if decide (o = Some "interval") then JobsetTriggerMode.Interval
     else JobsetTriggerMode.SourceChange).
Proof.
  destruct o as [s|]; simpl; [|done].
  unfold JobsetTriggerMode.from_config_str. simpl.
  by repeat (case_decide; simplify_eq/=).
Qed.

(** The row the bootstrap inserts has the declared columns, and so has the one it updates. *)
Lemma new_jobset_columns id now project js :
  jobset_columns js (new_jobset id now (declared_input project js)).
Proof.
  split; simpl; try done; [| |by rewrite trigger_of_config].
  - unfold resolve_enabled. destruct (dj_state js) as [s|]; [|done]. simpl.
    rewrite state_of_config. repeat case_decide; subst; try done; by rewrite bool_decide_eq_false_2.
  - destruct (dj_state js) as [s|]; [|done]. simpl. apply state_of_config.
Qed.

Lemma redeclared_columns js now old new :
  jobset_columns js new → jobset_columns js (redeclared now old new).
Proof. intros []. by split. Qed.

Definition good_jobset (b : bool) (project : Uuid) (js : DeclarativeJobset) (w : World) : Prop :=
  ∃ j, w_jobsets w !! j_id j = Some j ∧ declares_jobset project js j ∧
    (due b (dj_inputs js) → inputs_exact (j_id j) (dj_inputs js) w).

(** What jobsets and inputs do not touch. *)
Definition rest (w : World) :=
  (w_projects w, w_webhook_configs w, w_channels w, w_notification_configs w).

(** Jobsets of other names, or of other projects, stay with their inputs, and none is new. *)
Record other_names (project : Uuid) (names : list string) (w w' : World) : Prop := {
  on_rest : rest w' = rest w;
  on_kept : ∀ k j, w_jobsets w !! k = Some j → ¬ (j_project_id j = project ∧ j_name j ∈ names) →
    w_jobsets w' !! k = Some j ∧ ∀ x, w_inputs w' !! (k, x) = w_inputs w !! (k, x);
  on_new : ∀ k j, w_jobsets w' !! k = Some j → w_jobsets w !! k = Some j ∨ j_project_id j = project;
}.

Lemma other_names_good b project names js w w' :
  other_names project names w w' → dj_name js ∉ names →
  good_jobset b project js w → good_jobset b project js w'.
Proof.
  intros [_ Ho _] Hn (j & Hj & Hd & Hi). exists j. pose proof Hd as (Hp & Hname & _).
  destruct (Ho _ _ Hj) as [Hj' Hin]; [rewrite Hname; by intros [_ ?]|]. split_and!; [done..|].
  intros Hr. destruct (Hi Hr) as [H1 H2]. split.
  - intros n i. rewrite Hin. apply H1.
  - intros d Hd'. rewrite Hin. by apply H2.
Qed.

Lemma upsert_jobset_ok dr project js w j w' :
  schema_ok w → apart dr w →
  upsert_jobset (dr_jobset dr project (dj_name js)) (declared_input project js) w = (Ok j, w') →
  schema_ok w' ∧ apart dr w' ∧ declares_jobset project js j ∧
  w_jobsets w' = <[j_id j := j]> (w_jobsets w) ∧
  (rest w', w_inputs w') = (rest w, w_inputs w) ∧
  ∀ x, w_jobsets w !! j_id j = Some x → j_project_id x = project ∧ j_name x = dj_name js.
Proof.
  intros Hw Ha Hu.
  assert (Hw' : schema_ok w') by (by apply (leads_ok _ _ _ _ (typed_upsert_jobset _ _) Hu)).
  split; [done|]. apply validation_ok, query_ok in Hu as [fs Hu]. simpl in Hu.
  destruct (w_projects w !! project); [|done].
  pose proof (sc_jobsets _ (proj1 Hw)) as Hk.
  destruct (find_named project (dj_name js) (set_w_faults fs w)) as [old|] eqn:Hf.
  - apply find_named_some in Hf as (Ho & Hp & Hn); [|done]. injection Hu as <- <-. simpl in *.
    split_and!; [|split_and!; [done..|apply redeclared_columns, new_jobset_columns]|done..|
                 by intros x; rewrite Ho; intros [= <-]].
    destruct Ha. split; try done. simpl. intros q n x.
    rewrite lookup_insert_Some. intros [[Hid <-]|[_ Hx]]; [|by apply ap_jobset_row0].
    simpl. rewrite Hid in Ho. by apply (ap_jobset_row0 q n old).
  - injection Hu as <- <-. simpl in *.
    split_and!; [|split_and!; [done..|apply new_jobset_columns]|done..|by apply (ap_jobset_row dr w Ha)].
    destruct Ha. split; try done. simpl. intros q n x.
    rewrite lookup_insert_Some. intros [[Hid <-]|[_ Hx]]; [|by apply ap_jobset_row0].
    apply ap_jobset0 in Hid as [<- <-]. done.
Qed.

Lemma bootstrap_jobset_ok `{UrlHost} dr b project js w w' :
  schema_ok w → apart dr w → NoDup (dji_name <$> dj_inputs js) →
  bootstrap_jobset dr b project js w = (Ok (), w') →
  schema_ok w' ∧ apart dr w' ∧ good_jobset b project js w' ∧
  other_names project [dj_name js] w w'.
Proof.
  intros Hw Ha Hnd Hb.
  assert (Hw' : schema_ok w') by (by apply (leads_ok _ _ _ _ (typed_bootstrap_jobset dr b project js) Hb)).
  split; [done|]. apply mbind_ok_inv in Hb as (j & w1 & Hj & Hb).
  apply upsert_jobset_ok in Hj as (Hw1 & Ha1 & Hd & Hjs & Hpi & Hx); [|done..].
  injection Hpi as Hpr1 Hpr2 Hpr3 Hpr4 Hin. unfold when in Hb.
  assert (Hrest : (shelf w', w_notification_configs w') = (shelf w1, w_notification_configs w1) ∧
                  (∀ k n, k ≠ j_id j → w_inputs w' !! (k, n) = w_inputs w1 !! (k, n)) ∧
                  (due b (dj_inputs js) → inputs_exact (j_id j) (dj_inputs js) w')).
  { destruct (should_reconcile _ _) eqn:Hr;
      [|injection Hb as <-; split_and!; [done..|]; intros Hdue%due_reconciled; congruence].
    apply sync_for_jobset_ok in Hb as (? & ? & ?); [by split_and!|done]. }
  destruct Hrest as (Hs & Hother & Hexact). pose proof Hs as [= E1 E2 E3 E4 E5].
  split; [apply (apart_same dr w1); congruence|]. pose proof Hd as (Hp & Hn & _). split.
  - exists j. split_and!; [|done..]. by rewrite E2, Hjs, lookup_insert_eq.
  - split.
    + unfold rest. congruence.
    + intros k x Hk Hne. assert (k ≠ j_id j).
      { intros ->. apply Hne. destruct (Hx x Hk) as [? ->]. split; [done|left]. }
      rewrite E2, Hjs, lookup_insert_ne by done. split; [done|]. intros n.
      by rewrite Hother, Hin by done.
    + intros k x. rewrite E2, Hjs. intros [[_ <-]|[_ ?]]%lookup_insert_Some; [by right|by left].
Qed.

Lemma bootstrap_jobsets_ok `{UrlHost} dr b project l w w' :
  schema_ok w → apart dr w → NoDup (dj_name <$> l) →
  Forall (λ js, NoDup (dji_name <$> dj_inputs js)) l →
  for_each (bootstrap_jobset dr b project) l w = (Ok (), w') →
  schema_ok w' ∧ apart dr w' ∧ Forall (λ js, good_jobset b project js w') l ∧
  other_names project (dj_name <$> l) w w'.
Proof.
  revert w. induction l as [|js l IH]; intros w Hw Ha Hnd Hin Hb; simpl in Hb.
  { injection Hb as <-. split_and!; [done..|]. split; [done|done|by left]. }
  rewrite fmap_cons in Hnd. apply NoDup_cons in Hnd as [Hjs Hnd].
  apply Forall_cons in Hin as [Hi Hin]. apply mbind_ok_inv in Hb as ([] & w1 & H1 & Hb).
  apply bootstrap_jobset_ok in H1 as (Hw1 & Ha1 & Hg & [Hr1 Hk1 Hn1]); [|done..].
  destruct (IH w1 Hw1 Ha1 Hnd Hin Hb) as (Hw2 & Ha2 & Hl & Ho2). pose proof Ho2 as [Hr2 Hk2 Hn2].
  split_and!; [done..| |].
  - apply Forall_cons. split; [|done]. by apply (other_names_good _ _ (dj_name <$> l) _ w1).
  - split; [by rewrite Hr2|..].
    + intros k j Hk Hne. rewrite fmap_cons in Hne. destruct (Hk1 k j Hk) as [Hj1 Hx1].
      { intros [? Hin1%list_elem_of_singleton]. apply Hne. rewrite Hin1. split; [done|left]. }
      destruct (Hk2 k j Hj1) as [Hj2 Hx2]; [intros [? ?]; apply Hne; split; [done|by right]|].
      split; [done|]. intros x. by rewrite Hx2.
    + intros k j [Hj1|Hj1]%Hn2; [by apply Hn1|by right].
Qed.

(** The jobsets that are not declared go, the others stay. *)
Lemma delete_jobsets_except_ok project names w n w' :
  delete_jobsets_except project names w = (Ok n, w') →
  (w_projects w', w_webhook_configs w', w_notification_configs w') =
    (w_projects w, w_webhook_configs w, w_notification_configs w) ∧
  (∀ k j, w_jobsets w' !! k = Some j → w_jobsets w !! k = Some j ∧
          (j_project_id j = project → j_name j ∈ names)) ∧
  (∀ k c, w_channels w' !! k = Some c → w_channels w !! k = Some c) ∧
  (∀ k c, w_channels w !! k = Some c →
     (∀ j, w_jobsets w !! ch_jobset_id c = Some j → j_project_id j ≠ project) →
     w_channels w' !! k = Some c) ∧
  ∀ k j, w_jobsets w !! k = Some j → (j_project_id j = project → j_name j ∈ names) →
    w_jobsets w' !! k = Some j ∧ ∀ x, w_inputs w' !! (k, x) = w_inputs w !! (k, x).
Proof.
  intros Hd. apply query_ok in Hd as [fs Hd]. unfold delete_checked in Hd.
  destruct (dangling _); [done|]. injection Hd as _ <-.
  set (gone := gone_of _ _).
  assert (Hgone : ∀ k, k ∈ gone ↔ ∃ j, w_jobsets w !! k = Some j ∧ j_project_id j = project ∧
                                       j_name j ∉ names).
  { intros k. unfold gone. rewrite gone_of_spec. simpl. setoid_rewrite andb_true_iff.
    setoid_rewrite Z.eqb_eq. setoid_rewrite negb_true_iff. by setoid_rewrite bool_decide_eq_false. }
  split_and!; [done|..].
  - intros k j [Hk Hn]%map_lookup_filter_Some. split; [done|]. intros Hp.
    destruct (decide (j_name j ∈ names)) as [|Hni]; [done|]. exfalso. apply Hn, Hgone. by exists j.
  - by intros k c [Hk _]%map_lookup_filter_Some.
  - intros k c Hk Hn. apply map_lookup_filter_Some. split; [done|]. simpl.
    intros (j & Hj & Hp & _)%Hgone. by apply (Hn j).
  - intros k j Hk Hn. assert (k ∉ gone).
    { intros (j' & Hj' & Hp & Hni)%Hgone. rewrite Hk in Hj'. injection Hj' as <-. by apply Hni, Hn. }
    split; [by apply map_lookup_filter_Some|]. intros x.
    change (filter (λ kv, kv.1.1 ∉ gone) (w_inputs w) !! (k, x) = w_inputs w !! (k, x)).
    rewrite map_lookup_filter. destruct (w_inputs w !! (k, x)); simpl; [|done].
    by rewrite option_guard_True by done.
Qed.

Lemma apart_fewer dr w w' :
  (w_projects w', w_webhook_configs w') = (w_projects w, w_webhook_configs w) →
  (∀ k j, w_jobsets w' !! k = Some j → w_jobsets w !! k = Some j) →
  (∀ k c, w_channels w' !! k = Some c → w_channels w !! k = Some c) → apart dr w → apart dr w'.
Proof.
  intros [= E1 E2] Hj Hc []. split; rewrite ?E1, ?E2; try done.
  - intros p n x Hx%Hj. by apply ap_jobset_row0.
  - intros p n x Hx%Hc. by apply ap_channel_row0.
Qed.

(** ** Names of jobsets *)

Lemma names_lookup (l : list Jobset) j (m : gmap string Uuid) :
  j ∈ l → (∀ x, x ∈ l → j_name x = j_name j → j_id x = j_id j) →
  foldl (λ m j, <[j_name j := j_id j]> m) m l !! j_name j = Some (j_id j).
Proof.
  induction l as [|x l IH] using rev_ind; [by intros ?%elem_of_nil|]. intros Hin Hu.
  rewrite foldl_snoc. destruct (decide (j_name x = j_name j)) as [He|Hne].
  - rewrite He, lookup_insert_eq. f_equal. apply Hu; [|done]. apply elem_of_app. right. left.
  - rewrite lookup_insert_ne by done. apply elem_of_app in Hin as [Hin|Hin%list_elem_of_singleton];
      [|congruence].
    apply IH; [done|]. intros y Hy. apply Hu. apply elem_of_app. by left.
Qed.

(** The jobsets of a project. *)
Definition jobsets_in (project : Uuid) (w : World) : gmap Z Jobset :=
  filter (λ kj, j_project_id kj.2 = project) (w_jobsets w).

Lemma listed_at_most (project : Uuid) w :
  keyed_by j_id (w_jobsets w) →
  (length (List.filter (λ j, j_project_id j =? project)%Z (rows (w_jobsets w))) ≤
   size (jobsets_in project w))%nat.
Proof.
  intros Hk. rewrite <-(length_fmap j_id), <-size_dom.
  apply submseteq_length, NoDup_submseteq; [by apply keyed_rows_nodup|].
  - intros k. rewrite list_elem_of_fmap, elem_of_elements, elem_of_dom.
    intros (j & -> & [[i Hi]%elem_of_rows Hp%Z.eqb_eq]%elem_of_filter_rows). exists j.
    apply map_lookup_filter_Some. by rewrite (Hk i j Hi).
Qed.

Lemma jobset_map_ok project w m w' :
  schema_ok w → jobset_map project w = (Ok m, w') →
  (∃ fs, w' = set_w_faults fs w) ∧
  ((size (jobsets_in project w) ≤ JOBSETS_LISTED)%nat →
   ∀ k j, w_jobsets w !! k = Some j → j_project_id j = project → m !! j_name j = Some k).
Proof.
  intros Hw Hm. apply query_ok in Hm as [fs [= <- <-]]. split; [by exists fs|]. simpl.
  intros Hlen k j Hk Hp. pose proof (sc_jobsets _ (proj1 Hw)) as Hkey.
  pose proof (sc_jobset_names _ (proj1 Hw)) as Hu.
  pose proof (listed_at_most project w Hkey) as Hall. rewrite <-(Hkey k j Hk).
  assert (Hs : ∀ x, x ∈ List.filter (λ j, j_project_id j =? project) (rows (w_jobsets w)) ↔
                    (∃ i, w_jobsets w !! i = Some x) ∧ j_project_id x = project).
  { intros x. by rewrite elem_of_filter_rows, elem_of_rows, Z.eqb_eq. }
  rewrite firstn_all2; [|rewrite (Permutation_length (sort_by_perm _ _)); lia].
  apply names_lookup.
  - rewrite sort_by_perm. apply Hs. split; [by exists k|done].
  - intros x. rewrite sort_by_perm, Hs. intros [[i Hi] Hxp] Hn.
    rewrite (Hkey i x Hi), (Hkey k j Hk). apply (Hu i k x j Hi Hk). by rewrite Hxp, Hp, Hn.
Qed.

(** ** Notifications *)

Import notification_configs.

Definition type_of (n : DeclarativeNotification) : string :=
  NotificationType.as_str (dn_notification_type n).

(** The columns of a notification, one by one. *)
Definition declares_notification (project : Uuid) (n : DeclarativeNotification)
    (c : NotificationConfig) : Prop :=
  nc_project_id c = project ∧ nc_notification_type c = dn_notification_type n ∧
  nc_config c = dn_config n ∧ nc_enabled c = dn_enabled n.

Definition notifications_exact (project : Uuid) (l : list DeclarativeNotification) (w : World) : Prop :=
  (∀ t c, w_notification_configs w !! (project, t) = Some c → t ∈ type_of <$> l) ∧
  ∀ n, n ∈ l → ∃ c, w_notification_configs w !! (project, type_of n) = Some c ∧
    declares_notification project n c.

(** All but the notifications. *)
Definition silent (w : World) := (shelf w, w_inputs w).

Lemma upsert_all_notifications_ok new_id project l w w' :
  NoDup (type_of <$> l) → upsert_all new_id project l w = (Ok (), w') →
  silent w' = silent w ∧
  (∀ k t, ¬ (k = project ∧ t ∈ type_of <$> l) →
     w_notification_configs w' !! (k, t) = w_notification_configs w !! (k, t)) ∧
  ∀ n, n ∈ l → ∃ c, w_notification_configs w' !! (project, type_of n) = Some c ∧
    declares_notification project n c.
Proof.
  revert w. induction l as [|n l IH]; intros w Hnd Hw; simpl in Hw.
  { injection Hw as <-. split_and!; [done..|]. by intros d ?%elem_of_nil. }
  apply mbind_ok_inv in Hw as (c & w1 & Hc & Hw). apply query_ok in Hc as [fs Hc]. simpl in Hc.
  destruct (w_projects w !! project); [|done]. injection Hc as Hc <-.
  rewrite fmap_cons in Hnd. apply NoDup_cons in Hnd as [Hn Hnd].
  destruct (IH _ Hnd Hw) as (Hs & Ho & Hl). simpl in Hs, Ho. split_and!; [by rewrite Hs|..].
  - intros k t Hne. rewrite fmap_cons in Hne. rewrite Ho, lookup_insert_ne; [done|..].
    + intros [= <- <-]. apply Hne. split; [done|left].
    + intros [-> Hin]. apply Hne. split; [done|by right].
  - intros n' [->|Hin]%elem_of_cons; [|by apply Hl]. exists c.
    rewrite Ho by (by intros [_ ?]). rewrite Hc. unfold config_key, type_of.
    rewrite lookup_insert_eq. split; [done|]. rewrite <-Hc.
    by destruct (w_notification_configs w !! config_key project (dn_notification_type n)).
Qed.

Lemma sync_notifications_ok new_id project l w w' :
  NoDup (type_of <$> l) → notification_configs.sync_for_project new_id project l w = (Ok (), w') →
  silent w' = silent w ∧ notifications_exact project l w' ∧
  ∀ k t, k ≠ project → w_notification_configs w' !! (k, t) = w_notification_configs w !! (k, t).
Proof.
  intros Hnd Hw. apply mbind_ok_inv in Hw as ([] & w1 & Hd & Hw).
  apply query_ok in Hd as [fs [= <-]]. apply upsert_all_notifications_ok in Hw as (Hs & Ho & Hl); [|done].
  split_and!; [done|split; [|done]|].
  - intros t c Hc. destruct (decide (t ∈ type_of <$> l)) as [|Hn]; [done|]. exfalso.
    rewrite Ho in Hc by (by intros [_ ?]). apply map_lookup_filter_Some in Hc as [_ Hc]. by apply Hc.
  - intros k t Hk. rewrite Ho by (by intros [-> _]). simpl. rewrite map_lookup_filter.
    destruct (w_notification_configs w !! (k, t)); simpl; [|done].
    by rewrite option_guard_True by (by intros [-> _]).
Qed.

(** ** Webhook configurations *)

Lemma aead_key_ok key k : secret_aead_key key = Ok k → key = Some k ∧ trim k ≠ "".
Proof.
  unfold secret_aead_key. destruct key as [k'|]; [|done]. case_bool_decide; [done|].
  by intros [= <-].
Qed.

Section webhooks.
Context `{Cipher} (dr : Drawn) (project : Uuid) (key : option string).
Context (resolve : webhook_configs.DeclarativeWebhook → option string).
Import webhook_configs.

(** Enabled as declared, with the secret encrypted where there is one. *)
Definition declares_webhook (wh : DeclarativeWebhook) (c : WebhookConfig) : Prop :=
  wc_project_id c = project ∧ wc_forge_type c = dw_forge_type wh ∧ wc_enabled c = dw_enabled wh ∧
  ∀ s, resolve wh = Some s →
    ∃ k nonce sealed, key = Some k ∧ trim k ≠ "" ∧
      dr_nonce dr project (dw_forge_type wh) = Some nonce ∧
      seal k nonce (as_bytes s) = Some sealed ∧
      wc_secret_hash c = Some ("v1:" +:+ b64_encode nonce +:+ ":" +:+ b64_encode sealed).

Definition webhooks_exact (l : list DeclarativeWebhook) (w : World) : Prop :=
  (∀ k c, w_webhook_configs w !! k = Some c → wc_project_id c = project →
          wc_forge_type c ∈ dw_forge_type <$> l) ∧
  ∀ wh, wh ∈ l → ∃ c, w_webhook_configs w !! wc_id c = Some c ∧ declares_webhook wh c.

(** All but the webhook configurations. *)
Definition unhooked (w : World) :=
  (w_projects w, w_jobsets w, w_channels w, w_inputs w, w_notification_configs w).

Lemma upsert_webhook_ok wh w c w' :
  schema_ok w → apart dr w →
  upsert (dr_webhook dr project (dw_forge_type wh)) (dr_nonce dr project (dw_forge_type wh)) project
    (dw_forge_type wh) (resolve wh) (dw_enabled wh) key w = (Ok c, w') →
  schema_ok w' ∧ apart dr w' ∧ unhooked w' = unhooked w ∧ declares_webhook wh c ∧
  w_webhook_configs w' = <[wc_id c := c]> (w_webhook_configs w) ∧
  ∀ x, w_webhook_configs w !! wc_id c = Some x →
       wc_project_id x = project ∧ wc_forge_type x = dw_forge_type wh.
Proof.
  intros Hw Ha Hu.
  assert (Hw' : schema_ok w') by (by apply (leads_ok _ _ _ _ (typed_upsert_webhook _ _ _ _ _ _ _) Hu)).
  split; [done|]. unfold upsert in Hu. pose proof (sc_webhooks _ (proj1 Hw)) as Hk.
  assert (Hsec : ∀ old v, encrypt_opt (dr_nonce dr project (dw_forge_type wh)) (resolve wh) key = Ok v →
    ∀ s, resolve wh = Some s → ∃ k nonce sealed, key = Some k ∧ trim k ≠ "" ∧
      dr_nonce dr project (dw_forge_type wh) = Some nonce ∧
      seal k nonce (as_bytes s) = Some sealed ∧
      or_else v old = Some ("v1:" +:+ b64_encode nonce +:+ ":" +:+ b64_encode sealed)).
  { intros old v Hv s Hs. unfold encrypt_opt in Hv. rewrite Hs in Hv.
    destruct (encrypt_secret _ s key) as [x|] eqn:Hx; [|done]. injection Hv as <-.
    apply encrypt_secret_inv in Hx as (k & n & c' & Hkey & Hn & Hsl & ->).
    apply aead_key_ok in Hkey as [Hkey Ht]. by exists k, n, c'. }
  destruct (encrypt_opt _ _ _) as [stored|] eqn:Hst; [|done].
  apply query_ok in Hu as [fs Hu]. destruct (refused _ _ _); [done|].
  destruct (find project (dw_forge_type wh) (set_w_faults fs w)) as [old|] eqn:Hf.
  - apply find_webhook_some in Hf as (Ho & Hp & Hn); [|done]. injection Hu as <- <-. simpl in *.
    split_and!; [|done|split_and!; [done..|by apply Hsec]|done|by intros x; rewrite Ho; intros [= <-]].
    destruct Ha. split; try done. simpl. intros q n x.
    rewrite lookup_insert_Some. intros [[Hid <-]|[_ Hx]]; [|by apply ap_webhook_row0].
    simpl. rewrite Hid in Ho. destruct (ap_webhook_row0 q n old Ho) as [<- <-]. done.
  - injection Hu as <- <-. simpl in *.
    split_and!; [|done|split_and!; [done..|]|done|by apply (ap_webhook_row dr w Ha)].
    + destruct Ha. split; try done. simpl. intros q n x.
      rewrite lookup_insert_Some. intros [[Hid <-]|[_ Hx]]; [|by apply ap_webhook_row0].
      apply ap_webhook0 in Hid as [<- <-]. done.
    + intros s Hs. destruct (Hsec None stored eq_refl s Hs) as (k & n & c' & ? & ? & ? & ? & Hor).
      exists k, n, c'. by destruct stored.
Qed.

Lemma upsert_all_webhooks_ok l w w' :
  schema_ok w → apart dr w → NoDup (dw_forge_type <$> l) →
  upsert_all (dr_webhook dr project) (dr_nonce dr project) project resolve key l w = (Ok (), w') →
  schema_ok w' ∧ apart dr w' ∧ unhooked w' = unhooked w ∧
  (∀ wh, wh ∈ l → ∃ c, w_webhook_configs w' !! wc_id c = Some c ∧ declares_webhook wh c) ∧
  (∀ k c, w_webhook_configs w !! k = Some c →
     ¬ (wc_project_id c = project ∧ wc_forge_type c ∈ dw_forge_type <$> l) →
     w_webhook_configs w' !! k = Some c) ∧
  (∀ k c, w_webhook_configs w' !! k = Some c →
     w_webhook_configs w !! k = Some c ∨ wc_project_id c = project ∧ wc_forge_type c ∈ dw_forge_type <$> l).
Proof.
  revert w. induction l as [|wh l IH]; intros w Hw Ha Hnd Hu; simpl in Hu.
  { injection Hu as <-. split_and!; [done..| | |]; eauto. by intros d ?%elem_of_nil. }
  apply mbind_ok_inv in Hu as (c & w1 & Hc & Hu).
  apply upsert_webhook_ok in Hc as (Hw1 & Ha1 & Hs1 & Hd & Ht & Hx); [|done..].
  rewrite fmap_cons in Hnd. apply NoDup_cons in Hnd as [Hn Hnd].
  destruct (IH w1 Hw1 Ha1 Hnd Hu) as (Hw2 & Ha2 & Hs2 & Hl & Hstay & Hnew).
  pose proof Hd as (Hp & Hfg & _). split_and!; [done|done|by rewrite Hs2| | |].
  - intros wh' [->|Hin]%elem_of_cons; [|by apply Hl]. exists c. split; [|done].
    apply Hstay; [by rewrite Ht, lookup_insert_eq|]. rewrite Hfg. by intros [_ ?].
  - intros k x Hk Hne. rewrite fmap_cons in Hne. apply Hstay.
    + rewrite Ht, lookup_insert_ne; [done|]. intros <-. apply Hne. destruct (Hx x Hk) as [-> ->].
      split; [done|left].
    + intros [? ?]. apply Hne. split; [done|by right].
  - intros k x Hk. rewrite fmap_cons. destruct (Hnew k x Hk) as [Hk1|[? ?]].
    + rewrite Ht in Hk1. apply lookup_insert_Some in Hk1 as [[<- <-]|[_ Hk1]]; [|by left].
      right. split; [done|]. rewrite Hfg. left.
    + right. split; [done|by right].
Qed.

Lemma sync_webhooks_ok l w w' :
  schema_ok w → apart dr w → NoDup (dw_forge_type <$> l) →
  sync_for_project (dr_webhook dr project) (dr_nonce dr project) project l resolve key w = (Ok (), w') →
  schema_ok w' ∧ apart dr w' ∧ unhooked w' = unhooked w ∧ webhooks_exact l w' ∧
  ∀ k c, wc_project_id c ≠ project →
    w_webhook_configs w' !! k = Some c ↔ w_webhook_configs w !! k = Some c.
Proof.
  intros Hw Ha Hnd Hu. apply mbind_ok_inv in Hu as ([] & w1 & Hd & Hu).
  pose proof Hd as Hd'. apply query_ok in Hd' as [fs [= <-]].
  apply upsert_all_webhooks_ok in Hu as (Hw2 & Ha2 & Hs2 & Hl & Hstay & Hnew); [|..|done].
  - split_and!; [done..|split; [|done]|].
    + intros k c Hk Hp.
      destruct (Hnew k c Hk) as [[_ Hc]%map_lookup_filter_Some|[_ ?]]; [|done]. simpl in Hc.
      destruct (decide (wc_forge_type c ∈ dw_forge_type <$> l)) as [|Hni]; [done|]. exfalso.
      by apply Hc.
    + intros k c Hne. split.
      * intros Hk. by destruct (Hnew k c Hk) as [[? _]%map_lookup_filter_Some|[? _]].
      * intros Hk. apply Hstay; [|by intros [? _]]. apply map_lookup_filter_Some.
        split; [done|]. by intros [? _].
  - apply (fewer_webhooks _ (set_w_faults fs w)). by apply typed_faults.
  - destruct Ha. split; try done. simpl. intros p n x [Hx _]%map_lookup_filter_Some.
    by apply ap_webhook_row0.
Qed.
End webhooks.

(** ** Channels *)

Section channels.
Context (dr : Drawn) (project : Uuid) (resolve : string → option Uuid).
Import channels.

Definition declares_channel (d : DeclarativeChannel) (jobset : Uuid) (c : Channel) : Prop :=
  ch_project_id c = project ∧ ch_name c = dc_name d ∧ ch_jobset_id c = jobset.

Definition channels_exact (l : list DeclarativeChannel) (w : World) : Prop :=
  (∀ k c, w_channels w !! k = Some c → ch_project_id c = project → ch_name c ∈ dc_name <$> l) ∧
  ∀ d jobset, d ∈ l → resolve (dc_jobset_name d) = Some jobset →
    ∃ c, w_channels w !! ch_id c = Some c ∧ declares_channel d jobset c.

(** All but the channels. *)
Definition unaired (w : World) :=
  (w_projects w, w_jobsets w, w_webhook_configs w, w_inputs w, w_notification_configs w).

Lemma upsert_channel_ok name jobset w c w' :
  schema_ok w → apart dr w → upsert (dr_channel dr project name) project name jobset w = (Ok c, w') →
  schema_ok w' ∧ apart dr w' ∧ unaired w' = unaired w ∧
  (ch_project_id c = project ∧ ch_name c = name ∧ ch_jobset_id c = jobset) ∧
  w_channels w' = <[ch_id c := c]> (w_channels w) ∧
  ∀ x, w_channels w !! ch_id c = Some x → ch_project_id x = project ∧ ch_name x = name.
Proof.
  intros Hw Ha Hu.
  assert (Hw' : schema_ok w') by (by apply (leads_ok _ _ _ _ (typed_upsert_channel _ _ _ _) Hu)).
  split; [done|]. pose proof (sc_channels _ (proj1 Hw)) as Hk.
  apply query_ok in Hu as [fs Hu]. destruct (negb _); [done|].
  destruct (find project name (set_w_faults fs w)) as [old|] eqn:Hf.
  - apply find_channel_some in Hf as (Ho & Hp & Hn); [|done]. injection Hu as <- <-. simpl in *.
    split_and!; [|done..|by intros x; rewrite Ho; intros [= <-]].
    destruct Ha. split; try done. simpl. intros q n x.
    rewrite lookup_insert_Some. intros [[Hid <-]|[_ Hx]]; [|by apply ap_channel_row0].
    simpl. rewrite Hid in Ho. destruct (ap_channel_row0 q n old Ho) as [<- <-]. done.
  - injection Hu as <- <-. simpl in *. split_and!; [|done..|by apply (ap_channel_row dr w Ha)].
    destruct Ha. split; try done. simpl. intros q n x.
    rewrite lookup_insert_Some. intros [[Hid <-]|[_ Hx]]; [|by apply ap_channel_row0].
    apply ap_channel0 in Hid as [<- <-]. done.
Qed.

Lemma upsert_all_channels_ok l w w' :
  schema_ok w → apart dr w → NoDup (dc_name <$> l) →
  upsert_all (dr_channel dr project) project resolve l w = (Ok (), w') →
  schema_ok w' ∧ apart dr w' ∧ unaired w' = unaired w ∧
  (∀ d jobset, d ∈ l → resolve (dc_jobset_name d) = Some jobset →
     ∃ c, w_channels w' !! ch_id c = Some c ∧ declares_channel d jobset c) ∧
  (∀ k c, w_channels w !! k = Some c → ¬ (ch_project_id c = project ∧ ch_name c ∈ dc_name <$> l) →
     w_channels w' !! k = Some c) ∧
  (∀ k c, w_channels w' !! k = Some c →
     w_channels w !! k = Some c ∨ ch_project_id c = project ∧ ch_name c ∈ dc_name <$> l).
Proof.
  revert w. induction l as [|d l IH]; intros w Hw Ha Hnd Hu; simpl in Hu.
  { injection Hu as <-. split_and!; [done..| | |]; eauto. by intros d j ?%elem_of_nil. }
  rewrite fmap_cons in Hnd. apply NoDup_cons in Hnd as [Hn Hnd].
  apply mbind_ok_inv in Hu as ([] & w1 & Hc & Hu). destruct (resolve _) as [jobset|] eqn:Hr.
  - apply mbind_ok_inv in Hc as (c & w0 & Hc & [= ->]).
    apply upsert_channel_ok in Hc as (Hw1 & Ha1 & Hs1 & Hd & Ht & Hx); [|done..].
    destruct (IH w1 Hw1 Ha1 Hnd Hu) as (Hw2 & Ha2 & Hs2 & Hl & Hstay & Hnew).
    pose proof Hd as (Hp & Hfg & _). split_and!; [done|done|by rewrite Hs2| | |].
    + intros d' j' [->|Hin]%elem_of_cons; [|by apply Hl]. rewrite Hr. intros [= <-].
      exists c. split; [|done]. apply Hstay; [by rewrite Ht, lookup_insert_eq|].
      rewrite Hfg. by intros [_ ?].
    + intros k x Hk Hne. rewrite fmap_cons in Hne. apply Hstay.
      * rewrite Ht, lookup_insert_ne; [done|]. intros <-. apply Hne. destruct (Hx x Hk) as [-> ->].
        split; [done|left].
      * intros [? ?]. apply Hne. split; [done|by right].
    + intros k x Hk. rewrite fmap_cons. destruct (Hnew k x Hk) as [Hk1|[? ?]].
      * rewrite Ht in Hk1. apply lookup_insert_Some in Hk1 as [[<- <-]|[_ Hk1]]; [|by left].
        right. split; [done|]. rewrite Hfg. left.
      * right. split; [done|by right].
  - injection Hc as ->. destruct (IH w1 Hw Ha Hnd Hu) as (Hw2 & Ha2 & Hs2 & Hl & Hstay & Hnew).
    split_and!; [done..| | |].
    + intros d' j' [->|Hin]%elem_of_cons; [by rewrite Hr|by apply Hl].
    + intros k x Hk Hne. apply Hstay; [done|]. intros [? ?]. apply Hne.
      rewrite fmap_cons. split; [done|by right].
    + intros k x Hk. rewrite fmap_cons. destruct (Hnew k x Hk) as [?|[? ?]]; [by left|].
      right. split; [done|by right].
Qed.

Lemma sync_channels_ok l w w' :
  schema_ok w → apart dr w → NoDup (dc_name <$> l) →
  sync_for_project (dr_channel dr project) project l resolve w = (Ok (), w') →
  apart dr w' ∧ unaired w' = unaired w ∧ channels_exact l w' ∧
  ∀ k c, ch_project_id c ≠ project → w_channels w' !! k = Some c ↔ w_channels w !! k = Some c.
Proof.
  intros Hw Ha Hnd Hu. apply mbind_ok_inv in Hu as ([] & w1 & Hd & Hu).
  apply query_ok in Hd as [fs [= <-]].
  apply upsert_all_channels_ok in Hu as (Hw2 & Ha2 & Hs2 & Hl & Hstay & Hnew); [|..|done].
  - split_and!; [done|done|split; [|done]|].
    + intros k c Hk Hp.
      destruct (Hnew k c Hk) as [[_ Hc]%map_lookup_filter_Some|[_ ?]]; [|done]. simpl in Hc.
      destruct (decide (ch_name c ∈ dc_name <$> l)) as [|Hni]; [done|]. exfalso. by apply Hc.
    + intros k c Hne. split.
      * intros Hk. by destruct (Hnew k c Hk) as [[? _]%map_lookup_filter_Some|[? _]].
      * intros Hk. apply Hstay; [|by intros [? _]]. apply map_lookup_filter_Some.
        split; [done|]. by intros [? _].
  - apply (fewer_channels _ (set_w_faults fs w)). by apply typed_faults.
  - destruct Ha. split; try done. simpl. intros p n x [Hx _]%map_lookup_filter_Some.
    by apply ap_channel_row0.
Qed.
End channels.

(** ** A project *)

Section project.
Context `{UrlHost, Files, Cipher} (dr : Drawn).

(** The columns of a project, one by one. *)
Definition declares_project (d : DeclarativeProject) (p : Project) : Prop :=
  p_name p = dp_name d ∧ p_description p = dp_description d ∧
  p_repository_url p = dp_repository_url d ∧ p_cache_enabled p = dp_cache_enabled d ∧
  p_cache_url p = dp_cache_url d ∧ p_cache_upstreams p = dp_cache_upstreams d ∧
  p_managed_declaratively p = true ∧ p_allow_runtime_mutation p = dp_allow_runtime_mutation d.

(** The secret of a webhook: given in the declaration, or else the text of the file named
    there, without blanks around it. *)
Definition declared_secret (wh : webhook_configs.DeclarativeWebhook) : option string :=
  match webhook_configs.dw_secret wh, webhook_configs.dw_secret_file wh with
  | Some s, _ => Some s
  | None, Some f =>
      match read_to_string (match shell_expand f with Some g => g | None => f end) with
      | Some text => Some (trim text)
      | None => None
      end
  | None, None => None
  end.

Lemma declared_secret_resolved wh : declared_secret wh = resolve_webhook_secret wh.
Proof.
  unfold declared_secret, resolve_webhook_secret, resolve_secret.
  destruct (webhook_configs.dw_secret wh); [done|].
  destruct (webhook_configs.dw_secret_file wh) as [f|]; [|done]. simpl.
  destruct (shell_expand f); simpl; by case_match.
Qed.

Lemma declared_webhooks_exact project key l w :
  webhooks_exact dr project key resolve_webhook_secret l w →
  webhooks_exact dr project key declared_secret l w.
Proof.
  intros [H1' H2']. split; [done|]. intros wh Hin.
  destruct (H2' wh Hin) as (c & Hc & ? & ? & ? & Hs). exists c. split; [done|].
  split_and!; [done..|]. intros s. rewrite declared_secret_resolved. apply Hs.
Qed.

(** The names of a declaration are distinct. *)
Record distinct_names (d : DeclarativeProject) : Prop := {
  dn_jobsets : NoDup (dj_name <$> dp_jobsets d);
  dn_inputs : Forall (λ js, NoDup (dji_name <$> dj_inputs js)) (dp_jobsets d);
  dn_notifications : NoDup (type_of <$> dp_notifications d);
  dn_webhooks : NoDup (webhook_configs.dw_forge_type <$> dp_webhooks d);
  dn_channels : NoDup (channels.dc_name <$> dp_channels d);
}.

(** The tables say of the project [p] what [d] declares. *)
Record reconciled (d : DeclarativeProject) (allow : bool) (key : option string) (p : Project)
    (w : World) : Prop := {
  rc_row : w_projects w !! p_id p = Some p ∧ declares_project d p;
  rc_jobsets : Forall (λ js, good_jobset (negb allow) (p_id p) js w) (dp_jobsets d);
  rc_no_others : allow = false → ∀ k j, w_jobsets w !! k = Some j → j_project_id j = p_id p →
    j_name j ∈ dj_name <$> dp_jobsets d;
  rc_notifications : due (negb allow) (dp_notifications d) →
    notifications_exact (p_id p) (dp_notifications d) w;
  rc_webhooks : due (negb allow) (dp_webhooks d) →
    webhooks_exact dr (p_id p) key declared_secret (dp_webhooks d) w;
  rc_channels : due (negb allow) (dp_channels d) →
    (size (jobsets_in (p_id p) w) ≤ JOBSETS_LISTED)%nat →
    (∀ k c, w_channels w !! k = Some c → ch_project_id c = p_id p →
            ch_name c ∈ channels.dc_name <$> dp_channels d) ∧
    ∀ c js, c ∈ dp_channels d → js ∈ dp_jobsets d → channels.dc_jobset_name c = dj_name js →
      ∃ x j, w_channels w !! ch_id x = Some x ∧ w_jobsets w !! j_id j = Some j ∧
        j_project_id j = p_id p ∧ j_name j = dj_name js ∧
        declares_channel (p_id p) c (j_id j) x;
}.

(** All but the projects. *)
Definition below (w : World) :=
  (w_jobsets w, w_webhook_configs w, w_channels w, w_notification_configs w, w_inputs w).

Lemma upsert_declarative_ok d w p w' :
  schema_ok w → apart dr w →
  projects.upsert_declarative (dr_project dr (dp_name d)) (declared_project d)
    (dp_allow_runtime_mutation d) w = (Ok p, w') →
  schema_ok w' ∧ apart dr w' ∧ below w' = below w ∧ declares_project d p ∧
  w_projects w' = <[p_id p := p]> (w_projects w) ∧
  ∀ x, w_projects w !! p_id p = Some x → p_name x = dp_name d.
Proof.
  intros Hw Ha Hu.
  assert (Hw' : schema_ok w') by (by apply (leads_ok _ _ _ _ (typed_upsert_project _ _ _) Hu)).
  split; [done|]. apply validation_ok, query_ok in Hu as [fs [= <- <-]].
  pose proof (sc_projects _ (proj1 Hw)) as Hk.
  destruct (projects.find_name _ _) as [old|] eqn:Hf; simpl in *.
  - apply (find_rows_some _ p_id) in Hf as [Ho Hn%bool_decide_eq_true]; [|done]. simpl in Ho.
    split_and!; [|done|split; [exact Hn|done]|done|by intros x; rewrite Ho; intros [= <-]].
    destruct Ha. split; try done. simpl. intros n x.
    rewrite lookup_insert_Some. intros [[Hid <-]|[_ Hx]]; [|by apply ap_project_row0].
    simpl. rewrite Hid in Ho. by apply ap_project_row0.
  - split_and!; [|done..|by apply (ap_project_row dr w Ha)].
    destruct Ha. split; try done. simpl. intros n x.
    rewrite lookup_insert_Some. intros [[Hid <-]|[_ Hx]]; [|by apply ap_project_row0].
    simpl. by apply ap_project0.
Qed.
End project.
