(* ===== verification/BootstrapExact.v ===== *)
(** * A bootstrap that succeeds

    The bootstrap as a whole: what one project's turn leaves of it ([sync_project_ok]), that
    no other turn touches it again ([keeps_project]), and the result: the declared projects
    are as declared, and no others are managed ([bootstrap_reconciles]). *)

From S2P Require Import Prelude Types Float32 Base32 Codecs StorePath Db Frames Tables Builds Evaluations Builders NixJobs FlakeRefs Validate JobsetConfig Secrets Notify NotifyQueue Users Auth AuthApi Access Accounts BuildGraph Projects ProjectApi ProjectAccess Bootstrap Schema Reconcile.

(** ** What belongs to a project stays *)

(** Everything of the project [p], but for its channels that track jobsets of others. *)
Record keeps_project (p : Uuid) (w w' : World) : Prop := {
  kp_row : w_projects w' !! p = w_projects w !! p;
  kp_jobsets : jobsets_in p w' = jobsets_in p w;
  kp_inputs : ∀ k n, is_Some (jobsets_in p w !! k) → w_inputs w' !! (k, n) = w_inputs w !! (k, n);
  kp_notifications : ∀ t, w_notification_configs w' !! (p, t) = w_notification_configs w !! (p, t);
  kp_webhooks : ∀ k c, wc_project_id c = p →
    w_webhook_configs w' !! k = Some c ↔ w_webhook_configs w !! k = Some c;
  kp_channels : ∀ k c, ch_project_id c = p → w_channels w' !! k = Some c → w_channels w !! k = Some c;
  kp_tracking : ∀ k c, ch_project_id c = p → is_Some (jobsets_in p w !! ch_jobset_id c) →
    w_channels w !! k = Some c → w_channels w' !! k = Some c;
}.

#[local] Instance keeps_project_preorder p : PreOrder (keeps_project p).
Proof.
  split; [by intros w; split|]. intros w1 w2 w3 [] []. split.
  - congruence.
  - congruence.
  - intros k n Hk. rewrite kp_inputs1; [by apply kp_inputs0|]. by rewrite kp_jobsets0.
  - intros t. by rewrite kp_notifications1.
  - intros k c Hc. by rewrite kp_webhooks1, kp_webhooks0.
  - eauto.
  - intros k c Hc Hj Hk. apply kp_tracking1; [done|by rewrite kp_jobsets0|by apply kp_tracking0].
Qed.

Lemma jobset_in p w k j :
  jobsets_in p w !! k = Some j ↔ w_jobsets w !! k = Some j ∧ j_project_id j = p.
Proof. unfold jobsets_in. by rewrite map_lookup_filter_Some. Qed.

(** The same tables keep every project. *)
Lemma below_keeps p w w' :
  below w' = below w → w_projects w' !! p = w_projects w !! p → keeps_project p w w'.
Proof.
  intros [= E1 E2 E3 E4 E5] Hp. split; try done; unfold jobsets_in; by rewrite ?E1, ?E2, ?E3, ?E4, ?E5.
Qed.

Lemma other_names_keeps q names p w w' : q ≠ p → other_names q names w w' → keeps_project p w w'.
Proof.
  intros Hq [[= E1 E2 E3 E4] Hk Hn]. assert (Hj : jobsets_in p w' = jobsets_in p w).
  { apply map_eq. intros k. apply option_eq. intros j. rewrite !jobset_in. split.
    - intros [[Hl|Hl]%Hn Hp]; [done|congruence].
    - intros [Hl Hp]. split; [|done]. apply (Hk k j Hl). intros [? _]. congruence. }
  split; try done; rewrite ?E1, ?E2, ?E3, ?E4; try done.
  intros k n [j [Hl Hp]%jobset_in]. apply (Hk k j Hl). intros [? _]. congruence.
Qed.

Lemma delete_except_keeps q names p w n w' :
  q ≠ p → delete_jobsets_except q names w = (Ok n, w') → keeps_project p w w'.
Proof.
  intros Hq Hd. apply delete_jobsets_except_ok in Hd as ([= E1 E2 E3] & Hj & Hc & Hct & Hk).
  assert (Hji : jobsets_in p w' = jobsets_in p w).
  { apply map_eq. intros k. apply option_eq. intros j. rewrite !jobset_in. split.
    - intros [[? _]%Hj ?]. done.
    - intros [Hj1 Hp]. split; [|done]. apply (Hk k j Hj1). congruence. }
  split; rewrite ?E1, ?E2, ?E3; try done.
  - intros k x [j [Hj1 Hp]%jobset_in]. apply (Hk k j Hj1). congruence.
  - intros k c _. by apply Hc.
  - intros k c _ [j [Hj1 Hp]%jobset_in] Hk1. apply Hct; [done|]. intros j'. rewrite Hj1.
    intros [= <-]. congruence.
Qed.

Section boot.
Context `{UrlHost, Files, Cipher} (dr : Drawn) (key : option string).

Lemma reconciled_kept d allow p w w' :
  reconciled dr d allow key p w → keeps_project (p_id p) w w' → reconciled dr d allow key p w'.
Proof.
  intros [[Hr Hd] Hj Hno Hn Hw Hc] [].
  assert (Hjob : ∀ k j, j_project_id j = p_id p → w_jobsets w' !! k = Some j ↔ w_jobsets w !! k = Some j).
  { intros k j Hp. transitivity (jobsets_in (p_id p) w' !! k = Some j); [rewrite jobset_in; tauto|].
    rewrite kp_jobsets0, jobset_in. tauto. }
  split.
  - by rewrite kp_row0.
  - apply Forall_forall. intros js Hjs. rewrite Forall_forall in Hj.
    destruct (Hj js Hjs) as (j & Hl & Hdj & Hi). pose proof Hdj as (Hp & _). exists j.
    split_and!; [by apply Hjob|done|]. intros Hs. destruct (Hi Hs) as [H1' H2'].
    assert (Hin : ∀ n, w_inputs w' !! (j_id j, n) = w_inputs w !! (j_id j, n)).
    { intros n. apply kp_inputs0. exists j. by apply jobset_in. }
    split; [intros n i; rewrite Hin; apply H1'|intros x Hx; rewrite Hin; by apply H2'].
  - intros Ha k j Hk Hp. apply (Hno Ha k j); [by apply Hjob|done].
  - intros Hs. destruct (Hn Hs) as [H1' H2']. split.
    + intros t c. rewrite kp_notifications0. apply H1'.
    + intros n Hin. rewrite kp_notifications0. by apply H2'.
  - intros Hs. destruct (Hw Hs) as [H1' H2']. split.
    + intros k c Hk Hp. apply (H1' k); [by apply kp_webhooks0|done].
    + intros wh Hin. destruct (H2' wh Hin) as (c & Hc1 & Hc2). exists c. split; [|done].
      apply kp_webhooks0; [by destruct Hc2|done].
  - intros Hs Hle. rewrite kp_jobsets0 in Hle. destruct (Hc Hs Hle) as [H1' H2']. split.
    + intros k c Hk Hp. apply (H1' k); [by apply kp_channels0|done].
    + intros c js Hin Hjs He. destruct (H2' c js Hin Hjs He) as (x & j & Hx & Hjl & Hp & Hnm & Hdc).
      exists x, j. pose proof Hdc as (Hxp & _ & Hxj).
      split_and!; [|by apply Hjob|done..]. apply kp_tracking0; [done| |done]. rewrite Hxj.
      exists j. by apply jobset_in.
Qed.

(** *** Notifications, webhooks and channels *)

(** One turn's last three steps. *)
Definition attach (d : DeclarativeProject) (allow : bool) (p : Uuid) (jobsets : gmap string Uuid) : M () :=
  when (should_reconcile (negb allow) (is_nil (dp_notifications d)))
    (notification_configs.sync_for_project (dr_notification dr p) p (dp_notifications d)) ;;!
  when (should_reconcile (negb allow) (is_nil (dp_webhooks d)))
    (webhook_configs.sync_for_project (dr_webhook dr p) (dr_nonce dr p) p
       (dp_webhooks d) resolve_webhook_secret key) ;;!
  when (should_reconcile (negb allow) (is_nil (dp_channels d)))
    (channels.sync_for_project (dr_channel dr p) p (dp_channels d) (λ name, jobsets !! name)).

Lemma attach_ok d allow p jobsets w w' :
  distinct_names d → schema_ok w → apart dr w → attach d allow p jobsets w = (Ok (), w') →
  apart dr w' ∧
  (w_projects w', w_jobsets w', w_inputs w') = (w_projects w, w_jobsets w, w_inputs w) ∧
  (should_reconcile (negb allow) (is_nil (dp_notifications d)) = true →
     notifications_exact p (dp_notifications d) w') ∧
  (should_reconcile (negb allow) (is_nil (dp_webhooks d)) = true →
     webhooks_exact dr p key resolve_webhook_secret (dp_webhooks d) w') ∧
  (should_reconcile (negb allow) (is_nil (dp_channels d)) = true →
     channels_exact p (λ name, jobsets !! name) (dp_channels d) w') ∧
  ∀ q, q ≠ p → keeps_project q w w'.
Proof.
  intros [_ _ Hn Hh Hc] Hw Ha Hb.
  apply mbind_ok_inv in Hb as ([] & w1 & H1' & Hb). apply mbind_ok_inv in Hb as ([] & w2 & H2' & H3').
  assert (S1 : schema_ok w1 ∧ silent w1 = silent w ∧
    (should_reconcile (negb allow) (is_nil (dp_notifications d)) = true →
       notifications_exact p (dp_notifications d) w1) ∧
    ∀ k t, k ≠ p → w_notification_configs w1 !! (k, t) = w_notification_configs w !! (k, t)).
  { unfold when in H1'. destruct (should_reconcile _ _); [|by injection H1' as <-].
    split; [by apply (leads_ok _ _ _ _ (typed_sync_notifications _ _ _) H1')|].
    apply sync_notifications_ok in H1' as (? & ? & ?); [by split_and!|done]. }
  destruct S1 as (Hw1 & Hs1 & He1 & Ho1). pose proof Hs1 as [= Ep Ej Ew Ec Ei].
  assert (Ha1 : apart dr w1) by (apply (apart_same dr w); [unfold shelf; congruence|done]).
  assert (S2 : schema_ok w2 ∧ apart dr w2 ∧ unhooked w2 = unhooked w1 ∧
    (should_reconcile (negb allow) (is_nil (dp_webhooks d)) = true →
       webhooks_exact dr p key resolve_webhook_secret (dp_webhooks d) w2) ∧
    ∀ k c, wc_project_id c ≠ p → w_webhook_configs w2 !! k = Some c ↔ w_webhook_configs w1 !! k = Some c).
  { unfold when in H2'. destruct (should_reconcile _ (is_nil (dp_webhooks d))); [|by injection H2' as <-].
    apply sync_webhooks_ok in H2' as (? & ? & ? & ? & ?); [by split_and!|done..]. }
  destruct S2 as (Hw2 & Ha2 & Hs2 & He2 & Ho2). pose proof Hs2 as [= Ep2 Ej2 Ec2 Ei2 En2].
  assert (S3 : apart dr w' ∧ unaired w' = unaired w2 ∧
    (should_reconcile (negb allow) (is_nil (dp_channels d)) = true →
       channels_exact p (λ name, jobsets !! name) (dp_channels d) w') ∧
    ∀ k c, ch_project_id c ≠ p → w_channels w' !! k = Some c ↔ w_channels w2 !! k = Some c).
  { unfold when in H3'. destruct (should_reconcile _ (is_nil (dp_channels d))); [|by injection H3' as <-].
    apply sync_channels_ok in H3' as (? & ? & ? & ?); [by split_and!|done..]. }
  destruct S3 as (Ha3 & Hs3 & He3 & Ho3). pose proof Hs3 as [= Ep3 Ej3 Ew3 Ei3 En3].
  split_and!; [done|congruence|..|done|].
  - intros Hr. destruct (He1 Hr) as [Hx Hy]. split; rewrite En3, En2; done.
  - intros Hr. destruct (He2 Hr) as [Hx Hy]. split; rewrite Ew3; done.
  - intros q Hq. split.
    + congruence.
    + unfold jobsets_in. congruence.
    + intros k n _. congruence.
    + intros t. rewrite En3, En2. by apply Ho1.
    + intros k c Hcp. rewrite Ew3, Ho2, Ew by congruence. done.
    + intros k c Hcp. rewrite Ho3, Ec2, Ec by congruence. done.
    + intros k c Hcp _. rewrite Ho3, Ec2, Ec by congruence. done.
Qed.

(** *** Jobsets that are not declared *)

Lemma clear_jobsets_ok d allow p w w' :
  when (negb allow) (let! _ := delete_jobsets_except p (dj_name <$> dp_jobsets d) in mret ()) w =
    (Ok (), w') →
  schema_ok w → apart dr w → Forall (λ js, good_jobset (negb allow) p js w) (dp_jobsets d) →
  schema_ok w' ∧ apart dr w' ∧ w_projects w' = w_projects w ∧
  Forall (λ js, good_jobset (negb allow) p js w') (dp_jobsets d) ∧
  (allow = false → ∀ k j, w_jobsets w' !! k = Some j → j_project_id j = p →
     j_name j ∈ dj_name <$> dp_jobsets d) ∧
  ∀ q, q ≠ p → keeps_project q w w'.
Proof.
  intros Hdel Hw Ha Hg. destruct allow; simpl in Hdel; [by injection Hdel as <-; split_and!|].
  apply mbind_ok_inv in Hdel as (n & w0 & Hdel & [= ->]).
  split; [by apply (leads_ok _ _ _ _ (typed_delete_jobsets_except _ _) Hdel)|].
  pose proof Hdel as (Hpw & Hjs & Hcs & _ & Hkeep)%delete_jobsets_except_ok.
  pose proof Hpw as [= E1 E2 _]. split_and!; [..|intros q Hq; by eapply delete_except_keeps].
  - apply (apart_fewer dr w); [congruence| |done..]. intros k j [? _]%Hjs. done.
  - done.
  - apply Forall_forall. intros js Hin. rewrite Forall_forall in Hg.
    destruct (Hg js Hin) as (j & Hl & Hdj & Hi). pose proof Hdj as (_ & Hn & _).
    destruct (Hkeep _ _ Hl) as [Hl3 Hin3]; [intros _; rewrite Hn; by apply list_elem_of_fmap_2|].
    exists j. split_and!; [done..|]. intros Hr. destruct (Hi Hr) as [Hx' Hy'].
    split; [intros n' i; rewrite Hin3; apply Hx'|intros x' Hx''; rewrite Hin3; by apply Hy'].
  - intros _ k j [_ Hn]%Hjs. exact Hn.
Qed.

(** *** One turn *)

(** Where a project's row stands, and what the turn of another one may do to it. *)
Lemma sync_project_ok d allow w w' :
  distinct_names d → schema_ok w → apart dr w →
  sync_declarative_project dr d allow key w = (Ok (), w') →
  ∃ p, reconciled dr d allow key p w' ∧ schema_ok w' ∧ apart dr w' ∧
       w_projects w' = <[p_id p := p]> (w_projects w) ∧
       (∀ x, w_projects w !! p_id p = Some x → p_name x = dp_name d) ∧
       ∀ q, q ≠ p_id p → keeps_project q w w'.
Proof.
  intros Hdis Hw Ha Hs.
  assert (Hw' : schema_ok w') by (by apply (leads_ok _ _ _ _ (typed_sync_project dr d allow key) Hs)).
  apply mbind_ok_inv in Hs as (p & w1 & Hp & Hs).
  apply upsert_declarative_ok in Hp as (Hw1 & Ha1 & Hb1 & Hd & Hpr & Hx); [|done..].
  apply mbind_ok_inv in Hs as ([] & w2 & Hj & Hs).
  apply bootstrap_jobsets_ok in Hj as (Hw2 & Ha2 & Hg2 & Ho2); [|by try apply Hdis..].
  apply mbind_ok_inv in Hs as ([] & w3 & Hdel & Hs).
  apply clear_jobsets_ok in Hdel as (Hw3 & Ha3 & Hp3 & Hg3 & Hno3 & Hk3); [|done..].
  apply mbind_ok_inv in Hs as (m & w4 & Hm & Hs).
  apply jobset_map_ok in Hm as [[fs ->] Hm]; [|done].
  apply attach_ok in Hs as (Ha5 & Ht5 & Hn5 & Hh5 & Hc5 & Hk5);
    [|done|by apply typed_faults|by apply (apart_same dr w3)].
  simpl in Ht5. pose proof Ht5 as [= E1 E2 E3]. pose proof (on_rest _ _ _ _ Ho2) as [= F1 _ _ _].
  exists p. split_and!; [|done|done|congruence|done|].
  - split; [|..|intros Hr%due_reconciled; by apply Hn5|intros Hr%due_reconciled; by apply declared_webhooks_exact, Hh5|].
    + split; [|done]. by rewrite E1, Hp3, F1, Hpr, lookup_insert_eq.
    + eapply Forall_impl; [exact Hg3|]. intros js (j & Hl & Hdj & Hi). exists j. rewrite E2.
      split_and!; [done..|]. intros Hr. destruct (Hi Hr) as [Hx' Hy'].
      split; [intros n i; rewrite E3; apply Hx'|intros x' Hx''; rewrite E3; by apply Hy'].
    + intros Hal k j. rewrite E2. by apply Hno3.
    + intros Hr%due_reconciled Hle. unfold jobsets_in in Hle. rewrite E2 in Hle.
      destruct (Hc5 Hr) as [Hx' Hy']. split; [done|]. intros c js Hin Hjs Hname.
      rewrite Forall_forall in Hg3. destruct (Hg3 js Hjs) as (j & Hl & (Hjp & Hjn & _) & _).
      destruct (Hy' c (j_id j) Hin) as (x & Hxl & Hxd).
      { rewrite Hname, <-Hjn. by apply Hm. }
      exists x, j. rewrite E2. by split_and!.
  - intros q Hq. etransitivity; [apply below_keeps; [exact Hb1|by rewrite Hpr, lookup_insert_ne]|].
    etransitivity; [by eapply other_names_keeps|]. etransitivity; [by apply Hk3|].
    etransitivity; [|by apply Hk5]. by split.
Qed.

(** *** All turns *)

Lemma sync_projects_ok cfg l w w' :
  NoDup (dp_name <$> l) → Forall distinct_names l → schema_ok w → apart dr w →
  for_each (λ d, sync_declarative_project dr d (allows cfg d) key) l w = (Ok (), w') →
  schema_ok w' ∧ Forall (λ d, ∃ p, reconciled dr d (allows cfg d) key p w') l ∧
  ∀ q x, w_projects w !! q = Some x → p_name x ∉ dp_name <$> l → keeps_project q w w'.
Proof.
  revert w. induction l as [|d l IH]; intros w Hnd Hdis Hw Ha Hs; simpl in Hs.
  { injection Hs as <-. split_and!; [done..|]. intros q x _ _. reflexivity. }
  rewrite fmap_cons in Hnd. apply NoDup_cons in Hnd as [Hd Hnd].
  apply Forall_cons in Hdis as [Hdd Hdis]. apply mbind_ok_inv in Hs as ([] & w1 & H1' & Hs).
  apply sync_project_ok in H1' as (p & Hr & Hw1 & Ha1 & Hp & Hx & Hk); [|done..].
  destruct (IH w1 Hnd Hdis Hw1 Ha1 Hs) as (Hw2 & Hl & Hrest). split_and!; [done|..].
  - apply Forall_cons. split; [|done]. exists p. eapply reconciled_kept; [exact Hr|].
    destruct (rc_row _ _ _ _ _ _ Hr) as [Hrow [Hname _]]. apply (Hrest _ p); [done|by rewrite Hname].
  - intros q x Hq Hn. rewrite fmap_cons in Hn.
    assert (Hne : q ≠ p_id p).
    { intros ->. apply Hn. rewrite (Hx x Hq). left. }
    etransitivity; [by apply Hk|]. apply (Hrest q x).
    + rewrite Hp. by rewrite lookup_insert_ne.
    + intros Hin. apply Hn. by right.
Qed.

Lemma without_projects_keeps ps q w : q ∉ ps → keeps_project q w (without_projects ps w).
Proof.
  intros Hq. set (js := gone_of (λ j, bool_decide (j_project_id j ∈ ps)) (w_jobsets w)).
  assert (Hjs : ∀ k j, w_jobsets w !! k = Some j → j_project_id j = q → k ∉ js).
  { intros k j Hk Hp (j' & Hj' & Hin)%gone_of_spec. rewrite Hk in Hj'. injection Hj' as <-.
    apply bool_decide_eq_true in Hin. congruence. }
  split.
  - change (filter (λ kp, kp.1 ∉ ps) (w_projects w) !! q = w_projects w !! q).
    rewrite map_lookup_filter. destruct (w_projects w !! q); simpl; [|done].
    by rewrite option_guard_True.
  - apply map_eq. intros k. apply option_eq. intros j. rewrite !jobset_in.
    change (w_jobsets (without_projects ps w)) with (filter (λ kj, kj.1 ∉ js) (w_jobsets w)).
    rewrite map_lookup_filter_Some. simpl. split; [tauto|]. intros [Hk Hp].
    split_and!; [done| |done]. by apply (Hjs k j).
  - intros k n [j [Hk Hp]%jobset_in].
    change (filter (λ kv, kv.1.1 ∉ js) (w_inputs w) !! (k, n) = w_inputs w !! (k, n)).
    rewrite map_lookup_filter. destruct (w_inputs w !! (k, n)); simpl; [|done].
    rewrite option_guard_True; [done|]. by apply (Hjs k j).
  - intros t. change (filter (λ kv, kv.1.1 ∉ ps) (w_notification_configs w) !! (q, t) =
                      w_notification_configs w !! (q, t)).
    rewrite map_lookup_filter. destruct (w_notification_configs w !! (q, t)); simpl; [|done].
    by rewrite option_guard_True.
  - intros k c Hc. change (w_webhook_configs (without_projects ps w)) with
      (filter (λ kc, wc_project_id kc.2 ∉ ps) (w_webhook_configs w)).
    rewrite map_lookup_filter_Some. simpl. rewrite Hc. tauto.
  - intros k c _. change (w_channels (without_projects ps w)) with
      (filter (λ kc, ch_project_id kc.2 ∉ ps) (filter (λ kc, ch_jobset_id kc.2 ∉ js) (w_channels w))).
    rewrite !map_lookup_filter_Some. tauto.
  - intros k c Hc [j [Hk Hp]%jobset_in] Hl. change (w_channels (without_projects ps w)) with
      (filter (λ kc, ch_project_id kc.2 ∉ ps) (filter (λ kc, ch_jobset_id kc.2 ∉ js) (w_channels w))).
    rewrite !map_lookup_filter_Some. simpl. split_and!; [done|by apply (Hjs _ j)|by rewrite Hc].
Qed.

Lemma delete_declarative_ok names default_allow w n w' :
  projects.delete_declarative_except names default_allow w = (Ok n, w') →
  (∀ q x, w_projects w !! q = Some x → p_name x ∈ names → keeps_project q w w') ∧
  ∀ q x, w_projects w' !! q = Some x → projects.undeclared default_allow names x = false.
Proof.
  intros Hd. apply query_ok in Hd as [fs Hd]. unfold delete_checked in Hd.
  destruct (dangling _); [done|]. injection Hd as _ <-. split.
  - intros q x Hq Hn. transitivity (set_w_faults fs w); [by split|].
    apply without_projects_keeps. intros (x' & Hx' & Hu)%gone_of_spec. simpl in Hx'.
    rewrite Hq in Hx'. injection Hx' as <-. unfold projects.undeclared in Hu.
    by rewrite bool_decide_eq_true_2, andb_false_r in Hu by done.
  - intros q x [Hq Hn]%map_lookup_filter_Some. apply not_true_iff_false. intros Hu.
    apply Hn, gone_of_spec. by exists x.
Qed.
End boot.

(** ** The bootstrap *)

Section run.
Context `{UrlHost, Files, Cipher, PasswordHash} (dr : Drawn) (key : option string).

(** The tables of projects, but for their members. *)
Definition members_aside (w : World) := (w_projects w, below w).

Lemma aside_members new_id p l resolve :
  leads (same members_aside) (project_members.sync_for_project new_id p l resolve).
Proof.
  apply leads_mbind; [apply _|by apply same_query|]. intros [].
  induction l as [|m l IH]; [by intros w|]. apply leads_mbind; [apply _| |by intros []].
  destruct (resolve _); [|by intros w]. apply leads_mbind; [apply _| |by intros x w].
  apply same_query; [done|]. intros w. destruct (project_members.find_row _ _ w); [|done].
  destruct (w_project_members w !! _); [done|]. by destruct (project_members.references_ok _ _ w).
Qed.

Lemma beside_aside {A} (m : M A) : leads beside m → leads (same members_aside) m.
Proof. intros Hm w. specialize (Hm w). unfold beside, same, members_aside, below in *. congruence. Qed.

(** What follows the projects: keys, users, builders, members. *)
Lemma aside_after cfg :
  leads (same members_aside)
    (for_each (sync_api_key dr) (dc_api_keys cfg) ;;! for_each (sync_user dr) (dc_users cfg) ;;!
     sync_remote_builders cfg ;;! sync_project_members dr cfg ;;! notify_evaluator).
Proof.
  apply leads_mbind; [apply _|apply leads_for_each; [apply _|intros d _; apply beside_aside, beside_sync_key]|].
  intros _. apply leads_mbind;
    [apply _|apply leads_for_each; [apply _|intros d _; apply beside_aside, beside_sync_user]|].
  intros _. apply leads_mbind;
    [apply _|apply leads_when; [apply _|]; apply beside_aside, beside_sync_builders|].
  intros _. apply leads_mbind; [apply _| |].
  - apply leads_mbind; [apply _|by apply same_query|]. intros l.
    apply leads_for_each; [apply _|]. intros d _. apply leads_when; [apply _|].
    apply leads_mbind; [apply _| |intros p; apply aside_members].
    apply leads_or_not_found; [apply _|by apply same_query].
  - intros _. apply leads_mbind; [apply _| |by intros x w]. by apply leads_mtry, same_query.
Qed.

(** C21. When a bootstrap ends without an error, every declared project is as declared: its row
    with each declared column, its jobsets with theirs and, unless the project may be changed
    at run time and declares none, exactly its inputs, its notifications, its webhooks, each
    with its secret encrypted, and its channels, each tracking the jobset named; one that may
    not be changed at run time has no other jobsets; and no project is left that a
    configuration manages and does not release, and that is not declared.  For a
    configuration whose names are distinct, tables that satisfy the schema, and draws that do
    not hit identifiers in use; channels for up to a thousand jobsets. *)
Theorem bootstrap_reconciles cfg w w' :
  NoDup (dp_name <$> dc_projects cfg) → Forall distinct_names (dc_projects cfg) →
  schema_ok w → apart dr w → run dr cfg key w = (Ok (), w') →
  Forall (λ d, ∃ p,
    reconciled dr d
      match dp_allow_runtime_mutation d with
      | Some allow => allow
      | None => dc_allow_runtime_mutation cfg
      end key p w') (dc_projects cfg) ∧
  ∀ q p, w_projects w' !! q = Some p → p_managed_declaratively p = true →
    default (dc_allow_runtime_mutation cfg) (p_allow_runtime_mutation p) = false →
    p_name p ∈ dp_name <$> dc_projects cfg.
Proof.
  intros Hnd Hdis Hw Ha Hr. apply mbind_ok_inv in Hr as ([] & w2 & Hs & Hr).
  apply (leads_ok _ _ _ _ (aside_after cfg)) in Hr.
  assert (Ep : w_projects w' = w_projects w2) by exact (f_equal fst Hr).
  assert (Eb : below w' = below w2) by exact (f_equal snd Hr).
  apply mbind_ok_inv in Hs as ([] & w1 & Hs & Hd). apply mbind_ok_inv in Hd as (n & w0 & Hd & [= ->]).
  apply sync_projects_ok in Hs as (_ & Hl & _); [|done..].
  apply delete_declarative_ok in Hd as [Hk Hu]. split.
  - rewrite Forall_forall in Hl |- *. intros d Hin. destruct (Hl d Hin) as [p Hp]. exists p.
    eapply reconciled_kept; [exact Hp|]. transitivity w2; [|apply below_keeps; [done|by rewrite Ep]].
    destruct (rc_row _ _ _ _ _ _ Hp) as [Hrow [Hname _]]. apply (Hk _ p Hrow). rewrite Hname.
    by apply list_elem_of_fmap_2.
  - intros q p Hq Hm Hal. rewrite Ep in Hq. pose proof (Hu q p Hq) as Hn.
    unfold projects.undeclared in Hn. rewrite Hm, Hal in Hn. simpl in Hn.
    by apply negb_false_iff, bool_decide_eq_true in Hn.
Qed.
End run.

(** ** An example *)

(** A project that is managed and no longer declared. *)
Definition with_old_project : World :=
  set_w_projects (<[draw "p" := project_ex (draw "p") true]> (w_projects empty_world)) empty_world.

Lemma with_old_project_ok : schema_ok with_old_project ∧ apart drawn_ref with_old_project.
Proof.
  split; [by apply put_project; [|by intros i x|apply empty_schema_ok]|]. split.
  - intros n n'. apply draw_inj.
  - intros p n p' n'. apply draw_pair_inj.
  - intros p n p' n' [-> Hn]%draw_pair_inj. split; [done|]. by destruct n, n'.
  - intros p n p' n'. apply draw_pair_inj.
  - intros n x. simpl. rewrite lookup_insert_Some, lookup_empty. by intros [[Hn%draw_inj <-]|[_ ?]].
  - intros p n x Hx. done.
  - intros p n x Hx. done.
  - intros p n x Hx. done.
Qed.

(** The project that is left over goes, the declared one is set up. *)
Lemma bootstrap_reconciles_witness :
  let d := project_decl "nix" ["main"] in
  let w' := boot [d] with_old_project in
  (∃ p, @reconciled files_ref _ cipher_ref drawn_ref d false None p w') ∧
  w_projects w' !! draw "p" = None ∧ size (w_projects w') = 1%nat ∧ size (w_channels w') = 1%nat.
Proof.
  intros d w'. split_and!; [|vm_compute; reflexivity..].
  destruct (@bootstrap_reconciles host_ref files_ref _ cipher_ref password_hash_ref drawn_ref None
              (config_of [d]) with_old_project w') as [Hl _].
  - apply NoDup_singleton.
  - apply Forall_singleton. split; [apply NoDup_singleton|repeat constructor|constructor|constructor|].
    apply NoDup_singleton.
  - apply with_old_project_ok.
  - apply with_old_project_ok.
  - vm_compute. reflexivity.
  - inversion Hl as [|? ? Hd]. exact Hd.
Defined.

(** A channel of one project that an administrator promotes to an evaluation of another keeps
    the other from being removed from the configuration: the next bootstrap fails, and the
    server ends at its start. *)
Theorem foreign_promotion_blocks_start :
  let nix := project_decl "nix" ["main"] in
  let lib := project_decl "lib" ["main"] in
  let ex := key_holder GlobalRole.Admin in
  let hnd c w := (@handle host_ref _ cipher_ref locked_config ex c w).2 in
  let jobset := draw_pair (draw "nix") "main" in
  let evaluation :=
    {| Evals.ce_jobset_id := jobset;
       Evals.ce_commit_hash := "0123456789abcdef0123456789abcdef01234567";
       Evals.ce_pr_number := None; Evals.ce_pr_head_branch := None;
       Evals.ce_pr_base_branch := None; Evals.ce_pr_action := None |} in
  let w := hnd (PromoteChannelCall (draw_pair (draw "lib") "stable") 5)
             (hnd (TriggerCall 5 evaluation) (boot [nix; lib] empty_world)) in
  (@run host_ref files_ref _ cipher_ref password_hash_ref drawn_ref (config_of [lib]) None w).1 =
    Err (Database "foreign key violation").
Proof. vm_compute. reflexivity. Qed.
