(* ===== verification/ChannelExprs.v ===== *)
(** * Channels for Nix clients

    The public routes a [nix-channel] client fetches ([crates/server/src/routes/channels.rs]
    from [nix_escape_string] on, and [channel_manifests.rs]): the Nix expression that exposes
    the succeeded builds of an evaluation, the revision, the address of the cache and the
    list of store paths.  Packing with tar and xz and the text of an identifier are
    parameters; the rows of [build_products] are those of the public cache. *)

From S2P Require Import Prelude Types Float32 Base32 Codecs StorePath Db Frames Builds Evaluations EvalBuilds NixJobs FlakeRefs Validate Worker CacheRoutes Projects ProjectApi.

(** ** Nix texts *)

Definition BACKSLASH : ascii := "\"%char.

Definition nix_escape_char (ch : ascii) : string :=
  if char_is QUOTE ch then String BACKSLASH (String QUOTE "")
  else if char_is BACKSLASH ch then String BACKSLASH (String BACKSLASH "")
  else if char_is NL ch then String BACKSLASH "n"
  else if char_is CR ch then String BACKSLASH "r"
  else if char_is TAB ch then String BACKSLASH "t"
  else if char_is "$" ch then String BACKSLASH "$"
  else String ch "".

Fixpoint nix_escape_chars (s : string) : string :=
  match s with "" => "" | String ch s => nix_escape_char ch +:+ nix_escape_chars s end.

Definition nix_escape_string (s : string) : string :=
  String QUOTE (nix_escape_chars s +:+ String QUOTE "").

Definition is_ident_start (c : ascii) : bool :=
  in_range "a" "z" c || in_range "A" "Z" c || char_is "_" c.

Definition is_ident_char (c : ascii) : bool :=
  is_ascii_alnum c || char_is "_" c || char_is "'" c || char_is "-" c.

Definition is_bare_nix_ident (ident : string) : bool :=
  match ident with
  | "" => false
  | String first rest => is_ident_start first && str_all is_ident_char rest
  end.

Definition render_segment (seg : string) : string :=
  if is_bare_nix_ident seg then seg else nix_escape_string seg.

(** [job_name.split('.').filter(|s| !s.is_empty())]. *)
Definition segments (job_name : string) : list string :=
  List.filter (λ s, negb (is_empty s)) (split_by (char_is ".") job_name).

Definition render_attr_path (job_name : string) : string :=
  str_join "." (render_segment <$> segments job_name).

Definition intermediate_paths (job_name : string) : list string :=
  let segs := segments job_name in
  if zlen segs <? 2 then []
  else (λ i, str_join "." (render_segment <$> firstn i segs)) <$> seq 1 (length segs - 1).

(** ** The outputs of a build *)

Definition add_output (outputs : gmap string string) (row : string * option string) :
    gmap string string :=
  match row.2 with Some path => <[row.1 := path]> outputs | None => outputs end.

Definition or_fallback (build : Build) (outputs : gmap string string) : gmap string string :=
  if decide (outputs = ∅) then
    match b_build_output_path build with Some path => {["out" := path]} | None => ∅ end
  else outputs.

Definition collect_outputs (build : Build) : M (gmap string string) :=
  let! r := mtry (build_outputs.list_for_build (b_id build)) in
  let outputs := match r with Ok rows => foldl add_output ∅ rows | Err _ => ∅ end in
  mret (or_fallback build outputs).

(** A [BTreeMap] with text keys, listed. *)
Definition btree_list {A} (m : gmap string A) : list (string * A) :=
  sort_by (λ a b, String.compare a.1 b.1) (map_to_list m).

(** ** The expression *)

Definition line (s : string) : string := s +:+ String NL "".
Definition text_lines (l : list string) : string := foldr (λ s t, line s +:+ t) "" l.
Definition quoted (s : string) : string := String QUOTE (s +:+ String QUOTE "").

Definition nixexprs_header : string := text_lines
  ["{ system ? builtins.currentSystem }:";
   "";
   "let";
   "";
   "  maybeStorePath = if builtins ? langVersion && builtins.lessThan 1 builtins.langVersion";
   "    then builtins.storePath";
   "    else x: x;";
   "";
   "  mkFakeDerivation = attrs: outputs:";
   "    let";
   "      outputNames = builtins.attrNames outputs;";
   "      common = attrs // outputsSet //";
   "        { type = " +:+ quoted "derivation" +:+ ";";
   "          outputs = outputNames;";
   "          all = outputsList;";
   "        };";
   "      outputToAttrListElement = outputName:";
   "        { name = outputName;";
   "          value = common // {";
   "            inherit outputName;";
   "            outPath = maybeStorePath (builtins.getAttr outputName outputs);";
   "          };";
   "        };";
   "      outputsList = map outputToAttrListElement outputNames;";
   "      outputsSet = builtins.listToAttrs outputsList;";
   "    in outputsSet;";
   "";
   "in";
   ""].

Definition optional_line (name : string) (o : option string) : string :=
  match o with
  | Some v => line ("      " +:+ name +:+ " = " +:+ nix_escape_string v +:+ ";")
  | None => ""
  end.

Definition has_meta (build : Build) : bool :=
  is_some (b_meta_description build) || is_some (b_meta_license build) ||
  is_some (b_meta_homepage build) || is_some (b_meta_maintainers build).

Definition meta_text (build : Build) : string :=
  if has_meta build then
    line "    meta = {" +:+
    optional_line "description" (b_meta_description build) +:+
    optional_line "license" (b_meta_license build) +:+
    optional_line "homepage" (b_meta_homepage build) +:+
    optional_line "maintainers" (b_meta_maintainers build) +:+
    line "    };"
  else "".

Definition output_line (np : string * string) : string :=
  line ("    " +:+ nix_escape_string np.1 +:+ " = " +:+ nix_escape_string np.2 +:+ ";").

Definition default_output (outputs : gmap string string) : string :=
  if is_some (outputs !! "out") then "out"
  else match btree_list outputs with (name, _) :: _ => name | [] => "out" end.

Section expression.
Variable uuid_text : Uuid → string.

Definition entry_text (system : string) (build : Build) (outputs : gmap string string) : string :=
  line ("  # Circus build " +:+ uuid_text (b_id build)) +:+
  line ("  " +:+ render_attr_path (b_job_name build) +:+ " = (mkFakeDerivation {") +:+
  line ("    type = " +:+ quoted "derivation" +:+ ";") +:+
  line ("    name = " +:+ nix_escape_string (b_job_name build) +:+ ";") +:+
  line ("    system = " +:+ nix_escape_string system +:+ ";") +:+
  meta_text build +:+
  line "  } {" +:+
  foldr (λ np t, output_line np +:+ t) "" (btree_list outputs) +:+
  line (line ("  })." +:+ render_segment (default_output outputs) +:+ ";")).

(** [for build in system_builds]. *)
Fixpoint system_entries (system : string) (builds : list Build) (nix_src : string)
    (intermediates : gset string) : M (string * gset string) :=
  match builds with
  | [] => mret (nix_src, intermediates)
  | build :: rest =>
      let! outputs := collect_outputs build in
      if decide (outputs = ∅) then system_entries system rest nix_src intermediates
      else if is_empty (render_attr_path (b_job_name build))
      then system_entries system rest nix_src intermediates
      else system_entries system rest (nix_src +:+ entry_text system build outputs)
             (list_to_set (intermediate_paths (b_job_name build)) ∪ intermediates)
  end.

Definition recurse_line (p : string) : string :=
  line (line ("  " +:+ p +:+ ".recurseForDerivations = true;")).

(** A [BTreeSet] of texts, listed. *)
Definition btree_elements (s : gset string) : list string := sort_strings (elements s).

Definition else_text (first : bool) : string := if first then "" else "else ".

(** [for (system, system_builds) in &by_system]. *)
Fixpoint system_branches (by_system : list (string * list Build)) (first : bool)
    (nix_src : string) : M (bool * string) :=
  match by_system with
  | [] => mret (first, nix_src)
  | (system, builds) :: rest =>
      let nix_src := nix_src +:+ else_text first +:+
        line (line ("if system == " +:+ nix_escape_string system +:+ " then {")) in
      let! (nix_src, intermediates) := system_entries system builds nix_src ∅ in
      let nix_src := nix_src +:+
        foldr (λ p t, recurse_line p +:+ t) "" (btree_elements intermediates) +:+
        line (line "}") in
      system_branches rest false nix_src
  end.

Definition group_build (by_system : gmap string (list Build)) (build : Build) :
    gmap string (list Build) :=
  if bool_decide (b_status build = Succeeded) then
    match b_system build with
    | Some system => <[system := default [] (by_system !! system) ++ [build]]> by_system
    | None => by_system
    end
  else by_system.

Definition by_job (a b : Build) : comparison :=
  then_with (String.compare (b_job_name a) (b_job_name b)) (Z.compare (b_id a) (b_id b)).

(** The text of [default.nix] for the builds the database answered. *)
Definition nixexprs_source (builds : list Build) : M string :=
  let by_system := foldl group_build ∅ builds in
  if decide (by_system = ∅)
  then mfail (NotFound "No succeeded builds with a system attribute in current evaluation")
  else
    let! (first, nix_src) :=
      system_branches (btree_list (sort_by by_job <$> by_system)) true nixexprs_header in
    mret (nix_src +:+ else_text first +:+ line "{}").

(** The members of the archive. *)
Definition nixexprs_files (channel_name : string) (evaluation_id : Uuid) :
    M (list (string * string)) :=
  let! builds := list_for_evaluation evaluation_id in
  let! nix_src := nixexprs_source builds in
  mret [("channel/channel-name", channel_name); ("channel/default.nix", nix_src)].

(** [tar] and [xz]: what they answer for files, in this order. *)
Variable pack : list (string * string) → result CiError string.

Definition build_nixexprs_tarball (channel_name : string) (evaluation_id : Uuid) : M string :=
  let! files := nixexprs_files channel_name evaluation_id in
  lift (pack files).

Definition nixexprs_tarball (id : Uuid) : M string :=
  let! channel := channels.get id in
  match ch_current_evaluation_id channel with
  | None => mfail (NotFound "Channel has no current evaluation")
  | Some evaluation_id => build_nixexprs_tarball (ch_name channel) evaluation_id
  end.
End expression.

(** ** The manifests

    [None] is the bare status 404 of a handler. *)

Module channel_manifests.

Definition git_revision (name : string) : M (option string) :=
  let! channel := channels.get_by_name name in
  match ch_current_evaluation_id channel with
  | None => mret None
  | Some eval_id =>
      let! eval := evaluations.get eval_id in
      mret (Some (e_commit_hash eval))
  end.

Definition project_url (config : CacheConfig) (r : result CiError Project) : option string :=
  match r with
  | Ok p => if p_cache_enabled p
            then project_cache_url (cc_cache_url config) (p_name p) (p_cache_url p) else None
  | Err _ => None
  end.

Definition binary_cache_url (config : CacheConfig) (name : string) : M (option string) :=
  let! channel := channels.get_by_name name in
  let! r := mtry (projects.get (ch_project_id channel)) in
  mret (match project_url config r with
        | Some url => Some url
        | None => if cc_enabled config then cc_cache_url config else None
        end).

Section store_paths.
Variable products : Products.

(** [build_products::list_for_build]; the order by time is lost in the sorting. *)
Definition list_products (build : Uuid) : M (list string) :=
  read (λ _, snd <$> List.filter (λ bp, bp.1 =? build) products).

Fixpoint collect_paths (builds : list Build) (paths : list string) : M (list string) :=
  match builds with
  | [] => mret paths
  | build :: rest =>
      if negb (is_success (b_status build)) then collect_paths rest paths
      else
        let paths := paths ++ option_list (b_build_output_path build) in
        let! r := mtry (list_products (b_id build)) in
        collect_paths rest (match r with Ok ps => paths ++ ps | Err _ => paths end)
  end.

(** [xz]. *)
Variable encode_xz : string → result CiError string.

Definition store_paths_text (eval_id : Uuid) : M string :=
  let! builds := list_for_evaluation eval_id in
  let! paths := collect_paths builds [] in
  mret (str_join (String NL "") (btree_set paths)).

Definition store_paths (name : string) : M (option string) :=
  let! channel := channels.get_by_name name in
  match ch_current_evaluation_id channel with
  | None => mret None
  | Some eval_id =>
      let! plain := store_paths_text eval_id in
      let! compressed := lift (encode_xz plain) in
      mret (Some compressed)
  end.
End store_paths.

Definition nixexprs (uuid_text : Uuid → string) (pack : list (string * string) → result CiError string)
    (name : string) : M (option string) :=
  let! channel := channels.get_by_name name in
  match ch_current_evaluation_id channel with
  | None => mret None
  | Some eval_id =>
      let! xz_data := build_nixexprs_tarball uuid_text pack (ch_name channel) eval_id in
      mret (Some xz_data)
  end.

End channel_manifests.
