(* ===== verification/ChannelRead.v ===== *)
(** * What a Nix client reads in a channel

    [default.nix] as the tokens of the Nix language: the values the database holds are
    read back as they are, in their places, and nothing else is ([channel_reads_back]); its
    bytes do not depend on the order in which the database answers
    ([channel_order_irrelevant]); the list of store paths is exact ([store_paths_exact]). *)

From S2P Require Import Prelude Types Float32 Base32 Codecs StorePath Db Frames Tables Builds Evaluations EvalBuilds NixJobs FlakeRefs Validate JobsetConfig Secrets Notify NotifyQueue Users Auth CacheRoutes Projects ProjectApi ProjectAccess Bootstrap Schema ChannelExprs.

#[local] Set Warnings "-clear-no-such-hyp".

(** ** Reading Nix

    The part of Nix's lexical grammar the expression uses, as a machine over characters:
    white space, comments, names, keywords, strings and single symbols.  Whatever may start
    something else is refused ([None]): in a string a dollar, which could interpolate, and a
    carriage return, which Nix replaces. *)

Inductive token :=
  | TId (name : string)
  | TKeyword (word : string)
  | TStr (value : string)
  | TSym (c : ascii).

Inductive mode :=
  | MStart
  | MWord (word : string)
  | MStr (value : string)
  | MEscape (value : string)
  | MComment.

Definition nix_keywords : list string :=
  ["if"; "then"; "else"; "assert"; "with"; "let"; "in"; "rec"; "inherit"; "or"].

Definition word_token (word : string) : token :=
  if decide (word ∈ nix_keywords) then TKeyword word else TId word.

Definition snoc (s : string) (c : ascii) : string := s +:+ String c "".

Definition is_space (c : ascii) : bool := existsb (λ d, char_is d c) [" "%char; NL; CR; TAB].

Definition is_symbol (c : ascii) : bool :=
  existsb (λ d, char_is d c) (str_chars "{}()=;:?.,&/1").

Definition start_step (c : ascii) : option (list token * mode) :=
  if is_space c then Some ([], MStart)
  else if char_is QUOTE c then Some ([], MStr "")
  else if char_is "#" c then Some ([], MComment)
  else if is_ident_start c then Some ([], MWord (String c ""))
  else if is_symbol c then Some ([TSym c], MStart)
  else None.

Definition escaped_char (c : ascii) : ascii :=
  if char_is "n" c then NL else if char_is "r" c then CR else if char_is "t" c then TAB else c.

Definition lex_step (m : mode) (c : ascii) : option (list token * mode) :=
  match m with
  | MStart => start_step c
  | MWord word =>
      if is_ident_char c then Some ([], MWord (snoc word c))
      else let* (ts, m) := start_step c in Some (word_token word :: ts, m)
  | MStr value =>
      if char_is QUOTE c then Some ([TStr value], MStart)
      else if char_is BACKSLASH c then Some ([], MEscape value)
      else if char_is "$" c || char_is CR c then None
      else Some ([], MStr (snoc value c))
  | MEscape value => Some ([], MStr (snoc value (escaped_char c)))
  | MComment => Some ([], if char_is NL c then MStart else MComment)
  end.

Fixpoint lex (m : mode) (s : string) : option (list token * mode) :=
  match s with
  | "" => Some ([], m)
  | String c s =>
      let* (ts, m) := lex_step m c in
      let* (us, m) := lex m s in
      Some (ts ++ us, m)
  end.

(** The tokens of a text; [None] if it is refused or ends within a string. *)
Definition nix_tokens (s : string) : option (list token) :=
  let* (ts, m) := lex MStart s in
  match m with
  | MStart | MComment => Some ts
  | MWord word => Some (ts ++ [word_token word])
  | MStr _ | MEscape _ => None
  end.

(** ** Composing readings *)

Lemma str_app_cons c s t : String c s +:+ t = String c (s +:+ t).
Proof. done. Qed.

Lemma lex_app m s t :
  lex m (s +:+ t) =
  let* (ts, m) := lex m s in
  let* (us, m) := lex m t in
  Some (ts ++ us, m).
Proof.
  revert m. induction s as [|c s IH]; intros m.
  - change ("" +:+ t) with t. simpl. by destruct (lex m t) as [[]|].
  - rewrite str_app_cons. cbn [lex]. destruct (lex_step m c) as [[ts m1]|]; [|done].
    cbn [obind]. rewrite IH. destruct (lex m1 s) as [[us m2]|]; [|done]. cbn [obind].
    destruct (lex m2 t) as [[vs m3]|]; [|done]. cbn [obind]. by rewrite app_assoc.
Qed.

(** [s] is read as [ts], and what follows is read from the start. *)
Definition reads (s : string) (ts : list token) : Prop := lex MStart s = Some (ts, MStart).

(** The same, if what follows does not continue a word. *)
Definition reads_word (s : string) (ts : list token) : Prop :=
  ∀ c t us m, is_ident_char c = false → lex MStart (String c t) = Some (us, m) →
    lex MStart (s +:+ String c t) = Some (ts ++ us, m).

Lemma reads_nil : reads "" [].
Proof. done. Qed.

Lemma reads_app s t ts us : reads s ts → reads t us → reads (s +:+ t) (ts ++ us).
Proof. unfold reads. intros Hs Ht. rewrite lex_app, Hs. cbn [obind]. by rewrite Ht. Qed.

Lemma reads_pair s t ts us vs : reads s ts → reads t us → ts ++ us = vs → reads (s +:+ t) vs.
Proof. intros Hs Ht <-. by apply reads_app. Qed.

Lemma reads_then s t us : reads s [] → reads t us → reads (s +:+ t) us.
Proof. apply (reads_app s t []). Qed.

Lemma word_reads s ts c t us :
  reads_word s ts → is_ident_char c = false → reads (String c t) us →
  reads (s +:+ String c t) (ts ++ us).
Proof. intros Hs Hc Ht. by apply Hs. Qed.

Lemma word_app s ts c t us :
  reads_word s ts → is_ident_char c = false → start_step c = Some ([TSym c], MStart) →
  reads_word t us → reads_word (s +:+ String c t) (ts ++ TSym c :: us).
Proof.
  intros Hs Hc Hst Ht d v vs m Hd Hv. rewrite <-str_app_assoc, str_app_cons, <-app_assoc. apply Hs; [done|].
  cbn [lex lex_step]. rewrite Hst. cbn [obind]. by rewrite (Ht d v vs m Hd Hv).
Qed.

Lemma reads_line s ts : reads s ts → reads (line s) ts.
Proof. intros Hs. unfold line. rewrite <-(app_nil_r ts). by apply reads_app. Qed.

Lemma reads_fold {A} (f : A → string) (g : A → list token) l :
  (∀ x, x ∈ l → reads (f x) (g x)) → reads (foldr (λ x t, f x +:+ t) "" l) (flat_map g l).
Proof.
  induction l as [|x l IH]; intros Hf; [done|]. cbn [foldr flat_map].
  apply reads_app; [apply Hf; by left|]. apply IH. intros y Hy. apply Hf. by right.
Qed.

(** ** Strings and names *)

Lemma lex_escape v ch : lex (MStr v) (nix_escape_char ch) = Some ([], MStr (snoc v ch)).
Proof. destruct ch as [[] [] [] [] [] [] [] []]; reflexivity. Qed.

Lemma lex_escaped v s : lex (MStr v) (nix_escape_chars s) = Some ([], MStr (v +:+ s)).
Proof.
  revert v. induction s as [|c s IH]; intros v; [by rewrite str_app_nil|].
  cbn [nix_escape_chars]. rewrite lex_app, lex_escape. cbn [obind]. rewrite IH. cbn [obind app].
  unfold snoc. by rewrite <-str_app_assoc.
Qed.

(** A text of any bytes is read back from its literal. *)
Lemma string_reads s : reads (nix_escape_string s) [TStr s].
Proof.
  unfold reads, nix_escape_string. cbn [lex]. change (lex_step MStart QUOTE) with (Some ([] : list token, MStr "")).
  cbn [obind]. rewrite lex_app, lex_escaped. reflexivity.
Qed.

Lemma reads_is_word s ts : reads s ts → reads_word s ts.
Proof.
  intros Hs c t us m _ Ht. rewrite lex_app. unfold reads in Hs. rewrite Hs. cbn [obind].
  by rewrite Ht.
Qed.

Lemma lex_name acc s :
  str_all is_ident_char s = true → lex (MWord acc) s = Some ([], MWord (acc +:+ s)).
Proof.
  revert acc. induction s as [|c s IH]; intros acc Hs; [by rewrite str_app_nil|].
  apply andb_prop in Hs as [Hc Hs]. cbn [lex lex_step]. rewrite Hc. cbn [obind].
  rewrite IH by done. cbn [obind app]. unfold snoc. by rewrite <-str_app_assoc.
Qed.

Lemma start_name c : is_ident_start c = true → start_step c = Some ([], MWord (String c "")).
Proof. destruct c as [[] [] [] [] [] [] [] []]; by vm_compute. Qed.

Lemma name_reads s : is_bare_nix_ident s = true → reads_word s [word_token s].
Proof.
  destruct s as [|c s]; [done|]. intros [Hc Hs]%andb_prop d t us m Hd Ht.
  rewrite str_app_cons. cbn [lex lex_step]. rewrite start_name by done. cbn [obind].
  rewrite lex_app, lex_name by done. cbn [obind lex lex_step app]. rewrite Hd.
  cbn [lex lex_step] in Ht. destruct (start_step d) as [[vs m1]|]; [|done].
  cbn [obind] in Ht |- *. destruct (lex m1 t) as [[xs m2]|]; [|done]. cbn [obind] in Ht |- *.
  injection Ht as <- <-. done.
Qed.

Definition segment_token (seg : string) : token :=
  if is_bare_nix_ident seg then word_token seg else TStr seg.

Lemma segment_reads seg : reads_word (render_segment seg) [segment_token seg].
Proof.
  unfold render_segment, segment_token. destruct (is_bare_nix_ident seg) eqn:Hb.
  - by apply name_reads.
  - apply reads_is_word, string_reads.
Qed.

Fixpoint path_tokens (segs : list string) : list token :=
  match segs with
  | [] => []
  | [seg] => [segment_token seg]
  | seg :: rest => segment_token seg :: TSym "." :: path_tokens rest
  end.

Lemma path_reads segs :
  segs ≠ [] → reads_word (str_join "." (render_segment <$> segs)) (path_tokens segs).
Proof.
  induction segs as [|seg [|s segs] IH]; intros Hne; [done|apply segment_reads|].
  change (reads_word (render_segment seg +:+ String "." (str_join "." (render_segment <$> s :: segs)))
            ([segment_token seg] ++ TSym "." :: path_tokens (s :: segs))).
  apply word_app; [apply segment_reads|done..|]. by apply IH.
Qed.

(** ** The tokens of the expression *)

Definition sym (c : ascii) : token := TSym c.
Definition attr (name value : string) : list token := [TId name; sym "="; TStr value; sym ";"].
Definition optional_attr (name : string) (o : option string) : list token :=
  match o with Some v => attr name v | None => [] end.

Definition meta_tokens (b : Build) : list token :=
  match b_meta_description b, b_meta_license b, b_meta_homepage b, b_meta_maintainers b with
  | None, None, None, None => []
  | description, license, homepage, maintainers =>
      [TId "meta"; sym "="; sym "{"] ++
      optional_attr "description" description ++ optional_attr "license" license ++
      optional_attr "homepage" homepage ++ optional_attr "maintainers" maintainers ++
      [sym "}"; sym ";"]
  end.

Definition output_tokens (np : string * string) : list token :=
  [TStr np.1; sym "="; TStr np.2; sym ";"].

(** [path = (mkFakeDerivation { .. } { outputs }).default;] *)
Definition entry_tokens (system : string) (bo : Build * gmap string string) : list token :=
  let (b, outputs) := bo in
  path_tokens (segments (b_job_name b)) ++ [sym "="; sym "("; TId "mkFakeDerivation"; sym "{"] ++
  attr "type" "derivation" ++ attr "name" (b_job_name b) ++ attr "system" system ++
  meta_tokens b ++ [sym "}"; sym "{"] ++
  flat_map output_tokens (btree_list outputs) ++
  [sym "}"; sym ")"; sym "."; segment_token (default_output outputs); sym ";"].

Definition inner_tokens (segs : list string) : list token :=
  path_tokens segs ++ [sym "."; TId "recurseForDerivations"; sym "="; TId "true"; sym ";"].

(** What the expression offers for one system: builds with their outputs, and the attribute
    paths above them. *)
Record Branch := {
  br_system : string;
  br_entries : list (Build * gmap string string);
  br_inner : list (list string);
}.

(** [if system == ".." then { .. } else] *)
Definition branch_tokens (br : Branch) : list token :=
  [TKeyword "if"; TId "system"; sym "="; sym "="; TStr (br_system br); TKeyword "then"; sym "{"] ++
  flat_map (entry_tokens (br_system br)) (br_entries br) ++
  flat_map inner_tokens (br_inner br) ++
  [sym "}"; TKeyword "else"].

Definition header_tokens : list token := default [] (nix_tokens nixexprs_header).

Definition expression_tokens (branches : list Branch) : list token :=
  header_tokens ++ flat_map branch_tokens branches ++ [sym "{"; sym "}"].

(** Reads a text in pieces: the constants by computation, the others by the lemmas. *)
Ltac read_pieces :=
  lazymatch goal with
  | |- reads (line _) _ => apply reads_line; read_pieces
  | |- reads (nix_escape_string _) _ => apply string_reads
  | |- reads (_ +:+ _) _ => eapply reads_pair; [read_pieces|read_pieces|reflexivity]
  | |- reads _ _ => vm_compute; reflexivity
  end.

Lemma attr_reads prefix name v :
  reads prefix [TId name; sym "="] → reads (prefix +:+ nix_escape_string v +:+ ";") (attr name v).
Proof.
  intros Hp. apply (reads_app _ _ [TId name; sym "="] [TStr v; sym ";"] Hp). read_pieces.
Qed.

Lemma optional_reads name o :
  reads ("      " +:+ name +:+ " = ") [TId name; sym "="] →
  reads (optional_line name o) (optional_attr name o).
Proof.
  intros Hn. destruct o as [v|]; [|done]. apply reads_line.
  replace ("      " +:+ name +:+ " = " +:+ nix_escape_string v +:+ ";")
    with (("      " +:+ name +:+ " = ") +:+ nix_escape_string v +:+ ";")
    by (by rewrite <-!str_app_assoc).
  by apply attr_reads.
Qed.

Lemma meta_reads b : reads (meta_text b) (meta_tokens b).
Proof.
  unfold meta_text, has_meta. set (ts := meta_tokens b).
  assert (E : ts = if has_meta b then [TId "meta"; sym "="; sym "{"] ++
      optional_attr "description" (b_meta_description b) ++
      optional_attr "license" (b_meta_license b) ++
      optional_attr "homepage" (b_meta_homepage b) ++
      optional_attr "maintainers" (b_meta_maintainers b) ++ [sym "}"; sym ";"] else []).
  { subst ts. unfold meta_tokens, has_meta. by repeat case_match. }
  rewrite E. fold (has_meta b). destruct (has_meta b); [|done].
  apply reads_app; [read_pieces|].
  do 4 (apply reads_app; [by apply optional_reads|]). read_pieces.
Qed.

Lemma outputs_read outs :
  reads (foldr (λ np t, output_line np +:+ t) "" (btree_list outs))
        (flat_map output_tokens (btree_list outs)).
Proof.
  apply reads_fold. intros [n p] _. unfold output_line, output_tokens. apply reads_line.
  apply (reads_then "    "); [done|]. read_pieces.
Qed.

Lemma path_line segs t ts :
  segs ≠ [] → reads (String " " t) ts →
  reads ("  " +:+ str_join "." (render_segment <$> segs) +:+ String " " t) (path_tokens segs ++ ts).
Proof.
  intros Hs Ht. apply (reads_then "  "); [done|]. by apply word_reads; [apply path_reads|..].
Qed.

Lemma comment_reads s :
  str_all (λ c, negb (char_is NL c)) s = true → reads (line ("  # Circus build " +:+ s)) [].
Proof.
  intros Hs. unfold reads, line. rewrite <-str_app_assoc, lex_app.
  change (lex MStart "  # Circus build ") with (Some ([] : list token, MComment)). cbn [obind].
  assert (E : lex MComment s = Some ([], MComment)); [|by rewrite lex_app, E].
  induction s as [|c s IH]; [done|]. apply andb_prop in Hs as [Hc Hs]. cbn [lex lex_step].
  apply negb_true_iff in Hc. rewrite Hc. cbn [obind]. by rewrite IH.
Qed.

Section expression.
Variable uuid_text : Uuid → string.
Hypothesis uuid_one_line : ∀ u, str_all (λ c, negb (char_is NL c)) (uuid_text u) = true.

Lemma entry_text_reads system b outs :
  segments (b_job_name b) ≠ [] →
  reads (entry_text uuid_text system b outs) (entry_tokens system (b, outs)).
Proof.
  intros Hs. unfold entry_text, entry_tokens, render_attr_path.
  apply reads_then; [by apply comment_reads|].
  rewrite (app_assoc (path_tokens _)). apply reads_app.
  { apply reads_line, path_line; [done|]. by vm_compute. }
  apply reads_app; [by apply reads_line|].
  apply reads_app; [by apply reads_line, (attr_reads "    name = ")|].
  apply reads_app; [by apply reads_line, (attr_reads "    system = ")|].
  apply reads_app; [apply meta_reads|]. apply reads_app; [by apply reads_line|].
  apply reads_app; [apply outputs_read|]. apply reads_line, reads_line.
  apply (reads_app "  })." _ [sym "}"; sym ")"; sym "."]); [done|].
  change [segment_token (default_output outs); sym ";"]
    with ([segment_token (default_output outs)] ++ [sym ";"]).
  by apply word_reads; [apply segment_reads|..].
Qed.

Lemma inner_reads segs :
  segs ≠ [] → reads (recurse_line (str_join "." (render_segment <$> segs))) (inner_tokens segs).
Proof.
  intros Hs. apply reads_line, reads_line, (reads_then "  "); [done|].
  by apply word_reads; [apply path_reads|..].
Qed.

(** ** Attribute paths *)

(** An attribute path of which [segs] is a proper part, from the left. *)
Definition above (segs full : list string) : Prop :=
  segs ≠ [] ∧ ∃ rest, rest ≠ [] ∧ full = segs ++ rest.

Lemma intermediate_elem job p :
  p ∈ intermediate_paths job ↔
  ∃ segs, above segs (segments job) ∧ p = str_join "." (render_segment <$> segs).
Proof.
  unfold intermediate_paths, zlen, above. case_match eqn:Hlt.
  - split; [by intros ?%elem_of_nil|]. intros (segs & (Hs & rest & Hr & E) & _).
    rewrite E, length_app in Hlt. apply Z.ltb_lt in Hlt. destruct segs, rest; simpl in Hlt; done || lia.
  - apply Z.ltb_ge in Hlt. rewrite list_elem_of_fmap. split.
    + intros (i & -> & Hi%elem_of_seq). exists (firstn i (segments job)). split; [|done]. split.
      * intros E%(f_equal length). rewrite length_take in E. simpl in E. lia.
      * exists (skipn i (segments job)). split; [|by rewrite take_drop].
        intros E%(f_equal length). rewrite length_drop in E. simpl in E. lia.
    + intros (segs & (Hs & rest & Hr & E) & ->). exists (length segs). split.
      * by rewrite E, take_app_length.
      * rewrite E, length_app. apply elem_of_seq. destruct segs, rest; simpl; done || lia.
Qed.

Lemma segment_token_inj s t : segment_token s = segment_token t → s = t.
Proof.
  unfold segment_token, word_token. intros E. repeat case_match; by simplify_eq.
Qed.

Lemma path_tokens_inj l l' : path_tokens l = path_tokens l' → l = l'.
Proof.
  assert (Hns : ∀ s, segment_token s ≠ TSym ".").
  { intros s. unfold segment_token, word_token. by repeat case_match. }
  revert l'. induction l as [|s [|s2 l] IH]; intros [|t [|t2 l']] E; simplify_eq/=; try done.
  - f_equal. by apply segment_token_inj.
  - f_equal; [by apply segment_token_inj|]. by apply IH.
Qed.

(** The text of a path determines its segments. *)
Lemma render_inj l l' :
  l ≠ [] → l' ≠ [] →
  str_join "." (render_segment <$> l) = str_join "." (render_segment <$> l') → l = l'.
Proof.
  intros Hl Hl' E. apply path_tokens_inj.
  pose proof (path_reads l Hl " "%char "" [] MStart eq_refl eq_refl) as H1.
  pose proof (path_reads l' Hl' " "%char "" [] MStart eq_refl eq_refl) as H2.
  rewrite E, H2, !app_nil_r in H1. by injection H1.
Qed.

Lemma render_nil job : is_empty (render_attr_path job) = bool_decide (segments job = []).
Proof.
  unfold render_attr_path. destruct (segments job) as [|s l] eqn:E; [done|].
  assert (Hs : s ≠ "").
  { assert (Hin : s ∈ segments job) by (rewrite E; left). unfold segments in Hin.
    rewrite list_elem_of_In, filter_In in Hin. by destruct Hin as [_ Hin], s. }
  assert (Hr : render_segment s ≠ "") by (unfold render_segment; by case_match).
  rewrite bool_decide_eq_false_2 by done. rewrite fmap_cons. destruct (render_segment s) eqn:Er; [done|].
  by destruct (render_segment <$> l).
Qed.

(** ** The loops, when no statement fails *)

Definition stored_outputs (w : World) (b : Build) : gmap string string :=
  foldl add_output ∅ ((λ kv, (kv.1.2, kv.2)) <$>
    List.filter (λ kv, kv.1.1 =? b_id b) (map_to_list (w_outputs w))).

Definition outputs_of (w : World) (b : Build) : gmap string string :=
  or_fallback b (stored_outputs w b).

Definition expressible (w : World) (b : Build) : bool :=
  bool_decide (outputs_of w b ≠ ∅) && bool_decide (segments (b_job_name b) ≠ []).

Definition entries_of (w : World) (l : list Build) : list (Build * gmap string string) :=
  (λ b, (b, outputs_of w b)) <$> List.filter (expressible w) l.

Definition entries_text (system : string) (es : list (Build * gmap string string)) : string :=
  foldr (λ bo t, entry_text uuid_text system bo.1 bo.2 +:+ t) "" es.

Lemma collect_no_fault w b : w_faults w = [] → collect_outputs b w = (Ok (outputs_of w b), w).
Proof.
  intros Hw. unfold collect_outputs, build_outputs.list_for_build.
  erewrite mbind_ok; [|by apply mtry_ok, read_no_fault]. done.
Qed.

Lemma system_entries_ok w system l src ints :
  w_faults w = [] →
  ∃ ints', system_entries uuid_text system l src ints w =
    (Ok (src +:+ entries_text system (entries_of w l), ints'), w) ∧
  ∀ p, p ∈ ints' ↔ p ∈ ints ∨ ∃ b, b ∈ (entries_of w l).*1 ∧ p ∈ intermediate_paths (b_job_name b).
Proof.
  intros Hw. revert src ints. induction l as [|b l IH]; intros src ints.
  { exists ints. split; [by rewrite str_app_nil|]. intros p. split; [by left|].
    intros [Hp|(b & Hb%elem_of_nil & _)]; done. }
  cbn [system_entries]. rewrite (mbind_ok _ _ _ _ _ (collect_no_fault w b Hw)).
  unfold entries_of. cbn [List.filter]. rewrite render_nil.
  destruct (expressible w b) eqn:Hx; unfold expressible in Hx.
  2:{ rewrite andb_false_iff, !bool_decide_eq_false in Hx. destruct Hx as [Hx%dec_stable|Hx%dec_stable].
      - rewrite decide_True by done. apply IH.
      - case_decide; [apply IH|]. rewrite bool_decide_eq_true_2 by done. apply IH. }
  apply andb_prop in Hx as [Ho%bool_decide_eq_true Hs%bool_decide_eq_true].
  rewrite decide_False, bool_decide_eq_false_2, fmap_cons by done.
  destruct (IH (src +:+ entry_text uuid_text system b (outputs_of w b))
    (list_to_set (intermediate_paths (b_job_name b)) ∪ ints)) as (ints' & -> & Hi).
  exists ints'. split; [by rewrite <-str_app_assoc|]. intros p. rewrite Hi, fmap_cons.
  setoid_rewrite elem_of_cons. rewrite elem_of_union, elem_of_list_to_set. cbn [fst]. naive_solver.
Qed.

(** The collected texts are those of distinct paths. *)
Lemma inner_paths_exist (P : list string → Prop) (texts : list string) :
  NoDup texts →
  (∀ p, p ∈ texts ↔ ∃ segs, P segs ∧ p = str_join "." (render_segment <$> segs)) →
  (∀ segs, P segs → segs ≠ []) →
  ∃ paths, texts = (λ segs, str_join "." (render_segment <$> segs)) <$> paths ∧
    NoDup paths ∧ ∀ segs, segs ∈ paths ↔ P segs.
Proof.
  intros Hnd Ht Hne. set (render := λ segs, str_join "." (render_segment <$> segs)).
  assert (Hall : Forall (λ p, ∃ segs, P segs ∧ p = render segs) texts)
    by (apply Forall_forall; intros p Hp; by apply Ht).
  apply Forall_exists_Forall2_l in Hall as [paths Hp].
  assert (E : texts = render <$> paths) by (clear -Hp; induction Hp as [|???? [_ ->]]; simpl; by f_equal).
  assert (HP : Forall P paths) by (clear -Hp; induction Hp as [|???? [? _]]; by constructor).
  exists paths. split; [done|]. split; [by apply (NoDup_fmap_1 render); rewrite <-E|].
  rewrite Forall_forall in HP. intros segs. split; [apply HP|]. intros Hs.
  assert (Hin : render segs ∈ texts) by (apply Ht; by exists segs).
  rewrite E, list_elem_of_fmap in Hin. destruct Hin as (segs' & Er & Hin).
  apply render_inj in Er; [by subst|by apply Hne|by apply Hne, HP].
Qed.

Lemma btree_elements_ok (s : gset string) :
  NoDup (btree_elements s) ∧ ∀ p, p ∈ btree_elements s ↔ p ∈ s.
Proof.
  unfold btree_elements, sort_strings. split; [rewrite sort_by_perm; apply NoDup_elements|].
  intros p. by rewrite sort_by_perm, elem_of_elements.
Qed.

(** A branch offers the expressible ones of these builds. *)
Record branch_for (w : World) (sb : string * list Build) (br : Branch) : Prop := {
  bf_system : br_system br = sb.1;
  bf_entries : br_entries br = entries_of w sb.2;
  bf_distinct : NoDup (br_inner br);
  bf_inner segs : segs ∈ br_inner br ↔
    ∃ b, b ∈ (br_entries br).*1 ∧ above segs (segments (b_job_name b));
}.

Lemma entries_read w system l :
  reads (entries_text system (entries_of w l)) (flat_map (entry_tokens system) (entries_of w l)).
Proof.
  unfold entries_text. apply (reads_fold (λ bo, entry_text uuid_text system bo.1 bo.2)).
  intros [b o] Hin. cbn [fst snd]. apply entry_text_reads. unfold entries_of in Hin.
  apply list_elem_of_fmap in Hin as (b' & [= -> ->] & Hin). rewrite list_elem_of_In, filter_In in Hin.
  destruct Hin as [_ [_ Hs%bool_decide_eq_true]%andb_prop]. done.
Qed.

Lemma inner_read paths :
  Forall (.≠ []) paths →
  reads (foldr (λ p t, recurse_line p +:+ t) "" ((λ segs, str_join "." (render_segment <$> segs)) <$> paths))
        (flat_map inner_tokens paths).
Proof.
  induction 1 as [|segs paths Hs _ IH]; [done|]. rewrite fmap_cons. cbn [foldr flat_map].
  apply reads_app; [by apply inner_reads|done].
Qed.

Lemma start_reads system :
  reads (line (line ("if system == " +:+ nix_escape_string system +:+ " then {")))
    [TKeyword "if"; TId "system"; sym "="; sym "="; TStr system; TKeyword "then"; sym "{"].
Proof. read_pieces. Qed.

Lemma system_branches_ok w l first src ts :
  w_faults w = [] → reads (src +:+ else_text first) ts →
  ∃ brs first' src', system_branches uuid_text l first src w = (Ok (first', src'), w) ∧
    reads (src' +:+ else_text first') (ts ++ flat_map branch_tokens brs) ∧
    Forall2 (branch_for w) l brs.
Proof.
  intros Hw. revert first src ts. induction l as [|[system builds] l IH]; intros first src ts Hs.
  { exists [], first, src. rewrite app_nil_r. by repeat constructor. }
  cbn [system_branches]. set (start := line (line ("if system == " +:+ _))).
  destruct (system_entries_ok w system builds (src +:+ else_text first +:+ start) ∅ Hw) as (ints & He & Hi).
  rewrite (mbind_ok _ _ _ _ _ He). destruct (btree_elements_ok ints) as [Hnd Hel].
  set (above_some := λ segs, ∃ b, b ∈ (entries_of w builds).*1 ∧ above segs (segments (b_job_name b))).
  destruct (inner_paths_exist above_some (btree_elements ints)) as (paths & -> & Hpn & Hpe); [done| |by intros segs (?&_&? & _)|].
  { intros p. rewrite Hel, Hi. setoid_rewrite intermediate_elem. unfold above_some. set_solver. }
  set (br := {| br_system := system; br_entries := entries_of w builds; br_inner := paths |}).
  assert (Hpr : Forall (.≠ []) paths) by (apply Forall_forall; by intros segs (?&_&? & _)%Hpe).
  edestruct (IH false) as (brs & first' & src' & Hr & Ht & Hf); [|exists (br :: brs), first', src'].
  2:{ split; [exact Hr|]. split; [|by constructor]. cbn [flat_map]. rewrite app_assoc. exact Ht. }
  rewrite <-!str_app_assoc, (str_app_assoc src). apply reads_app; [exact Hs|]. unfold branch_tokens.
  apply reads_app; [apply start_reads|]. apply reads_app; [apply entries_read|].
  apply reads_app; [by apply inner_read|]. by vm_compute.
Qed.

(** ** Grouping and order *)

Definition in_system (system : string) (b : Build) : bool :=
  bool_decide (b_status b = Succeeded) && bool_decide (b_system b = Some system).

Lemma group_lookup l m system :
  foldl group_build m l !! system =
  match List.filter (in_system system) l with
  | [] => m !! system
  | bs => Some (default [] (m !! system) ++ bs)
  end.
Proof.
  revert m. induction l as [|b l IH]; intros m; [done|]. cbn [foldl List.filter]. rewrite IH. clear IH.
  unfold group_build, in_system at 2. case_bool_decide; [|done]. cbn [andb].
  destruct (b_system b) as [s|]; [|done]. destruct (decide (s = system)) as [->|Hs].
  - rewrite bool_decide_eq_true_2, lookup_insert_eq by done.
    destruct (List.filter _ l); [done|]. simpl. by rewrite <-app_assoc.
  - by rewrite bool_decide_eq_false_2, lookup_insert_ne by congruence.
Qed.

Definition grouped (l : list Build) : gmap string (list Build) :=
  sort_by by_job <$> foldl group_build ∅ l.

Lemma grouped_lookup l system bs :
  grouped l !! system = Some bs ↔
  bs = sort_by by_job (List.filter (in_system system) l) ∧ List.filter (in_system system) l ≠ [].
Proof.
  unfold grouped. rewrite lookup_fmap, group_lookup, lookup_empty.
  destruct (List.filter _ l) eqn:E; [by split; [|intros [_ ?]]|]. rewrite fmap_Some. naive_solver.
Qed.


Lemma NoDup_key_inj {A} (key : A → Z) l x y :
  NoDup (key <$> l) → x ∈ l → y ∈ l → key x = key y → x = y.
Proof.
  intros Hnd (i & Hi)%list_elem_of_lookup (j & Hj)%list_elem_of_lookup E.
  assert (i = j) as ->; [|congruence].
  apply (NoDup_lookup _ i j (key x) Hnd); rewrite list_lookup_fmap; [by rewrite Hi|].
  by rewrite Hj, E.
Qed.

Lemma by_job_total l : NoDup (b_id <$> l) → total_on by_job (λ b, b ∈ l).
Proof.
  intros Hnd. apply (total_on_then String.compare Z.compare b_job_name b_id);
    [apply string_compare_total|apply z_compare_total|].
  intros x y Hx Hy _ E. by apply (NoDup_key_inj b_id l).
Qed.

(** The order in which the database answers does not matter. *)
Lemma grouped_perm l l' : NoDup (b_id <$> l) → l ≡ₚ l' → grouped l = grouped l'.
Proof.
  intros Hnd Hp. apply map_eq. intros system. apply option_eq. intros bs.
  rewrite !grouped_lookup. pose proof (filter_perm (in_system system) _ _ Hp) as Hf.
  assert (E : sort_by by_job (List.filter (in_system system) l) =
              sort_by by_job (List.filter (in_system system) l')).
  { apply (sort_by_unique by_job (λ b, b ∈ l)); [by apply by_job_total| |done].
    apply Forall_forall. intros b. rewrite list_elem_of_In, filter_In, <-list_elem_of_In. by intros []. }
  rewrite E. split; intros [-> Hne]; (split; [done|]); intros E0; apply Hne; rewrite E0 in Hf.
  - by apply Permutation_nil_r in Hf.
  - by apply Permutation_nil_l in Hf.
Qed.

Lemma btree_list_elem {A} (m : gmap string A) k x : (k, x) ∈ btree_list m ↔ m !! k = Some x.
Proof. unfold btree_list. by rewrite sort_by_perm, elem_of_map_to_list. Qed.

Definition before (s t : string) : Prop := String.compare s t = Lt.

Lemma btree_list_sorted {A} (m : gmap string A) : StronglySorted before (btree_list m).*1.
Proof.
  set (P := λ kx : string * A, kx ∈ map_to_list m).
  assert (HP : total_on (λ a b : string * A, String.compare a.1 b.1) P).
  { destruct string_compare_total as [Ha He Ht]. constructor; [by intros; apply Ha| |by intros x y z _ _ _; apply Ht].
    intros [k x] [k' x'] Hx Hy [= ->]%He; [|done..]. apply elem_of_map_to_list in Hx, Hy. naive_solver. }
  assert (Hs : StronglySorted (cmp_le (λ a b : string * A, String.compare a.1 b.1)) (btree_list m)).
  { apply (sort_by_sorted _ P HP). by apply Forall_forall. }
  assert (Hnd : NoDup (btree_list m).*1)
    by (unfold btree_list; rewrite sort_by_perm; apply NoDup_fst_map_to_list).
  revert Hnd. induction Hs as [|[k x] l _ IH Hl]; intros Hnd; [constructor|].
  rewrite fmap_cons in Hnd |- *. apply NoDup_cons in Hnd as [Hk Hnd]. constructor; [by apply IH|].
  apply Forall_fmap. rewrite Forall_forall in Hl |- *. intros [k' x'] Hin. specialize (Hl _ Hin).
  unfold cmp_le, before in *. simpl in *. destruct (String.compare k k') eqn:E; [|done|done].
  apply String.compare_eq_iff in E as ->. destruct Hk. apply list_elem_of_fmap. by exists (k', x').
Qed.

(** ** The outputs *)

Lemma add_outputs_lookup rows m n p :
  NoDup rows.*1 →
  foldl add_output m rows !! n = Some p ↔
  (n, Some p) ∈ rows ∨ (m !! n = Some p ∧ ∀ q, (n, Some q) ∉ rows).
Proof.
  revert m. induction rows as [|[k o] rows IH]; intros m Hnd; cbn [foldl].
  { split; [intros Hm; right; split; [done|by intros q ?%elem_of_nil]|].
    by intros [?%elem_of_nil|[Hm _]]. }
  apply NoDup_cons in Hnd as [Hk Hnd]. rewrite IH by done. unfold add_output. cbn [fst snd].
  assert (Hno : ∀ q, (k, q) ∉ rows) by (intros q Hq; apply Hk, list_elem_of_fmap; by exists (k, q)).
  setoid_rewrite elem_of_cons. destruct o as [v|].
  - destruct (decide (k = n)) as [->|Hne].
    + rewrite lookup_insert_eq. naive_solver.
    + rewrite lookup_insert_ne by done. naive_solver.
  - naive_solver.
Qed.

(** The rows of one build in a table keyed by builds and names. *)
Definition rows_of (w : World) (b : Build) : list (string * option string) :=
  (λ kv, (kv.1.2, kv.2)) <$> List.filter (λ kv, kv.1.1 =? b_id b) (map_to_list (w_outputs w)).

Lemma rows_of_elem w b n o : (n, o) ∈ rows_of w b ↔ w_outputs w !! (b_id b, n) = Some o.
Proof.
  unfold rows_of. rewrite list_elem_of_fmap, <-elem_of_map_to_list. split.
  - intros ([[k n'] o'] & [= -> ->] & Hin). rewrite list_elem_of_In, filter_In in Hin.
    destruct Hin as [Hin Ek%Z.eqb_eq]. simpl in Ek. subst k. by apply list_elem_of_In.
  - intros Hin. exists ((b_id b, n), o). split; [done|]. rewrite list_elem_of_In, filter_In.
    split; [by apply list_elem_of_In|]. apply Z.eqb_refl.
Qed.

Lemma rows_of_distinct w b : NoDup (rows_of w b).*1.
Proof.
  unfold rows_of. rewrite <-list_fmap_compose. pose proof (NoDup_fst_map_to_list (w_outputs w)) as Hnd.
  induction (map_to_list (w_outputs w)) as [|[[k n] o] l IH]; [constructor|].
  rewrite fmap_cons in Hnd. apply NoDup_cons in Hnd as [Hk Hnd]. specialize (IH Hnd).
  cbn [List.filter]. destruct (Z.eqb_spec k (b_id b)) as [->|Hne]; cbn [fst]; [|].
  - rewrite Z.eqb_refl, fmap_cons. apply NoDup_cons. split; [|done].
    intros ([[k' n'] o'] & E & Hin)%list_elem_of_fmap. simpl in E. subst n'.
    rewrite list_elem_of_In, filter_In in Hin. destruct Hin as [Hin Ek%Z.eqb_eq]. simpl in Ek. subst k'. apply Hk.
    apply list_elem_of_fmap. exists ((b_id b, n), o'). split; [done|]. by apply list_elem_of_In.
  - by rewrite (proj2 (Z.eqb_neq _ _)).
Qed.

(** An output of a build: a row of the table, or what the build itself names where the table
    knows no path. *)
Definition has_output (w : World) (b : Build) (name path : string) : Prop :=
  w_outputs w !! (b_id b, name) = Some (Some path) ∨
  (∀ n p, w_outputs w !! (b_id b, n) ≠ Some (Some p)) ∧ name = "out" ∧
  b_build_output_path b = Some path.

Lemma stored_outputs_lookup w b n p :
  stored_outputs w b !! n = Some p ↔ w_outputs w !! (b_id b, n) = Some (Some p).
Proof.
  unfold stored_outputs. fold (rows_of w b). rewrite add_outputs_lookup by apply rows_of_distinct.
  rewrite rows_of_elem, lookup_empty. naive_solver.
Qed.

Lemma outputs_of_lookup w b n p : outputs_of w b !! n = Some p ↔ has_output w b n p.
Proof.
  unfold outputs_of, or_fallback, has_output. case_decide as E.
  - assert (Hno : ∀ n p, w_outputs w !! (b_id b, n) ≠ Some (Some p)).
    { intros n' p' Hs%stored_outputs_lookup. by rewrite E in Hs. }
    destruct (b_build_output_path b) as [path|].
    + rewrite lookup_singleton_Some. naive_solver.
    + rewrite lookup_empty. naive_solver.
  - rewrite stored_outputs_lookup. split; [by left|]. intros [?|[Hno _]]; [done|]. destruct E.
    apply map_empty. intros n'. apply eq_None_not_Some. intros [p' Hp]. by apply stored_outputs_lookup, Hno in Hp.
Qed.

Lemma reads_tokens s ts : reads s ts → nix_tokens s = Some ts.
Proof. unfold reads, nix_tokens. by intros ->. Qed.

Lemma nixexprs_source_ok w l :
  w_faults w = [] → foldl group_build ∅ l ≠ ∅ →
  ∃ src brs, nixexprs_source uuid_text l w = (Ok src, w) ∧
    nix_tokens src = Some (expression_tokens brs) ∧
    Forall2 (branch_for w) (btree_list (grouped l)) brs.
Proof.
  intros Hw Hne. unfold nixexprs_source. rewrite decide_False by done. fold (grouped l).
  destruct (system_branches_ok w (btree_list (grouped l)) true nixexprs_header header_tokens)
    as (brs & first & src & Hr & Ht & Hf); [done|by vm_compute|].
  eexists _, brs. split; [by erewrite mbind_ok by exact Hr|]. split; [|done]. apply reads_tokens.
  unfold expression_tokens. rewrite app_assoc, str_app_assoc. apply reads_app; [done|by vm_compute].
Qed.

(** ** What the expression offers *)

(** A succeeded build of the evaluation for a system. *)
Definition offered (w : World) (evaluation : Uuid) (system : string) (b : Build) : Prop :=
  w_builds w !! b_id b = Some b ∧ b_evaluation_id b = evaluation ∧ b_status b = Succeeded ∧
  b_system b = Some system.

Record offers (w : World) (evaluation : Uuid) (br : Branch) : Prop := {
  of_entries b outputs : (b, outputs) ∈ br_entries br ↔
    offered w evaluation (br_system br) b ∧ segments (b_job_name b) ≠ [] ∧ outputs ≠ ∅ ∧
    ∀ name path, outputs !! name = Some path ↔ has_output w b name path;
  of_sorted : StronglySorted (cmp_le by_job) (br_entries br).*1;
  of_once : NoDup (b_id <$> (br_entries br).*1);
  of_inner segs : segs ∈ br_inner br ↔
    ∃ b, b ∈ (br_entries br).*1 ∧ above segs (segments (b_job_name b));
  of_inner_once : NoDup (br_inner br);
}.

Lemma list_nonempty_elem {A} (l : list A) : l ≠ [] → ∃ x, x ∈ l.
Proof. destruct l as [|x l]; [done|]. exists x. left. Qed.

Section answered.
Context (w : World) (evaluation : Uuid) (Hkeyed : keyed_by b_id (w_builds w)).

Let builds : list Build :=
  sort_by (λ a b, Z.compare (bi_created_at (b_info b)) (bi_created_at (b_info a)))
    (List.filter (λ b, b_evaluation_id b =? evaluation) (rows (w_builds w))).

Lemma answered_distinct : NoDup (b_id <$> builds).
Proof. unfold builds. rewrite sort_by_perm. by apply NoDup_fmap_filter_rows. Qed.

Lemma answered_offered system b : b ∈ List.filter (in_system system) builds ↔ offered w evaluation system b.
Proof.
  unfold builds, offered, in_system. rewrite list_elem_of_In, filter_In, <-list_elem_of_In, sort_by_perm.
  rewrite list_elem_of_In, filter_In, <-list_elem_of_In, elem_of_rows, andb_true_iff, !bool_decide_eq_true, Z.eqb_eq.
  split.
  - intros [[[k Hb] ?] [? ?]]. by rewrite (Hkeyed k b Hb).
  - intros (? & ? & ? & ?). eauto.
Qed.

Lemma entries_of_elem l b outputs :
  (b, outputs) ∈ entries_of w l ↔
  b ∈ l ∧ segments (b_job_name b) ≠ [] ∧ outputs ≠ ∅ ∧
  ∀ name path, outputs !! name = Some path ↔ has_output w b name path.
Proof.
  unfold entries_of. rewrite list_elem_of_fmap. setoid_rewrite list_elem_of_In. setoid_rewrite filter_In.
  unfold expressible. setoid_rewrite andb_true_iff. setoid_rewrite bool_decide_eq_true. split.
  - intros (b' & [= <- ->] & Hl & Ho & Hs). repeat (split; [done|]). intros. apply outputs_of_lookup.
  - intros (Hl & Hs & Ho & Hout). assert (outputs = outputs_of w b) as ->; [|by exists b].
    apply map_eq. intros n. apply option_eq. intros p. by rewrite Hout, outputs_of_lookup.
Qed.

Lemma entries_of_fst l : (entries_of w l).*1 = List.filter (expressible w) l.
Proof. unfold entries_of. rewrite <-list_fmap_compose. apply list_fmap_id. Qed.

Lemma StronglySorted_filter {A} (R : A → A → Prop) (p : A → bool) l :
  StronglySorted R l → StronglySorted R (List.filter p l).
Proof.
  induction 1 as [|x l _ IH Hx]; cbn [List.filter]; [constructor|]. destruct (p x); [|done].
  constructor; [done|]. rewrite Forall_forall in Hx |- *. intros y Hy. apply Hx.
  rewrite list_elem_of_In, filter_In, <-list_elem_of_In in Hy. by destruct Hy.
Qed.

Lemma NoDup_fmap_filter {A} (key : A → Z) (p : A → bool) l :
  NoDup (key <$> l) → NoDup (key <$> List.filter p l).
Proof.
  induction l as [|x l IH]; [done|]. rewrite fmap_cons. intros [Hx Hl]%NoDup_cons. cbn [List.filter].
  destruct (p x); [|by apply IH]. rewrite fmap_cons. apply NoDup_cons. split; [|by apply IH].
  intros (y & E & Hy)%list_elem_of_fmap. apply Hx. apply list_elem_of_fmap. exists y. split; [done|].
  rewrite list_elem_of_In, filter_In, <-list_elem_of_In in Hy. by destruct Hy.
Qed.

Lemma branch_offers system l br :
  grouped builds !! system = Some l → branch_for w (system, l) br → offers w evaluation br.
Proof.
  rewrite grouped_lookup. intros [-> _] [Hs He Hd Hi]. simpl in Hs, He.
  split; [|rewrite He, entries_of_fst..|done|done].
  - intros b outputs. rewrite He, entries_of_elem, sort_by_perm, answered_offered. by rewrite Hs.
  - apply StronglySorted_filter, (sort_by_sorted by_job _ (by_job_total _ answered_distinct)).
    apply Forall_forall. intros b Hb.
    rewrite list_elem_of_In, filter_In in Hb. by apply list_elem_of_In, Hb.
  - apply NoDup_fmap_filter. rewrite sort_by_perm. by apply NoDup_fmap_filter, answered_distinct.
Qed.
End answered.

(** C25. A Nix client reads in a channel's expression what the database holds, whatever characters the
    names, descriptions and paths have: no value can leave its string, be interpolated or
    add an attribute.  As tokens of the Nix language, [default.nix] is the constant header
    and one branch for each system that has a succeeded build in the evaluation; a branch
    binds, for each such build with a job name and outputs, sorted and once each, the attribute path of
    the job to a derivation with its name, system, meta data and exactly its outputs, and
    marks each path above one of them, once; nothing else is bound.  Without such builds the answer
    is that there are none.  If no statement fails. *)
Theorem channel_reads_back name evaluation w :
  w_faults w = [] → keyed_by b_id (w_builds w) →
  (nixexprs_files uuid_text name evaluation w =
     (Err (NotFound "No succeeded builds with a system attribute in current evaluation"), w) ∧
   ∀ system b, ¬ offered w evaluation system b) ∨
  ∃ src branches,
    nixexprs_files uuid_text name evaluation w =
      (Ok [("channel/channel-name", name); ("channel/default.nix", src)], w) ∧
    nix_tokens src = Some (expression_tokens branches) ∧
    StronglySorted before (br_system <$> branches) ∧
    (∀ system, system ∈ br_system <$> branches ↔ ∃ b, offered w evaluation system b) ∧
    Forall (offers w evaluation) branches.
Proof.
  intros Hw Hk. unfold nixexprs_files, list_for_evaluation. rewrite (mbind_ok _ _ _ _ _ (read_no_fault _ w Hw)).
  pose proof (answered_offered w evaluation Hk) as Hof.
  pose proof (branch_offers w evaluation Hk) as Hbr. set (builds := sort_by _ _) in *.
  destruct (decide (foldl group_build ∅ builds = ∅)) as [E|E].
  { left. split; [by unfold nixexprs_source, mbind; rewrite decide_True|]. intros system b Hb%Hof.
    pose proof (group_lookup builds ∅ system) as Hg.
    rewrite E, lookup_empty in Hg. destruct (List.filter _ builds); [by apply elem_of_nil in Hb|done]. }
  right. destruct (nixexprs_source_ok w builds Hw E) as (src & brs & Hr & Ht & Hf).
  exists src, brs. split; [by rewrite (mbind_ok _ _ _ _ _ Hr)|]. split; [done|].
  assert (Es : br_system <$> brs = (btree_list (grouped builds)).*1).
  { clear -Hf. induction Hf as [|sb br l brs Hb _ IH]; [done|]. rewrite !fmap_cons. f_equal; [|done].
    apply (bf_system _ _ _ Hb). }
  rewrite Es. split; [apply btree_list_sorted|]. split.
  - intros system. rewrite list_elem_of_fmap. setoid_rewrite <-Hof. split.
    + intros ([s l] & -> & [-> Hne]%btree_list_elem%grouped_lookup). by apply list_nonempty_elem.
    + intros [b Hb]. eexists (system, _). split; [done|]. apply btree_list_elem, grouped_lookup.
      split; [done|]. intros E0. rewrite E0 in Hb. by apply elem_of_nil in Hb.
  - apply Forall_forall. intros br Hin. apply list_elem_of_lookup in Hin as [i Hi].
    eapply Forall2_lookup_r in Hf as ([s l] & Hl & Hb); [|done].
    apply list_elem_of_lookup_2, btree_list_elem in Hl. by apply (Hbr s l).
Qed.

(** The bytes of a channel's expression do not depend on the order in which the database answers
    with the builds: the statement orders by the time of creation, which the builds of one
    evaluation share. *)
Theorem channel_order_irrelevant l l' :
  NoDup (b_id <$> l) → l ≡ₚ l' → nixexprs_source uuid_text l = nixexprs_source uuid_text l'.
Proof.
  intros Hnd Hp. unfold nixexprs_source. fold (grouped l) (grouped l').
  assert (Hiff : foldl group_build ∅ l = ∅ ↔ foldl group_build ∅ l' = ∅).
  { rewrite <-(fmap_empty_iff (sort_by by_job) (foldl _ _ l)), <-(fmap_empty_iff (sort_by by_job) (foldl _ _ l')).
    fold (grouped l) (grouped l'). by rewrite (grouped_perm l l'). }
  rewrite (grouped_perm l l') by done. repeat case_decide; done || tauto.
Qed.
End expression.

(** ** The list of store paths *)

Lemma dedup_sorted l : StronglySorted (cmp_le String.compare) l → StronglySorted before (dedup l).
Proof.
  induction 1 as [|x l Hs IH Hx]; [constructor|]. destruct l as [|y l]; [by repeat constructor|].
  change (dedup (x :: y :: l)) with (if decide (x = y) then dedup (y :: l) else x :: dedup (y :: l)).
  case_decide as E; [done|]. constructor; [done|]. apply Forall_forall.
  intros z Hz. rewrite dedup_elem in Hz. apply Forall_cons in Hx as [Hxy Hx]. unfold cmp_le, before in *.
  assert (Hlt : String.compare x y = Lt).
  { destruct (String.compare x y) eqn:Exy; [|done|done]. by apply String.compare_eq_iff in Exy. }
  apply StronglySorted_inv in Hs as [_ Hy]. rewrite Forall_forall in Hy.
  apply elem_of_cons in Hz as [->|Hz]; [done|]. specialize (Hy z Hz).
  destruct (String.compare y z) eqn:Eyz; [|by eapply string_compare_trans|done].
  apply String.compare_eq_iff in Eyz. by subst.
Qed.

Lemma btree_set_sorted l : StronglySorted before (btree_set l).
Proof.
  apply dedup_sorted, (sort_by_sorted _ (λ _, True) string_compare_total).
  by apply Forall_forall.
Qed.

Definition paths_of (products : Products) (b : Build) : list string :=
  if is_success (b_status b)
  then option_list (b_build_output_path b) ++ (snd <$> List.filter (λ bp, bp.1 =? b_id b) products)
  else [].

Lemma paths_of_elem products b p :
  p ∈ paths_of products b ↔
  b_status b = Succeeded ∧ (b_build_output_path b = Some p ∨ (b_id b, p) ∈ products).
Proof.
  unfold paths_of. destruct (b_status b); simpl;
    try (split; [by intros ?%elem_of_nil|by intros [? _]]).
  rewrite elem_of_app, list_elem_of_fmap. setoid_rewrite list_elem_of_In. setoid_rewrite filter_In.
  setoid_rewrite Z.eqb_eq. split.
  - intros [Ho|([k q] & -> & Hin & Ek)]; (split; [done|]).
    + destruct (b_build_output_path b); [|done]. simpl in Ho. naive_solver.
    + simpl in *. subst k. by right.
  - intros [_ [->|Hin]]; [by left; left|]. right. by exists (b_id b, p).
Qed.

Lemma collect_paths_ok products w l ps :
  w_faults w = [] →
  channel_manifests.collect_paths products l ps w = (Ok (ps ++ flat_map (paths_of products) l), w).
Proof.
  intros Hw. revert ps. induction l as [|b l IH]; intros ps; [by rewrite app_nil_r|].
  cbn [channel_manifests.collect_paths flat_map]. unfold paths_of at 1.
  destruct (is_success _); cbn [negb]; [|apply IH]. unfold channel_manifests.list_products.
  rewrite (mbind_ok _ _ _ _ _ (mtry_ok _ _ _ _ (read_no_fault _ w Hw))), IH. by rewrite <-!app_assoc.
Qed.

(** The list of store paths of a channel names, sorted and once each, exactly the output
    paths and the products of the succeeded builds of its evaluation; if no statement fails. *)
Theorem store_paths_exact products evaluation w :
  w_faults w = [] →
  ∃ paths, channel_manifests.store_paths_text products evaluation w =
    (Ok (str_join (String NL "") paths), w) ∧
  StronglySorted before paths ∧
  ∀ p, p ∈ paths ↔ ∃ k b, w_builds w !! k = Some b ∧ b_evaluation_id b = evaluation ∧
    b_status b = Succeeded ∧ (b_build_output_path b = Some p ∨ (b_id b, p) ∈ products).
Proof.
  intros Hw. unfold channel_manifests.store_paths_text, list_for_evaluation.
  rewrite (mbind_ok _ _ _ _ _ (read_no_fault _ w Hw)), (mbind_ok _ _ _ _ _ (collect_paths_ok _ w _ _ Hw)).
  eexists. split; [done|]. split; [apply btree_set_sorted|]. intros p. rewrite btree_set_elem. cbn [app].
  rewrite list_elem_of_In, in_flat_map. setoid_rewrite <-list_elem_of_In. setoid_rewrite sort_by_perm.
  setoid_rewrite list_elem_of_In. setoid_rewrite filter_In. setoid_rewrite <-list_elem_of_In.
  setoid_rewrite elem_of_rows. setoid_rewrite Z.eqb_eq. setoid_rewrite paths_of_elem. naive_solver.
Qed.

(** ** Names that are keywords *)

(** The name a token gives to an attribute; [or] is the one keyword Nix takes for a name. *)
Definition attribute_name (t : token) : option string :=
  match t with
  | TId name | TStr name => Some name
  | TKeyword word => if decide (word = "or") then Some word else None
  | TSym _ => None
  end.

(** A segment of a job name is read as the attribute of this name, unless it is a keyword: those
    [is_bare_nix_ident] takes for names, and the expression is no Nix. *)
Lemma segment_is_attribute seg :
  attribute_name (segment_token seg) = Some seg ↔ seg = "or" ∨ seg ∉ nix_keywords.
Proof.
  unfold segment_token, word_token. destruct (is_bare_nix_ident seg) eqn:Hb.
  - case_decide as Hk; simpl; [case_decide; naive_solver|]. naive_solver.
  - simpl. split; [|done]. intros _. right. intros Hk. revert Hb.
    repeat (apply elem_of_cons in Hk as [->|Hk]; [by vm_compute|]). by apply elem_of_nil in Hk.
Qed.

(** ** Examples *)

Definition succeeded_ex (id : Uuid) (evaluation : Uuid) (job : string) (output : option string) : Build :=
  {| b_info := {| bi_id := id; bi_evaluation_id := evaluation; bi_job_name := job;
       bi_drv_path := "/nix/store/x.drv"; bi_system := Some "x86_64-linux"; bi_max_retries := 3;
       bi_notification_pending_since := None; bi_created_at := 0; bi_outputs := None;
       bi_is_aggregate := false; bi_constituents := None; bi_is_fod := false; bi_fod_hash := None;
       bi_meta_description := Some ("a " +:+ quoted "${quoted}" +:+ " text"); bi_meta_license := None;
       bi_meta_homepage := None; bi_meta_maintainers := None; bi_required_features := [] |};
     b_run := {| br_status := Succeeded; br_started_at := Some 0; br_completed_at := Some 1;
       br_log_path := None; br_build_output_path := output; br_error_message := None;
       br_retry_count := 0; br_effective_features := None; br_started_notified_at := None |};
     b_priority := 0; b_builder_id := None; b_agent_machine_id := None; b_signed := true;
     b_keep := false |}.

Definition with_builds (l : list Build) (w : World) : World :=
  set_w_builds (list_to_map ((λ b, (b_id b, b)) <$> l)) w.

Definition two_packages : World :=
  with_builds [succeeded_ex 1 7 "tools.a b" (Some "/nix/store/a"); succeeded_ex 2 7 "lib" (Some "/nix/store/b")]
    empty_world.

Definition uuid_ex (u : Uuid) : string := if u =? 1 then "build-1" else "build-2".

Lemma offered_ex :
  offered two_packages 7 "x86_64-linux" (succeeded_ex 2 7 "lib" (Some "/nix/store/b")).
Proof. unfold offered. split_and!; [vm_compute; reflexivity|done..]. Qed.

Lemma channel_reads_back_witness :
  ∃ src branches,
    nixexprs_files uuid_ex "stable" 7 two_packages =
      (Ok [("channel/channel-name", "stable"); ("channel/default.nix", src)], two_packages) ∧
    nix_tokens src = Some (expression_tokens branches) ∧
    Forall (offers two_packages 7) branches ∧ "x86_64-linux" ∈ br_system <$> branches.
Proof.
  destruct (channel_reads_back uuid_ex) with (name := "stable") (evaluation := 7) (w := two_packages)
    as [[_ Hno]|(src & brs & Hr & Ht & Hs & Hsys & Hf)].
  - intros u. unfold uuid_ex. by case_match.
  - done.
  - intros k b Hb. unfold two_packages, with_builds in Hb. apply elem_of_list_to_map_2 in Hb. set_solver.
  - by destruct (Hno _ _ offered_ex).
  - exists src, brs. split_and!; [done..|]. apply Hsys.
    eexists. apply offered_ex.
Defined.

(** The path and the quotes as a client reads them, and a job named after a keyword. *)
Example channel_tokens_ex :
  nix_tokens (render_attr_path "tools.a b") = Some [TId "tools"; TSym "."; TStr "a b"] ∧
  nix_tokens (render_attr_path "lib.with") = Some [TId "lib"; TSym "."; TKeyword "with"].
Proof. by vm_compute. Qed.

(** The public addresses of a channel name no project: once another project has a channel of
    the same name, its clients are told that there is no revision. *)
Theorem channel_name_taken_over :
  let ex := key_holder GlobalRole.Admin in
  let hnd c w := (@handle host_ref _ cipher_ref locked_config ex c w).2 in
  let evaluation :=
    {| Evals.ce_jobset_id := draw_pair (draw "nix") "main";
       Evals.ce_commit_hash := "0123456789abcdef0123456789abcdef01234567";
       Evals.ce_pr_number := None; Evals.ce_pr_head_branch := None;
       Evals.ce_pr_base_branch := None; Evals.ce_pr_action := None |} in
  let w1 := hnd (PromoteChannelCall (draw_pair (draw "nix") "stable") 5)
              (hnd (TriggerCall 5 evaluation) (boot [project_decl "nix" ["main"]] empty_world)) in
  let w2 := boot [project_decl "nix" ["main"]; project_decl "packages" ["main"]] w1 in
  (channel_manifests.git_revision "stable" w1).1 =
    Ok (Some "0123456789abcdef0123456789abcdef01234567") ∧
  (channel_manifests.git_revision "stable" w2).1 = Ok None.
Proof. split; vm_compute; reflexivity. Qed.
