(* ===== verification/S3Sign.v ===== *)
(** * Presigned requests ([crates/s3/src/lib.rs])

    [Presigner::presign_at]: the address under which an agent uploads an object and the
    public cache redirects to one, with the AWS Signature Version 4 in its query.  The
    crates for percent-encoding, URLs, HMAC and dates are interfaces. *)

From S2P Require Import Prelude Types Float32 Base32 Codecs StorePath Db NixJobs FlakeRefs Validate S3.

(** ** Third-party code *)

(** A percent sign and two upper-case digits. *)
Definition upper_digit (d : Z) : ascii := default "0"%char (str_chars "0123456789ABCDEF" !! Z.to_nat d).

Definition percent_byte (c : ascii) : string :=
  String "%" (String (upper_digit (byte_of c / 16)) (String (upper_digit (byte_of c mod 16)) "")).

(** [percent_encoding]: as documented, [utf8_percent_encode] writes the bytes of the ASCII
    set [set], and those that are not ASCII, in this way, and keeps the others. *)
Class PercentEncoding := {
  utf8_percent_encode : (ascii → bool) → string → string;
  percent_encode_nil set : utf8_percent_encode set "" = "";
  percent_encode_cons set c s :
    utf8_percent_encode set (String c s) =
    (if set c || negb (byte_of c <? 128) then percent_byte c else String c "") +:+
    utf8_percent_encode set s;
}.

(** [url::Url]: the parts the presigner asks for. *)
Record ParsedUrl := {
  url_scheme : string;
  url_host_str : option string;
  url_port : option Z;
}.

Class UrlParse := parse_url : string → option ParsedUrl.

(** [hmac::Hmac<Sha256>] over a key and data, and [chrono]'s text of a time. *)
Class Signing := {
  hmac_sha256 : list Z → list Z → list Z;
  format_iso8601 : Z → string;
  hmac_sha256_bytes key m : Forall is_byte (hmac_sha256 key m);
}.

(** ** Encoding *)

(** [NON_ALPHANUMERIC]: the ASCII characters that are neither letters nor digits. *)
Definition NON_ALPHANUMERIC (c : ascii) : bool := (byte_of c <? 128) && negb (is_ascii_alnum c).

Definition AWS_QUERY_ENCODE_SET (c : ascii) : bool :=
  NON_ALPHANUMERIC c && negb (existsb (λ d, char_is d c) (str_chars "-_.~")).

Section presign.
Context `{PercentEncoding, UrlParse, Codecs, Signing}.

Definition aws_query_encode (s : string) : string := utf8_percent_encode AWS_QUERY_ENCODE_SET s.
Definition aws_path_encode (s : string) : string := utf8_percent_encode AWS_QUERY_ENCODE_SET s.

Definition encoded_key_path (key : string) : string :=
  str_join "/" (aws_path_encode <$> split_by (char_is "/") key).

Definition canonical_path (key : string) (path_style_bucket : option string) : string :=
  let segments := aws_path_encode <$> split_by (char_is "/") (trim_start_char "/" key) in
  match path_style_bucket with
  | None => "/" +:+ str_join "/" segments
  | Some b => "/" +:+ aws_path_encode b +:+ "/" +:+ str_join "/" segments
  end.

Definition endpoint_authority (url : ParsedUrl) : string :=
  let host := default "" (url_host_str url) in
  match url_port url with None => host | Some port => host +:+ ":" +:+ pretty port end.

(** ** The address *)

Definition push_key (base key : string) : string :=
  if is_empty key then base else base +:+ "/" +:+ encoded_key_path key.

Definition host_and_base (p : Presigner) (key : string) : string * string :=
  let key := trim_start_char "/" key in
  match ps_endpoint_url p with
  | Some endpoint =>
      let endpoint_url := parse_url endpoint in
      let endpoint_host :=
        match endpoint_url with Some u => endpoint_authority u | None => endpoint end in
      if ps_use_path_style p then
        (endpoint_host, push_key (trim_end_matches "/" endpoint +:+ "/" +:+ ps_bucket p) key)
      else
        let scheme := match endpoint_url with Some u => url_scheme u | None => "https" end in
        let host := ps_bucket p +:+ "." +:+ endpoint_host in
        (host, push_key (scheme +:+ "://" +:+ host) key)
  | None =>
      if ps_use_path_style p then
        let host := "s3." +:+ ps_region p +:+ ".amazonaws.com" in
        (host, "https://" +:+ host +:+ "/" +:+ ps_bucket p +:+ "/" +:+ encoded_key_path key)
      else
        let host := ps_bucket p +:+ ".s3." +:+ ps_region p +:+ ".amazonaws.com" in
        (host, "https://" +:+ host +:+ "/" +:+ encoded_key_path key)
  end.

(** ** The signature *)

Definition derive_signing_key (secret date region service : string) : list Z :=
  let k_date := hmac_sha256 (as_bytes ("AWS4" +:+ secret)) (as_bytes date) in
  let k_region := hmac_sha256 k_date (as_bytes region) in
  let k_service := hmac_sha256 k_region (as_bytes service) in
  hmac_sha256 k_service (as_bytes "aws4_request").

(** [&datetime[..8]]. *)
Definition date_of (datetime : string) : string := str_of (firstn 8 (str_chars datetime)).

Definition credential_scope (p : Presigner) (datetime : string) : string :=
  date_of datetime +:+ "/" +:+ ps_region p +:+ "/s3/aws4_request".

(** [expiry.as_secs().clamp(1, 7 * 24 * 60 * 60)]. *)
Definition expiry_secs (expiry : Z) : Z := clamp 1 604800 expiry.

Definition query_params (p : Presigner) (expiry : Z) (datetime : string) : list (string * string) :=
  sort_by (λ a b, String.compare a.1 b.1)
    ([("X-Amz-Algorithm", "AWS4-HMAC-SHA256");
      ("X-Amz-Credential", access_key (ps_credentials p) +:+ "/" +:+ credential_scope p datetime);
      ("X-Amz-Date", datetime);
      ("X-Amz-Expires", pretty (expiry_secs expiry));
      ("X-Amz-SignedHeaders", "host")] ++
     match session_token (ps_credentials p) with
     | Some tok => [("X-Amz-Security-Token", tok)]
     | None => []
     end).

Definition encode_params (params : list (string * string)) : string :=
  str_join "&" ((λ kv, aws_query_encode kv.1 +:+ "=" +:+ aws_query_encode kv.2) <$> params).

Definition canonical_request (p : Presigner) (method key : string) (expiry : Z) (datetime : string) :
    string :=
  let object_key := object_key p key in
  let host := (host_and_base p object_key).1 in
  str_join (String NL "")
    [method;
     canonical_path object_key (if ps_use_path_style p then Some (ps_bucket p) else None);
     encode_params (query_params p expiry datetime);
     "host:" +:+ host +:+ String NL "";
     "host";
     "UNSIGNED-PAYLOAD"].

Definition string_to_sign (p : Presigner) (method key : string) (expiry : Z) (datetime : string) :
    string :=
  "AWS4-HMAC-SHA256" +:+ String NL (datetime +:+ String NL (credential_scope p datetime +:+
    String NL (hex_encode (sha256 (as_bytes (canonical_request p method key expiry datetime)))))).

Definition signature (p : Presigner) (method key : string) (expiry : Z) (datetime : string) : string :=
  let signing_key :=
    derive_signing_key (secret_key (ps_credentials p)) (date_of datetime) (ps_region p) "s3" in
  hex_encode (hmac_sha256 signing_key (as_bytes (string_to_sign p method key expiry datetime))).

Definition presign_at (p : Presigner) (method key : string) (expiry now : Z) : string :=
  let datetime := format_iso8601 now in
  let base_url := (host_and_base p (object_key p key)).2 in
  base_url +:+ "?" +:+ encode_params (query_params p expiry datetime) +:+
    "&X-Amz-Signature=" +:+ signature p method key expiry datetime.

Definition presign_put (p : Presigner) (key : string) (expiry now : Z) : string :=
  presign_at p "PUT" key expiry now.

Definition presign_get (p : Presigner) (key : string) (expiry now : Z) : string :=
  presign_at p "GET" key expiry now.

End presign.
